(* ===== verification/_CoqProject ===== *)
-Q . S2P
Prelude.v
RustStr.v
Json.v
Posix.v
Budget.v
Limits.v
Ledger.v
CrashSafety.v
PrivateStore.v
Process.v
Template.v
Sockets.v
ControlData.v
Engine.v
Receipts.v
EngineSpec.v
ControlRun.v
ControlTransport.v
ControlServe.v
Workloads.v
Observation.v
Generations.v
Policy.v
Net.v
Activity.v
Config.v
Http.v
Envelope.v
Storage.v
Streaming.v
Broker.v
Server.v
WorkerFs.v
WorkerData.v
Queue.v
Review.v
Capsule.v
Worker.v
WorkerSpec.v
QueueSpec.v
QueueKeys.v
QueueSteps.v
QueueCommands.v
WorkerRun.v
WorkerFacts.v
Advisory.v
Proposals.v
ProposalsRun.v
Connector.v
ConnectorSpec.v
Front.v
FrontSpec.v
FrontFacts.v
Services.v
Manifest.v
Live.v
Descriptor.v
CliHost.v
Desired.v
DesiredFacts.v
DesiredSpec.v
DesiredRun.v
CliCommands.v
Onboarding.v
Cli.v
LiveFacts.v
OnboardingRun.v
Doctor.v
CliSafety.v
CliRun.v
Scenarios.v
ScenarioLedger.v
ScenarioParts.v
ScenarioBroker.v
ScenarioCodec.v
ScenarioControl.v
ScenarioWorkloads.v
ScenarioWorker.v
ScenarioFront.v
ScenarioCli.v
