(* ===== verification/Prelude.v ===== *)
(** * Tentaflake: verification library (root file)

    Tentaflake runs AI agents in virtual machines or containers and keeps every
    credential and every outside connection on the host.  The agent's only way
    out is a broker: one process per agent, which either forwards chat requests
    to one LLM provider or fetches allow-listed public pages, holds the
    provider's key, enforces rate and daily budgets that survive crashes, and
    writes an audit log.  Around it, a control plane turns proposed configurations
    into built systems, each step by a different peer, a registry publishes
    which container runs for which agent, a worker runs the jobs an agent asks
    for in disposable containers, after the approval their class needs, and a
    connector reads granted resources of outside accounts and keeps a queue of
    proposals for human review.  The operator sees and drives all this through a
    command line, which validates the desired system, adds agents to it and
    compares running containers with what was declared.  This
    library models the broker ([crates/tentaflake-broker]), the telemetry library
    it reports to ([crates/tentaflake-activity]), the control plane
    ([crates/tentaflake-control]), the workload registry
    ([crates/tentaflake-workloads]), the worker ([crates/tentaflake-worker]), the
    integrations ([crates/tentaflake-integrations]) and the command line
    ([crates/tentaflake-cli]), and proves the properties the design rests on.

    ** Parts of the program and the files that model them

    Foundations, which model the language, its standard library and the system
    calls the code uses:
    - [Prelude]: the state-and-error monad [M], its rules ([wp], [wp_step]),
      64-bit checked arithmetic, the hint database [broker], list lemmas.
    - [RustStr]: [str], [u8], [char], UTF-8, splitting, trimming, number parsing.
    - [Json]: [serde_json::Value] and its accessors.
    - [Posix]: names, inodes, links, modes, [flock], atomic exchange, the wall clock.
    - [Net]: sockets and the monotonic clock.
    - [Sockets]: binding a local socket to a path.

    The broker, [crates/tentaflake-broker/src]:
    - [Budget] ([state.rs], storage half): [BudgetState], the strict marker and
      lock owner, [strict_digest], [read_strict_budget], [atomic_json].
    - [Limits] ([state.rs]): [Limits], [Reservation], [UsageGuard]; loading,
      admission, settlement, usage observation, destructors, provisioning and
      reconciliation.
    - [Storage] ([state.rs]): the quarantine store, the audit log, credential files.
    - [Policy] ([policy.rs]): target resolution and the address filter.
    - [Config] ([config.rs]): configuration records, defaults, validation.
    - [Http] ([http.rs]): [read_request].
    - [Envelope] ([broker.rs], pure half): request admission, the strict cost
      envelope, cost and usage arithmetic, bounded reads, sanitisation.
    - [Streaming] ([streaming.rs]): the server-sent-event parser, the stream
      protocol, the relay to the client and its settlement.
    - [Broker] ([broker.rs]): [Broker::new], [health], [handle], [handle_llm],
      [handle_fetch].
    - [Server] ([main.rs], [write_response] of [http.rs]): one connection from
      its first byte to its last, the accept loop's counter, the command line.

    Telemetry, [crates/tentaflake-activity/src/lib.rs]:
    - [Activity]: the host-fixed context, the framed exchange with the collector,
      the per-request [Guard], the worker relay.
    - [Services]: the relay's socket, its accept loop and its executable; and the same
      of the integrations' front door.

    The control plane, [crates/tentaflake-control/src]:
    - [PrivateStore] ([storage.rs]): descriptor walks, the locked private
      directory and its atomic replacement.
    - [Process] ([process.rs], and [bounded_command] of the registry): a child
      process read with a deadline and an output limit.
    - [Template] ([template.rs]): store paths, the inventory of a template, its
      fingerprint, the candidate directory.
    - [ControlData] ([lib.rs], [json.rs]): configuration, requests, receipts and
      their validation, duplicate-free JSON, [diff].
    - [Engine] ([lib.rs]): [Config], [Engine] (open, handle, persist, claim,
      finish), [Work::execute], an iteration of [worker].
    - [ControlTransport] ([transport.rs], [main.rs]): HTTP framing on both sides,
      peer identification, the client and the command line.
    - [ControlServe] ([serve] of [transport.rs], [worker] of [lib.rs], [main.rs]): the
      service's endpoint and its two threads; the service as a run of [ControlRun].

    The workload registry, [crates/tentaflake-workloads/src]:
    - [Workloads] ([lib.rs], [main.rs]): policy, parsers, kernel checks, the two
      rounds of observation, generations, initialisation, start and the cycle.

    The worker, [crates/tentaflake-worker/src]:
    - [WorkerFs]: the system calls it adds to [Posix], the scripts of the container
      runtime, and the descriptor helpers of [main.rs].
    - [WorkerData] ([main.rs], pure half): configuration, requests, results, their
      validation, the options of the runtime, markers, archive paths, logs, modes.
    - [Queue] ([queue.rs], and [audit], [write_json], [finish_without_run] of
      [main.rs]): private files, retained storage, claiming, retiring, publishing.
    - [Review] ([review.rs]): the queue as an operator sees it, and recorded
      decisions.
    - [Capsule] ([main.rs]): the snapshot, the container, the completion marker, the
      import of artifacts, the supervision loop.
    - [Worker] ([main.rs], [recover] of [queue.rs]): execution with its guards,
      recovery, ingestion, the queue loop, every command and the command line.

    The integrations, [crates/tentaflake-integrations/src]:
    - [Connector] ([lib.rs]): grants, routes, the gateway with its slot and audit,
      the HTTPS transport; the traits are classes; the state that threads share,
      and the schedule of what the other threads do to it.
    - [Advisory] ([advisory.rs]): the observer's policy and proposals.
    - [Proposals] ([review.rs]): the durable review queue.
    - [Front] ([front.rs], [front/activity.rs], [main.rs]): runtime credentials, the
      journal, construction, dispatch, framing, the connection loop.

    The command line, [crates/tentaflake-cli/src]:
    - [CliHost]: its outcomes ([fault]: a message, a panic, or the program that
      replaces it), and its state [cli]: file system, environment, what it printed
      and started, and the scripts of children, probes and answers.
    - [Manifest] ([main.rs]): the parsers of [cli.conf], [agents.tsv] and
      [security.tsv], [find_agent], and the findings of the declared state.
    - [Live] ([main.rs]): the live checks of a container and a network ([live_*]).
    - [Descriptor] ([schema/system-v1.json], [adapters/catalog.json]): the two
      documents compiled into the executable.
    - [Desired] ([desired_system.rs]): the validator, the readers and writers
      around it, the [config] command.
    - [CliCommands] ([main.rs]): bounded inspections, broker probes, the security
      doctor, the operator's commands.
    - [Onboarding] ([onboarding.rs]): templates, and validating, planning and
      importing a fragment.
    - [Cli] ([main.rs]): output flags, dispatch, the exit status.

    Specification layers:
    - [Ledger]: the abstract ledger [bstep] and the refinement of each operation.
    - [CrashSafety]: [run], the lifetime of a strict budget over restarts,
      crashes and reconciliation, and the ledger's theorems.
    - [Receipts]: the abstract receipts of the control plane, a transition system
      whose steps are propose, approve, build, claim, finish and restart, and
      that each step keeps them valid and linked.
    - [EngineSpec]: every operation of [Engine] against [Receipts], from any state
      and under any failures: what it publishes and what it leaves behind.
    - [ControlRun]: [run], the control plane over its lifetime (any peer, any
      interleaving of requests and the worker, crashes, restarts).
    - [Observation]: what an observed identity rests on.
    - [Generations]: [run], the registry over its lifetime.
    - [WorkerSpec]: the records of a worker's queue ([key]), and the changes of a
      file system that no record sees ([qworld], [qrel]), for every system call.
    - [QueueSpec]: which functions of the worker are quiet in that sense, and what
      the others learn from the records they read; [QueueKeys]: what publishing,
      claiming, moving and removing do to the records.
    - [QueueSteps]: [qstep], the abstract queue, and every function of the worker
      as a sequence of its steps; [QueueCommands]: the same for whole commands.
    - [WorkerRun]: [lives], the worker over its lifetime, and its theorems;
      [WorkerFacts]: the capsule's options, paths, logs and supervision.
    - [ProposalsRun]: [history], the review queue over its lifetime.
    - [ConnectorSpec]: what other threads can do ([moved], [quiet]), the contracts
      of the three traits ([LawfulSource], [LawfulTransport], [LawfulSink]) and a
      read against them; [FrontSpec]: that the front's parts keep the contracts, and
      the events of each request; [FrontFacts]: the theorems.
    - [DesiredSpec]: [accepted], what an accepted desired system satisfies, on the
      inversions of [DesiredFacts]; [DesiredRun]: the [config] command over the file
      system.
    - [LiveFacts]: [capsule], the observed facts of a secure container, and the
      order of states; [Doctor]: what the report and the exit status of the security
      doctor rest on, and the bounds of an inspection.
    - [OnboardingRun]: [onboarding_outcome], every way a fragment's command can end.
    - [CliSafety]: the commands that only stop with a message, and the programs
      that replace the others; [CliRun]: [takes_over], for the whole command line.
    - [Scenarios], [ScenarioLedger], [ScenarioParts], [ScenarioBroker],
      [ScenarioCodec], [ScenarioControl], [ScenarioWorkloads], [ScenarioWorker],
      [ScenarioFront], [ScenarioCli]: concrete instances
      of the external crates, and one execution per theorem at which its
      hypotheses hold.

    ** How state and operations correspond to the code

    A fallible Rust function becomes a function in [M S E A = S -> result E A * S]:
    the state is threaded explicitly and kept on the error path, because what a
    failed call leaves behind is what most of the theorems are about.  [?] is the
    bind of the monad, [map_err] and [ok_or] are Rust's, and an early return is a
    failure or the other branch of a conditional.  A value with a destructor
    ([Reservation], [UsageGuard], the activity [Guard]) is a component of the
    state; [Broker.scoped] and [Streaming.drop_stream] run the destructors on
    every exit, and moving the value into a response takes it out first.  What
    is behind the broker's mutex is [Limits.ledger]; since every operation holds
    the mutex from start to end, concurrent requests are sequences of operations,
    in any order.  Unsigned integers are [Z] with their checked or saturating
    operations written out.

    The environment is chosen by whoever states a theorem.  Each fallible system
    call consumes one entry of [Posix.w_faults], each network operation one entry
    of a script ([Net.conn], [Streaming.wait], [Broker.exchange]), each clock
    reading one entry of a clock; so a theorem about every state covers every
    pattern of failures, partial writes, fragmentation and timing.  The code
    returns at the first error, hence the state after a failed call is also the
    state that a crash just before that call leaves.

    External crates are parameters: SHA-256 and the derived JSON codec of
    [BudgetState] ([Budget.Crates], with the round trip the code relies on in
    [CratesLaws]), the JSON parser and printer ([Json.SerdeJson]), the URL parser
    ([Policy.UrlLib]), DNS (a function argument), the derived decoders of the
    configuration, the fetch request and the relay event (function arguments).
    For the control plane: SHA-256 ([Template.Sha2]), the JSON tokenizer, the
    codec of the receipts and TOML ([ControlData.ControlCrates], with the round
    trips relied on in [EngineSpec.ControlLaws]: exact without floating-point
    numbers, and up to the configurations' floating-point digits otherwise).  For
    the registry: the derived codecs ([Workloads.WorkloadCodec], with the round
    trip of the authority and the injectivity of the fingerprint text in
    [Generations.WorkloadLaws]).  A child process is a script ([Process.child]),
    [/proc] a sequence of snapshots ([Workloads.snapshot]).  For the worker: the
    derived codecs ([WorkerData.WorkerCodec]; only the round trip of a recorded
    decision is relied on), and the container runtime, the marker process and the
    archive stream as scripts in [WorkerFs.whost].  For the integrations: URL
    building ([Connector.UrlBuilder]), the derived decoders ([Front.FrontCodec],
    [Connector.ReadCodec]) and the codec of the review queue
    ([Proposals.ReviewCodec], with its round trip in [ProposalsRun.ReviewLaws]).
    For the command line: the TOML document type ([Desired.TomlEdit]; no law of it
    is assumed: migration and import check what they write by parsing it), and the
    JSON tokenizer as an argument.  Its scripts give, for each child started, its
    outcome or its streams and clock, for each probe what the broker answered, and
    for each prompt what the operator typed.

    Where threads of the integrations share atomics and a lock, a thread's view
    ([Connector.front]) holds a schedule: before each access to shared state, and
    before each write to the caller, the next batch of the other threads' atomic
    steps happens.  A theorem about every schedule covers every interleaving of
    these steps.  Changing the lease is two steps, as in the code: the epoch, then
    the slot; a lock waits for the second.  The theorems ask that fewer than 2^64
    changes of the lease happen ([ConnectorSpec.fit]).

    A descriptor of the worker is the path it was opened from, written from the
    canonical root; its theorems ask that the configured directories are written
    without [..] and that neither is inside the other ([QueueSpec.placed_apart]).
    While a command runs, the agent does not change its workspace; between two
    commands anything outside the private records may change.  [Path::exists]
    answers [false] for a path it cannot inspect: [WorkerFs.wh_blind] says when,
    and the lifetime assumes that it does not happen (see the findings).

    ** What the theorems show

    - The ledger (C1, C21, C25, C27, in
      [CrashSafety]): in every run, with any call failing and the process dying
      anywhere, the requests, tokens and cost admitted on each UTC day stay within
      the ceilings; each operation refines one abstract transition and reports
      success only for a durable one; every live reservation and usage guard is
      backed by the file.
    - Who may act and where requests go (C2, C7, C15, C35, C38): only the
      holder of the token makes the broker do anything; the LLM handler contacts
      only its provider, with a reservation that covers the usage; the fetch
      handler contacts only allow-listed public addresses through every redirect;
      the address filter is exactly the complement of the reserved ranges.
    - Streams (C14, C18): a client receives whole provider
      frames, closed, or one error, or a prefix; a reservation is settled only
      after complete delivery.
    - The control plane (C3, C11, C19, C23, C28, C30, C33): a build
      is released only after a proposal, its approval and a build request, each by
      a peer with that role, with the configuration and hashes that were reviewed;
      an approval releases one build, over all crashes and restarts; the receipts
      on disk are always valid; execution builds a copy of the reviewed template
      and nothing else; an error changes nothing or closes the engine; a waiting
      build is brought to an end; a repeated request gets its recorded receipt.
    - The control service (C10 in [ControlServe], C34 in [ControlTransport]): the
      process is a run of the control plane whose requests came over connections of
      known peers; it binds only in a directory of its own and removes only its own
      stale socket; what a client sends is what the engine handles.
    - The workload registry (C6, C32): a generation number is never
      given to two different pairs of a binding and an identity, and a binding is
      live only with an identity that two rounds of observation agree on.
    - The worker (C4, C5, C20, C22, C36, in [WorkerRun]): every command is a sequence
      of the abstract queue's steps; over crashes, restarts and expired results a
      job's container is created at most once, and only for a validated request
      that its class or the operator allows; a captured request is kept or
      answered; results, decisions and receipts are final.
    - The capsule (C37, C40, in [WorkerFacts]): every container has the
      confining options and nothing the request could widen; supervision ends.
    - The integrations (C8, C13, C31, in [FrontFacts], and C26, in
      [ProposalsRun]): a read reaches only the granted resource, once, with the
      lease's token, and is recorded once; a change of the lease stops the delivery
      of content after at most one more write; root, caller, reviewer and observer
      have separate duties; acknowledged proposals and decisions are durable and
      final.
    - The security doctor (C9 and C39 in [Doctor], C16 in [LiveFacts]): a green report means that every declared agent was observed
      running as its declared capsule and every broker answered as ready; exit
      status 0 excludes critical and high findings; a container is secure only if
      every observed fact agrees with the manifest; an inspection ends in time,
      within its output limit, and leaves no child.
    - The desired system (C17 in [DesiredSpec], C24 in [DesiredRun], C12
      in [OnboardingRun]): what an accepted system satisfies; migration publishes
      one new file that reads back as the value it migrated, or changes nothing;
      an import replaces the system in one rename by a checked extension of it, or
      leaves it as it was.
    - The command line (C29, in [CliRun]): for any input it ends with a code, a
      message, or as one of the programs its command stands for, on the agent it was
      asked for; it panics in one case only (see the findings).
    Theorems without a number are about the same parts: an overage ends the day,
    strict ownership of a budget, its atomic replacement and its reconciliation, delivery of responses,
    whole connections, the ingress parser, validated broker configurations, telemetry, the audit log,
    framing, concurrency, the configuration diff, the template fingerprint, log
    bounds, resolved targets, the event parser, archive paths, control peers, the
    evidence of proposals, the front's connections.  [ScenarioWorker] also proves what recovery does not undo.

    ** Bounds and fuel

    Loops over scripts and lists are structural.  [Prelude.loop] runs the loops
    of the source that end by a measure: its fuel is the number of remaining
    clock readings plus two for the header and body loops of
    [Http.read_request] and for [Activity.transfer] (every iteration reads the
    clock, and an exhausted clock is past every deadline), and the number of
    scheduled writes plus two for [Net.write_all].  [Prelude.wp_loop] proves that
    a loop whose measure fits its fuel never runs out, and
    [Http.complete_request_is_accepted] that a request which arrives is returned.
    [Streaming.hex_digits] prints a length of up to 64 bits with 16 steps of fuel for
    its at most 16 digits.  [Posix.follow]
    resolves at most 40 symbolic links, as Linux does, and fails beyond.  The
    fetch loop runs [max_redirects + 1] rounds, as in the source.
    [Template.tree] descends with fuel 33: a template path has at most 32
    components.  [ControlTransport.read_loop] has one unit of fuel for every byte
    still wanted and every event left in the script, and each iteration takes one
    of them; [ControlTransport.read_header] one for every byte of the largest
    header.  [ControlTransport.request_roundtrip] shows that they suffice.
    [Capsule.supervise] has one round for every reading of the clock left, and one
    more; [WorkerFacts.supervision_ends] shows that more rounds change nothing.
    [Queue.sync_tree] has one unit of fuel above the number of names, so above
    every depth.  [Queue.scan_retained_tree] descends 130 levels, and copies and
    imports 128, the ceilings of the source.  The loops of [Front] that read a frame
    or write a reply have the number of remaining clock readings plus two:
    [FrontSpec.write_reply_spec] shows that a reply never runs out.  The loop of an
    inspection takes one turn of its script each time; past the last one, the
    deadline has passed.

    ** What is not modelled

    Mutex poisoning and the failure of thread creation; the byte-level JSON and
    URL grammars and TLS (crates); [eprintln!] diagnostics; HTTP client internals
    beyond the outcome of a send and the chunks of a body.  Time-outs appear as
    outcomes of the operation they guard.  The durability order of the disk below
    [sync_all] is taken as given: a completed call has happened.

    The pacing of the registry's loop, process groups and environment variables of
    child processes; how long the client's [connect] takes.  For the worker: the agent's writes during a command (a
    snapshot is then of one moment), the [tar] format, and [eprintln!].  For the
    integrations: the creation of threads; a configuration path is taken as
    written, without [..] or empty components.  For the command line:
    failing writes to its own output; the probes of a batch, which run in parallel
    threads, are asked one after the other; terminal detection, [NO_COLOR], the
    process id, the clock's nanoseconds and the age of the last backup are the
    environment of [CliHost.environment]; no other process changes files during a
    command.

    ** Plan

    The seven crates of the workspace are modelled.  What is left of them is
    I/O: threads that are created, TCP listeners, terminals.  Outside
    the workspace are the host API (Python), the NixOS modules and the installer. *)

From Stdlib Require Export ZArith Lia Ascii String.
From stdpp Require Export base tactics numbers list gmap strings fin_maps pretty.

#[global] Set Warnings "-notation-overridden,-clear-no-such-hyp,-register-all".
#[global] Open Scope Z_scope.

(** ** Results, and the state-and-error monad *)

(** Rust's [Result<A, E>]. *)
Inductive result (E A : Type) : Type :=
| Ok (a : A)
| Err (e : E).
Arguments Ok {E A} a.
Arguments Err {E A} e.

#[export] Instance result_ret {E} : MRet (result E) := λ A a, Ok a.
#[export] Instance result_bind {E} : MBind (result E) := λ A B k m,
  match m with Ok a => k a | Err e => Err e end.

Definition is_ok {E A} (r : result E A) : bool :=
  match r with Ok _ => true | Err _ => false end.

(** [Option::ok_or]. *)
Definition ok_or {E A} (e : E) (o : option A) : result E A :=
  match o with Some a => Ok a | None => Err e end.

(** [if cond { return Err(e) }] as a statement. *)
Definition bail_if {E} (cond : bool) (e : E) : result E unit :=
  if cond then Err e else Ok tt.

Lemma result_bind_Ok {E A B} (m : result E A) (k : A → result E B) b :
  m ≫= k = Ok b ↔ ∃ a, m = Ok a ∧ k a = Ok b.
Proof. unfold mbind, result_bind. destruct m; naive_solver. Qed.
Lemma ok_or_Ok {E A} (e : E) (o : option A) a : ok_or e o = Ok a ↔ o = Some a.
Proof. destruct o; naive_solver. Qed.
Lemma bail_if_Ok {E} b (e : E) u : bail_if b e = Ok u ↔ b = false.
Proof. destruct b, u; naive_solver. Qed.

(** Decompose [m = Ok a] for a straight-line fallible function. *)
Ltac inv_ok := repeat match goal with
  | H : mbind _ _ = Ok _ |- _ => apply result_bind_Ok in H as (? & ? & H)
  | H : ok_or _ _ = Ok _ |- _ => apply ok_or_Ok in H
  | H : bail_if _ _ = Ok _ |- _ => apply bail_if_Ok in H
  | u : unit |- _ => destruct u
  end.

(** Stateful fallible code: the state reached so far survives an error, as it
    does in the Rust functions (an early return undoes nothing). *)
Definition M (S E A : Type) : Type := S → result E A * S.

#[export] Instance M_ret {S E} : MRet (M S E) := λ A a s, (Ok a, s).
#[export] Instance M_bind {S E} : MBind (M S E) := λ A B k m s,
  match m s with
  | (Ok a, s') => k a s'
  | (Err e, s') => (Err e, s')
  end.

Definition fail {S E A} (e : E) : M S E A := λ s, (Err e, s).
Definition get {S E} : M S E S := λ s, (Ok s, s).
Definition gets {S E A} (f : S → A) : M S E A := λ s, (Ok (f s), s).
Definition modify {S E} (f : S → S) : M S E unit := λ s, (Ok tt, f s).
Definition lift {S E A} (r : result E A) : M S E A := λ s, (r, s).
Definition throw_if {S E} (cond : bool) (e : E) : M S E unit :=
  lift (bail_if cond e).
Definition map_err {S E E' A} (f : E → E') (m : M S E A) : M S E' A := λ s,
  match m s with
  | (Ok a, s') => (Ok a, s')
  | (Err e, s') => (Err (f e), s')
  end.
(** [let r = m;]: the result becomes a value, no early return. *)
Definition attempt {S E E' A} (m : M S E A) : M S E' (result E A) := λ s,
  match m s with (r, s') => (Ok r, s') end.
(** Run [m] on the part of the state a lens selects. *)
Definition zoom {S T E A} (g : S → T) (p : T → S → S) (m : M T E A) : M S E A :=
  λ s, match m (g s) with (r, t) => (r, p t s) end.

(** [loop { .. }]: the body either continues with a new value of the loop's
    locals or breaks with a result.  [fuel] bounds the iterations; [wp_loop]
    below proves that a loop whose measure fits the fuel never exhausts it. *)
Fixpoint loop {S E A B} (fuel : nat) (oof : E) (body : A → M S E (A + B)) (a : A) : M S E B :=
  match fuel with
  | O => fail oof
  | Datatypes.S fuel =>
      r ← body a;
      match r with
      | inl a' => loop fuel oof body a'
      | inr b => mret b
      end
  end.

(** ** Weakest preconditions

    [wp m Q X s]: running [m] from [s] ends in an [Ok a] and a state satisfying
    [Q a], or in an [Err e] and a state satisfying [X e].  Both outcomes are
    specified, because the broker's error paths leave effects behind. *)
Definition wp {S E A} (m : M S E A) (Q : A → S → Prop) (X : E → S → Prop) (s : S) : Prop :=
  match m s with
  | (Ok a, s') => Q a s'
  | (Err e, s') => X e s'
  end.

Section wp_rules.
Context {S E : Type}.

Lemma wp_ret {A} (a : A) Q (X : E → S → Prop) s : Q a s → wp (mret a) Q X s.
Proof. done. Qed.

Lemma wp_fail {A} e (Q : A → S → Prop) (X : E → S → Prop) s : X e s → wp (fail e) Q X s.
Proof. done. Qed.

Lemma wp_bind {A B} (m : M S E A) (k : A → M S E B) Q X s :
  wp m (λ a s', wp (k a) Q X s') X s → wp (m ≫= k) Q X s.
Proof. unfold wp, mbind, M_bind. by destruct (m s) as [[a|e] s']. Qed.

Lemma wp_mono {A} (m : M S E A) (Q Q' : A → S → Prop) (X X' : E → S → Prop) s :
  wp m Q X s → (∀ a s', Q a s' → Q' a s') → (∀ e s', X e s' → X' e s') → wp m Q' X' s.
Proof. unfold wp. destruct (m s) as [[a|e] s']; eauto. Qed.

Lemma wp_conj {A} (m : M S E A) (Q Q' : A → S → Prop) (X X' : E → S → Prop) s :
  wp m Q X s → wp m Q' X' s → wp m (λ a s', Q a s' ∧ Q' a s') (λ e s', X e s' ∧ X' e s') s.
Proof. unfold wp. by destruct (m s) as [[a|e] s']. Qed.

Lemma wp_gets {A} (f : S → A) Q (X : E → S → Prop) s : Q (f s) s → wp (gets f) Q X s.
Proof. done. Qed.

Lemma wp_modify f Q (X : E → S → Prop) s : Q tt (f s) → wp (modify f) Q X s.
Proof. done. Qed.

Lemma wp_throw_if b e Q (X : E → S → Prop) s :
  (b = true → X e s) → (b = false → Q tt s) → wp (throw_if b e) Q X s.
Proof. unfold wp, throw_if, lift, bail_if. destruct b; eauto. Qed.

Lemma wp_lift {A} (r : result E A) Q (X : E → S → Prop) s :
  (∀ a, r = Ok a → Q a s) → (∀ e, r = Err e → X e s) → wp (lift r) Q X s.
Proof. unfold wp, lift. destruct r; eauto. Qed.

Lemma wp_map_err {E' A} (f : E' → E) (m : M S E' A) Q (X : E → S → Prop) s :
  wp m Q (λ e s', X (f e) s') s → wp (map_err f m) Q X s.
Proof. unfold wp, map_err. by destruct (m s) as [[a|e] s']. Qed.

Lemma wp_attempt {E' A} (m : M S E' A) (Q : result E' A → S → Prop) (X : E → S → Prop) s :
  wp m (λ a s', Q (Ok a) s') (λ e s', Q (Err e) s') s → wp (attempt m) Q X s.
Proof. unfold wp, attempt. by destruct (m s) as [[a|e] s']. Qed.

Lemma wp_zoom {T A} (g : S → T) (p : T → S → S) (m : M T E A) Q X s :
  wp m (λ a t, Q a (p t s)) (λ e t, X e (p t s)) (g s) → wp (zoom g p m) Q X s.
Proof. unfold wp, zoom. by destruct (m (g s)) as [[a|e] t]. Qed.

(** Total correctness of [loop]: an invariant and a decreasing measure. *)
Lemma wp_loop {A B} (I : A → S → Prop) (μ : A → S → nat) fuel oof
    (body : A → M S E (A + B)) Q X a s :
  (∀ a s, I a s →
     wp (body a) (λ r s', match r with
                          | inl a' => I a' s' ∧ (μ a' s' < μ a s)%nat
                          | inr b => Q b s'
                          end) X s) →
  I a s → (μ a s < fuel)%nat → wp (loop fuel oof body a) Q X s.
Proof.
  intros Hbody. revert a s. induction fuel as [|fuel IH]; intros a s HI Hμ; [lia|].
  cbn [loop]. apply wp_bind. eapply wp_mono; [by apply Hbody | | done].
  intros [a'|b] s' Hr; [|done]. destruct Hr. apply IH; [done|lia].
Qed.

(** From a weakest precondition to a statement about a run. *)
Lemma wp_run {A} (m : M S E A) Q X s r s' :
  wp m Q X s → m s = (r, s') → match r with Ok a => Q a s' | Err e => X e s' end.
Proof. unfold wp. intros H Hr. rewrite Hr in H. by destruct r. Qed.

Lemma run_wp {A} (m : M S E A) Q X s :
  match m s with (Ok a, s') => Q a s' | (Err e, s') => X e s' end → wp m Q X s.
Proof. done. Qed.
End wp_rules.

(** ** Machine integers

    A [u64] or (64-bit Linux) [usize] is a [Z] in [0, 2^64). *)
Definition u64_max : Z := 2 ^ 64 - 1.
Definition u64 (x : Z) : Prop := 0 ≤ x ≤ u64_max.
Definition u32_max : Z := 2 ^ 32 - 1.

Definition checked_add (a b : Z) : option Z :=
  if a + b <=? u64_max then Some (a + b) else None.
Definition checked_sub (a b : Z) : option Z :=
  if b <=? a then Some (a - b) else None.
Definition saturating_sub (a b : Z) : Z := Z.max 0 (a - b).
Definition saturating_add (a b : Z) : Z := Z.min u64_max (a + b).
Definition saturating_mul (a b : Z) : Z := Z.min u64_max (a * b).

Lemma checked_add_Some a b c : checked_add a b = Some c ↔ a + b ≤ u64_max ∧ c = a + b.
Proof. unfold checked_add. destruct (Z.leb_spec (a + b) u64_max); (split; intros; destruct_and?; simplify_eq; (done || lia || split; (done || lia))). Qed.
Lemma checked_add_None a b : checked_add a b = None ↔ u64_max < a + b.
Proof. unfold checked_add. destruct (Z.leb_spec (a + b) u64_max); (split; intros; destruct_and?; simplify_eq; (done || lia || split; (done || lia))). Qed.
Lemma checked_sub_Some a b c : checked_sub a b = Some c ↔ b ≤ a ∧ c = a - b.
Proof. unfold checked_sub. destruct (Z.leb_spec b a); (split; intros; destruct_and?; simplify_eq; (done || lia || split; (done || lia))). Qed.
Lemma checked_sub_None a b : checked_sub a b = None ↔ a < b.
Proof. unfold checked_sub. destruct (Z.leb_spec b a); (split; intros; destruct_and?; simplify_eq; (done || lia || split; (done || lia))). Qed.

(** ** Automation *)

Create HintDb broker.
Create Rewrite HintDb broker.
#[export] Hint Rewrite Z.eqb_eq Z.eqb_neq Z.leb_le Z.leb_gt Z.ltb_lt Z.ltb_ge
  andb_true_iff orb_false_iff andb_false_iff orb_true_iff negb_true_iff negb_false_iff
  checked_add_Some checked_add_None checked_sub_Some checked_sub_None : broker.
#[export] Hint Resolve wp_ret wp_fail wp_gets wp_modify : broker.

(** Turn the code's boolean guards in the context into propositions. *)
Ltac reflect :=
  autorewrite with broker in *;
  repeat match goal with
  | H : _ ∧ _ |- _ => destruct H
  | H : (_ =? _)%string = true |- _ => apply String.eqb_eq in H
  | H : (_ =? _)%string = false |- _ => apply String.eqb_neq in H
  | H : bool_decide _ = true |- _ => apply bool_decide_eq_true in H
  | H : bool_decide _ = false |- _ => apply bool_decide_eq_false in H
  end.

(** One symbolic step of a monadic program under [wp]. *)
Ltac wp_step :=
  lazymatch goal with
  | |- wp (mbind _ _) _ _ _ => apply wp_bind
  | |- wp (mret _) _ _ _ => apply wp_ret
  | |- wp (fail _) _ _ _ => apply wp_fail
  | |- wp (gets _) _ _ _ => apply wp_gets
  | |- wp get _ _ _ => apply wp_gets
  | |- wp (modify _) _ _ _ => apply wp_modify
  | |- wp (throw_if _ _) _ _ _ => apply wp_throw_if; intros ?
  | |- wp (lift _) _ _ _ => apply wp_lift; intros ? ?
  | |- wp (map_err _ _) _ _ _ => apply wp_map_err
  | |- wp (attempt _) _ _ _ => apply wp_attempt
  | |- wp (zoom _ _ _) _ _ _ => apply wp_zoom
  | |- wp (match ?x with _ => _ end) _ _ _ => destruct x eqn:?
  end.
Ltac wp_steps := repeat (wp_step; cbn beta).
(** The same, reducing matches on known results first. *)
Ltac wp_go := repeat first [progress cbn beta iota | wp_step].

(** Use a specification proved for the program at the head. *)
Tactic Notation "wp_apply" open_constr(spec) := eapply wp_mono; [eapply spec| |].

(** A fallible pure step, and a guard, named. *)
Tactic Notation "wp_try" "as" simple_intropattern(a) ident(E) :=
  apply wp_bind; apply wp_lift; [intros a E|intros ? _].
Tactic Notation "wp_check" "as" ident(E) :=
  apply wp_bind; apply wp_throw_if; [intros _|intros E].

(** ** Lists and maps *)

(** [find] on lists as Rust's [Iterator::find]: the first match. *)
Fixpoint find_first {A} (f : A → bool) (l : list A) : option A :=
  match l with
  | [] => None
  | x :: l => if f x then Some x else find_first f l
  end.

Lemma find_first_Some {A} (f : A → bool) l x :
  find_first f l = Some x → x ∈ l ∧ f x = true.
Proof.
  induction l as [|y l IH]; simpl; [done|].
  destruct (f y) eqn:E; intros; simplify_eq; [set_solver|].
  destruct (IH H) as [? ?]. set_solver.
Qed.

Lemma existsb_elem {A} (f : A → bool) l :
  existsb f l = true ↔ ∃ x, x ∈ l ∧ f x = true.
Proof.
  rewrite existsb_exists. split; intros (x & ? & ?); exists x; by rewrite list_elem_of_In in *.
Qed.

Lemma existsb_false {A} (f : A → bool) l :
  existsb f l = false ↔ ∀ x, x ∈ l → f x = false.
Proof.
  rewrite <-not_true_iff_false, existsb_elem. split.
  - intros Hn x Hx. apply not_true_iff_false. intros E. apply Hn. by exists x.
  - intros Hf (x & Hx & E). by rewrite (Hf x Hx) in E.
Qed.

Lemma existsb_string s l : existsb (String.eqb s) l = true ↔ s ∈ l.
Proof.
  rewrite existsb_elem. split.
  - intros (t & Ht & E). by apply String.eqb_eq in E as ->.
  - intros Hs. exists s. by rewrite String.eqb_refl.
Qed.

Lemma forallb_elem {A} (f : A → bool) l :
  forallb f l = true ↔ ∀ x, x ∈ l → f x = true.
Proof. rewrite forallb_forall. by setoid_rewrite list_elem_of_In. Qed.

(** A finite map of size one has a single key. *)
Lemma map_size_one_key {K A} `{Countable K} (m : gmap K A) i j x y :
  size m = 1%nat → m !! i = Some x → m !! j = Some y → i = j.
Proof.
  intros Hs Hi Hj. destruct (decide (i = j)) as [|Hne]; [done|].
  assert (size (delete i m) = 0%nat) as H0 by by rewrite map_size_delete, Hi, Hs.
  apply map_size_empty_inv in H0.
  assert (delete i m !! j = Some y) as Hc by by rewrite lookup_delete_ne.
  rewrite H0 in Hc. by rewrite lookup_empty in Hc.
Qed.
