(* ===== verification/RustStr.v ===== *)
(** * Rust bytes and strings

    The parts of Rust's [str], [u8] and [char] that the broker uses.  A [str] is
    a Rocq [string] holding its UTF-8 bytes (one [ascii] per byte), a [Vec<u8>]
    is a [list Z] of values in [0, 256), and a [char] is a Unicode scalar value.
    Operations that Rust defines on bytes act on the bytes; operations it defines
    on characters ([trim], [char::is_control]) go through UTF-8 decoding. *)

From S2P Require Import Prelude.

Definition bytes : Type := list Z.

Definition byte_of (a : ascii) : Z := Z.of_N (N_of_ascii a).
Definition ascii_of (b : Z) : ascii := ascii_of_N (Z.to_N b).

Fixpoint str_bytes (s : string) : bytes :=
  match s with
  | EmptyString => []
  | String a s => byte_of a :: str_bytes s
  end.
Fixpoint bytes_str (l : bytes) : string :=
  match l with
  | [] => EmptyString
  | b :: l => String (ascii_of b) (bytes_str l)
  end.

Definition byte_ok (b : Z) : Prop := 0 ≤ b < 256.
Definition bytes_ok (l : bytes) : Prop := Forall byte_ok l.

Lemma byte_of_ok a : byte_ok (byte_of a).
Proof. unfold byte_ok, byte_of. pose proof (N_ascii_bounded a). lia. Qed.

Lemma ascii_of_byte_of a : ascii_of (byte_of a) = a.
Proof. unfold ascii_of, byte_of. by rewrite N2Z.id, ascii_N_embedding. Qed.

Lemma byte_of_ascii_of b : byte_ok b → byte_of (ascii_of b) = b.
Proof.
  unfold byte_ok, ascii_of, byte_of. intros.
  rewrite N_ascii_embedding by lia. lia.
Qed.

Lemma bytes_str_bytes s : bytes_str (str_bytes s) = s.
Proof. induction s; simpl; [done|]. by rewrite ascii_of_byte_of, IHs. Qed.

Lemma str_bytes_ok s : bytes_ok (str_bytes s).
Proof. induction s; simpl; constructor; [apply byte_of_ok | done]. Qed.

Lemma str_bytes_inj s t : str_bytes s = str_bytes t → s = t.
Proof. intros H. by rewrite <-(bytes_str_bytes s), <-(bytes_str_bytes t), H. Qed.

Lemma str_bytes_bytes_str l : bytes_ok l → str_bytes (bytes_str l) = l.
Proof.
  induction 1 as [|b l Hb _ IH]; simpl; [done|]. by rewrite byte_of_ascii_of, IH.
Qed.

(** [str::len]: the number of bytes. *)
Definition str_len (s : string) : Z := Z.of_nat (String.length s).
Definition str_is_empty (s : string) : bool := (s =? "")%string.
Definition blen {A} (l : list A) : Z := Z.of_nat (length l).

Lemma length_str_bytes s : length (str_bytes s) = String.length s.
Proof. induction s; simpl; congruence. Qed.

Lemma length_append s t : String.length (s +:+ t) = (String.length s + String.length t)%nat.
Proof.
  induction s as [|a s IH]; [done|].
  change (S (String.length (s +:+ t)) = S (String.length s + String.length t)). by rewrite IH.
Qed.

(** Appending a non-empty suffix changes a string. *)
Lemma append_ne s t : t ≠ EmptyString → s +:+ t ≠ s.
Proof.
  intros Ht E. apply (f_equal String.length) in E. rewrite length_append in E.
  destruct t; [done|]. simpl in E. lia.
Qed.

(** Two different suffixes give two different strings. *)
Lemma append_inj_r s t u : s +:+ t = s +:+ u → t = u.
Proof.
  induction s as [|a s IH]; [done|].
  change (String a (s +:+ t) = String a (s +:+ u) → t = u). intros [= ?]. auto.
Qed.

(** ** ASCII classes *)

Definition is_ascii_digit (b : Z) : bool := (48 <=? b) && (b <=? 57).
Definition is_ascii_lowercase (b : Z) : bool := (97 <=? b) && (b <=? 122).
Definition is_ascii_uppercase (b : Z) : bool := (65 <=? b) && (b <=? 90).
Definition is_ascii_alphabetic (b : Z) : bool := is_ascii_lowercase b || is_ascii_uppercase b.
Definition is_ascii_alphanumeric (b : Z) : bool := is_ascii_alphabetic b || is_ascii_digit b.

Definition to_ascii_lower (b : Z) : Z := if is_ascii_uppercase b then b + 32 else b.
Definition lower_ascii (a : ascii) : ascii := ascii_of (to_ascii_lower (byte_of a)).
Fixpoint to_ascii_lowercase (s : string) : string :=
  match s with
  | EmptyString => EmptyString
  | String a s => String (lower_ascii a) (to_ascii_lowercase s)
  end.
Definition eq_ignore_ascii_case (s t : string) : bool :=
  (to_ascii_lowercase s =? to_ascii_lowercase t)%string.

(** [s.bytes().all(p)]. *)
Definition all_bytes (p : Z → bool) (s : string) : bool := forallb p (str_bytes s).
(** Is the byte [b] one of the bytes of the literal [s]? *)
Definition byte_in (s : string) (b : Z) : bool := existsb (Z.eqb b) (str_bytes s).
Definition contains_byte (b : Z) (s : string) : bool := existsb (Z.eqb b) (str_bytes s).

(** ** Prefixes, suffixes, splitting *)

Fixpoint strip_prefix (p s : string) : option string :=
  match p, s with
  | EmptyString, _ => Some s
  | String a p, String b s => if Ascii.eqb a b then strip_prefix p s else None
  | String _ _, EmptyString => None
  end.
Definition starts_with (p s : string) : bool :=
  match strip_prefix p s with Some _ => true | None => false end.
Definition rev_str (s : string) : string := bytes_str (rev (str_bytes s)).
Definition strip_suffix (p s : string) : option string :=
  rev_str <$> strip_prefix (rev_str p) (rev_str s).
Definition ends_with (p s : string) : bool :=
  match strip_suffix p s with Some _ => true | None => false end.

Lemma strip_prefix_Some p s r : strip_prefix p s = Some r ↔ s = (p ++ r)%string.
Proof.
  revert s. induction p as [|a p IH]; intros s; simpl.
  { split; intros; by simplify_eq. }
  destruct s as [|b s]; [done|].
  destruct (Ascii.eqb_spec a b) as [->|]; [|split; [done | intros [= ? ?]; congruence]].
  rewrite IH. split; [by intros -> | by intros [= ?]].
Qed.

(** [str::contains(&str)]. *)
Fixpoint contains_str (p s : string) : bool :=
  starts_with p s ||
  match s with EmptyString => false | String _ s => contains_str p s end.

(** [str::split(char)]: always at least one piece. *)
Fixpoint split_char (c : ascii) (s : string) : list string :=
  match s with
  | EmptyString => [EmptyString]
  | String a s =>
      if Ascii.eqb a c then EmptyString :: split_char c s
      else match split_char c s with
           | p :: ps => String a p :: ps
           | [] => [String a EmptyString]
           end
  end.

(** [str::split("\r\n")]. *)
Fixpoint split_crlf (s : string) : list string :=
  match s with
  | EmptyString => [EmptyString]
  | String a s' =>
      match s' with
      | String b s'' =>
          if (byte_of a =? 13) && (byte_of b =? 10) then EmptyString :: split_crlf s''
          else match split_crlf s' with
               | p :: ps => String a p :: ps
               | [] => [String a EmptyString]
               end
      | EmptyString => [String a EmptyString]
      end
  end.

(** [str::split_once(char)]. *)
Fixpoint split_once (c : ascii) (s : string) : option (string * string) :=
  match s with
  | EmptyString => None
  | String a s =>
      if Ascii.eqb a c then Some (EmptyString, s)
      else '(x, y) ← split_once c s; Some (String a x, y)
  end.

(** [iter.next().unwrap_or(d)] on a split. *)
Definition first_piece (l : list string) (d : string) : string :=
  match l with p :: _ => p | [] => d end.

Fixpoint join (sep : string) (l : list string) : string :=
  match l with
  | [] => EmptyString
  | [x] => x
  | x :: l => (x ++ sep ++ join sep l)%string
  end.

Lemma split_char_ne c s : split_char c s ≠ [].
Proof. destruct s; simpl; [done|]. destruct (Ascii.eqb _ _); [done|]. by destruct (split_char c s). Qed.

Lemma str_bytes_app s t : str_bytes (s +:+ t) = str_bytes s ++ str_bytes t.
Proof.
  induction s as [|a s IH]; [done|].
  change (byte_of a :: str_bytes (s +:+ t) = byte_of a :: (str_bytes s ++ str_bytes t)). by rewrite IH.
Qed.
Lemma str_bytes_rev s : str_bytes (rev_str s) = rev (str_bytes s).
Proof. unfold rev_str. apply str_bytes_bytes_str, Forall_rev, str_bytes_ok. Qed.
Lemma rev_str_involutive s : rev_str (rev_str s) = s.
Proof. apply str_bytes_inj. by rewrite !str_bytes_rev, rev_involutive. Qed.
Lemma rev_str_app s t : rev_str (s +:+ t) = rev_str t +:+ rev_str s.
Proof. apply str_bytes_inj. by rewrite str_bytes_rev, !str_bytes_app, rev_app_distr, !str_bytes_rev. Qed.

Lemma strip_suffix_Some p s r : strip_suffix p s = Some r ↔ s = r +:+ p.
Proof.
  unfold strip_suffix. rewrite fmap_Some. split.
  - intros (x & Hx & ->). apply strip_prefix_Some in Hx.
    rewrite <-(rev_str_involutive s), Hx. 
    change (rev_str p ++ x)%string with (rev_str p +:+ x). by rewrite rev_str_app, rev_str_involutive.
  - intros ->. exists (rev_str r). rewrite rev_str_involutive, rev_str_app. split; [|done].
    by apply strip_prefix_Some.
Qed.

(** Splitting at the separator distributes over it. *)
Lemma split_char_sep c s t : split_char c (s +:+ String c t) = split_char c s ++ split_char c t.
Proof.
  induction s as [|a s IH].
  { change (split_char c (String c t) = [EmptyString] ++ split_char c t). simpl.
    by rewrite Ascii.eqb_refl. }
  change (split_char c (String a (s +:+ String c t)) = split_char c (String a s) ++ split_char c t).
  cbn [split_char]. rewrite IH. destruct (Ascii.eqb a c); [done|].
  destruct (split_char c s) eqn:E; [by apply split_char_ne in E|done].
Qed.
Lemma split_char_none c s : contains_byte (byte_of c) s = false → split_char c s = [s].
Proof.
  unfold contains_byte. induction s as [|a s IH]; [done|]. cbn [str_bytes existsb split_char].
  rewrite orb_false_iff. intros [Ha Hs]. rewrite (IH Hs).
  destruct (Ascii.eqb_spec a c) as [->|]; [by rewrite Z.eqb_refl in Ha|done].
Qed.

(** ** UTF-8 *)

Definition in_range (lo hi b : Z) : bool := (lo <=? b) && (b <=? hi).
Definition cont (b : Z) : bool := in_range 128 191 b.

(** [std::str::from_utf8] followed by [chars]: the scalar values, or [None] for
    ill-formed input (the table of the Unicode standard). *)
Fixpoint utf8_decode (l : bytes) : option (list Z) :=
  match l with
  | [] => Some []
  | b0 :: l1 =>
      if in_range 0 127 b0 then (cons b0) <$> utf8_decode l1
      else match l1 with
      | [] => None
      | b1 :: l2 =>
          if in_range 194 223 b0 then
            if cont b1 then (cons ((b0 - 192) * 64 + (b1 - 128))) <$> utf8_decode l2 else None
          else match l2 with
          | [] => None
          | b2 :: l3 =>
              if in_range 224 239 b0 then
                let lo := if b0 =? 224 then 160 else 128 in
                let hi := if b0 =? 237 then 159 else 191 in
                if in_range lo hi b1 && cont b2 then
                  (cons ((b0 - 224) * 4096 + (b1 - 128) * 64 + (b2 - 128))) <$> utf8_decode l3
                else None
              else match l3 with
              | [] => None
              | b3 :: l4 =>
                  if in_range 240 244 b0 then
                    let lo := if b0 =? 240 then 144 else 128 in
                    let hi := if b0 =? 244 then 143 else 191 in
                    if in_range lo hi b1 && cont b2 && cont b3 then
                      (cons ((b0 - 240) * 262144 + (b1 - 128) * 4096
                             + (b2 - 128) * 64 + (b3 - 128))) <$> utf8_decode l4
                    else None
                  else None
              end
          end
      end
  end.

Definition utf8_encode_char (c : Z) : bytes :=
  if c <? 128 then [c]
  else if c <? 2048 then [192 + c / 64; 128 + c mod 64]
  else if c <? 65536 then [224 + c / 4096; 128 + (c / 64) mod 64; 128 + c mod 64]
  else [240 + c / 262144; 128 + (c / 4096) mod 64; 128 + (c / 64) mod 64; 128 + c mod 64].
Definition of_chars (cs : list Z) : string := bytes_str (concat (utf8_encode_char <$> cs)).

(** *** Round trip *)

(** A Unicode scalar value. *)
Definition scalar (c : Z) : Prop := 0 ≤ c < 1114112 ∧ ¬ (55296 ≤ c ≤ 57343).

Lemma in_range_spec lo hi b : in_range lo hi b = true ↔ lo ≤ b ≤ hi.
Proof. unfold in_range. rewrite andb_true_iff, !Z.leb_le. done. Qed.
Lemma in_range_no lo hi b : ¬ (lo ≤ b ≤ hi) → in_range lo hi b = false.
Proof. intros Hn. apply not_true_iff_false. by rewrite in_range_spec. Qed.

(** Decide the guards of the decoder from the bounds in the context. *)
Ltac utf8_guard :=
  repeat match goal with
  | |- context [in_range ?lo ?hi ?b] =>
      first [rewrite (proj2 (in_range_spec lo hi b)) by lia | rewrite (in_range_no lo hi b) by lia]
  | |- context [?a =? ?b] =>
      first [rewrite (proj2 (Z.eqb_eq a b)) by lia | rewrite (proj2 (Z.eqb_neq a b)) by lia]
  end.

Lemma decode_encode_char c l :
  scalar c → utf8_decode (utf8_encode_char c ++ l) = cons c <$> utf8_decode l.
Proof.
  intros [Hc Hs]. unfold utf8_encode_char.
  destruct (Z.ltb_spec c 128); [cbn; by rewrite (proj2 (in_range_spec 0 127 c)) by lia|].
  pose proof (Z.div_mod c 64 ltac:(lia)) as E1. pose proof (Z.mod_pos_bound c 64 ltac:(lia)).
  set (q1 := c / 64) in *. set (r1 := c mod 64) in *.
  destruct (Z.ltb_spec c 2048).
  { cbn -[Z.mul Z.add Z.sub]. unfold cont. utf8_guard. do 2 f_equal. lia. }
  assert (c / 4096 = q1 / 64) as -> by (unfold q1; rewrite Z.div_div by lia; done).
  pose proof (Z.div_mod q1 64 ltac:(lia)) as E2. pose proof (Z.mod_pos_bound q1 64 ltac:(lia)).
  set (q2 := q1 / 64) in *. set (r2 := q1 mod 64) in *.
  destruct (Z.ltb_spec c 65536).
  { cbn -[Z.mul Z.add Z.sub]. unfold cont. utf8_guard.
    assert (in_range (if 224 + q2 =? 224 then 160 else 128) (if 224 + q2 =? 237 then 159 else 191)
              (128 + r2) = true) as ->.
    { apply in_range_spec. destruct (Z.eqb_spec (224 + q2) 224), (Z.eqb_spec (224 + q2) 237); lia. }
    simpl andb. do 2 f_equal. lia. }
  assert (c / 262144 = q2 / 64) as ->.
  { unfold q2, q1. rewrite !Z.div_div by lia. done. }
  pose proof (Z.div_mod q2 64 ltac:(lia)) as E3. pose proof (Z.mod_pos_bound q2 64 ltac:(lia)).
  set (q3 := q2 / 64) in *. set (r3 := q2 mod 64) in *.
  cbn -[Z.mul Z.add Z.sub]. unfold cont. utf8_guard.
  assert (in_range (if 240 + q3 =? 240 then 144 else 128) (if 240 + q3 =? 244 then 143 else 191)
            (128 + r3) = true) as ->.
  { apply in_range_spec. destruct (Z.eqb_spec (240 + q3) 240), (Z.eqb_spec (240 + q3) 244); lia. }
  simpl andb. do 2 f_equal. lia.
Qed.

Lemma utf8_roundtrip cs :
  Forall scalar cs → utf8_decode (concat (utf8_encode_char <$> cs)) = Some cs.
Proof.
  induction 1 as [|c cs Hc _ IH]; [done|]. rewrite fmap_cons. cbn [concat].
  rewrite decode_encode_char by done. by rewrite IH.
Qed.

Lemma decode_cons_scalar c l cs :
  cons c <$> utf8_decode l = Some cs → scalar c →
  (∀ cs', utf8_decode l = Some cs' → Forall scalar cs') → Forall scalar cs.
Proof. intros (cs' & Hd & ->)%fmap_Some Hc IH. constructor; eauto. Qed.

Lemma utf8_decode_scalar l cs : utf8_decode l = Some cs → Forall scalar cs.
Proof.
  revert cs. induction l as [l IH] using (induction_ltof1 _ (@length Z)); intros cs.
  unfold ltof in IH. destruct l as [|b0 l1]; cbn [utf8_decode]; [by intros [= <-]|].
  destruct (in_range 0 127 b0) eqn:H0.
  { apply in_range_spec in H0. intros Hd. eapply decode_cons_scalar; [exact Hd|unfold scalar; lia|].
    apply IH. simpl. lia. }
  destruct l1 as [|b1 l2]; [done|]. destruct (in_range 194 223 b0) eqn:H1.
  { unfold cont. destruct (in_range 128 191 b1) eqn:H2; [|done]. apply in_range_spec in H1, H2.
    intros Hd. eapply decode_cons_scalar; [exact Hd|unfold scalar; lia|]. apply IH. simpl. lia. }
  destruct l2 as [|b2 l3]; [done|]. destruct (in_range 224 239 b0) eqn:H2.
  { cbv zeta. unfold cont. destruct (_ && _) eqn:H3; [|done]. apply andb_true_iff in H3 as [H3 H4].
    apply in_range_spec in H2, H3, H4. intros Hd. eapply decode_cons_scalar; [exact Hd| |].
    - unfold scalar. destruct (Z.eqb_spec b0 224), (Z.eqb_spec b0 237); lia.
    - apply IH. simpl. lia. }
  destruct l3 as [|b3 l4]; [done|]. destruct (in_range 240 244 b0) eqn:H3; [|done].
  cbv zeta. unfold cont. destruct (_ && _) eqn:H4; [|done]. apply andb_true_iff in H4 as [H4 H6].
  apply andb_true_iff in H4 as [H4 H5]. apply in_range_spec in H3, H4, H5, H6.
  intros Hd. eapply decode_cons_scalar; [exact Hd| |].
  - unfold scalar. destruct (Z.eqb_spec b0 240), (Z.eqb_spec b0 244); lia.
  - apply IH. simpl. lia.
Qed.

(** Well-formed UTF-8 consists of bytes. *)
Lemma utf8_decode_ok l cs : utf8_decode l = Some cs → bytes_ok l.
Proof.
  revert cs. induction l as [l IH] using (induction_ltof1 _ (@length Z)); intros cs.
  unfold ltof in IH. destruct l as [|b0 l1]; cbn [utf8_decode]; [constructor|].
  assert (∀ (c : Z) l' cs, (length l' < length (b0 :: l1))%nat →
            cons c <$> utf8_decode l' = Some cs → bytes_ok l') as Hrec.
  { intros c l' cs' Hlt (cs'' & Hd & _)%fmap_Some. by eapply IH. }
  destruct (in_range 0 127 b0) eqn:H0.
  { apply in_range_spec in H0. intros Hd. constructor; [unfold byte_ok; lia|].
    eapply Hrec; [|exact Hd]; simpl; lia. }
  destruct l1 as [|b1 l2]; [done|]. destruct (in_range 194 223 b0) eqn:H1.
  { unfold cont. destruct (in_range 128 191 b1) eqn:H2; [|done]. apply in_range_spec in H1, H2.
    intros Hd. do 2 (constructor; [unfold byte_ok; lia|]).
    eapply Hrec; [|exact Hd]; simpl; lia. }
  destruct l2 as [|b2 l3]; [done|]. destruct (in_range 224 239 b0) eqn:H2.
  { cbv zeta. unfold cont. destruct (_ && _) eqn:H3; [|done]. apply andb_true_iff in H3 as [H3 H4].
    apply in_range_spec in H2, H3, H4. intros Hd.
    destruct (Z.eqb_spec b0 224), (Z.eqb_spec b0 237); do 3 (constructor; [unfold byte_ok; lia|]);
      (eapply Hrec; [|exact Hd]; simpl; lia). }
  destruct l3 as [|b3 l4]; [done|]. destruct (in_range 240 244 b0) eqn:H3; [|done].
  cbv zeta. unfold cont. destruct (_ && _) eqn:H4; [|done]. apply andb_true_iff in H4 as [H4 H6].
  apply andb_true_iff in H4 as [H4 H5]. apply in_range_spec in H3, H4, H5, H6. intros Hd.
  destruct (Z.eqb_spec b0 240), (Z.eqb_spec b0 244); do 4 (constructor; [unfold byte_ok; lia|]);
    (eapply Hrec; [|exact Hd]; simpl; lia).
Qed.

Lemma utf8_encode_ok c : scalar c → bytes_ok (utf8_encode_char c).
Proof.
  intros [Hc _]. unfold utf8_encode_char, bytes_ok, byte_ok.
  pose proof (Z.mod_pos_bound c 64 ltac:(lia)). pose proof (Z.mod_pos_bound (c / 64) 64 ltac:(lia)).
  pose proof (Z.mod_pos_bound (c / 4096) 64 ltac:(lia)).
  destruct (Z.ltb_spec c 128); [repeat constructor; lia|].
  destruct (Z.ltb_spec c 2048).
  { assert (c / 64 < 64) by (apply Z.div_lt_upper_bound; lia).
    pose proof (Z.div_pos c 64 ltac:(lia) ltac:(lia)). repeat constructor; lia. }
  destruct (Z.ltb_spec c 65536).
  { assert (c / 4096 < 16) by (apply Z.div_lt_upper_bound; lia).
    pose proof (Z.div_pos c 4096 ltac:(lia) ltac:(lia)). repeat constructor; lia. }
  assert (c / 262144 < 5) by (apply Z.div_lt_upper_bound; lia).
  pose proof (Z.div_pos c 262144 ltac:(lia) ltac:(lia)). repeat constructor; lia.
Qed.

(** [str::from_utf8] / [String::from_utf8]. *)
Definition from_utf8 (l : bytes) : option string :=
  match utf8_decode l with Some _ => Some (bytes_str l) | None => None end.
(** [str::chars] (total: a Rust [str] is well-formed). *)
Definition chars (s : string) : list Z := default [] (utf8_decode (str_bytes s)).

Lemma chars_scalar s : Forall scalar (chars s).
Proof.
  unfold chars. destruct (utf8_decode (str_bytes s)) as [cs|] eqn:E; simpl; [|constructor].
  by apply utf8_decode_scalar in E.
Qed.
Lemma chars_of_chars cs : Forall scalar cs → chars (of_chars cs) = cs.
Proof.
  intros Hcs. unfold chars, of_chars. rewrite str_bytes_bytes_str; [by rewrite utf8_roundtrip|].
  induction Hcs as [|c cs Hc _ IH]; [constructor|]. rewrite fmap_cons. cbn [concat].
  apply Forall_app. split; [by apply utf8_encode_ok|done].
Qed.

(** [char::is_control]: general category Cc. *)
Definition is_control (c : Z) : bool := in_range 0 31 c || in_range 127 159 c.
(** [char::is_whitespace]: the White_Space property. *)
Definition is_whitespace (c : Z) : bool :=
  in_range 9 13 c || (c =? 32) || (c =? 133) || (c =? 160) || (c =? 5760)
  || in_range 8192 8202 c || (c =? 8232) || (c =? 8233) || (c =? 8239)
  || (c =? 8287) || (c =? 12288).

Fixpoint drop_while {A} (p : A → bool) (l : list A) : list A :=
  match l with
  | [] => []
  | x :: l' => if p x then drop_while p l' else l
  end.
Definition trim_chars (cs : list Z) : list Z :=
  rev (drop_while is_whitespace (rev (drop_while is_whitespace cs))).
(** [str::trim]. *)
Definition trim (s : string) : string := of_chars (trim_chars (chars s)).

(** ** Number parsing: [str::parse::<u64>] / [parse::<usize>]

    A leading [+] is accepted, at least one digit is required, and overflow is an
    error. *)
Fixpoint parse_digits (acc : Z) (l : bytes) : option Z :=
  match l with
  | [] => Some acc
  | b :: l =>
      if is_ascii_digit b then
        let acc' := acc * 10 + (b - 48) in
        if acc' <=? u64_max then parse_digits acc' l else None
      else None
  end.
Definition parse_u64 (s : string) : option Z :=
  let l := str_bytes s in
  let l := match l with b :: l' => if b =? 43 then l' else l | [] => l end in
  match l with [] => None | _ => parse_digits 0 l end.

Lemma parse_digits_bound acc l n :
  0 ≤ acc ≤ u64_max → parse_digits acc l = Some n → 0 ≤ n ≤ u64_max.
Proof.
  revert acc. induction l as [|b l IH]; intros acc Hacc; simpl; [by intros; simplify_eq|].
  destruct (is_ascii_digit b) eqn:Hd; [|done].
  destruct (Z.leb_spec (acc * 10 + (b - 48)) u64_max); [|done].
  apply IH. unfold is_ascii_digit in Hd. reflect. lia.
Qed.

Lemma parse_u64_bound s n : parse_u64 s = Some n → u64 n.
Proof.
  unfold parse_u64, u64. intros H. repeat case_match; try done;
    eapply (parse_digits_bound 0); try done; unfold u64_max; lia.
Qed.

(** ** Big-endian fixed-width encoding: [u64::to_be_bytes] *)

Fixpoint be_bytes (n : nat) (x : Z) : bytes :=
  match n with
  | O => []
  | S n => (x / 256 ^ Z.of_nat n) mod 256 :: be_bytes n x
  end.
Fixpoint be_value (l : bytes) (acc : Z) : Z :=
  match l with [] => acc | b :: l => be_value l (acc * 256 + b) end.

Lemma length_be_bytes n x : length (be_bytes n x) = n.
Proof. induction n; simpl; congruence. Qed.

Lemma be_bytes_ok n x : bytes_ok (be_bytes n x).
Proof.
  induction n; simpl; constructor; [|done]. apply Z.mod_pos_bound. lia.
Qed.

Lemma be_value_bytes n x acc :
  0 ≤ x → be_value (be_bytes n x) acc = acc * 256 ^ Z.of_nat n + x mod 256 ^ Z.of_nat n.
Proof.
  intros Hx. revert acc. induction n as [|n IH]; intros acc.
  { simpl. rewrite Z.mod_1_r. lia. }
  cbn [be_bytes be_value]. rewrite IH.
  rewrite Nat2Z.inj_succ, Z.pow_succ_r by lia.
  pose proof (Z.pow_pos_nonneg 256 (Z.of_nat n) ltac:(lia) ltac:(lia)) as Hp.
  rewrite (Z.mul_comm 256 (256 ^ Z.of_nat n)), Z.rem_mul_r by lia. lia.
Qed.

Lemma be_roundtrip x : u64 x → be_value (be_bytes 8 x) 0 = x.
Proof.
  unfold u64, u64_max. intros. rewrite be_value_bytes by lia.
  rewrite Z.mul_0_l, Z.add_0_l. apply Z.mod_small. simpl. lia.
Qed.
