(* ===== verification/Json.v ===== *)
(** * JSON values as [serde_json::Value]

    The data type and the accessors the broker uses.  An object is serde_json's
    default [Map], a [BTreeMap]: an association list with strictly increasing
    keys.  Parsing and printing belong to the serde_json crate and are the
    operations of the class [SerdeJson], not definitions. *)

From S2P Require Import Prelude RustStr.

(** [serde_json::Number]: a non-negative or negative integer, or a float (its
    payload is the IEEE bits, compared only by [ControlData.number_eqb]). *)
Inductive number : Type :=
| PosInt (n : Z)
| NegInt (n : Z)
| Float (bits : Z).

Inductive value : Type :=
| Null
| Bool (b : bool)
| Number (n : number)
| Str (s : string)
| Array (l : list value)
| Object (m : list (string * value)).

Abbreviation object := (list (string * value)).

(** ** Maps *)

Fixpoint obj_get (k : string) (m : object) : option value :=
  match m with
  | [] => None
  | (k', v) :: m => if (k =? k')%string then Some v else obj_get k m
  end.
Definition obj_contains (k : string) (m : object) : bool :=
  match obj_get k m with Some _ => true | None => false end.
Definition obj_keys (m : object) : list string := fst <$> m.
(** [BTreeMap::insert]: replace in place or insert in key order. *)
Fixpoint obj_insert (k : string) (v : value) (m : object) : object :=
  match m with
  | [] => [(k, v)]
  | (k', v') :: m' =>
      if (k =? k')%string then (k, v) :: m'
      else if (k <? k')%string then (k, v) :: m
      else (k', v') :: obj_insert k v m'
  end.

Lemma obj_get_insert k v m : obj_get k (obj_insert k v m) = Some v.
Proof.
  induction m as [|[k' v'] m IH]; simpl; [by rewrite String.eqb_refl|].
  destruct (k =? k')%string eqn:E; simpl; [by rewrite String.eqb_refl|].
  destruct (k <? k')%string; simpl; [by rewrite String.eqb_refl|]. by rewrite E.
Qed.

Lemma obj_get_insert_ne k k' v m : k ≠ k' → obj_get k (obj_insert k' v m) = obj_get k m.
Proof.
  intros Hne. apply String.eqb_neq in Hne.
  induction m as [|[k'' v''] m IH]; simpl; [by rewrite Hne|].
  destruct (k' =? k'')%string eqn:E; simpl.
  { apply String.eqb_eq in E as <-. by rewrite Hne. }
  destruct (k' <? k'')%string; simpl; [by rewrite Hne|]. by rewrite IH.
Qed.

Lemma obj_get_elem k v m : obj_get k m = Some v → k ∈ obj_keys m.
Proof.
  induction m as [|[k' v'] m IH]; simpl; [done|].
  destruct (k =? k')%string eqn:E.
  - apply String.eqb_eq in E as ->. intros _. apply list_elem_of_here.
  - intros H. by apply list_elem_of_further, IH.
Qed.

(** [json!({..})]: the entries inserted in source order. *)
Definition json_obj (entries : list (string * value)) : value :=
  Object (foldl (λ m '(k, v), obj_insert k v m) [] entries).
Definition num (n : Z) : value := Number (PosInt n).

(** ** Accessors *)

(** [Value::get] with a string index. *)
Definition vget (k : string) (v : value) : option value :=
  match v with Object m => obj_get k m | _ => None end.
Definition as_str (v : value) : option string :=
  match v with Str s => Some s | _ => None end.
Definition as_u64 (v : value) : option Z :=
  match v with Number (PosInt n) => Some n | _ => None end.
Definition as_array (v : value) : option (list value) :=
  match v with Array l => Some l | _ => None end.
Definition as_object (v : value) : option object :=
  match v with Object m => Some m | _ => None end.
Definition is_null (v : value) : bool := match v with Null => true | _ => false end.
Definition is_string (v : value) : bool := match v with Str _ => true | _ => false end.
Definition is_boolean (v : value) : bool := match v with Bool _ => true | _ => false end.
Definition is_number (v : value) : bool := match v with Number _ => true | _ => false end.
Definition is_array (v : value) : bool := match v with Array _ => true | _ => false end.
Definition is_object (v : value) : bool := match v with Object _ => true | _ => false end.

(** [Value::pointer] for reference tokens that are not array indices. *)
Fixpoint pointer (tokens : list string) (v : value) : option value :=
  match tokens with
  | [] => Some v
  | t :: ts => x ← vget t v; pointer ts x
  end.

(** Option tests as the source writes them. *)
Definition is_some {A} (o : option A) : bool := match o with Some _ => true | None => false end.
Definition is_none {A} (o : option A) : bool := negb (is_some o).
Definition is_some_and {A} (p : A → bool) (o : option A) : bool :=
  match o with Some a => p a | None => false end.
Definition is_none_or {A} (p : A → bool) (o : option A) : bool :=
  match o with Some a => p a | None => true end.
Definition ofilter {A} (p : A → bool) (o : option A) : option A :=
  match o with Some a => if p a then Some a else None | None => None end.
Definition or_else {A} (o o' : option A) : option A :=
  match o with Some _ => o | None => o' end.
(** [== Some(s)] on an optional string. *)
Definition opt_str_eq (o : option string) (s : string) : bool :=
  match o with Some t => (t =? s)%string | None => false end.
Definition str_in (s : string) (l : list string) : bool := existsb (String.eqb s) l.
Definition opt_u64 (o : option Z) : value :=
  match o with Some n => Number (PosInt n) | None => Null end.

Lemma str_in_elem s l : str_in s l = true ↔ s ∈ l.
Proof. apply existsb_string. Qed.

Lemma opt_str_eq_Some o s : opt_str_eq o s = true ↔ o = Some s.
Proof. destruct o; simpl; [rewrite String.eqb_eq; naive_solver|naive_solver]. Qed.

Lemma is_some_and_eqb x o : is_some_and (Z.eqb x) o = true ↔ o = Some x.
Proof. destruct o as [y|]; simpl; [rewrite Z.eqb_eq; naive_solver|naive_solver]. Qed.

(** ** The serde_json crate *)

Class SerdeJson : Type := {
  from_slice : bytes → option value;   (* [serde_json::from_slice::<Value>(..).ok()] *)
  to_vec : value → bytes;              (* [serde_json::to_vec] *)
}.
