(* ===== verification/Posix.v ===== *)
(** * The operating system as the broker uses it

    A small deterministic model of the kernel services behind [std::fs] and
    [libc] in [crates/tentaflake-broker/src/state.rs]: a name space of inodes
    (hard links are two names of one inode), [flock] ownership tied to an open
    file description, [renameat2(RENAME_EXCHANGE)], and the wall clock.

    Failure is explicit: every fallible call consumes one entry of the schedule
    [w_faults].  [Some k] makes that call fail after [k] bytes of effect ([k]
    matters to [write_all] only), [None] (or an exhausted schedule) lets it run.
    A theorem that quantifies over worlds therefore quantifies over every
    pattern of I/O failures; and because the code returns at the first error,
    the world left by a failure of the n-th call is also the world a crash just
    before that call leaves. *)

From S2P Require Import Prelude RustStr.

Inductive fkind : Type := Regular | Directory | Symlink | Socket | Special.
#[export] Instance fkind_eq_dec : EqDecision fkind.
Proof. solve_decision. Defined.

Record inode : Type := mk_inode {
  i_kind : fkind;
  i_mode : Z;          (* permission bits *)
  i_uid : Z;
  i_data : bytes;
}.

(** [io::ErrorKind], as far as the code distinguishes kinds. *)
Inductive io_error : Type := NotFound | AlreadyExists | OtherIo.

(** An open file description: its identity and the inode it refers to. *)
Record fd : Type := mk_fd { fd_id : Z; fd_ino : Z }.

Record flock : Type := mk_flock { l_fd : Z; l_ino : Z; l_exclusive : bool }.

Record world : Type := mk_world {
  w_names : gmap string Z;
  w_inodes : gmap Z inode;
  w_next_ino : Z;
  w_locks : list flock;
  w_next_fd : Z;
  w_faults : list (option nat);
  w_clock : list Z;
  w_euid : Z;
}.

Definition set_names f (w : world) : world :=
  mk_world (f (w_names w)) (w_inodes w) (w_next_ino w) (w_locks w) (w_next_fd w)
    (w_faults w) (w_clock w) (w_euid w).
Definition set_inodes f (w : world) : world :=
  mk_world (w_names w) (f (w_inodes w)) (w_next_ino w) (w_locks w) (w_next_fd w)
    (w_faults w) (w_clock w) (w_euid w).
Definition set_next_ino n (w : world) : world :=
  mk_world (w_names w) (w_inodes w) n (w_locks w) (w_next_fd w)
    (w_faults w) (w_clock w) (w_euid w).
Definition set_locks f (w : world) : world :=
  mk_world (w_names w) (w_inodes w) (w_next_ino w) (f (w_locks w)) (w_next_fd w)
    (w_faults w) (w_clock w) (w_euid w).
Definition set_next_fd n (w : world) : world :=
  mk_world (w_names w) (w_inodes w) (w_next_ino w) (w_locks w) n
    (w_faults w) (w_clock w) (w_euid w).
Definition set_faults l (w : world) : world :=
  mk_world (w_names w) (w_inodes w) (w_next_ino w) (w_locks w) (w_next_fd w)
    l (w_clock w) (w_euid w).
Definition set_clock l (w : world) : world :=
  mk_world (w_names w) (w_inodes w) (w_next_ino w) (w_locks w) (w_next_fd w)
    (w_faults w) l (w_euid w).

Abbreviation Sys := (M world io_error).

(** ** Inspecting the name space *)

Definition lookup_inode (w : world) (p : string) : option (Z * inode) :=
  i ← w_names w !! p; n ← w_inodes w !! i; Some (i, n).
(** The content of the file a path names. *)
Definition file_data (w : world) (p : string) : option bytes :=
  i_data ∘ snd <$> lookup_inode w p.
(** [st_nlink]: the number of names of an inode. *)
Definition nlink (w : world) (i : Z) : Z :=
  Z.of_nat (size (filter (λ kv, kv.2 = i) (w_names w))).
Definition mode_and (m mask : Z) : Z := Z.land m mask.

(** ** Calls *)

(** Consume one entry of the failure schedule; [partial] is the effect of a
    failed call. *)
Definition syscall {A} (partial : nat → world → world) (m : Sys A) : Sys A := λ w,
  match w_faults w with
  | [] => m w
  | None :: fs => m (set_faults fs w)
  | Some k :: fs => (Err OtherIo, partial k (set_faults fs w))
  end.
Definition simple {A} (m : Sys A) : Sys A := syscall (λ _ w, w) m.

Definition new_fd (i : Z) : Sys fd := λ w,
  (Ok (mk_fd (w_next_fd w) i), set_next_fd (w_next_fd w + 1) w).

Definition alloc (p : string) (mode : Z) : Sys fd := λ w,
  let i := w_next_ino w in
  new_fd i (set_next_ino (i + 1)
    (set_names (<[p := i]>)
      (set_inodes (<[i := mk_inode Regular mode (w_euid w) []]>) w))).

(** [fs::symlink_metadata]. *)
Definition sys_symlink_metadata (p : string) : Sys (Z * inode) := simple (λ w,
  match lookup_inode w p with
  | Some x => (Ok x, w)
  | None => (Err NotFound, w)
  end).
(** [fs::metadata] for a path whose last component is not a symlink. *)
Definition sys_metadata := sys_symlink_metadata.

(** [OpenOptions::read(true)] with [O_NOFOLLOW]. *)
Definition sys_open_read (p : string) : Sys fd := simple (λ w,
  match lookup_inode w p with
  | None => (Err NotFound, w)
  | Some (i, n) =>
      match i_kind n with
      | Symlink => (Err OtherIo, w)
      | _ => new_fd i w
      end
  end).

(** The file a path leads to through at most [n] symbolic links (the kernel
    follows 40); a link holds an absolute path. *)
Fixpoint follow (n : nat) (w : world) (p : string) : result io_error inode :=
  match lookup_inode w p with
  | None => Err NotFound
  | Some (_, x) =>
      match i_kind x, n with
      | Symlink, O => Err OtherIo
      | Symlink, S n => follow n w (bytes_str (i_data x))
      | _, _ => Ok x
      end
  end.
(** [fs::File::open] for reading, with the metadata of the opened file. *)
Definition sys_open_follow (p : string) : Sys inode := simple (λ w, (follow 40 w p, w)).
(** [fs::read]. *)
Definition sys_read_file (p : string) : Sys bytes := simple (λ w,
  match follow 40 w p with
  | Ok x => match i_kind x with
            | Regular => (Ok (i_data x), w)
            | _ => (Err OtherIo, w)
            end
  | Err e => (Err e, w)
  end).

(** [fs::canonicalize] of a path whose last component may be a symbolic link (to
    an absolute, canonical path). *)
Fixpoint resolve_path (n : nat) (w : world) (p : string) : result io_error string :=
  match lookup_inode w p with
  | None => Err NotFound
  | Some (_, x) =>
      match i_kind x, n with
      | Symlink, O => Err OtherIo
      | Symlink, S n => resolve_path n w (bytes_str (i_data x))
      | _, _ => Ok p
      end
  end.
Definition sys_canonicalize (p : string) : Sys string := simple (λ w, (resolve_path 40 w p, w)).

(** [OpenOptions::read(true)] with [O_DIRECTORY | O_NOFOLLOW]. *)
Definition sys_open_dir (p : string) : Sys fd := simple (λ w,
  match lookup_inode w p with
  | None => (Err NotFound, w)
  | Some (i, n) =>
      match i_kind n with
      | Directory => new_fd i w
      | _ => (Err OtherIo, w)
      end
  end).
(** [DirBuilder::mode(..).create]. *)
Definition sys_mkdir (p : string) (mode : Z) : Sys unit := simple (λ w,
  match lookup_inode w p with
  | Some _ => (Err AlreadyExists, w)
  | None =>
      let i := w_next_ino w in
      (Ok tt, set_next_ino (i + 1)
        (set_names (<[p := i]>)
          (set_inodes (<[i := mk_inode Directory mode (w_euid w) []]>) w)))
  end).

(** [write(true).create(true).truncate(false).mode(..)] with [O_NOFOLLOW]. *)
Definition sys_open_create (p : string) (mode : Z) : Sys fd := simple (λ w,
  match lookup_inode w p with
  | None => alloc p mode w
  | Some (i, n) =>
      match i_kind n with
      | Symlink | Directory => (Err OtherIo, w)
      | _ => new_fd i w
      end
  end).

(** [write(true).create_new(true).mode(..)] with [O_NOFOLLOW]. *)
Definition sys_create_new (p : string) (mode : Z) : Sys fd := simple (λ w,
  match lookup_inode w p with
  | None => alloc p mode w
  | Some _ => (Err AlreadyExists, w)
  end).

(** [File::metadata] on an open file. *)
Definition sys_fstat (f : fd) : Sys inode := simple (λ w,
  match w_inodes w !! fd_ino f with
  | Some n => (Ok n, w)
  | None => (Err OtherIo, w)
  end).

(** [file.take(n).read_to_end(..)] on a freshly opened file: [n] bytes, or all. *)
Definition take_bytes (n : Z) (l : bytes) : bytes :=
  if Z.of_nat (length l) <=? n then l else take (Z.to_nat n) l.
Definition sys_read_take (n : Z) (f : fd) : Sys bytes := simple (λ w,
  match w_inodes w !! fd_ino f with
  | Some x => (Ok (take_bytes n (i_data x)), w)
  | None => (Err OtherIo, w)
  end).

(** [file.read_to_end(..)] on a freshly opened file. *)
Definition sys_read_all (f : fd) : Sys bytes := simple (λ w,
  match w_inodes w !! fd_ino f with
  | Some x => (Ok (i_data x), w)
  | None => (Err OtherIo, w)
  end).

Definition upd_data (i : Z) (g : bytes → bytes) (w : world) : world :=
  set_inodes (alter (λ n, mk_inode (i_kind n) (i_mode n) (i_uid n) (g (i_data n))) i) w.

(** [File::set_len]: truncate or extend with zeros. *)
Definition sys_set_len (f : fd) (n : Z) : Sys unit := simple (λ w,
  (Ok tt, upd_data (fd_ino f) (λ d, take (Z.to_nat n) d ++ replicate (Z.to_nat n - length d) 0) w)).

(** [File::set_permissions]. *)
Definition sys_fchmod (f : fd) (mode : Z) : Sys unit := simple (λ w,
  (Ok tt, set_inodes (alter (λ n, mk_inode (i_kind n) mode (i_uid n) (i_data n)) (fd_ino f)) w)).

(** Overwrite [d] from the start with [b]. *)
Definition overwrite (b d : bytes) : bytes := b ++ drop (length b) d.

(** [write_all] (or [serde_json::to_writer]) at the start of the file; a failed
    call may have written a prefix. *)
Definition sys_write (f : fd) (b : bytes) : Sys unit :=
  syscall (λ k, upd_data (fd_ino f) (overwrite (take k b)))
    (λ w, (Ok tt, upd_data (fd_ino f) (overwrite b) w)).

(** [write_all] to a file opened with [append(true)]. *)
Definition sys_append (f : fd) (b : bytes) : Sys unit :=
  syscall (λ k, upd_data (fd_ino f) (λ d, d ++ take k b))
    (λ w, (Ok tt, upd_data (fd_ino f) (λ d, d ++ b) w)).

(** [sync_all], [sync_data], directory syncs and [create_dir_all]: they can
    fail, and have no effect on the contents modelled here. *)
Definition sys_sync : Sys unit := simple (λ w, (Ok tt, w)).

(** [fs::rename]. *)
Definition sys_rename (a b : string) : Sys unit := simple (λ w,
  match w_names w !! a with
  | None => (Err NotFound, w)
  | Some i => (Ok tt, set_names (λ m, <[b := i]> (delete a m)) w)
  end).

(** [renameat2(.., RENAME_EXCHANGE)]: both names must exist. *)
Definition sys_exchange (a b : string) : Sys unit := simple (λ w,
  match w_names w !! a, w_names w !! b with
  | Some i, Some j => (Ok tt, set_names (λ m, <[a := j]> (<[b := i]> m)) w)
  | _, _ => (Err NotFound, w)
  end).

(** [fs::remove_file]. *)
Definition sys_remove (p : string) : Sys unit := simple (λ w,
  match w_names w !! p with
  | None => (Err NotFound, w)
  | Some _ => (Ok tt, set_names (delete p) w)
  end).

(** [flock(fd, LOCK_EX or LOCK_SH | LOCK_NB)]. *)
Definition lock_conflict (f : fd) (excl : bool) (l : flock) : bool :=
  (l_ino l =? fd_ino f) && negb (l_fd l =? fd_id f) && (excl || l_exclusive l).
Definition sys_flock (f : fd) (excl : bool) : Sys unit := simple (λ w,
  if existsb (lock_conflict f excl) (w_locks w) then (Err OtherIo, w)
  else (Ok tt, set_locks (cons (mk_flock (fd_id f) (fd_ino f) excl)) w)).

(** Dropping a [File]: its locks go with it.  Never fails. *)
Definition close (f : fd) (w : world) : world :=
  set_locks (List.filter (λ l, negb (l_fd l =? fd_id f))) w.
(** Run [m] and close [f] on every exit, as the destructor of a local does. *)
Definition closing {E A} (f : fd) (m : M world E A) : M world E A := λ w,
  match m w with (r, w') => (r, close f w') end.

(** [SystemTime::now().duration_since(UNIX_EPOCH).unwrap_or_default().as_secs()]:
    the next reading of the host clock (0 for a clock before the epoch). *)
Definition unix_seconds {E} : M world E Z := λ w,
  match w_clock w with
  | [] => (Ok 0, w)
  | t :: ts => (Ok t, set_clock ts w)
  end.

(** The entries of a directory: the names one component below it. *)
Definition child_of (dir p : string) : bool :=
  match strip_prefix (dir ++ "/") p with
  | Some r => negb (str_is_empty r) && negb (contains_byte 47 r)
  | None => false
  end.
Definition dir_entries (w : world) (dir : string) : list (string * Z) :=
  map_to_list (filter (λ kv, child_of dir kv.1 = true) (w_names w)).
(** [fs::read_dir]. *)
Definition sys_read_dir (dir : string) : Sys (list (string * Z)) := simple (λ w,
  (Ok (dir_entries w dir), w)).

(** * Facts about the model *)

(** Every name points below the allocation frontier. *)
Definition wf (w : world) : Prop := ∀ p i, w_names w !! p = Some i → i < w_next_ino w.

(** The path names a private regular file with a single link and content [d]:
    what [open_private] accepts. *)
Definition private_file (w : world) (p : string) (d : bytes) : Prop :=
  ∃ i n, w_names w !! p = Some i ∧ w_inodes w !! i = Some n ∧ i_kind n = Regular
         ∧ mode_and (i_mode n) 63 = 0 ∧ nlink w i = 1 ∧ i_data n = d.

(** Worlds that differ only in the failure schedule, the descriptor counter and
    the remaining clock readings. *)
Record same_fs (w w' : world) : Prop := {
  sf_names : w_names w' = w_names w;
  sf_inodes : w_inodes w' = w_inodes w;
  sf_next : w_next_ino w' = w_next_ino w;
  sf_locks : w_locks w' = w_locks w;
  sf_euid : w_euid w' = w_euid w;
  sf_clock : ∃ l, w_clock w = l ++ w_clock w';
}.

#[export] Instance same_fs_refl : Reflexive same_fs.
Proof. intros w. split; try done. by exists []. Qed.
#[export] Instance same_fs_trans : Transitive same_fs.
Proof.
  intros a b c [] []. split; try congruence.
  destruct sf_clock0 as [l Hl], sf_clock1 as [l' Hl'].
  exists (l ++ l'). by rewrite Hl, Hl', app_assoc.
Qed.

Lemma same_fs_faults fs w : same_fs w (set_faults fs w).
Proof. split; try done. by exists []. Qed.
Lemma same_fs_fd n w : same_fs w (set_next_fd n w).
Proof. split; try done. by exists []. Qed.
#[export] Hint Resolve same_fs_refl same_fs_faults same_fs_fd : broker.

Lemma nlink_same w w' i : w_names w' = w_names w → nlink w' i = nlink w i.
Proof. unfold nlink. by intros ->. Qed.

#[export] Instance wf_proper : Proper (same_fs ==> impl) wf.
Proof. intros w w' [] Hwf p i. rewrite sf_names0, sf_next0. apply Hwf. Qed.
#[export] Instance private_file_proper : Proper (same_fs ==> eq ==> eq ==> impl) private_file.
Proof.
  intros w w' [] p ? <- d ? <- (i & n & Hi & Hn & ? & ? & Hl & ?).
  exists i, n. rewrite sf_names0, sf_inodes0, (nlink_same _ _ i sf_names0). done.
Qed.
#[export] Instance private_file_proper_flip :
  Proper (same_fs --> eq ==> eq ==> flip impl) private_file.
Proof. intros w w' S p ? <- d ? <- Hp. by eapply private_file_proper. Qed.
Lemma lookup_inode_same w w' p : same_fs w w' → lookup_inode w' p = lookup_inode w p.
Proof. intros []. unfold lookup_inode. by rewrite sf_names0, sf_inodes0. Qed.

Lemma nlink_one_unique w p q i :
  nlink w i = 1 → w_names w !! p = Some i → w_names w !! q = Some i → p = q.
Proof.
  intros Hl Hp Hq. unfold nlink in Hl.
  eapply (map_size_one_key (filter (λ kv, kv.2 = i) (w_names w))); [lia| |];
    by apply map_lookup_filter_Some.
Qed.

(** A private file is the only name of its inode. *)
Lemma private_unique w p q d i :
  private_file w p d → w_names w !! p = Some i → w_names w !! q = Some i → p = q.
Proof.
  intros (j & n & Hj & _ & _ & _ & Hl & _) Hp Hq.
  assert (j = i) as -> by congruence. by apply (nlink_one_unique w p q i).
Qed.

(** [nlink] when one name is redirected between other inodes. *)
Definition links (m : gmap string Z) (i : Z) : nat := size (filter (λ kv, kv.2 = i) m).
Lemma links_delete_ne m p i : m !! p ≠ Some i → links (delete p m) i = links m i.
Proof.
  intros Hne. unfold links. rewrite map_filter_delete.
  rewrite delete_id; [done|].
  apply map_lookup_filter_None. destruct (m !! p) as [j|]; naive_solver.
Qed.
Lemma links_insert_ne m p i j : m !! p ≠ Some i → j ≠ i → links (<[p := j]> m) i = links m i.
Proof.
  intros Hne Hj. unfold links. rewrite map_filter_insert_False by done.
  by apply links_delete_ne.
Qed.
Lemma links_insert_eq m p i : m !! p ≠ Some i → links (<[p := i]> m) i = S (links m i).
Proof.
  intros Hne. unfold links. rewrite map_filter_insert_True by done.
  apply map_size_insert_None, map_lookup_filter_None.
  destruct (m !! p) as [j|]; naive_solver.
Qed.
Lemma links_delete_eq m p i : m !! p = Some i → links m i = S (links (delete p m) i).
Proof.
  intros Hp. rewrite <-(insert_delete_id m p i) at 1 by done.
  apply links_insert_eq. by rewrite lookup_delete_eq.
Qed.
Lemma links_fresh m i : (∀ p j, m !! p = Some j → j < i) → links m i = 0%nat.
Proof.
  intros Hlt. unfold links. apply map_size_empty_iff, map_empty.
  intros p. apply map_lookup_filter_None. right.
  intros j Hp Hj. simpl in Hj. apply Hlt in Hp. lia.
Qed.
Lemma nlink_links w i : nlink w i = Z.of_nat (links (w_names w) i).
Proof. done. Qed.

(** ** Specifications of the calls *)

Section calls.
Context {A : Type}.
Implicit Types (m : Sys A) (Q : A → world → Prop) (X : io_error → world → Prop).

Lemma wp_syscall partial m Q X w :
  (∀ k fs, X OtherIo (partial k (set_faults fs w))) →
  (∀ fs, wp m Q X (set_faults fs w)) → wp (syscall partial m) Q X w.
Proof.
  intros Hf Hm. unfold wp, syscall. destruct (w_faults w) as [|[k|] fs] eqn:E.
  - specialize (Hm []). unfold wp in Hm.
    replace (set_faults [] w) with w in Hm by (destruct w; unfold set_faults; simpl in *; congruence).
    done.
  - apply Hf.
  - apply Hm.
Qed.

Lemma wp_simple m Q X w :
  (∀ fs, X OtherIo (set_faults fs w)) →
  (∀ fs, wp m Q X (set_faults fs w)) → wp (simple m) Q X w.
Proof. intros. apply wp_syscall; eauto. Qed.
End calls.

Lemma wp_closing {E A} f (m : M world E A) Q X w :
  wp m (λ a w', Q a (close f w')) (λ e w', X e (close f w')) w → wp (closing f m) Q X w.
Proof. unfold wp, closing. by destruct (m w) as [[a|e] w']. Qed.

(** Read-only calls: nothing but the schedule moves. *)
Definition reader {E A} (m : M world E A) (Q : world → A → Prop) : Prop :=
  ∀ w, wp m (λ a w', same_fs w w' ∧ Q w a) (λ _ w', same_fs w w') w.

Lemma reader_open_read p : reader (sys_open_read p) (λ w f,
  ∃ n, lookup_inode w p = Some (fd_ino f, n) ∧ i_kind n ≠ Symlink).
Proof.
  intros w. apply wp_simple; intros fs; [apply same_fs_faults|].
  unfold wp. change (lookup_inode (set_faults fs w) p) with (lookup_inode w p).
  destruct (lookup_inode w p) as [[i n]|] eqn:E; simpl; [|apply same_fs_faults].
  destruct (i_kind n) eqn:K; simpl; try apply same_fs_faults;
    (split; [etrans; [apply same_fs_faults | apply same_fs_fd] | exists n; by rewrite K]).
Qed.

Lemma reader_fstat f : reader (sys_fstat f) (λ w n, w_inodes w !! fd_ino f = Some n).
Proof.
  intros w. apply wp_simple; intros fs; [apply same_fs_faults|].
  unfold wp. simpl. destruct (w_inodes w !! fd_ino f) eqn:E; simpl; auto with broker.
Qed.

Lemma take_bytes_take n l : take_bytes n l = take (Z.to_nat n) l.
Proof. unfold take_bytes. destruct (Z.leb_spec (Z.of_nat (length l)) n); [|done]. symmetry. apply take_ge. lia. Qed.
Lemma take_bytes_all n (l : bytes) : blen l <= n → take_bytes n l = l.
Proof. intros Hn. rewrite take_bytes_take. unfold blen in Hn. rewrite take_ge; [done|lia]. Qed.
Lemma reader_read_take n f : reader (sys_read_take n f) (λ w d,
  ∃ x, w_inodes w !! fd_ino f = Some x ∧ d = take (Z.to_nat n) (i_data x)).
Proof.
  intros w. apply wp_simple; intros fs; [apply same_fs_faults|].
  unfold wp. simpl. destruct (w_inodes w !! fd_ino f) eqn:E; simpl; [rewrite take_bytes_take|]; eauto with broker.
Qed.

Lemma reader_read_all f : reader (sys_read_all f) (λ w d,
  ∃ x, w_inodes w !! fd_ino f = Some x ∧ d = i_data x).
Proof.
  intros w. apply wp_simple; intros fs; [apply same_fs_faults|].
  unfold wp. simpl. destruct (w_inodes w !! fd_ino f) eqn:E; simpl; eauto with broker.
Qed.

Lemma reader_symlink_metadata p : reader (sys_symlink_metadata p) (λ w x, lookup_inode w p = Some x).
Proof.
  intros w. apply wp_simple; intros fs; [apply same_fs_faults|].
  unfold wp. simpl. destruct (lookup_inode w p) eqn:E;
  change (lookup_inode (set_faults fs w) p) with (lookup_inode w p); rewrite E; simpl; auto with broker.
Qed.

Lemma follow_faults n fs w p : follow n (set_faults fs w) p = follow n w p.
Proof.
  revert p. induction n as [|n IH]; intros p; cbn [follow];
    change (lookup_inode (set_faults fs w) p) with (lookup_inode w p); [done|].
  destruct (lookup_inode w p) as [[i x]|]; [|done]. by destruct (i_kind x).
Qed.
Lemma reader_open_follow p : reader (sys_open_follow p) (λ w x, follow 40 w p = Ok x).
Proof.
  intros w. unfold sys_open_follow. apply wp_simple; intros fs; [apply same_fs_faults|].
  apply run_wp. rewrite follow_faults. destruct (follow 40 w p); auto with broker.
Qed.

Lemma reader_read_dir d : reader (sys_read_dir d) (λ w l, l = dir_entries w d).
Proof. intros w. apply wp_simple; intros fs; [|split]; auto with broker. Qed.

Lemma reader_sync : reader sys_sync (λ _ _, True).
Proof. intros w. apply wp_simple; intros fs; [|split]; auto with broker. Qed.

(** The reading the next [unix_seconds] returns. *)
Definition clock_now (w : world) : Z := hd 0 (w_clock w).

Lemma reader_unix_seconds {E} : reader (E := E) unix_seconds (λ w t, t = clock_now w).
Proof.
  intros w. unfold wp, unix_seconds, clock_now. destruct (w_clock w) as [|t ts] eqn:E1; simpl.
  - split; [reflexivity | done].
  - split; [|done]. split; try done. by exists [t].
Qed.

Lemma clock_now_u64 w : Forall u64 (w_clock w) → u64 (clock_now w).
Proof. unfold clock_now. destruct 1; simpl; [unfold u64, u64_max; lia | done]. Qed.

(** Readers compose. *)
Lemma reader_mono {E A} (m : M world E A) (Q Q' : world → A → Prop) :
  reader m Q → (∀ w a, Q w a → Q' w a) → reader m Q'.
Proof. intros H HQ w. eapply wp_mono; [apply H| |]; naive_solver. Qed.
Lemma reader_map_err {E E' A} (f : E → E') (m : M world E A) Q :
  reader m Q → reader (map_err f m) Q.
Proof. intros H w. apply wp_map_err. apply H. Qed.
Lemma reader_attempt {E E' A} (m : M world E A) (Q : world → A → Prop) :
  reader m Q →
  reader (E := E') (attempt m) (λ w r, match r with Ok a => Q w a | Err _ => True end).
Proof. intros H w. apply wp_attempt. eapply wp_mono; [apply H| |]; naive_solver. Qed.

(** ** Effects on the name space *)

(** [w'] is a later world in which every single-link file outside [ps] is
    untouched: same inode, same content, same link count. *)
Record frame (ps : list string) (w w' : world) : Prop := {
  fr_files q i n : q ∉ ps → w_names w !! q = Some i → w_inodes w !! i = Some n → nlink w i = 1 →
    w_names w' !! q = Some i ∧ w_inodes w' !! i = Some n ∧ nlink w' i = 1;
  fr_locks : w_locks w' = w_locks w;
  fr_euid : w_euid w' = w_euid w;
  fr_clock : ∃ l, w_clock w = l ++ w_clock w';
}.

#[export] Instance frame_refl ps : Reflexive (frame ps).
Proof. intros w. split; try done. by exists []. Qed.
#[export] Instance frame_trans ps : Transitive (frame ps).
Proof.
  intros a b c [F ? ? [l Hl]] [G ? ? [l' Hl']]. split; try congruence.
  - intros q i n Hq H1 H2 H3. destruct (F q i n) as (? & ? & ?); eauto.
  - exists (l ++ l'). by rewrite Hl, Hl', app_assoc.
Qed.
Lemma same_fs_frame ps w w' : same_fs w w' → frame ps w w'.
Proof.
  intros []. split; try done. intros q i n _ ? ? ?.
  by rewrite sf_names0, sf_inodes0, (nlink_same _ _ _ sf_names0).
Qed.
Lemma frame_private ps w w' q d :
  frame ps w w' → q ∉ ps → private_file w q d → private_file w' q d.
Proof.
  intros [F ? ? ?] Hq (i & n & Hi & Hn & ? & ? & Hl & ?).
  destruct (F q i n) as (? & ? & ?); try done. by exists i, n.
Qed.
#[export] Hint Resolve same_fs_frame : broker.

(** Changing the inode behind a single-link name of [ps]. *)
Lemma frame_upd_inode ps w p i g :
  p ∈ ps → w_names w !! p = Some i → nlink w i = 1 →
  frame ps w (set_inodes (alter g i) w).
Proof.
  intros Hp Hi Hl. split; try done; [|by exists []].
  intros q j n Hq Hj Hn Hlj. split_and!; try done. simpl.
  rewrite lookup_alter_ne; [done|]. intros ->.
  by pose proof (nlink_one_unique w p q j Hlj Hi Hj) as ->.
Qed.

Lemma frame_exchange ps w p q i j :
  p ∈ ps → q ∈ ps → p ≠ q → w_names w !! p = Some i → w_names w !! q = Some j →
  frame ps w (set_names (λ m, <[p := j]> (<[q := i]> m)) w).
Proof.
  intros Hp Hq Hne Hi Hj. split; try done; [|by exists []].
  intros x k n Hx Hk Hn Hl.
  assert (x ≠ p ∧ x ≠ q) as [Hxp Hxq] by set_solver.
  assert (k ≠ i) by (intros ->; by apply Hxp, (nlink_one_unique w x p i)).
  assert (k ≠ j) by (intros ->; by apply Hxq, (nlink_one_unique w x q j)).
  rewrite !nlink_links in *. simpl.
  rewrite !links_insert_ne by (rewrite ?lookup_insert_ne by congruence; congruence).
  by rewrite !lookup_insert_ne by congruence.
Qed.

Lemma frame_delete ps w p :
  p ∈ ps → frame ps w (set_names (delete p) w).
Proof.
  intros Hp. split; try done; [|by exists []].
  intros q i n Hq Hi Hn Hl. assert (q ≠ p) by set_solver.
  rewrite nlink_links. simpl.
  assert (w_names w !! p ≠ Some i) as Hpi.
  { intros Hpi. by pose proof (nlink_one_unique w q p i Hl Hi Hpi). }
  rewrite links_delete_ne by done. by rewrite lookup_delete_ne by congruence.
Qed.

(** ** Mutating calls *)

Lemma wf_set_inodes f w : wf w → wf (set_inodes f w).
Proof. done. Qed.
Lemma wf_delete p w : wf w → wf (set_names (delete p) w).
Proof. intros H q i. simpl. intros Hq. apply lookup_delete_Some in Hq as [_ ?]. eauto. Qed.
Lemma wf_exchange p q i j w :
  wf w → w_names w !! p = Some i → w_names w !! q = Some j →
  wf (set_names (λ m, <[p := j]> (<[q := i]> m)) w).
Proof.
  intros H Hp Hq x k. simpl. rewrite !lookup_insert. repeat case_decide; intros; simplify_eq; eauto.
Qed.

(** The file a descriptor opened for writing refers to is the one its path names. *)
Definition opened (w : world) (p : string) (f : fd) : Prop :=
  w_names w !! p = Some (fd_ino f) ∧ is_Some (w_inodes w !! fd_ino f).

(** The world after a file [p] was created in [w]. *)
Definition created (p : string) (mode : Z) (w : world) : world :=
  set_next_ino (w_next_ino w + 1)
    (set_names (<[p := w_next_ino w]>)
      (set_inodes (<[w_next_ino w := mk_inode Regular mode (w_euid w) []]>) w)).

Lemma created_wf p mode w : wf w → wf (created p mode w).
Proof.
  intros Hwf q i. simpl. rewrite lookup_insert. case_decide; intros; simplify_eq; [lia|].
  assert (i < w_next_ino w) by eauto. lia.
Qed.

Lemma created_frame p mode w : wf w → frame [p] w (created p mode w).
Proof.
  intros Hwf. split; try done; [|by exists []]. intros q i n Hq Hi Hn Hl. simpl.
  assert (q ≠ p) by set_solver. pose proof (Hwf _ _ Hi) as Hlt.
  assert (w_names w !! p ≠ Some i) as Hpi.
  { intros Hpi. by pose proof (nlink_one_unique w q p i Hl Hi Hpi). }
  rewrite !nlink_links in *. simpl. rewrite links_insert_ne by (done || lia).
  rewrite lookup_insert_ne by congruence. by rewrite lookup_insert_ne by lia.
Qed.

Lemma wp_open_create p mode w :
  wf w →
  wp (sys_open_create p mode) (λ f w', wf w' ∧ frame [p] w w' ∧ opened w' p f)
     (λ _ w', same_fs w w') w.
Proof.
  intros Hwf. apply wp_simple; intros fs; [apply same_fs_faults|].
  unfold wp. change (lookup_inode (set_faults fs w) p) with (lookup_inode w p).
  destruct (lookup_inode w p) as [[i n]|] eqn:E; simpl.
  - unfold lookup_inode in E. destruct (w_names w !! p) as [i'|] eqn:Ei; simpl in E; [|done].
    destruct (w_inodes w !! i') as [n'|] eqn:En; simplify_eq/=.
    destruct (i_kind n); simpl; auto with broker;
      (split_and!; [exact Hwf | apply same_fs_frame; etrans; [apply same_fs_faults|apply same_fs_fd]
        | by split; [|eexists]]).
  - split_and!.
    + exact (created_wf p mode w Hwf).
    + pose proof (created_frame p mode w Hwf) as [F ? ? ?]. by split.
    + split; simpl; rewrite lookup_insert_eq; eauto.
Qed.

(** [create_new] makes a new file: the name was free. *)
Lemma wp_create_new p mode w :
  wf w →
  wp (sys_create_new p mode)
    (λ f w', lookup_inode w p = None ∧ fd_ino f = w_next_ino w ∧ same_fs (created p mode w) w')
    (λ _ w', same_fs w w') w.
Proof.
  intros Hwf. apply wp_simple; intros fs; [apply same_fs_faults|].
  unfold wp. change (lookup_inode (set_faults fs w) p) with (lookup_inode w p).
  destruct (lookup_inode w p) as [[i n]|] eqn:E; simpl; [apply same_fs_faults|].
  split_and!; try done. split; try done. by exists [].
Qed.
