(* ===== verification/Budget.v ===== *)
(** * The persisted budget: files, locks, checksum, atomic replacement

    Models the storage half of [crates/tentaflake-broker/src/state.rs]: the
    [BudgetState] record, the strict-mode marker and lock owner, the digest, the
    validated read and [atomic_json].  SHA-256 (the ring crate) and the JSON form
    of [BudgetState] (derived by serde) are operations of the class [Crates];
    [CratesLaws] states what the code relies on: printing then parsing a state
    of in-range counters gives it back, and the text fits the 4096-byte read. *)

From S2P Require Import Prelude RustStr Posix.

Record BudgetState : Type := mkBudget {
  day : Z;
  requests : Z;
  tokens : Z;
  cost_microusd : Z;
  last_seen_seconds : option Z;
  unsettled : option Z;
  pending_usage : option Z;
  checksum : option bytes;
}.

#[export] Instance BudgetState_eq_dec : EqDecision BudgetState.
Proof. solve_decision. Defined.

(** [BudgetState::default()]. *)
Definition BudgetState_default : BudgetState := mkBudget 0 0 0 0 None None None None.

Definition set_last_seen (x : option Z) (b : BudgetState) : BudgetState :=
  mkBudget (day b) (requests b) (tokens b) (cost_microusd b) x (unsettled b)
    (pending_usage b) (checksum b).
Definition set_unsettled (x : option Z) (b : BudgetState) : BudgetState :=
  mkBudget (day b) (requests b) (tokens b) (cost_microusd b) (last_seen_seconds b) x
    (pending_usage b) (checksum b).
Definition set_pending (x : option Z) (b : BudgetState) : BudgetState :=
  mkBudget (day b) (requests b) (tokens b) (cost_microusd b) (last_seen_seconds b)
    (unsettled b) x (checksum b).
Definition set_checksum (x : option bytes) (b : BudgetState) : BudgetState :=
  mkBudget (day b) (requests b) (tokens b) (cost_microusd b) (last_seen_seconds b)
    (unsettled b) (pending_usage b) x.
Definition set_counters (r t c : Z) (b : BudgetState) : BudgetState :=
  mkBudget (day b) r t c (last_seen_seconds b) (unsettled b) (pending_usage b) (checksum b).

(** ** External crates *)

Class Crates : Type := {
  sha256 : bytes → bytes;
  encode_budget : BudgetState → bytes;
  decode_budget : bytes → option BudgetState;
}.

Definition opt_u64_ok (o : option Z) : Prop := match o with Some x => u64 x | None => True end.
(** The values a [BudgetState] of Rust can hold. *)
Record budget_u64 (b : BudgetState) : Prop := {
  bu_day : u64 (day b);
  bu_requests : u64 (requests b);
  bu_tokens : u64 (tokens b);
  bu_cost : u64 (cost_microusd b);
  bu_last : opt_u64_ok (last_seen_seconds b);
  bu_unsettled : opt_u64_ok (unsettled b);
  bu_pending : opt_u64_ok (pending_usage b);
  bu_checksum : match checksum b with Some d => length d = 32%nat ∧ bytes_ok d | None => True end;
}.

Class CratesLaws `{Crates} : Prop := {
  sha256_size l : length (sha256 l) = 32%nat ∧ bytes_ok (sha256 l);
  decode_encode b : budget_u64 b → decode_budget (encode_budget b) = Some b;
  encode_size b : budget_u64 b → (length (encode_budget b) ≤ 4096)%nat;
}.

Definition STRICT_MARKER : bytes := str_bytes "tentaflake-strict-budget-v2" ++ [10].

Record StrictState : Type := mkStrict {
  owner : fd;
  lock_path : string;
  marker_path : string;
}.

Definition io_err (context : string) (_ : io_error) : string := context.

(** ** Paths *)

Definition state_sidecar (path suffix : string) : string := (path ++ suffix)%string.

(** Split at the last occurrence of [c]. *)
Definition rsplit_once (c : ascii) (s : string) : option (string * string) :=
  '(b, a) ← split_once c (rev_str s); Some (rev_str a, rev_str b).
(** [Path::parent]: [None] for the root and the empty path. *)
Definition path_parent (path : string) : option string :=
  if str_is_empty path || (path =? "/")%string then None
  else match rsplit_once "/" path with
       | Some (d, _) => Some (if str_is_empty d then "/"%string else d)
       | None => Some EmptyString
       end.
(** [Path::with_extension] for a path that ends in a file name. *)
Definition with_extension (ext path : string) : string :=
  let '(dir, name) := match rsplit_once "/" path with
                      | Some (d, n) => ((d ++ "/")%string, n)
                      | None => (EmptyString, path)
                      end in
  let stem := match rsplit_once "." name with
              | Some (st, _) => if str_is_empty st then name else st
              | None => name
              end in
  (dir ++ stem ++ "." ++ ext)%string.

Section storage.
Context `{Crates}.

(** ** Files and locks *)

Definition create_private (path : string) : M world string fd :=
  map_err (io_err "cannot create") (sys_create_new path 384 (* 0o600 *)).

(** [!is_file() || mode & 0o077 != 0 || nlink != 1]. *)
Definition not_private (w : world) (f : fd) (n : inode) : bool :=
  negb (bool_decide (i_kind n = Regular))
  || negb (mode_and (i_mode n) 63 =? 0)
  || negb (nlink w (fd_ino f) =? 1).

Definition open_or_create_lock (path : string) : M world string fd :=
  file ← map_err (io_err "cannot open budget lock") (sys_open_create path 384);
  metadata ← map_err (io_err "cannot stat budget lock") (sys_fstat file);
  w ← get;
  _ ← throw_if (not_private w file metadata)
        "budget lock must be a private regular file with one link";
  mret file.

Definition open_private (path : string) : M world string fd :=
  file ← map_err (io_err "cannot open") (sys_open_read path);
  metadata ← map_err (io_err "cannot stat") (sys_fstat file);
  w ← get;
  _ ← throw_if (not_private w file metadata)
        "must be a private regular file with one link";
  mret file.

Definition lock_owner (file : fd) (exclusive : bool) : M world string unit :=
  map_err (io_err "strict budget already owned or lock unavailable") (sys_flock file exclusive).

Definition reject_strict_marker (path : string) : M world string unit :=
  r ← attempt (sys_symlink_metadata (state_sidecar path ".initialized"));
  match r with
  | Err NotFound => mret tt
  | Ok _ => fail "strict budget state requires strict cost mode"
  | Err _ => fail "cannot inspect strict budget marker"
  end.

Definition ensure_parent (path : string) : M world string unit :=
  _ ← lift (ok_or "state path has no parent" (path_parent path));
  map_err (io_err "cannot create state directory") sys_sync.
Definition sync_parent (path : string) : M world string unit :=
  _ ← lift (ok_or "state path has no parent" (path_parent path));
  map_err (io_err "cannot sync budget directory") sys_sync.

(** ** [StrictState] *)

Definition verify_owner_and_marker (s : StrictState) : M world string unit :=
  current ← open_private (lock_path s);
  held ← map_err (io_err "cannot stat held budget lock") (sys_fstat (owner s));
  actual ← map_err (io_err "cannot stat budget lock") (sys_fstat current);
  _ ← throw_if (negb (fd_ino (owner s) =? fd_ino current)) "budget lock was replaced";
  marker ← open_private (marker_path s);
  contents ← map_err (io_err "cannot read budget marker") (sys_read_take 128 marker);
  throw_if (negb (bool_decide (contents = STRICT_MARKER)))
    "invalid strict budget initialization marker".

(** The new owner is dropped (and its lock released) when verification fails. *)
Definition acquire (path : string) : M world string StrictState :=
  file ← open_private (state_sidecar path ".lock");
  _ ← lock_owner file true;
  let state := mkStrict file (state_sidecar path ".lock") (state_sidecar path ".initialized") in
  r ← attempt (verify_owner_and_marker state);
  match r with
  | Ok _ => mret state
  | Err e => _ ← modify (close file); fail e
  end.

(** ** Digest and validated read *)

Definition opt_tag (o : option Z) : bytes :=
  (if is_Some_dec o then 1 else 0) :: be_bytes 8 (default 0 o).

Definition digest_input (b : BudgetState) : bytes :=
  str_bytes "tentaflake-strict-budget-v2" ++ [0]
  ++ be_bytes 8 (day b) ++ be_bytes 8 (requests b)
  ++ be_bytes 8 (tokens b) ++ be_bytes 8 (cost_microusd b)
  ++ opt_tag (last_seen_seconds b) ++ opt_tag (unsettled b)
  ++ match pending_usage b with
     | Some p => str_bytes "pending-usage" ++ [0] ++ be_bytes 8 p
     | None => []
     end.
Definition strict_digest (b : BudgetState) : bytes := sha256 (digest_input b).

(** The consistency tests of [read_strict_budget]. *)
Definition budget_inconsistent (b : BudgetState) : bool :=
  ((requests b =? 0) && (negb (tokens b =? 0) || negb (cost_microusd b =? 0)))
  || (negb (requests b =? 0) && ((tokens b =? 0) || (cost_microusd b =? 0)))
  || match unsettled b with Some n => requests b <? n | None => false end
  || match pending_usage b with Some n => (n =? 0) || (requests b <? n) | None => false end.

Definition read_strict_budget (path : string) : M world string BudgetState :=
  file ← open_private path;
  bs ← map_err (io_err "cannot read budget state") (sys_read_take 4097 file);
  _ ← throw_if (4096 <? blen bs) "strict budget state is too large";
  budget ← lift (ok_or "invalid budget state" (decode_budget bs));
  _ ← throw_if
        (bool_decide (last_seen_seconds budget = None)
         || bool_decide (unsettled budget = None)
         || negb (bool_decide (checksum budget = Some (strict_digest budget))))
        "strict budget checksum or required fields are invalid";
  _ ← throw_if (budget_inconsistent budget) "strict budget counters are inconsistent";
  mret budget.

Definition check_strict_clock (b : BudgetState) (now : Z) : result string unit :=
  last ← ok_or "strict budget is missing its clock checkpoint" (last_seen_seconds b);
  _ ← bail_if ((last =? 0) || (last / 86400 <? day b))
        "strict budget has an invalid clock checkpoint";
  bail_if (now <? last) "clock rollback detected for strict budget".

(** ** Atomic replacement *)

Definition replace_existing_strict (temporary path : string) : M world string unit :=
  map_err (io_err "cannot exchange existing budget state") (sys_exchange temporary path).

(** Returns the value with the checksum it was given ([value: &mut BudgetState]).
    In Rust the caller's value keeps its new checksum on an error too; every
    caller drops it then. *)
Definition atomic_json (path : string) (value : BudgetState) (strict : bool) :
    M world string BudgetState :=
  value ← (if strict then mret (set_checksum (Some (strict_digest value)) value)
           else _ ← ensure_parent path; mret value);
  let temporary := if strict then state_sidecar path ".tmp" else with_extension "tmp" path in
  file ← map_err (io_err "cannot create state file") (sys_open_create temporary 384);
  metadata ← map_err (io_err "cannot stat state file") (sys_fstat file);
  w ← get;
  _ ← throw_if (negb (bool_decide (i_kind metadata = Regular)) || negb (nlink w (fd_ino file) =? 1))
        "temporary budget state must be a regular file with one link";
  _ ← map_err (io_err "cannot truncate state") (sys_set_len file 0);
  _ ← map_err (io_err "cannot protect state") (sys_fchmod file 384);
  _ ← map_err (io_err "cannot encode state") (sys_write file (encode_budget value));
  _ ← map_err (io_err "cannot sync state") sys_sync;
  if strict then
    _ ← replace_existing_strict temporary path;
    _ ← map_err (io_err "cannot remove prior budget state") (sys_remove temporary);
    _ ← sync_parent path;
    mret value
  else
    _ ← map_err (io_err "cannot replace state") (sys_rename temporary path);
    mret value.

(** Returns the budget the caller holds afterwards ([*budget = checkpoint]). *)
Definition checkpoint_clock (path : string) (budget : BudgetState) (now : Z) :
    M world string BudgetState :=
  if bool_decide (last_seen_seconds budget = Some now) then mret budget
  else atomic_json path (set_last_seen (Some now) budget) true.
End storage.

(** * Facts *)

(** Chain a read-only call in a [wp] proof. *)
Tactic Notation "wp_reader" open_constr(spec) "as" simple_intropattern(a) ident(w1) ident(S1) simple_intropattern(H1) :=
  eapply wp_mono; [eapply spec | intros a w1 [S1 H1] | intros ? w1 S1].

(** Close a goal [R a d] from a chain [R a b], [R b c], [R c d] in the context. *)
Ltac chain := repeat first [eassumption | etrans; [eassumption|]].

Section storage_facts.
Context `{Crates}.

Lemma not_private_false w f n :
  not_private w f n = false ↔
  i_kind n = Regular ∧ mode_and (i_mode n) 63 = 0 ∧ nlink w (fd_ino f) = 1.
Proof.
  unfold not_private. rewrite !orb_false_iff, !negb_false_iff, bool_decide_eq_true, !Z.eqb_eq. tauto.
Qed.

Lemma open_private_reader p : reader (open_private p) (λ w f,
  ∃ d, private_file w p d ∧ w_names w !! p = Some (fd_ino f)
       ∧ i_data <$> w_inodes w !! fd_ino f = Some d).
Proof.
  intros w. unfold open_private. wp_step; wp_step.
  wp_reader (reader_open_read p) as f w1 S1 (n & Hn & _); [|done].
  wp_step; wp_step.
  wp_reader (reader_fstat f) as n' w2 S2 Hn'; [|by etrans].
  wp_step; wp_step. wp_step. apply wp_throw_if; intros Hp.
  { by etrans. }
  wp_step. split; [by etrans|].
  apply not_private_false in Hp as (Hk & Hm & Hl).
  unfold lookup_inode in Hn. apply bind_Some in Hn as (i & Hi & Hn).
  apply bind_Some in Hn as (n1 & Hn1 & [= -> ->]).
  rewrite (sf_inodes _ _ S1), Hn1 in Hn'. injection Hn' as <-.
  exists (i_data n). split_and!; [|done|by rewrite Hn1].
  exists (fd_ino f), n. split_and!; try done.
  rewrite <-Hl. symmetry. rewrite (nlink_same w1 w2) by apply S2. apply nlink_same, S1.
Qed.

Lemma verify_reader s : reader (verify_owner_and_marker s) (λ w _,
  w_names w !! lock_path s = Some (fd_ino (owner s))
  ∧ ∃ d, private_file w (marker_path s) d ∧ take 128 d = STRICT_MARKER).
Proof.
  intros w. unfold verify_owner_and_marker. wp_step.
  wp_reader (open_private_reader (lock_path s)) as f w1 S1 (d & _ & Hi & _); [|done].
  wp_step; wp_step. wp_reader (reader_fstat (owner s)) as n w2 S2 _; [|by etrans].
  wp_step; wp_step. wp_reader (reader_fstat f) as n' w3 S3 _; [|by chain].
  assert (same_fs w w3) as S by (by chain).
  wp_step. apply wp_throw_if; intros Hino; [done|].
  apply negb_false_iff, Z.eqb_eq in Hino.
  wp_step. wp_reader (open_private_reader (marker_path s)) as m w4 S4 (md & Hm & Hmi & Hmd); [|by etrans].
  wp_step; wp_step. wp_reader (reader_read_take 128 m) as c w5 S5 (x & Hx & ->);
    [|by chain].
  assert (same_fs w w5) as S' by (by chain).
  apply wp_throw_if; intros Hc; [done|].
  apply negb_false_iff, bool_decide_eq_true in Hc.
  split; [done|]. split; [by rewrite Hino|].
  exists md. split.
  - destruct Hm as (i & n0 & Hi0 & Hn0 & ? & ? & Hl0 & ?). exists i, n0.
    rewrite (sf_names _ _ S) in Hi0. rewrite (sf_inodes _ _ S) in Hn0.
    rewrite (nlink_same w w3) in Hl0 by apply S. done.
  - rewrite (sf_inodes _ _ S4) in Hx. rewrite Hx in Hmd. by injection Hmd as <-.
Qed.

(** Reading back: the content, what it decodes to, and the checks it passed. *)
Lemma read_strict_reader p : reader (read_strict_budget p) (λ w b,
  ∃ d, private_file w p d ∧ decode_budget d = Some b
       ∧ checksum b = Some (strict_digest b) ∧ is_Some (last_seen_seconds b)
       ∧ is_Some (unsettled b) ∧ budget_inconsistent b = false).
Proof.
  intros w. unfold read_strict_budget. wp_step.
  wp_reader (open_private_reader p) as f w1 S1 (d & Hp & Hi & Hd); [|done].
  wp_step; wp_step. wp_reader (reader_read_take 4097 f) as bs w2 S2 (x & Hx & ->); [|by etrans].
  assert (same_fs w w2) as S by by etrans.
  rewrite (sf_inodes _ _ S1) in Hx. rewrite Hx in Hd. simplify_eq/=.
  wp_step. apply wp_throw_if; intros Hlen; [done|].
  rewrite Z.ltb_ge in Hlen. unfold blen in Hlen. rewrite length_take in Hlen.
  rewrite take_ge in * by lia.
  wp_step. apply wp_lift; intros b Hb; [|done].
  unfold ok_or in Hb. destruct (decode_budget (i_data x)) as [b'|] eqn:Hdec; simplify_eq.
  wp_step. apply wp_throw_if; intros Hc; [done|].
  rewrite !orb_false_iff, negb_false_iff, bool_decide_eq_true, !bool_decide_eq_false in Hc.
  destruct Hc as [[Hls Hus] Hck].
  wp_step. apply wp_throw_if; intros Hin; [done|]. wp_step.
  split; [done|]. exists (i_data x).
  split_and!; try done; by apply not_eq_None_Some.
Qed.

Lemma check_strict_clock_Ok b now :
  check_strict_clock b now = Ok () ↔
  ∃ last, last_seen_seconds b = Some last ∧ last ≠ 0 ∧ day b ≤ last / 86400 ∧ last ≤ now.
Proof.
  unfold check_strict_clock, mbind, result_bind, ok_or, bail_if.
  destruct (last_seen_seconds b) as [last|]; [|naive_solver].
  destruct ((last =? 0) || (last / 86400 <? day b)) eqn:E.
  - rewrite orb_true_iff, Z.eqb_eq, Z.ltb_lt in E. split; [done|]. intros (? & ? & ?). simplify_eq. lia.
  - rewrite orb_false_iff, Z.eqb_neq, Z.ltb_ge in E.
    destruct (Z.ltb_spec now last); split; try done.
    + intros (? & ? & ?). simplify_eq. lia.
    + intros _. exists last. split; [done|]. lia.
Qed.

(** The state [atomic_json] writes in strict mode. *)
Definition sealed (b : BudgetState) : BudgetState := set_checksum (Some (strict_digest b)) b.

Lemma strict_digest_checksum c b : strict_digest (set_checksum c b) = strict_digest b.
Proof. done. Qed.

Lemma tmp_ne p : state_sidecar p ".tmp" ≠ p.
Proof. by apply append_ne. Qed.

(** The temporary file of a replacement is a regular single-link file whose
    inode satisfies [P], and the old state is still in place.  Before
    publishing, [P] is [ready d']: private, holding the new state [d']. *)
Record staged (p : string) (d : bytes) (P : inode → Prop) (f : fd) (w : world) : Prop := {
  st_wf : wf w;
  st_old : private_file w p d;
  st_name : w_names w !! state_sidecar p ".tmp" = Some (fd_ino f);
  st_link : nlink w (fd_ino f) = 1;
  st_node : ∃ n, w_inodes w !! fd_ino f = Some n ∧ i_kind n = Regular ∧ P n;
}.
Definition ready (d' : bytes) (n : inode) : Prop := mode_and (i_mode n) 63 = 0 ∧ i_data n = d'.

Lemma exchange_publishes p d d' f w :
  staged p d (ready d') f w →
  ∃ i j, w_names w !! state_sidecar p ".tmp" = Some i ∧ w_names w !! p = Some j ∧
  let w' := set_names (λ m, <[state_sidecar p ".tmp" := j]> (<[p := i]> m)) w in
  private_file w' p d' ∧ wf w' ∧ frame [p; state_sidecar p ".tmp"] w w'
  ∧ w_names w' !! state_sidecar p ".tmp" = Some j ∧ w_names w' !! p ≠ Some j.
Proof.
  intros [Hwf Hold Hname Hlink (n & Hn & Hk & Hm & Hd)].
  pose proof (tmp_ne p) as Hne. set (t := state_sidecar p ".tmp") in *.
  destruct Hold as (j & nj & Hj & Hnj & Hkj & Hmj & Hlj & Hdj).
  assert (fd_ino f ≠ j) as Hij.
  { intros E. apply Hne. rewrite E in Hname, Hlink. by apply (nlink_one_unique w t p j). }
  exists (fd_ino f), j. cbv zeta. split_and!; try done; simpl.
  - exists (fd_ino f), n. simpl. rewrite lookup_insert_ne, lookup_insert_eq by done.
    split_and!; try done. rewrite nlink_links in *. simpl.
    rewrite <-insert_delete_eq.
    rewrite links_insert_ne by (rewrite ?lookup_delete_eq; congruence).
    assert (links (<[p:=fd_ino f]> (w_names w)) (fd_ino f) = 2%nat) as H2
      by (rewrite links_insert_eq by congruence; lia).
    rewrite (links_delete_eq _ t) in H2 by (by rewrite lookup_insert_ne).
    lia.
  - by apply wf_exchange.
  - apply (frame_exchange _ w t p); set_solver.
  - by rewrite lookup_insert_eq.
  - rewrite lookup_insert_ne, lookup_insert_eq by done. congruence.
Qed.
(** What a strict replacement of the content [d] of [p] by [d'] may leave. *)
Record replacing (p : string) (d d' : bytes) (w w' : world) : Prop := {
  rp_wf : wf w';
  rp_data : private_file w' p d ∨ private_file w' p d';
  rp_frame : frame [p; state_sidecar p ".tmp"] w w';
}.

Lemma replacing_same p d d' w w' : wf w → private_file w p d → same_fs w w' → replacing p d d' w w'.
Proof.
  intros Hwf Hp S. split; [by rewrite <-S | left; by rewrite <-S | auto with broker].
Qed.
Lemma replacing_trans p d d' w w1 w2 :
  frame [p; state_sidecar p ".tmp"] w w1 → replacing p d d' w1 w2 → replacing p d d' w w2.
Proof. intros F []. split; try done. by etrans. Qed.

(** Writing through the descriptor of the temporary file. *)
Lemma staged_update p d (P P' : inode → Prop) f w g :
  staged p d P f w → (∀ n, P n → i_kind (g n) = i_kind n ∧ P' (g n)) →
  let w' := set_inodes (alter g (fd_ino f)) w in
  staged p d P' f w' ∧ frame [p; state_sidecar p ".tmp"] w w'.
Proof.
  intros [Hwf Hold Hname Hlink (n & Hn & Hk & HP)] Hg w'.
  assert (frame [state_sidecar p ".tmp"] w w') as F.
  { by apply (frame_upd_inode _ w (state_sidecar p ".tmp")); [apply list_elem_of_here|..]. }
  split.
  - destruct (Hg n HP) as [Hgk HP']. split; try done.
    + apply (frame_private _ w w' p d F); [|done]. pose proof (tmp_ne p). set_solver.
    + exists (g n). simpl. rewrite lookup_alter_eq, Hn. split_and!; [done|congruence|done].
  - apply (frame_upd_inode _ w (state_sidecar p ".tmp")); set_solver.
Qed.

Lemma staged_same p d P f w w' : staged p d P f w → same_fs w w' → staged p d P f w'.
Proof.
  intros [Hwf Hold Hname Hlink Hn] S. split.
  - by rewrite <-S.
  - by rewrite <-S.
  - by rewrite (sf_names _ _ S).
  - by rewrite (nlink_same w w') by apply S.
  - by rewrite (sf_inodes _ _ S).
Qed.
Lemma staged_replacing p d d' P f w w' : staged p d P f w → same_fs w w' → replacing p d d' w w'.
Proof. intros Hst. apply replacing_same; apply Hst. Qed.

(** After the exchange, removing the temporary name leaves the new state. *)
Lemma publish_spec p d d' f (b : BudgetState) w :
  staged p d (ready d') f w →
  wp (_ ← replace_existing_strict (state_sidecar p ".tmp") p;
      _ ← map_err (io_err "cannot remove prior budget state") (sys_remove (state_sidecar p ".tmp"));
      _ ← sync_parent p;
      mret b)
    (λ b' w', b' = b ∧ private_file w' p d' ∧ replacing p d d' w w')
    (λ _ w', replacing p d d' w w') w.
Proof.
  intros Hst. unfold replace_existing_strict.
  destruct (exchange_publishes _ _ _ _ _ Hst) as (i & j & Hi & Hj & Hnew & Hwf' & F & Ht & _).
  pose proof (tmp_ne p) as Hne. set (t := state_sidecar p ".tmp") in *.
  set (w1 := set_names _ w) in *.
  assert (∀ w2, same_fs w1 w2 → replacing p d d' w w2) as R1.
  { intros w2 S. split; [by rewrite <-S | right; by rewrite <-S | etrans; [done|auto with broker]]. }
  wp_step; wp_step. apply wp_simple; intros fs.
  { eapply replacing_same; [apply Hst | apply Hst | apply same_fs_faults]. }
  apply run_wp. simpl. rewrite Hi, Hj.
  wp_step; wp_step. apply wp_simple; intros fs'.
  { apply R1. by split; try done; exists []. }
  apply run_wp. simpl. rewrite lookup_insert_eq.
  set (w2 := set_names (delete t) _).
  assert (frame [p; t] w1 w2) as F2.
  { etrans; [|apply (frame_delete [p; t] (set_faults fs' (set_faults fs w1)) t); set_solver].
    apply same_fs_frame. by split; try done; exists []. }
  assert (private_file w2 p d') as Hp2.
  { eapply (frame_private [t] w1); [|set_solver|done].
    etrans; [|apply (frame_delete [t] (set_faults fs' (set_faults fs w1)) t); set_solver].
    apply same_fs_frame. by split; try done; exists []. }
  assert (wf w2) as Hwf2 by (apply wf_delete, Hwf').
  assert (∀ w3, same_fs w2 w3 → private_file w3 p d' ∧ replacing p d d' w w3) as R2.
  { intros w3 S. assert (private_file w3 p d') by by rewrite <-S.
    split; [done|]. split; [by rewrite <-S | by right |].
    etrans; [done|]. etrans; [done|auto with broker]. }
  unfold sync_parent. wp_step; wp_step.
  apply wp_lift; intros ? _; [|by apply R2].
  wp_step. wp_reader reader_sync as u w3 S3 _; [|by apply R2].
  wp_step. split; [done|]. by apply R2.
Qed.

(** A call that only rewrites the inode of the temporary file. *)
Lemma wp_update_staged p d d' (P P' : inode → Prop) f w partial g :
  staged p d P f w → (∀ n, P n → i_kind (g n) = i_kind n ∧ P' (g n)) →
  (∀ i w0, partial i w0 = w0 ∨ ∃ h, (∀ n, i_kind (h n) = i_kind n) ∧
                              partial i w0 = set_inodes (alter h (fd_ino f)) w0) →
  wp (syscall partial (λ w, (Ok tt, set_inodes (alter g (fd_ino f)) w)))
    (λ _ w', staged p d P' f w' ∧ frame [p; state_sidecar p ".tmp"] w w')
    (λ _ w', replacing p d d' w w') w.
Proof.
  intros Hst Hg Hpart. apply wp_syscall; intros;
    assert (same_fs w (set_faults fs w)) as S by auto with broker.
  - destruct (Hpart k (set_faults fs w)) as [-> | (h & Hh & ->)]; [by eapply staged_replacing|].
    destruct (staged_update p d P (λ _, True) f (set_faults fs w) h) as [Hs F];
      [by eapply staged_same | auto |].
    split; [apply Hs | left; apply Hs | etrans; [by apply same_fs_frame, S | done]].
  - apply run_wp. simpl.
    destruct (staged_update p d P P' f (set_faults fs w) g) as [Hs F];
      [by eapply staged_same | auto |].
    split; [done|]. etrans; [by apply same_fs_frame, S | done].
Qed.

(** Strict [atomic_json] is atomic: whatever call fails, the state file holds
    the complete old or the complete new state, never a torn one; success
    means the new one; and no other single-link file is touched. *)
Lemma atomic_json_strict_spec p b d w :
  wf w → private_file w p d →
  wp (atomic_json p b true)
    (λ b' w', b' = sealed b ∧ private_file w' p (encode_budget (sealed b))
              ∧ replacing p d (encode_budget (sealed b)) w w')
    (λ _ w', replacing p d (encode_budget (sealed b)) w w') w.
Proof.
  intros Hwf Hp. unfold atomic_json. wp_step; wp_step. fold (sealed b).
  set (t := state_sidecar p ".tmp"). set (d' := encode_budget (sealed b)).
  wp_step; wp_step. wp_apply (wp_open_create t 384 w Hwf).
  2: { intros e w1 S1. by apply (replacing_same p d d' w w1). }
  intros f w1 (Hwf1 & F1 & Ht & Hino).
  assert (private_file w1 p d) as Hp1.
  { eapply frame_private; [exact F1| |done]. pose proof (tmp_ne p). set_solver. }
  assert (frame [p; t] w w1) as F1'.
  { destruct F1 as [F ? ? ?]. split; try done. intros q i n Hq. apply F. set_solver. }
  wp_step; wp_step. wp_reader (reader_fstat f) as n w2 S2 Hn.
  2: { eapply replacing_trans; [done|]. by apply replacing_same. }
  wp_step. wp_step. wp_step. apply wp_throw_if; intros Hbad.
  { eapply replacing_trans; [done|]. by apply replacing_same. }
  rewrite orb_false_iff, !negb_false_iff, bool_decide_eq_true, Z.eqb_eq in Hbad.
  destruct Hbad as [Hk Hl].
  assert (staged p d (λ _, True) f w2) as Hst.
  { eapply (staged_same _ _ _ _ w1); [|done]. split; try done.
    - by rewrite <-(nlink_same w1 w2) by apply S2.
    - by exists n. }
  assert (frame [p; t] w w2) as F2 by (etrans; [done|auto with broker]).
  clear Hn Hk Hl Ht Hino Hp1 F1 F1' S2 Hwf1.
  wp_step; wp_step. wp_apply (wp_update_staged p d d' _ (λ n, i_data n = []));
    [done | intros ? _; split; [done|]; by rewrite take_0 | by left | intros _ w3 [H3 F3]
    | intros e w3 H3; by eapply replacing_trans].
  wp_step; wp_step. wp_apply (wp_update_staged p d d' _ (ready []));
    [done | by intros | by left | intros _ w4 [H4 F4]
    | intros e w4 H4; eapply replacing_trans; [|exact H4]; chain].
  wp_step; wp_step. wp_apply (wp_update_staged p d d' _ (ready d'));
    [done | intros n' [? E]; split; [done|split; [done|]]; simpl; rewrite E; unfold overwrite;
      by rewrite drop_nil, app_nil_r
    | right; eexists; split; [|reflexivity]; done | intros _ w5 [H5 F5]
    | intros e w5 H5; eapply replacing_trans; [|exact H5]; chain].
  assert (frame [p; t] w w5) as F by chain.
  wp_step; wp_step. wp_reader reader_sync as u w6 S6 _.
  2: { eapply replacing_trans; [done|]. by eapply staged_replacing. }
  wp_apply (publish_spec p d d' f (sealed b) w6); [by eapply staged_same| |].
  - intros b' w7 (-> & Hp7 & R). split_and!; try done. eapply replacing_trans; [|exact R].
    etrans; [done|auto with broker].
  - intros e w7 R. eapply replacing_trans; [|exact R]. etrans; [done|auto with broker].
Qed.
End storage_facts.
