(* ===== verification/Limits.v ===== *)
(** * The request ledger: [Limits], [Reservation], [UsageGuard]

    Models [crates/tentaflake-broker/src/state.rs]: loading, admission
    ([reserve_with_clock]), settlement, usage guards, overage exhaustion, and the
    operator commands that provision and reconcile strict state.

    The configuration of a [Limits] is the record [Limits]; what its mutex and
    atomics hold, together with the operating system, is [ledger].  The mutex
    makes every operation atomic with respect to the others, so an operation is
    a function on [ledger], and an interleaving of requests is a sequence of
    operations.  Mutex poisoning (a panic while the lock is held) is not
    modelled: no operation below can panic once [window_seconds] is positive. *)

From S2P Require Import Prelude RustStr Posix Budget.

Record RateState : Type := mkRate { window : Z; rate_requests : Z }.

Record Limits : Type := mkLimits {
  path : string;
  window_seconds : Z;
  max_requests_per_window : Z;
  daily_request_budget : Z;
  daily_token_budget : Z;
  daily_cost_microusd : Z;
  strict : option StrictState;
  legacy_owner : option fd;
}.

(** [inner: Mutex<(BudgetState, RateState, u64)>], the two atomic flags, and the
    operating system. *)
Record ledger : Type := mkLedger {
  l_budget : BudgetState;
  l_rate : RateState;
  l_active : Z;
  persistence_failed : bool;
  overage_pending : bool;
  l_world : world;
}.

Definition set_budget b (s : ledger) :=
  mkLedger b (l_rate s) (l_active s) (persistence_failed s) (overage_pending s) (l_world s).
Definition set_rate r (s : ledger) :=
  mkLedger (l_budget s) r (l_active s) (persistence_failed s) (overage_pending s) (l_world s).
Definition set_active a (s : ledger) :=
  mkLedger (l_budget s) (l_rate s) a (persistence_failed s) (overage_pending s) (l_world s).
Definition set_persistence_failed x (s : ledger) :=
  mkLedger (l_budget s) (l_rate s) (l_active s) x (overage_pending s) (l_world s).
Definition set_overage_pending x (s : ledger) :=
  mkLedger (l_budget s) (l_rate s) (l_active s) (persistence_failed s) x (l_world s).
Definition set_world w (s : ledger) :=
  mkLedger (l_budget s) (l_rate s) (l_active s) (persistence_failed s) (overage_pending s) w.

Record Reservation : Type := mkReservation { dispatched : bool }.
Record UsageGuard : Type := mkGuard {
  reserved_tokens : Z;
  reserved_cost : Z;
  failed : bool;
}.
Definition set_failed x (g : UsageGuard) := mkGuard (reserved_tokens g) (reserved_cost g) x.

Definition io {A} (m : M world string A) : M ledger string A := zoom l_world set_world m.

Definition opt_is_some {A} (o : option A) : bool := bool_decide (is_Some o).

Section limits.
Context `{Crates}.

Definition is_strict (L : Limits) : bool := opt_is_some (strict L).

(** ** Provisioning and operator recovery *)

Definition initialize_strict_at (path : string) (now : Z) : M world string unit :=
  _ ← throw_if (now =? 0) "cannot initialize budget with an invalid clock";
  let lock_path := state_sidecar path ".lock" in
  let marker_path := state_sidecar path ".initialized" in
  owner ← open_or_create_lock lock_path;
  closing owner (
    _ ← lock_owner owner true;
    r ← attempt (sys_symlink_metadata path);
    _ ← match r with
        | Err NotFound => mret tt
        | Ok _ => fail "budget state already exists; refusing initialization"
        | Err _ => fail "cannot inspect budget state"
        end;
    _ ← map_err (io_err "cannot sync budget lock") sys_sync;
    _ ← sync_parent path;
    marker ← create_private marker_path;
    _ ← map_err (io_err "cannot write budget marker") (sys_write marker STRICT_MARKER);
    _ ← map_err (io_err "cannot sync budget marker") sys_sync;
    _ ← sync_parent path;
    state ← create_private path;
    let initial := mkBudget (now / 86400) 0 0 0 (Some now) (Some 0) None None in
    let initial := set_checksum (Some (strict_digest initial)) initial in
    _ ← map_err (io_err "cannot encode initial budget") (sys_write state (encode_budget initial));
    _ ← map_err (io_err "cannot sync initial budget") sys_sync;
    sync_parent path).

Definition reconcile_strict_at (path : string) (now : Z) : M world string (Z * Z) :=
  owner ← acquire path;
  closing (Budget.owner owner) (
    budget ← read_strict_budget path;
    _ ← lift (check_strict_clock budget now);
    let resolved := (default 0 (unsettled budget), default 0 (pending_usage budget)) in
    let budget := set_last_seen (Some now) (set_pending None (set_unsettled (Some 0) budget)) in
    _ ← atomic_json path budget true;
    mret resolved).

(** ** Loading *)

(** The two halves of the constructor: who owns the state file, and what it
    holds.  [now] is [Some] exactly in strict mode. *)
Definition load_owner (path : string) (now : option Z) :
    M world string (option StrictState * option fd) :=
  match now with
  | Some _ => s ← acquire path; mret (Some s, None)
  | None =>
      _ ← ensure_parent path;
      owner ← open_or_create_lock (state_sidecar path ".lock");
      _ ← lock_owner owner false;
      r ← attempt (reject_strict_marker path);
      match r with
      | Ok _ => mret (None, Some owner)
      | Err e => _ ← modify (close owner); fail e
      end
  end.

Definition load_budget (path : string) (now : option Z) : M world string BudgetState :=
  match now with
  | Some now =>
      budget ← read_strict_budget path;
      _ ← lift (check_strict_clock budget now);
      checkpoint_clock path budget now
  | None =>
      r ← attempt (sys_read_file path);
      match r with
      | Ok bs => lift (ok_or "invalid budget state" (decode_budget bs))
      | Err NotFound => mret BudgetState_default
      | Err _ => fail "cannot read budget state"
      end
  end.

Definition owner_fd (o : option StrictState * option fd) : option fd :=
  match o with
  | (Some s, _) => Some (owner s)
  | (None, f) => f
  end.

(** On a failure after the owner was acquired its lock is released again. *)
Definition load_at (path : string)
    (window_seconds max_requests_per_window daily_request_budget daily_token_budget
     daily_cost_microusd : Z) (now : option Z) : M world string (Limits * ledger) :=
  o ← load_owner path now;
  r ← attempt (load_budget path now);
  match r with
  | Err e =>
      _ ← match owner_fd o with Some f => modify (close f) | None => mret tt end;
      fail e
  | Ok budget =>
      w ← get;
      mret (mkLimits path window_seconds max_requests_per_window daily_request_budget
              daily_token_budget daily_cost_microusd (fst o) (snd o),
            mkLedger budget (mkRate 0 0) 0 false false w)
  end.

(** ** Admission *)

Definition persist_budget (L : Limits) (b : BudgetState) : M ledger string BudgetState :=
  r ← attempt (io (atomic_json (path L) b (is_strict L)));
  match r with
  | Ok b' => mret b'
  | Err e =>
      _ ← (if is_strict L then modify (set_persistence_failed true) else mret tt);
      fail e
  end.

(** [checkpoint_clock(&self.path, &mut state.0, now)?]. *)
Definition checkpoint_state (L : Limits) (now : Z) : M ledger string unit :=
  b ← gets l_budget;
  b' ← io (checkpoint_clock (path L) b now);
  modify (set_budget b').

(** [if self.strict.is_some() { checkpoint_clock(..)?; } return Err(reason)]. *)
Definition deny {A} (L : Limits) (now : Z) (reason : string) : M ledger string A :=
  _ ← (if is_strict L then checkpoint_state L now else mret tt);
  fail reason.

(** The strict-mode checks that precede every use of the in-memory budget. *)
Definition check_strict_state (s : StrictState) (L : Limits) (b : BudgetState) (now : Z) :
    M ledger string unit :=
  _ ← io (verify_owner_and_marker s);
  disk ← io (read_strict_budget (path L));
  _ ← throw_if (negb (bool_decide (disk = b)))
        "strict budget state changed while the broker was running";
  lift (check_strict_clock b now).

(** The arithmetic of an admission: the checked new counters. *)
Definition propose (b : BudgetState) (tokens_ cost : Z) : option (Z * Z * Z) :=
  r ← checked_add (requests b) 1;
  t ← checked_add (tokens b) tokens_;
  c ← checked_add (cost_microusd b) cost;
  Some (r, t, c).

Definition denial (L : Limits) (rate : RateState) (proposal : option (Z * Z * Z)) :
    option string :=
  if max_requests_per_window L <=? rate_requests rate then Some "rate limit exceeded"%string
  else if match proposal with
          | None => true
          | Some (r, t, c) =>
              (daily_request_budget L <? r) || (daily_token_budget L <? t)
              || (daily_cost_microusd L <? c)
          end then Some "daily budget exceeded"%string
  else None.

Definition fresh_day (L : Limits) (d : Z) : BudgetState :=
  mkBudget d 0 0 0 None (if is_strict L then Some 0 else None) None None.

(** The budget and rate state an admission is decided on, after the day and
    window of [now] were taken into account; an error is a refused rollover. *)
Definition roll_day (L : Limits) (b : BudgetState) (active d : Z) : result string BudgetState :=
  if active <? default 0 (pending_usage b) then Err "unresolved usage accounting blocks admission"%string
  else if day b =? d then Ok b
  else if opt_is_some (pending_usage b) then
    Err "pending usage accounting blocks the next UTC day"%string
  else if is_strict L && negb (bool_decide (unsettled b = Some 0)) then
    Err "unsettled reservations block the next UTC day"%string
  else Ok (fresh_day L d).
Definition roll_window (rate : RateState) (w : Z) : RateState :=
  if window rate =? w then rate else mkRate w 0.

(** The counters, the clock and the holds of an admitted request. *)
Definition charge (L : Limits) (b : BudgetState) (r t c now : Z) : result string BudgetState :=
  let b := set_counters r t c b in
  if is_strict L then
    let b := set_last_seen (Some now) b in
    u ← ok_or "strict budget is missing unsettled reservations" (unsettled b);
    u' ← ok_or "daily budget exceeded" (checked_add u 1);
    Ok (set_unsettled (Some u') b)
  else Ok b.
Definition track (b : BudgetState) (active : Z) (track_usage : bool) :
    result string (BudgetState * Z) :=
  if track_usage then
    p ← ok_or "too many pending usage records" (checked_add (default 0 (pending_usage b)) 1);
    a ← ok_or "too many active usage records" (checked_add active 1);
    Ok (set_pending (Some p) b, a)
  else Ok (b, active).

Definition reserve_with_clock (L : Limits) (tokens_ cost : Z) (track_usage : bool)
    (clock : M world string Z) : M ledger string unit :=
  pf ← gets persistence_failed;
  _ ← throw_if pf "budget persistence previously failed";
  op ← gets overage_pending;
  _ ← throw_if op "usage overage accounting is in progress";
  now ← io clock;
  let d := now / 86400 in
  let win := now / window_seconds L in
  state0 ← gets l_budget;
  _ ← match strict L with
      | Some s => check_strict_state s L state0 now
      | None => io (reject_strict_marker (path L))
      end;
  active ← gets l_active;
  rate ← gets l_rate;
  match roll_day L state0 active d with
  | Err reason => deny L now reason
  | Ok budget =>
      let rate := roll_window rate win in
      let proposal := propose budget tokens_ cost in
      match denial L rate proposal, proposal with
      | None, Some (r, t, c) =>
          budget ← lift (charge L budget r t c now);
          '(budget, active) ← lift (track budget active track_usage);
          let rate := mkRate (window rate) (rate_requests rate + 1) in
          budget ← persist_budget L budget;
          modify (set_active active ∘ set_rate rate ∘ set_budget budget)
      | Some reason, _ => deny L now reason
      | None, None => fail "daily budget exceeded" (* unreachable: [denial] covers it *)
      end
  end.

Definition reserve (L : Limits) (tokens_ cost : Z) : M ledger string (option Reservation) :=
  _ ← reserve_with_clock L tokens_ cost false unix_seconds;
  mret (if is_strict L then Some (mkReservation false) else None).

Definition reserve_llm (L : Limits) (tokens_ cost : Z) :
    M ledger string (option Reservation * option UsageGuard) :=
  _ ← reserve_with_clock L tokens_ cost (is_strict L) unix_seconds;
  mret (if is_strict L then Some (mkReservation false) else None,
        if is_strict L then Some (mkGuard tokens_ cost false) else None).

(** ** Settlement *)

Definition settle_with_clock (L : Limits) (clock : M world string Z) : M ledger string unit :=
  now ← io clock;
  match strict L with
  | None => fail "cannot settle a non-strict budget"
  | Some s =>
      state0 ← gets l_budget;
      _ ← check_strict_state s L state0 now;
      u ← lift (ok_or "strict budget is missing unsettled reservations" (unsettled state0));
      u' ← lift (ok_or "strict reservation was already settled" (checked_sub u 1));
      let budget := set_last_seen (Some now) (set_unsettled (Some u') state0) in
      budget ← persist_budget L budget;
      modify (set_budget budget)
  end.

Definition mark_dispatched (_ : Reservation) : Reservation := mkReservation true.
(** [settle(self)]: the reservation is consumed; its destructor does nothing
    because it is marked dispatched. *)
Definition settle (L : Limits) (r : Reservation) : M ledger string unit :=
  settle_with_clock L unix_seconds.
(** [impl Drop for Reservation]. *)
Definition drop_reservation (L : Limits) (r : Reservation) : M ledger string unit :=
  if dispatched r then mret tt
  else _ ← attempt (E := string) (settle_with_clock L unix_seconds); mret tt.

(** ** Usage guards *)

Definition check_usage_state (L : Limits) (b : BudgetState) (now : Z) : M ledger string unit :=
  pf ← gets persistence_failed;
  _ ← throw_if pf "budget persistence previously failed";
  match strict L with
  | Some s => check_strict_state s L b now
  | None => io (reject_strict_marker (path L))
  end.

Definition exhaust_for_overage (L : Limits) : M ledger string unit :=
  now ← io unix_seconds;
  state0 ← gets l_budget;
  _ ← check_usage_state L state0 now;
  if (tokens state0 =? u64_max) && (cost_microusd state0 =? u64_max) then mret tt
  else
    let budget := set_counters (requests state0) u64_max u64_max state0 in
    let budget := if is_strict L then set_last_seen (Some now) budget else budget in
    budget ← persist_budget L budget;
    modify (set_budget budget).

(** The part of [release_usage] that clears one durable hold. *)
Definition clear_usage (L : Limits) : M ledger string unit :=
  now ← io unix_seconds;
  state0 ← gets l_budget;
  _ ← check_usage_state L state0 now;
  p ← lift (ok_or "" (n ← pending_usage state0; checked_sub n 1));
  let budget := set_pending (if p =? 0 then None else Some p) state0 in
  let budget := if is_strict L then set_last_seen (Some now) budget else budget in
  budget ← persist_budget L budget;
  modify (set_budget budget).

(** Its errors are swallowed ([return]); the active count was already
    decremented. *)
Definition release_usage (L : Limits) (clear : bool) : M ledger string unit :=
  _ ← modify (λ s, set_active (saturating_sub (l_active s) 1) s);
  if negb clear then mret tt
  else _ ← attempt (E := string) (clear_usage L); mret tt.

(** [UsageGuard::observe]: the state also holds the guard's [failed] flag. *)
Definition observe (L : Limits) (tokens_ : Z) (cost : option Z) :
    M (ledger * UsageGuard) string unit :=
  g ← gets snd;
  if (reserved_tokens g <? tokens_)
     || match cost with Some c => reserved_cost g <? c | None => true end
  then
    _ ← modify (λ '(s, g), (set_overage_pending true s, set_failed true g));
    _ ← zoom fst (λ s '(_, g), (s, g)) (exhaust_for_overage L);
    modify (λ '(s, g), (set_overage_pending false s, set_failed false g))
  else mret tt.

(** [impl Drop for UsageGuard]. *)
Definition drop_guard (L : Limits) (g : UsageGuard) : M ledger string unit :=
  release_usage L (negb (failed g)).
End limits.
