(* ===== verification/Ledger.v ===== *)
(** * What the strict ledger promises: abstract specification and refinement

    [bstep] is the abstract ledger: the durable budget and the transitions it may
    take (admit a request, settle one, exhaust the day after an overage, release
    a usage hold, reconcile, record the clock).  The refinement lemmas show that
    every operation of [Limits] takes the durable state through at most one such
    transition under any schedule of I/O failures, and reports success only when
    the transition is durable.  The lifetime of a
    strict broker over these transitions is in [CrashSafety]. *)

From S2P Require Import Prelude RustStr Posix Budget Limits.

Section ledger.
Context `{HC : Crates} `{!CratesLaws}.

(** ** The abstract ledger *)

Inductive action : Type :=
| ACheckpoint (now : Z)
| AAdmit (now t c : Z) (tracked : bool)
| ASettle (now : Z)
| AExhaust (now : Z)
| ARelease (now : Z)
| AReconcile (now : Z).

(** The stored clock is plausible and not ahead of [now]. *)
Definition clock_ok (b : BudgetState) (now : Z) : Prop :=
  ∃ last, last_seen_seconds b = Some last ∧ last ≠ 0 ∧ day b ≤ last / 86400 ∧ last ≤ now.

(** The counters an admission on UTC day [d] starts from: today's, or zero on a
    later day, which must not be entered while anything is held. *)
Inductive opening (b : BudgetState) (d : Z) : BudgetState → Prop :=
| OpenSame : day b = d → opening b d b
| OpenNext : day b ≠ d → pending_usage b = None → unsettled b = Some 0 →
    opening b d (mkBudget d 0 0 0 None (Some 0) None None).

Definition hold (tracked : bool) (p : option Z) : option Z :=
  if tracked then Some (default 0 p + 1) else p.

Inductive bstep (L : Limits) (b : BudgetState) : action → BudgetState → Prop :=
| BCheckpoint now :
    clock_ok b now → bstep L b (ACheckpoint now) (sealed (set_last_seen (Some now) b))
| BAdmit now t c tracked b0 u b' :
    clock_ok b now → opening b (now / 86400) b0 → unsettled b0 = Some u →
    requests b0 + 1 ≤ daily_request_budget L →
    tokens b0 + t ≤ daily_token_budget L →
    cost_microusd b0 + c ≤ daily_cost_microusd L →
    b' = mkBudget (now / 86400) (requests b0 + 1) (tokens b0 + t) (cost_microusd b0 + c)
           (Some now) (Some (u + 1)) (hold tracked (pending_usage b0)) (checksum b0) →
    bstep L b (AAdmit now t c tracked) (sealed b')
| BSettle now u :
    clock_ok b now → unsettled b = Some u → 1 ≤ u →
    bstep L b (ASettle now) (sealed (set_last_seen (Some now) (set_unsettled (Some (u - 1)) b)))
| BExhaust now :
    clock_ok b now →
    bstep L b (AExhaust now)
      (sealed (set_last_seen (Some now) (set_counters (requests b) u64_max u64_max b)))
| BRelease now p :
    clock_ok b now → pending_usage b = Some p → 1 ≤ p →
    bstep L b (ARelease now)
      (sealed (set_last_seen (Some now)
        (set_pending (if p - 1 =? 0 then None else Some (p - 1)) b)))
| BReconcile now :
    clock_ok b now →
    bstep L b (AReconcile now)
      (sealed (set_last_seen (Some now) (set_pending None (set_unsettled (Some 0) b)))).

(** ** The durable state *)

(** The budget file of [p] holds exactly the state [b]. *)
Record disk (p : string) (w : world) (b : BudgetState) : Prop := {
  dk_wf : wf w;
  dk_file : private_file w p (encode_budget b);
  dk_u64 : budget_u64 b;
  dk_clock : Forall u64 (w_clock w);
}.

(** What [read_strict_budget] accepts. *)
Definition accepted (b : BudgetState) : Prop :=
  checksum b = Some (strict_digest b) ∧ is_Some (last_seen_seconds b)
  ∧ is_Some (unsettled b) ∧ budget_inconsistent b = false.

Lemma clock_suffix_u64 w w' : Forall u64 (w_clock w) → (∃ l, w_clock w = l ++ w_clock w') →
  Forall u64 (w_clock w').
Proof. intros Hf [l Hl]. rewrite Hl, Forall_app in Hf. tauto. Qed.

Lemma disk_same p w w' b : disk p w b → same_fs w w' → disk p w' b.
Proof.
  intros [] S. split; [by rewrite <-S | by rewrite <-S | done |].
  eapply clock_suffix_u64; [done|apply S].
Qed.

Lemma private_file_inj w p d d' : private_file w p d → private_file w p d' → d = d'.
Proof. intros (i & n & ? & ? & _ & _ & _ & ?) (i' & n' & ? & ? & _ & _ & _ & ?). congruence. Qed.

Lemma sealed_u64 b : budget_u64 b → budget_u64 (sealed b).
Proof. intros []. split; try done. apply sha256_size. Qed.

Lemma read_disk p w b :
  disk p w b →
  wp (read_strict_budget p) (λ b' w', same_fs w w' ∧ b' = b ∧ accepted b)
     (λ _ w', same_fs w w') w.
Proof.
  intros [_ Hf Hu _]. wp_apply (read_strict_reader p); [|done].
  intros b' w' (S & d & Hd & Hdec & Hacc).
  pose proof (private_file_inj _ _ _ _ Hf Hd) as <-.
  rewrite decode_encode in Hdec by done. simplify_eq. done.
Qed.

(** [atomic_json] on the durable state: old or new, new on success. *)
Lemma atomic_disk p w b b' :
  disk p w b → budget_u64 b' →
  wp (atomic_json p b' true)
    (λ x w', x = sealed b' ∧ disk p w' (sealed b')
             ∧ frame [p; state_sidecar p ".tmp"] w w')
    (λ _ w', (disk p w' b ∨ disk p w' (sealed b'))
             ∧ frame [p; state_sidecar p ".tmp"] w w') w.
Proof.
  intros [Hwf Hf Hu Hc] Hu'. pose proof (sealed_u64 _ Hu') as Hs.
  wp_apply (atomic_json_strict_spec p b' _ w Hwf Hf).
  - intros x w' (-> & Hp & [? ? F]). split_and!; try done. split; try done.
    eapply clock_suffix_u64; [done|apply F].
  - intros e w' [Hwf' Hd F]. split; [|done].
    assert (Forall u64 (w_clock w')) by (eapply clock_suffix_u64; [done|apply F]).
    destruct Hd; [left|right]; by split.
Qed.

(** ** Building blocks of the ledger operations *)

(** Only the operating system moved, and nothing durable changed. *)
Definition quiet (s s' : ledger) : Prop := ∃ w', s' = set_world w' s ∧ same_fs (l_world s) w'.

Lemma quiet_refl s : quiet s s.
Proof. exists (l_world s). split; [by destruct s | reflexivity]. Qed.
Lemma quiet_trans a b c : quiet a b → quiet b c → quiet a c.
Proof. intros (w & -> & S) (w' & -> & S'). exists w'. split; [done|]. by etrans. Qed.
Lemma quiet_disk p s s' b : disk p (l_world s) b → quiet s s' → disk p (l_world s') b.
Proof. intros Hd (w & -> & S). by eapply disk_same. Qed.

Lemma wp_io_reader {A} (m : M world string A) Q s :
  reader m Q →
  wp (io m) (λ a s', quiet s s' ∧ Q (l_world s) a) (λ _ s', quiet s s') s.
Proof.
  intros Hr. apply wp_zoom. eapply wp_mono; [apply Hr| |].
  - intros a w [S HQ]. split; [by exists w | done].
  - intros e w S. by exists w.
Qed.

Lemma check_strict_state_spec ss L b now s db :
  disk (path L) (l_world s) db →
  wp (check_strict_state ss L b now)
    (λ _ s', quiet s s' ∧ b = db ∧ accepted db ∧ clock_ok db now)
    (λ _ s', quiet s s') s.
Proof.
  intros Hd. unfold check_strict_state. wp_step.
  wp_apply (wp_io_reader _ _ _ (verify_reader ss)); [|done].
  intros _ s1 [Q1 _]. wp_step. apply wp_zoom.
  wp_apply (read_disk (path L)); [by eapply quiet_disk| |].
  2: { intros e w S. eapply quiet_trans; [done|]. by exists w. }
  intros b' w (S & -> & Hacc). cbn beta.
  assert (quiet s (set_world w s1)) by (eapply quiet_trans; [done|]; by exists w).
  wp_step. apply wp_throw_if; intros Hne; [done|].
  apply negb_false_iff, bool_decide_eq_true in Hne as ->.
  apply wp_lift; [intros [] Hck|done].
  split_and!; try done. by apply check_strict_clock_Ok.
Qed.

(** The in-memory part of a ledger, without the operating system. *)
Definition mem (s : ledger) := (l_budget s, l_rate s, l_active s, overage_pending s).

Lemma persist_spec L b s db :
  is_strict L = true → disk (path L) (l_world s) db → budget_u64 b →
  wp (persist_budget L b)
    (λ x s', x = sealed b ∧ disk (path L) (l_world s') (sealed b) ∧ mem s' = mem s
             ∧ persistence_failed s' = persistence_failed s)
    (λ _ s', (disk (path L) (l_world s') db ∨ disk (path L) (l_world s') (sealed b))
             ∧ mem s' = mem s ∧ persistence_failed s' = true) s.
Proof.
  intros Hs Hd Hu. unfold persist_budget. rewrite Hs. wp_step; wp_step. apply wp_zoom.
  wp_apply (atomic_disk (path L) _ db b); [done|done| |].
  - intros x w (-> & Hd' & _). by wp_step.
  - intros e w [Hd' _]. by wp_steps.
Qed.

Lemma checkpoint_spec L now s db :
  disk (path L) (l_world s) db → l_budget s = db → clock_ok db now → u64 now →
  wp (checkpoint_state L now)
    (λ _ s', ∃ b', (b' = db ∨ bstep L db (ACheckpoint now) b') ∧ disk (path L) (l_world s') b'
             ∧ l_budget s' = b' ∧ last_seen_seconds b' = Some now)
    (λ _ s', ∃ b', (b' = db ∨ bstep L db (ACheckpoint now) b') ∧ disk (path L) (l_world s') b'
             ∧ l_budget s' = db) s.
Proof.
  intros Hd Hb Hck Hn. unfold checkpoint_state. wp_step; wp_step. wp_step. apply wp_zoom.
  unfold checkpoint_clock. rewrite Hb. destruct (bool_decide_reflect (last_seen_seconds db = Some now)).
  - wp_step. wp_step. exists db. split_and!; auto.
  - assert (budget_u64 (set_last_seen (Some now) db)) as Hu by (destruct Hd as [_ _ [] _]; by split).
    wp_apply (atomic_disk (path L) _ db _ Hd Hu).
    + intros x w (-> & Hd' & _). wp_step. eexists. split_and!; [right; by constructor|done..].
    + intros e w [[Hd'|Hd'] _]; eexists; (split_and!; [|done|done]); [by left | right; by constructor].
Qed.
(** ** The pure parts of an admission *)

Lemma roll_day_opening L b active d b0 :
  is_strict L = true → roll_day L b active d = Ok b0 →
  opening b d b0 ∧ default 0 (pending_usage b) ≤ active.
Proof.
  intros Hs. unfold roll_day. rewrite Hs. simpl.
  destruct (Z.ltb_spec active (default 0 (pending_usage b))); [done|].
  destruct (Z.eqb_spec (day b) d); [intros; simplify_eq; split; [by constructor|done]|].
  unfold opt_is_some. case_bool_decide as Hp; [done|].
  case_bool_decide as Hu; simpl; [|done].
  intros; simplify_eq. split; [|done]. unfold fresh_day. rewrite Hs.
  apply eq_None_not_Some in Hp. by constructor.
Qed.

Lemma opening_day b d b0 : opening b d b0 → day b0 = d.
Proof. by destruct 1. Qed.
Lemma opening_u64 b d b0 : opening b d b0 → budget_u64 b → u64 d → budget_u64 b0.
Proof. destruct 1; [done|]. intros _ Hd. split; simpl; unfold opt_u64_ok, u64, u64_max in *; (done || lia). Qed.

Lemma propose_Some b t c r t' c' :
  propose b t c = Some (r, t', c') ↔
  r = requests b + 1 ∧ t' = tokens b + t ∧ c' = cost_microusd b + c ∧
  r ≤ u64_max ∧ t' ≤ u64_max ∧ c' ≤ u64_max.
Proof.
  unfold propose, mbind, option_bind, checked_add.
  destruct (Z.leb_spec (requests b + 1) u64_max), (Z.leb_spec (tokens b + t) u64_max),
    (Z.leb_spec (cost_microusd b + c) u64_max); 
    (split; [intros [= <- <- <-] || done | intros (-> & -> & -> & ? & ? & ?)]);
    try done; first [lia | split_and!; lia].
Qed.

(** A request is admissible exactly within the rate and the three ceilings. *)
Lemma denial_None L rate b t c :
  denial L rate (propose b t c) = None →
  rate_requests rate < max_requests_per_window L ∧
  ∃ r t' c', propose b t c = Some (r, t', c') ∧ r ≤ daily_request_budget L
             ∧ t' ≤ daily_token_budget L ∧ c' ≤ daily_cost_microusd L.
Proof.
  unfold denial. destruct (Z.leb_spec (max_requests_per_window L) (rate_requests rate)); [done|].
  destruct (propose b t c) as [[[r t'] c']|]; [|done].
  destruct (Z.ltb_spec (daily_request_budget L) r), (Z.ltb_spec (daily_token_budget L) t'),
    (Z.ltb_spec (daily_cost_microusd L) c'); try done. intros _. eauto 10.
Qed.

Lemma charge_track L b0 r t c now tracked active b1 b2 a' :
  is_strict L = true →
  charge L b0 r t c now = Ok b1 → track b1 active tracked = Ok (b2, a') →
  ∃ u, unsettled b0 = Some u ∧ u + 1 ≤ u64_max ∧
    (tracked = true → default 0 (pending_usage b0) + 1 ≤ u64_max) ∧
    b2 = mkBudget (day b0) r t c (Some now) (Some (u + 1)) (hold tracked (pending_usage b0))
           (checksum b0) ∧
    a' = active + (if tracked then 1 else 0).
Proof.
  intros Hs. unfold charge, track, hold, mbind, result_bind, ok_or. rewrite Hs. cbn -[checked_add].
  destruct (unsettled b0) as [u|]; [|done].
  destruct (checked_add u 1) as [u'|] eqn:Eu; [|done].
  apply checked_add_Some in Eu as [Hu ->]. intros [= <-] Htr. exists u. revert Htr.
  destruct tracked; cbn -[checked_add].
  - destruct (checked_add (default 0 (pending_usage b0)) 1) as [p|] eqn:Ep; [|done].
    destruct (checked_add active 1) as [a|] eqn:Ea; [|done].
    apply checked_add_Some in Ep as [? ->], Ea as [? ->]. intros [= <- <-]. split_and!; intros; (done || lia).
  - intros [= <- <-]. split_and!; intros; (done || lia).
Qed.

Lemma hold_u64 tracked p :
  opt_u64_ok p → (tracked = true → default 0 p + 1 ≤ u64_max) → opt_u64_ok (hold tracked p).
Proof.
  unfold hold. destruct tracked; [|done]. intros Hp Hle. specialize (Hle eq_refl).
  unfold opt_u64_ok, u64 in *. destruct p; simpl in *; lia.
Qed.

Lemma admitted_u64 b0 r t c now u p ck d :
  budget_u64 b0 → u64 d → u64 r → u64 t → u64 c → u64 now → u64 u → opt_u64_ok p → ck = checksum b0 →
  budget_u64 (mkBudget d r t c (Some now) (Some u) p ck).
Proof. intros [] ? ? ? ? ? ? ? ->. by split. Qed.

Lemma day_u64 now : u64 now → u64 (now / 86400).
Proof.
  unfold u64, u64_max. intros. split; [apply Z.div_pos; lia|].
  apply Z.div_le_upper_bound; lia.
Qed.

Lemma clock_reader_u64 s :
  Forall u64 (w_clock (l_world s)) →
  wp (io unix_seconds) (λ now s', quiet s s' ∧ u64 now ∧ now = clock_now (l_world s))
    (λ _ s', quiet s s') s.
Proof.
  intros Hc. wp_apply (wp_io_reader _ _ _ reader_unix_seconds); [|done].
  intros now s' [Q ->]. auto using clock_now_u64.
Qed.

(** The durable state is the old one, or one allowed transition later. *)
Definition moved (L : Limits) (db : BudgetState) (acts : action → Prop) (w : world) : Prop :=
  ∃ b', (b' = db ∨ ∃ a, acts a ∧ bstep L db a b') ∧ disk (path L) w b'.

Lemma moved_same L db acts w : disk (path L) w db → moved L db acts w.
Proof. intros. exists db. auto. Qed.
Lemma moved_step L db (acts : action → Prop) a b' w :
  acts a → bstep L db a b' → disk (path L) w b' → moved L db acts w.
Proof. intros. exists b'. eauto. Qed.

(** The transitions of an admission attempt. *)
Definition admits (t c : Z) (tracked : bool) (a : action) : Prop :=
  ∃ now, a = ACheckpoint now ∨ a = AAdmit now t c tracked.

Lemma deny_spec {A} L now reason s db (X : string → ledger → Prop) (Q : A → ledger → Prop) :
  is_strict L = true → disk (path L) (l_world s) db → l_budget s = db → clock_ok db now → u64 now →
  (∀ e s' b', (b' = db ∨ bstep L db (ACheckpoint now) b') → disk (path L) (l_world s') b' → X e s') →
  wp (deny L now reason) Q X s.
Proof.
  intros Hs Hd Hb Hck Hn HX. unfold deny. rewrite Hs. wp_step.
  wp_apply (checkpoint_spec L now s db Hd Hb Hck Hn).
  - intros _ s' (b' & ? & ? & _). wp_step. eauto.
  - intros e s' (b' & ? & ? & _). eauto.
Qed.

(** *** Admission refines the abstract ledger *)
Lemma reserve_spec L ss t c tracked s db :
  strict L = Some ss → disk (path L) (l_world s) db → u64 t → u64 c →
  wp (reserve_with_clock L t c tracked unix_seconds)
    (λ _ s', ∃ b', bstep L db (AAdmit (clock_now (l_world s)) t c tracked) b'
             ∧ disk (path L) (l_world s') b' ∧ l_budget s' = b'
             ∧ default 0 (pending_usage db) ≤ l_active s
             ∧ l_active s' = l_active s + (if tracked then 1 else 0)
             ∧ persistence_failed s = false ∧ overage_pending s = false)
    (λ _ s', moved L db (admits t c tracked) (l_world s')) s.
Proof.
  intros Hss Hd Ht Hc. assert (is_strict L = true) as Hs.
  { unfold is_strict, opt_is_some. rewrite Hss. by apply bool_decide_eq_true. }
  pose proof (λ s', moved_same L db (admits t c tracked) (l_world s')) as HX.
  unfold reserve_with_clock. wp_step; wp_step; wp_step. apply wp_throw_if; intros Hpf; [by apply HX|].
  wp_step; wp_step; wp_step. apply wp_throw_if; intros Hop; [by apply HX|].
  wp_step. wp_apply (clock_reader_u64 s); [apply Hd| |intros e s' Q; by eapply HX, quiet_disk].
  intros now s1 (Q1 & Hn & Hnow). wp_step; wp_step. rewrite Hss. wp_step.
  wp_apply (check_strict_state_spec ss L (l_budget s1) now s1 db);
    [by eapply quiet_disk| |intros e s' Q; by eapply HX, quiet_disk, quiet_trans].
  intros _ s2 (Q2 & Hb & _ & Hck). pose proof (quiet_trans _ _ _ Q1 Q2) as Q.
  pose proof (quiet_disk _ _ _ _ Hd Q) as Hd2.
  destruct Q as (w2 & -> & S2). wp_step; wp_step; wp_step; wp_step. cbn [l_active l_rate set_world].
  assert (l_budget s = db) as Hsb by (by destruct Q1 as (? & -> & _)). rewrite Hb. clear Hb Q1 Q2.
  destruct (roll_day L db (l_active s) (now / 86400)) as [b0|reason] eqn:Hroll.
  2: { eapply (deny_spec L now _ _ db); try done. intros e s' b' [->|] ?; [by apply HX|]. eapply moved_step; [exists now; by left|done..]. }
  destruct (roll_day_opening _ _ _ _ _ Hs Hroll) as [Hopen Hact].
  set (rate := roll_window _ _).
  destruct (denial L rate (propose b0 t c)) as [reason|] eqn:Hden.
  { eapply (deny_spec L now _ _ db); try done. intros e s' b' [->|] ?; [by apply HX|]. eapply moved_step; [exists now; by left|done..]. }
  apply denial_None in Hden as (_ & r & t' & c' & Hprop & Hr & Ht' & Hc'). rewrite Hprop.
  apply propose_Some in Hprop as (-> & -> & -> & ? & ? & ?).
  wp_step. apply wp_lift; intros b1 Hb1; [|by apply HX].
  wp_step. apply wp_lift; [intros [b2 a'] Hb2|intros e _; by apply HX].
  destruct (charge_track _ _ _ _ _ _ _ _ _ _ _ Hs Hb1 Hb2) as (u & Hu & Hule & Hple & -> & ->).
  pose proof (opening_u64 _ _ _ Hopen (dk_u64 _ _ _ Hd) (day_u64 _ Hn)) as Hu0.
  assert (bstep L db (AAdmit now t c tracked) (sealed
    (mkBudget (day b0) (requests b0 + 1) (tokens b0 + t) (cost_microusd b0 + c) (Some now)
       (Some (u + 1)) (hold tracked (pending_usage b0)) (checksum b0)))) as Hstep.
  { rewrite (opening_day _ _ _ Hopen). by eapply BAdmit. }
  wp_step. wp_apply (persist_spec L _ _ db Hs Hd2).
  { pose proof Hu0 as [Hd0 Hr0 Ht0 Hc0 _ Hu64 Hp0 _]. rewrite Hu in Hu64. simpl in Hu64.
    apply (admitted_u64 b0); try done; [..|by apply hold_u64]; unfold u64 in *; lia. }
  - intros x s' (-> & Hd' & Hm & _). wp_step. injection Hm as ? ? Ha ?.
    subst now. eexists. split_and!; try done.
  - intros e s' ([Hd'|Hd'] & _ & _); [by apply HX | by eapply moved_step; [exists now; right|..]].
Qed.
(** *** Settlement, overage and usage holds refine the abstract ledger *)

Lemma settle_spec L s db :
  is_strict L = true → disk (path L) (l_world s) db →
  wp (settle_with_clock L unix_seconds)
    (λ _ s', ∃ now b', bstep L db (ASettle now) b' ∧ disk (path L) (l_world s') b' ∧ l_budget s' = b')
    (λ _ s', moved L db (λ a, ∃ now, a = ASettle now) (l_world s')) s.
Proof.
  intros Hs Hd. unfold settle_with_clock.
  pose proof (λ s', moved_same L db (λ a, ∃ now, a = ASettle now) (l_world s')) as HX.
  wp_step. wp_apply (clock_reader_u64 s); [apply Hd| |intros e s' Q; by eapply HX, quiet_disk].
  intros now s1 (Q1 & Hn & _). pose proof (quiet_disk _ _ _ _ Hd Q1) as Hd1.
  destruct (strict L) as [ss|] eqn:Hss; [|by apply wp_fail, HX].
  wp_step; wp_step. wp_step.
  wp_apply (check_strict_state_spec ss L (l_budget s1) now s1 db Hd1);
    [|intros e s' Q; by eapply HX, quiet_disk].
  intros _ s2 (Q2 & -> & Hacc & Hck). pose proof (quiet_disk _ _ _ _ Hd1 Q2) as Hd2.
  wp_step. apply wp_lift; intros u Hu; [|by apply HX].
  wp_step. apply wp_lift; intros u' Hu'; [|by apply HX].
  unfold ok_or in Hu, Hu'. destruct (unsettled db) as [u0|] eqn:Eu; simplify_eq.
  destruct (checked_sub u 1) as [u1|] eqn:Es; simplify_eq. apply checked_sub_Some in Es as [Hle ->].
  pose proof (BSettle L db now u Hck Eu Hle) as Hstep.
  assert (budget_u64 (set_last_seen (Some now) (set_unsettled (Some (u - 1)) db))) as Hu64.
  { destruct (dk_u64 _ _ _ Hd) as [? ? ? ? ? Hub ? ?]. rewrite Eu in Hub.
    split; simpl in *; unfold u64 in *; try done; lia. }
  wp_step. wp_apply (persist_spec L _ s2 db Hs Hd2 Hu64).
  - intros x s' (-> & Hd' & _). wp_step. eauto.
  - intros e s' ([Hd'|Hd'] & _ & _); [by apply HX | by eapply moved_step; [exists now|..]].
Qed.

Lemma check_usage_spec L b now s db :
  is_strict L = true → disk (path L) (l_world s) db →
  wp (check_usage_state L b now)
    (λ _ s', quiet s s' ∧ b = db ∧ accepted db ∧ clock_ok db now)
    (λ _ s', quiet s s') s.
Proof.
  intros Hs Hd. unfold check_usage_state. wp_step; wp_step. wp_step.
  apply wp_throw_if; intros _; [apply quiet_refl|].
  unfold is_strict, opt_is_some in Hs. destruct (strict L) as [ss|]; [|done].
  by apply check_strict_state_spec.
Qed.

Lemma exhaust_spec L s db :
  is_strict L = true → disk (path L) (l_world s) db →
  wp (exhaust_for_overage L)
    (λ _ s', moved L db (λ a, ∃ now, a = AExhaust now) (l_world s')
             ∧ disk (path L) (l_world s') (l_budget s')
             ∧ tokens (l_budget s') = u64_max ∧ cost_microusd (l_budget s') = u64_max)
    (λ _ s', moved L db (λ a, ∃ now, a = AExhaust now) (l_world s')) s.
Proof.
  intros Hs Hd. unfold exhaust_for_overage.
  pose proof (λ s', moved_same L db (λ a, ∃ now, a = AExhaust now) (l_world s')) as HX.
  wp_step. wp_apply (clock_reader_u64 s); [apply Hd| |intros e s' Q; by eapply HX, quiet_disk].
  intros now s1 (Q1 & Hn & _). pose proof (quiet_disk _ _ _ _ Hd Q1) as Hd1.
  wp_step; wp_step. wp_step. wp_apply (check_usage_spec L (l_budget s1) now s1 db Hs Hd1);
    [|intros e s' Q; by eapply HX, quiet_disk].
  intros _ s2 (Q2 & Hb & Hacc & Hck). pose proof (quiet_disk _ _ _ _ Hd1 Q2) as Hd2.
  assert (l_budget s2 = db) as Hb2 by (by destruct Q2 as (? & -> & _)). rewrite Hb.
  destruct ((tokens db =? u64_max) && (cost_microusd db =? u64_max)) eqn:Em.
  { rewrite andb_true_iff, !Z.eqb_eq in Em. wp_step. rewrite Hb2. split_and!; try tauto. by apply HX. }
  rewrite Hs. assert (budget_u64 (set_last_seen (Some now)
    (set_counters (requests db) u64_max u64_max db))) as Hu64.
  { destruct (dk_u64 _ _ _ Hd). split; simpl; unfold u64, u64_max in *; try done; lia. }
  wp_step. wp_apply (persist_spec L _ s2 db Hs Hd2 Hu64).
  - intros x s' (-> & Hd' & _). wp_step. split_and!; try done.
    eapply moved_step; [by exists now | by constructor | done].
  - intros e s' ([Hd'|Hd'] & _ & _); [by apply HX|].
    eapply moved_step; [by exists now | by constructor | done].
Qed.

Lemma clear_usage_spec L s db :
  is_strict L = true → disk (path L) (l_world s) db →
  let post := (λ s', moved L db (λ a, ∃ now, a = ARelease now) (l_world s')
                     ∧ l_active s' = l_active s) in
  wp (clear_usage L) (λ _ s', post s') (λ _ s', post s') s.
Proof.
  intros Hs Hd post. unfold clear_usage.
  pose proof (λ s', moved_same L db (λ a, ∃ now, a = ARelease now) (l_world s')) as HX.
  wp_step. wp_apply (clock_reader_u64 s); [apply Hd| |].
  2: { intros e s' Q. split; [by eapply HX, quiet_disk|]. by destruct Q as (? & -> & _). }
  intros now s1 (Q1 & Hn & _). pose proof (quiet_disk _ _ _ _ Hd Q1) as Hd1.
  wp_step; wp_step. wp_step. wp_apply (check_usage_spec L (l_budget s1) now s1 db Hs Hd1).
  2: { intros e s' Q. split; [by eapply HX, quiet_disk|].
       by destruct Q1 as (? & -> & _), Q as (? & -> & _). }
  intros _ s2 (Q2 & -> & Hacc & Hck). pose proof (quiet_disk _ _ _ _ Hd1 Q2) as Hd2.
  assert (l_active s2 = l_active s) as Ha by (by destruct Q1 as (? & -> & _), Q2 as (? & -> & _)).
  wp_step. apply wp_lift; intros p Hp; [|by split; [apply HX|]].
  unfold ok_or in Hp. destruct (pending_usage db) as [p0|] eqn:Ep; [|done]. simpl in Hp.
  destruct (checked_sub p0 1) as [p1|] eqn:Es; simplify_eq. apply checked_sub_Some in Es as [Hle ->].
  cbv zeta. rewrite Hs. pose proof (BRelease L db now p0 Hck Ep Hle) as Hstep.
  wp_step. wp_apply (persist_spec L _ s2 db Hs Hd2).
  { destruct (dk_u64 _ _ _ Hd) as [? ? ? ? ? ? Hpb ?]. rewrite Ep in Hpb.
    split; simpl in *; try done. destruct (p0 - 1 =? 0); simpl; [done|]. unfold u64 in *. lia. }
  - intros x s' (-> & Hd' & Hm & _). wp_step. injection Hm as _ _ Ha' _.
    split; [by eapply moved_step; [exists now|..] | simpl; congruence].
  - intros e s' ([Hd'|Hd'] & Hm & _); injection Hm as _ _ Ha' _; (split; [|congruence]);
      [by apply HX | by eapply moved_step; [exists now|..]].
Qed.

Lemma release_spec L clear s db :
  is_strict L = true → disk (path L) (l_world s) db →
  wp (release_usage L clear)
    (λ _ s', moved L db (λ a, ∃ now, a = ARelease now) (l_world s')
             ∧ l_active s' = saturating_sub (l_active s) 1)
    (λ _ s', False) s.
Proof.
  intros Hs Hd. unfold release_usage. wp_step; wp_step. destruct clear; simpl.
  - wp_step; wp_step. wp_apply (clear_usage_spec L (set_active _ s) db Hs Hd);
      intros x s' [? ?]; by wp_step.
  - wp_step. split; [|done]. by apply moved_same.
Qed.
End ledger.
