(* ===== verification/CrashSafety.v ===== *)
(** * A strict broker over its lifetime: restarts, crashes, reconciliation

    [run] is the reachable-states relation of one strict budget file: the broker
    is stopped or running; while it runs, requests reserve, settle, observe usage
    and release holds in any order and under any schedule of I/O failures and
    clock readings; it may stop or crash at any point (a crash inside an
    operation is a failed call followed by a stop) and be started again; an
    operator may reconcile it while it is stopped.  The history of a run is the
    list of admissions that were reported to a request. *)

From S2P Require Import Prelude RustStr Posix Budget Limits Ledger.

Section lifetime.
Context `{HC : Crates} `{!CratesLaws}.

(** ** Starting and reconciling *)

Lemma disk_locks p w b f : disk p w b → disk p (set_locks f w) b.
Proof. intros []. by split. Qed.

Lemma verify_disk ss p w b :
  disk p w b → wp (verify_owner_and_marker ss) (λ _ w', disk p w' b) (λ _ w', disk p w' b) w.
Proof.
  intros Hd. wp_apply (verify_reader ss w).
  - intros _ w' [S _]. by eapply disk_same.
  - intros e w' S. by eapply disk_same.
Qed.

Lemma acquire_disk p q w b :
  disk q w b → wp (acquire p) (λ _ w', disk q w' b) (λ _ w', disk q w' b) w.
Proof.
  intros Hd. unfold acquire. wp_step.
  wp_apply (open_private_reader (state_sidecar p ".lock") w).
  2: { intros e w' S. by eapply disk_same. }
  intros f w1 [S1 _]. pose proof (disk_same _ _ _ _ Hd S1) as Hd1.
  wp_step. unfold lock_owner. wp_step. apply wp_simple; intros fs.
  { eapply disk_same; [done|apply same_fs_faults]. }
  assert (disk q (set_faults fs w1) b) as Hd2 by (eapply disk_same; [done|apply same_fs_faults]).
  apply run_wp. destruct (existsb _ _); [done|].
  wp_step; wp_step.
  wp_apply (verify_disk _ q _ b); [by apply disk_locks| |].
  - intros [] w3 Hd3. by wp_step.
  - intros e w3 Hd3. wp_step; wp_step. wp_step. by apply disk_locks.
Qed.

Lemma reconcile_spec L now w db :
  disk (path L) w db → u64 now →
  let post := moved L db (λ a, a = AReconcile now) in
  wp (reconcile_strict_at (path L) now) (λ _ w', post w') (λ _ w', post w') w.
Proof.
  intros Hd Hn post. unfold reconcile_strict_at. wp_step.
  wp_apply (acquire_disk (path L) _ _ _ Hd); [|intros; by apply moved_same].
  intros ss w1 Hd1.
  assert (∀ w', post w' → post (close (owner ss) w')) as Hcl.
  { intros w' (b' & Hb' & Hd'). exists b'. split; [done|]. by apply disk_locks. }
  apply wp_closing.
  wp_step. wp_apply (read_disk _ _ _ Hd1).
  2: { intros e w' S. apply Hcl, moved_same. by eapply (disk_same _ w1). }
  intros b w2 (S2 & -> & Hacc). pose proof (disk_same _ _ _ _ Hd1 S2) as Hd2.
  wp_step. apply wp_lift; [intros [] Hck|intros; by apply Hcl, moved_same].
  apply check_strict_clock_Ok in Hck. cbv zeta. wp_step.
  wp_apply (atomic_disk (path L) w2 db _ Hd2).
  - destruct (dk_u64 _ _ _ Hd). by split.
  - intros x w3 (-> & Hd3 & _). wp_step. eapply Hcl, moved_step; [done|by constructor|done].
  - intros e w3 [[Hd3|Hd3] _]; apply Hcl; [by apply moved_same|].
    eapply moved_step; [done|by constructor|done].
Qed.

(** The configuration a broker process is started with. *)
Record settings : Type := mkSettings {
  s_path : string; s_window : Z; s_rate_max : Z;
  s_requests : Z; s_tokens : Z; s_cost : Z;
}.
Definition start (c : settings) (now : Z) : M world string (Limits * ledger) :=
  load_at (s_path c) (s_window c) (s_rate_max c) (s_requests c) (s_tokens c) (s_cost c) (Some now).
(** [L] is a strict [Limits] built from the settings [c]. *)
Record from_settings (c : settings) (L : Limits) : Prop := {
  fs_path : path L = s_path c;
  fs_requests : daily_request_budget L = s_requests c;
  fs_tokens : daily_token_budget L = s_tokens c;
  fs_cost : daily_cost_microusd L = s_cost c;
  fs_strict : is_strict L = true;
}.

Definition template (c : settings) : Limits :=
  mkLimits (s_path c) (s_window c) (s_rate_max c) (s_requests c) (s_tokens c) (s_cost c) None None.

Lemma start_spec c now w db :
  disk (s_path c) w db → u64 now →
  let post := moved (template c) db (λ a, a = ACheckpoint now) in
  wp (start c now)
    (λ Ls w', from_settings c (fst Ls) ∧ l_world (snd Ls) = w' ∧ post w' ∧ l_active (snd Ls) = 0
              ∧ disk (s_path c) w' (l_budget (snd Ls)))
    (λ _ w', post w') w.
Proof.
  intros Hd Hn post. unfold start, load_at, load_owner, owner_fd. wp_step; wp_step.
  wp_apply (acquire_disk (s_path c) _ _ _ Hd); [|intros; by apply moved_same].
  intros ss w1 Hd1. wp_step. wp_step; wp_step. unfold load_budget.
  wp_step. wp_apply (read_disk _ _ _ Hd1).
  2: { intros e w' S. wp_go. apply moved_same, disk_locks. by eapply (disk_same _ w1). }
  intros b w2 (S2 & -> & Hacc). pose proof (disk_same _ _ _ _ Hd1 S2) as Hd2.
  wp_step. apply wp_lift; [intros [] Hck|].
  2: { intros e _. wp_go. by apply moved_same, disk_locks. }
  apply check_strict_clock_Ok in Hck. unfold checkpoint_clock. case_bool_decide.
  { wp_go. split_and!; try done. by apply moved_same. }
  assert (budget_u64 (set_last_seen (Some now) db)) as Hu.
  { destruct (dk_u64 _ _ _ Hd). by split. }
  wp_apply (atomic_disk (s_path c) w2 db _ Hd2 Hu).
  - intros x w3 (-> & Hd3 & _). wp_go. split_and!; try done.
    eapply moved_step; [done|by constructor|done].
  - intros e w3 [[Hd3|Hd3] _]; wp_go; [by apply moved_same, disk_locks|].
    eapply moved_step; [done|by constructor|by apply disk_locks].
Qed.

(** ** Observing usage *)

Lemma observe_spec L t c s g db :
  is_strict L = true → disk (path L) (l_world s) db →
  let post := (λ sg, moved L db (λ a, ∃ now, a = AExhaust now) (l_world (fst sg))) in
  wp (observe L t c) (λ _ sg, post sg) (λ _ sg, post sg) (s, g).
Proof.
  intros Hs Hd post. unfold observe. wp_step; wp_step.
  destruct (_ || _); [|wp_step; by apply moved_same].
  wp_step; wp_step. wp_step; wp_step.
  wp_apply (exhaust_spec L (set_overage_pending true s) db Hs Hd).
  - intros _ s' [Hm _]. by wp_step.
  - intros e s' Hm. done.
Qed.
(** ** Runs *)

(** The stored clock can be continued by a later reading. *)
Definition clock_sane (b : BudgetState) : Prop :=
  ∃ last, last_seen_seconds b = Some last ∧ last ≠ 0 ∧ day b ≤ last / 86400.

(** An admission reported to a request: the clock reading it was made at, the
    reserved tokens and cost. *)
Record admission : Type := mkAdmission { a_now : Z; a_tokens : Z; a_cost : Z }.

(** A running broker owns its unconsumed reservations and live usage guards:
    both are move-only capabilities, so each is consumed at most once. *)
Inductive proc : Type :=
| Stopped (w : world)
| Running (L : Limits) (s : ledger) (rs : list Reservation) (gs : list UsageGuard).
Definition proc_world (pr : proc) : world :=
  match pr with Stopped w => w | Running _ s _ _ => l_world s end.

(** The environment decides which calls fail next and what the clock reads. *)
Definition retime (fs : list (option nat)) (cl : list Z) (w : world) : world :=
  set_clock cl (set_faults fs w).
Definition retime_proc fs cl (pr : proc) : proc :=
  match pr with
  | Stopped w => Stopped (retime fs cl w)
  | Running L s rs gs => Running L (set_world (retime fs cl (l_world s)) s) rs gs
  end.
(** The owner's lock goes with the process. *)
Definition exit_world (L : Limits) (w : world) : world :=
  match owner_fd (strict L, legacy_owner L) with Some f => close f w | None => w end.

Inductive run (c : settings) : list admission → proc → Prop :=
| RunInit w b :
    disk (s_path c) w b → accepted b → clock_sane b → run c [] (Stopped w)
| RunEnv h pr fs cl : run c h pr → Forall u64 cl → run c h (retime_proc fs cl pr)
| RunStart h w now L s w' :
    run c h (Stopped w) → u64 now → start c now w = (Ok (L, s), w') → run c h (Running L s [] [])
| RunStartFails h w now e w' :
    run c h (Stopped w) → u64 now → start c now w = (Err e, w') → run c h (Stopped w')
| RunReconcile h w now r w' :
    run c h (Stopped w) → u64 now → reconcile_strict_at (s_path c) now w = (r, w') →
    run c h (Stopped w')
| RunStop h L s rs gs :
    run c h (Running L s rs gs) → run c h (Stopped (exit_world L (l_world s)))
| RunAdmit h L s rs gs t cost res g s' :
    run c h (Running L s rs gs) → 1 ≤ t ≤ u64_max → 1 ≤ cost ≤ u64_max →
    reserve_llm L t cost s = (Ok (Some res, Some g), s') →
    run c (mkAdmission (clock_now (l_world s)) t cost :: h) (Running L s' (res :: rs) (g :: gs))
| RunDeny h L s rs gs t cost e s' :
    run c h (Running L s rs gs) → 1 ≤ t ≤ u64_max → 1 ≤ cost ≤ u64_max →
    reserve_llm L t cost s = (Err e, s') → run c h (Running L s' rs gs)
| RunDispatch h L s rs1 res rs2 gs :
    run c h (Running L s (rs1 ++ res :: rs2) gs) →
    run c h (Running L s (rs1 ++ mark_dispatched res :: rs2) gs)
| RunSettle h L s rs1 res rs2 gs r s' :
    run c h (Running L s (rs1 ++ res :: rs2) gs) → settle L res s = (r, s') →
    run c h (Running L s' (rs1 ++ rs2) gs)
| RunDropReservation h L s rs1 res rs2 gs r s' :
    run c h (Running L s (rs1 ++ res :: rs2) gs) → drop_reservation L res s = (r, s') →
    run c h (Running L s' (rs1 ++ rs2) gs)
| RunObserve h L s rs gs1 g gs2 t cost r s' g' :
    run c h (Running L s rs (gs1 ++ g :: gs2)) → observe L t cost (s, g) = (r, (s', g')) →
    run c h (Running L s' rs (gs1 ++ g' :: gs2))
| RunDropGuard h L s rs gs1 g gs2 r s' :
    run c h (Running L s rs (gs1 ++ g :: gs2)) → drop_guard L g s = (r, s') →
    run c h (Running L s' rs (gs1 ++ gs2)).

(** What the admissions of one UTC day add up to. *)
Fixpoint total (f : admission → Z) (d : Z) (h : list admission) : Z :=
  match h with
  | [] => 0
  | a :: h => (if a_now a / 86400 =? d then f a else 0) + total f d h
  end.

(** The history is within the ceilings on every day, and the durable counters
    cover the admissions of the ledger's day; no later day has any. *)
Definition covers (c : settings) (h : list admission) (b : BudgetState) (f : admission → Z)
    (counter : BudgetState → Z) (ceiling : settings → Z) : Prop :=
  ∀ d, (day b < d → total f d h = 0) ∧ (d = day b → total f d h ≤ counter b)
       ∧ total f d h ≤ ceiling c.
Record covered (c : settings) (h : list admission) (b : BudgetState) : Prop := {
  cv_requests : covers c h b (λ _, 1) requests s_requests;
  cv_tokens : covers c h b a_tokens tokens s_tokens;
  cv_cost : covers c h b a_cost cost_microusd s_cost;
}.

Lemma opening_covers c h b d b0 f counter ceiling :
  covers c h b f counter ceiling → opening b d b0 → day b ≤ d →
  (∀ d', counter (mkBudget d' 0 0 0 None (Some 0) None None) = 0) →
  covers c h b0 f counter ceiling.
Proof.
  intros Hc Ho Hd H0. destruct Ho as [|Hne _ _]; [done|].
  intros d'. destruct (Hc d') as (H1 & _ & H3). simpl. split_and!; [|intros ->|done].
  - intros ?. apply H1. lia.
  - rewrite H0, H1; lia.
Qed.

Lemma raise_covers c h b b' f counter ceiling :
  covers c h b f counter ceiling → day b' = day b → counter b ≤ counter b' →
  covers c h b' f counter ceiling.
Proof.
  intros Hc Hd Hle d. destruct (Hc d) as (H1 & H2 & H3). rewrite Hd. split_and!; auto.
  intros Hdd. specialize (H2 Hdd). lia.
Qed.

Lemma admit_covers c h b b' f counter ceiling a :
  covers c h b f counter ceiling → day b' = day b → a_now a / 86400 = day b' →
  counter b' = counter b + f a → counter b' ≤ ceiling c →
  covers c (a :: h) b' f counter ceiling.
Proof.
  intros Hc Hd Ha Hf Hle d. destruct (Hc d) as (H1 & H2 & H3). simpl.
  destruct (Z.eqb_spec (a_now a / 86400) d); split_and!; intros; simpl; try lia.
Qed.
(** A transition that is not an admission keeps the day and lowers nothing; an
    admission charges exactly its request. *)
Lemma bstep_covered c L h b act b' :
  covered c h b → budget_u64 b → bstep L b act b' →
  (∀ now t k tr, act = AAdmit now t k tr → 0 ≤ t ∧ 0 ≤ k) → covered c h b'.
Proof.
  intros [Hr Ht Hk] Hu Hstep Hpos.
  destruct Hstep as [| now t k tr b0 u b' Hck Ho _ _ _ _ -> | | | |];
    try by split; (eapply raise_covers; [eassumption|done|simpl; lia]).
  - destruct (Hpos _ _ _ _ eq_refl). destruct Hck as (last & _ & _ & ? & ?).
    assert (day b ≤ now / 86400).
    { etrans; [done|]. apply Z.div_le_mono; lia. }
    pose proof (opening_day _ _ _ Ho) as Hd0.
    split; (eapply raise_covers; [eapply opening_covers; [eassumption|done|done|done]|done|simpl; lia]).
  - destruct Hu. unfold u64 in *.
    split; (eapply raise_covers; [eassumption|done|simpl; lia]).
Qed.

Lemma bstep_admitted c L h b now t k tr b' :
  from_settings c L → covered c h b → bstep L b (AAdmit now t k tr) b' →
  covered c (mkAdmission now t k :: h) b'.
Proof.
  intros [_ Hfr Hft Hfc _] [Hr Ht Hk] Hstep. inversion Hstep as [|? ? ? ? b0 u b1 Hck Ho _ ? ? ? Hb1| | | |]; subst.
  destruct Hck as (last & _ & _ & ? & ?).
  assert (day b ≤ now / 86400) as Hle by (etrans; [done|]; apply Z.div_le_mono; lia).
  pose proof (opening_day _ _ _ Ho) as Hd0.
  split; (eapply admit_covers; [eapply opening_covers; [eassumption|done|done|done]|..]); simpl; congruence || lia.
Qed.

(** *** The holds of a process are covered by the durable holds *)

(** At least [ng] usage holds and [nr] unsettled reservations are durable. *)
Definition held (nr ng : nat) (b : BudgetState) : Prop :=
  Z.of_nat nr ≤ default 0 (unsettled b) ∧ Z.of_nat ng ≤ default 0 (pending_usage b).

(** What the ledger's own validation demands of a durable state. *)
Definition valid (b : BudgetState) : Prop := accepted b ∧ clock_sane b.

Lemma inconsistent_false b :
  budget_inconsistent b = false ↔
  (requests b = 0 → tokens b = 0 ∧ cost_microusd b = 0) ∧
  (requests b ≠ 0 → tokens b ≠ 0 ∧ cost_microusd b ≠ 0) ∧
  (∀ n, unsettled b = Some n → n ≤ requests b) ∧
  (∀ n, pending_usage b = Some n → n ≠ 0 ∧ n ≤ requests b).
Proof.
  unfold budget_inconsistent. rewrite !orb_false_iff, !andb_false_iff, !orb_false_iff, !negb_false_iff,
    !Z.eqb_eq, !Z.eqb_neq.
  destruct (unsettled b) as [u|], (pending_usage b) as [p|];
    rewrite ?orb_false_iff, ?Z.eqb_neq, ?Z.ltb_ge; split; intros; destruct_and?; split_and!; intros;
    simplify_eq; try done; try lia; try naive_solver lia.
Qed.
(** Transitions the broker's callers allow: positive charges, and exhaustion
    only on behalf of an admitted request. *)
Definition allowed (b : BudgetState) (a : action) : Prop :=
  match a with
  | AAdmit _ t k _ => 1 ≤ t ∧ 1 ≤ k
  | AExhaust _ => 1 ≤ requests b
  | _ => True
  end.

Lemma clock_ok_le b now : budget_u64 b → clock_ok b now → 1 ≤ now ∧ day b ≤ now / 86400.
Proof.
  intros Hu (last & Hl & ? & Hd & ?).
  assert (last / 86400 ≤ now / 86400) by (apply Z.div_le_mono; lia).
  pose proof (bu_last _ Hu) as Hb. rewrite Hl in Hb. simpl in Hb. unfold u64 in Hb. lia.
Qed.

Lemma bstep_valid L b a b' :
  valid b → budget_u64 b → bstep L b a b' → allowed b a → valid b'.
Proof.
  intros [(Hck & Hls & Hus & Hin) _] Hu Hstep Hal. rewrite inconsistent_false in Hin.
  destruct Hin as (H1 & H2 & H3 & H4).
  assert (∀ x, is_Some (unsettled x) → is_Some (last_seen_seconds x) → budget_inconsistent x = false →
    clock_sane x → valid (sealed x)) as Hv by done.
  destruct Hstep as [now Hc | now t k tr b0 u b' Hc Ho Hu0 _ _ _ -> | now u Hc Eu Hle
    | now Hc | now p Hc Ep Hle | now Hc];
    (apply Hv; [done || by eexists | by eexists | apply inconsistent_false; simpl in *
      | eexists; split; [done|]; simpl; pose proof (clock_ok_le _ _ Hu Hc); try rewrite (opening_day _ _ _ Ho); lia]).
  - done.
  - assert (0 ≤ requests b0 ∧ 0 ≤ tokens b0 ∧ 0 ≤ cost_microusd b0 ∧ u ≤ requests b0
      ∧ ∀ n, pending_usage b0 = Some n → 0 < n ∧ n ≤ requests b0) as (? & ? & ? & ? & Hp).
    { destruct Ho; simpl in *; [|simplify_eq; split_and!; (lia || done)].
      destruct Hu as [_ ? ? ? _ _ Hpu _]. unfold u64 in *. split_and!; try lia; eauto.
      intros n Hn. rewrite Hn in Hpu. destruct (H4 n Hn). simpl in Hpu. unfold u64 in Hpu. lia. }
    split_and!; intros; simplify_eq; try lia;
      (unfold hold in *; destruct tr; [|by destruct (Hp n ltac:(done)); lia]);
      destruct (pending_usage b0) as [p|]; simpl in *; simplify_eq; try destruct (Hp p eq_refl); lia.
  - split_and!; auto. intros; simplify_eq. specialize (H3 _ Eu). lia.
  - unfold u64_max. split_and!; auto; lia.
  - split_and!; auto. intros n. destruct (Z.eqb_spec (p - 1) 0); intros; simplify_eq.
    destruct (H4 _ Ep). lia.
  - destruct Hu. unfold u64 in *. split_and!; auto; [|done]. intros; simplify_eq. lia.
Qed.

(** What is left of [nr] reservations and [ng] guards after a transition. *)
Definition after_r (a : action) (nr : nat) : nat :=
  match a with ASettle _ => pred nr | AReconcile _ => 0 | _ => nr end.
Definition after_g (a : action) (ng : nat) : nat :=
  match a with ARelease _ => pred ng | AReconcile _ => 0 | _ => ng end.

Lemma bstep_held L b a b' nr ng :
  budget_u64 b → held nr ng b → bstep L b a b' → held (after_r a nr) (after_g a ng) b'.
Proof.
  intros Hu [Hr Hg] Hstep. unfold held, after_r, after_g.
  destruct Hstep as [ | now t k tr b0 u b' Hc Ho Hu0 _ _ _ -> | now u Hc Eu Hle
    | now Hc | now p Hc Ep Hle | now Hc]; simpl; try done.
  - destruct Ho as [|? Hp Hun]; simpl in *.
    + rewrite Hu0 in Hr. simpl in Hr. unfold hold. destruct tr; simpl; lia.
    + rewrite Hp in Hg. rewrite Hun in Hr. simpl in *. simplify_eq. unfold hold. destruct tr; simpl; lia.
  - rewrite Eu in Hr. simpl in Hr. lia.
  - rewrite Ep in Hg. simpl in Hg. destruct (Z.eqb_spec (p - 1) 0); simpl; lia.
Qed.

Lemma bstep_held_admitted L b now t k b' nr ng :
  held nr ng b → bstep L b (AAdmit now t k true) b' → held (S nr) (S ng) b'.
Proof.
  intros [Hr Hg] Hstep. unfold held.
  inversion Hstep as [ | ? ? ? ? b0 u b1 Hc Ho Hu0 _ _ _ Hb1 | | | | ]; subst; simpl.
  destruct Ho as [|? Hp Hun]; simpl in *.
  - rewrite Hu0 in Hr. simpl in Hr. lia.
  - rewrite Hp in Hg. rewrite Hun in Hr. simpl in *. simplify_eq. lia.
Qed.

(** ** Every run is safe *)

(** The durable state covers the history, passes validation and backs every
    capability the process owns. *)
Definition secured (c : settings) (h : list admission) (nr ng : nat) (w : world) : Prop :=
  ∃ b, disk (s_path c) w b ∧ covered c h b ∧ valid b ∧ held nr ng b.
Definition safe (c : settings) (h : list admission) (pr : proc) : Prop :=
  match pr with
  | Stopped w => secured c h 0 0 w
  | Running L s rs gs => secured c h (length rs) (length gs) (l_world s) ∧ from_settings c L
  end.

Lemma held_mono nr ng nr' ng' b : held nr ng b → (nr' ≤ nr)%nat → (ng' ≤ ng)%nat → held nr' ng' b.
Proof. unfold held. lia. Qed.

Lemma moved_secured c L h db acts nr ng nr' ng' w :
  path L = s_path c → budget_u64 db → covered c h db → valid db → held nr ng db →
  (nr' ≤ nr)%nat → (ng' ≤ ng)%nat →
  (∀ a, acts a → allowed db a ∧ (nr' ≤ after_r a nr)%nat ∧ (ng' ≤ after_g a ng)%nat) →
  moved L db acts w → secured c h nr' ng' w.
Proof.
  intros Hp Hu Hc Hv Hh Hnr Hng Hacts (b' & Hb & Hd). rewrite Hp in Hd. exists b'.
  destruct Hb as [->|(a & Ha & Hs)]; [by eauto using held_mono|].
  destruct (Hacts _ Ha) as (Hal & ? & ?). split_and!; try done.
  - eapply bstep_covered; eauto. intros now t k tr ->. simpl in Hal. lia.
  - by eapply bstep_valid.
  - eapply held_mono; [by eapply bstep_held|done|done].
Qed.

Lemma running_moved c h L s rs gs s' rs' gs' acts :
  safe c h (Running L s rs gs) →
  (∀ db, is_strict L = true → disk (path L) (l_world s) db → moved L db acts (l_world s')) →
  (length rs' ≤ length rs)%nat → (length gs' ≤ length gs)%nat →
  (∀ a db, acts a → valid db → held (length rs) (length gs) db →
     allowed db a ∧ (length rs' ≤ after_r a (length rs))%nat
     ∧ (length gs' ≤ after_g a (length gs))%nat) →
  safe c h (Running L s' rs' gs').
Proof.
  intros [(b & Hd & Hc & Hv & Hh) Hf] Hm Hr Hg Ha. split; [|done].
  pose proof Hf as [Hp _ _ _ Hs]. rewrite <-Hp in Hd.
  eapply moved_secured; [done|apply Hd|done..| |by apply Hm]. eauto.
Qed.

Lemma stopped_moved c h w w' acts :
  safe c h (Stopped w) →
  (∀ db, disk (s_path c) w db → moved (template c) db acts w') →
  (∀ a db, acts a → allowed db a) → secured c h 0 0 w'.
Proof.
  intros (b & Hd & Hc & Hv & Hh) Hm Ha.
  eapply (moved_secured c (template c)); [done|apply Hd|done..| |by apply Hm].
  intros a ?. split_and!; [eauto|lia..].
Qed.

(** Forget which outcome an operation had. *)
Lemma both_run {S E A} (m : M S E A) (P : S → Prop) s r s' :
  wp m (λ _, P) (λ _, P) s → m s = (r, s') → P s'.
Proof. intros Hw Hr. pose proof (wp_run _ _ _ _ _ _ Hw Hr). by destruct r. Qed.

Lemma reserve_llm_spec L t k s db :
  is_strict L = true → disk (path L) (l_world s) db → u64 t → u64 k →
  wp (reserve_llm L t k)
    (λ x s', x = (Some (mkReservation false), Some (mkGuard t k false)) ∧
       ∃ b', bstep L db (AAdmit (clock_now (l_world s)) t k true) b'
             ∧ disk (path L) (l_world s') b' ∧ l_budget s' = b'
             ∧ default 0 (pending_usage db) ≤ l_active s
             ∧ l_active s' = l_active s + 1
             ∧ persistence_failed s = false ∧ overage_pending s = false)
    (λ _ s', moved L db (admits t k true) (l_world s')) s.
Proof.
  intros Hs Hd Ht Hk. unfold reserve_llm. rewrite Hs. wp_step.
  pose proof Hs as Hss. unfold is_strict, opt_is_some in Hss.
  destruct (strict L) as [ss|] eqn:E; [|done].
  wp_apply (reserve_spec L ss t k true s db E Hd Ht Hk); [|done].
  intros [] s' Hpost. by wp_step.
Qed.

Lemma settle_moved L s db :
  is_strict L = true → disk (path L) (l_world s) db →
  let post := (λ s', moved L db (λ a, ∃ now, a = ASettle now) (l_world s')) in
  wp (settle_with_clock L unix_seconds) (λ _, post) (λ _, post) s.
Proof.
  intros Hs Hd post. wp_apply (settle_spec L s db Hs Hd); [|done].
  intros _ s' (now & b' & Hb' & Hd' & _). eapply moved_step; eauto.
Qed.

Lemma drop_reservation_moved L res s db :
  is_strict L = true → disk (path L) (l_world s) db →
  let post := (λ s', moved L db (λ a, ∃ now, a = ASettle now) (l_world s')) in
  wp (drop_reservation L res) (λ _, post) (λ _, post) s.
Proof.
  intros Hs Hd post. unfold drop_reservation. destruct (dispatched res).
  - wp_step. by apply moved_same.
  - wp_step; wp_step. wp_apply (settle_moved L s db Hs Hd); intros; by wp_step.
Qed.

Lemma drop_guard_moved L g s db :
  is_strict L = true → disk (path L) (l_world s) db →
  let post := (λ s', moved L db (λ a, ∃ now, a = ARelease now) (l_world s')) in
  wp (drop_guard L g) (λ _, post) (λ _, post) s.
Proof.
  intros Hs Hd post. wp_apply (release_spec L _ s db Hs Hd); [by intros ? ? [? _]|done].
Qed.

Lemma admit_safe c h L s rs gs t k res g s' :
  safe c h (Running L s rs gs) → 1 ≤ t ≤ u64_max → 1 ≤ k ≤ u64_max →
  reserve_llm L t k s = (Ok (Some res, Some g), s') →
  safe c (mkAdmission (clock_now (l_world s)) t k :: h) (Running L s' (res :: rs) (g :: gs)).
Proof.
  intros [(b & Hd & Hc & Hv & Hh) Hf] Ht Hk Hres. pose proof Hf as [Hp _ _ _ Hs].
  rewrite <-Hp in Hd.
  assert (u64 t ∧ u64 k) as [Ht' Hk'] by (unfold u64; lia).
  pose proof (wp_run _ _ _ _ _ _ (reserve_llm_spec L t k s b Hs Hd Ht' Hk') Hres)
    as (_ & b' & Hb' & Hd' & _).
  split; [|done]. exists b'. rewrite <-Hp. split_and!; [done|by eapply bstep_admitted|..].
  - eapply bstep_valid; [done|apply Hd|done|]. simpl. lia.
  - by eapply bstep_held_admitted.
Qed.

Lemma init_safe c w b :
  0 ≤ s_requests c → 0 ≤ s_tokens c → 0 ≤ s_cost c →
  disk (s_path c) w b → accepted b → clock_sane b → safe c [] (Stopped w).
Proof.
  intros ? ? ? Hd. exists b. split_and!; try done.
  - by split; intros d; simpl; split_and!; try done; intros _; apply Hd.
  - destruct (dk_u64 _ _ _ Hd) as [_ _ _ _ _ Hu Hp _]. unfold held, opt_u64_ok, u64 in *.
    destruct (unsettled b), (pending_usage b); simpl; lia.
Qed.

Lemma env_safe c h pr fs cl : Forall u64 cl → safe c h pr → safe c h (retime_proc fs cl pr).
Proof.
  intros Hcl. destruct pr; simpl.
  - intros (b & [] & ?). exists b. by split; [split|].
  - intros [(b & [] & ?) Hf]. split; [|done]. exists b. by split; [split|].
Qed.

Lemma exit_safe c h L s rs gs : safe c h (Running L s rs gs) → safe c h (Stopped (exit_world L (l_world s))).
Proof.
  intros [(b & Hd & Hc & Hv & Hh) _]. exists b. split_and!; try done.
  - unfold exit_world. destruct (owner_fd _); [by apply disk_locks|done].
  - eapply held_mono; [done|lia..].
Qed.

Lemma start_safe c h w now r w' :
  safe c h (Stopped w) → u64 now → start c now w = (r, w') →
  match r with
  | Ok (L, s) => safe c h (Running L s [] [])
  | Err _ => safe c h (Stopped w')
  end.
Proof.
  intros Hsafe Hn Hst.
  assert (secured c h 0 0 w') as Hsec.
  { eapply (stopped_moved c h w _ (λ a, a = ACheckpoint now)); [done| |by intros a db ->].
    intros db Hd. pose proof (wp_run _ _ _ _ _ _ (start_spec c now w db Hd Hn) Hst) as Hpost.
    destruct r as [[L s]|e]; [apply Hpost|done]. }
  destruct r as [[L s]|e]; [|done]. destruct Hsafe as (db & Hd & _).
  destruct (wp_run _ _ _ _ _ _ (start_spec c now w db Hd Hn) Hst) as (Hf & Hw & _).
  simpl in Hw. subst w'. by split.
Qed.

Lemma requests_of_hold nr ng b : valid b → held nr ng b → (1 ≤ ng)%nat → 1 ≤ requests b.
Proof.
  intros [(_ & _ & _ & Hin) _] [_ Hg] Hle. apply inconsistent_false in Hin as (_ & _ & _ & H4).
  destruct (pending_usage b) as [p|]; simpl in Hg; [|lia]. destruct (H4 _ eq_refl). lia.
Qed.

Lemma run_safe c h pr :
  0 ≤ s_requests c → 0 ≤ s_tokens c → 0 ≤ s_cost c → run c h pr → safe c h pr.
Proof.
  intros Hr Ht Hk. induction 1 as
    [w b Hd | h pr fs cl _ IH Hcl | h w now L s w' _ IH Hn Hst | h w now e w' _ IH Hn Hst
    | h w now r w' _ IH Hn Hrec | h L s rs gs _ IH | h L s rs gs t k res g s' _ IH Hut Huk Hres
    | h L s rs gs t k e s' _ IH Hut Huk Hres | h L s rs1 res rs2 gs _ IH
    | h L s rs1 res rs2 gs r s' _ IH Hop | h L s rs1 res rs2 gs r s' _ IH Hop
    | h L s rs gs1 g gs2 t k r s' g' _ IH Hop | h L s rs gs1 g gs2 r s' _ IH Hop];
    rewrite ?length_app, ?length_cons in *.
  - by eapply init_safe.
  - by apply env_safe.
  - by apply (start_safe c h w now (Ok (L, s)) w').
  - by apply (start_safe c h w now (Err e) w').
  - eapply (stopped_moved c h w _ (λ a, a = AReconcile now)); [done| |by intros a db ->].
    intros db Hd. exact (both_run _ _ _ _ _ (reconcile_spec (template c) now w db Hd Hn) Hrec).
  - by eapply exit_safe.
  - by eapply admit_safe.
  - assert (u64 t ∧ u64 k) as [Ht' Hk'] by (unfold u64; lia).
    eapply (running_moved _ _ _ _ _ _ _ _ _ (admits t k true)); [done| |lia..|].
    + intros db Hs Hd. exact (wp_run _ _ _ _ _ _ (reserve_llm_spec L t k s db Hs Hd Ht' Hk') Hres).
    + intros a db [now [-> | ->]] _ _; simpl; lia.
  - destruct IH as [Hsec Hf]. split; [|done]. revert Hsec. by rewrite !length_app.
  - eapply (running_moved _ _ _ _ _ _ _ _ _ (λ a, ∃ now, a = ASettle now));
      [done| |rewrite ?length_app; simpl; lia..|].
    + intros db Hs Hd. exact (both_run _ _ _ _ _ (settle_moved L s db Hs Hd) Hop).
    + intros a db [now ->] _ _; simpl; rewrite ?length_app; simpl; lia.
  - eapply (running_moved _ _ _ _ _ _ _ _ _ (λ a, ∃ now, a = ASettle now));
      [done| |rewrite ?length_app; simpl; lia..|].
    + intros db Hs Hd. exact (both_run _ _ _ _ _ (drop_reservation_moved L res s db Hs Hd) Hop).
    + intros a db [now ->] _ _; simpl; rewrite ?length_app; simpl; lia.
  - eapply (running_moved _ _ _ _ _ _ _ _ _ (λ a, ∃ now, a = AExhaust now));
      [done| |rewrite ?length_app; simpl; lia..|].
    + intros db Hs Hd. exact (both_run _ _ _ _ _ (observe_spec L t k s g db Hs Hd) Hop).
    + intros a db [now ->] Hv Hh. rewrite !length_app in *. simpl in *. split; [|lia].
      eapply requests_of_hold; [done..|lia].
  - eapply (running_moved _ _ _ _ _ _ _ _ _ (λ a, ∃ now, a = ARelease now));
      [done| |rewrite ?length_app; simpl; lia..|].
    + intros db Hs Hd. exact (both_run _ _ _ _ _ (drop_guard_moved L g s db Hs Hd) Hop).
    + intros a db [now ->] _ _; simpl; rewrite ?length_app; simpl; lia.
Qed.

(** ** Ownership *)

(** Descriptors are handed out once. *)
Definition fresh_fds (w : world) : Prop := Forall (λ l, l_fd l < w_next_fd w) (w_locks w).

Lemma open_read_fd p w :
  wp (sys_open_read p) (λ f w', same_fs w w' ∧ w_names w !! p = Some (fd_ino f) ∧ fd_id f = w_next_fd w)
     (λ _ w', same_fs w w') w.
Proof.
  apply wp_simple; intros fs; [apply same_fs_faults|]. apply run_wp.
  change (lookup_inode (set_faults fs w) p) with (lookup_inode w p).
  destruct (lookup_inode w p) as [[i n]|] eqn:El; [|apply same_fs_faults].
  assert (w_names w !! p = Some i) as Hn.
  { unfold lookup_inode in El. destruct (w_names w !! p) as [j|]; [|done]. simpl in El.
    destruct (w_inodes w !! j); [|done]. by injection El as <- <-. }
  destruct (i_kind n); try apply same_fs_faults;
    (split; [etrans; [apply same_fs_faults|apply same_fs_fd]|done]).
Qed.
Lemma open_private_fd p w :
  wp (open_private p)
    (λ f w', same_fs w w' ∧ w_names w !! p = Some (fd_ino f) ∧ fd_id f = w_next_fd w)
    (λ _ w', same_fs w w') w.
Proof.
  unfold open_private. wp_step; wp_step. wp_apply (open_read_fd p w); [|done].
  intros f w1 (S1 & Hf & Hid). wp_step; wp_step. wp_reader (reader_fstat f) as n w2 S2 _; [|by etrans].
  wp_step; wp_step. wp_step. apply wp_throw_if; intros _; [by etrans|]. wp_step.
  split_and!; [by etrans|done|done].
Qed.

Definition owned (p : string) (w : world) : Prop :=
  ∃ i l, w_names w !! state_sidecar p ".lock" = Some i ∧ l ∈ w_locks w
         ∧ l_ino l = i ∧ l_exclusive l = true.

Lemma acquire_owns p w ss w' : acquire p w = (Ok ss, w') → owned p w'.
Proof.
  intros Hr. refine (wp_run _ (λ _ w', owned p w') (λ _ _, True) _ _ _ _ Hr). unfold acquire. wp_step.
  wp_apply (open_private_fd (state_sidecar p ".lock") w); [|done]. intros f w1 (S1 & Hf & _).
  wp_step. unfold lock_owner. wp_step. apply wp_simple; [done|]. intros fs. apply run_wp.
  destruct (existsb _ _); [done|]. wp_step; wp_step.
  wp_apply (verify_reader _ _); [|intros; by wp_step]. intros [] w2 [S2 _]. wp_step.
  exists (fd_ino f), (mk_flock (fd_id f) (fd_ino f) true).
  rewrite (sf_names _ _ S2), (sf_locks _ _ S2). simpl. split_and!; [|set_solver|done|done].
  by rewrite (sf_names _ _ S1).
Qed.

Lemma owned_refuses p w :
  fresh_fds w → owned p w → ∃ e w', acquire p w = (Err e, w').
Proof.
  intros Hfresh (i & l & Hi & Hl & Hli & Hex).
  assert (wp (acquire p) (λ _ _, False) (λ _ _, True) w) as Hw.
  { unfold acquire. wp_step. wp_apply (open_private_fd (state_sidecar p ".lock") w); [|done].
    intros f w1 (S1 & Hf & Hid). wp_step. unfold lock_owner. wp_step. apply wp_simple; [done|].
    intros fs. apply run_wp.
    assert (existsb (lock_conflict f true) (w_locks (set_faults fs w1)) = true) as ->; [|done].
    apply existsb_elem. exists l. simpl. rewrite (sf_locks _ _ S1). split; [done|].
    unfold lock_conflict. rewrite Hi in Hf. injection Hf as <-. rewrite Hli, Z.eqb_refl, Hid. simpl.
    rewrite andb_true_r. apply negb_true_iff, Z.eqb_neq.
    unfold fresh_fds in Hfresh. rewrite Forall_forall in Hfresh. specialize (Hfresh l Hl). lia. }
  unfold wp in Hw. destruct (acquire p w) as [[?|e] w'] eqn:E; [done|]. by exists e, w'.
Qed.

(** ** Exact recovery and overage *)

Lemma disk_inj p w b b' : disk p w b → disk p w b' → b = b'.
Proof.
  intros [_ Hf Hu _] [_ Hf' Hu' _]. pose proof (private_file_inj _ _ _ _ Hf Hf') as E.
  pose proof (decode_encode b Hu) as D. rewrite E, (decode_encode b' Hu') in D. congruence.
Qed.

Lemma reconcile_exact p now w db :
  disk p w db → u64 now →
  let b' := sealed (set_last_seen (Some now) (set_pending None (set_unsettled (Some 0) db))) in
  wp (reconcile_strict_at p now)
    (λ x w', ∃ b, disk p w' b ∧ b = b' ∧ x = (default 0 (unsettled db), default 0 (pending_usage db)))
    (λ _ w', ∃ b, disk p w' b ∧ (b = db ∨ b = b')) w.
Proof.
  intros Hd Hn b'. unfold reconcile_strict_at. wp_step.
  wp_apply (acquire_disk p _ _ _ Hd); [|intros e w1 Hd1; exists db; auto].
  intros ss w1 Hd1. apply wp_closing. wp_step. wp_apply (read_disk _ _ _ Hd1).
  2: { intros e w2 S. exists db. split; [|by left]. apply disk_locks. by eapply (disk_same _ w1). }
  intros b w2 (S2 & -> & Hacc). pose proof (disk_same _ _ _ _ Hd1 S2) as Hd2.
  wp_step. apply wp_lift; [intros [] _|intros e _; exists db; split; [by apply disk_locks|by left]].
  cbv zeta. wp_step. wp_apply (atomic_disk p w2 db _ Hd2).
  - destruct (dk_u64 _ _ _ Hd). by split.
  - intros x w3 (-> & Hd3 & _). wp_step. exists b'. split_and!; [by apply disk_locks|done|done].
  - intros e w3 [[Hd3|Hd3] _]; eexists; (split; [by apply disk_locks|]); [by left|by right].
Qed.

(** The condition of [UsageGuard::observe]. *)
Definition overage (g : UsageGuard) (t : Z) (c : option Z) : bool :=
  (reserved_tokens g <? t) || match c with Some c => reserved_cost g <? c | None => true end.

Lemma io_pending {A} (m : M world string A) s :
  let P := (λ s', overage_pending s' = overage_pending s) in wp (io m) (λ _, P) (λ _, P) s.
Proof. apply wp_zoom, run_wp. by destruct (m (l_world s)) as [[?|?] ?]. Qed.
Lemma exhaust_pending L s :
  let P := (λ s', overage_pending s' = overage_pending s) in
  wp (exhaust_for_overage L) (λ _, P) (λ _, P) s.
Proof.
  intros P. unfold exhaust_for_overage, check_usage_state, check_strict_state, persist_budget.
  wp_step. wp_apply (io_pending unix_seconds s); [|done]. intros now s1 E1.
  wp_step; wp_step. wp_step. wp_step; wp_step. wp_step. apply wp_throw_if; intros _; [done|].
  set (check := match strict L with Some _ => _ | None => _ end).
  assert (wp check (λ _, P) (λ _, P) s1) as Hc.
  { unfold check. destruct (strict L).
    - wp_step. wp_apply (io_pending _ s1); [|intros; unfold P; congruence]. intros [] s2 E2.
      wp_step. wp_apply (io_pending _ s2); [|intros; unfold P; congruence]. intros b s3 E3.
      wp_step. apply wp_throw_if; intros _; [unfold P; congruence|].
      apply wp_lift; intros; unfold P; congruence.
    - wp_apply (io_pending _ s1); intros; unfold P; congruence. }
  wp_apply Hc; [|done]. intros [] s2 E2. destruct (_ && _); [done|]. wp_step. wp_step; wp_step.
  wp_apply (io_pending _ s2); [intros b s3 E3; wp_go; unfold P in *; simpl; congruence|].
  intros e s3 E3. wp_go; unfold P in *; simpl; congruence.
Qed.

Lemma overage_spec L t c s g db :
  is_strict L = true → disk (path L) (l_world s) db → overage g t c = true →
  ∀ r s' g', observe L t c (s, g) = (r, (s', g')) →
  (is_ok r = true ∧ disk (path L) (l_world s') (l_budget s') ∧ tokens (l_budget s') = u64_max)
  ∨ (overage_pending s' = true ∧ ∃ b', disk (path L) (l_world s') b').
Proof.
  intros Hs Hd Hov r s' g' Hr.
  pose proof (exhaust_spec L (set_overage_pending true s) db Hs Hd) as Hw.
  pose proof (exhaust_pending L (set_overage_pending true s)) as Hp. unfold wp in *.
  unfold observe, mbind, M_bind, gets, zoom, modify in Hr. cbn [snd fst] in Hr.
  unfold overage in Hov. rewrite Hov in Hr. cbn [snd fst] in Hr.
  destruct (exhaust_for_overage L (set_overage_pending true s)) as [[[]|e] s1].
  - injection Hr as <- <- <-. left. destruct Hw as (_ & ? & ? & _). done.
  - injection Hr as <- <- <-. right. split; [done|]. destruct Hw as (b' & _ & ?). by exists b'.
Qed.
End lifetime.

(** * Properties of the strict ledger *)

Section ledger_claims.
Context `{HC : Crates} `{!CratesLaws}.

(** C1.  The daily ceilings hold for the whole life of a strict budget.  In every
    run - requests reserving, settling, observing and releasing in any order, any
    call of the operating system failing at any point, any clock readings, restarts,
    crashes and operator reconciliation - the requests, tokens and cost admitted on each
    UTC day stay within the configured ceilings. *)
Theorem daily_ceilings_hold (c : settings) (h : list admission) (pr : proc) (d : Z) :
  0 ≤ s_requests c → 0 ≤ s_tokens c → 0 ≤ s_cost c → run c h pr →
  total (λ _, 1) d h ≤ s_requests c ∧ total a_tokens d h ≤ s_tokens c ∧ total a_cost d h ≤ s_cost c.
Proof.
  intros Hr Ht Hk Hrun. pose proof (run_safe c h pr Hr Ht Hk Hrun) as Hs.
  assert (∃ b, covered c h b) as (b & [H1 H2 H3]).
  { destruct pr; [destruct Hs as (b & _ & ? & _)|destruct Hs as [(b & _ & ? & _) _]]; by exists b. }
  split_and!; [apply (H1 d)|apply (H2 d)|apply (H3 d)].
Qed.

(** C27.  At every point of every run the budget file on disk is a complete, checksummed
    and consistent state, and it records at least one unsettled reservation and one usage
    hold for every reservation and usage guard that is still alive: no crash can lose
    track of a request in flight. *)
Theorem durable_state_backs_live_requests (c : settings) (h : list admission) (pr : proc) :
  0 ≤ s_requests c → 0 ≤ s_tokens c → 0 ≤ s_cost c → run c h pr →
  ∃ b, disk (s_path c) (proc_world pr) b ∧ valid b
       ∧ match pr with
         | Stopped _ => True
         | Running _ _ rs gs => Z.of_nat (length rs) ≤ default 0 (unsettled b)
                                ∧ Z.of_nat (length gs) ≤ default 0 (pending_usage b)
         end.
Proof.
  intros Hr Ht Hk Hrun. pose proof (run_safe c h pr Hr Ht Hk Hrun) as Hs.
  destruct pr; [destruct Hs as (b & ? & _ & ? & _)|destruct Hs as [(b & ? & _ & ? & ?) _]]; by exists b.
Qed.

(** C21.  Admission refines the abstract ledger.  Under any failure schedule a reported
    reservation is exactly one abstract admission at the clock reading it was made at,
    already durable and in memory; a denied or failed one leaves the durable state as it
    was, or one clock checkpoint or one (unreported, hence only over-counted) admission later. *)
Theorem reservation_refines_admission (L : Limits) (t k : Z) (s : ledger) (db : BudgetState) :
  is_strict L = true → disk (path L) (l_world s) db → u64 t → u64 k →
  match reserve_llm L t k s with
  | (Ok x, s') =>
      x = (Some (mkReservation false), Some (mkGuard t k false))
      ∧ ∃ b', bstep L db (AAdmit (clock_now (l_world s)) t k true) b'
              ∧ disk (path L) (l_world s') b' ∧ l_budget s' = b'
  | (Err _, s') => moved L db (admits t k true) (l_world s')
  end.
Proof.
  intros Hs Hd Ht Hk. pose proof (reserve_llm_spec L t k s db Hs Hd Ht Hk) as Hw. unfold wp in Hw.
  destruct (reserve_llm L t k s) as [[x|e] s']; [|done].
  destruct Hw as (-> & b' & ? & ? & ? & _). split; [done|]. by exists b'.
Qed.

(** C25.  Settling, observing usage, dropping a usage guard and reconciling refine the
    abstract ledger too: whatever fails, each takes the durable state through at most its
    own transition, and a reported settlement is durable. *)
Theorem ledger_operations_refine (L : Limits) (s : ledger) (db : BudgetState) (r : Reservation)
    (g : UsageGuard) (t : Z) (c : option Z) (now : Z) :
  is_strict L = true → disk (path L) (l_world s) db → u64 now →
  match settle L r s with
  | (Ok _, s') => ∃ at_ b', bstep L db (ASettle at_) b' ∧ disk (path L) (l_world s') b' ∧ l_budget s' = b'
  | (Err _, s') => moved L db (λ a, ∃ at_, a = ASettle at_) (l_world s')
  end
  ∧ moved L db (λ a, ∃ at_, a = AExhaust at_) (l_world (fst (snd (observe L t c (s, g)))))
  ∧ moved L db (λ a, ∃ at_, a = ARelease at_) (l_world (snd (drop_guard L g s)))
  ∧ moved L db (λ a, a = AReconcile now) (snd (reconcile_strict_at (path L) now (l_world s))).
Proof.
  intros Hs Hd Hn. split_and!.
  - pose proof (settle_spec L s db Hs Hd) as Hw. unfold wp, settle in *.
    by destruct (settle_with_clock L unix_seconds s) as [[?|e] s'].
  - pose proof (observe_spec L t c s g db Hs Hd) as Hw. unfold wp in Hw.
    by destruct (observe L t c (s, g)) as [[?|e] s'].
  - pose proof (drop_guard_moved L g s db Hs Hd) as Hw. unfold wp in Hw.
    by destruct (drop_guard L g s) as [[?|e] s'].
  - pose proof (reconcile_spec L now (l_world s) db Hd Hn) as Hw. unfold wp in Hw.
    by destruct (reconcile_strict_at (path L) now (l_world s)) as [[?|e] s'].
Qed.

(** Recovery never refunds.  Reconciling a stopped strict ledger clears its unsettled
    reservations and usage holds, reports how many there were, and leaves the day and the
    charged requests, tokens and cost as they are, whether it succeeds or fails. *)
Theorem reconcile_never_refunds (p : string) (now : Z) (w : world) (db : BudgetState)
    (r : result string (Z * Z)) (w' : world) :
  disk p w db → u64 now → reconcile_strict_at p now w = (r, w') →
  ∃ b', disk p w' b' ∧ day b' = day db ∧ requests b' = requests db ∧ tokens b' = tokens db
        ∧ cost_microusd b' = cost_microusd db
        ∧ (∀ x, r = Ok x → x = (default 0 (unsettled db), default 0 (pending_usage db))
                           ∧ unsettled b' = Some 0 ∧ pending_usage b' = None).
Proof.
  intros Hd Hn Hr. refine (_ (wp_run _ _ _ _ _ _ (reconcile_exact p now w db Hd Hn) Hr)).
  destruct r as [x|e]; intros (b' & Hd' & Hb').
  - destruct Hb' as [-> ->]. eexists. split_and!; [done|done..|]. intros y [= <-]. done.
  - exists b'. destruct Hb' as [-> | ->]; split_and!; try done.
Qed.

(** A provider that used more than was reserved ends the day.  After an observed
    overage of a strict request - whether or not recording it succeeded - no reservation
    succeeds while the clock stays on the ledger's UTC day, whatever the operating
    system and the clock do next. *)
Theorem overage_blocks_the_day (L : Limits) (s s' s2 : ledger) (g g' : UsageGuard) (db : BudgetState)
    (t t2 k2 : Z) (c : option Z) (r : result string unit) (fs : list (option nat)) (cl : list Z) r2 :
  is_strict L = true → daily_token_budget L ≤ u64_max → disk (path L) (l_world s) db →
  overage g t c = true → observe L t c (s, g) = (r, (s', g')) →
  1 ≤ t2 ≤ u64_max → u64 k2 → Forall u64 cl →
  clock_now (retime fs cl (l_world s')) / 86400 = day (l_budget s') →
  reserve_llm L t2 k2 (set_world (retime fs cl (l_world s')) s') = (r2, s2) → is_ok r2 = false.
Proof.
  intros Hs Hb Hd Hov Hobs Ht Hk Hcl Hday Hres. destruct r2 as [x|e]; [exfalso|done].
  destruct (overage_spec L t c s g db Hs Hd Hov _ _ _ Hobs) as [(_ & Hd' & Htk)|[Hp (b' & Hd')]].
  - assert (disk (path L) (retime fs cl (l_world s')) (l_budget s')) as Hd2 by by destruct Hd'; split.
    assert (u64 t2) as Ht' by (unfold u64; lia).
    pose proof (wp_run _ _ _ _ _ _ (reserve_llm_spec L t2 k2 (set_world (retime fs cl (l_world s')) s') _ Hs Hd2 Ht' Hk) Hres) as (_ & b2 & Hb2 & _).
    inversion Hb2 as [|? ? ? ? b0 u b1 Hck Ho _ _ Htok _ _| | | |]; subst.
    destruct Ho as [|Hne]; [|by symmetry in Hday]. lia.
  - assert (disk (path L) (retime fs cl (l_world s')) b') as Hd2 by by destruct Hd'; split.
    assert (u64 t2) as Ht' by (unfold u64; lia).
    pose proof (wp_run _ _ _ _ _ _ (reserve_llm_spec L t2 k2 (set_world (retime fs cl (l_world s')) s') _ Hs Hd2 Ht' Hk) Hres)
      as (_ & b2 & _ & _ & _ & _ & _ & _ & Hop). simpl in Hop. congruence.
Qed.

(** Usage that was never accounted for blocks a restarted broker.  If the durable state
    still has a usage hold when a strict broker starts - its process died with a
    provider request in flight - then no reservation succeeds until the holds are
    reconciled, whatever the day. *)
Theorem orphaned_usage_blocks_admission (c : settings) (now : Z) (w w' : world) (db : BudgetState)
    (L : Limits) (s s2 : ledger) (n t k : Z) (r : result string (option Reservation * option UsageGuard))
    (fs : list (option nat)) (cl : list Z) :
  disk (s_path c) w db → u64 now → pending_usage db = Some n → 1 ≤ n →
  start c now w = (Ok (L, s), w') → u64 t → u64 k → Forall u64 cl →
  reserve_llm L t k (set_world (retime fs cl (l_world s)) s) = (r, s2) → is_ok r = false.
Proof.
  intros Hd Hn Hp Hle Hst Ht Hk Hcl Hres.
  destruct (wp_run _ _ _ _ _ _ (start_spec c now w db Hd Hn) Hst) as (Hf & Hw & Hm & Ha & Hd').
  cbn [fst snd] in *. destruct Hf as [Hpath _ _ _ Hs].
  assert (pending_usage (l_budget s) = Some n) as Hp'.
  { destruct Hm as (b' & Hb' & Hdb'). simpl in Hdb'.
    assert (b' = l_budget s) as <- by by eapply disk_inj.
    destruct Hb' as [->|(a & -> & Hb)]; [done|]. by inversion Hb; subst. }
  assert (disk (path L) (retime fs cl (l_world s)) (l_budget s)) as Hd2.
  { rewrite Hpath, Hw. destruct Hd'. by split. }
  pose proof (wp_run _ _ _ _ _ _ (reserve_llm_spec L t k (set_world (retime fs cl (l_world s)) s) _ Hs Hd2 Ht Hk) Hres) as Hx.
  destruct r; [|done]. destruct Hx as (_ & b2 & _ & _ & _ & Hact & _). simpl in Hact.
  rewrite Hp', Ha in Hact. simpl in Hact. lia.
Qed.

(** A strict budget has one owner.  While a process holds the lock it acquired on a
    budget (the lock file still has its name and the lock has not been released), no
    other process can acquire the same budget. *)
Theorem strict_ownership_is_exclusive (p : string) (w w1 w2 : world) (ss : StrictState) :
  acquire p w = (Ok ss, w1) →
  w_names w2 !! state_sidecar p ".lock" = w_names w1 !! state_sidecar p ".lock" →
  (∀ l, l ∈ w_locks w1 → l ∈ w_locks w2) → fresh_fds w2 →
  ∃ e w3, acquire p w2 = (Err e, w3).
Proof.
  intros Hacq Hname Hlocks Hfresh. apply owned_refuses; [done|].
  destruct (acquire_owns _ _ _ _ Hacq) as (i & l & Hi & Hl & ? & ?).
  exists i, l. rewrite Hname. auto.
Qed.

(** The budget file is never torn.  Replacing it in strict mode, with any call
    failing (or the process dying) at any point, leaves the complete old or the complete
    new state in place; success means the new one; and no file other than it and its
    temporary one is touched. *)
Theorem budget_replacement_is_atomic (p : string) (b : BudgetState) (d : bytes) (w w' : world)
    (r : result string BudgetState) :
  wf w → private_file w p d → atomic_json p b true w = (r, w') →
  (private_file w' p d ∨ private_file w' p (encode_budget (sealed b)))
  ∧ frame [p; state_sidecar p ".tmp"] w w'
  ∧ (∀ x, r = Ok x → x = sealed b ∧ private_file w' p (encode_budget (sealed b))).
Proof.
  intros Hwf Hp Hr. pose proof (wp_run _ _ _ _ _ _ (atomic_json_strict_spec p b d w Hwf Hp) Hr) as Hx.
  destruct r as [x|e].
  - destruct Hx as (-> & Hn & [_ ? ?]). split_and!; try done. by intros y [= <-].
  - destruct Hx as [_ ? ?]. by split_and!.
Qed.
End ledger_claims.
