(* ===== verification/PrivateStore.v ===== *)
(** * Private directories: [crates/tentaflake-control/src/storage.rs]

    Opening a path component by component without following a link, bounded
    reads, and [PrivateDir], the locked directory that holds the receipts of the
    control plane.  A held directory descriptor is modelled with the path it was
    opened at; [openat] on it names a path below. *)

From S2P Require Import Prelude RustStr Json Posix Budget.

Definition MAX_DOCUMENT : Z := 262144.
Definition MAX_STATE : Z := 33554432.   (* 32 MiB *)
Definition refused : string := "private filesystem operation refused".
Definition refuse {A} (_ : A) : string := refused.

(** ** Paths *)

(** [Path::components] of an absolute path, after the root: empty and [.]
    components are dropped, [..] stays. *)
Definition components (p : string) : list string :=
  List.filter (λ c, negb (str_is_empty c) && negb (c =? ".")%string) (split_char "/" p).
Definition below (dir name : string) : string := (dir ++ "/" ++ name)%string.
(** The path of a list of components. *)
Definition canonical (parts : list string) : string := foldl below EmptyString parts.

(** Walk every component through directory descriptors; never follow a symlink. *)
Fixpoint walk (file : fd) (prefix : string) (parts : list string) (directory : bool) :
    M world string fd :=
  match parts with
  | [] => mret file
  | part :: rest =>
      _ ← throw_if (part =? "..")%string refused;
      _ ← throw_if (contains_byte 0 part) refused;
      let next := below prefix part in
      f ← map_err refuse (if negb (bool_decide (rest = [])) || directory
                          then sys_open_dir next else sys_open_read next);
      walk f next rest directory
  end.
Definition open_path (path : string) (directory : bool) : M world string fd :=
  _ ← throw_if (negb (starts_with "/" path)) refused;
  root ← map_err refuse (sys_open_dir "/");
  file ← walk root EmptyString (components path) directory;
  meta ← map_err refuse (sys_fstat file);
  _ ← throw_if (if directory then negb (bool_decide (i_kind meta = Directory))
                else negb (bool_decide (i_kind meta = Regular))) refused;
  mret file.

Definition read_bounded_file (file : fd) (limit : Z) : M world string bytes :=
  data ← map_err refuse (sys_read_take (limit + 1) file);
  _ ← throw_if (limit <? blen data) "document exceeds limit";
  mret data.
Definition read_file (path : string) (limit : Z) : M world string bytes :=
  file ← open_path path false;
  read_bounded_file file limit.

(** The directories above a path cannot be replaced by another user. *)
Definition replaceable (uid : Z) (m : inode) : bool :=
  let root_sticky := (i_uid m =? 0) && negb (mode_and (i_mode m) 512 (* 0o1000 *) =? 0) in
  (negb (i_uid m =? 0) && negb (i_uid m =? uid))
  || (negb (mode_and (i_mode m) 18 (* 0o022 *) =? 0) && negb root_sticky).
Fixpoint check_ancestry (uid : Z) (prefix : string) (parts : list string) : M world string unit :=
  match parts with
  | [] => mret tt
  | part :: rest =>
      _ ← throw_if (part =? "..")%string refused;
      let next := below prefix part in
      f ← open_path next true;
      metadata ← map_err refuse (sys_fstat f);
      _ ← throw_if (replaceable uid metadata) refused;
      check_ancestry uid next rest
  end.
Definition secure_ancestry (path : string) : M world string unit :=
  uid ← gets w_euid;
  check_ancestry uid EmptyString (components path).

(** ** The private directory *)

Record PrivateDir : Type := mkPrivateDir { pd_path : string; pd_lock : fd }.
Definition entry (d : PrivateDir) (name : string) : string := below (pd_path d) name.
Definition PENDING : string := "receipt.pending".

(** A file this process accepts as its own: regular, one link, private. *)
Definition foreign_file (w : world) (f : fd) (m : inode) : bool :=
  negb (bool_decide (i_kind m = Regular)) || negb (nlink w (fd_ino f) =? 1)
  || negb (i_uid m =? w_euid w) || negb (mode_and (i_mode m) 63 (* 0o077 *) =? 0).

Definition lock (path : string) : M world string PrivateDir :=
  _ ← secure_ancestry path;
  dir ← open_path path true;
  m ← map_err refuse (sys_fstat dir);
  uid ← gets w_euid;
  _ ← throw_if (negb (i_uid m =? uid) || negb (mode_and (i_mode m) 63 =? 0)) refused;
  let d := canonical (components path) in
  f ← map_err refuse (sys_open_create (below d "writer.lock") 384 (* 0o600 *));
  m ← map_err refuse (sys_fstat f);
  w ← get;
  _ ← throw_if (foreign_file w f m) refused;
  _ ← map_err (λ _, "state already has a writer"%string) (sys_flock f true);
  mret (mkPrivateDir d f).

Definition read_entry (d : PrivateDir) (filename : string) (limit : Z) :
    M world string (option bytes) :=
  _ ← throw_if (contains_byte 0 filename) refused;
  r ← attempt (sys_open_read (entry d filename));
  match r with
  | Err NotFound => mret None
  | Err _ => fail refused
  | Ok file =>
      m ← map_err refuse (sys_fstat file);
      w ← get;
      _ ← throw_if (foreign_file w file m) refused;
      data ← read_bounded_file file limit;
      mret (Some data)
  end.

Definition atomic (d : PrivateDir) (filename : string) (b : bytes) : M world string unit :=
  _ ← throw_if (MAX_STATE <? blen b) "state capacity exhausted";
  let temporary := entry d PENDING in
  _ ← attempt (sys_remove temporary);
  file ← map_err refuse (sys_create_new temporary 384);
  _ ← map_err refuse (sys_write file b);
  _ ← map_err refuse sys_sync;
  _ ← throw_if (contains_byte 0 filename) refused;
  _ ← map_err refuse (sys_rename temporary (entry d filename));
  map_err refuse sys_sync.

(** * Facts *)

(** ** What an operation leaves alone *)

(** The file named [p] (if it has one link), or its absence, survives. *)
Record keeps (p : string) (w w' : world) : Prop := {
  kp_wf : wf w';
  kp_euid : w_euid w' = w_euid w;
  kp_none : w_names w !! p = None → w_names w' !! p = None;
  kp_some i n : w_names w !! p = Some i → w_inodes w !! i = Some n → nlink w i = 1 →
    w_names w' !! p = Some i ∧ w_inodes w' !! i = Some n ∧ nlink w' i = 1;
}.

Lemma keeps_refl p w : wf w → keeps p w w.
Proof. by split. Qed.
Lemma keeps_trans p a b c : keeps p a b → keeps p b c → keeps p a c.
Proof.
  intros [W1 E1 N1 S1] [W2 E2 N2 S2]. split; [done|congruence|eauto|].
  intros i n H1 H2 H3. destruct (S1 i n) as (? & ? & ?); eauto.
Qed.
Lemma same_fs_keeps p w w' : wf w → same_fs w w' → keeps p w w'.
Proof.
  intros Hwf S. split.
  - by rewrite <-S.
  - apply S.
  - by rewrite (sf_names _ _ S).
  - intros i n. rewrite (sf_names _ _ S), (sf_inodes _ _ S). intros ? ? ?.
    by rewrite (nlink_same w w') by apply S.
Qed.
Lemma keeps_same p a b c : keeps p a b → same_fs b c → keeps p a c.
Proof. intros K S. eapply keeps_trans; [exact K|]. apply same_fs_keeps; [apply K|done]. Qed.

(** Creating, deleting, renaming and rewriting other names. *)
Lemma keeps_alloc p q w x : wf w → p ≠ q →
  keeps p w (set_next_ino (w_next_ino w + 1)
    (set_names (<[q := w_next_ino w]>) (set_inodes (<[w_next_ino w := x]>) w))).
Proof.
  intros Hwf Hne. split; simpl; [|done| |].
  - intros r i. simpl. rewrite lookup_insert. case_decide; intros; simplify_eq; [lia|].
    assert (i < w_next_ino w) by eauto. lia.
  - by rewrite lookup_insert_ne by congruence.
  - intros i n Hi Hn Hl. pose proof (Hwf _ _ Hi). rewrite !lookup_insert_ne by (congruence || lia).
    split_and!; try done. rewrite nlink_links in *. simpl. rewrite links_insert_ne; [done| |lia].
    intros Hq. pose proof (nlink_one_unique w p q i). naive_solver.
Qed.
Lemma keeps_delete p q w : wf w → p ≠ q → keeps p w (set_names (delete q) w).
Proof.
  intros Hwf Hne. split; simpl; [by apply wf_delete|done|by rewrite lookup_delete_ne by congruence|].
  intros i n Hi Hn Hl. rewrite lookup_delete_ne by congruence. split_and!; try done.
  rewrite nlink_links in *. simpl. rewrite links_delete_ne; [done|].
  intros Hq. pose proof (nlink_one_unique w p q i). naive_solver.
Qed.
Lemma keeps_rename p a b i w : wf w → p ≠ a → p ≠ b → w_names w !! a = Some i →
  keeps p w (set_names (λ m, <[b := i]> (delete a m)) w).
Proof.
  intros Hwf Ha Hb Hi. split; simpl; [|done| |].
  - intros r j. simpl. rewrite lookup_insert. case_decide; intros Hr; simplify_eq; [eauto|].
    apply lookup_delete_Some in Hr as [_ ?]. eauto.
  - by rewrite lookup_insert_ne, lookup_delete_ne by congruence.
  - intros j n Hj Hn Hl. rewrite lookup_insert_ne, lookup_delete_ne by congruence.
    split_and!; try done.
    assert (i ≠ j) by (intros ->; by apply Ha, (nlink_one_unique w p a j)).
    rewrite nlink_links in *. simpl. rewrite links_insert_ne; [|..|done].
    + rewrite links_delete_ne by congruence. done.
    + intros Hbj. apply lookup_delete_Some in Hbj as [_ Hbj].
      by apply Hb, (nlink_one_unique w p b j).
Qed.
Lemma keeps_inode p q w i g : wf w → p ≠ q → w_names w !! q = Some i →
  keeps p w (set_inodes (alter g i) w).
Proof.
  intros Hwf Hne Hq. split; simpl; [done..|].
  intros j n Hj Hn Hl. rewrite lookup_alter_ne; [done|].
  intros ->. by apply Hne, (nlink_one_unique w p q j).
Qed.

(** ** [PrivateDir::atomic] *)

(** The file [p] is this process's own private file with content [d]: what
    [PrivateDir::read] accepts. *)
Definition owned_file (w : world) (p : string) (d : bytes) : Prop :=
  ∃ i n, w_names w !! p = Some i ∧ w_inodes w !! i = Some n ∧ i_kind n = Regular
         ∧ i_uid n = w_euid w ∧ mode_and (i_mode n) 63 = 0 ∧ nlink w i = 1 ∧ i_data n = d.

Lemma keeps_owned p w w' d : keeps p w w' → owned_file w p d → owned_file w' p d.
Proof.
  intros K (i & n & Hi & Hn & ? & Hu & ? & Hl & ?).
  destruct (kp_some _ _ _ K i n) as (? & ? & ?); try done.
  exists i, n. split_and!; try done. by rewrite (kp_euid _ _ _ K).
Qed.
Lemma owned_same p w w' d : same_fs w w' → owned_file w p d → owned_file w' p d.
Proof.
  intros S (i & n & Hi & Hn & ? & Hu & ? & Hl & ?). exists i, n.
  rewrite (sf_names _ _ S), (sf_inodes _ _ S), (sf_euid _ _ S), (nlink_same w w') by apply S. done.
Qed.

(** Removing a name that may be absent. *)
Lemma wp_remove_any {E} t w : wf w →
  wp (E := E) (attempt (sys_remove t)) (λ _ w', wf w' ∧ ∀ q, q ≠ t → keeps q w w') (λ _ _, False) w.
Proof.
  intros Hwf. apply wp_attempt. apply wp_simple; intros fs.
  { split; [done|]. intros. by apply same_fs_keeps, same_fs_faults. }
  apply run_wp. simpl. destruct (w_names w !! t).
  - split; [by apply wf_delete|]. intros q Hq.
    eapply keeps_trans; [by apply same_fs_keeps, (same_fs_faults fs)|]. by apply keeps_delete.
  - split; [done|]. intros. by apply same_fs_keeps, same_fs_faults.
Qed.

(** The new file during [atomic]: fresh, at the temporary name. *)
Record pending (mode : Z) (t : string) (i : Z) (d : bytes) (w : world) : Prop := {
  pe_wf : wf w;
  pe_name : w_names w !! t = Some i;
  pe_inode : w_inodes w !! i = Some (mk_inode Regular mode (w_euid w) d);
  pe_links : nlink w i = 1;
}.
Lemma pending_same m t i d w w' : pending m t i d w → same_fs w w' → pending m t i d w'.
Proof.
  intros [W N I L] S. split.
  - by rewrite <-S.
  - by rewrite (sf_names _ _ S).
  - by rewrite (sf_inodes _ _ S), (sf_euid _ _ S).
  - by rewrite (nlink_same w w') by apply S.
Qed.

Lemma wp_create_pending t mode w : wf w →
  wp (sys_create_new t mode)
    (λ f w', pending mode t (fd_ino f) [] w' ∧ ∀ q, q ≠ t → keeps q w w')
    (λ _ w', same_fs w w') w.
Proof.
  intros Hwf. wp_apply (wp_create_new t mode w Hwf); [|done].
  intros f w' (Hf & Hi & S). split.
  - eapply pending_same; [|exact S]. rewrite Hi. split; simpl.
    + by apply created_wf.
    + by rewrite lookup_insert_eq.
    + by rewrite lookup_insert_eq.
    + rewrite nlink_links. simpl. rewrite links_insert_eq.
      * rewrite links_fresh; [done|]. intros p j. apply Hwf.
      * intros Ht. apply Hwf in Ht. lia.
  - intros q Hq. eapply keeps_same; [|exact S]. by apply keeps_alloc.
Qed.

Lemma wp_write_pending m t f b w : pending m t (fd_ino f) [] w →
  wp (sys_write f b)
    (λ _ w', pending m t (fd_ino f) b w' ∧ ∀ q, q ≠ t → keeps q w w')
    (λ _ w', ∀ q, q ≠ t → keeps q w w') w.
Proof.
  intros P. assert (∀ fs g q, q ≠ t → keeps q w (upd_data (fd_ino f) g (set_faults fs w))) as K.
  { intros fs g q Hq. eapply keeps_trans; [apply same_fs_keeps, (same_fs_faults fs); apply P|].
    apply (keeps_inode q t); [apply P|done|apply P]. }
  apply wp_syscall; intros; [by apply K|]. apply run_wp. split; [|by apply K].
  destruct P as [W N I L]. split; try done. simpl. rewrite lookup_alter_eq, I. simpl.
  unfold overwrite. by rewrite drop_nil, app_nil_r.
Qed.

(** Publication by rename. *)
Definition placed (mode : Z) (w : world) (p : string) (d : bytes) : Prop :=
  ∃ i, w_names w !! p = Some i ∧ w_inodes w !! i = Some (mk_inode Regular mode (w_euid w) d) ∧ nlink w i = 1.
Lemma placed_keeps mode p w w' d : keeps p w w' → placed mode w p d → placed mode w' p d.
Proof.
  intros K (i & Hi & Hn & Hl). destruct (kp_some _ _ _ K _ _ Hi Hn Hl) as (? & ? & ?).
  exists i. by rewrite (kp_euid _ _ _ K).
Qed.
Lemma placed_owned w p d : placed 384 w p d → owned_file w p d.
Proof. intros (i & Hi & Hn & Hl). by exists i, (mk_inode Regular 384 (w_euid w) d). Qed.
Lemma wp_rename_pending m t p i d w : pending m t i d w → t ≠ p →
  wp (sys_rename t p)
    (λ _ w', wf w' ∧ placed m w' p d ∧ ∀ q, q ≠ t → q ≠ p → keeps q w w')
    (λ _ w', same_fs w w') w.
Proof.
  intros [W N I L] Hne. apply wp_simple; intros fs; [apply same_fs_faults|].
  apply run_wp. simpl. rewrite N.
  assert (∀ q, q ≠ t → q ≠ p →
    keeps q w (set_names (λ m, <[p := i]> (delete t m)) (set_faults fs w))) as K.
  { intros q Ht Hp. eapply keeps_trans; [by apply same_fs_keeps, (same_fs_faults fs)|].
    by apply keeps_rename. }
  split_and!; [|exists i; split_and!; try done|done].
  - intros r j. simpl. rewrite lookup_insert. case_decide; intros Hr; simplify_eq; [eauto|].
    apply lookup_delete_Some in Hr as [_ ?]. eauto.
  - simpl. by rewrite lookup_insert_eq.
  - rewrite !nlink_links in *. simpl. rewrite links_insert_eq.
    + pose proof (links_delete_eq (w_names w) t i N). lia.
    + rewrite lookup_delete_ne by done. intros Hp. by apply Hne, (nlink_one_unique w t p i).
Qed.

(** A directory entry's two names, and everything else. *)
Definition others (d : PrivateDir) (name : string) (w w' : world) : Prop :=
  ∀ q, q ≠ entry d name → q ≠ entry d PENDING → keeps q w w'.

Lemma entry_ne d a b : a ≠ b → entry d a ≠ entry d b.
Proof. unfold entry, below. intros Hne E. apply append_inj_r in E. by injection E. Qed.

(** What [atomic] does, whatever call fails: the target is the old file or the
    complete new one, success means the new one, and no other file changes. *)
Lemma atomic_spec d name b w :
  wf w → name ≠ PENDING →
  wp (atomic d name b)
    (λ _ w', wf w' ∧ owned_file w' (entry d name) b ∧ others d name w w')
    (λ _ w', wf w' ∧ (keeps (entry d name) w w' ∨ owned_file w' (entry d name) b) ∧ others d name w w') w.
Proof.
  intros Hwf Hne. pose proof (entry_ne d _ _ Hne) as Hd.
  assert (∀ w', wf w' → (∀ q, q ≠ entry d PENDING → keeps q w w') →
    wf w' ∧ (keeps (entry d name) w w' ∨ owned_file w' (entry d name) b) ∧ others d name w w') as Hold.
  { intros w' Hw' K. split_and!; [done|left; by apply K|by intros q _ Hq; apply K]. }
  unfold atomic. wp_step. wp_step.
  { apply Hold; [done|]. intros. by apply keeps_refl. }
  wp_step. wp_apply (wp_remove_any (entry d PENDING) w Hwf); [|done].
  intros _ w1 [Hw1 K1]. wp_step. wp_step. wp_apply (wp_create_pending (entry d PENDING) 384 w1 Hw1).
  2: { intros e w2 S2. apply Hold; [by rewrite <-S2|]. intros q Hq.
       eapply keeps_same; [by apply K1|done]. }
  intros f w2 [P2 K2]. wp_step. wp_step. wp_apply (wp_write_pending _ _ f b w2 P2).
  2: { intros e w3 K3. apply Hold.
       - apply (kp_wf _ _ _ (K3 _ Hd)).
       - intros q Hq. eapply keeps_trans; [by apply K1|]. eapply keeps_trans; [by apply K2|by apply K3]. }
  intros _ w3 [P3 K3]. wp_step. wp_step.
  assert (∀ q, q ≠ entry d PENDING → keeps q w w3) as K13.
  { intros q Hq. eapply keeps_trans; [by apply K1|]. eapply keeps_trans; [by apply K2|by apply K3]. }
  wp_reader reader_sync as u w4 S4 _.
  2: { apply Hold; [rewrite <-S4; apply P3|]. intros q Hq. eapply keeps_same; [by apply K13|done]. }
  wp_step. wp_step.
  { apply Hold; [rewrite <-S4; apply P3|]. intros q Hq. eapply keeps_same; [by apply K13|done]. }
  wp_step. wp_step.
  wp_apply (wp_rename_pending 384 (entry d PENDING) (entry d name) (fd_ino f) b w4);
    [eapply pending_same; [exact P3|exact S4]|done| |].
  2: { intros e w5 S5. apply Hold; [rewrite <-S5, <-S4; apply P3|]. intros q Hq.
       eapply keeps_same; [by apply K13|by etrans]. }
  intros _ w5 (Hw5 & O5%placed_owned & K5). wp_step.
  assert (others d name w w5) as K15.
  { intros q Hq Hp. eapply keeps_trans; [by eapply keeps_same; [apply K13|]|by apply K5]. }
  wp_reader reader_sync as u' w6 S6 _.
  - split_and!; [by rewrite <-S6|exact (owned_same _ _ _ _ S6 O5)|].
    intros q Hq Hp. eapply keeps_same; [by apply K15|done].
  - split_and!; [by rewrite <-S6|right; exact (owned_same _ _ _ _ S6 O5)|].
    intros q Hq Hp. eapply keeps_same; [by apply K15|done].
Qed.

(** ** Opening and reading *)

Lemma reader_open_dir p : reader (sys_open_dir p) (λ w f,
  ∃ n, lookup_inode w p = Some (fd_ino f, n) ∧ i_kind n = Directory).
Proof.
  intros w. apply wp_simple; intros fs; [apply same_fs_faults|].
  unfold wp. change (lookup_inode (set_faults fs w) p) with (lookup_inode w p).
  destruct (lookup_inode w p) as [[i n]|] eqn:E; simpl; [|apply same_fs_faults].
  destruct (i_kind n) eqn:K; simpl; try apply same_fs_faults.
  split; [etrans; [apply same_fs_faults|apply same_fs_fd]|by exists n].
Qed.

(** The directories a walk went through, below [prefix]. *)
Definition walked (w : world) (prefix : string) (parts : list string) (f : fd) : Prop :=
  parts ≠ [] →
  (∃ n, lookup_inode w (foldl below prefix parts) = Some (fd_ino f, n) ∧ i_kind n ≠ Symlink)
  ∧ ∀ k, (0 < k < length parts)%nat →
      ∃ i n, lookup_inode w (foldl below prefix (take k parts)) = Some (i, n) ∧ i_kind n = Directory.

Lemma walk_reader parts directory : ∀ prefix file,
  reader (walk file prefix parts directory) (λ w f,
    walked w prefix parts f ∧ (".."%string ∉ parts) ∧ (parts = [] → f = file)).
Proof.
  induction parts as [|part rest IH]; intros prefix file w; cbn [walk].
  { wp_step. split; [done|]. split; [done|set_solver]. }
  wp_step. wp_step; [done|]. wp_step. wp_step; [done|]. wp_step. wp_step.
  assert (reader (if negb (bool_decide (rest = [])) || directory then sys_open_dir (below prefix part)
                  else sys_open_read (below prefix part)) (λ w f,
    ∃ n, lookup_inode w (below prefix part) = Some (fd_ino f, n) ∧ i_kind n ≠ Symlink
         ∧ (rest ≠ [] → i_kind n = Directory))) as Hopen.
  { destruct (negb _ || directory) eqn:Hd.
    - eapply reader_mono; [apply reader_open_dir|]. intros w' f (n & ? & K). exists n.
      by rewrite K.
    - apply orb_false_iff in Hd as [Hd _]. apply negb_false_iff, bool_decide_eq_true in Hd as ->.
      eapply reader_mono; [apply reader_open_read|]. intros w' f (n & ? & K). by exists n. }
  wp_reader (Hopen w) as f w1 S1 (n & Hn & Hk & Hdir); [|done].
  wp_apply (IH (below prefix part) f); [|intros e w2 S2; by etrans].
  intros f' w2 (S2 & Hw & Hp & Hf). split; [by etrans|]. split_and!; [|apply String.eqb_neq in H; set_solver|done].
  intros _. destruct (decide (rest = [])) as [->|Hrest].
  { rewrite (Hf eq_refl). split; [by exists n|]. simpl. intros; lia. }
  destruct (Hw Hrest) as [(n' & Hn' & ?) Hd]. simpl. split.
  - exists n'. by rewrite <-(lookup_inode_same w w1) by done.
  - intros [|[|k]] Hlt; [lia| |].
    + simpl. exists (fd_ino f), n. auto.
    + destruct (Hd (S k)) as (i & x & Hx & ?); [lia|]. exists i, x.
      by rewrite <-(lookup_inode_same w w1) by done.
Qed.

(** An opened path: every component but the last is a real directory, and the
    descriptor is the file the path names, not one a link leads to. *)
Definition opened_at (w : world) (path : string) (directory : bool) (f : fd) : Prop :=
  starts_with "/" path = true ∧ (".."%string ∉ components path)
  ∧ walked w EmptyString (components path) f
  ∧ ∃ n, w_inodes w !! fd_ino f = Some n ∧ i_kind n = (if directory then Directory else Regular).

Lemma open_path_reader path directory :
  reader (open_path path directory) (λ w f, opened_at w path directory f).
Proof.
  intros w. unfold open_path. wp_step. wp_step; [done|]. wp_step. wp_step.
  wp_reader (reader_open_dir "/") as root w1 S1 _; [|done].
  wp_step. wp_reader (walk_reader (components path) directory EmptyString root) as f w2 S2 (Hw & Hp & _);
    [|by etrans].
  wp_step. wp_step. wp_reader (reader_fstat f) as n w3 S3 Hn; [|by chain].
  wp_step. wp_step; [by chain|]. wp_step. split; [by chain|].
  apply negb_false_iff in H. split_and!; try done.
  - intros Hne. destruct (Hw Hne) as [(x & Hx & ?) Hd]. split.
    + exists x. by rewrite <-(lookup_inode_same w w1) by done.
    + intros k Hk. destruct (Hd k Hk) as (i & y & Hy & ?). exists i, y.
      by rewrite <-(lookup_inode_same w w1) by done.
  - exists n. rewrite <-(sf_inodes _ _ S1), <-(sf_inodes _ _ S2). split; [done|].
    destruct directory; reflect; done.
Qed.

Lemma read_bounded_file_reader f limit : reader (read_bounded_file f limit) (λ w d,
  blen d ≤ limit ∧ ∃ n, w_inodes w !! fd_ino f = Some n ∧ d = take (Z.to_nat (limit + 1)) (i_data n)).
Proof.
  intros w. unfold read_bounded_file. wp_step. wp_step.
  wp_reader (reader_read_take (limit + 1) f) as d w1 S1 Hd; [|done].
  wp_step. wp_step; [done|]. wp_step. split; [done|]. reflect. by split.
Qed.
(** A read within the limit is the whole file. *)
Lemma take_bounded {A} (l : list A) limit :
  Z.of_nat (length (take (Z.to_nat (limit + 1)) l)) ≤ limit → take (Z.to_nat (limit + 1)) l = l.
Proof. rewrite length_take. intros. apply take_ge. lia. Qed.

Lemma read_file_reader path limit : reader (read_file path limit) (λ w d,
  blen d ≤ limit ∧ ∃ f n, opened_at w path false f ∧ w_inodes w !! fd_ino f = Some n ∧ i_data n = d).
Proof.
  intros w. unfold read_file. wp_step.
  wp_reader (open_path_reader path false) as f w1 S1 Hf; [|done].
  wp_reader (read_bounded_file_reader f limit) as d w2 S2 (Hd & n & Hn & ->); [|by etrans].
  split; [by etrans|]. split; [done|]. exists f, n. rewrite <-(sf_inodes _ _ S1).
  split_and!; try done. symmetry. by apply take_bounded.
Qed.

Lemma ancestry_reader uid parts : ∀ prefix, reader (check_ancestry uid prefix parts) (λ _ _, True).
Proof.
  induction parts as [|part rest IH]; intros prefix w; cbn [check_ancestry]; [by wp_step|].
  wp_step. wp_step; [done|]. wp_step.
  wp_reader (open_path_reader (below prefix part) true) as f w1 S1 _; [|done].
  wp_step. wp_step. wp_reader (reader_fstat f) as n w2 S2 _; [|by etrans].
  wp_step. wp_step; [by etrans|]. wp_apply (IH (below prefix part)).
  - intros u w3 [S3 _]. split; [by chain|done].
  - intros e w3 S3. by chain.
Qed.
Lemma secure_ancestry_reader path : reader (secure_ancestry path) (λ _ _, True).
Proof. intros w. unfold secure_ancestry. wp_step. wp_step. apply (ancestry_reader (w_euid w)). Qed.

Lemma wp_open_create_keeps p mode w :
  wf w →
  wp (sys_open_create p mode) (λ _ w', wf w' ∧ ∀ q, q ≠ p → keeps q w w')
     (λ _ w', same_fs w w') w.
Proof.
  intros Hwf. apply wp_simple; intros fs; [apply same_fs_faults|].
  unfold wp. change (lookup_inode (set_faults fs w) p) with (lookup_inode w p).
  destruct (lookup_inode w p) as [[i n]|] eqn:E; simpl.
  - destruct (i_kind n); simpl; auto with broker;
      (split; [done|]; intros q _; apply same_fs_keeps; [done|]; etrans;
       [apply same_fs_faults|apply same_fs_fd]).
  - split; [exact (created_wf p mode w Hwf)|]. intros q Hq.
    eapply keeps_same; [by apply (keeps_alloc q p w (mk_inode Regular mode (w_euid w) []))|].
    split; try done. by exists [].
Qed.
(** Taking a lock touches no file. *)
Lemma wp_flock_keeps f excl w :
  wf w → wp (sys_flock f excl) (λ _ w', wf w' ∧ ∀ q, keeps q w w') (λ _ w', same_fs w w') w.
Proof.
  intros Hwf. apply wp_simple; intros fs; [apply same_fs_faults|].
  unfold wp, sys_flock. destruct (existsb _ _); simpl; [apply same_fs_faults|].
  split; [done|]. by split.
Qed.

(** [PrivateDir::lock] creates its lock file if needed and changes nothing else. *)
Lemma lock_spec path w :
  wf w →
  wp (lock path)
    (λ d w', pd_path d = canonical (components path)
             ∧ wf w' ∧ ∀ q, q ≠ entry d "writer.lock" → keeps q w w')
    (λ _ w', wf w' ∧ ∀ q, q ≠ below (canonical (components path)) "writer.lock" → keeps q w w') w.
Proof.
  intros Hwf.
  assert (∀ w', same_fs w w' →
    wf w' ∧ ∀ q, q ≠ below (canonical (components path)) "writer.lock" → keeps q w w') as K.
  { intros w' S. split; [by rewrite <-S|]. intros. by apply same_fs_keeps. }
  unfold lock. wp_step. wp_reader (secure_ancestry_reader path) as u w1 S1 _; [|by apply K].
  wp_step. wp_reader (open_path_reader path true) as dir w2 S2 _; [|apply K; by chain].
  wp_step. wp_step. wp_reader (reader_fstat dir) as m w3 S3 _; [|apply K; by chain].
  wp_step. wp_step. wp_step. wp_step; [apply K; by chain|]. wp_step. wp_step.
  assert (same_fs w w3) as S03 by (by chain). destruct (K w3 S03) as [Hw3 _].
  wp_apply (wp_open_create_keeps (below (canonical (components path)) "writer.lock") 384 w3 Hw3).
  2: { intros e w4 S4. apply K. by chain. }
  intros f w4 [Hw4 K4]. assert (∀ w', same_fs w4 w' →
    wf w' ∧ ∀ q, q ≠ below (canonical (components path)) "writer.lock" → keeps q w w') as K'.
  { intros w' S. split; [by rewrite <-S|]. intros q Hq.
    eapply keeps_same; [|exact S]. eapply keeps_trans; [by apply (K w3)|by apply K4]. }
  wp_step. wp_step. wp_reader (reader_fstat f) as n w5 S5 _; [|by apply K'].
  wp_step. wp_step. wp_step. wp_step; [by apply K'|]. wp_step. wp_step.
  destruct (K' w5 S5) as [Hw5 K5].
  wp_apply (wp_flock_keeps f true w5 Hw5); [|intros e w6 S6; apply K'; by chain].
  intros _ w6 [Hw6 K6]. wp_step. split_and!; try done. intros q Hq.
  eapply keeps_trans; [by apply K5|apply K6].
Qed.

(** [PrivateDir::read] returns the whole of its own file, or reports that there
    is none. *)
Lemma read_entry_reader d name limit : reader (read_entry d name limit) (λ w r,
  match r with
  | Some b => owned_file w (entry d name) b ∧ blen b ≤ limit
  | None => lookup_inode w (entry d name) = None
  end).
Proof.
  intros w. unfold read_entry. wp_step. wp_step; [done|]. wp_step. wp_step.
  assert (wp (sys_open_read (entry d name))
    (λ f w', same_fs w w' ∧ ∃ n, lookup_inode w (entry d name) = Some (fd_ino f, n))
    (λ e w', same_fs w w' ∧ (e = NotFound → lookup_inode w (entry d name) = None)) w) as Ho.
  { apply wp_simple; intros fs; [split; [apply same_fs_faults|done]|].
    unfold wp. change (lookup_inode (set_faults fs w) (entry d name)) with (lookup_inode w (entry d name)).
    destruct (lookup_inode w (entry d name)) as [[i n]|] eqn:E; simpl; [|split; auto with broker].
    destruct (i_kind n); simpl; try (split; [apply same_fs_faults|done]);
      (split; [etrans; [apply same_fs_faults|apply same_fs_fd]|eauto]). }
  wp_apply Ho.
  2: { intros [] w1 [S1 Hn]; wp_step; try done. split; [done|by apply Hn]. }
  intros f w1 [S1 (n & Hn)]. cbn beta iota. wp_step. wp_step.
  wp_reader (reader_fstat f) as m w2 S2 Hm; [|by chain].
  wp_step. wp_step. wp_step. wp_step; [by chain|].
  wp_step. wp_reader (read_bounded_file_reader f limit) as b w3 S3 (Hb & n' & Hn' & ->); [|by chain].
  wp_step. split; [by chain|]. split; [|done].
  apply bind_Some in Hn as (i & Hi & Hn). apply bind_Some in Hn as (n1 & Hn1 & [= -> ->]).
  rewrite (sf_inodes _ _ S1), Hn1 in Hm. injection Hm as <-.
  rewrite (sf_inodes _ _ S2), (sf_inodes _ _ S1), Hn1 in Hn'. injection Hn' as <-.
  unfold foreign_file in *. reflect. exists (fd_ino f), n. split_and!; try done.
  - rewrite <-(sf_euid _ _ S1), <-(sf_euid _ _ S2). done.
  - rewrite <-(nlink_same w w1), <-(nlink_same w1 w2) by (apply S1 || apply S2). done.
  - symmetry. by apply take_bounded.
Qed.
