(* ===== verification/Process.v ===== *)
(** * Bounded child processes

    [process::run] of [crates/tentaflake-control/src/process.rs] and
    [bounded_command] of [crates/tentaflake-workloads/src/lib.rs].  A child is a
    script: whether it starts, and for each iteration of the reading loop what one
    [read] of each pipe returns, whether the deadline has passed and what
    [try_wait] reports.  The end of a script is the deadline: no loop outlives it. *)

From S2P Require Import Prelude RustStr.

(** One [read]: data (none at the end of the pipe), nothing yet, or an error. *)
Inductive pipe_read : Type := PData (b : bytes) | PAgain | PFail.

Record round : Type := mkRound {
  p_out : pipe_read;
  p_err : pipe_read;
  p_late : bool;                       (* [start.elapsed() >= deadline] *)
  p_wait : result unit (option bool);  (* [try_wait]: exited, and successfully? *)
}.
Record child : Type := mkChild {
  ch_spawns : bool;
  ch_nonblocking : bool;
  ch_rounds : list round;
  ch_drain : list pipe_read;           (* reads after the exit, [bounded_command] only *)
}.

Definition data_of (r : pipe_read) : bytes := match r with PData b => b | _ => [] end.
Definition at_end (r : pipe_read) : bool := match r with PData [] => true | _ => false end.
Definition broken (r : pipe_read) : bool := match r with PFail => true | _ => false end.

(** ** [process::run] *)

(** The exit status known after an iteration; a child is waited for only once. *)
Definition wait_status (exited : option bool) (r : round) : result string (option bool) :=
  match exited with
  | Some s => Ok (Some s)
  | None => match p_wait r with
            | Ok s => Ok s
            | Err _ => Err "executable status unavailable"%string
            end
  end.
Fixpoint run_loop (limit : Z) (rounds : list round) (output : bytes) (total : Z)
    (exited : option bool) (done_out done_err : bool) : result string bytes :=
  match rounds with
  | [] => Err "executable deadline exceeded"%string
  | r :: rounds =>
      let output := output ++ data_of (p_out r) in
      let total := total + blen (data_of (p_out r)) + blen (data_of (p_err r)) in
      let done_out := done_out || at_end (p_out r) in
      let done_err := done_err || at_end (p_err r) in
      if broken (p_out r) || broken (p_err r) || (limit <? total)
      then Err "executable output refused"%string
      else if p_late r then Err "executable deadline exceeded"%string
      else
        match wait_status exited r with
        | Err e => Err e
        | Ok (Some success) =>
            if done_out && done_err then
              if success then Ok output else Err "fixed executable failed"%string
            else run_loop limit rounds output total (Some success) done_out done_err
        | Ok None => run_loop limit rounds output total None done_out done_err
        end
  end.
Definition process_run (limit : Z) (c : child) : result string bytes :=
  if negb (ch_spawns c) then Err "fixed executable unavailable"%string
  else if negb (ch_nonblocking c) then Err "cannot bound executable output"%string
  else run_loop limit (ch_rounds c) [] 0 None false false.

(** ** [bounded_command] *)

Definition authority_unavailable : string := "workload authority unavailable".

(** The reads after the child exited. *)
Fixpoint drain_reads (limit : Z) (reads : list pipe_read) (b : bytes) : result string bytes :=
  match reads with
  | [] | PData [] :: _ | PAgain :: _ => Ok b
  | PData d :: reads =>
      let b := b ++ d in
      if limit <? blen b then Err authority_unavailable else drain_reads limit reads b
  | PFail :: _ => Err authority_unavailable
  end.
Fixpoint command_loop (limit : Z) (require_success : bool) (drain : list pipe_read)
    (rounds : list round) (b : bytes) : result string string :=
  match rounds with
  | [] => Err authority_unavailable
  | r :: rounds =>
      let b := b ++ data_of (p_out r) in
      if broken (p_out r) || (limit <? blen b) then Err authority_unavailable
      else
        match p_wait r with
        | Err _ => Err authority_unavailable
        | Ok (Some success) =>
            if require_success && negb success then Err authority_unavailable
            else b ← drain_reads limit drain b; ok_or authority_unavailable (from_utf8 b)
        | Ok None =>
            if p_late r then Err authority_unavailable
            else command_loop limit require_success drain rounds b
        end
  end.
Definition bounded_command (limit : Z) (require_success : bool) (c : child) : result string string :=
  if negb (ch_spawns c) || negb (ch_nonblocking c) then Err authority_unavailable
  else command_loop limit require_success (ch_drain c) (ch_rounds c) [].

(** * Facts *)

(** What a child wrote to its output in some iterations. *)
Definition written (rounds : list round) : bytes := concat (data_of ∘ p_out <$> rounds).
Definition errors (rounds : list round) : bytes := concat (data_of ∘ p_err <$> rounds).

Lemma written_cons r l : written (r :: l) = data_of (p_out r) ++ written l.
Proof. done. Qed.
Lemma errors_cons r l : errors (r :: l) = data_of (p_err r) ++ errors l.
Proof. done. Qed.

Lemma run_loop_Ok limit rounds : ∀ output total exited d1 d2 out,
  run_loop limit rounds output total exited d1 d2 = Ok out →
  ∃ used rest, rounds = used ++ rest ∧ out = output ++ written used
    ∧ total + blen (written used) + blen (errors used) ≤ limit
    ∧ (d1 = true ∨ ∃ r, r ∈ used ∧ p_out r = PData [])
    ∧ (exited = Some true ∨ ∃ r, r ∈ used ∧ p_wait r = Ok (Some true)).
Proof.
  induction rounds as [|r rounds IH]; intros output total exited d1 d2 out; cbn [run_loop]; [done|].
  destruct (broken (p_out r) || broken (p_err r) || _) eqn:Hb; [done|].
  destruct (p_late r); [done|]. destruct (wait_status exited r) as [ex|e] eqn:Hex; [|done]. intros Hr.
  unfold wait_status in Hex.
  assert (at_end (p_out r) = true → p_out r = PData []) as Hend
    by (by destruct (p_out r) as [[]| |]).
  assert (ex = Some true → exited = Some true ∨ p_wait r = Ok (Some true)) as Hex'.
  { intros ->. destruct exited as [s|]; [left; congruence|right]. by destruct (p_wait r) as [s|]; simplify_eq. }
  assert (Hnext : ∀ ex', ex' = ex →
    run_loop limit rounds (output ++ data_of (p_out r))
      (total + blen (data_of (p_out r)) + blen (data_of (p_err r))) ex'
      (d1 || at_end (p_out r)) (d2 || at_end (p_err r)) = Ok out → 
    ∃ used rest, r :: rounds = used ++ rest ∧ out = output ++ written used
      ∧ total + blen (written used) + blen (errors used) ≤ limit
      ∧ (d1 = true ∨ ∃ r, r ∈ used ∧ p_out r = PData [])
      ∧ (exited = Some true ∨ ∃ r, r ∈ used ∧ p_wait r = Ok (Some true))).
  { intros ex' -> H. apply IH in H as (used & rest & -> & -> & Hlen & Hd & He).
    exists (r :: used), rest. unfold blen in *.
    rewrite written_cons, errors_cons, !length_app, app_assoc in *. split_and!; try done; [lia| |].
    - destruct Hd as [[->|Ha]%orb_true_iff|(x & ? & ?)]; [by left|right; exists r|right; exists x]; set_solver.
    - destruct He as [He|(x & ? & ?)]; [|right; exists x; set_solver].
      destruct (Hex' He); [by left|right; exists r; set_solver]. }
  destruct ex as [success|]; [|by apply (Hnext None)].
  destruct ((d1 || _) && _) eqn:Hd; [|by apply (Hnext (Some success))].
  destruct success; [|done]. injection Hr as <-. exists [r], rounds.
  apply orb_false_iff in Hb as [_ Hb%Z.ltb_ge]. apply andb_true_iff in Hd as [Hd _].
  rewrite written_cons, errors_cons. unfold written, errors, blen in *.
  cbn [fmap list_fmap concat]. rewrite !app_nil_r.
  split_and!; try done.
  - apply orb_true_iff in Hd as [->|Ha]; [by left|right]. exists r. split; [set_solver|auto].
  - destruct (Hex' eq_refl); [by left|right]. exists r. set_solver.
Qed.

Lemma length_bytes_str l : String.length (bytes_str l) = length l.
Proof. induction l as [|x l IH]; [done|]. simpl. by f_equal. Qed.

Lemma command_loop_Ok limit rs drain rounds : ∀ b out,
  blen b ≤ limit → command_loop limit rs drain rounds b = Ok out →
  str_len out ≤ limit ∧ (rs = true → ∃ r, r ∈ rounds ∧ p_wait r = Ok (Some true)).
Proof.
  assert (∀ reads b b', blen b ≤ limit → drain_reads limit reads b = Ok b' → blen b' ≤ limit) as Hdrain.
  { induction reads as [|[[|x d]| |] reads IH]; intros b b' Hb; cbn [drain_reads]; try (intros; simplify_eq; done).
    destruct (Z.ltb_spec limit (blen (b ++ x :: d))); [done|]. by apply IH. }
  induction rounds as [|r rounds IH]; intros b out Hb; cbn [command_loop]; [done|].
  destruct (_ || _) eqn:Hbr; [done|]. apply orb_false_iff in Hbr as [_ Hl%Z.ltb_ge].
  destruct (p_wait r) as [[success|]|] eqn:Hw; [| |done].
  - destruct (rs && negb success) eqn:Hs; [done|]. intros Ho. inv_ok. apply Hdrain in H; [|done]. split.
    + unfold from_utf8 in Ho. case_match; [|done]. injection Ho as <-.
      unfold str_len. by rewrite length_bytes_str.
    + intros ->. destruct success; [|done]. exists r. set_solver.
  - destruct (p_late r); [done|]. intros Ho. apply IH in Ho as [? He]; [|done]. split; [done|].
    intros Hrs. destruct (He Hrs) as (x & ? & ?). exists x. set_solver.
Qed.
