(* ===== verification/Template.v ===== *)
(** * Build templates: [crates/tentaflake-control/src/template.rs]

    The reviewed template a candidate system is built from: which paths are
    store paths, the inventory of a template tree and its fingerprint, and the
    copy of a template with the approved configuration in place.  SHA-256 (the
    sha2 crate) is the class [Sha2]. *)

From stdpp Require Import sorting.
From S2P Require Import Prelude RustStr Json Posix Budget PrivateStore.

Class Sha2 : Type := { sha2 : bytes → bytes }.
Class Sha2Laws `{Sha2} : Prop := {
  sha2_size l : length (sha2 l) = 32%nat ∧ bytes_ok (sha2 l);
}.

(** ** Digests as text *)

Definition hex_char (n : Z) : Z := if n <? 10 then 48 + n else 87 + n.
(** [hex]: each byte as two lowercase digits. *)
Definition to_hex (b : bytes) : string :=
  bytes_str (concat ((λ x, [hex_char (Z.shiftr x 4); hex_char (Z.land x 15)]) <$> b)).
Definition is_hex_digit (b : Z) : bool := is_ascii_digit b || in_range 97 102 b.
(** [hash]: a lowercase hexadecimal SHA-256. *)
Definition is_hash (v : string) : bool := (str_len v =? 64) && all_bytes is_hex_digit v.
(** [identifier]. *)
Definition identifier (v : string) : bool :=
  negb (str_is_empty v) && (str_len v <=? 96)
  && all_bytes (λ b, is_ascii_alphanumeric b || byte_in "_-" b) v.

(** ** Store paths *)

Record Builder : Type := mkBuilder {
  b_template : string;
  b_template_hash : string;
  b_nix : string;
  b_target : string;
  b_deadline_seconds : Z;
}.

Definition store_path (path : string) : bool :=
  starts_with "/" path
  && (match components path with
      | "nix"%string :: "store"%string :: _ => true
      | _ => false
      end)
  && forallb (λ c, negb (c =? "..")%string) (components path)
  && (4 <=? 1 + blen (components path)).

Definition output_path (path : string) : bool :=
  match strip_prefix "/nix/store/" path with
  | None => false
  | Some item =>
      match split_once "-" item with
      | None => false
      | Some (hash, name) =>
          (str_len hash =? 32) && all_bytes (byte_in "0123456789abcdfghijklmnpqrsvwxyz") hash
          && negb (str_is_empty name) && (str_len name <=? 211)
          && all_bytes (λ b, is_ascii_alphanumeric b || byte_in "+-._?=" b) name
      end
  end.

(** ** Inventory *)

(** A template file: relative path, content, executable bits. *)
Record tfile : Type := mkFile { tf_path : string; tf_data : bytes; tf_mode : Z }.
Record inv : Type := mkInv { inv_files : list tfile; inv_bytes : Z; inv_entries : Z }.

Definition TEMPLATE_BYTES : Z := 33554432.   (* 32 MiB *)
Definition mutable (m : inode) : bool :=
  negb (i_uid m =? 0) || negb (mode_and (i_mode m) 146 (* 0o222 *) =? 0).
Definition PRIVATE_NAMES : list string :=
  ["secrets"%string; "private"%string; "runtime"%string; "state"%string; "target"%string;
   "node_modules"%string].
(** [relative.join(name)]. *)
Definition join (relative name : string) : string :=
  if str_is_empty relative then name else below relative name.

Definition name_le (a b : string) : Prop := (a <=? b)%string = true.
#[export] Instance name_le_dec a b : Decision (name_le a b).
Proof. unfold name_le. apply _. Defined.
(** The names in a directory, sorted. *)
Definition child_names (dir : string) (entries : list (string * Z)) : list string :=
  merge_sort name_le (omap (λ '(p, _), strip_prefix (dir ++ "/") p) entries).

Section template.
Context `{Sha2}.

Definition digest (data : bytes) : string := to_hex (sha2 data).

(** One entry; [descend] is the recursive call. *)
Definition visit (descend : string → inv → M world string inv) (root relative : string)
    (acc : inv) (name : string) : M world string inv :=
  let entries := inv_entries acc + 1 in
  let acc := mkInv (inv_files acc) (inv_bytes acc) entries in
  _ ← throw_if (4096 <? entries) "template exceeds limits";
  _ ← throw_if (negb (is_some (from_utf8 (str_bytes name)))) "non UTF-8 template path";
  _ ← throw_if (starts_with "." name || str_in name PRIVATE_NAMES)
        "private or runtime template entry refused";
  let rel := join relative name in
  _ ← throw_if ((32 <? blen (components rel)) || (4096 <=? blen (inv_files acc)))
        "template exceeds limits";
  x ← map_err (λ _, "template unavailable"%string) (sys_symlink_metadata (below root rel));
  let m := snd x in
  _ ← throw_if (bool_decide (i_kind m = Symlink) || mutable m) "mutable or linked template refused";
  match i_kind m with
  | Directory => descend rel acc
  | Regular =>
      data ← read_file (below root rel) (TEMPLATE_BYTES - inv_bytes acc);
      mret (mkInv (inv_files acc ++ [mkFile rel data (mode_and (i_mode m) 73 (* 0o111 *))])
              (inv_bytes acc + blen data) entries)
  | _ => fail "special template entry refused"%string
  end.
Fixpoint visit_all (f : inv → string → M world string inv) (acc : inv) (names : list string) :
    M world string inv :=
  match names with
  | [] => mret acc
  | n :: names => acc ← f acc n; visit_all f acc names
  end.
(** A directory of the template.  A path has at most 32 components, so [fuel]
    33 is never exhausted. *)
Fixpoint tree (fuel : nat) (root relative : string) (acc : inv) : M world string inv :=
  match fuel with
  | O => fail "template exceeds limits"%string
  | S fuel =>
      let path := if str_is_empty relative then root else below root relative in
      dir ← open_path path true;
      m ← map_err (λ _, "template unavailable"%string) (sys_fstat dir);
      _ ← throw_if (mutable m) "mutable template refused";
      entries ← map_err (λ _, "template unavailable"%string) (sys_read_dir path);
      visit_all (visit (tree fuel root) root relative) acc (child_names path (take 4097 entries))
  end.

Definition has_file (name : string) (files : list tfile) : bool :=
  existsb (λ f, (tf_path f =? name)%string) files.
Definition inventory (root : string) : M world string (list tfile) :=
  _ ← throw_if (negb (store_path root)) "template must be immutable store source";
  acc ← tree 33 (canonical (components root)) EmptyString (mkInv [] 0 0);
  let files := inv_files acc in
  _ ← throw_if (negb (has_file "flake.nix" files) || negb (has_file "flake.lock" files)
                || negb (has_file "tentaflake.toml" files)) "template lacks required flake sources";
  mret files.

(** What is hashed: every field preceded by its length, or of fixed width. *)
Definition file_encoding (f : tfile) : bytes :=
  be_bytes 8 (str_len (tf_path f)) ++ str_bytes (tf_path f)
  ++ be_bytes 4 (tf_mode f)
  ++ be_bytes 8 (blen (tf_data f)) ++ tf_data f.
Definition hash_inventory (files : list tfile) : string := digest (concat (file_encoding <$> files)).
Definition fingerprint (root : string) : M world string string :=
  files ← inventory root; mret (hash_inventory files).

(** [template::validate]. *)
Definition validate_builder (b : Builder) (inputs : string) : M world string unit :=
  _ ← throw_if (negb (store_path (b_template b)) || negb (store_path (b_nix b))
                || str_is_empty (b_target b) || (64 <? str_len (b_target b))
                || negb (all_bytes (λ x, is_ascii_alphanumeric x || byte_in "_-" x) (b_target b))
                || negb (in_range 1 3600 (b_deadline_seconds b)))
        "invalid fixed build configuration";
  executable ← open_path (b_nix b) false;
  m ← map_err (λ _, "builder unavailable"%string) (sys_fstat executable);
  _ ← throw_if (mutable m || (mode_and (i_mode m) 73 =? 0)) "mutable or non-executable builder refused";
  print ← fingerprint (b_template b);
  _ ← throw_if (negb (print =? b_template_hash b)%string) "reviewed build inputs changed";
  lockfile ← read_file (below (b_template b) "flake.lock") 1048576;
  throw_if (negb (digest lockfile =? inputs)%string) "reviewed build inputs changed".

(** ** Materialisation *)

(** [fs::set_permissions] on a path. *)
Definition sys_chmod (p : string) (mode : Z) : Sys unit := simple (λ w,
  match w_names w !! p with
  | None => (Err NotFound, w)
  | Some i => (Ok tt, set_inodes (alter (λ n, mk_inode (i_kind n) mode (i_uid n) (i_data n)) i) w)
  end).
(** [fs::create_dir_all] below an existing directory [prefix]. *)
Fixpoint sys_create_dirs (prefix : string) (parts : list string) : Sys unit :=
  match parts with
  | [] => mret tt
  | part :: rest =>
      let next := below prefix part in
      r ← attempt (sys_mkdir next 511);
      match r with
      | Ok _ | Err AlreadyExists => sys_create_dirs next rest
      | Err e => fail e
      end
  end.

Definition candidate_unavailable {A} (_ : A) : string := "candidate unavailable".
Definition write_candidate (destination toml : string) (f : tfile) : M world string unit :=
  let parts := components (tf_path f) in
  _ ← map_err candidate_unavailable (sys_create_dirs destination (removelast parts));
  let data := if (tf_path f =? "tentaflake.toml")%string then str_bytes toml else tf_data f in
  file ← map_err candidate_unavailable
           (sys_create_new (below destination (tf_path f)) (Z.lor 256 (* 0o400 *) (tf_mode f)));
  _ ← map_err candidate_unavailable (sys_write file data);
  map_err candidate_unavailable sys_sync.
Fixpoint write_candidates (destination toml : string) (files : list tfile) : M world string unit :=
  match files with
  | [] => mret tt
  | f :: files => _ ← write_candidate destination toml f; write_candidates destination toml files
  end.
Definition materialize (b : Builder) (destination toml : string) : M world string unit :=
  files ← inventory (b_template b);
  _ ← throw_if (negb (hash_inventory files =? b_template_hash b)%string) "template drift";
  _ ← map_err (λ _, "candidate already exists or unavailable"%string) (sys_mkdir destination 511);
  _ ← map_err candidate_unavailable (sys_chmod destination 448 (* 0o700 *));
  _ ← write_candidates destination toml files;
  _ ← open_path destination true;
  map_err candidate_unavailable sys_sync.
End template.

(** * Facts *)

Section template_facts.
Context `{Sha2}.

(** ** Reading a template changes nothing *)

Lemma visit_reader descend root relative acc name :
  (∀ rel acc, reader (descend rel acc) (λ _ _, True)) →
  reader (visit descend root relative acc name) (λ _ _, True).
Proof.
  intros Hd w. unfold visit. repeat (wp_step; [wp_step; [done|]]). wp_step. wp_step.
  wp_reader (reader_symlink_metadata (below root (join relative name))) as x w1 S1 _; [|done].
  wp_step. wp_step; [done|]. destruct (i_kind (snd x)).
  - wp_step. wp_reader (read_file_reader (below root (join relative name)) _) as d w2 S2 _; [|by etrans].
    wp_step. split; [by etrans|done].
  - eapply wp_mono; [apply Hd| |]; cbn beta.
    + intros a w2 [S2 _]. split; [by etrans|done].
    + intros e w2 S2. by etrans.
  - by wp_step.
  - by wp_step.
  - by wp_step.
Qed.
Lemma visit_all_reader f names : ∀ acc,
  (∀ acc n, reader (f acc n) (λ _ _, True)) → reader (visit_all f acc names) (λ _ _, True).
Proof.
  induction names as [|n names IH]; intros acc Hf w; cbn [visit_all]; [by wp_step|].
  wp_step. wp_reader (Hf acc n) as acc' w1 S1 _; [|done].
  wp_apply (IH acc' Hf); cbn beta.
  - intros a w2 [S2 _]. split; [by etrans|done].
  - intros e w2 S2. by etrans.
Qed.
Lemma tree_reader fuel : ∀ root relative acc, reader (tree fuel root relative acc) (λ _ _, True).
Proof.
  induction fuel as [|fuel IH]; intros root relative acc w; cbn [tree]; [by wp_step|].
  wp_step. wp_reader (open_path_reader _ true) as dir w1 S1 _; [|done].
  wp_step. wp_step. wp_reader (reader_fstat dir) as m w2 S2 _; [|by etrans].
  wp_step. wp_step; [by etrans|]. wp_step. wp_step.
  wp_reader (reader_read_dir _) as entries w3 S3 _; [|by chain].
  eapply wp_mono; [apply visit_all_reader; intros; apply visit_reader; intros; apply IH| |]; cbn beta.
  - intros a w4 [S4 _]. split; [by chain|done].
  - intros e w4 S4. by chain.
Qed.
Lemma inventory_reader root : reader (inventory root) (λ _ _, True).
Proof.
  intros w. unfold inventory. wp_step. wp_step; [done|]. wp_step.
  wp_reader (tree_reader 33 _ _ _) as acc w1 S1 _; [|done].
  wp_step. wp_step; [done|]. by wp_step.
Qed.
Lemma validate_builder_reader b inputs : reader (validate_builder b inputs) (λ _ _, True).
Proof.
  intros w. unfold validate_builder, fingerprint. wp_step. wp_step; [done|]. wp_step.
  wp_reader (open_path_reader _ false) as e w1 S1 _; [|done].
  wp_step. wp_step. wp_reader (reader_fstat e) as m w2 S2 _; [|by chain].
  wp_step. wp_step; [by chain|]. wp_step. wp_step.
  wp_reader (inventory_reader _) as files w3 S3 _; [|by chain].
  wp_step. wp_step. wp_step; [by chain|]. wp_step.
  wp_reader (read_file_reader _ _) as l w4 S4 _; [|by chain].
  wp_step; [by chain|]. split; [by chain|done].
Qed.

(** ** The fingerprint is unambiguous *)

(** The sizes a [PathBuf], a [Vec<u8>] and a mode can have. *)
Definition tfile_ok (f : tfile) : Prop :=
  str_len (tf_path f) ≤ u64_max ∧ blen (tf_data f) ≤ u64_max ∧ 0 ≤ tf_mode f < 2 ^ 32.

Lemma hex_char_ok n : 0 ≤ n < 16 → byte_ok (hex_char n).
Proof. unfold hex_char, byte_ok. intros. case_match; lia. Qed.
Lemma hex_char_inj a b : 0 ≤ a < 16 → 0 ≤ b < 16 → hex_char a = hex_char b → a = b.
Proof. unfold hex_char. intros. destruct (Z.ltb_spec a 10), (Z.ltb_spec b 10); lia. Qed.
Lemma nibbles x : byte_ok x → 0 ≤ Z.shiftr x 4 < 16 ∧ 0 ≤ Z.land x 15 < 16
                                ∧ x = 16 * Z.shiftr x 4 + Z.land x 15.
Proof.
  unfold byte_ok. intros. rewrite Z.shiftr_div_pow2 by lia. change 15 with (Z.ones 4).
  rewrite Z.land_ones by lia. change (2 ^ 4) with 16.
  pose proof (Z.div_mod x 16). pose proof (Z.mod_pos_bound x 16).
  pose proof (Z.div_lt_upper_bound x 16 16). pose proof (Z.div_pos x 16). lia.
Qed.
Lemma to_hex_inj a b : bytes_ok a → bytes_ok b → to_hex a = to_hex b → a = b.
Proof.
  unfold to_hex. intros Ha Hb E. apply (f_equal str_bytes) in E.
  assert (∀ l : bytes, bytes_ok l →
    bytes_ok (concat ((λ x, [hex_char (Z.shiftr x 4); hex_char (Z.land x 15)]) <$> l))) as Hok.
  { induction 1 as [|x l Hx ? IH]; simpl; [constructor|].
    destruct (nibbles x Hx) as (? & ? & _). repeat constructor; try apply hex_char_ok; done. }
  rewrite !str_bytes_bytes_str in E by (apply Hok; done). clear Hok.
  revert b Hb E. induction Ha as [|x a Hx Ha IH]; intros b Hb E; destruct Hb as [|y b Hy Hb]; try done.
  simpl in E. injection E as E1 E2 E.
  destruct (nibbles x Hx) as (? & ? & ->), (nibbles y Hy) as (? & ? & Ey).
  apply hex_char_inj in E1, E2; try done. rewrite Ey, E1, E2. f_equal. by apply IH.
Qed.

Lemma encoding_inj fs : ∀ gs, Forall tfile_ok fs → Forall tfile_ok gs →
  concat (file_encoding <$> fs) = concat (file_encoding <$> gs) → fs = gs.
Proof.
  assert (∀ n x y, 0 ≤ x < 256 ^ Z.of_nat n → 0 ≤ y < 256 ^ Z.of_nat n →
            be_bytes n x = be_bytes n y → x = y) as Hbe.
  { intros n x y Hx Hy E. apply (f_equal (λ l, be_value l 0)) in E.
    rewrite !be_value_bytes, !Z.mod_small in E by lia. lia. }
  assert (∀ f g r s, tfile_ok f → tfile_ok g → file_encoding f ++ r = file_encoding g ++ s →
            f = g ∧ r = s) as Hone.
  { intros [p d m] [p' d' m'] r s (Hp & Hd & Hm) (Hp' & Hd' & Hm') E. cbn [tf_path tf_data tf_mode] in *.
    unfold file_encoding, str_len, blen, u64_max in *. cbn [tf_path tf_data tf_mode] in E. rewrite <-!app_assoc in E.
    apply app_inj_1 in E as [E1 E]; [|by rewrite !length_be_bytes].
    apply Hbe in E1; [|change (256 ^ _) with (2 ^ 64); lia..]. apply Nat2Z.inj in E1.
    apply app_inj_1 in E as [E2 E]; [|by rewrite !length_str_bytes].
    apply app_inj_1 in E as [E3 E]; [|by rewrite !length_be_bytes].
    apply app_inj_1 in E as [E4 E]; [|by rewrite !length_be_bytes].
    apply Hbe in E3; [|change (256 ^ _) with (2 ^ 32); lia..].
    apply Hbe in E4; [|change (256 ^ _) with (2 ^ 64); lia..]. apply Nat2Z.inj in E4.
    apply app_inj_1 in E as [E5 ->]; [|done]. apply str_bytes_inj in E2. by subst. }
  assert (∀ f r, file_encoding f ++ r ≠ []) as Hne by (intros [] ?; done).
  induction fs as [|f fs IH]; intros [|g gs] Hf Hg E; [done|..].
  - by apply symmetry, Hne in E.
  - by apply Hne in E.
  - apply Forall_cons in Hf as [? ?], Hg as [? ?]. cbn [fmap list_fmap concat] in E. apply Hone in E as [-> E]; try done.
    f_equal. by apply IH.
Qed.

(** ** Materialisation only adds *)

Lemma append_assoc (a b c : string) : ((a ++ b) ++ c)%string = (a ++ (b ++ c))%string.
Proof. induction a as [|x a IH]; [done|]. change (String x ((a +:+ b) +:+ c) = String x (a +:+ b +:+ c)). by rewrite IH. Qed.
Definition under (dir q : string) : Prop := q = dir ∨ ∃ r, q = below dir r.
Lemma under_below dir q c : under dir q → under dir (below q c).
Proof.
  intros [->|(r & ->)]; right; [by exists c|]. exists (below r c). unfold below.
  by rewrite !append_assoc.
Qed.

(** [q] names a file or directory with one link and content [d]. *)
Definition holds (w : world) (q : string) (d : bytes) : Prop :=
  ∃ i n, w_names w !! q = Some i ∧ w_inodes w !! i = Some n ∧ nlink w i = 1 ∧ i_data n = d.
Lemma keeps_holds q w w' d : keeps q w w' → holds w q d → holds w' q d.
Proof.
  intros K (i & n & ? & ? & ? & ?). destruct (kp_some _ _ _ K i n) as (? & ? & ?); try done.
  by exists i, n.
Qed.
Lemma holds_lookup w q d : holds w q d → lookup_inode w q ≠ None.
Proof. intros (i & n & Hi & Hn & _). unfold lookup_inode. rewrite Hi. simpl. by rewrite Hn. Qed.

(** [w'] extends [w] below [dir]: what exists with one link, and everything
    outside, is untouched. *)
Definition adds (dir : string) (w w' : world) : Prop :=
  wf w' ∧ ∀ q, ¬ under dir q ∨ (∃ d, holds w q d) → keeps q w w'.
Lemma adds_trans dir a b c : adds dir a b → adds dir b c → adds dir a c.
Proof.
  intros [W1 K1] [W2 K2]. split; [done|]. intros q Hq. eapply keeps_trans; [by apply K1|].
  apply K2. destruct Hq as [?|(d & Hd)]; [by left|right]. exists d.
  eapply keeps_holds; [|exact Hd]. apply K1. right. by exists d.
Qed.
Lemma same_fs_adds dir w w' : wf w → same_fs w w' → adds dir w w'.
Proof. intros Hwf S. split; [by rewrite <-S|]. intros. by apply same_fs_keeps. Qed.

Lemma wp_mkdir_adds dir p mode w : wf w → under dir p →
  wp (sys_mkdir p mode) (λ _ w', adds dir w w') (λ _ w', same_fs w w') w.
Proof.
  intros Hwf Hp. apply wp_simple; intros fs; [apply same_fs_faults|].
  unfold wp. change (lookup_inode (set_faults fs w) p) with (lookup_inode w p).
  destruct (lookup_inode w p) eqn:E; simpl; [apply same_fs_faults|].
  assert (∀ q, q ≠ p → keeps q w (set_next_ino (w_next_ino w + 1)
    (set_names (<[p:=w_next_ino w]>)
      (set_inodes (<[w_next_ino w := mk_inode Directory mode (w_euid w) []]>) (set_faults fs w))))) as K.
  { intros q Hq. eapply keeps_trans; [by apply same_fs_keeps, (same_fs_faults fs)|].
    by apply (keeps_alloc q p (set_faults fs w)). }
  split; [apply (kp_wf _ _ _ (K (below p "x") ltac:(unfold below; intros Hx; by apply append_ne in Hx)))|].
  intros q Hq. apply K. intros ->. destruct Hq as [Hq|(d & Hd)]; [done|]. by apply holds_lookup in Hd.
Qed.

Lemma create_dirs_adds dir parts : ∀ prefix w, wf w → under dir prefix →
  wp (sys_create_dirs prefix parts) (λ _ w', adds dir w w') (λ _ w', adds dir w w') w.
Proof.
  induction parts as [|part rest IH]; intros prefix w Hwf Hp; cbn [sys_create_dirs].
  { wp_step. by apply same_fs_adds. }
  wp_step. wp_step. apply (under_below _ _ part) in Hp.
  assert (∀ w1, adds dir w w1 → wp (sys_create_dirs (below prefix part) rest)
    (λ _ w', adds dir w w') (λ _ w', adds dir w w') w1) as Hrec.
  { intros w1 A1. wp_apply (IH _ w1 (proj1 A1) Hp); intros u w2 A2; by apply (adds_trans dir w w1 w2). }
  wp_apply (wp_mkdir_adds dir _ 511 w Hwf Hp).
  - intros u w1 A1. by apply Hrec.
  - intros [] w1 S1; [wp_step; by apply same_fs_adds| |wp_step; by apply same_fs_adds].
    by apply Hrec, same_fs_adds.
Qed.

(** Creating and filling one file. *)
Lemma create_write_adds dir p mode b w : wf w → under dir p →
  wp (file ← map_err candidate_unavailable (sys_create_new p mode);
      _ ← map_err candidate_unavailable (sys_write file b);
      map_err candidate_unavailable sys_sync)
    (λ _ w', adds dir w w' ∧ holds w' p b) (λ _ w', adds dir w w') w.
Proof.
  intros Hwf Hp. wp_step. wp_step. wp_apply (wp_create_new p mode w Hwf).
  2: { intros e w1 S1. by apply same_fs_adds. }
  intros f w1 (Hn & Hf & S1).
  assert (∀ q, q ≠ p → keeps q w w1) as K1.
  { intros q Hq. eapply keeps_same; [|exact S1]. by apply keeps_alloc. }
  assert (∀ w', wf w' → (∀ q, q ≠ p → keeps q w w') → adds dir w w') as Hadds.
  { intros w' Hw' K. split; [done|]. intros q Hq. apply K. intros ->.
    destruct Hq as [Hq|(d & Hd)]; [done|]. by apply holds_lookup in Hd. }
  assert (w_names w1 !! p = Some (fd_ino f)) as N1.
  { rewrite (sf_names _ _ S1), Hf. simpl. by rewrite lookup_insert_eq. }
  assert (w_inodes w1 !! fd_ino f = Some (mk_inode Regular mode (w_euid w) [])) as I1.
  { rewrite (sf_inodes _ _ S1), Hf. simpl. by rewrite lookup_insert_eq. }
  assert (nlink w1 (fd_ino f) = 1) as L1.
  { rewrite (nlink_same _ w1) by apply S1. rewrite nlink_links, Hf. simpl. rewrite links_insert_eq.
    - rewrite links_fresh; [done|]. intros r j. apply Hwf.
    - intros Hx. apply Hwf in Hx. lia. }
  assert (wf w1) as Hw1 by (rewrite <-S1; by apply created_wf).
  assert (∀ fs g q, q ≠ p → keeps q w (upd_data (fd_ino f) g (set_faults fs w1))) as K2.
  { intros fs g q Hq. eapply keeps_trans; [by apply K1|].
    eapply keeps_trans; [by apply same_fs_keeps, (same_fs_faults fs)|].
    by apply (keeps_inode q p). }
  wp_step. wp_step. apply wp_syscall; intros; [apply Hadds; [done|apply K2]|].
  apply run_wp. wp_step. set (w2 := upd_data _ _ _).
  assert (holds w2 p b) as O2.
  { exists (fd_ino f), (mk_inode Regular mode (w_euid w) b). split_and!; try done.
    simpl. rewrite lookup_alter_eq, I1. simpl. unfold overwrite. by rewrite drop_nil, app_nil_r. }
  assert (wf w2) as Hw2 by done.
  wp_reader reader_sync as u w3 S3 _.
  - split; [|eapply keeps_holds; [by apply same_fs_keeps|done]].
    apply Hadds; [by rewrite <-S3|]. intros q Hq. eapply keeps_same; [|exact S3]. by apply K2.
  - apply Hadds; [by rewrite <-S3|]. intros q Hq. eapply keeps_same; [|exact S3]. by apply K2.
Qed.

(** The content a template file has in a candidate. *)
Definition candidate_data (toml : string) (f : tfile) : bytes :=
  if (tf_path f =? "tentaflake.toml")%string then str_bytes toml else tf_data f.

Lemma write_candidates_spec dir toml files : ∀ w, wf w →
  wp (write_candidates dir toml files)
    (λ _ w', adds dir w w' ∧ ∀ f, f ∈ files → holds w' (below dir (tf_path f)) (candidate_data toml f))
    (λ _ w', adds dir w w') w.
Proof.
  induction files as [|f files IH]; intros w Hwf; cbn [write_candidates].
  { wp_step. split; [by apply same_fs_adds|set_solver]. }
  wp_step. unfold write_candidate at 1. wp_step. wp_step.
  assert (under dir dir) as Hd by (by left).
  wp_apply (create_dirs_adds dir (removelast (components (tf_path f))) dir w Hwf Hd); [|done].
  intros u w1 A1. fold (candidate_data toml f).
  wp_apply (create_write_adds dir (below dir (tf_path f)) (Z.lor 256 (tf_mode f))
    (candidate_data toml f) w1 (proj1 A1) (under_below _ _ _ Hd)).
  2: { intros e w2 A2. by apply (adds_trans dir w w1 w2). }
  intros u' w2 [A2 O2]. assert (adds dir w w2) as A02 by (by apply (adds_trans dir w w1 w2)).
  wp_apply (IH w2 (proj1 A2)); intros v w3.
  - intros [A3 O3]. split; [by apply (adds_trans dir w w2 w3)|].
    intros g [->|Hg]%elem_of_cons; [|by apply O3].
    eapply keeps_holds; [|exact O2]. apply A3. right. by eexists.
  - intros A3. by apply (adds_trans dir w w2 w3).
Qed.

Lemma wp_chmod_keeps p mode w : wf w →
  wp (sys_chmod p mode) (λ _ w', wf w' ∧ ∀ q, q ≠ p → keeps q w w') (λ _ w', same_fs w w') w.
Proof.
  intros Hwf. apply wp_simple; intros fs; [apply same_fs_faults|].
  unfold wp. change (w_names (set_faults fs w)) with (w_names w).
  destruct (w_names w !! p) as [i|] eqn:E; simpl; [|apply same_fs_faults].
  split; [done|]. intros q Hq.
  eapply keeps_trans; [by apply same_fs_keeps, (same_fs_faults fs)|]. by apply (keeps_inode q p).
Qed.

(** A materialised candidate is the reviewed template with the approved
    configuration in place of its own; nothing outside it is touched, whatever
    fails. *)
Lemma materialize_spec b dir toml w : wf w →
  wp (materialize b dir toml)
    (λ _ w', wf w' ∧ (∀ q, ¬ under dir q → keeps q w w') ∧ ∃ files, hash_inventory files = b_template_hash b
       ∧ ∀ f, f ∈ files → holds w' (below dir (tf_path f)) (candidate_data toml f))
    (λ _ w', wf w' ∧ ∀ q, ¬ under dir q → keeps q w w') w.
Proof.
  intros Hwf. assert (∀ w', adds dir w w' → wf w' ∧ ∀ q, ¬ under dir q → keeps q w w') as Hout.
  { intros w' [? K]. split; [done|]. intros q Hq. apply K. by left. }
  unfold materialize. wp_step.
  wp_reader (inventory_reader _) as files w1 S1 _; [|by apply Hout, same_fs_adds].
  wp_step. wp_step; [by apply Hout, same_fs_adds|]. wp_step. wp_step.
  apply negb_false_iff, String.eqb_eq in H0.
  assert (under dir dir) as Hd by (by left). assert (wf w1) as Hw1 by (by rewrite <-S1).
  wp_apply (wp_mkdir_adds dir dir 511 w1 Hw1 Hd).
  2: { intros e w2 S2. apply Hout, same_fs_adds; [done|by etrans]. }
  intros u w2 A2. assert (adds dir w w2) as A02 by (eapply adds_trans; [by apply same_fs_adds|done]).
  wp_step. wp_step. destruct (Hout w2 A02) as [Hw2 K2].
  wp_apply (wp_chmod_keeps dir 448 w2 Hw2).
  2: { intros e w3 S3. split; [by rewrite <-S3|]. intros q Hq. eapply keeps_same; [|exact S3]. by apply K2. }
  intros u3 w3 [Hw3 K3]. assert (∀ q, ¬ under dir q → keeps q w w3) as K03.
  { intros q Hq. eapply keeps_trans; [by apply K2|]. apply K3. intros ->. by apply Hq; left. }
  assert (∀ w4, adds dir w3 w4 → ∀ q, ¬ under dir q → keeps q w w4) as K04.
  { intros w4 [_ K4] q Hq. eapply keeps_trans; [by apply K03|]. apply K4. by left. }
  wp_step. wp_apply (write_candidates_spec dir toml files w3 Hw3).
  2: { intros e w4 A4. split; [apply A4|by apply K04]. }
  intros u4 w4 [A4 O4]. pose proof (K04 w4 A4) as K4. destruct A4 as [Hw4 _].
  assert (∀ w', same_fs w4 w' → wf w' ∧ ∀ q, ¬ under dir q → keeps q w w') as Hout4.
  { intros w' S. split; [by rewrite <-S|]. intros q Hq. eapply keeps_same; [|exact S]. by apply K4. }
  wp_step. wp_reader (open_path_reader dir true) as f w5 S5 _; [|by apply Hout4].
  wp_step. wp_reader reader_sync as u6 w6 S6 _; [|apply Hout4; by chain].
  destruct (Hout4 w6 ltac:(by chain)) as [Hw6 K6]. split_and!; [done..|]. exists files. split; [done|].
  intros g Hg. eapply keeps_holds; [|by apply O4]. apply same_fs_keeps; [done|by chain].
Qed.
End template_facts.

(** Two inventories with the same fingerprint are the same
    files (paths, contents, modes and order), or exhibit a collision of SHA-256:
    the hashed encoding is unambiguous. *)
Theorem template_fingerprint_unambiguous `{Sha2} `{!Sha2Laws} fs gs :
  Forall tfile_ok fs → Forall tfile_ok gs → hash_inventory fs = hash_inventory gs →
  fs = gs ∨ ∃ x y, x ≠ y ∧ sha2 x = sha2 y.
Proof.
  intros Hf Hg E. unfold hash_inventory, digest in E. apply to_hex_inj in E; [|apply sha2_size..].
  destruct (decide (concat (file_encoding <$> fs) = concat (file_encoding <$> gs))) as [Ee|Hne].
  - left. by apply encoding_inj.
  - right. eauto.
Qed.
