(* ===== verification/Sockets.v ===== *)
(** * Local sockets in the file system

    [UnixListener::bind] and the permissions of a path, as the three services
    with a local socket use them, and what each leaves of other files. *)

From S2P Require Import Prelude RustStr Posix PrivateStore Template.

(** The world after a socket was bound to [p]. *)
Definition socket_mode (umask : Z) : Z := Z.land 511 (* 0o777 *) (Z.lnot umask).
Definition socket_at (p : string) (mode : Z) (w : world) : world :=
  set_next_ino (w_next_ino w + 1)
    (set_names (<[p := w_next_ino w]>)
      (set_inodes (<[w_next_ino w := mk_inode Socket mode (w_euid w) []]>) w)).
(** [UnixListener::bind] of a path as written, which names [p]: at most 107 bytes
    ([sun_path]), none of them zero, and a name that is free; when listening fails
    afterwards the name stays. *)
Definition bindable (path p : string) (w : world) : bool :=
  (str_len path <? 108) && negb (contains_byte 0 path) && bool_decide (w_names w !! p = None).
Definition sys_bind (umask : Z) (path p : string) : Sys unit :=
  syscall (λ k w, if (k =? 0)%nat || negb (bindable path p w) then w else socket_at p (socket_mode umask) w)
    (λ w, if bindable path p w then (Ok tt, socket_at p (socket_mode umask) w) else (Err OtherIo, w)).

(** A new listener with the permissions [mode]. *)
Definition bind_socket (bind_error mode_error : string) (umask : Z) (path p : string) (mode : Z) :
    M world string unit :=
  _ ← map_err (λ _, bind_error) (sys_bind umask path p);
  map_err (λ _, mode_error) (sys_chmod p mode).

(** * Facts *)

(** [p] is a socket of the process' user, with the permissions [mode]. *)
Definition listening (w : world) (p : string) (mode : Z) : Prop :=
  ∃ i, w_names w !! p = Some i ∧ w_inodes w !! i = Some (mk_inode Socket mode (w_euid w) []).
(** Every other file is kept. *)
Definition others_kept (p : string) (w w' : world) : Prop := wf w' ∧ ∀ q, q ≠ p → keeps q w w'.

Lemma others_kept_same p w w' : wf w → same_fs w w' → others_kept p w w'.
Proof. intros Hwf S. split; [by rewrite <-S|]. intros. by apply same_fs_keeps. Qed.
Lemma others_kept_trans p a b c : others_kept p a b → others_kept p b c → others_kept p a c.
Proof. intros [_ K] [W L]. split; [done|]. intros q Hq. eapply keeps_trans; [by apply K|by apply L]. Qed.
Lemma socket_at_kept p mode w : wf w → others_kept p w (socket_at p mode w).
Proof.
  intros Hwf. split.
  - intros q i. simpl. rewrite lookup_insert. case_decide; intros; simplify_eq; [lia|].
    assert (i < w_next_ino w) by eauto. lia.
  - intros q Hq. by apply keeps_alloc.
Qed.

Lemma wp_bind_path umask path p w : wf w →
  wp (sys_bind umask path p)
    (λ _ w', w_names w !! p = None ∧ listening w' p (socket_mode umask) ∧ others_kept p w w')
    (λ _ w', others_kept p w w' ∧ (is_Some (w_names w !! p) → same_fs w w')) w.
Proof.
  intros Hwf. assert (∀ fs, others_kept p w (set_faults fs w)) as Hs.
  { intros fs. apply others_kept_same; [done|apply same_fs_faults]. }
  apply wp_syscall; intros; unfold bindable;
    change (w_names (set_faults fs w)) with (w_names w).
  - destruct (k =? 0)%nat; simpl; [split; [apply Hs|intros; apply same_fs_faults]|].
    destruct (bool_decide_reflect (w_names w !! p = None)) as [Hn|Hn]; simpl.
    + rewrite andb_true_r. destruct (negb _); [split; [apply Hs|intros; apply same_fs_faults]|].
      split; [|intros [? ?]; congruence].
      eapply others_kept_trans; [apply Hs|]. by apply socket_at_kept.
    + rewrite andb_false_r. split; [apply Hs|intros; apply same_fs_faults].
  - apply run_wp. unfold bindable. change (w_names (set_faults fs w)) with (w_names w).
    destruct (_ && _) eqn:Hb; simpl; [|split; [apply Hs|intros; apply same_fs_faults]].
    reflect. split_and!; [done| |].
    + exists (w_next_ino w). simpl. by rewrite !lookup_insert_eq.
    + eapply others_kept_trans; [apply Hs|]. by apply socket_at_kept.
Qed.

Lemma wp_bind_socket e1 e2 umask path p mode w : wf w →
  wp (bind_socket e1 e2 umask path p mode)
    (λ _ w', w_names w !! p = None ∧ listening w' p mode ∧ others_kept p w w')
    (λ _ w', others_kept p w w' ∧ (is_Some (w_names w !! p) → same_fs w w')) w.
Proof.
  intros Hwf. unfold bind_socket. wp_step. apply wp_map_err.
  eapply wp_mono; [by apply wp_bind_path| |done]. intros _ w1 (Hn & (i & Hp & Hi) & [W1 K1]).
  apply wp_map_err. apply wp_simple; intros fs.
  { split; [|intros [? ?]; congruence]. eapply others_kept_trans; [by split|].
    apply others_kept_same; [done|apply same_fs_faults]. }
  apply run_wp. change (w_names (set_faults fs w1)) with (w_names w1). rewrite Hp. split_and!; [done| |].
  - exists i. split; [done|]. simpl. by rewrite lookup_alter_eq, Hi.
  - split; [done|]. intros q Hq. eapply keeps_trans; [by apply K1|].
    eapply keeps_trans; [by apply same_fs_keeps, (same_fs_faults fs)|]. by apply (keeps_inode q p).
Qed.
