(* ===== verification/ControlData.v ===== *)
(** * The control plane's data: [crates/tentaflake-control/src/lib.rs], [json.rs]

    Configuration, requests, receipts and their validation, the JSON documents
    built from them, duplicate-free JSON input, and the structural [diff].  The
    text formats (JSON tokens, the persisted receipts, the deployment file,
    TOML) are the class [ControlCrates]. *)

From stdpp Require Import sorting.
From S2P Require Import Prelude RustStr Json PrivateStore Template.

(** ** Records *)

Record Hashes : Type := mkHashes { h_policy : string; h_compiler : string; h_inputs : string }.
#[export] Instance Hashes_eq_dec : EqDecision Hashes.
Proof. solve_decision. Defined.

Inductive Role : Type := RRead | RPropose | RApprove | RBuild.
#[export] Instance Role_eq_dec : EqDecision Role.
Proof. solve_decision. Defined.
Record Peer : Type := mkPeer { peer_id : Z; peer_roles : list Role }.
Inductive MinimumProfile : Type := Balanced | Strict.

Record ControlConfig : Type := mkControl {
  c_source : string;
  c_normalizer : string;
  c_schema : string;
  c_state : string;
  c_socket : string;
  c_server_uid : Z;
  c_peers : list Peer;
  c_hashes : Hashes;
  c_minimum_profile : MinimumProfile;
  c_builder : option Builder;
}.

Record DraftRequest : Type := mkDraft {
  dr_request_id : string; dr_base_revision : string; dr_configuration : value }.
Record ApproveRequest : Type := mkApprove {
  ar_request_id : string; ar_base_revision : string; ar_revision : string; ar_hashes : Hashes }.
Record BuildRequest : Type := mkBuildRequest {
  br_request_id : string; br_proposal_id : string; br_approval_id : string;
  br_revision : string; br_hashes : Hashes }.

Record Proposal : Type := mkProposal {
  pr_id : string; pr_base_revision : string; pr_revision : string; pr_configuration : value;
  pr_changes : list value; pr_hashes : Hashes; pr_state : string }.
Record Candidate : Type := mkCandidate {
  cd_proposal : Proposal; cd_base_configuration : value; cd_toml : string }.
Record Approval : Type := mkApproval {
  ap_id : string; ap_proposal_id : string; ap_base_revision : string; ap_revision : string;
  ap_hashes : Hashes }.
Record Build : Type := mkBuild {
  bu_id : string; bu_proposal_id : string; bu_revision : string; bu_state : string;
  bu_output_path : option string; bu_error : option string }.
Record Intent : Type := mkIntent { in_build : Build; in_approval_id : string; in_hashes : Hashes }.
Record RequestRecord : Type := mkRecord { rr_fingerprint : string; rr_kind : string; rr_id : string }.

Record State : Type := mkState {
  st_schema_version : Z;
  st_proposals : gmap string Candidate;
  st_approvals : gmap string Approval;
  st_builds : gmap string Intent;
  st_requests : gmap string RequestRecord;
}.
Definition State_default : State := mkState 1 ∅ ∅ ∅ ∅.

Definition set_proposals f (s : State) : State :=
  mkState (st_schema_version s) (f (st_proposals s)) (st_approvals s) (st_builds s) (st_requests s).
Definition set_approvals f (s : State) : State :=
  mkState (st_schema_version s) (st_proposals s) (f (st_approvals s)) (st_builds s) (st_requests s).
Definition set_builds f (s : State) : State :=
  mkState (st_schema_version s) (st_proposals s) (st_approvals s) (f (st_builds s)) (st_requests s).
Definition set_requests f (s : State) : State :=
  mkState (st_schema_version s) (st_proposals s) (st_approvals s) (st_builds s) (f (st_requests s)).

(** The values of a [BTreeMap], in key order. *)
Definition key_le {A} (x y : string * A) : Prop := name_le (fst x) (fst y).
#[export] Instance key_le_dec {A} (x y : string * A) : Decision (key_le x y).
Proof. unfold key_le. apply _. Defined.
Definition values {A} (m : gmap string A) : list A := snd <$> merge_sort key_le (map_to_list m).
Definition map_forallb {A} (f : string → A → bool) (m : gmap string A) : bool :=
  forallb (λ '(k, a), f k a) (map_to_list m).

(** ** Equality of values *)

(** [f64 ==] on the payload of finite floats: the two zeros are equal. *)
Definition is_zero_bits (x : Z) : bool := (x =? 0) || (x =? 2 ^ 63).
Definition number_eqb (a b : number) : bool :=
  match a, b with
  | PosInt x, PosInt y | NegInt x, NegInt y => x =? y
  | Float x, Float y => (x =? y) || (is_zero_bits x && is_zero_bits y)
  | _, _ => false
  end.
Fixpoint list_eqb {A} (fs : list (A → bool)) (l : list A) : bool :=
  match fs, l with
  | [], [] => true
  | f :: fs, x :: l => f x && list_eqb fs l
  | _, _ => false
  end.
(** [Value ==]. *)
Fixpoint value_eqb (a : value) : value → bool := λ b,
  match a, b with
  | Null, Null => true
  | Bool x, Bool y => Bool.eqb x y
  | Number x, Number y => number_eqb x y
  | Str x, Str y => (x =? y)%string
  | Array l, Array m => list_eqb (map value_eqb l) m
  | Object l, Object m =>
      list_eqb (map (λ kv, λ kw : string * value, (fst kv =? fst kw)%string && value_eqb (snd kv) (snd kw)) l) m
  | _, _ => false
  end.

(** ** [diff] *)

(** [str::replace] of one character. *)
Fixpoint replace_char (c : ascii) (r s : string) : string :=
  match s with
  | EmptyString => EmptyString
  | String x s => if (x =? c)%char then (r ++ replace_char c r s)%string
                  else String x (replace_char c r s)
  end.
Definition escape (key : string) : string := replace_char "/" "~1" (replace_char "~" "~0" key).
Definition change (path kind : string) : value := json_obj [("path"%string, Str path); ("kind"%string, Str kind)].

(** A [BTreeSet] of keys, in order. *)
Fixpoint set_insert (k : string) (l : list string) : list string :=
  match l with
  | [] => [k]
  | k' :: l' => if (k =? k')%string then l else if (k <? k')%string then k :: l else k' :: set_insert k l'
  end.
Definition key_set (l : list string) : list string := foldl (λ s k, set_insert k s) [] l.

Fixpoint assoc {A} (k : string) (m : list (string * A)) : option A :=
  match m with
  | [] => None
  | (k', v) :: m => if (k =? k')%string then Some v else assoc k m
  end.
(** One key or index: the value before is represented by its comparison. *)
Definition diff_at (p : string) (a : option (value → string → list value)) (b : option value) :
    list value :=
  match a, b with
  | Some d, Some v => d v p
  | None, Some _ => [change p "added"]
  | Some _, None => [change p "removed"]
  | None, None => []
  end.
Fixpoint diff (before : value) : value → string → list value := λ after path,
  if value_eqb before after then []
  else match before, after with
  | Object a, Object b =>
      let comparisons := map (λ kv, (fst kv, diff (snd kv))) a in
      concat ((λ key, diff_at (path ++ "/" ++ escape key)%string (assoc key comparisons) (obj_get key b))
        <$> key_set (obj_keys a ++ obj_keys b))
  | Array a, Array b =>
      let comparisons := map diff a in
      concat ((λ i : nat, diff_at (path ++ "/" ++ pretty (N.of_nat i))%string (comparisons !! i) (b !! i))
        <$> seq 0 (Nat.max (length a) (length b)))
  | _, _ => [change path "changed"]
  end.

(** ** JSON without duplicate keys *)

(** What the tokenizer delivers to a visitor: entries in document order. *)
Inductive raw : Type :=
| RNull
| RBool (b : bool)
| RNumber (n : number)
| RStr (s : string)
| RSeq (l : list raw)
| RMap (m : list (string * raw)).

(** [visit_map]: refuse a key already present. *)
Fixpoint unique_entries (l : list (string * option value)) (result : object) : option object :=
  match l with
  | [] => Some result
  | (k, v) :: l =>
      if obj_contains k result then None
      else match v with Some v => unique_entries l (obj_insert k v result) | None => None end
  end.
Fixpoint sequence {A} (l : list (option A)) : option (list A) :=
  match l with
  | [] => Some []
  | None :: _ => None
  | Some x :: l => match sequence l with Some l => Some (x :: l) | None => None end
  end.
(** [UniqueValue]. *)
Fixpoint unique (r : raw) : option value :=
  match r with
  | RNull => Some Null
  | RBool b => Some (Bool b)
  | RNumber n => Some (Number n)
  | RStr s => Some (Str s)
  | RSeq l => Array <$> sequence (map unique l)
  | RMap m => Object <$> unique_entries (map (λ kv, (fst kv, unique (snd kv))) m) []
  end.

(** ** Derived decoders of the requests *)

(** A derived struct with [deny_unknown_fields]: an object with exactly these
    keys, or an array with one element per field. *)
Definition struct_fields (names : list string) (v : value) : option (list value) :=
  match v with
  | Object m => if forallb (λ k, str_in k names) (obj_keys m) then mapM (λ n, obj_get n m) names else None
  | Array l => if (length l =? length names)%nat then Some l else None
  | _ => None
  end.
Definition decode_hashes (v : value) : option Hashes :=
  fields ← struct_fields ["policy"%string; "compiler"%string; "inputs"%string] v;
  match fields with
  | [Str p; Str c; Str i] => Some (mkHashes p c i)
  | _ => None
  end.
Definition decode_draft (v : value) : option DraftRequest :=
  fields ← struct_fields ["request_id"%string; "base_revision"%string; "configuration"%string] v;
  match fields with
  | [Str i; Str b; c] => Some (mkDraft i b c)
  | _ => None
  end.
Definition decode_approve (v : value) : option ApproveRequest :=
  fields ← struct_fields ["request_id"%string; "base_revision"%string; "revision"%string; "hashes"%string] v;
  match fields with
  | [Str i; Str b; Str r; h] => h ← decode_hashes h; Some (mkApprove i b r h)
  | _ => None
  end.
Definition decode_build (v : value) : option BuildRequest :=
  fields ← struct_fields
    ["request_id"%string; "proposal_id"%string; "approval_id"%string; "revision"%string; "hashes"%string] v;
  match fields with
  | [Str i; Str p; Str a; Str r; h] => h ← decode_hashes h; Some (mkBuildRequest i p a r h)
  | _ => None
  end.

(** ** Derived encoders *)

Definition opt_str (o : option string) : value := match o with Some s => Str s | None => Null end.
Definition hashes_value (h : Hashes) : value :=
  json_obj [("policy"%string, Str (h_policy h)); ("compiler"%string, Str (h_compiler h));
            ("inputs"%string, Str (h_inputs h))].
Definition role_name (r : Role) : string :=
  match r with RRead => "read" | RPropose => "propose" | RApprove => "approve" | RBuild => "build" end.
Definition peer_value (p : Peer) : value :=
  json_obj [("uid"%string, num (peer_id p));
            ("roles"%string, Array ((Str ∘ role_name) <$> peer_roles p))].
Definition profile_name (m : MinimumProfile) : string :=
  match m with Balanced => "balanced" | Strict => "strict" end.
Definition builder_value (b : Builder) : value :=
  json_obj [("template"%string, Str (b_template b)); ("template_hash"%string, Str (b_template_hash b));
            ("nix"%string, Str (b_nix b)); ("target"%string, Str (b_target b));
            ("deadline_seconds"%string, num (b_deadline_seconds b))].
Definition draft_value (r : DraftRequest) : value :=
  json_obj [("request_id"%string, Str (dr_request_id r)); ("base_revision"%string, Str (dr_base_revision r));
            ("configuration"%string, dr_configuration r)].
Definition approve_value (r : ApproveRequest) : value :=
  json_obj [("request_id"%string, Str (ar_request_id r)); ("base_revision"%string, Str (ar_base_revision r));
            ("revision"%string, Str (ar_revision r)); ("hashes"%string, hashes_value (ar_hashes r))].
Definition build_request_value (r : BuildRequest) : value :=
  json_obj [("request_id"%string, Str (br_request_id r)); ("proposal_id"%string, Str (br_proposal_id r));
            ("approval_id"%string, Str (br_approval_id r)); ("revision"%string, Str (br_revision r));
            ("hashes"%string, hashes_value (br_hashes r))].
Definition proposal_value (p : Proposal) : value :=
  json_obj [("id"%string, Str (pr_id p)); ("base_revision"%string, Str (pr_base_revision p));
            ("revision"%string, Str (pr_revision p)); ("configuration"%string, pr_configuration p);
            ("changes"%string, Array (pr_changes p)); ("hashes"%string, hashes_value (pr_hashes p));
            ("state"%string, Str (pr_state p))].
Definition approval_value (a : Approval) : value :=
  json_obj [("id"%string, Str (ap_id a)); ("proposal_id"%string, Str (ap_proposal_id a));
            ("base_revision"%string, Str (ap_base_revision a)); ("revision"%string, Str (ap_revision a));
            ("hashes"%string, hashes_value (ap_hashes a))].
Definition build_value (b : Build) : value :=
  json_obj [("id"%string, Str (bu_id b)); ("proposal_id"%string, Str (bu_proposal_id b));
            ("revision"%string, Str (bu_revision b)); ("state"%string, Str (bu_state b));
            ("output_path"%string, opt_str (bu_output_path b)); ("error"%string, opt_str (bu_error b))].

(** ** The crates *)

Class ControlCrates : Type := {
  parse_raw : bytes → option raw;                 (* serde_json's tokenizer *)
  config_from_slice : bytes → option ControlConfig;  (* derived [Deserialize] *)
  state_to_vec : State → option bytes;            (* [serde_json::to_vec(&State)] *)
  state_from_slice : bytes → option State;
  to_document : value → option string;            (* [toml_edit::ser::to_document(..)?.to_string()] *)
  toml_from_str : string → option value;          (* [toml_edit::de::from_str::<Value>] *)
}.

Section receipts.
Context `{Sha2} `{SerdeJson} `{ControlCrates}.

Definition revision (v : value) : string := digest (to_vec v).

(** ** [State::validate] *)

Definition receipts_invalid : string := "invalid persisted receipts; refusing reset".
Definition hashes_ok (h : Hashes) : bool :=
  is_hash (h_policy h) && is_hash (h_compiler h) && is_hash (h_inputs h).
Definition candidate_ok (id : string) (c : Candidate) : bool :=
  let p := cd_proposal c in
  is_some_and (λ parsed, value_eqb parsed (pr_configuration p)) (toml_from_str (cd_toml c))
  && identifier id && (id =? pr_id p)%string && (pr_state p =? "draft")%string
  && (revision (pr_configuration p) =? pr_revision p)%string
  && (revision (cd_base_configuration c) =? pr_base_revision p)%string
  && list_eqb (value_eqb <$> diff (cd_base_configuration c) (pr_configuration p) "") (pr_changes p)
  && hashes_ok (pr_hashes p).
Definition approval_ok (s : State) (id : string) (a : Approval) : bool :=
  is_some_and (λ c, let p := cd_proposal c in
    identifier id && (id =? ap_id a)%string && (ap_base_revision a =? pr_base_revision p)%string
    && (ap_revision a =? pr_revision p)%string && bool_decide (ap_hashes a = pr_hashes p))
    (st_proposals s !! ap_proposal_id a).
Definition BUILD_STATES : list string :=
  ["queued"%string; "building"%string; "built"%string; "failed"%string; "unknown"%string].
Definition intent_ok (s : State) (id : string) (i : Intent) : bool :=
  let b := in_build i in
  is_some_and (λ a,
    identifier id && (id =? bu_id b)%string && (ap_proposal_id a =? bu_proposal_id b)%string
    && (ap_revision a =? bu_revision b)%string && bool_decide (ap_hashes a = in_hashes i)
    && str_in (bu_state b) BUILD_STATES
    && (negb (bu_state b =? "built")%string || is_some_and output_path (bu_output_path b))
    && ((bu_state b =? "built")%string || is_none (bu_output_path b)))
    (st_approvals s !! in_approval_id i).
Definition request_ok (s : State) (id : string) (r : RequestRecord) : bool :=
  identifier id && (str_len id <=? 64) && is_hash (rr_fingerprint r)
  && (if (rr_kind r =? "proposal")%string then is_some (st_proposals s !! rr_id r)
      else if (rr_kind r =? "approval")%string then is_some (st_approvals s !! rr_id r)
      else if (rr_kind r =? "build")%string then is_some (st_builds s !! rr_id r)
      else false).
Definition map_len {A} (m : gmap string A) : Z := Z.of_nat (size m).
Definition State_validate (s : State) : result string unit :=
  _ ← bail_if (negb (st_schema_version s =? 1) || (64 <? map_len (st_proposals s))
               || (1024 <? map_len (st_requests s)) || (1024 <? map_len (st_approvals s))
               || (1024 <? map_len (st_builds s))) receipts_invalid;
  _ ← bail_if (negb (map_forallb candidate_ok (st_proposals s))) receipts_invalid;
  _ ← bail_if (negb (map_forallb (approval_ok s) (st_approvals s))) receipts_invalid;
  _ ← bail_if (negb (map_forallb (intent_ok s) (st_builds s))) receipts_invalid;
  bail_if (negb (map_forallb (request_ok s) (st_requests s))) receipts_invalid.
End receipts.

(** ** API errors *)

Record ApiError : Type := mkApiError { ae_status : Z; ae_code : string }.
Definition unavailable {A} (_ : A) : ApiError := mkApiError 503 "unavailable".
Definition conflict : ApiError := mkApiError 409 "revision_or_request_conflict".
Definition invalid : ApiError := mkApiError 400 "invalid_request".

(** [decode::<T>]: bounded, duplicate-free, then the derived decoder. *)
Definition decode `{ControlCrates} {T} (decoder : value → option T) (b : bytes) : result ApiError T :=
  _ ← bail_if (MAX_DOCUMENT <? blen b) (mkApiError 413 "request_too_large");
  v ← ok_or invalid (parse_raw b ≫= unique);
  ok_or invalid (decoder v).

(** * Facts *)

(** ** Values *)

Section value_induction.
Context (P : value → Prop).
Context (PNull : P Null) (PBool : ∀ b, P (Bool b)) (PNumber : ∀ n, P (Number n)) (PStr : ∀ s, P (Str s)).
Context (PArray : ∀ l, Forall P l → P (Array l)).
Context (PObject : ∀ m, Forall (λ kv, P (snd kv)) m → P (Object m)).
Fixpoint value_rect' (v : value) : P v :=
  match v with
  | Null => PNull
  | Bool b => PBool b
  | Number n => PNumber n
  | Str s => PStr s
  | Array l => PArray l
      ((fix go (l : list value) : Forall P l :=
          match l with [] => Forall_nil_2 _ | x :: l => Forall_cons_2 _ _ _ (value_rect' x) (go l) end) l)
  | Object m => PObject m
      ((fix go (m : object) : Forall (λ kv, P (snd kv)) m :=
          match m with [] => Forall_nil_2 _ | x :: m => Forall_cons_2 _ _ _ (value_rect' (snd x)) (go m) end) m)
  end.
End value_induction.

Lemma list_eqb_Forall2 {A B} (f : A → B → bool) l : ∀ m,
  list_eqb (map f l) m = true ↔ Forall2 (λ a b, f a b = true) l m.
Proof.
  induction l as [|x l IH]; intros [|y m]; simpl.
  - split; [constructor|done].
  - split; [done|inversion 1].
  - split; [done|inversion 1].
  - rewrite andb_true_iff, IH, Forall2_cons. done.
Qed.
Lemma number_eqb_refl n : number_eqb n n = true.
Proof. destruct n; simpl; by rewrite Z.eqb_refl. Qed.
Lemma number_eqb_sym a b : number_eqb a b = number_eqb b a.
Proof. destruct a as [x|x|x], b as [y|y|y]; simpl; try done; rewrite (Z.eqb_sym x y); try done. by rewrite andb_comm. Qed.
Lemma number_eqb_trans a b c : number_eqb a b = true → number_eqb b c = true → number_eqb a c = true.
Proof.
  destruct a, b, c; simpl; try done; rewrite ?orb_true_iff, ?andb_true_iff, ?Z.eqb_eq; try congruence.
  intros [->|[? ?]] [->|[? ?]]; auto.
Qed.

Lemma value_eqb_refl v : value_eqb v v = true.
Proof.
  induction v as [|b|n|s|l IH|m IH] using value_rect'; simpl; try done.
  - by destruct b.
  - apply number_eqb_refl.
  - apply String.eqb_refl.
  - apply list_eqb_Forall2. induction IH; by constructor.
  - apply list_eqb_Forall2. induction IH; constructor; [|done]. by rewrite String.eqb_refl.
Qed.
Lemma value_eqb_sym a : ∀ b, value_eqb a b = true → value_eqb b a = true.
Proof.
  induction a as [|b|n|s|l IH|m IH] using value_rect'; intros []; simpl; try done.
  - by destruct b, b0.
  - by rewrite number_eqb_sym.
  - by rewrite String.eqb_sym.
  - rewrite !list_eqb_Forall2. revert l0. induction IH; intros ? HF; inversion_clear HF; constructor; eauto.
  - rewrite !list_eqb_Forall2. revert m0. induction IH as [|x l Hx _ IH]; intros ? HF; inversion_clear HF; constructor; eauto.
    rewrite andb_true_iff in *. rewrite String.eqb_sym. naive_solver.
Qed.
Lemma value_eqb_trans a : ∀ b c, value_eqb a b = true → value_eqb b c = true → value_eqb a c = true.
Proof.
  induction a as [|b|n|s|l IH|m IH] using value_rect'; intros b' c'; destruct b', c'; simpl; try done.
  - by destruct b, b0, b1.
  - apply number_eqb_trans.
  - rewrite !String.eqb_eq. congruence.
  - rewrite !list_eqb_Forall2. revert l0 l1.
    induction IH; intros l0 l1 HF HG; inversion HF; subst; inversion HG; subst; constructor; eauto.
  - rewrite !list_eqb_Forall2. revert m0 m1.
    induction IH; intros l0 l1 HF HG; inversion HF; subst; inversion HG; subst; constructor; eauto.
    rewrite andb_true_iff, !String.eqb_eq in *. naive_solver congruence.
Qed.
#[export] Instance value_equiv : Equiv value := λ a b, value_eqb a b = true.
#[export] Instance value_equivalence : Equivalence (≡@{value}).
Proof.
  split; unfold equiv, value_equiv.
  - intros v. apply value_eqb_refl.
  - intros a b. apply value_eqb_sym.
  - intros a b c. apply value_eqb_trans.
Qed.

(** ** [diff] is empty exactly on equal documents *)

(** Objects are [BTreeMap]s: keys strictly increasing, at every level. *)
Fixpoint increasing (l : list string) : bool :=
  match l with [] => true | k :: l => forallb (λ k', (k <? k')%string) l && increasing l end.
Fixpoint well_keyed (v : value) : bool :=
  match v with
  | Array l => forallb well_keyed l
  | Object m => increasing (obj_keys m) && forallb (λ kv, well_keyed (snd kv)) m
  | _ => true
  end.

Lemma ltb_irrefl k : (k <? k)%string = false.
Proof. unfold String.ltb. pose proof (String.compare_antisym k k). by destruct (String.compare k k). Qed.
Lemma ltb_asym k k' : (k <? k')%string = true → (k' <? k)%string = false.
Proof. unfold String.ltb. rewrite (String.compare_antisym k k'). by destruct (String.compare k' k). Qed.

Lemma set_insert_elem k l x : x ∈ set_insert k l ↔ x = k ∨ x ∈ l.
Proof.
  induction l as [|k' l IH]; simpl; [set_solver|].
  destruct (k =? k')%string eqn:E; [apply String.eqb_eq in E as ->; set_solver|].
  destruct (k <? k')%string; set_solver.
Qed.
Lemma key_set_elem l x : x ∈ key_set l ↔ x ∈ l.
Proof.
  unfold key_set. enough (∀ s, x ∈ foldl (λ s k, set_insert k s) s l ↔ x ∈ s ∨ x ∈ l) as Hs.
  { rewrite Hs. set_solver. }
  induction l as [|k l IH]; intros s; simpl; [set_solver|]. rewrite IH, set_insert_elem. set_solver.
Qed.
Lemma assoc_map {A} (f : value → A) k (m : object) :
  assoc k (map (λ kv, (fst kv, f (snd kv))) m) = f <$> obj_get k m.
Proof. induction m as [|[k' v] m IH]; simpl; [done|]. by destruct (k =? k')%string. Qed.
Lemma obj_get_keys k m : k ∈ obj_keys m ↔ is_Some (obj_get k m).
Proof.
  split; [|intros [v Hv]; by eapply obj_get_elem].
  induction m as [|[k' v] m IH]; simpl; [by intros ?%elem_of_nil|]. intros Hk.
  destruct (k =? k')%string eqn:E; [by eexists|]. apply String.eqb_neq in E.
  apply elem_of_cons in Hk as [?|?]; [done|auto].
Qed.
Lemma obj_get_above k m : forallb (λ k', (k <? k')%string) (obj_keys m) = true → obj_get k m = None.
Proof.
  intros Hf. apply eq_None_not_Some. intros Hk%obj_get_keys. rewrite forallb_elem in Hf.
  specialize (Hf _ Hk). by rewrite ltb_irrefl in Hf.
Qed.

(** Increasing association lists with the same lookups are the same lists. *)
Lemma increasing_Forall2 (R : value → value → bool) a : ∀ b,
  increasing (obj_keys a) = true → increasing (obj_keys b) = true →
  (∀ k, option_Forall2 (λ x y, R x y = true) (obj_get k a) (obj_get k b)) →
  Forall2 (λ x y, (fst x =? fst y)%string && R (snd x) (snd y) = true) a b.
Proof.
  induction a as [|[k v] a IH]; intros [|[k' v'] b] Ha Hb HR; [constructor|..].
  - specialize (HR k'). simpl in HR. rewrite String.eqb_refl in HR. inversion HR.
  - specialize (HR k). simpl in HR. rewrite String.eqb_refl in HR. inversion HR.
  - simpl in Ha, Hb. apply andb_true_iff in Ha as [Ha1 Ha2], Hb as [Hb1 Hb2].
    assert (k = k') as <-.
    { destruct (decide (k = k')) as [|Hne]; [done|exfalso]. apply String.eqb_neq in Hne as E.
      pose proof (HR k) as Hk. pose proof (HR k') as Hk'. simpl in Hk, Hk'.
      rewrite String.eqb_refl in Hk, Hk'. rewrite String.eqb_sym in Hk'. rewrite E in Hk, Hk'.
      destruct (obj_get k b) eqn:Hy; [|inversion Hk]. destruct (obj_get k' a) eqn:Hx; [|inversion Hk'].
      apply obj_get_elem in Hy, Hx.
      rewrite forallb_elem in Ha1, Hb1. apply Ha1, ltb_asym in Hx. rewrite Hb1 in Hx; done. }
    constructor.
    + simpl. rewrite String.eqb_refl. specialize (HR k). simpl in HR. rewrite String.eqb_refl in HR.
      by inversion HR.
    + apply IH; try done. intros j. destruct (decide (j = k)) as [->|Hj].
      * rewrite (obj_get_above k a), (obj_get_above k b) by done. constructor.
      * specialize (HR j). simpl in HR. apply String.eqb_neq in Hj. by rewrite Hj in HR.
Qed.

Lemma concat_nil_elem {A B} (f : A → list B) l : concat (f <$> l) = [] → ∀ x, x ∈ l → f x = [].
Proof.
  induction l as [|y l IH]; simpl; [set_solver|]. intros [? ?]%app_nil x [->|?]%elem_of_cons; auto.
Qed.
Lemma diff_at_nil p a b : diff_at p a b = [] →
  (a = None ∧ b = None) ∨ ∃ d v, a = Some d ∧ b = Some v ∧ d v p = [].
Proof. destruct a, b; simpl; try done; naive_solver. Qed.

Lemma diff_nil_equal a : ∀ b p, well_keyed a = true → well_keyed b = true →
  diff a b p = [] → value_eqb a b = true.
Proof.
  induction a as [|x|x|x|l IH|m IH] using value_rect'; intros b p Ha Hb; cbn [diff];
    destruct (value_eqb _ b) eqn:E; try done; destruct b as [|?|?|?|l'|m']; try done; intros Hd;
    rewrite <-E; cbn [value_eqb]; apply list_eqb_Forall2;
    pose proof (concat_nil_elem _ _ Hd) as Hn; clear Hd; cbn beta in Hn.
  - cbn [well_keyed] in Ha, Hb. rewrite forallb_elem in Ha, Hb.
    assert (∀ i, (i < Nat.max (length l) (length l'))%nat →
      ∃ x y, l !! i = Some x ∧ l' !! i = Some y ∧ value_eqb x y = true) as Hi.
    { intros i Hi. assert (i ∈ seq 0 (Nat.max (length l) (length l'))) as Hs
        by (apply elem_of_seq; lia).
      apply Hn, diff_at_nil in Hs as [[H1 H2]|(d & v & H1 & H2 & H3)].
      - apply lookup_ge_None in H1, H2. rewrite length_map in H1. lia.
      - change (map diff l) with (diff <$> l) in H1.
        apply list_lookup_fmap_Some in H1 as (x & -> & Hx). exists x, v. split_and!; [done..|].
        rewrite Forall_forall in IH. apply list_elem_of_lookup_2 in Hx, H2.
        by eapply (IH x Hx v); [apply Ha|apply Hb|]. }
    apply Forall2_same_length_lookup. split.
    + destruct (Nat.lt_total (length l) (length l')) as [?|[?|?]]; [exfalso|done|exfalso].
      * destruct (Hi (length l)) as (x & y & Hx & _); [lia|]. apply lookup_lt_Some in Hx. lia.
      * destruct (Hi (length l')) as (x & y & _ & Hx & _); [lia|]. apply lookup_lt_Some in Hx. lia.
    + intros i x y Hx Hy. destruct (Hi i) as (? & ? & ? & ? & ?); [|by simplify_eq].
      apply lookup_lt_Some in Hx. lia.
  - cbn [well_keyed] in Ha, Hb. apply andb_true_iff in Ha as [Ha1 Ha2], Hb as [Hb1 Hb2].
    rewrite forallb_elem in Ha2, Hb2. rewrite Forall_forall in IH.
    assert (∀ (m : object) k v, obj_get k m = Some v → ∃ k', (k', v) ∈ m) as Hget.
    { clear. induction m as [|[k' v'] m IH]; simpl; [done|]. intros k v.
      destruct (k =? k')%string; [intros [= <-]; exists k'; set_solver|].
      intros (k'' & ?)%IH. exists k''. set_solver. }
    apply (increasing_Forall2 value_eqb); try done. intros k.
    destruct (decide (k ∈ obj_keys m ++ obj_keys m')) as [Hk|Hk].
    + assert (k ∈ key_set (obj_keys m ++ obj_keys m')) as Hs by by apply key_set_elem.
      apply Hn in Hs. rewrite assoc_map in Hs. apply diff_at_nil in Hs as [[H1 H2]|(d & v & H1 & H2 & H3)].
      * rewrite fmap_None in H1. rewrite H1, H2. constructor.
      * apply fmap_Some in H1 as (x & Hx & ->). rewrite Hx, H2. constructor.
        destruct (Hget _ _ _ Hx) as (k1 & Hk1), (Hget _ _ _ H2) as (k2 & Hk2).
        eapply (IH _ Hk1); [apply (Ha2 _ Hk1)|apply (Hb2 _ Hk2)|done].
    + rewrite not_elem_of_app, !obj_get_keys, <-!eq_None_not_Some in Hk. destruct Hk as [-> ->]. constructor.
Qed.

(** The change list of a proposal is empty exactly when the proposed
    configuration equals the current one. *)
Theorem diff_empty_iff_equal a b p : well_keyed a = true → well_keyed b = true →
  diff a b p = [] ↔ value_eqb a b = true.
Proof.
  intros Ha Hb. split; [by apply diff_nil_equal|]. intros E. destruct a; cbn [diff]; by rewrite E.
Qed.
