(* ===== verification/Engine.v ===== *)
(** * The control engine: [crates/tentaflake-control/src/lib.rs]

    [Engine]: the deployment checks, the normalizer, the request handler, the
    durable receipts, the build queue and [Work::execute].  The host is the
    file system of [Posix] with a script for each child process the engine
    starts and the log of the commands it started. *)

From S2P Require Import Prelude RustStr Json Posix Budget PrivateStore Process Template ControlData.

(** ** The host *)

(** A child process as the engine starts it. *)
Record command : Type := mkCommand {
  cmd_program : string; cmd_args : list string; cmd_dir : string; cmd_deadline : Z }.
Record host : Type := mkHost {
  h_world : world;
  h_children : list child;       (* what the next children will do *)
  h_commands : list command;     (* what was started, latest first *)
}.
Definition set_world (w : world) (h : host) : host := mkHost w (h_children h) (h_commands h).
Definition on_disk {E A} (m : M world E A) : M host E A := zoom h_world set_world m.
(** [process::run] with the output limit the engine always uses. *)
Definition run_command (c : command) : M host string bytes := λ h,
  let log := c :: h_commands h in
  match h_children h with
  | [] => (Err "fixed executable unavailable"%string, mkHost (h_world h) [] log)
  | ch :: rest => (process_run MAX_DOCUMENT ch, mkHost (h_world h) rest log)
  end.

(** Lexical forms of a path: what [open] resolves, its parent and last name. *)
Definition abs (p : string) : string := canonical (components p).
Definition parent_dir (p : string) : option string :=
  if bool_decide (components p = []) then None else Some (canonical (removelast (components p))).
Definition file_name (p : string) : option string :=
  match last (components p) with
  | Some n => if (n =? "..")%string then None else Some n
  | None => None
  end.

(** ** [Config] *)

Section deployment.
Context `{Sha2} `{SerdeJson} `{ControlCrates}.

Definition config_unavailable {A} (_ : A) : string := "configuration unavailable".
Definition config_load (path : string) : M world string ControlConfig :=
  resolved ← map_err config_unavailable (sys_canonicalize path);
  _ ← throw_if (negb (bool_decide (components resolved = components path)) && negb (store_path resolved))
        "configuration link must resolve into the Nix store";
  file ← open_path resolved false;
  m ← map_err config_unavailable (sys_fstat file);
  _ ← throw_if (negb (i_uid m =? 0) || negb (mode_and (i_mode m) 18 (* 0o022 *) =? 0))
        "deployment configuration must be root owned and immutable to peers";
  data ← read_bounded_file file MAX_DOCUMENT;
  lift (ok_or "invalid deployment configuration" (config_from_slice data)).

Definition immutable_input (path : string) : M world string unit :=
  f ← open_path path false;
  metadata ← map_err (λ _, "immutable compiler input unavailable"%string) (sys_fstat f);
  throw_if (mutable metadata) "mutable compiler or schema refused".
Fixpoint peers_ok (uids : list Z) (l : list Peer) : bool :=
  match l with
  | [] => true
  | p :: l =>
      negb (existsb (Z.eqb (peer_id p)) uids)
      && negb (bool_decide (peer_roles p = [])) && (blen (peer_roles p) <=? 4)
      && peers_ok (peer_id p :: uids) l
  end.
Definition config_validate (c : ControlConfig) : M world string unit :=
  euid ← gets w_euid;
  _ ← throw_if ((c_server_uid c =? 0) || negb (c_server_uid c =? euid)
                || bool_decide (c_peers c = []) || (32 <? blen (c_peers c))
                || negb (hashes_ok (c_hashes c))
                || negb (store_path (c_normalizer c)) || negb (store_path (c_schema c))
                || negb (opt_str_eq (file_name (c_source c)) "tentaflake.toml")
                || is_none (parent_dir (c_socket c)) || negb (starts_with "/" (c_socket c)))
        "invalid fixed deployment configuration";
  _ ← immutable_input (c_normalizer c);
  _ ← immutable_input (c_schema c);
  throw_if (negb (peers_ok [] (c_peers c))) "invalid peer policy".
End deployment.

(** ** The engine *)

(** What does not change while an engine runs: the configuration and the two
    locked directories. *)
Record deployment : Type := mkDeployment {
  d_config : ControlConfig;
  d_store : PrivateDir;
  d_normalize : PrivateDir;
}.
Record Engine : Type := mkEngine {
  en_host : host;
  en_state : State;
  en_poisoned : bool;
}.
Definition set_host (h : host) (e : Engine) : Engine := mkEngine h (en_state e) (en_poisoned e).
Definition set_poisoned (b : bool) (e : Engine) : Engine := mkEngine (en_host e) (en_state e) b.
Definition upd_state (f : State → State) (e : Engine) : Engine :=
  mkEngine (en_host e) (f (en_state e)) (en_poisoned e).
Definition on_host {A} (m : M host string A) : M Engine ApiError A :=
  map_err unavailable (zoom en_host set_host m).
Definition RECEIPTS : string := "receipts.json".

Section engine.
Context `{Sha2} `{SerdeJson} `{ControlCrates}.

Definition persist (d : deployment) : M Engine string unit :=
  poisoned ← gets en_poisoned;
  _ ← throw_if poisoned "state durability unavailable";
  _ ← modify (set_poisoned true);
  state ← gets en_state;
  data ← lift (ok_or "state serialization failed" (state_to_vec state));
  _ ← zoom en_host set_host (on_disk (atomic (d_store d) RECEIPTS data));
  modify (set_poisoned false).

(** The document whose revision is the policy hash. *)
Definition policy_value (c : ControlConfig) (schema : bytes) : value :=
  json_obj [("revision"%string, Str (h_policy (c_hashes c)));
            ("peers"%string, Array (peer_value <$> c_peers c));
            ("builder"%string, from_option builder_value Null (c_builder c));
            ("source"%string, Str (c_source c));
            ("server_uid"%string, num (c_server_uid c));
            ("minimum_profile"%string, Str (profile_name (c_minimum_profile c)));
            ("schema"%string, Str (digest schema))].
Definition current_hashes (c : ControlConfig) : M host string Hashes :=
  normalizer ← on_disk (read_file (c_normalizer c) 134217728 (* 128 MiB *));
  _ ← throw_if (negb (digest normalizer =? h_compiler (c_hashes c))%string) "normalizer compiler drift";
  _ ← match c_builder c with
      | Some b => on_disk (validate_builder b (h_inputs (c_hashes c)))
      | None => mret tt
      end;
  schema ← on_disk (read_file (c_schema c) MAX_DOCUMENT);
  mret (mkHashes (revision (policy_value c schema)) (h_compiler (c_hashes c)) (h_inputs (c_hashes c))).

Definition normalize_command (c : ControlConfig) : command :=
  mkCommand (c_normalizer c)
    ["config"%string; "normalize"%string; below (abs (c_state c)) "normalize/tentaflake.toml"; "--json"%string]
    (c_state c) 10.
Definition normalize (d : deployment) (b : bytes) : M host string value :=
  _ ← on_disk (atomic (d_normalize d) "tentaflake.toml" b);
  output ← run_command (normalize_command (d_config d));
  v ← lift (ok_or "invalid normalizer response" (from_slice output));
  _ ← throw_if (negb (is_object v)) "invalid normalizer response";
  mret v.

(** A legacy sibling is an ambiguity. *)
Fixpoint no_siblings (dir : string) (names : list string) : M world string unit :=
  match names with
  | [] => mret tt
  | n :: names =>
      r ← attempt (sys_symlink_metadata (below dir n));
      match r with
      | Ok _ => fail "legacy desired source requires migration"%string
      | Err NotFound => no_siblings dir names
      | Err _ => fail "desired source unavailable"%string
      end
  end.
Definition LEGACY : list string := ["agents.toml"%string; "agents.json"%string; "my-agents.nix"%string].
Definition source_bytes (c : ControlConfig) : M world string bytes :=
  parent ← lift (ok_or "invalid desired source" (parent_dir (c_source c)));
  _ ← no_siblings parent LEGACY;
  read_file (c_source c) MAX_DOCUMENT.
Definition current (d : deployment) : M host string value :=
  b ← on_disk (source_bytes (d_config d));
  normalize d b.

(** ** Opening *)

Definition dispatchable (b : Build) : bool :=
  (bu_state b =? "queued")%string || (bu_state b =? "building")%string.
(** A build interrupted by a restart is never dispatched again. *)
Definition interrupt (i : Intent) : Intent :=
  let b := in_build i in
  if dispatchable b then
    mkIntent (mkBuild (bu_id b) (bu_proposal_id b) (bu_revision b) "unknown" (bu_output_path b)
                (Some "service_restarted_no_redispatch"%string))
      (in_approval_id i) (in_hashes i)
  else i.
Definition private_unavailable {A} (_ : A) : string := "private directory unavailable".
Definition ensure_directory (p : string) : M world string unit :=
  r ← attempt (sys_mkdir p 511);
  match r with
  | Ok _ => map_err private_unavailable (sys_chmod p 448 (* 0o700 *))
  | Err AlreadyExists => mret tt
  | Err _ => fail (private_unavailable tt)
  end.
(** Run an engine operation on a new engine. *)
Definition with_state {A} (st : State) (m : M Engine string A) : M host string State := λ h,
  match m (mkEngine h st false) with
  | (Ok _, e) => (Ok (en_state e), en_host e)
  | (Err x, e) => (Err x, en_host e)
  end.
Definition open_state (c : ControlConfig) : M host string (deployment * State) :=
  store ← on_disk (lock (c_state c));
  _ ← on_disk (ensure_directory (below (abs (c_state c)) "normalize"));
  normalize_store ← on_disk (lock (below (c_state c) "normalize"));
  data ← on_disk (read_entry store RECEIPTS MAX_STATE);
  state ← lift (match data with
                | Some b => ok_or receipts_invalid (state_from_slice b)
                | None => Ok State_default
                end);
  _ ← lift (State_validate state);
  let d := mkDeployment c store normalize_store in
  state ← with_state (set_builds (fmap interrupt) state) (persist d);
  _ ← current_hashes c;
  mret (d, state).
Definition engine_open (c : ControlConfig) : M host string (deployment * State) :=
  _ ← on_disk (config_validate c);
  open_state c.

(** ** Requests *)

Definition authorized (c : ControlConfig) (uid : Z) (role : Role) : bool :=
  existsb (λ p, (peer_id p =? uid) && existsb (λ r, bool_decide (r = role)) (peer_roles p)) (c_peers c).
Definition authorize (c : ControlConfig) (uid : Z) (role : Role) : result ApiError unit :=
  bail_if (negb (authorized c uid role)) (mkApiError 403 "forbidden").

Definition rank (v : value) : option Z :=
  let profile := default "balanced"%string (pointer ["sandbox"%string; "profile"%string] v ≫= as_str) in
  if (profile =? "dev")%string then Some 0
  else if (profile =? "balanced")%string then Some 1
  else if (profile =? "strict")%string then Some 2
  else None.
Definition minimum (m : MinimumProfile) : Z := match m with Balanced => 1 | Strict => 2 end.
Definition enforce_profile (c : ControlConfig) (candidate base : value) : result ApiError unit :=
  bail_if (negb (is_some_and (λ r, (minimum (c_minimum_profile c) <=? r) && (default 2 (rank base) <=? r))
                   (rank candidate)))
    (mkApiError 403 "sandbox_policy_denied").

Definition not_found : ApiError := mkApiError 404 "not_found".
Definition wrap (kind : string) (v : value) : value :=
  json_obj [("schema_version"%string, num 1); (kind, v)].
Definition response (s : State) (kind id : string) : result ApiError value :=
  ok_or not_found
    (if (kind =? "proposal")%string then wrap "proposal" ∘ proposal_value ∘ cd_proposal <$> st_proposals s !! id
     else if (kind =? "approval")%string then wrap "approval" ∘ approval_value <$> st_approvals s !! id
     else if (kind =? "build")%string then wrap "build" ∘ build_value ∘ in_build <$> st_builds s !! id
     else None).
(** The recorded response, if the request was already accepted. *)
Definition replay (s : State) (id fingerprint : string) : result ApiError (option value) :=
  _ ← bail_if (negb (identifier id) || (64 <? str_len id)) invalid;
  match st_requests s !! id with
  | Some record =>
      _ ← bail_if (negb (rr_fingerprint record =? fingerprint)%string) conflict;
      v ← response s (rr_kind record) (rr_id record);
      Ok (Some v)
  | None =>
      _ ← bail_if (1024 <=? map_len (st_requests s)) (mkApiError 429 "receipt_capacity");
      Ok None
  end.
Definition request_fingerprint (route : string) (request : value) : string :=
  revision (Array [Str route; request]).
(** Record an accepted request and publish it. *)
Definition record_request (d : deployment) (request fp kind id : string) : M Engine ApiError value :=
  _ ← modify (upd_state (set_requests (<[request := mkRecord fp kind id]>)));
  _ ← map_err unavailable (persist d);
  s ← gets en_state;
  lift (response s kind id).

Definition handle_system (d : deployment) (uid : Z) : M Engine ApiError value :=
  let c := d_config d in
  _ ← lift (authorize c uid RRead);
  hashes ← on_host (current_hashes c);
  configuration ← on_host (current d);
  b ← on_host (on_disk (read_file (c_schema c) MAX_DOCUMENT));
  schema ← lift (ok_or (unavailable tt) (from_slice b));
  mret (json_obj
    [("schema_version"%string, num 1); ("revision"%string, Str (revision configuration));
     ("configuration"%string, configuration); ("schema"%string, schema);
     ("hashes"%string, hashes_value hashes);
     ("capabilities"%string, json_obj
        [("propose"%string, Bool (authorized c uid RPropose));
         ("build"%string, Bool (is_some (c_builder c) && authorized c uid RBuild));
         ("activate"%string, Bool false)])]).

Definition handle_propose (d : deployment) (uid : Z) (route : string) (b : bytes) :
    M Engine ApiError value :=
  let c := d_config d in
  _ ← lift (authorize c uid RPropose);
  request ← lift (decode decode_draft b);
  let fp := request_fingerprint route (draft_value request) in
  s ← gets en_state;
  recorded ← lift (replay s (dr_request_id request) fp);
  match recorded with
  | Some v => mret v
  | None =>
      _ ← throw_if (64 <=? map_len (st_proposals s)) (mkApiError 429 "proposal_capacity");
      hashes ← on_host (current_hashes c);
      base ← on_host (current d);
      _ ← throw_if (negb (revision base =? dr_base_revision request)%string) conflict;
      _ ← lift (enforce_profile c (dr_configuration request) base);
      toml ← lift (ok_or invalid (to_document (dr_configuration request)));
      _ ← throw_if (MAX_DOCUMENT <? str_len toml) invalid;
      configuration ← map_err (λ _, mkApiError 422 "invalid_configuration")
                        (on_host (normalize d (str_bytes toml)));
      _ ← throw_if (negb (value_eqb configuration (dr_configuration request)))
            (mkApiError 422 "normalization_changed_meaning");
      let id := ("p_" ++ dr_request_id request)%string in
      let changes := diff base configuration "" in
      let proposal := mkProposal id (dr_base_revision request) (revision configuration)
                        configuration changes hashes "draft" in
      _ ← throw_if (MAX_DOCUMENT * 2 <? blen (to_vec (proposal_value proposal)))
            (mkApiError 413 "proposal_response_too_large");
      _ ← modify (upd_state (set_proposals (<[id := mkCandidate proposal base toml]>)));
      record_request d (dr_request_id request) fp "proposal" id
  end.

Definition handle_approve (d : deployment) (uid : Z) (route id : string) (b : bytes) :
    M Engine ApiError value :=
  let c := d_config d in
  _ ← lift (authorize c uid RApprove);
  request ← lift (decode decode_approve b);
  let fp := request_fingerprint route (approve_value request) in
  s ← gets en_state;
  recorded ← lift (replay s (ar_request_id request) fp);
  match recorded with
  | Some v => mret v
  | None =>
      hashes ← on_host (current_hashes c);
      now ← on_host (current d);
      let base := revision now in
      candidate ← lift (ok_or not_found (st_proposals s !! id));
      let proposal := cd_proposal candidate in
      _ ← lift (enforce_profile c (pr_configuration proposal) now);
      _ ← throw_if (negb (ar_base_revision request =? base)%string
                    || negb (pr_base_revision proposal =? base)%string
                    || negb (ar_revision request =? pr_revision proposal)%string
                    || negb (bool_decide (ar_hashes request = hashes))
                    || negb (bool_decide (pr_hashes proposal = hashes))) conflict;
      let approval_id := ("a_" ++ ar_request_id request)%string in
      let approval := mkApproval approval_id id base (pr_revision proposal) hashes in
      _ ← modify (upd_state (set_approvals (<[approval_id := approval]>)));
      record_request d (ar_request_id request) fp "approval" approval_id
  end.

Definition handle_build (d : deployment) (uid : Z) (route : string) (b : bytes) :
    M Engine ApiError value :=
  let c := d_config d in
  _ ← lift (authorize c uid RBuild);
  request ← lift (decode decode_build b);
  let fp := request_fingerprint route (build_request_value request) in
  s ← gets en_state;
  recorded ← lift (replay s (br_request_id request) fp);
  match recorded with
  | Some v => mret v
  | None =>
      approval ← lift (ok_or (mkApiError 409 "approval_required") (st_approvals s !! br_approval_id request));
      _ ← throw_if (is_none (c_builder c)) (mkApiError 503 "build_disabled");
      hashes ← on_host (current_hashes c);
      now ← on_host (current d);
      let base := revision now in
      candidate ← lift (ok_or conflict (st_proposals s !! br_proposal_id request));
      let proposal := cd_proposal candidate in
      _ ← lift (enforce_profile c (pr_configuration proposal) now);
      _ ← throw_if (negb (ap_proposal_id approval =? br_proposal_id request)%string
                    || negb (ap_base_revision approval =? base)%string
                    || negb (ap_revision approval =? br_revision request)%string
                    || negb (bool_decide (ap_hashes approval = hashes))
                    || negb (bool_decide (br_hashes request = hashes))
                    || negb (bool_decide (pr_hashes proposal = hashes))
                    || negb (pr_base_revision proposal =? base)%string
                    || negb (pr_revision proposal =? br_revision request)%string) conflict;
      _ ← throw_if (4 <=? blen (List.filter (λ i, dispatchable (in_build i)) (values (st_builds s))))
            (mkApiError 429 "build_queue_full");
      _ ← throw_if (existsb (λ i, (in_approval_id i =? br_approval_id request)%string)
                      (values (st_builds s))) conflict;
      let id := ("b_" ++ br_request_id request)%string in
      let build := mkBuild id (br_proposal_id request) (br_revision request) "queued" None None in
      _ ← modify (upd_state (set_builds (<[id := mkIntent build (br_approval_id request) hashes]>)));
      record_request d (br_request_id request) fp "build" id
  end.

Definition approve_route (route : string) : option string :=
  ofilter identifier (strip_prefix "/v1/system/proposals/" route ≫= strip_suffix "/approve").
Definition handle (d : deployment) (uid : Z) (method route : string) (b : bytes) :
    M Engine ApiError value :=
  poisoned ← gets en_poisoned;
  _ ← throw_if poisoned (unavailable tt);
  let is_get := (method =? "GET")%string in
  _ ← throw_if (is_get && negb (bool_decide (b = []))) invalid;
  if is_get && (route =? "/v1/system")%string then handle_system d uid
  else if is_get then
    _ ← lift (authorize (d_config d) uid RRead);
    match ofilter identifier (strip_prefix "/v1/system/builds/" route) with
    | Some id => s ← gets en_state; lift (response s "build" id)
    | None => fail not_found
    end
  else if negb (method =? "POST")%string then fail (mkApiError 405 "method_not_allowed")
  else if (route =? "/v1/system/proposals")%string then handle_propose d uid route b
  else match approve_route route with
  | Some id => handle_approve d uid route id b
  | None =>
      if (route =? "/v1/system/builds")%string then handle_build d uid route b
      else fail not_found
  end.

(** ** The build queue *)

Record Work : Type := mkWork {
  wk_id : string;
  wk_destination : string;
  wk_toml : string;
  wk_builder : Builder;
  wk_source : string;
  wk_source_digest : string;
  wk_inputs_hash : string;
}.

Definition set_build_state (state : string) (i : Intent) : Intent :=
  let b := in_build i in
  mkIntent (mkBuild (bu_id b) (bu_proposal_id b) (bu_revision b) state (bu_output_path b) (bu_error b))
    (in_approval_id i) (in_hashes i).
Definition finished (result : result string string) (i : Intent) : Intent :=
  let b := in_build i in
  match result with
  | Ok path => mkIntent (mkBuild (bu_id b) (bu_proposal_id b) (bu_revision b) "built" (Some path) (bu_error b))
                 (in_approval_id i) (in_hashes i)
  | Err _ => mkIntent (mkBuild (bu_id b) (bu_proposal_id b) (bu_revision b) "failed" (bu_output_path b)
                         (Some "build_failed_or_approval_invalidated"%string))
               (in_approval_id i) (in_hashes i)
  end.
Definition finish (d : deployment) (id : string) (result : result string string) :
    M Engine string unit :=
  s ← gets en_state;
  intent ← lift (ok_or "receipt unavailable" (st_builds s !! id));
  _ ← modify (upd_state (set_builds (<[id := finished result intent]>)));
  persist d.

Definition state_is (state : string) (i : Intent) : bool := (bu_state (in_build i) =? state)%string.
(** [hashes.as_ref().ok() == Some(..)]. *)
Definition ok_is {A} `{EqDecision A} (r : result string A) (a : A) : bool :=
  match r with Ok x => bool_decide (x = a) | Err _ => false end.
Definition claim (d : deployment) : M Engine string (option Work) :=
  let c := d_config d in
  poisoned ← gets en_poisoned;
  _ ← throw_if poisoned "state unavailable";
  s ← gets en_state;
  if existsb (state_is "building") (values (st_builds s)) then mret None
  else match find_first (state_is "queued") (values (st_builds s)) with
  | None => mret None
  | Some intent =>
      let id := bu_id (in_build intent) in
      hashes ← attempt (zoom en_host set_host (current_hashes c));
      source ← attempt (zoom en_host set_host (on_disk (source_bytes c)));
      match source with
      | Err _ => _ ← finish d id (Err "source_unavailable"%string); mret None
      | Ok source =>
          base ← attempt (zoom en_host set_host (normalize d source));
          candidate ← lift (ok_or "panic: no such proposal" (st_proposals s !! bu_proposal_id (in_build intent)));
          if negb (ok_is hashes (in_hashes intent))
             || negb (ok_is (v ← base; Ok (revision v)) (pr_base_revision (cd_proposal candidate)))
          then _ ← finish d id (Err "approval_invalidated"%string); mret None
          else
            builder ← lift (ok_or "build disabled" (c_builder c));
            let work := mkWork id (below (abs (c_state c)) id) (cd_toml candidate) builder (c_source c)
                          (digest source) (h_inputs (in_hashes intent)) in
            receipt ← lift (ok_or "receipt unavailable" (st_builds s !! id));
            _ ← modify (upd_state (set_builds (<[id := set_build_state "building" receipt]>)));
            _ ← persist d;
            mret (Some work)
      end
  end.

(** [Work::execute]. *)
Definition build_command (w : Work) : command :=
  mkCommand (b_nix (wk_builder w))
    ["build"%string; "--no-link"%string; "--json"%string; "--no-write-lock-file"%string;
     (wk_destination w ++ "#nixosConfigurations." ++ b_target (wk_builder w)
      ++ ".config.system.build.toplevel")%string]
    (default EmptyString (parent_dir (wk_destination w))) (b_deadline_seconds (wk_builder w)).
(** The single output of a [nix build --json] document. *)
Definition build_output (v : value) : result string string :=
  outputs ← ok_or "invalid builder output"
    (match v with
     | Array [x] => ofilter (λ m, (length m =? 1)%nat) (vget "outputs" x ≫= as_object)
     | _ => None
     end);
  ok_or "invalid output path" (ofilter output_path (obj_get "out" outputs ≫= as_str)).
Definition execute (w : Work) : M host string string :=
  _ ← on_disk (materialize (wk_builder w) (wk_destination w) (wk_toml w));
  lockfile ← on_disk (read_file (below (wk_destination w) "flake.lock") 1048576);
  _ ← throw_if (negb (digest lockfile =? wk_inputs_hash w)%string) "locked inputs changed before dispatch";
  source ← on_disk (read_file (wk_source w) MAX_DOCUMENT);
  _ ← throw_if (negb (digest source =? wk_source_digest w)%string) "base changed before dispatch";
  b ← run_command (build_command w);
  v ← lift (ok_or "invalid builder output" (from_slice b));
  lift (build_output v).

(** One iteration of [worker]'s loop: [true] when there was work. *)
Definition worker_iteration (d : deployment) : M Engine string bool :=
  work ← claim d;
  match work with
  | None => mret false
  | Some work =>
      result ← attempt (zoom en_host set_host (execute work));
      _ ← finish d (wk_id work) result;
      mret true
  end.
End engine.
