(* ===== verification/Receipts.v ===== *)
(** * The receipts as a transition system

    The abstract machine the control engine implements: what one accepted
    request, one claim, one finished build and one restart do to the receipts.
    [linked] is its invariant: the receipts validate, every receipt is the one
    recorded for its request, and an approval has at most one build. *)

From S2P Require Import Prelude RustStr Json PrivateStore Template ControlData Engine.

Inductive action : Type :=
| APropose (r fp : string) (c : Candidate)
| AApprove (r fp : string) (a : Approval)
| ABuild (r fp : string) (i : Intent)
| AClaim (id : string)
| AFinish (id : string) (res : result string string)
| ARestart.

Section receipts.
Context `{Sha2} `{SerdeJson} `{ControlCrates}.

(** A request that is accepted now for the first time. *)
Record fresh_request (s : State) (r fp : string) : Prop := {
  fr_new : st_requests s !! r = None;
  fr_id : identifier r = true;
  fr_len : str_len r ≤ 64;
  fr_fp : is_hash fp = true;
  fr_room : map_len (st_requests s) < 1024;
}.
Definition record (r fp kind id : string) (s : State) : State :=
  set_requests (<[r := mkRecord fp kind id]>) s.

Inductive step : action → State → State → Prop :=
| step_propose s r fp c id : id = ("p_" ++ r)%string →
    fresh_request s r fp → map_len (st_proposals s) < 64 → candidate_ok id c = true →
    step (APropose r fp c) s (record r fp "proposal" id (set_proposals (<[id := c]>) s))
| step_approve s r fp a id : id = ("a_" ++ r)%string →
    fresh_request s r fp → approval_ok s id a = true →
    step (AApprove r fp a) s (record r fp "approval" id (set_approvals (<[id := a]>) s))
| step_build s r fp i id : id = ("b_" ++ r)%string →
    fresh_request s r fp → intent_ok s id i = true → bu_state (in_build i) = "queued"%string →
    (∀ j i', st_builds s !! j = Some i' → in_approval_id i' ≠ in_approval_id i) →
    step (ABuild r fp i) s (record r fp "build" id (set_builds (<[id := i]>) s))
| step_claim s id i :
    st_builds s !! id = Some i → bu_state (in_build i) = "queued"%string →
    step (AClaim id) s (set_builds (<[id := set_build_state "building" i]>) s)
| step_finish s id i res :
    st_builds s !! id = Some i → dispatchable (in_build i) = true →
    (∀ p, res = Ok p → output_path p = true) →
    step (AFinish id res) s (set_builds (<[id := finished res i]>) s)
| step_restart s : step ARestart s (set_builds (fmap interrupt) s).

Record linked (s : State) : Prop := {
  lk_valid : State_validate s = Ok tt;
  lk_proposals id c : st_proposals s !! id = Some c →
    ∃ r fp, id = ("p_" ++ r)%string ∧ st_requests s !! r = Some (mkRecord fp "proposal" id);
  lk_approvals id a : st_approvals s !! id = Some a →
    ∃ r fp, id = ("a_" ++ r)%string ∧ st_requests s !! r = Some (mkRecord fp "approval" id);
  lk_builds id i : st_builds s !! id = Some i →
    ∃ r fp, id = ("b_" ++ r)%string ∧ st_requests s !! r = Some (mkRecord fp "build" id);
  lk_once id id' i i' : st_builds s !! id = Some i → st_builds s !! id' = Some i' →
    in_approval_id i = in_approval_id i' → id = id';
}.

(** ** Validation as a proposition *)

Lemma map_forallb_true {A} (f : string → A → bool) m :
  map_forallb f m = true ↔ map_Forall (λ k a, f k a = true) m.
Proof.
  unfold map_forallb. rewrite forallb_elem. split.
  - intros Hf k a Hk. by apply (Hf (k, a)), elem_of_map_to_list.
  - intros Hf [k a] Hk%elem_of_map_to_list. by apply Hf.
Qed.

Record validated (s : State) : Prop := {
  vd_version : st_schema_version s = 1;
  vd_proposals : map_len (st_proposals s) ≤ 64;
  vd_requests : map_len (st_requests s) ≤ 1024;
  vd_approvals : map_len (st_approvals s) ≤ 1024;
  vd_builds : map_len (st_builds s) ≤ 1024;
  vd_candidate : map_Forall (λ id c, candidate_ok id c = true) (st_proposals s);
  vd_approval : map_Forall (λ id a, approval_ok s id a = true) (st_approvals s);
  vd_intent : map_Forall (λ id i, intent_ok s id i = true) (st_builds s);
  vd_request : map_Forall (λ id r, request_ok s id r = true) (st_requests s);
}.
Lemma State_validate_Ok s : State_validate s = Ok tt ↔ validated s.
Proof.
  unfold State_validate. split.
  - intros Hv. inv_ok.
    repeat match goal with X : negb _ = false |- _ => apply negb_false_iff, map_forallb_true in X end.
    reflect. by split; try lia.
  - intros []. unfold bail_if.
    repeat match goal with X : map_Forall _ _ |- _ => apply map_forallb_true in X end.
    repeat match goal with X : map_forallb _ _ = true |- _ => rewrite X; clear X end.
    assert (∀ x y, x ≤ y → (y <? x) = false) as Hlt by (intros; by apply Z.ltb_ge).
    rewrite vd_version0, !Hlt by done. done.
Qed.
Lemma validated_default : validated State_default.
Proof. split; first [by vm_compute | apply map_Forall_empty]. Qed.
Lemma linked_default : linked State_default.
Proof. split; [by apply State_validate_Ok, validated_default|..]; intros; by simpl in *. Qed.

(** ** The invariant is preserved *)

(** Keys that are recorded for a request are no more than the requests. *)
Lemma recorded_size {A} (prefix : string) (m : gmap string A) (reqs : gmap string RequestRecord) :
  (∀ id a, m !! id = Some a → ∃ r x, id = (prefix ++ r)%string ∧ reqs !! r = Some x) →
  map_len m ≤ map_len reqs.
Proof.
  intros Hm. unfold map_len. rewrite <-!(length_map_to_list), <-(length_fmap fst (map_to_list m)),
    <-(length_fmap (λ kv, prefix ++ fst kv)%string (map_to_list reqs)).
  apply inj_le, NoDup_incl_length; [apply NoDup_ListNoDup, NoDup_fst_map_to_list|].
  intros id Hid%list_elem_of_In. apply list_elem_of_In.
  apply list_elem_of_fmap in Hid as ([k a] & -> & Hk%elem_of_map_to_list).
  destruct (Hm _ _ Hk) as (r & x & -> & Hr). apply list_elem_of_fmap. exists (r, x).
  split; [done|]. by apply elem_of_map_to_list.
Qed.

Lemma append_inj_prefix (p a b : string) : (p ++ a)%string = (p ++ b)%string → a = b.
Proof. apply append_inj_r. Qed.

(** Receipts of later requests do not disturb earlier checks. *)
Record extends (s s' : State) : Prop := {
  ex_proposals : st_proposals s ⊆ st_proposals s';
  ex_approvals : st_approvals s ⊆ st_approvals s';
  ex_builds id : is_Some (st_builds s !! id) → is_Some (st_builds s' !! id);
}.
Lemma approval_ok_mono s s' id a : extends s s' → approval_ok s id a = true → approval_ok s' id a = true.
Proof.
  intros E. unfold approval_ok. destruct (st_proposals s !! _) eqn:Hp; [|done].
  by rewrite (lookup_weaken _ _ _ _ Hp (ex_proposals _ _ E)).
Qed.
Lemma intent_ok_mono s s' id i : extends s s' → intent_ok s id i = true → intent_ok s' id i = true.
Proof.
  intros E. unfold intent_ok. destruct (st_approvals s !! _) eqn:Hp; [|done].
  by rewrite (lookup_weaken _ _ _ _ Hp (ex_approvals _ _ E)).
Qed.
Lemma is_some_Some {A} (o : option A) : is_some o = true ↔ is_Some o.
Proof. destruct o; simpl; rewrite ?is_Some_alt; done. Qed.
Lemma request_ok_mono s s' id r : extends s s' → request_ok s id r = true → request_ok s' id r = true.
Proof.
  intros E. unfold request_ok. rewrite !andb_true_iff. intros [? Hk]. split; [done|].
  repeat case_match; try done; rewrite is_some_Some in *.
  - destruct Hk as [x Hx]. exists x. by eapply lookup_weaken; [|apply E].
  - destruct Hk as [x Hx]. exists x. by eapply lookup_weaken; [|apply E].
  - by apply E.
Qed.

(** Updating the build of a receipt. *)
Lemma intent_ok_update s id i b :
  intent_ok s id i = true → bu_id b = bu_id (in_build i) →
  bu_proposal_id b = bu_proposal_id (in_build i) → bu_revision b = bu_revision (in_build i) →
  bu_state b ∈ BUILD_STATES →
  (bu_state b = "built"%string → is_some_and output_path (bu_output_path b) = true) →
  (bu_state b ≠ "built"%string → bu_output_path b = None) →
  intent_ok s id (mkIntent b (in_approval_id i) (in_hashes i)) = true.
Proof.
  unfold intent_ok. cbn [in_approval_id in_build in_hashes].
  destruct (st_approvals s !! _) as [a|]; [|done]. cbn [is_some_and].
  rewrite !andb_true_iff. intros Hi E1 E2 E3 Hs Hb Hn. destruct_and!. rewrite E1, E2, E3.
  split_and!; try done.
  - by apply str_in_elem.
  - destruct (bu_state b =? "built")%string eqn:E; [|done]. apply Hb. by apply String.eqb_eq.
  - destruct (bu_state b =? "built")%string eqn:E; [done|]. apply String.eqb_neq in E. by rewrite Hn.
Qed.
Lemma dispatchable_cases b : dispatchable b = true →
  (bu_state b = "queued" ∨ bu_state b = "building")%string.
Proof. unfold dispatchable. rewrite orb_true_iff, !String.eqb_eq. done. Qed.
Lemma intent_ok_pending s id i : intent_ok s id i = true → dispatchable (in_build i) = true →
  bu_output_path (in_build i) = None.
Proof.
  unfold intent_ok. destruct (st_approvals s !! _); [|done]. cbn [is_some_and].
  rewrite !andb_true_iff. intros Hi Hd.
  destruct_and!. destruct (dispatchable_cases _ Hd) as [E|E]; rewrite E in *; by destruct (bu_output_path _).
Qed.
Lemma intent_ok_building s id i : intent_ok s id i = true → dispatchable (in_build i) = true →
  intent_ok s id (set_build_state "building" i) = true.
Proof.
  intros Hi Hd. apply (intent_ok_update s id i _ Hi); try done; simpl; [set_solver|].
  intros _. by eapply intent_ok_pending.
Qed.
Lemma intent_ok_finished s id i res : intent_ok s id i = true → dispatchable (in_build i) = true →
  (∀ p, res = Ok p → output_path p = true) → intent_ok s id (finished res i) = true.
Proof.
  intros Hi Hd Hp. destruct res as [path|e]; apply (intent_ok_update s id i _ Hi); try done; simpl.
  - set_solver.
  - intros _. by apply Hp.
  - set_solver.
  - intros _. by eapply intent_ok_pending.
Qed.
Lemma intent_ok_interrupt s id i : intent_ok s id i = true → intent_ok s id (interrupt i) = true.
Proof.
  intros Hi. unfold interrupt. destruct (dispatchable (in_build i)) eqn:Hd; [|done].
  apply (intent_ok_update s id i _ Hi); try done; simpl; [set_solver|].
  intros _. by eapply intent_ok_pending.
Qed.

Lemma map_len_insert {A} k (a : A) m : map_len m ≤ map_len (<[k := a]> m) ≤ map_len m + 1.
Proof. unfold map_len. rewrite map_size_insert. unfold is_some. destruct (m !! k); simpl; lia. Qed.

(** Rewriting a build in place keeps everything else. *)
Lemma rebuild_linked s f id i :
  linked s → st_builds s !! id = Some i → in_approval_id (f i) = in_approval_id i →
  intent_ok s id (f i) = true → linked (set_builds (<[id := f i]>) s).
Proof.
  intros [Hv Lp La Lb Lo] Hi Hf Hok. apply State_validate_Ok in Hv as [].
  assert (extends s (set_builds (<[id := f i]>) s)) as E.
  { split; try done. intros j Hj. simpl. destruct (decide (j = id)) as [->|?];
      [rewrite lookup_insert_eq; by eexists|by rewrite lookup_insert_ne]. }
  assert (∀ j x, <[id := f i]> (st_builds s) !! j = Some x →
    ∃ y, st_builds s !! j = Some y ∧ in_approval_id x = in_approval_id y) as Hback.
  { intros j x. rewrite lookup_insert. case_decide as Hj; [subst|]; intros; simplify_eq; eauto. }
  split; simpl; try done.
  - apply State_validate_Ok. split; simpl; try done.
    + unfold map_len in *. rewrite map_size_insert_Some; [done|by eexists].
    + by apply map_Forall_insert_2.
    + intros j x Hx. eapply request_ok_mono; eauto.
  - intros j x (y & Hy & _)%Hback. eauto.
  - intros j j' x x' (y & Hy & Ey)%Hback (y' & Hy' & Ey')%Hback Ea. eapply Lo; eauto. congruence.
Qed.

Lemma extends_record s r fp kind id : extends s (record r fp kind id s).
Proof. by split. Qed.
Lemma extends_trans a b c : extends a b → extends b c → extends a c.
Proof. intros [] []. split; [by etrans..|auto]. Qed.

(** Recording an accepted request for a receipt that was just added. *)
Lemma record_validated s s' r fp kind id :
  validated s → fresh_request s r fp → extends s s' →
  st_requests s' = st_requests s → st_schema_version s' = 1 →
  map_len (st_proposals s') ≤ 64 → map_len (st_approvals s') ≤ 1024 → map_len (st_builds s') ≤ 1024 →
  map_Forall (λ id c, candidate_ok id c = true) (st_proposals s') →
  map_Forall (λ id a, approval_ok s' id a = true) (st_approvals s') →
  map_Forall (λ id i, intent_ok s' id i = true) (st_builds s') →
  request_ok s' r (mkRecord fp kind id) = true →
  State_validate (record r fp kind id s') = Ok tt.
Proof.
  intros Hv Hf E Er Ev Hp Ha Hb Hc Hap Hi Hr. apply State_validate_Ok.
  split; simpl; try done.
  - rewrite Er. pose proof (map_len_insert r (mkRecord fp kind id) (st_requests s)).
    pose proof (fr_room _ _ _ Hf). lia.
  - apply map_Forall_insert_2; [done|]. rewrite Er. intros j x Hx.
    apply (request_ok_mono s); [by eapply extends_trans, extends_record|]. by apply (vd_request s).
Qed.
Lemma fresh_request_ok s s' r fp kind id :
  fresh_request s r fp →
  (if (kind =? "proposal")%string then is_some (st_proposals s' !! id)
   else if (kind =? "approval")%string then is_some (st_approvals s' !! id)
   else if (kind =? "build")%string then is_some (st_builds s' !! id) else false) = true →
  request_ok s' r (mkRecord fp kind id) = true.
Proof.
  intros [] Hk. unfold request_ok. simpl. rewrite fr_id0, fr_fp0, Hk. simpl.
  rewrite !andb_true_r. by apply Z.leb_le.
Qed.
(** Recorded keys after recording one more. *)
Lemma record_links {A} (prefix kind : string) (m : gmap string A) (reqs : gmap string RequestRecord) r fp kind' id' :
  reqs !! r = None →
  (∀ id a, m !! id = Some a → ∃ r' fp', id = (prefix ++ r')%string ∧ reqs !! r' = Some (mkRecord fp' kind id)) →
  ∀ id a, m !! id = Some a →
  ∃ r' fp', id = (prefix ++ r')%string ∧ <[r := mkRecord fp kind' id']> reqs !! r' = Some (mkRecord fp' kind id).
Proof.
  intros Hr Hm id a (r' & fp' & -> & Hr')%Hm. exists r', fp'. split; [done|].
  rewrite lookup_insert_ne; [done|]. congruence.
Qed.
Lemma record_links_new {A} (prefix kind : string) (m : gmap string A) (reqs : gmap string RequestRecord) r fp x :
  reqs !! r = None →
  (∀ id a, m !! id = Some a → ∃ r' fp', id = (prefix ++ r')%string ∧ reqs !! r' = Some (mkRecord fp' kind id)) →
  ∀ id a, <[(prefix ++ r)%string := x]> m !! id = Some a →
  ∃ r' fp', id = (prefix ++ r')%string
    ∧ <[r := mkRecord fp kind (prefix ++ r)%string]> reqs !! r' = Some (mkRecord fp' kind id).
Proof.
  intros Hr Hm id a. rewrite lookup_insert. case_decide as E; intros Ha; [subst|by eapply record_links].
  exists r, fp. by rewrite lookup_insert_eq.
Qed.
Lemma record_fresh_key {A} (prefix kind : string) (m : gmap string A) (reqs : gmap string RequestRecord) r :
  reqs !! r = None →
  (∀ id a, m !! id = Some a → ∃ r' fp', id = (prefix ++ r')%string ∧ reqs !! r' = Some (mkRecord fp' kind id)) →
  m !! (prefix ++ r)%string = None.
Proof.
  intros Hr Hm. apply eq_None_not_Some. intros [a (r' & fp' & E & Hr')%Hm].
  apply append_inj_prefix in E as <-. congruence.
Qed.
Lemma linked_size {A} (prefix kind : string) (m : gmap string A) (reqs : gmap string RequestRecord) :
  (∀ id a, m !! id = Some a → ∃ r' fp', id = (prefix ++ r')%string ∧ reqs !! r' = Some (mkRecord fp' kind id)) →
  map_len m ≤ map_len reqs.
Proof. intros Hm. apply (recorded_size prefix). intros id a (r & fp & -> & ?)%Hm. eauto. Qed.

Lemma step_propose_linked s r fp c :
  linked s → fresh_request s r fp → map_len (st_proposals s) < 64 →
  candidate_ok ("p_" ++ r) c = true →
  linked (record r fp "proposal" ("p_" ++ r) (set_proposals (<[("p_" ++ r)%string := c]>) s)).
Proof.
  intros [Hv Lp La Lb Lo] Hf Hs Hc. apply State_validate_Ok in Hv as Hv'.
  pose proof (fr_new _ _ _ Hf) as Hr. set (s' := set_proposals _ s).
  assert (extends s s') as E.
  { split; try done. apply insert_subseteq. by eapply record_fresh_key. }
  split; [|by eapply record_links_new|by eapply record_links|by eapply record_links|done].
  destruct Hv'. apply (record_validated s); try done.
  - pose proof (map_len_insert ("p_" ++ r)%string c (st_proposals s)). simpl. lia.
  - by apply map_Forall_insert_2.
  - intros j x Hx. eapply approval_ok_mono; eauto.
  - eapply fresh_request_ok; [done|]. simpl. by rewrite lookup_insert_eq.
Qed.
Lemma step_approve_linked s r fp a :
  linked s → fresh_request s r fp → approval_ok s ("a_" ++ r) a = true →
  linked (record r fp "approval" ("a_" ++ r) (set_approvals (<[("a_" ++ r)%string := a]>) s)).
Proof.
  intros [Hv Lp La Lb Lo] Hf Ha. apply State_validate_Ok in Hv as Hv'.
  pose proof (fr_new _ _ _ Hf) as Hr. set (s' := set_approvals _ s).
  assert (extends s s') as E.
  { split; try done. apply insert_subseteq. by eapply record_fresh_key. }
  split; [|by eapply record_links|by eapply record_links_new|by eapply record_links|done].
  destruct Hv'. apply (record_validated s); try done.
  - pose proof (map_len_insert ("a_" ++ r)%string a (st_approvals s)).
    pose proof (linked_size "a_" "approval" _ _ La). pose proof (fr_room _ _ _ Hf). simpl. lia.
  - by apply map_Forall_insert_2.
  - intros j x Hx. eapply intent_ok_mono; eauto.
  - eapply fresh_request_ok; [done|]. simpl. by rewrite lookup_insert_eq.
Qed.
Lemma step_build_linked s r fp i :
  linked s → fresh_request s r fp → intent_ok s ("b_" ++ r) i = true →
  (∀ j i', st_builds s !! j = Some i' → in_approval_id i' ≠ in_approval_id i) →
  linked (record r fp "build" ("b_" ++ r) (set_builds (<[("b_" ++ r)%string := i]>) s)).
Proof.
  intros [Hv Lp La Lb Lo] Hf Hi Hn. apply State_validate_Ok in Hv as Hv'.
  pose proof (fr_new _ _ _ Hf) as Hr. set (s' := set_builds _ s).
  assert (extends s s') as E.
  { split; try done. intros j Hj. simpl. rewrite lookup_insert. case_decide; [by eexists|done]. }
  split; [|by eapply record_links|by eapply record_links|by eapply record_links_new|].
  - destruct Hv'. apply (record_validated s); try done.
    + pose proof (map_len_insert ("b_" ++ r)%string i (st_builds s)).
      pose proof (linked_size "b_" "build" _ _ Lb). pose proof (fr_room _ _ _ Hf). simpl. lia.
    + by apply map_Forall_insert_2.
    + eapply fresh_request_ok; [done|]. simpl. by rewrite lookup_insert_eq.
  - simpl. intros j j' x x'. rewrite !lookup_insert. repeat case_decide; intros; simplify_eq; eauto.
    + by exfalso; eapply Hn.
    + by exfalso; eapply Hn.
Qed.
Lemma restart_linked s : linked s → linked (set_builds (fmap interrupt) s).
Proof.
  intros [Hv Lp La Lb Lo]. apply State_validate_Ok in Hv as [].
  assert (∀ j x, (interrupt <$> st_builds s) !! j = Some x →
    ∃ y, st_builds s !! j = Some y ∧ x = interrupt y ∧ in_approval_id x = in_approval_id y) as Hback.
  { intros j x. rewrite lookup_fmap, fmap_Some. intros (y & ? & ->). exists y. split_and!; try done.
    unfold interrupt. by destruct (dispatchable _). }
  split; simpl; try done.
  - apply State_validate_Ok. split; simpl; try done.
    + unfold map_len in *. by rewrite map_size_fmap.
    + intros j x (y & Hy & -> & _)%Hback. by apply intent_ok_interrupt, vd_intent0.
    + intros j x Hx. apply (request_ok_mono s); [|by apply vd_request0].
      split; try done. simpl. intros k [y Hy]. rewrite lookup_fmap, Hy. by eexists.
  - intros j x (y & Hy & _ & _)%Hback. eauto.
  - intros j j' x x' (y & Hy & _ & Ey)%Hback (y' & Hy' & _ & Ey')%Hback Ea. eapply Lo; eauto. congruence.
Qed.

(** Every transition keeps the invariant. *)
Lemma step_linked a s s' : linked s → step a s s' → linked s'.
Proof.
  intros L St. destruct St; subst.
  - by apply step_propose_linked.
  - by apply step_approve_linked.
  - by apply step_build_linked.
  - apply (rebuild_linked s (set_build_state "building") _ i); try done.
    apply intent_ok_building; [|unfold dispatchable; by rewrite H3].
    apply lk_valid, State_validate_Ok in L. by apply (vd_intent s).
  - apply (rebuild_linked s (finished res) _ i); try done; [by destruct res|].
    apply intent_ok_finished; try done. apply lk_valid, State_validate_Ok in L. by apply (vd_intent s).
  - by apply restart_linked.
Qed.
End receipts.
