(* ===== verification/EngineSpec.v ===== *)
(** * The engine implements the receipts

    Each operation of [Engine] from any state, under any schedule of I/O
    failures and any behaviour of the child processes, against the transition
    system of [Receipts]: what it publishes, what it leaves behind when it
    fails, and that it touches no receipt otherwise. *)

From stdpp Require Import sorting.
From S2P Require Import Prelude RustStr Json Posix Budget PrivateStore Process Template ControlData Engine Receipts.

(** ** What the crates promise *)

(** Receipts that differ at most in the digits of floating-point numbers inside
    configurations: serde_json without [float_roundtrip] need not reproduce them. *)
Record same_candidate (a b : Candidate) : Prop := {
  sc_toml : cd_toml b = cd_toml a;
  sc_id : pr_id (cd_proposal b) = pr_id (cd_proposal a);
  sc_base : pr_base_revision (cd_proposal b) = pr_base_revision (cd_proposal a);
  sc_revision : pr_revision (cd_proposal b) = pr_revision (cd_proposal a);
  sc_hashes : pr_hashes (cd_proposal b) = pr_hashes (cd_proposal a);
}.
Record same_receipts (s s' : State) : Prop := {
  sr_proposals id : option_Forall2 same_candidate (st_proposals s !! id) (st_proposals s' !! id);
  sr_approvals : st_approvals s' = st_approvals s;
  sr_builds : st_builds s' = st_builds s;
  sr_requests : st_requests s' = st_requests s;
}.
(** No floating-point number. *)
Fixpoint float_free (v : value) : bool :=
  match v with
  | Number (Float _) => false
  | Array l => forallb float_free l
  | Object m => forallb (λ kv, float_free (snd kv)) m
  | _ => true
  end.
Definition receipts_float_free (s : State) : bool :=
  map_forallb (λ _ c, float_free (cd_base_configuration c) && float_free (pr_configuration (cd_proposal c)))
    (st_proposals s).

Class ControlLaws `{ControlCrates} : Prop := {
  state_codec s b : state_to_vec s = Some b → ∃ s', state_from_slice b = Some s' ∧ same_receipts s s';
  state_codec_exact s b : state_to_vec s = Some b → receipts_float_free s = true →
    state_from_slice b = Some s;
  toml_roundtrip v t : to_document v = Some t → ∃ v', toml_from_str t = Some v' ∧ v' ≡ v;
}.

Lemma same_candidate_refl c : same_candidate c c.
Proof. by split. Qed.
Lemma same_candidate_trans a b c : same_candidate a b → same_candidate b c → same_candidate a c.
Proof. intros [] []. split; congruence. Qed.

(** ** Names *)

Definition receipts_path (c : ControlConfig) : string := below (abs (c_state c)) RECEIPTS.
(** A deployment opened for a configuration. *)
Record deployed (c : ControlConfig) (d : deployment) : Prop := {
  dp_config : d_config d = c;
  dp_store : pd_path (d_store d) = abs (c_state c);
  dp_normalize : pd_path (d_normalize d) = below (abs (c_state c)) "normalize";
}.
Lemma deployed_entry c d : deployed c d → entry (d_store d) RECEIPTS = receipts_path c.
Proof. intros D. unfold entry, receipts_path. by rewrite (dp_store _ _ D). Qed.
Lemma deployed_other c d name : deployed c d → receipts_path c ≠ entry (d_normalize d) name.
Proof.
  intros D. unfold entry, receipts_path. rewrite (dp_normalize _ _ D). unfold below.
  rewrite !append_assoc. intros E. apply append_inj_r in E. discriminate.
Qed.

(** ** Host operations leave the receipts alone *)

Definition hkeeps (p : string) (h h' : host) : Prop := keeps p (h_world h) (h_world h').
Lemma hkeeps_trans p a b c : hkeeps p a b → hkeeps p b c → hkeeps p a c.
Proof. apply keeps_trans. Qed.
Lemma hkeeps_refl p h : wf (h_world h) → hkeeps p h h.
Proof. apply keeps_refl. Qed.

Lemma on_disk_reader {E A} (m : M world E A) Q p h :
  wf (h_world h) → reader m Q →
  wp (on_disk m) (λ a h', hkeeps p h h' ∧ Q (h_world h) a) (λ _ h', hkeeps p h h') h.
Proof.
  intros Hw Hm. apply wp_zoom. wp_apply (Hm (h_world h)).
  - intros a w [S HQ]. split; [by apply same_fs_keeps|done].
  - intros e w S. by apply same_fs_keeps.
Qed.
Lemma run_command_keeps c p h : wf (h_world h) →
  wp (run_command c) (λ _ h', hkeeps p h h') (λ _ h', hkeeps p h h') h.
Proof.
  intros Hw. unfold wp, run_command. destruct (h_children h) as [|ch rest]; [by apply keeps_refl|].
  destruct (process_run MAX_DOCUMENT ch); by apply keeps_refl.
Qed.

Section specs.
Context `{Sha2} `{SerdeJson} `{ControlCrates}.

(** Hashes computed for a configuration. *)
Definition hashes_of (c : ControlConfig) (hs : Hashes) : Prop :=
  ∃ schema, hs = mkHashes (revision (policy_value c schema)) (h_compiler (c_hashes c)) (h_inputs (c_hashes c)).

Lemma current_hashes_spec c p h : wf (h_world h) →
  wp (current_hashes c) (λ hs h', hkeeps p h h' ∧ hashes_of c hs) (λ _ h', hkeeps p h h') h.
Proof.
  intros Hw. unfold current_hashes. wp_step.
  wp_apply (on_disk_reader _ _ p _ Hw (read_file_reader _ _)); [|done].
  intros n h1 [K1 _]. wp_step. wp_step; [done|]. wp_step.
  eapply (wp_mono _ (λ _ h', hkeeps p h h') _ (λ _ h', hkeeps p h h')).
  { destruct (c_builder c) as [b|]; [|by wp_step].
    wp_apply (on_disk_reader _ _ p h1 (kp_wf _ _ _ K1) (validate_builder_reader b _)).
    - intros u h2 [K2 _]. by eapply hkeeps_trans.
    - intros e h2 K2. by eapply hkeeps_trans. }
  - intros u h2 K2. wp_step.
    wp_apply (on_disk_reader _ _ p h2 (kp_wf _ _ _ K2) (read_file_reader _ _)).
    + intros schema h3 [K3 _]. wp_step. split; [by eapply hkeeps_trans|by eexists].
    + intros e h3 K3. by eapply hkeeps_trans.
  - done.
Qed.

Lemma normalize_spec c d b h : deployed c d → wf (h_world h) →
  wp (normalize d b) (λ v h', hkeeps (receipts_path c) h h' ∧ is_object v = true)
    (λ _ h', hkeeps (receipts_path c) h h') h.
Proof.
  intros D Hw. unfold normalize. wp_step. unfold on_disk at 1. wp_step.
  assert (∀ w', others (d_normalize d) "tentaflake.toml" (h_world h) w' →
    keeps (receipts_path c) (h_world h) w') as Ho.
  { intros w' Ho. apply Ho; by apply deployed_other. }
  wp_apply (atomic_spec (d_normalize d) "tentaflake.toml" b (h_world h) Hw ltac:(done)).
  2: { intros e w1 (Hw1 & _ & O1). by apply Ho. }
  intros u w1 (Hw1 & _ & O1). wp_step.
  assert (hkeeps (receipts_path c) h (set_world w1 h)) as K1 by (by apply Ho).
  wp_apply (run_command_keeps _ (receipts_path c) (set_world w1 h) Hw1).
  2: { intros e h2 K2. by eapply hkeeps_trans. }
  intros out h2 K2. assert (hkeeps (receipts_path c) h h2) as K02 by (by eapply hkeeps_trans).
  wp_step. wp_step; [|done]. wp_step. wp_step; [done|]. wp_step. split; [done|].
  by apply negb_false_iff.
Qed.

Lemma no_siblings_reader dir names : reader (no_siblings dir names) (λ _ _, True).
Proof.
  induction names as [|n names IH]; intros w; cbn [no_siblings]; [by wp_step|].
  wp_step. wp_step. wp_apply (reader_symlink_metadata (below dir n)); [by intros x w1 [S1 _]; wp_step|].
  intros [] w1 S1; try by wp_step. wp_apply (IH w1).
  - intros u w2 [S2 _]. split; [by etrans|done].
  - intros e w2 S2. by etrans.
Qed.
Lemma source_bytes_reader c : reader (source_bytes c) (λ _ _, True).
Proof.
  intros w. unfold source_bytes. wp_step. wp_step; [|done]. wp_step.
  wp_reader (no_siblings_reader _ _) as u w1 S1 _; [|done].
  wp_apply (read_file_reader _ _ w1).
  - intros b w2 [S2 _]. split; [by etrans|done].
  - intros e w2 S2. by etrans.
Qed.
Lemma current_spec c d h : deployed c d → wf (h_world h) →
  wp (current d) (λ _ h', hkeeps (receipts_path c) h h') (λ _ h', hkeeps (receipts_path c) h h') h.
Proof.
  intros D Hw. unfold current. rewrite (dp_config _ _ D). wp_step.
  wp_apply (on_disk_reader _ _ (receipts_path c) _ Hw (source_bytes_reader c)); [|done].
  intros b h1 [K1 _]. wp_apply (normalize_spec c d b h1 D (kp_wf _ _ _ K1)).
  - intros v h2 [K2 _]. by eapply hkeeps_trans.
  - intros e h2 K2. by eapply hkeeps_trans.
Qed.

(** ** Publication *)

(** The receipts [s] are the content of the file [p]. *)
Definition stored (p : string) (w : world) (s : State) : Prop :=
  ∃ b, state_to_vec s = Some b ∧ owned_file w p b.

(** Nothing happened to the receipts, in memory or on disk. *)
Record idle (p : string) (e e' : Engine) : Prop := {
  id_state : en_state e' = en_state e;
  id_poisoned : en_poisoned e' = false;
  id_keeps : hkeeps p (en_host e) (en_host e');
}.
(** The receipts became [s'], in memory and on disk. *)
Record publishes (p : string) (s' : State) (e e' : Engine) : Prop := {
  pb_state : en_state e' = s';
  pb_poisoned : en_poisoned e' = false;
  pb_wf : wf (h_world (en_host e'));
  pb_euid : w_euid (h_world (en_host e')) = w_euid (h_world (en_host e));
  pb_stored : stored p (h_world (en_host e')) s';
}.
(** The engine is closed; the file is the old one or holds [s']. *)
Record halts (p : string) (s' : State) (e e' : Engine) : Prop := {
  ht_state : en_state e' = s';
  ht_poisoned : en_poisoned e' = true;
  ht_wf : wf (h_world (en_host e'));
  ht_euid : w_euid (h_world (en_host e')) = w_euid (h_world (en_host e));
  ht_disk : hkeeps p (en_host e) (en_host e') ∨ stored p (h_world (en_host e')) s';
}.
(** Receipts moved by one of the transitions [R]. *)
Definition outcome_ok (p : string) (R : State → Prop) (e e' : Engine) : Prop :=
  idle p e e' ∨ ∃ s', R s' ∧ publishes p s' e e'.
Definition outcome_err (p : string) (R : State → Prop) (e e' : Engine) : Prop :=
  idle p e e' ∨ ∃ s', R s' ∧ halts p s' e e'.

Lemma idle_refl p e : en_poisoned e = false → wf (h_world (en_host e)) → idle p e e.
Proof. intros ? ?. by split. Qed.
Lemma idle_wf p e e' : idle p e e' → wf (h_world (en_host e')).
Proof. intros I. apply (kp_wf _ _ _ (id_keeps _ _ _ I)). Qed.
Lemma idle_trans p a b c : idle p a b → idle p b c → idle p a c.
Proof.
  intros [S1 P1 K1] [S2 P2 K2]. split; [congruence|done|by eapply hkeeps_trans].
Qed.
Lemma idle_then_publishes p s a b c : idle p a b → publishes p s b c → publishes p s a c.
Proof. intros I []. split; try done. rewrite pb_euid0. apply (kp_euid _ _ _ (id_keeps _ _ _ I)). Qed.
Lemma idle_then_ok p R a b c : idle p a b → outcome_ok p R b c → outcome_ok p R a c.
Proof.
  intros I [I'|(s' & HR & P)]; [left; by eapply idle_trans|right; exists s'; split; [done|]].
  by eapply idle_then_publishes.
Qed.
Lemma idle_then_halts p s a b c : idle p a b → halts p s b c → halts p s a c.
Proof.
  intros I []. split; try done.
  - rewrite ht_euid0. apply (kp_euid _ _ _ (id_keeps _ _ _ I)).
  - destruct ht_disk0 as [K|?]; [left|by right]. eapply hkeeps_trans; [apply I|done].
Qed.
Lemma idle_then_err p R a b c : idle p a b → outcome_err p R b c → outcome_err p R a c.
Proof.
  intros I [I'|(s' & HR & P)]; [left; by eapply idle_trans|right; exists s'; split; [done|]].
  by eapply idle_then_halts.
Qed.

Lemma others_euid d name w w' : others d name w w' → w_euid w' = w_euid w.
Proof.
  assert (∀ n, EmptyString ≠ entry d n) as Hne by (intros n; unfold entry, below; by destruct (pd_path d)).
  intros K. apply (kp_euid _ _ _ (K _ (Hne _) (Hne _))).
Qed.
(** [atomic] on the receipts file. *)
Lemma persist_engine_spec c d e : deployed c d → wf (h_world (en_host e)) →
  wp (persist d) (λ _ e', en_poisoned e = false ∧ publishes (receipts_path c) (en_state e) e e')
    (λ _ e', if en_poisoned e then e' = e else halts (receipts_path c) (en_state e) e e') e.
Proof.
  intros D Hw. unfold persist. wp_step. wp_step. wp_step.
  wp_step; [by rewrite H2|]. rewrite H2. wp_step. wp_step. wp_step. wp_step. wp_step.
  wp_step; [|by split; try done; left; apply keeps_refl].
  wp_step. wp_step. unfold on_disk. wp_step. rewrite <-(deployed_entry c d D).
  apply ok_or_Ok in H3.
  wp_apply (atomic_spec (d_store d) RECEIPTS a (h_world (en_host e)) Hw ltac:(done)).
  - intros u w1 (Hw1 & O1 & K1). wp_step. split; [done|].
    split; simpl; try done; [by eapply others_euid|by exists a].
  - intros x w1 (Hw1 & O1 & K1). split; simpl; try done; [by eapply others_euid|].
    destruct O1 as [?|?]; [by left|right]. by exists a.
Qed.
End specs.

(** ** Digests, names and replays *)

Section requests.
Context `{HS : Sha2} `{!Sha2Laws} `{HJ : SerdeJson} `{HC : ControlCrates} `{!ControlLaws}.

Lemma digest_is_hash b : is_hash (digest b) = true.
Proof.
  unfold is_hash, digest, to_hex, all_bytes. destruct (sha2_size b) as [Hl Hok]. rewrite andb_true_iff.
  split.
  - apply Z.eqb_eq. unfold str_len. rewrite length_bytes_str.
    assert (∀ l : bytes, length (concat ((λ x, [hex_char (Z.shiftr x 4); hex_char (Z.land x 15)]) <$> l))
              = (2 * length l)%nat) as Hc.
    { induction l as [|x l IH]; [done|]. cbn [fmap list_fmap concat app length]. rewrite IH. lia. }
    rewrite Hc, Hl. done.
  - assert (∀ n, 0 ≤ n < 16 → is_hex_digit (hex_char n) = true ∧ byte_ok (hex_char n)) as Hd.
    { intros n Hn. split; [|by apply hex_char_ok]. unfold is_hex_digit, hex_char, is_ascii_digit, in_range.
      destruct (Z.ltb_spec n 10); rewrite orb_true_iff, !andb_true_iff, !Z.leb_le; lia. }
    rewrite str_bytes_bytes_str.
    + clear Hl. induction Hok as [|x l Hx _ IH]; simpl; [done|].
      destruct (nibbles x Hx) as (Hx1 & Hx2 & _). destruct (Hd _ Hx1) as [-> _], (Hd _ Hx2) as [-> _]. done.
    + clear Hl. induction Hok as [|x l Hx _ IH]; simpl; [constructor|].
      destruct (nibbles x Hx) as (Hx1 & Hx2 & _). repeat constructor; try (by apply Hd); apply IH.
Qed.
Lemma hashes_of_ok c hs : hashes_ok (c_hashes c) = true → hashes_of c hs → hashes_ok hs = true.
Proof.
  intros Hc (schema & ->). unfold hashes_ok in *. simpl. rewrite !andb_true_iff in *.
  destruct_and!. split_and!; try done. apply digest_is_hash.
Qed.

Lemma identifier_prefixed (p r : string) :
  all_bytes (λ b, is_ascii_alphanumeric b || byte_in "_-" b) p = true → str_len p = 2 →
  identifier r = true → str_len r ≤ 64 → identifier (p ++ r) = true.
Proof.
  unfold identifier, all_bytes, str_is_empty, str_len. intros Hp Hl. rewrite !andb_true_iff, str_bytes_app.
  intros [[_ _] Hr] Hlen. rewrite length_append, forallb_app, Hp, Hr.
  split_and!; try done; [|apply Z.leb_le; lia]. destruct p; [simpl in Hl; lia|done].
Qed.

Lemma replay_fresh s r fp : is_hash fp = true → replay s r fp = Ok None → fresh_request s r fp.
Proof.
  unfold replay. intros Hfp Hr. inv_ok. destruct (st_requests s !! r) eqn:E; inv_ok; [done|].
  reflect. by split; try lia.
Qed.
Lemma list_eqb_refl (l : list value) : list_eqb (value_eqb <$> l) l = true.
Proof.
  apply list_eqb_Forall2, Forall2_same_length_lookup_2; [done|]. intros i x y Hx Hy. simplify_eq.
  apply value_eqb_refl.
Qed.

(** ** What a request may change *)

(** One call of [handle]. *)
Record call : Type := mkCall {
  k_config : ControlConfig; k_uid : Z; k_method : string; k_route : string; k_body : bytes }.
(** [a] is the transition this call asks for, by a peer with the role for it. *)
Definition requested (k : call) (a : action) : Prop :=
  k_method k = "POST"%string ∧
  match a with
  | APropose r fp cand =>
      authorized (k_config k) (k_uid k) RPropose = true ∧ k_route k = "/v1/system/proposals"%string
      ∧ ∃ rq, decode decode_draft (k_body k) = Ok rq ∧ r = dr_request_id rq
              ∧ fp = request_fingerprint (k_route k) (draft_value rq)
              ∧ to_document (dr_configuration rq) = Some (cd_toml cand)
              ∧ pr_configuration (cd_proposal cand) ≡ dr_configuration rq
              ∧ pr_base_revision (cd_proposal cand) = dr_base_revision rq
  | AApprove r fp a =>
      authorized (k_config k) (k_uid k) RApprove = true ∧ approve_route (k_route k) = Some (ap_proposal_id a)
      ∧ ∃ rq, decode decode_approve (k_body k) = Ok rq ∧ r = ar_request_id rq
              ∧ fp = request_fingerprint (k_route k) (approve_value rq)
              ∧ ap_base_revision a = ar_base_revision rq
              ∧ ap_revision a = ar_revision rq ∧ ap_hashes a = ar_hashes rq
  | ABuild r fp i =>
      authorized (k_config k) (k_uid k) RBuild = true ∧ k_route k = "/v1/system/builds"%string
      ∧ is_Some (c_builder (k_config k))
      ∧ ∃ rq, decode decode_build (k_body k) = Ok rq ∧ r = br_request_id rq
              ∧ fp = request_fingerprint (k_route k) (build_request_value rq)
              ∧ in_approval_id i = br_approval_id rq ∧ bu_proposal_id (in_build i) = br_proposal_id rq
              ∧ bu_revision (in_build i) = br_revision rq ∧ in_hashes i = br_hashes rq
  | _ => False
  end.
Definition moves (k : call) (s s' : State) : Prop := ∃ a, requested k a ∧ step a s s'.

Lemma authorize_Ok c uid role u : authorize c uid role = Ok u → authorized c uid role = true.
Proof. unfold authorize. intros ?%bail_if_Ok. by apply negb_false_iff. Qed.

Lemma on_host_idle {A} (m : M host string A) (Q : A → Prop) p e :
  en_poisoned e = false →
  wp m (λ a h', hkeeps p (en_host e) h' ∧ Q a) (λ _ h', hkeeps p (en_host e) h') (en_host e) →
  wp (on_host m) (λ a e', idle p e e' ∧ Q a) (λ _ e', idle p e e') e.
Proof.
  intros Hp Hm. unfold on_host. wp_step. wp_step. wp_apply Hm.
  - intros a h' [K HQ]. by split.
  - intros x h' K. by split.
Qed.
Lemma on_host_hashes c p e : en_poisoned e = false → wf (h_world (en_host e)) →
  wp (on_host (current_hashes c)) (λ hs e', idle p e e' ∧ hashes_of c hs) (λ _ e', idle p e e') e.
Proof. intros Hp Hw. apply on_host_idle; [done|]. by apply current_hashes_spec. Qed.
Lemma on_host_current c d e : deployed c d → en_poisoned e = false → wf (h_world (en_host e)) →
  wp (on_host (current d)) (λ _ e', idle (receipts_path c) e e') (λ _ e', idle (receipts_path c) e e') e.
Proof.
  intros D Hp Hw. wp_apply (on_host_idle (current d) (λ _, True) (receipts_path c) e Hp).
  - wp_apply (current_spec c d _ D Hw); auto.
  - by intros v e' [? _].
  - done.
Qed.

(** The last step of every accepted request. *)
Lemma record_request_spec c d r fp kind id e v :
  deployed c d → wf (h_world (en_host e)) → en_poisoned e = false →
  let s' := record r fp kind id (en_state e) in response s' kind id = Ok v →
  wp (record_request d r fp kind id)
    (λ v' e', publishes (receipts_path c) s' e e' ∧ v' = v)
    (λ _ e', halts (receipts_path c) s' e e') e.
Proof.
  intros D Hw Hp s' Hv. unfold record_request. wp_step. wp_step. wp_step. wp_step.
  wp_apply (persist_engine_spec c d (upd_state (record r fp kind id) e) D Hw).
  - intros u e' [_ P]. wp_step. wp_step. rewrite (pb_state _ _ _ _ P).
    change (en_state (upd_state (record r fp kind id) e)) with s'. rewrite Hv.
    wp_step; simplify_eq. split; [by destruct P; split|done].
  - simpl. rewrite Hp. intros x e' P. destruct P; by split.
Qed.

(** The reply to a request: the receipt that is now in memory and on disk, or an
    earlier one. *)
Definition replies (s : State) (v : value) : Prop := ∃ kind id, response s kind id = Ok v.

(** The requests of the three POST routes all end this way. *)
Lemma accept_spec c d k r fp kind id e0 e f v a :
  deployed c d → idle (receipts_path c) e0 e → en_poisoned e0 = false →
  let s' := record r fp kind id (f (en_state e0)) in
  requested k a → step a (en_state e0) s' → response s' kind id = Ok v →
  wp (_ ← modify (upd_state f); record_request d r fp kind id)
    (λ v' e', outcome_ok (receipts_path c) (moves k (en_state e0)) e0 e' ∧ replies (en_state e') v')
    (λ _ e', outcome_err (receipts_path c) (moves k (en_state e0)) e0 e') e.
Proof.
  intros D I Hp s' Ha Hst Hv. wp_step. wp_step.
  assert (en_state (upd_state f e) = f (en_state e0)) as Es by (simpl; by rewrite (id_state _ _ _ I)).
  assert (moves k (en_state e0) s') as Hm by (by exists a).
  unfold s' in *. rewrite <-Es in *.
  wp_apply (record_request_spec c d r fp kind id (upd_state f e) v D (idle_wf _ _ _ I) (id_poisoned _ _ _ I) Hv).
  - intros v' e' [P ->]. split; [|exists kind, id; by rewrite (pb_state _ _ _ _ P)].
    eapply idle_then_ok; [exact I|]. right. eexists. split; [exact Hm|]. destruct P; by split.
  - intros x e' P. eapply idle_then_err; [exact I|]. right. eexists. split; [exact Hm|]. destruct P; by split.
Qed.

Lemma replay_replies s r fp v : replay s r fp = Ok (Some v) → replies s v.
Proof.
  unfold replay. intros Hr. inv_ok. destruct (st_requests s !! r) as [x|] eqn:E; inv_ok; [|done].
  simplify_eq. eexists _, _. done.
Qed.

Lemma handle_propose_spec c d uid route b e :
  let k := mkCall c uid "POST" route b in route = "/v1/system/proposals"%string →
  deployed c d → hashes_ok (c_hashes c) = true → en_poisoned e = false → wf (h_world (en_host e)) →
  wp (handle_propose d uid route b)
    (λ v e', outcome_ok (receipts_path c) (moves k (en_state e)) e e' ∧ replies (en_state e') v)
    (λ _ e', outcome_err (receipts_path c) (moves k (en_state e)) e e') e.
Proof.
  intros k Hroute D Hc Hp Hw. assert (idle (receipts_path c) e e) as I0 by (by apply idle_refl).
  unfold handle_propose. rewrite (dp_config _ _ D). wp_try as u Ha; [|by left]. apply authorize_Ok in Ha.
  wp_try as rq Hrq; [|by left]. wp_step. wp_step. wp_try as rec Hrec; [|by left]. destruct rec as [v|].
  { wp_step. split; [by left|by eapply replay_replies]. }
  apply replay_fresh in Hrec; [|apply digest_is_hash]. wp_check as Hroom; [by left|]. apply Z.leb_gt in Hroom.
  wp_step. wp_apply (on_host_hashes c (receipts_path c) e Hp Hw); [|intros; by left].
  intros hs e1 [I1 Hhs]. apply hashes_of_ok in Hhs; [|done]. wp_step.
  wp_apply (on_host_current c d e1 D (id_poisoned _ _ _ I1) (idle_wf _ _ _ I1)).
  2: { intros x e2 I2. left. by eapply idle_trans. }
  intros base e2 I12. assert (idle (receipts_path c) e e2) as I2 by (by eapply idle_trans). clear I12.
  wp_check as Hbase; [by left|]. wp_try as u' Hprof; [|by left]. wp_try as toml Htoml; [|by left].
  apply ok_or_Ok in Htoml. wp_check as Hlen; [by left|]. wp_step. wp_step.
  wp_apply (on_host_idle (normalize d (str_bytes toml)) (λ _, True) (receipts_path c) e2 (id_poisoned _ _ _ I2)).
  { wp_apply (normalize_spec c d _ _ D (idle_wf _ _ _ I2)); [|done]. intros ? ? [? _]. done. }
  2: { intros x e3 I3. left. by eapply idle_trans. }
  intros cfg e3 [I23 _]. assert (idle (receipts_path c) e e3) as I3 by (by eapply idle_trans). clear I23.
  wp_check as Hcfg; [by left|]. wp_check as Hbig; [by left|].
  apply negb_false_iff in Hbase, Hcfg. apply String.eqb_eq in Hbase.
  assert (identifier ("p_" ++ dr_request_id rq) = true) as Hid
    by (apply identifier_prefixed; [done..|apply Hrec|apply Hrec]).
  eapply accept_spec; [done|exact I3|done| |apply step_propose; [done..|]|].
  - split; [done|]. split_and!; [done..|]. exists rq. by split_and!.
  - unfold candidate_ok. simpl.
    destruct (toml_roundtrip _ _ Htoml) as (v' & -> & Hv'). simpl.
    rewrite Hid, !String.eqb_refl, Hbase, String.eqb_refl, list_eqb_refl, Hhs, !andb_true_r.
    eapply value_eqb_trans; [exact Hv'|]. by apply value_eqb_sym.
  - unfold response. simpl. by rewrite lookup_insert_eq.
Qed.

Lemma elem_of_values {A} (m : gmap string A) x : x ∈ values m ↔ ∃ k, m !! k = Some x.
Proof.
  unfold values. rewrite list_elem_of_fmap. setoid_rewrite (merge_sort_Permutation key_le (map_to_list m)).
  split.
  - intros ([k y] & -> & Hk%elem_of_map_to_list). by exists k.
  - intros (k & Hk%elem_of_map_to_list). by exists (k, x).
Qed.

(** The checks every POST request starts with: current hashes and source. *)
Lemma checked_spec {A} c d e (k : Hashes → value → M Engine ApiError A) Q X :
  deployed c d → en_poisoned e = false → wf (h_world (en_host e)) →
  (∀ hs now e', idle (receipts_path c) e e' → hashes_of c hs → wp (k hs now) Q X e') →
  (∀ x e', idle (receipts_path c) e e' → X x e') →
  wp (hs ← on_host (current_hashes c); now ← on_host (current d); k hs now) Q X e.
Proof.
  intros D Hp Hw Hk Hx. wp_step. wp_apply (on_host_hashes c (receipts_path c) e Hp Hw); [|done].
  intros hs e1 [I1 Hhs]. wp_step.
  wp_apply (on_host_current c d e1 D (id_poisoned _ _ _ I1) (idle_wf _ _ _ I1)).
  - intros now e2 I2. apply Hk; [by eapply idle_trans|done].
  - intros x e2 I2. apply Hx. by eapply idle_trans.
Qed.

Lemma handle_approve_spec c d uid route id b e :
  let k := mkCall c uid "POST" route b in approve_route route = Some id →
  deployed c d → en_poisoned e = false → wf (h_world (en_host e)) →
  wp (handle_approve d uid route id b)
    (λ v e', outcome_ok (receipts_path c) (moves k (en_state e)) e e' ∧ replies (en_state e') v)
    (λ _ e', outcome_err (receipts_path c) (moves k (en_state e)) e e') e.
Proof.
  intros k Hroute D Hp Hw. assert (idle (receipts_path c) e e) as I0 by (by apply idle_refl).
  unfold handle_approve. rewrite (dp_config _ _ D). wp_try as u Ha; [|by left]. apply authorize_Ok in Ha.
  wp_try as rq Hrq; [|by left]. wp_step. wp_step. wp_try as rec Hrec; [|by left]. destruct rec as [v|].
  { wp_step. split; [by left|by eapply replay_replies]. }
  apply replay_fresh in Hrec; [|apply digest_is_hash].
  apply (checked_spec c d e); try done; [|intros; by left]. intros hs now e' I _.
  wp_try as cand Hcand; [|by left]. apply ok_or_Ok in Hcand. wp_try as u' Hprof; [|by left].
  wp_check as Hck; [by left|]. reflect.
  eapply accept_spec; [done|exact I|done| |apply step_approve; [done..|]|].
  - split; [done|]. split_and!; [done..|]. exists rq. by split_and!.
  - unfold approval_ok. simpl. rewrite Hcand. simpl.
    rewrite identifier_prefixed by (done || apply Hrec).
    rewrite !String.eqb_refl. simpl. rewrite bool_decide_true by congruence.
    rewrite !andb_true_r. apply String.eqb_eq. congruence.
  - unfold response. simpl. by rewrite lookup_insert_eq.
Qed.

Lemma handle_build_spec c d uid route b e :
  let k := mkCall c uid "POST" route b in route = "/v1/system/builds"%string →
  deployed c d → en_poisoned e = false → wf (h_world (en_host e)) →
  wp (handle_build d uid route b)
    (λ v e', outcome_ok (receipts_path c) (moves k (en_state e)) e e' ∧ replies (en_state e') v)
    (λ _ e', outcome_err (receipts_path c) (moves k (en_state e)) e e') e.
Proof.
  intros k Hroute D Hp Hw. assert (idle (receipts_path c) e e) as I0 by (by apply idle_refl).
  unfold handle_build. rewrite (dp_config _ _ D). wp_try as u Ha; [|by left]. apply authorize_Ok in Ha.
  wp_try as rq Hrq; [|by left]. wp_step. wp_step. wp_try as rec Hrec; [|by left]. destruct rec as [v|].
  { wp_step. split; [by left|by eapply replay_replies]. }
  apply replay_fresh in Hrec; [|apply digest_is_hash].
  wp_try as ap Hap; [|by left]. apply ok_or_Ok in Hap. wp_check as Hbuilder; [by left|].
  assert (is_Some (c_builder c)) as Hbs by (destruct (c_builder c); [by eexists|done]).
  apply (checked_spec c d e); try done; [|intros; by left]. intros hs now e' I _.
  wp_try as cand Hcand; [|by left]. apply ok_or_Ok in Hcand. wp_try as u' Hprof; [|by left].
  wp_check as Hck; [by left|]. wp_check as Hqueue; [by left|]. wp_check as Honce; [by left|]. reflect.
  eapply accept_spec; [done|exact I|done| |apply step_build; [done..| |done|]|].
  - split; [done|]. split_and!; [done..|]. exists rq. by split_and!.
  - unfold intent_ok. simpl. rewrite Hap. simpl.
    rewrite identifier_prefixed by (done || apply Hrec).
    rewrite !String.eqb_refl. simpl. rewrite bool_decide_true by congruence.
    rewrite !andb_true_r. rewrite andb_true_iff, !String.eqb_eq. split; congruence.
  - intros j i' Hj. simpl. intros E. rewrite existsb_false in Honce. rewrite <-String.eqb_eq in E.
    rewrite Honce in E; [done|]. apply elem_of_values. by exists j.
  - unfold response. simpl. by rewrite lookup_insert_eq.
Qed.

Lemma handle_system_spec c d uid e :
  deployed c d → en_poisoned e = false → wf (h_world (en_host e)) →
  wp (handle_system d uid) (λ _ e', idle (receipts_path c) e e') (λ _ e', idle (receipts_path c) e e') e.
Proof.
  intros D Hp Hw. assert (idle (receipts_path c) e e) as I0 by (by apply idle_refl).
  unfold handle_system. rewrite (dp_config _ _ D). wp_try as u Ha; [|done].
  apply (checked_spec c d e); try done. intros hs now e1 I1 _. wp_step.
  wp_apply (on_host_idle (on_disk (read_file (c_schema c) MAX_DOCUMENT)) (λ _, True) (receipts_path c) e1
              (id_poisoned _ _ _ I1)).
  { wp_apply (on_disk_reader _ _ (receipts_path c) _ (idle_wf _ _ _ I1) (read_file_reader _ _)); [|done]. intros ? ? [? _]. by split. }
  - intros b e2 [I2 _]. assert (idle (receipts_path c) e e2) by (by eapply idle_trans).
    wp_try as sch Hs; [|done]. by wp_step.
  - intros x e2 I2. by eapply idle_trans.
Qed.

(** [Engine::handle]: a request changes nothing, or is published before it is
    answered, or closes the engine. *)
Lemma handle_spec c d uid method route b e :
  deployed c d → hashes_ok (c_hashes c) = true → en_poisoned e = false → wf (h_world (en_host e)) →
  wp (handle d uid method route b)
    (λ v e', outcome_ok (receipts_path c) (moves (mkCall c uid method route b) (en_state e)) e e'
             ∧ (method = "POST"%string → replies (en_state e') v))
    (λ _ e', outcome_err (receipts_path c) (moves (mkCall c uid method route b) (en_state e)) e e') e.
Proof.
  intros D Hc Hp Hw. assert (idle (receipts_path c) e e) as I0 by (by apply idle_refl).
  unfold handle. wp_step. wp_step. wp_check as Hq; [by left|]. wp_check as Hbody; [by left|].
  destruct (method =? "GET")%string eqn:Hget; simpl.
  - apply String.eqb_eq in Hget as ->. destruct (route =? "/v1/system")%string.
    + wp_apply (handle_system_spec c d uid e D Hp Hw); [|intros; by left].
      intros v e' I. split; [by left|done].
    + wp_try as u Ha; [|by left]. case_match; [|wp_step; by left]. wp_step. wp_step.
      wp_step; [|by left]. split; [by left|done].
  - destruct (method =? "POST")%string eqn:Hpost; simpl; [|wp_step; by left]. apply String.eqb_eq in Hpost as ->.
    assert (∀ m : M Engine ApiError value, wp m
      (λ v e', outcome_ok (receipts_path c) (moves (mkCall c uid "POST" route b) (en_state e)) e e' ∧ replies (en_state e') v)
      (λ _ e', outcome_err (receipts_path c) (moves (mkCall c uid "POST" route b) (en_state e)) e e') e → wp m
      (λ v e', outcome_ok (receipts_path c) (moves (mkCall c uid "POST" route b) (en_state e)) e e'
               ∧ ("POST"%string = "POST"%string → replies (en_state e') v))
      (λ _ e', outcome_err (receipts_path c) (moves (mkCall c uid "POST" route b) (en_state e)) e e') e) as Hweak.
    { intros m Hm. wp_apply Hm; [|done]. intros v e' [? ?]. by split. }
    destruct (route =? "/v1/system/proposals")%string eqn:Hr1.
    { apply String.eqb_eq in Hr1. by apply Hweak, handle_propose_spec. }
    destruct (approve_route route) as [id|] eqn:Hr2; [by apply Hweak, handle_approve_spec|].
    destruct (route =? "/v1/system/builds")%string eqn:Hr3.
    { apply String.eqb_eq in Hr3. by apply Hweak, handle_build_spec. }
    wp_step. by left.
Qed.
End requests.

(** ** The build queue *)

Section queue.
Context `{HS : Sha2} `{!Sha2Laws} `{HJ : SerdeJson} `{HC : ControlCrates} `{!ControlLaws}.

Definition finishes (s s' : State) : Prop := ∃ id res, step (AFinish id res) s s'.

Lemma finish_spec c d id res e i :
  deployed c d → wf (h_world (en_host e)) → en_poisoned e = false →
  st_builds (en_state e) !! id = Some i → dispatchable (in_build i) = true →
  (∀ p, res = Ok p → output_path p = true) →
  wp (finish d id res) (λ _ e', ∃ s', step (AFinish id res) (en_state e) s' ∧ publishes (receipts_path c) s' e e')
    (λ _ e', ∃ s', step (AFinish id res) (en_state e) s' ∧ halts (receipts_path c) s' e e') e.
Proof.
  intros D Hw Hp Hi Hd Hres. unfold finish. wp_step. wp_step. rewrite Hi. simpl. wp_step. wp_step; simplify_eq.
  wp_step. wp_step. set (s' := set_builds (<[id := finished res a]>) (en_state e)).
  assert (step (AFinish id res) (en_state e) s') as Hst by by apply step_finish.
  wp_apply (persist_engine_spec c d (upd_state (set_builds (<[id := finished res a]>)) e) D Hw).
  - intros u e' [_ P]. exists s'. split; [done|]. destruct P; by split.
  - simpl. rewrite Hp. intros x e' P. exists s'. split; [done|]. destruct P; by split.
Qed.
(** A closed engine writes nothing. *)
Lemma finish_poisoned d id res e : en_poisoned e = true →
  wp (finish d id res) (λ _ _, False) (λ _ e', en_poisoned e' = true ∧ en_host e' = en_host e) e.
Proof.
  intros Hp. unfold finish. wp_step. wp_step. wp_try as i Hi; [|done]. wp_step. wp_step.
  unfold persist. wp_step. wp_step. simpl. rewrite Hp. by wp_step; wp_step.
Qed.

(** What a claimed build is: a queued, approved intent with the configuration of
    its proposal, whose hashes are those of the running deployment. *)
Record claimed (c : ControlConfig) (s : State) (w : Work) : Prop := {
  cl_intent : ∃ i cand, st_builds s !! wk_id w = Some i ∧ bu_state (in_build i) = "queued"%string
    ∧ st_proposals s !! bu_proposal_id (in_build i) = Some cand ∧ wk_toml w = cd_toml cand
    ∧ wk_inputs_hash w = h_inputs (in_hashes i) ∧ hashes_of c (in_hashes i);
  cl_builder : c_builder c = Some (wk_builder w);
  cl_destination : wk_destination w = below (abs (c_state c)) (wk_id w);
  cl_source : wk_source w = c_source c;
}.

Lemma zoom_idle {A} (m : M host string A) (Q : A → Prop) p e :
  en_poisoned e = false →
  wp m (λ a h', hkeeps p (en_host e) h' ∧ Q a) (λ _ h', hkeeps p (en_host e) h') (en_host e) →
  wp (attempt (E' := string) (zoom en_host set_host m))
    (λ r e', idle p e e' ∧ match r with Ok a => Q a | Err _ => True end) (λ _ _, False) e.
Proof.
  intros Hp Hm. wp_step. wp_step. wp_apply Hm.
  - intros a h' [K HQ]. by split.
  - intros x h' K. by split.
Qed.

Lemma intent_ok_facts s id i : intent_ok s id i = true →
  ∃ a, st_approvals s !! in_approval_id i = Some a ∧ ap_proposal_id a = bu_proposal_id (in_build i)
       ∧ ap_revision a = bu_revision (in_build i) ∧ ap_hashes a = in_hashes i.
Proof.
  unfold intent_ok. destruct (st_approvals s !! _) as [a|]; [|done]. cbn [is_some_and].
  rewrite !andb_true_iff. intros Hi. destruct_and!. reflect. eauto.
Qed.
Lemma approval_ok_facts s id a : approval_ok s id a = true →
  ∃ cand, st_proposals s !! ap_proposal_id a = Some cand
          ∧ ap_revision a = pr_revision (cd_proposal cand) ∧ ap_hashes a = pr_hashes (cd_proposal cand).
Proof.
  unfold approval_ok. destruct (st_proposals s !! _) as [c|]; [|done]. cbn [is_some_and].
  rewrite !andb_true_iff. intros Hi. destruct_and!. reflect. eauto.
Qed.

(** No build is waiting, or one is already being built. *)
Definition nothing_to_do (s : State) : bool :=
  existsb (state_is "building") (values (st_builds s))
  || negb (existsb (state_is "queued") (values (st_builds s))).
Lemma find_first_None {A} (f : A → bool) l : find_first f l = None → existsb f l = false.
Proof. induction l as [|x l IH]; simpl; [done|]. destruct (f x); [done|]. apply IH. Qed.

Lemma claim_spec c d e :
  deployed c d → en_poisoned e = false → wf (h_world (en_host e)) → linked (en_state e) →
  (∀ id i, st_builds (en_state e) !! id = Some i → dispatchable (in_build i) = true → is_Some (c_builder c)) →
  wp (claim d)
    (λ work e', match work with
       | None => (idle (receipts_path c) e e' ∧ nothing_to_do (en_state e) = true)
                 ∨ ∃ s', finishes (en_state e) s' ∧ publishes (receipts_path c) s' e e'
       | Some w => ∃ s', claimed c (en_state e) w ∧ step (AClaim (wk_id w)) (en_state e) s'
                         ∧ publishes (receipts_path c) s' e e'
       end)
    (λ _ e', ∃ s', (finishes (en_state e) s' ∨ ∃ id, step (AClaim id) (en_state e) s')
                   ∧ halts (receipts_path c) s' e e') e.
Proof.
  intros D Hp Hw L Hbd. assert (idle (receipts_path c) e e) as I0 by (by apply idle_refl).
  unfold claim. rewrite (dp_config _ _ D). wp_step. wp_step. rewrite Hp. wp_step. wp_step; [done|]. wp_step. wp_step.
  destruct (existsb (state_is "building") _) eqn:Hing.
  { wp_step. left. split; [done|]. unfold nothing_to_do. by rewrite Hing. }
  destruct (find_first _ _) as [i|] eqn:Hf.
  2: { wp_step. left. split; [done|]. unfold nothing_to_do. by rewrite (find_first_None _ _ Hf), orb_true_r. }
  apply find_first_Some in Hf as [(k & Hk)%elem_of_values Hqd%String.eqb_eq].
  pose proof (lk_valid _ L) as Hv. apply State_validate_Ok in Hv.
  pose proof (vd_intent _ Hv k i Hk) as Hok. cbn beta in Hok.
  assert (k = bu_id (in_build i)) as ->.
  { unfold intent_ok in Hok. destruct (st_approvals _ !! _); [|done]. cbn [is_some_and] in Hok.
    rewrite !andb_true_iff in Hok. destruct_and!. by apply String.eqb_eq. }
  assert (dispatchable (in_build i) = true) as Hd by (unfold dispatchable; by rewrite Hqd).
  set (id := bu_id (in_build i)) in *.
  assert (∀ e1 x, idle (receipts_path c) e e1 →
    wp (_ ← finish d id (Err x); mret (None (A := Work)))
      (λ work e', match work with
         | None => (idle (receipts_path c) e e' ∧ nothing_to_do (en_state e) = true)
                 ∨ ∃ s', finishes (en_state e) s' ∧ publishes (receipts_path c) s' e e'
         | Some w => ∃ s', claimed c (en_state e) w ∧ step (AClaim (wk_id w)) (en_state e) s'
                           ∧ publishes (receipts_path c) s' e e'
         end)
      (λ _ e', ∃ s', (finishes (en_state e) s' ∨ ∃ id, step (AClaim id) (en_state e) s')
                     ∧ halts (receipts_path c) s' e e') e1) as Hfin.
  { intros e1 x I1. wp_step. rewrite <-(id_state _ _ _ I1) in Hk.
    wp_apply (finish_spec c d id (Err x) e1 i D (idle_wf _ _ _ I1) (id_poisoned _ _ _ I1) Hk Hd ltac:(done)).
    - intros u e2 (s' & Hst & P). wp_step. rewrite (id_state _ _ _ I1) in Hst.
      right. exists s'. split; [by eexists _, _|]. by eapply idle_then_publishes.
    - intros y e2 (s' & Hst & P). rewrite (id_state _ _ _ I1) in Hst.
      exists s'. split; [left; by eexists _, _|by eapply idle_then_halts]. }
  wp_step. wp_apply (zoom_idle (current_hashes c) (hashes_of c) (receipts_path c) e Hp
                       (current_hashes_spec c _ _ Hw)); [|done].
  intros hashes e1 [I1 Hhs]. wp_step.
  wp_apply (zoom_idle (on_disk (source_bytes c)) (λ _, True) (receipts_path c) e1 (id_poisoned _ _ _ I1)
     (on_disk_reader _ _ _ _ (idle_wf _ _ _ I1) (source_bytes_reader c))); [|done].
  intros source e2 [I12 _]. assert (idle (receipts_path c) e e2) as I2 by (by eapply idle_trans). clear I12.
  destruct source as [source|x]; [|by apply Hfin]. wp_step.
  wp_apply (zoom_idle (normalize d source) (λ v, is_object v = true) (receipts_path c) e2 (id_poisoned _ _ _ I2)
     (normalize_spec c d source _ D (idle_wf _ _ _ I2))); [|done].
  intros base e3 [I23 _]. assert (idle (receipts_path c) e e3) as I3 by (by eapply idle_trans). clear I23.
  destruct (intent_ok_facts _ _ _ Hok) as (ap & Hap & Eap & _).
  destruct (approval_ok_facts _ _ _ (vd_approval _ Hv _ _ Hap)) as (cand & Hcand & _). rewrite Eap in Hcand.
  rewrite Hcand. wp_step. apply wp_lift; [intros ? [= <-]|done].
  destruct (negb (ok_is hashes (in_hashes i)) || _) eqn:Hck; [by apply Hfin|].
  apply orb_false_iff in Hck as [Hck _]. apply negb_false_iff in Hck.
  destruct hashes as [hs|]; simpl in Hck; [|done]. apply bool_decide_eq_true in Hck as ->.
  destruct (Hbd _ _ Hk Hd) as [builder Hb]. rewrite Hb, Hk. wp_step. apply wp_lift; [intros ? [= <-]|done].
  wp_step. apply wp_lift; [intros ? [= <-]|done]. wp_step. wp_step. wp_step.
  set (s' := set_builds (<[id := set_build_state "building" i]>) (en_state e)).
  assert (step (AClaim id) (en_state e) s') as Hst by by apply step_claim.
  set (e4 := upd_state _ e3). assert (en_state e4 = s') as Es by (simpl; by rewrite (id_state _ _ _ I3)).
  wp_apply (persist_engine_spec c d e4 D (idle_wf _ _ _ I3)).
  - intros u e5 [_ P]. wp_step. exists s'. split_and!.
    + split; try done. exists i, cand. by split_and!.
    + done.
    + rewrite Es in P. destruct P. split; try done. rewrite pb_euid0. apply (kp_euid _ _ _ (id_keeps _ _ _ I3)).
  - change (en_poisoned e4) with (en_poisoned e3). rewrite (id_poisoned _ _ _ I3). intros x e5 P. rewrite Es in P.
    exists s'. split; [right; by exists id|]. eapply idle_then_halts; [exact I3|]. destruct P; by split.
Qed.

(** ** Execution *)

(** The candidate below [dir] is a template with hash [b_template_hash b] and the
    configuration [toml]. *)
Definition candidate_at (b : Builder) (dir toml : string) (w : world) : Prop :=
  ∃ files, hash_inventory files = b_template_hash b
    ∧ ∀ f, f ∈ files → holds w (below dir (tf_path f)) (candidate_data toml f).

Lemma candidate_at_same b dir toml w w' : wf w → same_fs w w' → candidate_at b dir toml w → candidate_at b dir toml w'.
Proof.
  intros Hw S (files & Hh & Hf). exists files. split; [done|]. intros f Hin.
  eapply keeps_holds; [|by apply Hf]. by apply same_fs_keeps.
Qed.

(** What execution does to the host: nothing outside the candidate, and at most
    one command, the build of the finished candidate. *)
Record executed (w : Work) (h h' : host) : Prop := {
  xe_wf : wf (h_world h');
  xe_keeps q : ¬ under (wk_destination w) q → hkeeps q h h';
  xe_commands : h_commands h' = h_commands h
    ∨ (h_commands h' = build_command w :: h_commands h
       ∧ candidate_at (wk_builder w) (wk_destination w) (wk_toml w) (h_world h'));
}.

Lemma build_output_Ok v p : build_output v = Ok p → output_path p = true.
Proof.
  unfold build_output. intros Hb. inv_ok. unfold ofilter in Hb. case_match; [|done]. case_match; [|done].
  by injection Hb as <-.
Qed.

Lemma execute_spec w h : wf (h_world h) →
  wp (execute w) (λ p h', output_path p = true ∧ executed w h h') (λ _ h', executed w h h') h.
Proof.
  intros Hw. unfold execute. wp_step. unfold on_disk at 1. wp_step.
  wp_apply (materialize_spec (wk_builder w) (wk_destination w) (wk_toml w) (h_world h) Hw).
  2: { intros e w1 [Hw1 K1]. split; try done. by left. }
  intros u w1 (Hw1 & K1 & Hc1). set (h1 := set_world w1 h).
  assert (∀ w', same_fs w1 w' → executed w h (set_world w' h1)) as Hx.
  { intros w' S. split; simpl; [by rewrite <-S| |by left]. intros q Hq. eapply keeps_same; [by apply K1|done]. }
  assert (∀ (m : M world string bytes) h2, reader m (λ _ _, True) → (∃ w', same_fs w1 w' ∧ h2 = set_world w' h1) →
    wp (on_disk m) (λ _ h', ∃ w', same_fs w1 w' ∧ h' = set_world w' h1) (λ _ h', executed w h h') h2) as Hrd.
  { intros m h2 Hm (w' & S & ->). unfold on_disk. wp_step. wp_apply (Hm w').
    - intros b w'' [S' _]. exists w''. split; [by etrans|done].
    - intros e w'' S'. apply Hx. by etrans. }
  assert (∀ p l, reader (read_file p l) (λ _ _, True)) as Hrf.
  { intros p l. by eapply reader_mono; [apply read_file_reader|]. }
  wp_step. wp_apply (Hrd _ _ (Hrf _ _)); [by exists w1|..|done].
  intros lockfile h2 Hh2. wp_step. wp_step; [destruct Hh2 as (w' & S & ->); by apply Hx|].
  wp_step. wp_apply (Hrd _ _ (Hrf _ _) Hh2); [|done]. intros source h3 (w' & S & ->).
  wp_step. wp_step; [by apply Hx|]. wp_step.
  assert (∀ rest, executed w h (mkHost w' rest (build_command w :: h_commands h))) as Hx'.
  { intros rest. destruct (Hx w' S) as [X1 X2 _]. split; try done. right. split; [done|].
    exact (candidate_at_same _ _ _ w1 w' Hw1 S Hc1). }
  unfold wp at 1, run_command. simpl. destruct (h_children h) as [|ch rest]; simpl; [apply Hx'|].
  destruct (process_run MAX_DOCUMENT ch) as [out|]; simpl; [|apply Hx'].
  wp_try as v Hv; [|apply Hx']. wp_step; [|apply Hx']. split; [by eapply build_output_Ok|apply Hx'].
Qed.
End queue.

(** ** Opening *)

Lemma components_below a b : components (below a b) = components a ++ components b.
Proof. unfold components, below. change ("/" ++ b)%string with (String "/" b). by rewrite split_char_sep, List.filter_app. Qed.
Lemma abs_below a name : components name = [name] → abs (below a name) = below (abs a) name.
Proof. intros Hn. unfold abs, canonical. by rewrite components_below, Hn, foldl_app. Qed.
Lemma append_empty_r (s : string) : (s ++ "")%string = s.
Proof. induction s as [|x s IH]; [done|]. change (String x (s +:+ "") = String x s). by f_equal. Qed.
Lemma receipts_not_under c x n : x ≠ "r"%char → ¬ under (below (abs (c_state c)) (String x n)) (receipts_path c).
Proof.
  unfold receipts_path, RECEIPTS. intros Hn Hu. set (name := String x n) in *.
  assert (∃ r, "/receipts.json"%string = ("/" ++ (name ++ r))%string) as (r & Hr).
  { destruct Hu as [E|(r & E)]; unfold below in E; rewrite ?append_assoc in E; apply append_inj_r in E.
    - exists EmptyString. rewrite append_empty_r. exact E.
    - exists ("/" ++ r)%string. exact E. }
  change (String "/" (String "r" "eceipts.json") = String "/" (String x (n ++ r))) in Hr. by simplify_eq.
Qed.

Section opening.
Context `{HS : Sha2} `{!Sha2Laws} `{HJ : SerdeJson} `{HC : ControlCrates} `{!ControlLaws}.

(** The receipts a stopped service has: a file, or none yet. *)
Definition at_rest (p : string) (w : world) (s : State) : Prop :=
  stored p w s ∨ (s = State_default ∧ w_names w !! p = None).
Lemma stored_keeps p w w' s : keeps p w w' → stored p w s → stored p w' s.
Proof. intros K (b & Hb & O). exists b. split; [done|]. by eapply keeps_owned. Qed.
Lemma at_rest_keeps p w w' s : keeps p w w' → at_rest p w s → at_rest p w' s.
Proof.
  intros K [?|[-> Hn]]; [left; by eapply stored_keeps|right]. split; [done|]. by apply (kp_none _ _ _ K).
Qed.
Lemma owned_unique p w b b' : owned_file w p b → owned_file w p b' → b = b'.
Proof.
  intros (i & n & Hi & Hn & _ & _ & _ & _ & <-) (i' & n' & Hi' & Hn' & _ & _ & _ & _ & <-). by simplify_eq.
Qed.
Lemma same_receipts_refl s : same_receipts s s.
Proof. split; try done. intros id. destruct (st_proposals s !! id); by constructor. Qed.

Definition restarted (s : State) : State := set_builds (fmap interrupt) s.
(** The receipts a start accepts for the stored receipts [s]. *)
Definition recovers (s s' : State) : Prop :=
  ∃ s1, same_receipts s s1 ∧ State_validate s1 = Ok tt ∧ s' = restarted s1.

Lemma ensure_directory_keeps c w : wf w →
  wp (ensure_directory (below (abs (c_state c)) "normalize"))
    (λ _ w', keeps (receipts_path c) w w') (λ _ w', keeps (receipts_path c) w w') w.
Proof.
  intros Hw. pose proof (receipts_not_under c "n" "ormalize" ltac:(done)) as Hu.
  unfold ensure_directory. wp_step. wp_step.
  wp_apply (wp_mkdir_adds (below (abs (c_state c)) "normalize") _ 511 w Hw); [by left|..].
  - intros u w1 [Hw1 K1]. wp_step.
    wp_apply (wp_chmod_keeps (below (abs (c_state c)) "normalize") 448 w1 Hw1).
    + intros u' w2 [_ K2]. eapply keeps_trans; [apply K1; by left|]. apply K2. intros E. apply Hu. by left.
    + intros e w2 S2. eapply keeps_same; [apply K1; by left|done].
  - intros [] w1 S1; wp_step; by apply same_fs_keeps.
Qed.

Lemma lock_keeps c path w : wf w → receipts_path c ≠ below (abs path) "writer.lock" →
  wp (lock path) (λ d w', pd_path d = abs path ∧ keeps (receipts_path c) w w')
    (λ _ w', keeps (receipts_path c) w w') w.
Proof.
  intros Hw Hne. wp_apply (lock_spec path w Hw).
  - intros d w' (Hd & Hw' & K). split; [done|]. apply K. unfold entry. by rewrite Hd.
  - intros e w' [Hw' K]. by apply K.
Qed.

Lemma open_state_spec c h s :
  wf (h_world h) → at_rest (receipts_path c) (h_world h) s →
  let p := receipts_path c in
  wp (open_state c)
    (λ r h', deployed c (fst r) ∧ recovers s (snd r) ∧ stored p (h_world h') (snd r)
             ∧ wf (h_world h') ∧ w_euid (h_world h') = w_euid (h_world h))
    (λ _ h', wf (h_world h') ∧ w_euid (h_world h') = w_euid (h_world h)
             ∧ (hkeeps p h h' ∨ ∃ s', recovers s s' ∧ stored p (h_world h') s')) h.
Proof.
  intros Hw Hs p. unfold open_state.
  assert (∀ h', hkeeps p h h' → wf (h_world h') ∧ w_euid (h_world h') = w_euid (h_world h)
    ∧ (hkeeps p h h' ∨ ∃ s', recovers s s' ∧ stored p (h_world h') s')) as Herr.
  { intros h' K. split_and!; [apply K|apply K|by left]. }
  wp_step. unfold on_disk at 1. wp_step. wp_apply (lock_keeps c (c_state c) (h_world h) Hw).
  { intros E. unfold receipts_path, below in E. apply append_inj_r in E. discriminate. }
  2: { intros e w1 K1. by apply Herr. }
  intros st w1 [Hst K1]. wp_step. unfold on_disk at 1. wp_step.
  wp_apply (ensure_directory_keeps c w1 (kp_wf _ _ _ K1)).
  2: { intros e w2 K2. apply Herr. by eapply keeps_trans. }
  intros u w2 K2. wp_step. unfold on_disk at 1. wp_step.
  wp_apply (lock_keeps c (below (c_state c) "normalize") w2 (kp_wf _ _ _ K2)).
  { rewrite abs_below by done. unfold receipts_path, below. rewrite !append_assoc. intros E.
    apply append_inj_r in E. discriminate. }
  2: { intros e w3 K3. apply Herr. exact (keeps_trans p _ _ _ K1 (keeps_trans p _ _ _ K2 K3)). }
  intros nst w3 [Hnst K3]. rewrite abs_below in Hnst by done.
  assert (keeps p (h_world h) w3) as K by exact (keeps_trans p _ _ _ K1 (keeps_trans p _ _ _ K2 K3)).
  clear K1 K2 K3. set (d := mkDeployment c st nst). assert (deployed c d) as D by done.
  wp_step. unfold on_disk at 1. wp_step.
  wp_reader (read_entry_reader st RECEIPTS MAX_STATE) as data w4 S4 Hdata; [|apply Herr; by eapply keeps_same].
  assert (keeps p (h_world h) w4) as K4 by (by eapply keeps_same). set (h4 := set_world w4 _).
  assert (hkeeps p h h4) as K4' by done.
  assert (at_rest p w3 s) as R3 by (by eapply at_rest_keeps).
  change (entry st RECEIPTS) with (entry (d_store d) RECEIPTS) in Hdata. rewrite (deployed_entry c d D) in Hdata.
  wp_try as s0 Hs0; [|by apply Herr]. wp_try as u' Hval; [|by apply Herr]. destruct u'.
  assert (same_receipts s s0) as Hsame.
  { destruct data as [b|].
    - apply ok_or_Ok in Hs0. destruct Hdata as [O _]. destruct R3 as [(b' & Hb' & O')|[_ Hn]].
      + rewrite (owned_unique _ _ _ _ O O') in Hs0. destruct (state_codec _ _ Hb') as (s1 & Hs1 & Hr).
        by simplify_eq.
      + destruct O as (i & n & Hi & _). change (w_names w3 !! p = Some i) in Hi. congruence.
    - injection Hs0 as <-. destruct R3 as [(b' & Hb' & (i & n & Hi & Hn & _))|[-> _]]; [|apply same_receipts_refl].
      change (lookup_inode w3 p = None) in Hdata. unfold lookup_inode in Hdata. rewrite Hi in Hdata. simpl in Hdata. by rewrite Hn in Hdata. }
  assert (recovers s (restarted s0)) as Hrec by (by exists s0).
  wp_step. unfold with_state.
  assert (wp (persist d) (λ _ e', publishes p (restarted s0) (mkEngine h4 (restarted s0) false) e')
            (λ _ e', halts p (restarted s0) (mkEngine h4 (restarted s0) false) e')
            (mkEngine h4 (restarted s0) false)) as Hps.
  { wp_apply (persist_engine_spec c d (mkEngine h4 (restarted s0) false) D (kp_wf _ _ _ K4')); [|done]. by intros u' e' [_ ?]. }
  unfold wp at 1. unfold wp in Hps. fold (restarted s0).
  destruct (persist d _) as [[u'|x] e']; simpl.
  2: { destruct Hps. split_and!; [done|etrans; [exact ht_euid0|apply (kp_euid _ _ _ K4)]|].
       destruct ht_disk0 as [K'|?]; [left; by eapply hkeeps_trans|right; eauto]. }
  destruct Hps as [-> _ Hw' He' Hst']. wp_step.
  wp_apply (current_hashes_spec c p (en_host e') Hw').
  - intros hs h5 [K5 _]. wp_step. simpl. split_and!; try done.
    + by eapply stored_keeps.
    + apply K5.
    + rewrite (kp_euid _ _ _ K5), He'. apply (kp_euid _ _ _ K4).
  - intros x h5 K5. split_and!; [apply K5|rewrite (kp_euid _ _ _ K5), He'; apply (kp_euid _ _ _ K4)|].
    right. exists (restarted s0). split; [done|]. by apply (stored_keeps p (h_world (en_host e'))).
Qed.
End opening.

