(* ===== verification/ControlRun.v ===== *)
(** * The control service over its lifetime

    [run] is the reachable-states relation of the control plane of one state
    directory: the service is stopped or running; while it runs, its engine
    handles requests of any peer, the worker claims, executes and finishes
    builds, and both interleave in any order; it may stop or crash at any point
    and be started again, with the same or another configuration.  Everything
    outside the receipts file may change between steps.  The history of a run is
    the list of the calls the engine was given and of the builds it released. *)

From S2P Require Import Prelude RustStr Json Posix Budget PrivateStore Process Template ControlData Engine Receipts EngineSpec.

Section lifetime.
Context `{HS : Sha2} `{!Sha2Laws} `{HJ : SerdeJson} `{HC : ControlCrates} `{!ControlLaws}.

(** ** Opening checks the deployment *)

Lemma immutable_input_reader path : reader (immutable_input path) (λ _ _, True).
Proof.
  intros w. unfold immutable_input. wp_step. wp_reader (open_path_reader path false) as f w1 S1 _; [|done].
  wp_step. wp_step. wp_reader (reader_fstat f) as m w2 S2 _; [|by etrans].
  wp_step; [by etrans|]. split; [by etrans|done].
Qed.
Lemma config_validate_reader c : reader (config_validate c) (λ _ _, hashes_ok (c_hashes c) = true).
Proof.
  intros w. unfold config_validate. wp_step. wp_step. wp_check as Hc; [done|]. wp_step.
  wp_reader (immutable_input_reader (c_normalizer c)) as u w1 S1 _; [|done]. wp_step.
  wp_reader (immutable_input_reader (c_schema c)) as u' w2 S2 _; [|by etrans].
  wp_step; [by etrans|]. split; [by etrans|]. repeat (apply orb_false_iff in Hc as [Hc ?]).
  by apply negb_false_iff.
Qed.

(** What an attempt to start can leave. *)
Lemma engine_open_spec c h s :
  wf (h_world h) → at_rest (receipts_path c) (h_world h) s →
  let p := receipts_path c in
  wp (engine_open c)
    (λ r h', hashes_ok (c_hashes c) = true ∧ deployed c (fst r) ∧ recovers s (snd r)
             ∧ stored p (h_world h') (snd r) ∧ wf (h_world h'))
    (λ _ h', wf (h_world h') ∧ (hkeeps p h h' ∨ ∃ s', recovers s s' ∧ stored p (h_world h') s')) h.
Proof.
  intros Hw Hs p. unfold engine_open. wp_step.
  wp_apply (on_disk_reader _ _ p h Hw (config_validate_reader c)).
  2: { intros x h1 K1. split; [apply K1|by left]. }
  intros u h1 [K1 Hc]. assert (at_rest p (h_world h1) s) as Hs1 by (by eapply at_rest_keeps).
  wp_apply (open_state_spec c h1 s (kp_wf _ _ _ K1) Hs1).
  - intros r h2 (D & R & St & Hw2 & _). done.
  - intros x h2 (Hw2 & _ & Hd). split; [done|].
    destruct Hd as [K2|?]; [left; by eapply hkeeps_trans|by right].
Qed.

(** ** What one transition preserves *)

(** The same build, perhaps further along. *)
Record same_intent (i i' : Intent) : Prop := {
  si_approval : in_approval_id i' = in_approval_id i;
  si_hashes : in_hashes i' = in_hashes i;
  si_proposal : bu_proposal_id (in_build i') = bu_proposal_id (in_build i);
  si_revision : bu_revision (in_build i') = bu_revision (in_build i);
  si_started : bu_state (in_build i) ≠ "queued"%string → bu_state (in_build i') ≠ "queued"%string;
}.
Lemma same_intent_refl i : same_intent i i.
Proof. by split. Qed.
Lemma same_intent_trans a b c : same_intent a b → same_intent b c → same_intent a c.
Proof. intros [] []. split; [congruence..|auto]. Qed.
Lemma same_intent_interrupt i : same_intent i (interrupt i).
Proof. unfold interrupt. destruct (dispatchable _) eqn:E; [|apply same_intent_refl]. by split. Qed.
Lemma same_intent_finished res i : same_intent i (finished res i).
Proof. destruct res; by split. Qed.
Lemma same_intent_building i : same_intent i (set_build_state "building" i).
Proof. by split. Qed.

(** Receipts never disappear, and their content is fixed. *)
Record grows (s s' : State) : Prop := {
  gr_proposals id cand : st_proposals s !! id = Some cand →
    ∃ cand', st_proposals s' !! id = Some cand' ∧ same_candidate cand cand';
  gr_approvals id a : st_approvals s !! id = Some a → st_approvals s' !! id = Some a;
  gr_builds id i : st_builds s !! id = Some i → ∃ i', st_builds s' !! id = Some i' ∧ same_intent i i';
  gr_requests r x : st_requests s !! r = Some x → st_requests s' !! r = Some x;
}.
Lemma grows_refl s : grows s s.
Proof. split; eauto using same_candidate_refl, same_intent_refl. Qed.
Lemma grows_trans a b c : grows a b → grows b c → grows a c.
Proof.
  intros [P1 A1 B1 R1] [P2 A2 B2 R2]. split; [| |..]; eauto.
  - intros id x (x' & Hx & ?)%P1. destruct (P2 _ _ Hx) as (x'' & ? & ?). eauto using same_candidate_trans.
  - intros id i (i' & Hi & ?)%B1. destruct (B2 _ _ Hi) as (i'' & ? & ?). eauto using same_intent_trans.
Qed.
Lemma step_grows a s s' : linked s → step a s s' → grows s s'.
Proof.
  intros L St. destruct St as [s r fp x id -> Hf ? ?|s r fp x id -> Hf ?|s r fp x id -> Hf ? ? ?|
    s id x Hx Hq|s id x res Hx Hd Hr|s]; pose proof (grows_refl s) as [P A B R].
  - pose proof (record_fresh_key "p_" "proposal" _ _ r (fr_new _ _ _ Hf) (lk_proposals _ L)) as Hk.
    split; simpl; eauto.
    + intros id cand Hid. rewrite lookup_insert_ne by congruence. eauto.
    + intros r' y Hy. rewrite lookup_insert_ne; [done|]. pose proof (fr_new _ _ _ Hf). congruence.
  - pose proof (record_fresh_key "a_" "approval" _ _ r (fr_new _ _ _ Hf) (lk_approvals _ L)) as Hk.
    split; simpl; eauto.
    + intros id a Hid. rewrite lookup_insert_ne by congruence. eauto.
    + intros r' y Hy. rewrite lookup_insert_ne; [done|]. pose proof (fr_new _ _ _ Hf). congruence.
  - pose proof (record_fresh_key "b_" "build" _ _ r (fr_new _ _ _ Hf) (lk_builds _ L)) as Hk.
    split; simpl; eauto.
    + intros id i Hid. rewrite lookup_insert_ne by congruence. eauto.
    + intros r' y Hy. rewrite lookup_insert_ne; [done|]. pose proof (fr_new _ _ _ Hf). congruence.
  - split; simpl; eauto. intros j i Hj. rewrite lookup_insert. case_decide; subst; simplify_eq; eauto.
    eexists. split; [done|]. by split.
  - split; simpl; eauto. intros j i Hj. rewrite lookup_insert. case_decide; subst; simplify_eq; eauto.
    eexists. split; [done|]. apply same_intent_finished.
  - split; simpl; eauto. intros j i Hj. rewrite lookup_fmap, Hj. simpl.
    eexists. split; [done|]. apply same_intent_interrupt.
Qed.

Lemma same_receipts_linked s s' : linked s → same_receipts s s' → State_validate s' = Ok tt → linked s'.
Proof.
  intros [Hv Lp La Lb Lo] [SP SA SB SR] Hv'. split; [done|..]; rewrite ?SA, ?SB, ?SR; [|done..].
  intros id c Hc. specialize (SP id). rewrite Hc in SP. destruct (st_proposals s !! id) eqn:E; [eauto|inversion SP].
Qed.
Lemma recovers_linked s s' : linked s → recovers s s' → linked s'.
Proof. intros L (s1 & S & Hv & ->). apply restart_linked. by eapply same_receipts_linked. Qed.
Lemma recovers_grows s s' : recovers s s' → grows s s'.
Proof.
  intros (s1 & [SP SA SB SR] & Hv & ->). split; simpl; rewrite ?SA, ?SB, ?SR; eauto.
  - intros id cand Hc. specialize (SP id). rewrite Hc in SP.
    destruct (st_proposals s1 !! id) as [cand'|]; inversion SP; subst; eauto.
  - intros id i Hi. rewrite lookup_fmap, Hi. simpl. eexists. split; [done|]. apply same_intent_interrupt.
Qed.
(** Nothing is waiting or running after a restart. *)
Lemma recovers_started s s' id i : recovers s s' → st_builds s' !! id = Some i → dispatchable (in_build i) = false.
Proof.
  intros (s1 & _ & _ & ->) Hi. simpl in Hi. rewrite lookup_fmap in Hi.
  apply fmap_Some in Hi as (i0 & _ & ->). unfold interrupt. by destruct (dispatchable (in_build i0)) eqn:E.
Qed.

(** ** Runs *)

(** A call given to the engine; a build released to execution, with the approval
    that granted it. *)
Inductive event : Type :=
| Called (k : call)
| Dispatched (c : ControlConfig) (w : Work) (approval : string).

(** The worker's job: claimed, then executed. *)
Inductive job : Type := Idle | Claimed (w : Work) | Done (w : Work) (r : result string string).
Inductive status : Type :=
| Stopped (h : host)
| Running (c : ControlConfig) (d : deployment) (e : Engine) (j : job).
Definition status_host (st : status) : host :=
  match st with Stopped h => h | Running _ _ e _ => en_host e end.

(** Other processes, the operator and time: anything but the receipts file. *)
Definition environment (p : string) (h h' : host) : Prop := hkeeps p h h'.
Definition state_receipts (state : string) : string := below (abs state) RECEIPTS.

(** The approval of a claimed build, as the engine has it. *)
Definition granted (s : State) (w : Work) : string := from_option in_approval_id EmptyString (st_builds s !! wk_id w).
Definition claim_job (r : result string (option Work)) : job :=
  match r with Ok (Some w) => Claimed w | _ => Idle end.
Definition claim_events (c : ControlConfig) (s : State) (r : result string (option Work)) : list event :=
  match r with Ok (Some w) => [Dispatched c w (granted s w)] | _ => [] end.

Inductive run (state : string) : status → list event → Prop :=
| run_init h : wf (h_world h) → w_names (h_world h) !! state_receipts state = None →
    run state (Stopped h) []
| run_environment st h' hs : run state st hs → environment (state_receipts state) (status_host st) h' →
    run state (match st with Stopped _ => Stopped h' | Running c d e j => Running c d (set_host h' e) j end) hs
| run_start c h d s h' hs : run state (Stopped h) hs → c_state c = state →
    engine_open c h = (Ok (d, s), h') → run state (Running c d (mkEngine h' s false) Idle) hs
| run_refused c h x h' hs : run state (Stopped h) hs → c_state c = state →
    engine_open c h = (Err x, h') → run state (Stopped h') hs
| run_stop c d e j hs : run state (Running c d e j) hs → run state (Stopped (en_host e)) hs
| run_handle c d e j hs uid method route b r e' : run state (Running c d e j) hs →
    handle d uid method route b e = (r, e') →
    run state (Running c d e' j) (Called (mkCall c uid method route b) :: hs)
| run_claim c d e hs r e' : run state (Running c d e Idle) hs →
    claim d e = (r, e') → run state (Running c d e' (claim_job r)) (claim_events c (en_state e) r ++ hs)
| run_execute c d e w hs r h' : run state (Running c d e (Claimed w)) hs →
    execute w (en_host e) = (r, h') → run state (Running c d (set_host h' e) (Done w r)) hs
| run_finish c d e w r hs x e' : run state (Running c d e (Done w r)) hs →
    finish d (wk_id w) r e = (x, e') → run state (Running c d e' Idle) hs.

(** ** The trace behind the receipts *)

(** Some call of the history asked for [a]. *)
Definition asked (hs : list event) (a : action) : Prop := ∃ k, Called k ∈ hs ∧ requested k a.
Record traced (hs : list event) (s : State) : Prop := {
  tr_proposals id cand : st_proposals s !! id = Some cand →
    ∃ r fp cand0, id = ("p_" ++ r)%string ∧ same_candidate cand0 cand ∧ asked hs (APropose r fp cand0);
  tr_approvals id a : st_approvals s !! id = Some a →
    ∃ r fp, id = ("a_" ++ r)%string ∧ asked hs (AApprove r fp a);
  tr_builds id i : st_builds s !! id = Some i →
    ∃ r fp i0, id = ("b_" ++ r)%string ∧ same_intent i0 i ∧ asked hs (ABuild r fp i0);
}.

(** The chain of requests behind a released build: a proposal, its approval and
    a build request, each by a peer with the role for it, whose configuration,
    revision and hashes are those of the build. *)
Definition justified (hs : list event) (c : ControlConfig) (w : Work) (approval : string) : Prop :=
  ∃ r1 fp1 cand r2 fp2 a r3 fp3 i,
    asked hs (APropose r1 fp1 cand) ∧ asked hs (AApprove r2 fp2 a) ∧ asked hs (ABuild r3 fp3 i)
    ∧ wk_id w = ("b_" ++ r3)%string ∧ approval = ("a_" ++ r2)%string
    ∧ in_approval_id i = approval ∧ ap_proposal_id a = ("p_" ++ r1)%string
    ∧ bu_proposal_id (in_build i) = ap_proposal_id a
    ∧ ap_revision a = pr_revision (cd_proposal cand) ∧ bu_revision (in_build i) = ap_revision a
    ∧ ap_hashes a = pr_hashes (cd_proposal cand) ∧ in_hashes i = ap_hashes a
    ∧ hashes_of c (in_hashes i)
    ∧ wk_toml w = cd_toml cand ∧ wk_inputs_hash w = h_inputs (in_hashes i)
    ∧ c_builder c = Some (wk_builder w).

Definition grants (hs : list event) : list string :=
  omap (λ ev, match ev with Dispatched _ _ a => Some a | Called _ => None end) hs.
Record released (hs : list event) (s : State) : Prop := {
  rl_started c w a : Dispatched c w a ∈ hs →
    ∃ i, st_builds s !! wk_id w = Some i ∧ in_approval_id i = a ∧ bu_state (in_build i) ≠ "queued"%string;
  rl_justified c w a : Dispatched c w a ∈ hs → justified hs c w a;
  rl_once : NoDup (grants hs);
}.

Lemma asked_mono hs hs' a : hs ⊆ hs' → asked hs a → asked hs' a.
Proof. intros Hs (k & Hk & ?). exists k. split; [by apply Hs|done]. Qed.
Lemma traced_mono hs hs' s : hs ⊆ hs' → traced hs s → traced hs' s.
Proof.
  intros Hs [P A B]. split.
  - intros id c (r & fp & c0 & ? & ? & ?)%P. exists r, fp, c0. split_and!; try done. by eapply asked_mono.
  - intros id a (r & fp & ? & ?)%A. exists r, fp. split; [done|]. by eapply asked_mono.
  - intros id i (r & fp & i0 & ? & ? & ?)%B. exists r, fp, i0. split_and!; try done. by eapply asked_mono.
Qed.
Lemma justified_mono hs hs' c w a : hs ⊆ hs' → justified hs c w a → justified hs' c w a.
Proof.
  intros Hs (r1 & fp1 & cand & r2 & fp2 & ap & r3 & fp3 & i & A1 & A2 & A3 & Hr).
  exists r1, fp1, cand, r2, fp2, ap, r3, fp3, i. 
  do 3 (split; [by eapply asked_mono|]). exact Hr.
Qed.

(** A transition keeps the trace if the history says who asked for it. *)
Lemma step_traced hs a s s' : traced hs s → step a s s' →
  (match a with AClaim _ | AFinish _ _ | ARestart => True | _ => asked hs a end) → traced hs s'.
Proof.
  intros [P A B] St Ha. destruct St as [s r fp x id -> Hf ? ?|s r fp x id -> Hf ?|s r fp x id -> Hf ? ? ?|
    s id x Hx Hq|s id x res Hx Hd Hr|s]; split; simpl; try done.
  - intros id c. rewrite lookup_insert. case_decide; intros; simplify_eq; [|eauto].
    exists r, fp, c. eauto using same_candidate_refl.
  - intros id c. rewrite lookup_insert. case_decide; intros; simplify_eq; [|eauto]. by exists r, fp.
  - intros id c. rewrite lookup_insert. case_decide; intros; simplify_eq; [|eauto].
    exists r, fp, c. eauto using same_intent_refl.
  - intros j c. rewrite lookup_insert. case_decide; intros; simplify_eq; [|eauto].
    destruct (B _ _ Hx) as (r & fp & i0 & ? & ? & ?). exists r, fp, i0.
    eauto using same_intent_trans, same_intent_building.
  - intros j c. rewrite lookup_insert. case_decide; intros; simplify_eq; [|eauto].
    destruct (B _ _ Hx) as (r & fp & i0 & ? & ? & ?). exists r, fp, i0.
    eauto using same_intent_trans, same_intent_finished.
  - intros j c. rewrite lookup_fmap, fmap_Some. intros (y & Hy & ->).
    destruct (B _ _ Hy) as (r & fp & i0 & ? & ? & ?). exists r, fp, i0.
    eauto using same_intent_trans, same_intent_interrupt.
Qed.
Lemma recovers_traced hs s s' : traced hs s → recovers s s' → traced hs s'.
Proof.
  intros [P A B] (s1 & [SP SA SB SR] & Hv & ->). eapply (step_traced _ ARestart s1); [|constructor|done].
  split; rewrite ?SA, ?SB; eauto. intros id c' Hc. specialize (SP id). rewrite Hc in SP.
  destruct (st_proposals s !! id) as [c|] eqn:E; inversion SP; subst.
  destruct (P _ _ E) as (r & fp & c0 & ? & ? & ?). exists r, fp, c0. eauto using same_candidate_trans.
Qed.
Lemma grows_released hs s s' : released hs s → grows s s' → released hs s'.
Proof.
  intros [R1 R2 R3] G. split; [|done..]. intros c w a (i & Hi & <- & Hq)%R1.
  destruct (gr_builds _ _ G _ _ Hi) as (i' & ? & [? ? ? ? Hst]). exists i'. split_and!; [done|congruence|auto].
Qed.
Lemma released_call hs k s : released hs s → released (Called k :: hs) s.
Proof.
  intros [R1 R2 R3]. split; [| |done].
  - intros c w a [?|?]%elem_of_cons; [done|eauto].
  - intros c w a [?|?]%elem_of_cons; [done|]. eapply justified_mono; [|by apply R2]. set_solver.
Qed.

Lemma claimed_justified hs c s w : linked s → traced hs s → claimed c s w → justified hs c w (granted s w).
Proof.
  intros L T [(i & cand & Hi & Hq & Hcand & Htoml & Hin & Hhs) Hb Hd _].
  unfold granted. rewrite Hi. simpl. pose proof (lk_valid _ L) as Hv. apply State_validate_Ok in Hv.
  destruct (intent_ok_facts s _ i (vd_intent _ Hv _ _ Hi)) as (a & Ha & E1 & E2 & E3).
  destruct (approval_ok_facts s _ a (vd_approval _ Hv _ _ Ha)) as (cand' & Hcand' & E4 & E5).
  rewrite E1, Hcand in Hcand'. injection Hcand' as <-.
  destruct (tr_builds _ _ T _ _ Hi) as (r3 & fp3 & i0 & W3 & [] & A3).
  destruct (tr_approvals _ _ T _ _ Ha) as (r2 & fp2 & W2 & A2).
  destruct (tr_proposals _ _ T _ _ Hcand) as (r1 & fp1 & c0 & W1 & [] & A1).
  exists r1, fp1, c0, r2, fp2, a, r3, fp3, i0. split_and!; try done; congruence.
Qed.

(** Accepted requests leave the builds already recorded as they are. *)
Lemma request_builds k a s s' id i : linked s → requested k a → step a s s' →
  st_builds s !! id = Some i → st_builds s' !! id = Some i.
Proof.
  intros L Ra St Hi. destruct St as [| |s r fp x j -> Hf ? ? ?| | |]; try done; try by destruct Ra.
  simpl. rewrite lookup_insert_ne; [done|].
  pose proof (record_fresh_key "b_" "build" _ _ r (fr_new _ _ _ Hf) (lk_builds _ L)). congruence.
Qed.

(** ** The invariant of a run *)

Definition working (s : State) (poisoned : bool) (w : Work) : Prop :=
  ∃ i, st_builds s !! wk_id w = Some i ∧ (poisoned = false → bu_state (in_build i) = "building"%string).
Definition job_ok (state : string) (s : State) (poisoned : bool) (j : job) : Prop :=
  match j with
  | Idle => True
  | Claimed w => wk_destination w = below (abs state) (wk_id w) ∧ working s poisoned w
  | Done w r => working s poisoned w ∧ ∀ p, r = Ok p → output_path p = true
  end.
(** Builds wait only where builds are enabled. *)
Definition buildable (c : ControlConfig) (s : State) : Prop :=
  ∀ id i, st_builds s !! id = Some i → dispatchable (in_build i) = true → is_Some (c_builder c).
Record durable (hs : list event) (s : State) : Prop := {
  du_linked : linked s;
  du_traced : traced hs s;
  du_released : released hs s;
}.
Definition in_step (state : string) (st : status) (s : State) : Prop :=
  wf (h_world (status_host st)) ∧
  match st with
  | Stopped h => at_rest (state_receipts state) (h_world h) s
  | Running c d e j =>
      c_state c = state ∧ deployed c d ∧ hashes_ok (c_hashes c) = true
      ∧ stored (state_receipts state) (h_world (en_host e)) s
      ∧ (en_poisoned e = false → en_state e = s)
      ∧ job_ok state s (en_poisoned e) j
      ∧ buildable c s
  end.

Lemma durable_step hs a s s' : durable hs s → step a s s' →
  (match a with AClaim _ | AFinish _ _ | ARestart => True | _ => asked hs a end) → durable hs s'.
Proof.
  intros [L T R] St Ha. pose proof (step_linked _ _ _ L St). pose proof (step_grows _ _ _ L St).
  split; [done|by eapply step_traced|by eapply grows_released].
Qed.
Lemma durable_call hs k s : durable hs s → durable (Called k :: hs) s.
Proof. intros [L T R]. split; [done|eapply traced_mono; [|done]; set_solver|by apply released_call]. Qed.
Lemma durable_recovers hs s s' : durable hs s → recovers s s' → durable hs s'.
Proof.
  intros [L T R] Hr. split; [by eapply recovers_linked|by eapply recovers_traced|].
  eapply grows_released; [done|by apply recovers_grows].
Qed.
Lemma job_ok_poisoned state s j : job_ok state s false j → job_ok state s true j.
Proof. destruct j as [|w|w r]; simpl; [done|..]; intros ?; destruct_and!; destruct_and?; unfold working in *; naive_solver. Qed.
Lemma job_ok_mono state s s' b j :
  (∀ id i, st_builds s !! id = Some i → ∃ i', st_builds s' !! id = Some i' ∧
     (b = false → bu_state (in_build i') = bu_state (in_build i))) →
  job_ok state s b j → job_ok state s' b j.
Proof.
  intros Hb. assert (∀ w, working s b w → working s' b w) as Hw.
  { intros w (i & Hi & Hs). destruct (Hb _ _ Hi) as (i' & ? & E). exists i'. split; [done|].
    intros Hf. rewrite E; auto. }
  destruct j as [|w|w r]; simpl; [done|..]; intros [? ?]; auto.
Qed.

Lemma buildable_insert c s id i f : buildable c s → st_builds s !! id = Some i → dispatchable (in_build i) = true →
  buildable c (set_builds (<[id := f i]>) s).
Proof.
  intros Hb Hi Hd j x. simpl. rewrite lookup_insert. case_decide; [intros _ _; by eapply Hb|by apply Hb].
Qed.
Lemma buildable_move c k s s' : k_config k = c → moves k s s' → buildable c s → buildable c s'.
Proof.
  intros Hk (a & Ra & St) Hb. destruct St; try done; try (by destruct Ra).
  intros j x. simpl. rewrite lookup_insert. case_decide; [|by apply Hb]. intros _ _.
  destruct Ra as (_ & _ & _ & Hbd & _). by rewrite <-Hk.
Qed.
Lemma buildable_finish c s s' : finishes s s' → buildable c s → buildable c s'.
Proof. intros (id & res & St) Hb. inversion St; subst. by apply (buildable_insert c s id i (finished res)). Qed.
Lemma buildable_claim c s s' id : step (AClaim id) s s' → buildable c s → buildable c s'.
Proof.
  intros St Hb. inversion St as [| | |? ? i Hi Hq| |]; subst.
  apply (buildable_insert c s id i (set_build_state "building")); try done. unfold dispatchable. by rewrite Hq.
Qed.

Lemma handle_poisoned d uid method route b e :
  en_poisoned e = true → handle d uid method route b e = (Err (unavailable tt), e).
Proof. intros Hp. unfold handle, mbind, M_bind, gets, throw_if, lift, bail_if. simpl. by rewrite Hp. Qed.
Lemma claim_poisoned d e : en_poisoned e = true → claim d e = (Err "state unavailable"%string, e).
Proof. intros Hp. unfold claim, mbind, M_bind, gets, throw_if, lift, bail_if. simpl. by rewrite Hp. Qed.

Lemma handle_in_step state c d e j hs s uid method route b r e' :
  durable hs s → in_step state (Running c d e j) s → handle d uid method route b e = (r, e') →
  ∃ s', durable (Called (mkCall c uid method route b) :: hs) s' ∧ in_step state (Running c d e' j) s'.
Proof.
  intros Hdu (Hw & Hst & D & Hc & Hs & Hmem & Hj & Hbd) Hh. set (k := mkCall c uid method route b).
  destruct (en_poisoned e) eqn:Hp.
  { rewrite handle_poisoned in Hh by done. injection Hh as <- <-. exists s. split; [by apply durable_call|].
    split; [done|]. rewrite Hp. by split_and!. }
  specialize (Hmem eq_refl) as Es. apply durable_call with (k := k) in Hdu.
  assert (receipts_path c = state_receipts state) as Ep by (unfold receipts_path; by rewrite Hst).
  pose proof (handle_spec c d uid method route b e D Hc Hp Hw) as Hspec. rewrite Ep in Hspec.
  assert (idle (state_receipts state) e e' → in_step state (Running c d e' j) s) as Hidle.
  { intros [E P K]. split; [apply K|]. split_and!; try done; [by eapply stored_keeps|congruence|by rewrite P]. }
  assert (∀ s', moves k (en_state e) s' → durable (Called k :: hs) s' ∧ job_ok state s' false j ∧ buildable c s') as Hmove.
  { intros s' Hm. rewrite Es in Hm. pose proof (buildable_move c k s s' eq_refl Hm Hbd). destruct Hm as (a & Ra & St). split_and!; [..|done].
    - eapply durable_step; [done..|]. assert (asked (Called k :: hs) a) by (exists k; set_solver).
      by destruct a.
    - eapply job_ok_mono; [|done]. intros id i Hi. exists i. split; [|done].
      eapply request_builds; [apply Hdu|done..]. }
  apply (wp_run _ _ _ _ _ _ Hspec) in Hh. destruct r as [v|x].
  - destruct Hh as [[I|(s' & Hm & [E P Hw' _ St'])] _]; [by exists s; auto|]. exists s'.
    destruct (Hmove _ Hm) as (? & ? & ?). split; [done|]. split; [done|]. rewrite P. by split_and!.
  - destruct Hh as [I|(s' & Hm & [E P Hw' _ Hdisk])]; [by exists s; auto|].
    destruct (Hmove _ Hm) as (? & ? & ?). destruct Hdisk as [K|St'].
    + exists s. split; [done|]. split; [done|]. rewrite P.
      split_and!; try done; [by eapply stored_keeps|by apply job_ok_poisoned].
    + exists s'. split; [done|]. split; [done|]. rewrite P. split_and!; try done. by apply job_ok_poisoned.
Qed.

(** Releasing a claimed build. *)
Lemma durable_dispatch hs c s w s' : durable hs s → claimed c s w → step (AClaim (wk_id w)) s s' →
  durable (Dispatched c w (granted s w) :: hs) s'.
Proof.
  intros Hdu Hcl St. pose proof (du_linked _ _ Hdu) as L. pose proof (step_grows _ _ _ L St) as G.
  destruct Hdu as [_ T [R1 R2 R3]].
  pose proof (claimed_justified hs c s w L T Hcl) as J.
  assert (hs ⊆ Dispatched c w (granted s w) :: hs) as Hsub by set_solver.
  destruct (cl_intent _ _ _ Hcl) as (i & cand & Hi & Hq & _).
  assert (granted s w = in_approval_id i) as Eg by (unfold granted; by rewrite Hi).
  split; [by eapply step_linked|by eapply traced_mono, step_traced|]. split.
  - intros c' w' a [[= -> -> ->]|Hin]%elem_of_cons.
    + inversion St as [| | |? ? i' Hi' Hq'| |]; subst. rewrite Hi in Hi'. injection Hi' as <-. simpl.
      rewrite lookup_insert_eq. eexists. split_and!; done.
    + destruct (R1 _ _ _ Hin) as (i' & Hi' & <- & Hn).
      destruct (gr_builds _ _ G _ _ Hi') as (i'' & ? & [? ? ? ? Hst]). exists i''. split_and!; [done|congruence|auto].
  - intros c' w' a [[= -> -> ->]|Hin]%elem_of_cons; eapply justified_mono; eauto.
  - cbn [grants omap list_omap]. constructor; [|done]. intros Hin.
    apply list_elem_of_omap in Hin as ([k|c' w' a] & Hin & [= ->]).
    destruct (R1 _ _ _ Hin) as (i' & Hi' & Ea & Hn). rewrite Eg in Ea.
    pose proof (lk_once _ L _ _ _ _ Hi Hi' (eq_sym Ea)) as Ew. congruence.
Qed.

Lemma claim_in_step state c d e hs s r e' :
  durable hs s → in_step state (Running c d e Idle) s → claim d e = (r, e') →
  ∃ s', durable (claim_events c (en_state e) r ++ hs) s' ∧ in_step state (Running c d e' (claim_job r)) s'.
Proof.
  intros Hdu (Hw & Hst & D & Hc & Hs & Hmem & Hj & Hbd) Hh. destruct (en_poisoned e) eqn:Hp.
  { rewrite claim_poisoned in Hh by done. injection Hh as <- <-. exists s. split; [done|].
    split; [done|]. rewrite Hp. by split_and!. }
  specialize (Hmem eq_refl) as Es.
  assert (receipts_path c = state_receipts state) as Ep by (unfold receipts_path; by rewrite Hst).
  assert (linked (en_state e)) as L by (rewrite Es; apply Hdu).
  assert (buildable c (en_state e)) as Hbd' by (by rewrite Es).
  pose proof (claim_spec c d e D Hp Hw L Hbd') as Hspec. rewrite Ep in Hspec.
  assert (idle (state_receipts state) e e' → in_step state (Running c d e' Idle) s) as Hidle.
  { intros [E P K]. split; [apply K|]. split_and!; try done; [by eapply stored_keeps|congruence]. }
  apply (wp_run _ _ _ _ _ _ Hspec) in Hh. destruct r as [[w|]|x]; simpl.
  - destruct Hh as (s' & Hcl & St & [E P Hw' _ St']). rewrite Es in *. exists s'.
    split; [by eapply durable_dispatch|]. split; [done|]. rewrite P. split_and!; try done; [split|by eapply buildable_claim].
    + rewrite (cl_destination _ _ _ Hcl). by rewrite Hst.
    + inversion St; subst. eexists. simpl. rewrite lookup_insert_eq. split; [done|]. done.
  - destruct Hh as [[I _]|(s' & (id & res & St) & [E P Hw' _ St'])]; [by exists s; auto|]. rewrite Es in *.
    exists s'. split; [by eapply durable_step|]. split; [done|]. rewrite P. split_and!; try done.
    eapply buildable_finish; [by eexists _, _|done].
  - destruct Hh as (s' & Hm & [E P Hw' _ Hdisk]). rewrite Es in *.
    assert (durable hs s' ∧ buildable c s') as [Hdu' Hbd''].
    { destruct Hm as [(id & res & St)|(id & St)]; (split; [by eapply durable_step|]).
      - eapply buildable_finish; [by eexists _, _|done].
      - by eapply buildable_claim. }
    destruct Hdisk as [K|St'].
    + exists s. split; [done|]. split; [done|]. rewrite P. split_and!; try done. by eapply stored_keeps.
    + exists s'. split; [done|]. split; [done|]. rewrite P. by split_and!.
Qed.

Lemma finish_in_step state c d e w r hs s x e' :
  durable hs s → in_step state (Running c d e (Done w r)) s → finish d (wk_id w) r e = (x, e') →
  ∃ s', durable hs s' ∧ in_step state (Running c d e' Idle) s'.
Proof.
  intros Hdu (Hw & Hst & D & Hc & Hs & Hmem & ((i & Hi & Hb) & Hout) & Hbd) Hh. destruct (en_poisoned e) eqn:Hp.
  { apply (wp_run _ _ _ _ _ _ (finish_poisoned d (wk_id w) r e Hp)) in Hh.
    destruct x; [done|]. destruct Hh as [P E]. exists s. split; [done|]. split; [simpl; by rewrite E|].
    rewrite P, E. by split_and!. }
  specialize (Hmem eq_refl) as Es. specialize (Hb eq_refl). rewrite <-Es in Hi.
  assert (receipts_path c = state_receipts state) as Ep by (unfold receipts_path; by rewrite Hst).
  assert (dispatchable (in_build i) = true) as Hd by (unfold dispatchable; by rewrite Hb).
  pose proof (finish_spec c d (wk_id w) r e i D Hw Hp Hi Hd Hout) as Hspec. rewrite Ep in Hspec.
  apply (wp_run _ _ _ _ _ _ Hspec) in Hh. destruct x as [u|x].
  - destruct Hh as (s' & St & [E P Hw' _ St']). rewrite Es in *. exists s'.
    assert (buildable c s') by (eapply buildable_finish; [by eexists _, _|done]).
    split; [by eapply durable_step|]. split; [done|]. rewrite P. by split_and!.
  - destruct Hh as (s' & St & [E P Hw' _ Hdisk]). rewrite Es in *.
    assert (buildable c s') by (eapply buildable_finish; [by eexists _, _|done]). destruct Hdisk as [K|St'].
    + exists s. split; [done|]. split; [done|]. rewrite P. split_and!; try done. by eapply stored_keeps.
    + exists s'. split; [by eapply durable_step|]. split; [done|]. rewrite P. by split_and!.
Qed.

Lemma execute_in_step state c d e w hs s r h' :
  durable hs s → in_step state (Running c d e (Claimed w)) s → execute w (en_host e) = (r, h') →
  in_step state (Running c d (set_host h' e) (Done w r)) s.
Proof.
  intros Hdu (Hw & Hst & D & Hc & Hs & Hmem & (Hdest & Hwk) & Hbd) Hh.
  apply (wp_run _ _ _ _ _ _ (execute_spec w (en_host e) Hw)) in Hh.
  assert (executed w (en_host e) h' ∧ ∀ p, r = Ok p → output_path p = true) as [[Hw' K _] Hout].
  { destruct r as [p|x]; [destruct Hh; split; [done|]; by intros ? [= <-]|by split]. }
  split; [done|]. split_and!; try done. simpl. eapply stored_keeps; [|done]. apply K. rewrite Hdest.
  destruct Hwk as (i & Hi & _). destruct (lk_builds _ (du_linked _ _ Hdu) _ _ Hi) as (rq & fp & -> & _).
  rewrite <-Hst. by apply (receipts_not_under c "b").
Qed.

(** Every state of a run is in step with durable receipts. *)
Lemma run_in_step state st hs : run state st hs → ∃ s, durable hs s ∧ in_step state st s.
Proof.
  induction 1 as [h Hw Hn|st h' hs _ (s & Hdu & Hin) K|c h d s0 h' hs _ (s & Hdu & Hw & Hr) Hst Ho
    |c h x h' hs _ (s & Hdu & Hw & Hr) Hst Ho|c d e j hs _ (s & Hdu & Hw & Hin)
    |c d e j hs uid method route b r e' _ (s & Hdu & Hin) Hh|c d e hs r e' _ (s & Hdu & Hin) Hh
    |c d e w hs r h' _ (s & Hdu & Hin) Hh|c d e w r hs x e' _ (s & Hdu & Hin) Hh].
  - exists State_default. split; [|split; [done|by right]].
    split; [apply linked_default|by split|split].
    + by intros c w a ?%elem_of_nil.
    + by intros c w a ?%elem_of_nil.
    + constructor.
  - exists s. split; [done|]. destruct Hin as [Hw Hin], st as [h|c d e j]; simpl in *.
    + split; [apply K|by eapply at_rest_keeps].
    + destruct_and! Hin. split; [apply K|]. split_and!; try done. by eapply stored_keeps.
  - assert (receipts_path c = state_receipts state) as Ep by (unfold receipts_path; by rewrite Hst).
    rewrite <-Ep in Hr. apply (wp_run _ _ _ _ _ _ (engine_open_spec c h s Hw Hr)) in Ho.
    destruct Ho as (Hc & D & R & Hs & Hw'). rewrite Ep in Hs. simpl in *.
    exists s0. split; [by eapply durable_recovers|]. split; [done|]. split_and!; try done.
    intros id i Hi Hd. by rewrite (recovers_started _ _ _ _ R Hi) in Hd.
  - assert (receipts_path c = state_receipts state) as Ep by (unfold receipts_path; by rewrite Hst).
    rewrite <-Ep in Hr. apply (wp_run _ _ _ _ _ _ (engine_open_spec c h s Hw Hr)) in Ho.
    rewrite Ep in *. destruct Ho as [Hw' [K|(s' & R & Hs)]].
    + exists s. split; [done|]. split; [done|]. by eapply at_rest_keeps.
    + exists s'. split; [by eapply durable_recovers|]. split; [done|by left].
  - exists s. split; [done|]. destruct_and! Hin. split; [done|by left].
  - by eapply handle_in_step.
  - by eapply claim_in_step.
  - exists s. split; [done|]. by eapply execute_in_step.
  - by eapply finish_in_step.
Qed.
End lifetime.

(** * Theorems *)

Section theorems.
Context `{HS : Sha2} `{!Sha2Laws} `{HJ : SerdeJson} `{HC : ControlCrates} `{!ControlLaws}.

(** C19. Whatever the peers request, whichever call fails or crashes and
    however often the service restarts, the receipts on disk are a state that
    validates, in which every receipt belongs to its request and no approval has
    two builds; an engine that has not closed itself holds exactly that state;
    and if no configuration contains a floating-point number, reading the file
    back yields it, so a restart is never refused because of what the service
    wrote. *)
Theorem control_receipts_valid state st hs : run state st hs →
  ∃ s, linked s
    ∧ match st with
      | Stopped h => at_rest (state_receipts state) (h_world h) s
      | Running c d e _ => stored (state_receipts state) (h_world (en_host e)) s
                           ∧ (en_poisoned e = false → en_state e = s)
      end
    ∧ ∀ b, state_to_vec s = Some b → receipts_float_free s = true →
        state_from_slice b = Some s ∧ State_validate s = Ok tt.
Proof.
  intros (s & [L T R] & Hw & Hin)%run_in_step. exists s. split; [done|]. split.
  - destruct st; [done|]. by destruct_and! Hin.
  - intros b Hb Hf. split; [by apply state_codec_exact|apply L].
Qed.


(** C11. An approval releases at most one build, over all requests,
    crashes and restarts. *)
Theorem control_approval_spent_once state st hs : run state st hs → NoDup (grants hs).
Proof. intros (s & [L T R] & _)%run_in_step. apply (rl_once _ _ R). Qed.

(** A request that is answered is durable: the receipts file holds the
    state the answer was read from. *)
Theorem control_acknowledged_is_durable state c d e j hs uid route b v e' :
  run state (Running c d e j) hs → handle d uid "POST" route b e = (Ok v, e') →
  stored (state_receipts state) (h_world (en_host e')) (en_state e') ∧ replies (en_state e') v.
Proof.
  intros Hrun Hh. pose proof Hh as Hh'. apply run_in_step in Hrun as (s & Hdu & Hin).
  destruct (handle_in_step _ _ _ _ _ _ _ _ _ _ _ _ _ Hdu Hin Hh) as (s' & _ & (_ & Hst & D & Hc & Hs' & Hmem & _)).
  destruct Hin as (Hw & _ & _ & _ & _ & _ & _). destruct (en_poisoned e) eqn:Hp.
  { by rewrite handle_poisoned in Hh. }
  apply (wp_run _ _ _ _ _ _ (handle_spec c d uid "POST" route b e D Hc Hp Hw)) in Hh as [Ho Hr].
  rewrite Hmem; [|by destruct Ho as [[]|(? & _ & [])]]. split; [done|].
  rewrite <-Hmem; [by apply Hr|]. by destruct Ho as [[]|(? & _ & [])].
Qed.

(** C28. A request that is refused has changed neither the engine's state
    nor the receipts file, or else the engine has closed: the file is the old one
    or the complete new one, and every later request and claim is refused without
    any effect. *)
Theorem control_error_closes state c d e j hs uid method route b x e' :
  run state (Running c d e j) hs → handle d uid method route b e = (Err x, e') →
  (en_state e' = en_state e ∧ en_poisoned e' = en_poisoned e
     ∧ hkeeps (state_receipts state) (en_host e) (en_host e'))
  ∨ (en_poisoned e' = true
     ∧ (hkeeps (state_receipts state) (en_host e) (en_host e')
        ∨ stored (state_receipts state) (h_world (en_host e')) (en_state e'))
     ∧ (∀ uid' method' route' b', handle d uid' method' route' b' e' = (Err (unavailable tt), e'))
     ∧ claim d e' = (Err "state unavailable"%string, e')).
Proof.
  intros Hrun Hh. apply run_in_step in Hrun as (s & Hdu & Hw & Hst & D & Hc & Hs & Hmem & _).
  assert (receipts_path c = state_receipts state) as Ep by (unfold receipts_path; by rewrite Hst).
  destruct (en_poisoned e) eqn:Hp.
  { rewrite handle_poisoned in Hh by done. injection Hh as <- <-. left. by split_and!. }
  apply (wp_run _ _ _ _ _ _ (handle_spec c d uid method route b e D Hc Hp Hw)) in Hh. rewrite Ep in Hh.
  destruct Hh as [[E P K]|(s' & _ & [E P _ _ Hd])]; [by left|]. right. rewrite E.
  split_and!; [done|done| |by apply claim_poisoned]. intros. by apply handle_poisoned.
Qed.

(** The role, request id and fingerprint of a POST request. *)
Definition post_request (route : string) (b : bytes) : result ApiError (Role * string * string) :=
  if (route =? "/v1/system/proposals")%string then
    rq ← decode decode_draft b;
    Ok (RPropose, dr_request_id rq, request_fingerprint route (draft_value rq))
  else if is_some (approve_route route) then
    rq ← decode decode_approve b;
    Ok (RApprove, ar_request_id rq, request_fingerprint route (approve_value rq))
  else if (route =? "/v1/system/builds")%string then
    rq ← decode decode_build b;
    Ok (RBuild, br_request_id rq, request_fingerprint route (build_request_value rq))
  else Err not_found.

Lemma replay_recorded s r fp x : linked s → st_requests s !! r = Some x →
  replay s r fp = (if (rr_fingerprint x =? fp)%string
                   then v ← response s (rr_kind x) (rr_id x); Ok (Some v) else Err conflict)
  ∧ is_ok (response s (rr_kind x) (rr_id x)) = true.
Proof.
  intros L Hx. pose proof (lk_valid _ L) as Hv. apply State_validate_Ok in Hv.
  pose proof (vd_request _ Hv _ _ Hx) as Hok. cbn beta in Hok. unfold request_ok in Hok.
  apply andb_true_iff in Hok as [Hok Hk]. apply andb_true_iff in Hok as [Hok _]. apply andb_true_iff in Hok as [Hid Hlen].
  apply Z.leb_le in Hlen. split.
  - unfold replay. rewrite Hid. assert ((64 <? str_len r) = false) as -> by (apply Z.ltb_ge; lia). simpl.
    rewrite Hx. by destruct (rr_fingerprint x =? fp)%string.
  - unfold response. repeat case_match; try done; by destruct (_ !! rr_id x).
Qed.

(** C33. A request id that was accepted is never executed again: the same
    request gets the recorded receipt, any other request with that id is a
    conflict, and neither has any effect (no file is read, no process started). *)
Theorem control_replay_is_idempotent state c d e j hs uid route b role id fp x :
  run state (Running c d e j) hs → en_poisoned e = false →
  post_request route b = Ok (role, id, fp) → authorized c uid role = true →
  st_requests (en_state e) !! id = Some x →
  handle d uid "POST" route b e =
    (if (rr_fingerprint x =? fp)%string then response (en_state e) (rr_kind x) (rr_id x) else Err conflict, e)
  ∧ is_ok (response (en_state e) (rr_kind x) (rr_id x)) = true.
Proof.
  intros Hrun Hp Hpost Ha Hx. apply run_in_step in Hrun as (s & Hdu & Hw & Hst & D & Hc & Hs & Hmem & _).
  assert (linked (en_state e)) as L by (rewrite Hmem by done; apply Hdu).
  destruct (replay_recorded _ _ fp _ L Hx) as [Hrep Hok]. split; [|done].
  unfold handle, mbind, M_bind, gets, throw_if, lift, bail_if. simpl. rewrite Hp. unfold post_request in Hpost.
  destruct (route =? "/v1/system/proposals")%string.
  - inv_ok. simplify_eq. unfold handle_propose, authorize, mbind, M_bind, gets, lift, bail_if.
    rewrite (dp_config _ _ D), Ha. simpl.
    match goal with X : decode _ b = Ok _ |- _ => rewrite X end. simpl. rewrite Hrep.
    destruct (rr_fingerprint x =? _)%string; [|done]. by destruct (response (en_state e) _ _).
  - destruct (approve_route route) as [pid|]; simpl in Hpost.
    + inv_ok. simplify_eq. unfold handle_approve, authorize, mbind, M_bind, gets, lift, bail_if.
      rewrite (dp_config _ _ D), Ha. simpl.
    match goal with X : decode _ b = Ok _ |- _ => rewrite X end. simpl. rewrite Hrep.
    destruct (rr_fingerprint x =? _)%string; [|done]. by destruct (response (en_state e) _ _).
    + destruct (route =? "/v1/system/builds")%string; [|done].
      inv_ok. simplify_eq. unfold handle_build, authorize, mbind, M_bind, gets, lift, bail_if.
      rewrite (dp_config _ _ D), Ha. simpl.
    match goal with X : decode _ b = Ok _ |- _ => rewrite X end. simpl. rewrite Hrep.
    destruct (rr_fingerprint x =? _)%string; [|done]. by destruct (response (en_state e) _ _).
Qed.

(** One build of [s] reached its final state in [s']. *)
Definition completes (s s' : State) : Prop :=
  ∃ id i i', st_builds s !! id = Some i ∧ dispatchable (in_build i) = true
    ∧ st_builds s' = <[id := i']> (st_builds s)
    ∧ (bu_state (in_build i') = "built" ∨ bu_state (in_build i') = "failed")%string.
Lemma finished_final res i :
  (bu_state (in_build (finished res i)) = "built" ∨ bu_state (in_build (finished res i)) = "failed")%string.
Proof. destruct res; auto. Qed.

Lemma step_claim_inv id s s' : step (AClaim id) s s' →
  ∃ i, st_builds s !! id = Some i ∧ bu_state (in_build i) = "queued"%string
       ∧ s' = set_builds (<[id := set_build_state "building" i]>) s.
Proof. inversion 1; subst; eauto. Qed.
Lemma step_finish_inv id res s s' : step (AFinish id res) s s' →
  ∃ i, st_builds s !! id = Some i ∧ dispatchable (in_build i) = true
       ∧ s' = set_builds (<[id := finished res i]>) s.
Proof. inversion 1; subst; eauto. Qed.

Lemma worker_iteration_spec c d e :
  deployed c d → en_poisoned e = false → wf (h_world (en_host e)) → linked (en_state e) →
  buildable c (en_state e) → nothing_to_do (en_state e) = false →
  wp (worker_iteration d) (λ _ e', completes (en_state e) (en_state e'))
    (λ _ e', en_poisoned e' = true) e.
Proof.
  intros D Hp Hw L Hb Hq. unfold worker_iteration. wp_step.
  wp_apply (claim_spec c d e D Hp Hw L Hb); [|by intros x e1 (s' & _ & [])].
  intros [w|] e1 Hcl.
  - destruct Hcl as (s1 & _ & St & [E1 P1 W1 _ _]).
    destruct (step_claim_inv _ _ _ St) as (i & Hi & Hqi & Es1). rewrite Es1 in E1. symmetry in E1.
    wp_step. wp_step. wp_step.
    assert (∀ h2 r, wf (h_world h2) → (∀ p, r = Ok p → output_path p = true) →
      wp (_ ← finish d (wk_id w) r; mret true) (λ _ e', completes (en_state e) (en_state e'))
        (λ _ e', en_poisoned e' = true) (set_host h2 e1)) as Hfin.
    { intros h2 r Hw2 Hr. wp_step.
      assert (st_builds (en_state (set_host h2 e1)) !! wk_id w = Some (set_build_state "building" i)) as Hi1.
      { simpl. rewrite <-E1. simpl. by rewrite lookup_insert_eq. }
      wp_apply (finish_spec c d (wk_id w) r (set_host h2 e1) (set_build_state "building" i) D Hw2 P1 Hi1); try done.
      - intros u e3 (s3 & St3 & [E3 _ _ _ _]). wp_step. rewrite E3. exists (wk_id w), i.
        destruct (step_finish_inv _ _ _ _ St3) as (i1 & Hi1' & _ & ->).
        rewrite Hi1 in Hi1'. injection Hi1' as <-. eexists. split_and!; [done|unfold dispatchable; by rewrite Hqi| |apply finished_final].
        simpl. rewrite <-E1. simpl. by rewrite insert_insert_eq.
      - intros x e3 (s3 & _ & []). done. }
    wp_apply (execute_spec w (en_host e1) W1).
    + intros p h2 [Hout X]. apply Hfin; [apply X|]. by intros ? [= <-].
    + intros x h2 X. apply Hfin; [apply X|done].
  - wp_step. destruct Hcl as [[_ Hn]|(s' & (id & res & St) & [E1 _ _ _ _])]; [congruence|].
    destruct (step_finish_inv _ _ _ _ St) as (i & Hi & Hd & Es1). rewrite E1, Es1. exists id, i. eexists.
    split_and!; try done. apply finished_final.
Qed.

(** C30. The worker makes progress: an iteration that finds a waiting build
    (and none being built) brings one build to its final state, built or failed,
    and leaves the other builds alone; it fails only by closing the engine. *)
Theorem control_worker_progress state c d e hs r e' :
  run state (Running c d e Idle) hs → en_poisoned e = false → nothing_to_do (en_state e) = false →
  worker_iteration d e = (r, e') →
  match r with
  | Ok _ => completes (en_state e) (en_state e')
  | Err _ => en_poisoned e' = true
  end.
Proof.
  intros Hrun Hp Hn Hh. apply run_in_step in Hrun as (s & Hdu & Hw & Hst & D & Hc & Hs & Hmem & _ & Hb).
  specialize (Hmem Hp) as Es.
  assert (linked (en_state e)) as L by (rewrite Es; apply Hdu).
  assert (buildable c (en_state e)) as Hb' by (by rewrite Es).
  exact (wp_run _ _ _ _ _ _ (worker_iteration_spec c d e D Hp Hw L Hb' Hn) Hh).
Qed.
End theorems.
