(* ===== verification/ControlTransport.v ===== *)
(** * The control socket: [crates/tentaflake-control/src/transport.rs], [main.rs]

    HTTP framing over a Unix socket, on both sides, peer identification and the
    command line.  A connection is a script: what each [read] delivers (a read
    returns at most what was asked for, the rest of a chunk stays), whether the
    deadline has passed, and whether the reply could be written. *)

From S2P Require Import Prelude RustStr Json Posix Budget PrivateStore Template ControlData Engine Receipts EngineSpec.

Definition MAX_HEADERS : Z := 8192.
Definition MAX_RESPONSE : Z := 2 * MAX_DOCUMENT + 65536.

(** What the stream does next; the end of the script is the end of the stream. *)
Inductive rx : Type := Chunk (b : bytes) | RxAgain | RxFail | RxLate.
Record conn : Type := mkConn {
  cn_setup : bool;              (* timeouts could be set *)
  cn_peer : option Z;           (* [SO_PEERCRED] *)
  cn_rx : list rx;
  cn_writable : bool;
}.

Definition setup (c : conn) : result string unit := bail_if (negb (cn_setup c)) "socket unavailable".
Definition peer_uid (c : conn) : result string Z := ok_or "peer credentials unavailable" (cn_peer c).

(** ** Reading *)

(** What is left of a chunk after a read. *)
Definition unread (b : bytes) (s : list rx) : list rx := match b with [] => s | _ => Chunk b :: s end.
(** The loop of [read_bytes].  Every iteration takes a byte or an event. *)
Fixpoint read_loop (fuel : nat) (length : Z) (buffer : bytes) : M (list rx) string bytes := λ s,
  if blen buffer <? length then
    match fuel with
    | O => (Err "request deadline exceeded"%string, s)
    | S fuel =>
        match s with
        | RxLate :: s => (Err "request deadline exceeded"%string, s)
        | [] | Chunk [] :: _ => (Err "incomplete HTTP message"%string, s)
        | Chunk b :: s =>
            let remaining := Z.to_nat (Z.min (length - blen buffer) 4096) in
            read_loop fuel length (buffer ++ take remaining b) (unread (drop remaining b) s)
        | RxAgain :: s => read_loop fuel length buffer s
        | RxFail :: s => (Err "HTTP transport unavailable"%string, s)
        end
    end
  else (Ok buffer, s).
Definition read_bytes (length : Z) (buffer : bytes) : M (list rx) string bytes := λ s,
  read_loop (Z.to_nat (length - blen buffer) + List.length s) length buffer s.

Definition END_OF_HEADERS : bytes := [13; 10; 13; 10].
Definition bytes_end_with (e b : bytes) : bool :=
  bool_decide (drop (length b - length e) b = e).
(** Exact header reads: one byte at a time.  At most [MAX_HEADERS] iterations. *)
Fixpoint read_header (fuel : nat) (header : bytes) : M (list rx) string bytes :=
  if bytes_end_with END_OF_HEADERS header then mret header
  else match fuel with
  | O => fail "headers exceed limit"%string
  | S fuel =>
      _ ← throw_if (MAX_HEADERS <=? blen header) "headers exceed limit";
      header ← read_bytes (blen header + 1) header;
      read_header fuel header
  end.

Record Message : Type := mkMessage { ms_first : string; ms_body : bytes }.
(** What the header lines decided so far. *)
Record head : Type := mkHead { hd_length : option Z; hd_json : bool; hd_names : list string }.
Definition header_line (h : head) (line : string) : result string head :=
  kv ← ok_or "invalid HTTP header" (split_once ":" line);
  let '(key, value) := kv in
  _ ← bail_if (str_is_empty key || negb (all_bytes (λ b, is_ascii_alphanumeric b || (b =? 45)) key)
               || existsb (λ b, (b <? 32) || (b =? 127)) (str_bytes value)) "invalid HTTP header";
  let key := to_ascii_lowercase key in
  _ ← bail_if (str_in key (hd_names h)) "duplicate HTTP header";
  let names := key :: hd_names h in
  let value := trim value in
  if (key =? "content-length")%string then
    _ ← bail_if (str_is_empty value || negb (all_bytes is_ascii_digit value)) "invalid content length";
    n ← ok_or "invalid content length" (parse_u64 value);
    Ok (mkHead (Some n) (hd_json h) names)
  else if (key =? "content-type")%string then
    _ ← bail_if (negb (value =? "application/json")%string) "unsupported content type";
    Ok (mkHead (hd_length h) true names)
  else if ((key =? "connection")%string && eq_ignore_ascii_case value "close")
          || ((key =? "host")%string && negb (str_is_empty value))
          || ((key =? "accept")%string && (value =? "application/json")%string)
  then Ok (mkHead (hd_length h) (hd_json h) names)
  else Err "unsupported HTTP header"%string.
Fixpoint header_lines (h : head) (lines : list string) : result string head :=
  match lines with
  | [] => Ok h
  | line :: lines => match header_line h line with Ok h => header_lines h lines | Err e => Err e end
  end.
Definition or_default (o d : option Z) : option Z := match o with Some _ => o | None => d end.
(** The first line and the body length a header announces. *)
Definition parse_head (limit : Z) (request : bool) (header : bytes) : result string (string * Z) :=
  text ← ok_or "invalid HTTP header" (from_utf8 header);
  let text := String.substring 0 (String.length text - 4) text in
  match split_crlf text with
  | [] => Err "missing HTTP line"%string
  | first :: lines =>
      h ← header_lines (mkHead None false []) lines;
      length ← ok_or "content length required"
        (or_default (hd_length h) (if request && starts_with "GET " first then Some 0 else None));
      _ ← bail_if ((limit <? length) || ((0 <? length) && negb (hd_json h))) "invalid body length or type";
      _ ← bail_if (request && negb (starts_with "GET " first) && negb (starts_with "POST " first))
            "unsupported method";
      Ok (first, length)
  end.
Definition read_message (limit : Z) (request : bool) : M (list rx) string Message :=
  header ← read_header (Z.to_nat (MAX_HEADERS + 1)) [];
  fl ← lift (parse_head limit request header);
  body ← read_bytes (snd fl) [];
  mret (mkMessage (fst fl) body).

(** ** Writing *)

Definition CRLF : string := bytes_str [13; 10].
Section service.
Context `{Sha2} `{SerdeJson} `{ControlCrates}.

Definition dec (n : Z) : string := pretty (Z.to_N n).
Definition reply (writable : bool) (status : Z) (v : value) : result string bytes :=
  let body := to_vec v in
  _ ← bail_if (MAX_RESPONSE <? blen body) "response exceeds limit";
  _ ← bail_if (negb writable) "response unavailable";
  let reason := if status =? 200 then "OK"%string else "Request Refused"%string in
  Ok (str_bytes ("HTTP/1.1 " ++ dec status ++ " " ++ reason ++ CRLF
        ++ "Content-Type: application/json" ++ CRLF
        ++ "Content-Length: " ++ dec (blen body) ++ CRLF
        ++ "Connection: close" ++ CRLF ++ CRLF) ++ body).
Definition error_value (e : ApiError) : value :=
  json_obj [("schema_version"%string, num 1);
            ("error"%string, json_obj [("code"%string, Str (ae_code e)); ("message"%string, Str (ae_code e))])].

Definition answer (writable : bool) (response : result ApiError value) : result string bytes :=
  match response with
  | Ok v => reply writable 200 v
  | Err e => reply writable (ae_status e) (error_value e)
  end.

(** ** The server *)

(** [serve_connection]: the bytes of the reply.  Unknown peers are refused
    before anything is read. *)
Definition serve_connection (d : deployment) (c : conn) : M Engine string bytes :=
  _ ← lift (setup c);
  uid ← lift (peer_uid c);
  let known := existsb (λ p, peer_id p =? uid) (c_peers (d_config d)) in
  response ← (if negb known then mret (Err (mkApiError 403 "forbidden"))
              else match fst (read_message MAX_DOCUMENT true (cn_rx c)) with
                   | Ok message =>
                       match split_char " " (ms_first message) with
                       | [method; route; version] =>
                           if negb (version =? "HTTP/1.1")%string || (256 <? str_len route)
                           then mret (Err invalid)
                           else attempt (handle d uid method route (ms_body message))
                       | _ => mret (Err invalid)
                       end
                   | Err _ => mret (Err invalid)
                   end);
  lift (answer (cn_writable c) response).

(** ** The client *)

Definition client_allowed (method route : string) : bool :=
  ((method =? "GET")%string
   && ((route =? "/v1/system")%string
       || is_some_and identifier (strip_prefix "/v1/system/builds/" route)))
  || ((method =? "POST")%string
      && (str_in route ["/v1/system/proposals"%string; "/v1/system/builds"%string]
          || is_some_and identifier (strip_prefix "/v1/system/proposals/" route ≫= strip_suffix "/approve"))).
(** [connect]: an absolute path that fits [sun_path], then the kernel's answers to
    [socket], [connect], [poll], [getsockopt] and [fcntl]. *)
Inductive dial : Type :=
| NoSocket
| Refused
| Connected (blocking : bool)
| Pending (writable : bool) (so_error : option Z) (blocking : bool).
Definition connect (path : string) (answer : dial) : result string unit :=
  _ ← bail_if (negb (starts_with "/" path) || (108 <=? str_len path) || contains_byte 0 path)
        "invalid deployment socket";
  let ready blocking := bail_if (negb blocking) "control service unavailable"%string in
  match answer with
  | NoSocket | Refused => Err "control service unavailable"%string
  | Connected blocking => ready blocking
  | Pending writable so_error blocking =>
      _ ← bail_if (negb writable) "control connection deadline";
      _ ← bail_if (negb (is_some_and (Z.eqb 0) so_error)) "control service unavailable";
      ready blocking
  end.
Definition request_bytes (method route : string) (body : bytes) : bytes :=
  str_bytes (method ++ " " ++ route ++ " HTTP/1.1" ++ CRLF ++ "Host: localhost" ++ CRLF
    ++ "Content-Type: application/json" ++ CRLF ++ "Content-Length: " ++ dec (blen body) ++ CRLF
    ++ "Connection: close" ++ CRLF ++ CRLF) ++ body.
Definition parse_u16 (s : string) : option Z := ofilter (λ n, n <=? 65535) (parse_u64 s).
(** [splitn(3, ' ')]. *)
Definition status_line (first : string) : option (string * string) :=
  '(version, rest) ← split_once " " first;
  '(status, _) ← split_once " " rest;
  Some (version, status).
Definition parse_response (m : Message) : result string (Z * value) :=
  vs ← ok_or "invalid control response" (status_line (ms_first m));
  _ ← bail_if (negb (fst vs =? "HTTP/1.1")%string) "invalid control response";
  status ← ok_or "invalid control response" (parse_u16 (snd vs));
  v ← ok_or "invalid control response" (from_slice (ms_body m));
  _ ← bail_if (negb (is_some_and (λ x, value_eqb x (num 1)) (vget "schema_version" v)))
        "unsupported control response";
  Ok (status, v).
(** [client]: what is sent and what is returned, over the connection [k]. *)
Definition client (c : ControlConfig) (method route : string) (body : bytes) (answer : dial) (k : conn) :
    result string (bytes * (Z * value)) :=
  _ ← bail_if (negb (client_allowed method route) || (MAX_DOCUMENT <? blen body))
        "request route or size refused";
  _ ← connect (c_socket c) answer;
  _ ← setup k;
  uid ← peer_uid k;
  _ ← bail_if (negb (uid =? c_server_uid c)) "unexpected control server UID";
  _ ← bail_if (negb (cn_writable k)) "request unavailable";
  message ← fst (read_message MAX_RESPONSE false (cn_rx k));
  r ← parse_response message;
  Ok (request_bytes method route body, r).

(** ** The command line *)

(** [run] after the [serve] mode: the request a client command makes. *)
Definition client_command (args : list string) : result string (string * string) :=
  match args with
  | ["system"%string] => Ok ("GET"%string, "/v1/system"%string)
  | ["propose"%string] => Ok ("POST"%string, "/v1/system/proposals"%string)
  | ["approve"%string; id] => Ok ("POST"%string, ("/v1/system/proposals/" ++ id ++ "/approve")%string)
  | ["build"%string] => Ok ("POST"%string, "/v1/system/builds"%string)
  | ["status"%string; id] => Ok ("GET"%string, ("/v1/system/builds/" ++ id)%string)
  | _ => Err "unsupported control operation"%string
  end.
(** The exit code and the printed response; [stdin] is read by POST commands. *)
Definition run_client (args : list string) (stdin : option bytes) (answer : dial) (k : conn) :
    M world string (Z * value) :=
  _ ← throw_if (bool_decide (args = [])) "usage: tentaflake-control serve <deployment.json> | system | propose | approve <proposal-id> | build | status <build-id>";
  config ← config_load "/etc/tentaflake-control.json";
  mr ← lift (client_command args);
  body ← lift (if (fst mr =? "POST")%string then
                 b ← ok_or "request input unavailable" stdin;
                 let b := take (Z.to_nat (MAX_DOCUMENT + 1)) b in
                 _ ← bail_if (MAX_DOCUMENT <? blen b) "request input exceeds limit"; Ok b
               else Ok []);
  r ← lift (client config (fst mr) (snd mr) body answer k);
  let '(status, v) := snd r in
  mret (if status =? 200 then 0 else 2, v).
(** The [serve] mode up to the accept loop. *)
Definition serve_command (rest : list string) : M host string (deployment * State) :=
  match rest with
  | [path] => config ← on_disk (config_load path); engine_open config
  | _ => fail "serve requires deployment configuration"%string
  end.
End service.

(** * Facts *)

(** ** What a read consumes *)

(** The bytes a script delivers. *)
Fixpoint rx_data (s : list rx) : bytes :=
  match s with
  | [] => []
  | Chunk b :: s => b ++ rx_data s
  | _ :: s => rx_data s
  end.
Lemma rx_data_unread b s : rx_data (unread b s) = b ++ rx_data s.
Proof. by destruct b. Qed.

Lemma read_loop_Ok fuel len : ∀ buf s out s', read_loop fuel len buf s = (Ok out, s') →
  ∃ d, out = buf ++ d ∧ rx_data s = d ++ rx_data s' ∧ (blen buf ≤ len → blen out = len).
Proof.
  induction fuel as [|fuel IH]; intros buf s out s'; cbn [read_loop];
    destruct (Z.ltb_spec (blen buf) len); try done;
    try (intros [= <- <-]; exists []; rewrite app_nil_r; split_and!; [done..|lia]).
  destruct s as [|[b| | |] s]; try done.
  - destruct b as [|x b]; [done|]. set (n := Z.to_nat _).
    intros (d & -> & Hd & Hlen)%IH. rewrite rx_data_unread in Hd. exists (take n (x :: b) ++ d).
    rewrite app_assoc. split_and!; [done| |].
    + cbn [rx_data]. rewrite <-(take_drop n (x :: b)) at 1. by rewrite <-!app_assoc, Hd.
    + intros _. apply Hlen. unfold blen in *. rewrite length_app, length_take. lia.
  - intros (d & -> & Hd & Hlen)%IH. exists d. auto.
Qed.
Lemma read_bytes_Ok len s out s' : 0 ≤ len → read_bytes len [] s = (Ok out, s') →
  rx_data s = out ++ rx_data s' ∧ blen out = len.
Proof. intros Hlen (d & -> & -> & Hl)%read_loop_Ok. split; [done|]. by apply Hl. Qed.

Lemma read_header_Ok fuel : ∀ h s out s', read_header fuel h s = (Ok out, s') →
  ∃ d, out = h ++ d ∧ rx_data s = d ++ rx_data s' ∧ bytes_end_with END_OF_HEADERS out = true
       ∧ (blen h ≤ MAX_HEADERS → blen out ≤ MAX_HEADERS).
Proof.
  induction fuel as [|fuel IH]; intros h s out s'; cbn [read_header];
    destruct (bytes_end_with _ h) eqn:E; try done;
    try (intros [= <- <-]; exists []; by rewrite app_nil_r).
  unfold mbind, M_bind, throw_if, lift, bail_if. destruct (Z.leb_spec MAX_HEADERS (blen h)); [done|].
  destruct (read_bytes _ h s) as [[h1|] s1] eqn:Hr; [|done].
  apply read_loop_Ok in Hr as (d1 & -> & Hd1 & Hl1). intros (d & -> & Hd & He & Hl)%IH.
  exists (d1 ++ d). rewrite app_assoc. split_and!; [done| |done|].
  - rewrite Hd1, Hd. by rewrite app_assoc.
  - intros _. apply Hl. rewrite Hl1 by lia. lia.
Qed.

Lemma header_line_nonneg h0 l h k : (∀ k, hd_length h0 = Some k → 0 ≤ k) → header_line h0 l = Ok h →
  hd_length h = Some k → 0 ≤ k.
Proof.
  intros Hpos E. unfold header_line in E. inv_ok. destruct x as [key value]. inv_ok. case_match.
  - inv_ok. simplify_eq. intros [= <-].
    match goal with X : parse_u64 _ = Some _ |- _ => apply parse_u64_bound in X; unfold u64 in X; lia end.
  - case_match; inv_ok; simplify_eq; [apply Hpos|]. case_match; simplify_eq. apply Hpos.
Qed.
Lemma header_lines_nonneg lines : ∀ h0 h1 k, (∀ k, hd_length h0 = Some k → 0 ≤ k) →
  header_lines h0 lines = Ok h1 → hd_length h1 = Some k → 0 ≤ k.
Proof.
  induction lines as [|l lines IH]; intros h0 h1 k Hpos; cbn [header_lines]; [intros [= <-]; apply Hpos|].
  destruct (header_line h0 l) as [h|] eqn:E; [|done]. apply IH. intros j. by eapply header_line_nonneg.
Qed.

(** A message is framed exactly: what [read_message] accepts is a
    header of at most 8192 bytes up to its empty line and then as many body bytes
    as the header announced, at most [limit]; it consumes those bytes and no
    others. *)
Theorem message_framing limit request s m s' :
  read_message limit request s = (Ok m, s') →
  ∃ header, rx_data s = header ++ ms_body m ++ rx_data s'
    ∧ blen header ≤ MAX_HEADERS ∧ bytes_end_with END_OF_HEADERS header = true
    ∧ parse_head limit request header = Ok (ms_first m, blen (ms_body m))
    ∧ blen (ms_body m) ≤ limit.
Proof.
  unfold read_message, mbind at 1, M_bind at 1. destruct (read_header _ [] s) as [[h|] s1] eqn:Hh; [|done].
  apply read_header_Ok in Hh as (d & Ed & Hs & He & Hl). simpl in Ed. subst d.
  unfold mbind, M_bind, lift. destruct (parse_head limit request h) as [[first n]|] eqn:Hp; [|done]. simpl.
  assert (0 ≤ n ≤ limit) as Hn.
  { unfold parse_head in Hp. inv_ok. destruct (split_crlf _) as [|l ls]; [done|]. inv_ok. simplify_eq.
    rename H0 into Hlines, H1 into Hlen, H2 into Hck. reflect. split; [|lia].
    unfold or_default in Hlen. destruct (hd_length x0) eqn:E; [simplify_eq; by apply (header_lines_nonneg ls (mkHead None false []) x0)|].
    case_match; simplify_eq; lia. }
  destruct (read_bytes n [] s1) as [[body|] s2] eqn:Hb; [|done]. intros [= <- <-]. simpl.
  apply read_bytes_Ok in Hb as [Hb Hbl]; [|lia]. exists h. rewrite Hs, Hb.
  split_and!; try done; [by apply Hl|congruence|lia].
Qed.

(** ** A stream that delivers *)

(** No failure and no deadline: data in any chunks, with interruptions. *)
Definition calm (s : list rx) : Prop :=
  Forall (λ r, match r with Chunk b => b ≠ [] | RxAgain => True | _ => False end) s.
Lemma calm_unread b s : calm s → calm (unread b s).
Proof. destruct b; [done|]. by constructor. Qed.

Lemma read_loop_calm fuel : ∀ len buf s, calm s → blen buf ≤ len →
  let n := Z.to_nat (len - blen buf) in
  (n ≤ length (rx_data s))%nat → (n + length s ≤ fuel)%nat →
  ∃ s', read_loop fuel len buf s = (Ok (buf ++ take n (rx_data s)), s')
        ∧ calm s' ∧ rx_data s' = drop n (rx_data s).
Proof.
  induction fuel as [|fuel IH]; intros len buf s Hc Hb n Hn Hf; cbn [read_loop];
    destruct (Z.ltb_spec (blen buf) len) as [Hlt|Hge]; try lia.
  - exists s. assert (n = 0%nat) as -> by lia. by rewrite take_0, app_nil_r, drop_0.
  - inversion Hc as [|r s' Hr Hc']; subst; [simpl in Hn; lia|]. destruct r as [b| | |]; try done.
    + destruct b as [|x b]; [done|]. set (m := Z.to_nat (Z.min (len - blen buf) 4096)).
      assert (0 < m)%nat by lia. assert (m ≤ n)%nat as Hmn by lia.
      assert (Hbl : blen (buf ++ take m (x :: b)) = blen buf + Z.of_nat (m `min` length (x :: b))).
      { unfold blen. rewrite length_app, length_take. lia. }
      assert (0 < m `min` length (x :: b))%nat as Hpos by (simpl; lia).
      set (n' := Z.to_nat (len - blen (buf ++ take m (x :: b)))).
      assert (n = m `min` length (x :: b) + n')%nat as En by lia.
      destruct (IH len (buf ++ take m (x :: b)) (unread (drop m (x :: b)) s')) as (s2 & Hr2 & Hc2 & Hd2).
      * by apply calm_unread.
      * lia.
      * rewrite rx_data_unread, length_app, length_drop. cbn [rx_data] in Hn. rewrite length_app in Hn. lia.
      * fold n'. assert (length (unread (drop m (x :: b)) s') ≤ S (length s'))%nat.
        { unfold unread. case_match; simpl; lia. }
        cbn [length] in Hf. lia.
      * exists s2. fold n' in Hr2, Hd2. rewrite rx_data_unread in Hr2, Hd2. cbn [rx_data].
        assert (∀ (a c : bytes), take m a ++ take n' (drop m a ++ c) = take (m `min` length a + n') (a ++ c)
                ∧ drop n' (drop m a ++ c) = drop (m `min` length a + n') (a ++ c)) as Hsplit.
        { clear. intros a c. assert (a ++ c = take m a ++ (drop m a ++ c)) as -> by (by rewrite app_assoc, take_drop).
          by rewrite take_app_add', drop_app_add' by (by rewrite length_take). }
        destruct (Hsplit (x :: b) (rx_data s')) as [E1 E2].
        rewrite En, <-E1, <-E2, app_assoc. done.
    + destruct (IH len buf s') as (s2 & ? & ? & ?); try done. { fold n. cbn [length] in Hf. lia. } by exists s2.
  - exists s. assert (n = 0%nat) as -> by lia. by rewrite take_0, app_nil_r, drop_0.
Qed.
Lemma read_bytes_calm len buf s : calm s → blen buf ≤ len →
  let n := Z.to_nat (len - blen buf) in (n ≤ length (rx_data s))%nat →
  ∃ s', read_bytes len buf s = (Ok (buf ++ take n (rx_data s)), s')
        ∧ calm s' ∧ rx_data s' = drop n (rx_data s).
Proof. intros Hc Hb n Hn. by apply read_loop_calm. Qed.

(** A header whose empty line is at its end is read exactly. *)
Lemma read_header_calm H rest : blen H ≤ MAX_HEADERS → bytes_end_with END_OF_HEADERS H = true →
  (∀ k, (k < length H)%nat → bytes_end_with END_OF_HEADERS (take k H) = false) →
  ∀ fuel k s, calm s → (k ≤ length H)%nat → (length H - k < fuel)%nat → rx_data s = drop k H ++ rest →
  ∃ s', read_header fuel (take k H) s = (Ok H, s') ∧ calm s' ∧ rx_data s' = rest.
Proof.
  intros Hmax He Hne. unfold blen in Hmax. induction fuel as [|fuel IH]; intros k s Hc Hk Hf Hs; [lia|].
  cbn [read_header]. destruct (decide (k = length H)) as [->|Hlt].
  { rewrite take_ge, He by done. exists s. split_and!; try done. by rewrite drop_ge in Hs. }
  rewrite Hne by lia. unfold mbind, M_bind, throw_if, lift, bail_if.
  destruct (lookup_lt_is_Some_2 H k ltac:(lia)) as [x Hx].
  assert (blen (take k H) = Z.of_nat k) as Hbl by (unfold blen; rewrite length_take; lia). rewrite Hbl.
  destruct (Z.leb_spec MAX_HEADERS (Z.of_nat k)); [lia|].
  assert (Z.to_nat (Z.of_nat k + 1 - blen (take k H)) = 1%nat) as E1 by lia.
  rewrite (drop_S _ _ _ Hx) in Hs.
  destruct (read_bytes_calm (Z.of_nat k + 1) (take k H) s) as (s1 & Hr & Hc1 & Hd1);
    [done|lia|rewrite E1, Hs; simpl; lia|]. rewrite E1, Hs in *. rewrite Hr.
  replace (take k H ++ take 1 ((x :: drop (S k) H) ++ rest)) with (take (S k) H)
    by (by rewrite (take_S_r _ _ _ Hx)).
  apply IH; [done|lia..|]. done.
Qed.

(** ** Header text *)

Definition ascii_byte (b : Z) : Prop := 0 ≤ b < 128.
Lemma utf8_ascii l : Forall ascii_byte l → utf8_decode l = Some l.
Proof.
  induction 1 as [|b l Hb _ IH]; [done|]. cbn [utf8_decode]. unfold ascii_byte in Hb.
  rewrite (proj2 (in_range_spec 0 127 b)) by lia. by rewrite IH.
Qed.
Lemma encode_ascii l : Forall ascii_byte l → concat (utf8_encode_char <$> l) = l.
Proof.
  induction 1 as [|b l Hb _ IH]; [done|]. cbn [fmap list_fmap concat]. unfold utf8_encode_char, ascii_byte in *.
  destruct (Z.ltb_spec b 128); [|lia]. simpl. by rewrite IH.
Qed.
(** Digits only. *)
Definition digits (s : string) : Prop := Forall (λ b, 48 ≤ b ≤ 57) (str_bytes s).
Lemma drop_while_head (p : Z → bool) x l : p x = false → drop_while p (x :: l) = x :: l.
Proof. intros Hp. simpl. by rewrite Hp. Qed.
Lemma digit_not_space b : 48 ≤ b ≤ 57 → is_whitespace b = false.
Proof.
  intros Hb. unfold is_whitespace, in_range. rewrite !orb_false_iff, !andb_false_iff, !Z.eqb_neq, !Z.leb_gt. lia.
Qed.
Lemma trim_digits s : digits s → s ≠ EmptyString → trim (String " " s) = s.
Proof.
  intros Hd Hne. assert (Forall ascii_byte (str_bytes s)) as Ha.
  { eapply Forall_impl; [exact Hd|]. unfold ascii_byte. simpl. lia. }
  unfold trim, chars, of_chars.
  rewrite utf8_ascii by (constructor; [unfold ascii_byte; vm_compute; split; congruence|done]).
  cbn [default from_option]. unfold trim_chars.
  change (drop_while is_whitespace (id (str_bytes (String " " s)))) with (drop_while is_whitespace (str_bytes s)).
  assert (∀ l, Forall (λ b, 48 ≤ b ≤ 57) l → drop_while is_whitespace l = l) as Hdw.
  { intros l [|b l' Hb Hl]; [done|]. by apply drop_while_head, digit_not_space. }
  rewrite (Hdw (str_bytes s)) by done. rewrite (Hdw (rev _)) by (by apply Forall_rev).
  rewrite rev_involutive, encode_ascii by done. apply bytes_str_bytes.
Qed.

(** Decimal numbers. *)
Lemma pretty_char_byte x : (x < 10)%N → byte_of (pretty_N_char x) = 48 + Z.of_N x.
Proof.
  intros Hx. assert (x ∈ [0;1;2;3;4;5;6;7;8;9]%N) as Hin.
  { repeat (rewrite elem_of_cons). lia. }
  repeat (apply elem_of_cons in Hin as [->|Hin]; [done|]). by apply elem_of_nil in Hin.
Qed.
Lemma pretty_go_digits x : ∀ s, digits s → digits (pretty_N_go x s).
Proof.
  induction (N.lt_wf_0 x) as [x _ IH]; intros s Hs. destruct (decide (x = 0)%N) as [->|Hx].
  - by rewrite pretty_N_go_0.
  - rewrite pretty_N_go_step by lia. apply IH; [apply N.div_lt; lia|].
    pose proof (N.mod_lt x 10 ltac:(lia)). pose proof (N2Z.is_nonneg (x mod 10)).
    constructor; [|done]. cbn beta. rewrite pretty_char_byte by done. lia.
Qed.
Lemma pretty_go_parse x : Z.of_N x ≤ u64_max → ∀ s,
  parse_digits 0 (str_bytes (pretty_N_go x s)) = parse_digits (Z.of_N x) (str_bytes s).
Proof.
  induction (N.lt_wf_0 x) as [x _ IH]; intros Hle s. destruct (decide (x = 0)%N) as [->|Hx].
  - by rewrite pretty_N_go_0.
  - rewrite pretty_N_go_step by lia. pose proof (N.mod_lt x 10 ltac:(lia)). pose proof (N2Z.is_nonneg (x mod 10)). pose proof (N2Z.is_nonneg (x / 10)).
    pose proof (N.div_mod x 10 ltac:(lia)) as E.
    rewrite IH; [|apply N.div_lt; lia|lia]. cbn [str_bytes parse_digits].
    rewrite pretty_char_byte by done. unfold is_ascii_digit.
    assert ((48 <=? 48 + Z.of_N (x mod 10)) = true) as -> by (apply Z.leb_le; lia).
    assert ((48 + Z.of_N (x mod 10) <=? 57) = true) as -> by (apply Z.leb_le; lia). cbn [andb].
    replace (Z.of_N (x / 10) * 10 + (48 + Z.of_N (x mod 10) - 48)) with (Z.of_N x) by lia.
    by rewrite (proj2 (Z.leb_le _ _) Hle).
Qed.
Lemma dec_digits n : 0 ≤ n → digits (dec n) ∧ dec n ≠ EmptyString.
Proof.
  intros Hn. unfold dec, pretty, pretty_N. destruct (decide _) as [|Hx].
  - split; [|done]. constructor; [|constructor]. vm_compute. split; congruence.
  - split; [apply pretty_go_digits; constructor|]. rewrite pretty_N_go_step by lia.
    assert (∀ x s, s ≠ EmptyString → pretty_N_go x s ≠ EmptyString) as Hne; [|by apply Hne].
    clear. intros x. induction (N.lt_wf_0 x) as [x _ IH]; intros s Hs. destruct (decide (x = 0)%N) as [->|Hx].
    + by rewrite pretty_N_go_0.
    + rewrite pretty_N_go_step by lia. apply IH; [apply N.div_lt; lia|done].
Qed.
Lemma parse_dec n : u64 n → parse_u64 (dec n) = Some n.
Proof.
  unfold u64. intros Hn. destruct (dec_digits n ltac:(lia)) as [Hd Hne]. unfold parse_u64.
  destruct (str_bytes (dec n)) as [|b l] eqn:E.
  { exfalso. apply Hne, str_bytes_inj. by rewrite E. }
  unfold digits in Hd. rewrite E in Hd. inversion_clear Hd as [|? ? Hb _].
  destruct (Z.eqb_spec b 43); [lia|]. rewrite <-E. unfold dec, pretty, pretty_N.
  destruct (decide _) as [Hx|Hx]; [replace n with 0 by lia; by vm_compute|].
  rewrite pretty_go_parse by lia. cbn [str_bytes parse_digits]. f_equal. lia.
Qed.

(** ** Header lines *)

Definition line_ok (l : bytes) : Prop := l ≠ [] ∧ 13 ∉ l.
Definition head_bytes (lines : list bytes) : bytes := concat ((λ l, l ++ [13; 10]) <$> lines) ++ [13; 10].

Lemma app_split_no13 (l : bytes) : 13 ∉ l → ∀ p t u, l ++ t = p ++ 13 :: u → ∃ p', p = l ++ p' ∧ t = p' ++ 13 :: u.
Proof.
  induction l as [|x l IH]; intros Hl p t u E; [by exists p|].
  destruct p as [|y p]; simpl in E; injection E as -> E; [set_solver|].
  destruct (IH ltac:(set_solver) _ _ _ E) as (p' & -> & ->). by exists p'.
Qed.
(** The empty line of a header is its last one. *)
Lemma head_bytes_end lines : Forall line_ok lines →
  ∀ p q, head_bytes lines = p ++ END_OF_HEADERS ++ q → q = [].
Proof.
  induction 1 as [|l lines [Hne Hl] Hls IH]; intros p q E.
  - apply (f_equal length) in E. unfold head_bytes in E. cbn [fmap list_fmap concat] in E.
    rewrite !length_app in E. simpl in E. lia.
  - unfold head_bytes in E. cbn [fmap list_fmap concat] in E. rewrite <-!app_assoc in E.
    change (END_OF_HEADERS ++ q) with (13 :: 10 :: 13 :: 10 :: q) in E.
    apply app_split_no13 in E as (p' & -> & E); [|done].
    change ((13 :: 10 :: head_bytes lines) = p' ++ 13 :: 10 :: 13 :: 10 :: q) in E.
    destruct p' as [|y [|z p']]; [|by simplify_eq|injection E as _ _ E; exact (IH p' q E)].
    simpl in E. injection E as E. destruct lines as [|l' lines].
    + unfold head_bytes in E. simpl in E. by simplify_eq.
    + apply Forall_cons in Hls as [[Hne' Hl'] _]. destruct l' as [|b l']; [done|].
      unfold head_bytes in E. cbn in E. injection E as -> _. set_solver.
Qed.
Lemma bytes_end_with_app p e : bytes_end_with e (p ++ e) = true.
Proof. apply bool_decide_eq_true. rewrite length_app, Nat.add_sub. apply drop_app_length. Qed.
Lemma bytes_end_with_true e b : bytes_end_with e b = true → b = take (length b - length e) b ++ e.
Proof. unfold bytes_end_with. intros E%bool_decide_eq_true.
  transitivity (take (length b - length e) b ++ drop (length b - length e) b); [by rewrite take_drop|by rewrite E]. Qed.
Lemma head_bytes_prefix lines k : Forall line_ok lines → (k < length (head_bytes lines))%nat →
  bytes_end_with END_OF_HEADERS (take k (head_bytes lines)) = false.
Proof.
  intros Hl Hk. apply not_true_iff_false. intros E%bytes_end_with_true.
  set (p := take (length (take k _) - _) _) in E.
  assert (drop k (head_bytes lines) = []) as Hd.
  { apply (head_bytes_end lines Hl p). by rewrite app_assoc, <-E, take_drop. }
  apply (f_equal length) in Hd. rewrite length_drop in Hd. simpl in Hd. lia.
Qed.

(** A header from its lines, as text. *)
Definition head_text (lines : list string) : string := (RustStr.join CRLF lines ++ (CRLF ++ CRLF))%string.
Lemma head_text_bytes lines : lines ≠ [] → str_bytes (head_text lines) = head_bytes (str_bytes <$> lines).
Proof.
  intros Hne. unfold head_text, head_bytes. rewrite !str_bytes_app. change (str_bytes CRLF) with [13; 10].
  rewrite app_assoc. f_equal. destruct lines as [|l lines]; [done|]. clear Hne.
  revert l. induction lines as [|l' lines IH]; intros l; [simpl; by rewrite app_nil_r|].
  change (RustStr.join CRLF (l :: l' :: lines)) with (l +:+ (CRLF +:+ RustStr.join CRLF (l' :: lines))).
  rewrite !str_bytes_app. change (str_bytes CRLF) with [13; 10]. rewrite <-!app_assoc, IH. by cbn; rewrite <-!app_assoc.
Qed.
Lemma substring_prefix a b : String.substring 0 (String.length a) (a +:+ b) = a.
Proof. induction a as [|x a IH]; [by destruct b|]. change (String x (String.substring 0 (String.length a) (a +:+ b)) = String x a). by f_equal. Qed.
Lemma split_crlf_none s : 13 ∉ str_bytes s → split_crlf s = [s].
Proof.
  induction s as [|a s IH]; [done|]. cbn [str_bytes]. intros Hn. cbn [split_crlf].
  destruct s as [|b s']; [done|]. destruct (Z.eqb_spec (byte_of a) 13) as [E|]; [rewrite E in Hn; set_solver|].
  cbn [andb]. rewrite IH; [done|]. set_solver.
Qed.
Lemma split_crlf_sep s t : 13 ∉ str_bytes s → split_crlf (s +:+ (CRLF +:+ t)) = s :: split_crlf t.
Proof.
  induction s as [|a s IH]; [done|]. cbn [str_bytes]. intros Hn.
  change (split_crlf (String a (s +:+ (CRLF +:+ t))) = String a s :: split_crlf t).
  cbn [split_crlf]. destruct (s +:+ (CRLF +:+ t)) as [|b u] eqn:E; [by destruct s|].
  destruct (Z.eqb_spec (byte_of a) 13) as [Ea|]; [rewrite Ea in Hn; set_solver|].
  cbn [andb]. rewrite IH; [done|]. set_solver.
Qed.
Lemma split_crlf_join lines : lines ≠ [] → Forall (λ l, 13 ∉ str_bytes l) lines →
  split_crlf (RustStr.join CRLF lines) = lines.
Proof.
  intros Hne Hl. destruct Hl as [|l lines Hx Hl]; [done|]. clear Hne. revert l Hx.
  induction Hl as [|l' lines Hx' _ IH]; intros l Hx; [by apply split_crlf_none|].
  change (RustStr.join CRLF (l :: l' :: lines)) with (l +:+ (CRLF +:+ RustStr.join CRLF (l' :: lines))).
  rewrite split_crlf_sep by done. by rewrite IH.
Qed.

(** A printable line: what the messages of this protocol consist of. *)
Definition printable (s : string) : Prop := s ≠ EmptyString ∧ Forall (λ b, 32 ≤ b < 127) (str_bytes s).
Lemma printable_no13 s : printable s → 13 ∉ str_bytes s.
Proof. intros [_ Hs] Hin. rewrite Forall_forall in Hs. apply Hs in Hin. lia. Qed.
Lemma printable_lines_ok lines : Forall printable lines → Forall line_ok (str_bytes <$> lines).
Proof.
  induction 1 as [|l lines Hl _ IH]; constructor; [|done]. split; [|by apply printable_no13].
  destruct Hl as [Hne _]. intros E. apply Hne, str_bytes_inj. by rewrite E.
Qed.
Lemma head_text_utf8 lines : Forall printable lines → from_utf8 (str_bytes (head_text lines)) = Some (head_text lines).
Proof.
  intros Hp. unfold from_utf8. rewrite utf8_ascii; [by rewrite bytes_str_bytes|].
  destruct lines as [|l lines]; [repeat constructor; by vm_compute|].
  rewrite head_text_bytes by done. unfold head_bytes. apply Forall_app. split; [|repeat constructor; by vm_compute].
  induction Hp as [|x ls [_ Hx] _ IH]; cbn; [constructor|]. apply Forall_app. split; [|done].
  apply Forall_app. split; [|repeat constructor; by vm_compute].
  eapply Forall_impl; [exact Hx|]. unfold ascii_byte. simpl. lia.
Qed.
(** What a well-formed header means is what its lines mean. *)
Lemma parse_head_text limit request first lines : Forall printable (first :: lines) →
  parse_head limit request (str_bytes (head_text (first :: lines))) =
  (h ← header_lines (mkHead None false []) lines;
   length ← ok_or "content length required"
     (or_default (hd_length h) (if request && starts_with "GET " first then Some 0 else None));
   _ ← bail_if ((limit <? length) || ((0 <? length) && negb (hd_json h))) "invalid body length or type";
   _ ← bail_if (request && negb (starts_with "GET " first) && negb (starts_with "POST " first))
         "unsupported method";
   Ok (first, length)).
Proof.
  intros Hp. unfold parse_head. rewrite head_text_utf8 by done. cbn [mbind result_bind ok_or].
  assert (String.substring 0 (String.length (head_text (first :: lines)) - 4) (head_text (first :: lines))
          = RustStr.join CRLF (first :: lines)) as ->.
  { unfold head_text. rewrite length_append. change (String.length (CRLF +:+ CRLF)) with 4%nat.
    rewrite Nat.add_sub. apply substring_prefix. }
  rewrite split_crlf_join; [done|done|]. eapply Forall_impl; [exact Hp|]. apply printable_no13.
Qed.

(** ** What the client sends is what the server handles *)

Lemma all_bytes_Forall f s : all_bytes f s = true ↔ Forall (λ b, f b = true) (str_bytes s).
Proof. unfold all_bytes. by rewrite forallb_elem, Forall_forall. Qed.
Lemma identifier_bytes s : identifier s = true →
  Forall (λ b, 33 ≤ b < 127) (str_bytes s) ∧ str_len s ≤ 96.
Proof.
  unfold identifier. rewrite !andb_true_iff, Z.leb_le, all_bytes_Forall. intros [[_ Hl] Hf]. split; [|done].
  eapply Forall_impl; [exact Hf|]. intros b Hb. cbn beta in *.
  unfold is_ascii_alphanumeric, is_ascii_alphabetic, is_ascii_lowercase, is_ascii_uppercase, is_ascii_digit in Hb.
  rewrite !orb_true_iff, !andb_true_iff, !Z.leb_le in Hb. unfold byte_in in Hb. simpl in Hb.
  rewrite !orb_true_iff, !Z.eqb_eq in Hb. destruct_or! Hb; try done; try (rewrite Hb; vm_compute; split; congruence); lia.
Qed.
Lemma strip_approve route id : strip_prefix "/v1/system/proposals/" route ≫= strip_suffix "/approve" = Some id →
  route = ("/v1/system/proposals/" ++ (id ++ "/approve"))%string.
Proof. intros (x & ->%strip_prefix_Some & ->%strip_suffix_Some)%bind_Some. done. Qed.
Lemma client_allowed_shape method route : client_allowed method route = true →
  (method = "GET" ∨ method = "POST")%string ∧ Forall (λ b, 33 ≤ b < 127) (str_bytes route) ∧ str_len route ≤ 256.
Proof.
  assert (∀ p, forallb (λ b, (33 <=? b) && (b <? 127)) (str_bytes p) = true → Forall (λ b, 33 ≤ b < 127) (str_bytes p)) as Hc.
  { intros p Hp. rewrite forallb_elem in Hp. apply Forall_forall. intros b Hb%Hp.
    apply andb_true_iff in Hb as [?%Z.leb_le ?%Z.ltb_lt]. lia. }
  unfold client_allowed. rewrite orb_true_iff, !andb_true_iff, !String.eqb_eq, !orb_true_iff.
  intros [[-> [Hr|Hr]]|[-> [Hr|Hr]]]; (split; [auto|]).
  - apply String.eqb_eq in Hr as ->. split; [by apply Hc|by vm_compute].
  - destruct (strip_prefix _ route) as [id|] eqn:E; [|done]. apply strip_prefix_Some in E as ->.
    destruct (identifier_bytes id Hr) as [Hf Hl]. split.
    + change (Forall (λ b, 33 ≤ b < 127) (str_bytes ("/v1/system/builds/" +:+ id))).
      rewrite str_bytes_app. apply Forall_app. split; [by apply Hc|done].
    + change (str_len ("/v1/system/builds/" +:+ id) ≤ 256). unfold str_len in *. rewrite length_append.
      change (String.length "/v1/system/builds/") with 18%nat. lia.
  - apply str_in_elem in Hr. apply elem_of_cons in Hr as [->|Hr]; [split; [by apply Hc|by vm_compute]|].
    apply elem_of_cons in Hr as [->|Hr]; [split; [by apply Hc|by vm_compute]|]. by apply elem_of_nil in Hr.
  - destruct (strip_prefix _ route ≫= _) as [id|] eqn:E; [|done]. apply strip_approve in E as ->.
    destruct (identifier_bytes id Hr) as [Hf Hl].
    change ("/v1/system/proposals/" ++ (id ++ "/approve"))%string with ("/v1/system/proposals/" +:+ (id +:+ "/approve")).
    split.
    + rewrite !str_bytes_app. rewrite !Forall_app. split_and!; [by apply Hc|done|by apply Hc].
    + unfold str_len in *. rewrite !length_append. change (String.length "/v1/system/proposals/") with 21%nat.
      change (String.length "/approve") with 8%nat. lia.
Qed.

Definition request_line (method route : string) : string := (method ++ (" " ++ (route ++ " HTTP/1.1")))%string.
Definition request_lines (method route : string) (n : Z) : list string :=
  [request_line method route; "Host: localhost"%string; "Content-Type: application/json"%string;
   ("Content-Length: " ++ dec n)%string; "Connection: close"%string].
Lemma request_bytes_head method route body :
  request_bytes method route body = str_bytes (head_text (request_lines method route (blen body))) ++ body.
Proof.
  unfold request_bytes, head_text, request_lines, request_line. f_equal. f_equal.
  cbn [RustStr.join]. by rewrite !append_assoc.
Qed.
Lemma request_lines_printable method route n : client_allowed method route = true → 0 ≤ n →
  Forall printable (request_lines method route n).
Proof.
  intros Ha Hn. destruct (client_allowed_shape _ _ Ha) as (Hm & Hr & _).
  destruct (dec_digits n Hn) as [Hd Hne].
  assert (∀ p, negb (str_is_empty p) && forallb (λ b, (32 <=? b) && (b <? 127)) (str_bytes p) = true → printable p) as Hc.
  { intros p [Hp1 Hp2]%andb_true_iff. split; [intros ->; done|]. rewrite forallb_elem in Hp2.
    apply Forall_forall. intros b Hb%Hp2. apply andb_true_iff in Hb as [?%Z.leb_le ?%Z.ltb_lt]. lia. }
  unfold request_lines. rewrite !Forall_cons, Forall_nil. split_and!; try (by apply Hc); try done.
  - split; [unfold request_line; by destruct Hm as [-> | ->]|].
    unfold request_line. rewrite !str_bytes_app, !Forall_app. split_and!.
    + destruct Hm as [-> | ->]; by apply Hc.
    + by apply (Hc " "%string).
    + eapply Forall_impl; [exact Hr|]. simpl. lia.
    + by apply (Hc " HTTP/1.1"%string).
  - split; [done|]. change (Forall (λ b, 32 ≤ b < 127) (str_bytes ("Content-Length: " +:+ dec n))).
    rewrite str_bytes_app, Forall_app. split; [by apply (Hc "Content-Length: "%string)|].
    eapply Forall_impl; [exact Hd|]. simpl. lia.
Qed.
Lemma pretty_go_length k : ∀ x s, (x < 10 ^ N.of_nat k)%N →
  (String.length (pretty_N_go x s) ≤ k + String.length s)%nat.
Proof.
  induction k as [|k IH]; intros x s Hx.
  - assert (x = 0%N) as -> by (simpl in Hx; lia). by rewrite pretty_N_go_0.
  - destruct (decide (x = 0)%N) as [->|Hne]; [rewrite pretty_N_go_0; lia|].
    rewrite pretty_N_go_step by lia. etrans; [apply IH|simpl; lia].
    apply N.Div0.div_lt_upper_bound. rewrite Nat2N.inj_succ, N.pow_succ_r' in Hx. done.
Qed.
Lemma dec_length n : 0 ≤ n < 10 ^ 9 → str_len (dec n) ≤ 9.
Proof.
  intros Hn. unfold dec, pretty, pretty_N, str_len. destruct (decide _); [by vm_compute|].
  pose proof (pretty_go_length 9 (Z.to_N n) "") as Hl. cbn [String.length] in Hl.
  assert (Z.to_N n < 10 ^ N.of_nat 9)%N as Hb by (change (10 ^ N.of_nat 9)%N with (Z.to_N (10 ^ 9)); lia).
  specialize (Hl Hb). lia.
Qed.

Lemma content_length_line h n : str_in "content-length" (hd_names h) = false → u64 n →
  header_line h ("Content-Length: " ++ dec n) =
  Ok (mkHead (Some n) (hd_json h) ("content-length"%string :: hd_names h)).
Proof.
  intros Hn Hu. pose proof Hu as [H0 _]. destruct (dec_digits n H0) as [Hd Hne].
  unfold header_line.
  change (split_once ":" ("Content-Length: " ++ dec n)%string)
    with (Some ("Content-Length"%string, String " " (dec n))).
  cbn [mbind result_bind ok_or option_bind].
  assert (existsb (λ b, (b <? 32) || (b =? 127)) (str_bytes (String " " (dec n))) = false) as ->.
  { apply existsb_false. intros b Hb. rewrite orb_false_iff, Z.ltb_ge, Z.eqb_neq. cbn [str_bytes] in Hb.
    apply elem_of_cons in Hb as [->|Hb]; [by vm_compute|]. unfold digits in Hd. rewrite Forall_forall in Hd.
    apply Hd in Hb. lia. }
  cbn [orb]. change (to_ascii_lowercase "Content-Length") with "content-length"%string.
  rewrite Hn. unfold bail_if. cbn [orb andb].
  change (str_is_empty "Content-Length" || negb (all_bytes (λ b, is_ascii_alphanumeric b || (b =? 45)) "Content-Length") || false)
    with false.
  cbv iota. cbn [mbind result_bind]. rewrite trim_digits by done.
  change ("content-length" =? "content-length")%string with true. cbv iota.
  assert (str_is_empty (dec n) = false) as -> by (by apply String.eqb_neq).
  assert (all_bytes is_ascii_digit (dec n) = true) as ->.
  { apply all_bytes_Forall. eapply Forall_impl; [exact Hd|]. intros b Hb. unfold is_ascii_digit. simpl in *.
    rewrite andb_true_iff, !Z.leb_le. lia. }
  cbn [orb negb]. cbv iota. cbn [mbind result_bind]. by rewrite parse_dec.
Qed.

Lemma request_head method route n : client_allowed method route = true → 0 ≤ n ≤ MAX_DOCUMENT →
  parse_head MAX_DOCUMENT true (str_bytes (head_text (request_lines method route n))) =
  Ok (request_line method route, n).
Proof.
  intros Ha Hn. assert (u64 n) as Hu by (unfold u64, u64_max, MAX_DOCUMENT in *; lia).
  pose proof (request_lines_printable method route n Ha ltac:(lia)) as Hp. unfold request_lines in *.
  rewrite parse_head_text by done.
  assert (header_lines (mkHead None false [])
    ["Host: localhost"%string; "Content-Type: application/json"%string;
     ("Content-Length: " ++ dec n)%string; "Connection: close"%string]
    = Ok (mkHead (Some n) true ["connection"%string; "content-length"%string; "content-type"%string; "host"%string])) as ->.
  { cbn [header_lines].
    assert (header_line (mkHead None false []) "Host: localhost" = Ok (mkHead None false ["host"%string])) as -> by done.
    assert (header_line (mkHead None false ["host"%string]) "Content-Type: application/json"
            = Ok (mkHead None true ["content-type"%string; "host"%string])) as -> by done.
    rewrite content_length_line by done. done. }
  cbn [mbind result_bind hd_length or_default ok_or hd_json negb].
  destruct (Z.ltb_spec MAX_DOCUMENT n); [lia|]. rewrite andb_false_r. cbn [orb bail_if].
  destruct (client_allowed_shape _ _ Ha) as (Hm & _). unfold request_line.
  destruct Hm as [-> | ->]; done.
Qed.

Lemma request_head_size method route n : client_allowed method route = true → 0 ≤ n ≤ MAX_DOCUMENT →
  blen (str_bytes (head_text (request_lines method route n))) ≤ MAX_HEADERS.
Proof.
  intros Ha Hn. destruct (client_allowed_shape _ _ Ha) as (Hm & _ & Hr).
  assert (str_len (dec n) ≤ 9) as Hd by (apply dec_length; unfold MAX_DOCUMENT in *; lia).
  assert (str_len method ≤ 4) as Hml by (destruct Hm as [-> | ->]; by vm_compute).
  unfold blen, str_len in *. rewrite length_str_bytes.
  unfold head_text, request_lines, request_line. cbn [RustStr.join]. rewrite !length_append.
  change (String.length CRLF) with 2%nat. change (String.length "Host: localhost") with 15%nat.
  change (String.length "Content-Type: application/json") with 30%nat.
  change (String.length "Content-Length: ") with 16%nat. change (String.length "Connection: close") with 17%nat.
  change (String.length " ") with 1%nat. change (String.length " HTTP/1.1") with 9%nat.
  unfold MAX_HEADERS. lia.
Qed.

Lemma read_request method route body s :
  client_allowed method route = true → blen body ≤ MAX_DOCUMENT → calm s →
  rx_data s = request_bytes method route body →
  fst (read_message MAX_DOCUMENT true s) = Ok (mkMessage (request_line method route) body).
Proof.
  intros Ha Hb Hc Hs. rewrite request_bytes_head in Hs.
  assert (0 ≤ blen body ≤ MAX_DOCUMENT) as Hn by (unfold blen in *; lia).
  set (H := str_bytes (head_text (request_lines method route (blen body)))) in *.
  assert (H = head_bytes (str_bytes <$> request_lines method route (blen body))) as EH by (by apply head_text_bytes).
  pose proof (printable_lines_ok _ (request_lines_printable method route (blen body) Ha ltac:(lia))) as Hok.
  destruct (read_header_calm H body) with (fuel := Z.to_nat (MAX_HEADERS + 1)) (k := 0%nat) (s := s)
    as (s1 & Hr & Hc1 & Hd1); try done.
  - by apply request_head_size.
  - unfold H, head_text. rewrite str_bytes_app. apply (bytes_end_with_app _ END_OF_HEADERS).
  - intros k Hk. rewrite EH in *. by apply head_bytes_prefix.
  - lia.
  - pose proof (request_head_size method route (blen body) Ha Hn) as Hsz. fold H in Hsz. unfold blen in Hsz. lia.
  - unfold read_message, mbind, M_bind, lift. change (take 0 H) with (@nil Z) in Hr. rewrite Hr.
    unfold H. rewrite request_head by done. cbn [fst snd].
    destruct (read_bytes_calm (blen body) [] s1) as (s2 & -> & _ & _); [done|unfold blen; simpl; lia|..].
    + rewrite Hd1. unfold blen. simpl. lia.
    + simpl. rewrite Hd1, take_ge; [done|]. unfold blen. simpl. lia.
Qed.

Section theorems.
Context `{Sha2} `{SerdeJson} `{ControlCrates}.

(** C34. A request the client sends is the request the server handles:
    however the bytes arrive, the server parses the client's message into the
    same method, route and body and hands them to the engine under the uid the
    kernel reports for the peer. *)
Theorem request_roundtrip d c e uid method route body :
  client_allowed method route = true → blen body ≤ MAX_DOCUMENT →
  cn_setup c = true → cn_peer c = Some uid →
  existsb (λ p, peer_id p =? uid) (c_peers (d_config d)) = true →
  calm (cn_rx c) → rx_data (cn_rx c) = request_bytes method route body →
  serve_connection d c e =
    (r ← attempt (handle d uid method route body); lift (answer (cn_writable c) r)) e.
Proof.
  intros Ha Hb Hset Hpeer Hknown Hc Hs. unfold serve_connection, setup, peer_uid, mbind, M_bind, lift, bail_if.
  rewrite Hset, Hpeer. cbn [negb ok_or]. rewrite Hknown. rewrite (read_request method route body) by done. cbn [negb ms_first ms_body].
  destruct (client_allowed_shape _ _ Ha) as (Hm & Hr & Hl).
  assert (split_char " " (request_line method route) = [method; route; "HTTP/1.1"%string]) as ->.
  { assert (split_char " " route = [route]) as Er.
    { apply split_char_none. unfold contains_byte. apply existsb_false. intros b Hin.
      rewrite Forall_forall in Hr. apply Hr in Hin. apply Z.eqb_neq. change (byte_of " ") with 32. lia. }
    unfold request_line.
    change (method ++ (" " ++ (route ++ " HTTP/1.1")))%string with (method +:+ String " " (route +:+ String " " "HTTP/1.1")).
    rewrite !split_char_sep, Er. by destruct Hm as [-> | ->]. }
  cbn [String.eqb negb orb]. change ("HTTP/1.1" =? "HTTP/1.1")%string with true. cbn [negb orb].
  destruct (Z.ltb_spec 256 (str_len route)); [lia|]. done.
Qed.

(** The call a connection carries: from a peer of the configuration, under the uid
    the kernel reports, with the method, route and body of the message it sent. *)
Definition carries (d : deployment) (c : conn) (uid : Z) (method route : string) (body : bytes) : Prop :=
  cn_peer c = Some uid ∧ existsb (λ p, peer_id p =? uid) (c_peers (d_config d)) = true
  ∧ ∃ m, fst (read_message MAX_DOCUMENT true (cn_rx c)) = Ok m
         ∧ split_char " " (ms_first m) = [method; route; "HTTP/1.1"%string] ∧ ms_body m = body.
(** Only a configured peer reaches the engine, and only under its own
    uid: a connection changes the engine as the one call of [handle] it carries,
    or not at all. *)
Theorem connection_handles_known_peers d c e r e' :
  serve_connection d c e = (r, e') →
  e' = e ∨ ∃ uid method route body x, carries d c uid method route body
    ∧ handle d uid method route body e = (x, e').
Proof.
  unfold serve_connection, setup, peer_uid, mbind, M_bind, lift, bail_if.
  destruct (cn_setup c); [|intros [= _ <-]; by left]. simpl. destruct (cn_peer c) as [uid|] eqn:Hp; simpl; [|intros [= _ <-]; by left].
  destruct (existsb _ _) eqn:Hk; simpl; [|intros [= _ <-]; by left].
  destruct (fst _) as [m|] eqn:Hm; [|intros [= _ <-]; by left].
  destruct (split_char " " (ms_first m)) as [|method [|route [|version [|]]]] eqn:Hs; try (intros [= _ <-]; by left).
  destruct (_ || _) eqn:Hv; [intros [= _ <-]; by left|]. unfold attempt.
  destruct (handle d uid method route (ms_body m) e) as [x e1] eqn:Hh. intros [= _ <-]. right.
  apply orb_false_iff in Hv as [Hv _]. apply negb_false_iff, String.eqb_eq in Hv as ->.
  exists uid, method, route, (ms_body m), x. split; [|done]. split_and!; [done..|]. by exists m.
Qed.
End theorems.
