(* ===== verification/ControlServe.v ===== *)
(** * The control service: [serve] of [crates/tentaflake-control/src/transport.rs]

    From the deployment configuration to the end of the process: the socket's
    directory and stale endpoint, the listener, and the two threads that share the
    engine.  The service is a run of [ControlRun], in which every request came
    over a connection of a known peer. *)

From S2P Require Import Prelude RustStr Json Posix Budget PrivateStore Process Template Sockets ControlData Engine Receipts EngineSpec ControlRun ControlTransport.

(** ** The endpoint *)

Section serve.
Context `{Sha2} `{SerdeJson} `{ControlCrates}.

Definition prepare_socket (umask : Z) (c : ControlConfig) : M world string unit :=
  parent ← lift (ok_or "invalid socket path" (parent_dir (c_socket c)));
  _ ← secure_ancestry parent;
  dir ← open_path parent true;
  meta ← map_err (λ _, "socket directory unavailable"%string) (sys_fstat dir);
  _ ← throw_if (negb (i_uid meta =? c_server_uid c) || negb (mode_and (i_mode meta) 18 (* 0o022 *) =? 0))
        "unsafe socket directory";
  let p := abs (c_socket c) in
  existing ← attempt (sys_symlink_metadata p);
  _ ← match existing with
      | Ok m =>
          _ ← throw_if (negb (bool_decide (i_kind m.2 = Socket)) || negb (i_uid m.2 =? c_server_uid c))
                "unsafe existing socket";
          map_err (λ _, "stale socket unavailable"%string) (sys_remove p)
      | Err NotFound => mret tt
      | Err _ => fail "socket unavailable"%string
      end;
  bind_socket "socket bind failed" "socket permissions unavailable" umask (c_socket c) p 438 (* 0o666 *).

(** ** The two threads *)

(** What the worker's thread holds between two uses of the engine; it ends at the
    first error. *)
Inductive worker : Type := Looking | Holding (w : Work) | Reporting (w : Work) (r : result string string) | Gone.
Record service : Type := mkService { sr_engine : Engine; sr_worker : worker }.
Definition set_engine (e : Engine) (s : service) : service := mkService e (sr_worker s).
Definition worker_turn (d : deployment) (s : service) : service :=
  let e := sr_engine s in
  match sr_worker s with
  | Looking =>
      let '(r, e) := claim d e in
      mkService e (match r with Ok (Some w) => Holding w | Ok None => Looking | Err _ => Gone end)
  | Holding w => let '(r, h) := execute w (en_host e) in mkService (set_host h e) (Reporting w r)
  | Reporting w r =>
      let '(x, e) := finish d (wk_id w) r e in
      mkService e (match x with Ok _ => Looking | Err _ => Gone end)
  | Gone => s
  end.

(** What happens next: [incoming] yields a connection or fails, the worker's
    thread takes its next step, or time passes on the host.  A connection is one
    turn: it reads its request before it locks the engine, once, for [handle]. *)
Inductive turn : Type :=
| Accepted (c : result unit conn)
| WorkerTurn
| Meanwhile (f : host → host).
(** The end of the list is where the process is stopped. *)
Fixpoint serve_turns (d : deployment) (l : list turn) : M service string unit :=
  match l with
  | [] => fail "listener stopped"%string
  | Accepted (Err _) :: _ => fail "listener unavailable"%string
  | Accepted (Ok c) :: l =>
      _ ← attempt (E' := string) (zoom sr_engine set_engine (serve_connection d c)); serve_turns d l
  | WorkerTurn :: l => _ ← modify (worker_turn d); serve_turns d l
  | Meanwhile f :: l =>
      _ ← modify (λ s, set_engine (set_host (f (en_host (sr_engine s))) (sr_engine s)) s); serve_turns d l
  end.
(** [backlog]: the second [listen] succeeds. *)
Definition serve (umask : Z) (backlog : bool) (d : deployment) (l : list turn) : M service string unit :=
  _ ← zoom (en_host ∘ sr_engine) (λ h s, set_engine (set_host h (sr_engine s)) s)
        (on_disk (prepare_socket umask (d_config d)));
  _ ← throw_if (negb backlog) "socket backlog unavailable";
  serve_turns d l.
(** [run] in the [serve] mode: the error it ends with, and the state it leaves. *)
Definition run_serve (umask : Z) (backlog : bool) (rest : list string) (l : list turn) (h : host) :
    result string unit * (host + deployment * service) :=
  match serve_command rest h with
  | (Err x, h) => (Err x, inl h)
  | (Ok (d, s), h) =>
      let '(r, sv) := serve umask backlog d l (mkService (mkEngine h s false) Looking) in (r, inr (d, sv))
  end.
End serve.

(** * Facts *)

(** ** The endpoint *)

Lemma opened_at_same w w' path directory f : same_fs w w' → opened_at w' path directory f → opened_at w path directory f.
Proof.
  intros S (Hs & Hd & Hw & n & Hn & Hk). split_and!; [done..| |exists n; by rewrite <-(sf_inodes _ _ S)].
  intros Hne. destruct (Hw Hne) as [(x & Hx & ?) Hdirs]. split.
  - exists x. by rewrite <-(lookup_inode_same w w').
  - intros k Hk'. destruct (Hdirs k Hk') as (i & y & Hy & ?). exists i, y. by rewrite <-(lookup_inode_same w w').
Qed.

Lemma wp_look p w :
  wp (E := string) (attempt (sys_symlink_metadata p))
    (λ r w', same_fs w w' ∧ match r with
                            | Ok x => lookup_inode w p = Some x
                            | Err NotFound => lookup_inode w p = None
                            | Err _ => True
                            end) (λ _ _, False) w.
Proof.
  apply wp_attempt. apply wp_simple; intros fs; [split; [apply same_fs_faults|done]|]. apply run_wp.
  change (lookup_inode (set_faults fs w) p) with (lookup_inode w p).
  destruct (lookup_inode w p); (split; [apply same_fs_faults|done]).
Qed.

Section endpoint.
Context (c : ControlConfig).
Let p := abs (c_socket c).
(** The socket's directory: reached without links, of the service's user, and
    writable by nobody else. *)
Definition guarded_directory (w : world) : Prop :=
  ∃ parent dir n, parent_dir (c_socket c) = Some parent ∧ opened_at w parent true dir
    ∧ w_inodes w !! fd_ino dir = Some n ∧ i_uid n = c_server_uid c ∧ mode_and (i_mode n) 18 = 0.
(** The endpoint's name is free, or a socket that an earlier service left. *)
Definition stale (w : world) : Prop :=
  ∀ i x, lookup_inode w p = Some (i, x) → i_kind x = Socket ∧ i_uid x = c_server_uid c.
Lemma stale_same w w' : same_fs w w' → stale w' → stale w.
Proof. intros S Hs i x Hl. apply (Hs i x). by rewrite (lookup_inode_same w w'). Qed.

Lemma wp_clear_stale w : wf w →
  wp (map_err (λ _, "stale socket unavailable"%string) (sys_remove p)) (λ _ w', others_kept p w w')
    (λ _ w', others_kept p w w') w.
Proof.
  intros Hwf. apply wp_map_err. pose proof (wp_remove_any (E := string) p w Hwf) as Hr.
  unfold wp, attempt in *. destruct (sys_remove p w) as [[a|e] w']; apply Hr.
Qed.

Lemma prepare_socket_spec umask w : wf w →
  wp (prepare_socket umask c)
    (λ _ w', guarded_directory w ∧ stale w ∧ listening w' p 438 ∧ others_kept p w w')
    (λ _ w', others_kept p w w' ∧ (¬ stale w → same_fs w w')) w.
Proof.
  intros Hwf. assert (∀ w', same_fs w w' → others_kept p w w' ∧ (¬ stale w → same_fs w w')) as Hsame.
  { intros w' S. split; [by apply others_kept_same|done]. }
  unfold prepare_socket. wp_step. apply wp_lift; intros parent Hparent; [|by apply Hsame]. apply ok_or_Ok in Hparent.
  wp_step. wp_reader (secure_ancestry_reader parent) as u w1 S1 _; [|by apply Hsame].
  wp_step. wp_reader (open_path_reader parent true) as dir w2 S2 Hdir; [|apply Hsame; by etrans].
  wp_step. wp_step. wp_reader (reader_fstat dir) as n w3 S3 Hn; [|apply Hsame; by chain].
  wp_step. wp_step; [apply Hsame; by chain|]. apply orb_false_iff in H as [Hu Hm]. apply negb_false_iff, Z.eqb_eq in Hu, Hm.
  assert (same_fs w w3) as S03 by (by chain). assert (wf w3) as Hwf3 by (by rewrite <-S03).
  assert (guarded_directory w) as Hg.
  { exists parent, dir, n. split_and!; try done.
    - exact (opened_at_same _ _ _ _ _ S1 Hdir).
    - by rewrite <-(sf_inodes _ _ S1), <-(sf_inodes _ _ S2). }
  wp_step. fold p. wp_apply (wp_look p w3); [|done]. intros r w4 [S4 Hr]. wp_step.
  assert (same_fs w w4) as S04 by (by etrans). assert (wf w4) as Hwf4 by (by rewrite <-S04).
  eapply (wp_mono _ (λ _ w', stale w ∧ others_kept p w w') _ (λ _ w', others_kept p w w' ∧ (¬ stale w → same_fs w w'))).
  - destruct r as [[i x]|[]]; [|wp_step|by apply Hsame..].
    + wp_step. wp_step; [by apply Hsame|]. apply orb_false_iff in H as [Hk Hx].
      assert (stale w) as Hs.
      { intros j y. rewrite <-(lookup_inode_same w w3) by done. rewrite Hr. intros [= <- <-].
        simpl in Hk, Hx. apply negb_false_iff in Hk, Hx. apply bool_decide_eq_true in Hk. by apply Z.eqb_eq in Hx. }
      assert (∀ w5, others_kept p w4 w5 → others_kept p w w5) as Ht.
      { intros w5. apply others_kept_trans. by apply others_kept_same. }
      eapply wp_mono; [by apply wp_clear_stale| |]; intros ? w5 K.
      * split; [done|by apply Ht].
      * split; [by apply Ht|done].
    + split; [|by apply others_kept_same].  intros i x. rewrite <-(lookup_inode_same w w3) by done. by rewrite Hr.
  - intros _ w5 [Hs K]. eapply wp_mono; [apply wp_bind_socket, K| |].
    + intros _ w6 (_ & Hl & K6). split_and!; [done..|]. by eapply others_kept_trans.
    + intros _ w6 [K6 _]. split; [by eapply others_kept_trans|done].
  - done.
Qed.
End endpoint.

(** ** The process as a run *)

Section refinement.
Context `{HS : Sha2} `{!Sha2Laws} `{HJ : SerdeJson} `{HC : ControlCrates} `{!ControlLaws}.
Variables (state : string) (c : ControlConfig) (d : deployment) (l : list turn).
Definition job_of (w : worker) : job :=
  match w with Looking | Gone => Idle | Holding w => Claimed w | Reporting w r => Done w r end.
Definition as_status (s : service) : status := Running c d (sr_engine s) (job_of (sr_worker s)).
(** A request that a connection of the script carries. *)
Definition received (k : call) : Prop :=
  k_config k = c ∧ ∃ conn, Accepted (Ok conn) ∈ l ∧ carries d conn (k_uid k) (k_method k) (k_route k) (k_body k).
(** What the service adds to a history. *)
Definition attributed (new : list event) : Prop := ∀ k, Called k ∈ new → received k.
Definition reaches (hs : list event) (s : service) : Prop :=
  ∃ new, run state (as_status s) (new ++ hs) ∧ attributed new.

Lemma reaches_more hs s s' new : attributed new →
  (∀ old, run state (as_status s) old → run state (as_status s') (new ++ old)) → reaches hs s → reaches hs s'.
Proof.
  intros Hn Hstep (old & Hrun & Ho). exists (new ++ old). rewrite <-app_assoc. split; [by apply Hstep|].
  intros k [Hk|Hk]%elem_of_app; [by apply Hn|by apply Ho].
Qed.

Lemma worker_turn_run s old : run state (as_status s) old →
  ∃ new, (∀ k, Called k ∉ new) ∧ run state (as_status (worker_turn d s)) (new ++ old).
Proof.
  intros Hrun. unfold worker_turn. destruct s as [e [|w|w r|]]; cbn [sr_engine sr_worker].
  - destruct (claim d e) as [r e'] eqn:Hc. exists (claim_events c (en_state e) r).
    split; [intros k; destruct r as [[w|]|x]; set_solver|].
    pose proof (run_claim state c d e old r e' Hrun Hc) as Hr. by destruct r as [[w|]|x].
  - destruct (execute w (en_host e)) as [r h] eqn:Hx. exists []. split; [set_solver|].
    exact (run_execute state c d e w old r h Hrun Hx).
  - destruct (finish d (wk_id w) r e) as [x e'] eqn:Hf. exists []. split; [set_solver|].
    pose proof (run_finish state c d e w r old x e' Hrun Hf) as Hr. by destruct x.
  - exists []. split; [set_solver|done].
Qed.
Lemma worker_turn_reaches hs s : reaches hs s → reaches hs (worker_turn d s).
Proof.
  intros (old & Hrun & Ho). destruct (worker_turn_run _ _ Hrun) as (new & Hnone & Hrun').
  exists (new ++ old). rewrite <-app_assoc. split; [done|].
  intros k [Hk|Hk]%elem_of_app; [by destruct (Hnone k)|by apply Ho].
Qed.
Lemma host_run old s h : environment (state_receipts state) (en_host (sr_engine s)) h →
  run state (as_status s) old → run state (as_status (set_engine (set_host h (sr_engine s)) s)) old.
Proof. intros He Hrun. exact (run_environment state _ h old Hrun He). Qed.
Lemma connection_reaches hs s conn r e : Accepted (Ok conn) ∈ l → d_config d = c →
  serve_connection d conn (sr_engine s) = (r, e) → reaches hs s → reaches hs (set_engine e s).
Proof.
  intros Hl Hd Hc Hr. apply connection_handles_known_peers in Hc as [->|(uid & method & route & body & x & Hcar & Hh)].
  { by destruct s. }
  eapply (reaches_more hs _ _ [Called (mkCall c uid method route body)]); [| |exact Hr].
  - intros k [= ->]%list_elem_of_singleton. split; [done|]. by exists conn.
  - intros old Hrun. exact (run_handle state c d _ _ old uid method route body x e Hrun Hh).
Qed.
Lemma reaches_wf hs s : reaches hs s → wf (h_world (en_host (sr_engine s))).
Proof. intros (new & Hrun & _). by apply run_in_step in Hrun as (s' & _ & Hw & _). Qed.

(** Serving ends with an error. *)
Lemma stops ts : ∀ s, wp (serve_turns d ts) (λ _ _, False) (λ _ _, True) s.
Proof.
  induction ts as [|[[conn|]| |f] ts IH]; intros s; cbn [serve_turns]; try by wp_step.
  - wp_step. apply wp_attempt. unfold wp, zoom. destruct (serve_connection _ _ _) as [[|] e]; apply IH.
  - wp_step. apply wp_modify, IH.
  - wp_step. apply wp_modify, IH.
Qed.

(** Whatever else happens on the host leaves the receipts alone. *)
Hypothesis elsewhere : ∀ f h, Meanwhile f ∈ l → wf (h_world h) → environment (state_receipts state) h (f h).
Lemma turns_reach hs ts : ts ⊆ l → d_config d = c → ∀ s, reaches hs s →
  wp (serve_turns d ts) (λ _ s', reaches hs s') (λ _ s', reaches hs s') s.
Proof.
  intros Hsub Hd. induction ts as [|t ts IH]; intros s Hr; cbn [serve_turns]; [by wp_step|].
  assert (ts ⊆ l) as Hts by set_solver. specialize (IH Hts).
  destruct t as [[conn|]| |f].
  - wp_step. apply wp_attempt. unfold wp, zoom.
    destruct (serve_connection d conn (sr_engine s)) as [[a|x] e] eqn:Hc; simpl;
      (apply IH; eapply (connection_reaches hs s conn); [set_solver|done|exact Hc|done]).
  - by wp_step.
  - wp_step. apply wp_modify. apply IH. by apply worker_turn_reaches.
  - wp_step. apply wp_modify. apply IH.
    apply (reaches_more hs s _ []); [by intros k ?%elem_of_nil| |done]. intros old. apply host_run.
    apply elsewhere; [set_solver|by eapply reaches_wf].
Qed.

(** The endpoint's preparation is a step of the environment. *)
Lemma prepared_run umask old s : abs (c_socket c) ≠ state_receipts state → d_config d = c →
  run state (as_status s) old →
  let w := h_world (en_host (sr_engine s)) in
  wp (zoom (en_host ∘ sr_engine) (λ h s, set_engine (set_host h (sr_engine s)) s)
        (on_disk (prepare_socket umask (d_config d))))
    (λ _ s', guarded_directory c w ∧ stale c w ∧ run state (as_status s') old)
    (λ _ s', run state (as_status s') old ∧ (¬ stale c w → same_fs w (h_world (en_host (sr_engine s'))))) s.
Proof.
  intros Hne Hd Hr w. assert (wf w) as Hwf by (by apply run_in_step in Hr as (s' & _ & Hw & _)).
  apply wp_zoom. unfold on_disk. apply wp_zoom. rewrite Hd.
  assert (∀ w', others_kept (abs (c_socket c)) w w' → environment (state_receipts state) (en_host (sr_engine s))
            (set_world w' (en_host (sr_engine s)))) as Hk by (intros w' [_ K]; apply K; congruence).
  eapply wp_mono; [by apply (prepare_socket_spec c)| |].
  - intros _ w' (Hg & Hs & _ & K). split_and!; [done..|]. apply host_run; [by apply Hk|done].
  - intros _ w' [K Hs]. split; [|done]. apply host_run; [by apply Hk|done].
Qed.
Lemma reaches_justified hs s : reaches hs s →
  ∃ new, run state (as_status s) (new ++ hs) ∧ attributed new
    ∧ (∀ w a, Dispatched c w a ∈ new → justified (new ++ hs) c w a).
Proof.
  intros (new & Hrun & Hn). exists new. split_and!; [done..|]. intros w a Hw.
  apply run_in_step in Hrun as (s' & [_ _ R] & _). apply (rl_justified _ _ R). set_solver.
Qed.
(** What the service did from the host [w] on. *)
Record served (hs : list event) (w : world) (s : service) : Prop := {
  sd_endpoint : ¬ stale c w → same_fs w (h_world (en_host (sr_engine s)));
  sd_run : ∃ new, run state (as_status s) (new ++ hs) ∧ attributed new
    ∧ (∀ w a, Dispatched c w a ∈ new → justified (new ++ hs) c w a)
    ∧ (new ≠ [] → guarded_directory c w ∧ stale c w);
}.

(** C10. The control service, from its open engine to the end of the process,
    for any sequence of connections, steps of the worker's thread and time between
    them: what it does is a run of the control plane, so that the theorems about
    runs hold of the process; each request of that run was carried by a connection
    it accepted, from a peer of the configuration, under the uid the kernel
    reports; each build it releases is justified by requests of the history.  It
    serves nobody unless the socket's directory is its own and writable by no one
    else, and never removes or replaces a file there other than a socket of its
    user. *)
Theorem control_service_refines_run umask backlog h0 h s hs r sv :
  run state (Stopped h0) hs → c_state c = state → engine_open c h0 = (Ok (d, s), h) →
  abs (c_socket c) ≠ state_receipts state →
  serve umask backlog d l (mkService (mkEngine h s false) Looking) = (r, sv) →
  is_ok r = false ∧ served hs (h_world h) sv.
Proof.
  intros Hrun Hst Ho Hne Hs. set (s0 := mkService (mkEngine h s false) Looking) in *.
  pose proof (run_start state c h0 d s h hs Hrun Hst Ho) as Hrun0. change (run state (as_status s0) hs) in Hrun0.
  assert (d_config d = c) as Hd by (by apply run_in_step in Hrun0 as (s' & _ & _ & _ & [Hd _ _] & _)).
  assert (wp (serve umask backlog d l) (λ _ _, False) (λ _ sv, served hs (h_world h) sv) s0) as Hwp.
  { unfold serve. wp_step. eapply wp_mono; [by apply (prepared_run umask hs s0)| |].
    - intros _ s1 (Hg & Hstale & Hrun1). change (h_world (en_host (sr_engine s0))) with (h_world h) in *.
      assert (∀ sv, reaches hs sv → served hs (h_world h) sv) as Hdone.
      { intros sv' (new & ? & ? & ?)%reaches_justified. split; [done|]. by exists new. }
      assert (reaches hs s1) as Hr1 by (exists []; split; [done|by intros k ?%elem_of_nil]).
      wp_step. wp_step; [by apply Hdone|].
      pose proof (turns_reach hs l ltac:(done) Hd s1 Hr1) as Ht. pose proof (stops l s1) as Hf.
      unfold wp in *. destruct (serve_turns d l s1) as [[|] sv']; [done|by apply Hdone].
    - intros _ s1 [Hrun1 Hsame]. split; [done|]. exists []. split_and!; try done.
      + by intros k ?%elem_of_nil.
      + by intros w a ?%elem_of_nil. }
  unfold wp in Hwp. rewrite Hs in Hwp. by destruct r.
Qed.
End refinement.
