(* ===== verification/Workloads.v ===== *)
(** * The workload registry: [crates/tentaflake-workloads/src/lib.rs], [main.rs]

    Which container runs for which agent, observed twice and published with a
    generation number.  The observer sees a file system ([Posix]), child
    processes ([Process]) and a sequence of snapshots of [/proc]; the JSON
    encodings derived by serde are the class [WorkloadCodec].  Every failure of
    this crate is the one error [authority_unavailable]. *)

From S2P Require Import Prelude RustStr Json Posix Budget PrivateStore Process.

Definition MAX_GENERATION : Z := 9007199254740991.
Definition STATE : string := "/var/lib/tentaflake-workloads".
Definition RUNTIME : string := "/run/tentaflake-workloads".
Definition MAX_BINDINGS : Z := 64.
Definition BYTES_PER_BINDING : Z := 256.
Definition err {A} (_ : A) : string := authority_unavailable.
Definition bad {S A} : M S string A := fail authority_unavailable.

Record Binding : Type := mkBinding {
  tenant_id : string; agent_id : string; workload_id : string; policy_revision : string; unit_name : string }.
Record Policy : Type := mkPolicy {
  po_version : Z; po_docker : string; po_systemctl : string; po_bindings : list Binding }.
Record Identity : Type := mkIdentity {
  kernel_boot_id : string; container_id : string; pid : Z; start_ticks : Z; cgroup : string; cgroup_inode : Z }.
#[export] Instance Identity_eq_dec : EqDecision Identity.
Proof. solve_decision. Defined.
Record Manifest : Type := mkManifest {
  mf_state : string;
  mf_binding : Binding;        (* the five names, copied from the binding *)
  mf_generation : Z;
  mf_verified_at_ms : Z;
  mf_identity : option Identity;  (* the six optional fields, present or absent together *)
}.
Definition Manifest_new (b : Binding) (generation now : Z) (identity : option Identity) : Manifest :=
  mkManifest (if is_some identity then "live" else "unavailable") b generation now identity.

(** ** Names *)

Definition valid_id (s : string) : bool :=
  negb (str_is_empty s) && (str_len s <=? 64)
  && all_bytes (λ b, is_ascii_alphanumeric b || byte_in "-_." b) s
  && negb (s =? ".")%string && negb (s =? "..")%string.
Definition valid_json_filename (name : string) : bool := is_some_and valid_id (strip_suffix ".json" name).
Definition valid_container_id (id : string) : bool :=
  (str_len id =? 64) && all_bytes (λ b, is_ascii_digit b || in_range 97 102 b) id.

(** ** Opening by descriptor walk *)

(** The check of one component.  [sticky]: the root-owned sticky [/nix/store]. *)
Definition untrusted (sticky is_dir : bool) (m : inode) : bool :=
  negb (i_uid m =? 0)
  || (negb (mode_and (i_mode m) 18 (* 0o022 *) =? 0)
      && negb (sticky && (mode_and (i_mode m) 514 (* 0o1002 *) =? 512 (* 0o1000 *))))
  || (negb is_dir && negb (bool_decide (i_kind m = Regular))).
Fixpoint secure_walk (store : bool) (depth : Z) (file : fd) (prefix : string) (parts : list string)
    (directory : bool) : M world string fd :=
  match parts with
  | [] => mret file
  | part :: rest =>
      _ ← throw_if (part =? "..")%string authority_unavailable;
      _ ← throw_if (contains_byte 0 part) authority_unavailable;
      let is_dir := negb (bool_decide (rest = [])) || directory in
      let next := below prefix part in
      f ← map_err err (if is_dir then sys_open_dir next else sys_open_read next);
      m ← map_err err (sys_fstat f);
      _ ← throw_if (untrusted ((depth =? 2) && store && is_dir) is_dir m) authority_unavailable;
      secure_walk store (depth + 1) f next rest directory
  end.
(** [Path::starts_with("/nix/store")]. *)
Definition in_store (path : string) : bool :=
  starts_with "/" path
  && match components path with "nix"%string :: "store"%string :: _ => true | _ => false end.
Definition secure_open (path : string) (directory : bool) : M world string fd :=
  _ ← throw_if (negb (starts_with "/" path)) authority_unavailable;
  root ← map_err err (sys_open_dir "/");
  secure_walk (in_store path) 1 root EmptyString (components path) directory.
Definition bounded_read (file : fd) (limit : Z) : M world string bytes :=
  data ← map_err err (sys_read_take (limit + 1) file);
  _ ← throw_if (limit <? blen data) authority_unavailable;
  mret data.

(** [atomic_json], given what serde_json makes of the value.  An interrupted
    publication leaves its [.pending] file, and later ones are refused. *)
Definition atomic_json (directory name : string) (data : option bytes) (mode : Z) : M world string unit :=
  _ ← throw_if (negb (valid_json_filename name)) authority_unavailable;
  dir ← secure_open directory true;
  let target := below (canonical (components directory)) name in
  let temp := (target ++ ".pending")%string in
  file ← map_err err (sys_create_new temp mode);
  b ← lift (ok_or authority_unavailable data);
  _ ← throw_if (262144 <? blen b) authority_unavailable;
  _ ← map_err err (sys_write file b);
  _ ← map_err err (sys_fchmod file mode);
  _ ← map_err err sys_sync;
  _ ← map_err err (sys_rename temp target);
  map_err err sys_sync.

(** ** Parsers *)

Fixpoint split_once_str (p s : string) : option (string * string) :=
  match strip_prefix p s with
  | Some r => Some (EmptyString, r)
  | None => match s with
            | EmptyString => None
            | String a s => '(x, y) ← split_once_str p s; Some (String a x, y)
            end
  end.
(** [rsplit_once]: at the last occurrence. *)
Fixpoint rsplit_once_str (p s : string) : option (string * string) :=
  match s with
  | EmptyString => match strip_prefix p s with Some r => Some (EmptyString, r) | None => None end
  | String a s' =>
      match rsplit_once_str p s' with
      | Some (x, y) => Some (String a x, y)
      | None => match strip_prefix p s with Some r => Some (EmptyString, r) | None => None end
      end
  end.
(** [str::split_whitespace]. *)
Fixpoint words (cur : list Z) (cs : list Z) : list string :=
  match cs with
  | [] => match cur with [] => [] | _ => [of_chars (rev cur)] end
  | c :: cs => if is_whitespace c
               then match cur with [] => words [] cs | _ => of_chars (rev cur) :: words [] cs end
               else words (c :: cur) cs
  end.
Definition split_whitespace (s : string) : list string := words [] (chars s).
(** [str::lines]: a final line end adds no line, and a CR before the LF is dropped. *)
Definition drop_cr (l : string) : string := default l (strip_suffix (bytes_str [13]) l).
Definition str_lines (s : string) : list string :=
  let ls := split_char (ascii_of 10) s in
  let terminated := removelast ls in
  (drop_cr <$> terminated) ++ (match last ls with Some EmptyString | None => [] | Some l => [l] end).
Definition parse_u32 (s : string) : option Z := ofilter (λ n, n <=? u32_max) (parse_u64 s).

Definition parse_stat (text : string) (expected_pid : Z) : result string Z :=
  pr ← ok_or authority_unavailable (split_once_str " (" text);
  _ ← bail_if (negb (bool_decide (parse_u32 (fst pr) = Some expected_pid))) authority_unavailable;
  fs ← ok_or authority_unavailable (rsplit_once_str ") " (snd pr));
  field ← ok_or authority_unavailable (split_whitespace (snd fs) !! 19%nat);
  start ← ok_or authority_unavailable (parse_u64 field);
  _ ← bail_if (start =? 0) authority_unavailable;
  Ok start.
Definition parse_cgroup (text container : string) : result string string :=
  match str_lines text with
  | [] => Err authority_unavailable
  | line :: rest =>
      path ← ok_or authority_unavailable (strip_prefix "0::" line);
      _ ← bail_if (negb (bool_decide (rest = []))
                   || negb (opt_str_eq (strip_prefix "/system.slice/docker-" path ≫= strip_suffix ".scope") container))
            authority_unavailable;
      Ok path
  end.

(** One line of [docker container inspect]. *)
Definition inspect_line (names : list string) (acc : list string * gmap string (string * Z)) (line : string) :
    result string (list string * gmap string (string * Z)) :=
  match split_char " " line with
  | [name; id; p; state] =>
      name ← ok_or authority_unavailable (strip_prefix "/" name);
      _ ← bail_if (negb (str_in name names) || str_in name (fst acc) || negb (valid_container_id id))
            authority_unavailable;
      p ← ok_or authority_unavailable (parse_u32 p);
      if (state =? "true")%string && (1 <? p) then Ok (name :: fst acc, <[name := (id, p)]> (snd acc))
      else if (state =? "false")%string then Ok (name :: fst acc, snd acc)
      else Err authority_unavailable
  | _ => Err authority_unavailable
  end.
Fixpoint fold_lines {A} (f : A → string → result string A) (acc : A) (ls : list string) : result string A :=
  match ls with
  | [] => Ok acc
  | l :: ls => match f acc l with Ok acc => fold_lines f acc ls | Err e => Err e end
  end.
Definition parse_inspect_all (text : string) (names : list string) : result string (gmap string (string * Z)) :=
  _ ← bail_if (negb (str_is_empty text) && negb (ends_with (bytes_str [10]) text)) authority_unavailable;
  r ← fold_lines (inspect_line names) ([], ∅) (str_lines text);
  Ok (snd r).

(** [text.split("\n\n")]. *)
Fixpoint split_blocks (s : string) : list string :=
  match s with
  | EmptyString => [EmptyString]
  | String a s' =>
      match s' with
      | String b s'' =>
          if (byte_of a =? 10) && (byte_of b =? 10) then EmptyString :: split_blocks s''
          else match split_blocks s' with
               | p :: ps => String a p :: ps
               | [] => [String a EmptyString]
               end
      | EmptyString => [String a EmptyString]
      end
  end.
(** One [key=value] line of a block; each key at most once. *)
Definition unit_line (acc : option string * option string) (line : string) :
    result string (option string * option string) :=
  match split_once "=" line with
  | Some ("Id"%string, v) => if is_some (fst acc) then Err authority_unavailable else Ok (Some v, snd acc)
  | Some ("ActiveState"%string, v) => if is_some (snd acc) then Err authority_unavailable else Ok (fst acc, Some v)
  | _ => Err authority_unavailable
  end.
Definition unit_block (units : list string) (acc : list string * gset string) (block : string) :
    result string (list string * gset string) :=
  r ← fold_lines unit_line (None, None) (str_lines block);
  match r with
  | (Some id, Some state) =>
      _ ← bail_if (negb (str_in id units) || str_in id (fst acc)) authority_unavailable;
      Ok (id :: fst acc, if (state =? "active")%string then {[id]} ∪ snd acc else snd acc)
  | _ => Err authority_unavailable
  end.
Definition parse_active_units (text : string) (units : list string) : result string (gset string) :=
  r ← fold_lines (unit_block units) ([], ∅)
        (List.filter (λ b, negb (str_is_empty (trim b))) (split_blocks text));
  Ok (snd r).

(** ** The observer's host *)

(** What [/proc] shows at one moment: the text of a file on procfs, and the
    device and inode behind a namespace link. *)
Record snapshot : Type := mkSnapshot {
  sn_text : string → option bytes;
  sn_namespace : string → option (Z * Z);
  sn_cgroup2 : bool;             (* the opened group is on cgroup2 *)
}.
Record observer : Type := mkObserver {
  ob_world : world;
  ob_children : list child;
  ob_proc : list snapshot;
  ob_commands : list (string * list string);
}.
Definition on_world {A} (m : M world string A) : M observer string A :=
  zoom ob_world (λ w o, mkObserver w (ob_children o) (ob_proc o) (ob_commands o)) m.
Definition run_bounded (executable : string) (args : list string) (limit : Z) (require_success : bool) :
    M observer string string := λ o,
  let log := (executable, args) :: ob_commands o in
  match ob_children o with
  | [] => (Err authority_unavailable, mkObserver (ob_world o) [] (ob_proc o) log)
  | c :: cs => (bounded_command limit require_success c, mkObserver (ob_world o) cs (ob_proc o) log)
  end.
(** Look at [/proc] once; time passes. *)
Definition look {A} (f : snapshot → option A) : M observer string A := λ o,
  match ob_proc o with
  | [] => (Err authority_unavailable, o)
  | s :: ss => (ok_or authority_unavailable (f s), mkObserver (ob_world o) (ob_children o) ss (ob_commands o))
  end.
Definition proc_text (path : string) : M observer string string :=
  b ← look (λ s, sn_text s path);
  _ ← throw_if (8192 <? blen b) authority_unavailable;
  lift (ok_or authority_unavailable (from_utf8 b)).

Definition output_limit (bindings : Z) : Z := BYTES_PER_BINDING * Z.max bindings 1.
Definition inspect_all (p : Policy) : M observer string (gmap string (string * Z)) :=
  let names := agent_id <$> po_bindings p in
  output ← run_bounded (po_docker p)
             (["--host=unix:///run/docker.sock"%string; "container"%string; "inspect"%string; "--format"%string;
               "{{.Name}} {{.Id}} {{.State.Pid}} {{.State.Running}}"%string; "--"%string] ++ names)
             (output_limit (blen names)) false;
  lift (parse_inspect_all output names).
Definition active_units (p : Policy) : M observer string (gset string) :=
  let units := unit_name <$> po_bindings p in
  output ← run_bounded (po_systemctl p) (["show"%string; "--property=Id,ActiveState"%string; "--"%string] ++ units)
             (output_limit (blen units)) true;
  lift (parse_active_units output units).

Definition proc_path (p : Z) (name : string) : string := ("/proc/" ++ pretty (Z.to_N p) ++ "/" ++ name)%string.
Fixpoint boot_id_bytes (i : Z) (l : bytes) : bool :=
  match l with
  | [] => true
  | b :: l =>
      (if existsb (Z.eqb i) [8; 13; 18; 23] then b =? 45 else is_ascii_digit b || in_range 97 102 b)
      && boot_id_bytes (i + 1) l
  end.
Definition kernel_identity (container : string) (p : Z) : M observer string Identity :=
  target_namespace ← look (λ s, sn_namespace s (proc_path p "ns/user"));
  initial_namespace ← look (λ s, sn_namespace s "/proc/1/ns/user");
  _ ← throw_if (negb (bool_decide (target_namespace = initial_namespace))) authority_unavailable;
  uid_map ← proc_text (proc_path p "uid_map");
  _ ← throw_if (negb (bool_decide (split_whitespace uid_map = ["0"%string; "0"%string; "4294967295"%string])))
        authority_unavailable;
  stat ← proc_text (proc_path p "stat");
  ticks ← lift (parse_stat stat p);
  groups ← proc_text (proc_path p "cgroup");
  group ← lift (parse_cgroup groups container);
  dir ← on_world (secure_open ("/sys/fs/cgroup" ++ group) true);
  _ ← look (λ s, if sn_cgroup2 s then Some tt else None);
  boot ← proc_text "/proc/sys/kernel/random/boot_id";
  let boot := trim boot in
  _ ← throw_if (negb (str_len boot =? 36) || negb (boot_id_bytes 0 (str_bytes boot))) authority_unavailable;
  stat ← proc_text (proc_path p "stat");
  ticks' ← lift (parse_stat stat p);
  _ ← throw_if (negb (ticks' =? ticks)) authority_unavailable;
  groups ← proc_text (proc_path p "cgroup");
  group' ← lift (parse_cgroup groups container);
  _ ← throw_if (negb (group' =? group)%string) authority_unavailable;
  mret (mkIdentity boot container p ticks group (fd_ino dir)).
(** [.ok()]: a failure makes the binding unavailable. *)
Definition or_none {A} (m : M observer string A) : M observer string (option A) :=
  r ← attempt m; mret (match r with Ok a => Some a | Err _ => None end).

(** ** Observation *)

Definition first_look (containers : gmap string (string * Z)) (active : gset string) (b : Binding) :
    M observer string (option Identity) :=
  match containers !! agent_id b with
  | Some (id, p) => if bool_decide (unit_name b ∈ active) then or_none (kernel_identity id p) else mret None
  | None => mret None
  end.
Definition second_look (containers : gmap string (string * Z)) (active : gset string) (b : Binding)
    (first : option Identity) : M observer string (option Identity) :=
  match first with
  | None => mret None
  | Some identity =>
      if bool_decide (unit_name b ∈ active)
         && bool_decide (containers !! agent_id b = Some (container_id identity, pid identity))
      then again ← or_none (kernel_identity (container_id identity) (pid identity));
           mret (if bool_decide (again = Some identity) then Some identity else None)
      else mret None
  end.
Fixpoint first_looks containers active (l : list Binding) : M observer string (list (option Identity)) :=
  match l with
  | [] => mret []
  | b :: l => x ← first_look containers active b; xs ← first_looks containers active l; mret (x :: xs)
  end.
Fixpoint second_looks containers active (l : list (Binding * option Identity)) :
    M observer string (list (option Identity)) :=
  match l with
  | [] => mret []
  | (b, i) :: l => x ← second_look containers active b i; xs ← second_looks containers active l; mret (x :: xs)
  end.
Definition observe_batch (p : Policy) : M observer string (list (option Identity)) :=
  if bool_decide (po_bindings p = []) then mret []
  else
    active ← active_units p;
    containers ← inspect_all p;
    first ← first_looks containers active (po_bindings p);
    containers ← inspect_all p;
    active ← active_units p;
    second_looks containers active (zip (po_bindings p) first).
Definition observe_all (p : Policy) : M observer string (list (option Identity)) :=
  r ← attempt (observe_batch p);
  mret (match r with Ok l => l | Err _ => replicate (length (po_bindings p)) None end).

(** ** Generations *)

Record Entry : Type := mkEntry { en_fingerprint : string; en_generation : Z }.
Record Authority : Type := mkAuthority {
  au_version : Z; au_counter : Z; au_entries : gmap string Entry }.
Definition Authority_empty : Authority := mkAuthority 1 0 ∅.
Definition entry_bad (counter : Z) (id : string) (e : Entry) : bool :=
  negb (valid_id id) || (en_generation e =? 0) || (counter <? en_generation e)
  || (8192 <? str_len (en_fingerprint e)).
Definition Authority_validate (a : Authority) : result string unit :=
  bail_if (negb (au_version a =? 1) || (MAX_GENERATION <? au_counter a)
           || (MAX_BINDINGS <? Z.of_nat (size (au_entries a)))
           || existsb (λ '(id, e), entry_bad (au_counter a) id e) (map_to_list (au_entries a)))
    authority_unavailable.

(** What serde derives for this crate. *)
Class WorkloadCodec : Type := {
  policy_from_slice : bytes → option Policy;
  authority_to_vec : Authority → option bytes;
  authority_from_slice : bytes → option Authority;
  manifest_to_vec : Manifest → option bytes;
  fingerprint_of : Binding → option Identity → option string;  (* [to_string(&(binding, identity))] *)
}.

Section registry.
Context `{WorkloadCodec}.

Definition assign (b : Binding) (identity : option Identity) : M Authority string Z :=
  fingerprint ← lift (ok_or authority_unavailable (fingerprint_of b identity));
  a ← get;
  let allocate :=
    _ ← throw_if (MAX_GENERATION <=? au_counter a) authority_unavailable;
    let counter := au_counter a + 1 in
    _ ← modify (λ a, mkAuthority (au_version a) counter
                       (<[agent_id b := mkEntry fingerprint counter]> (au_entries a)));
    mret counter in
  match au_entries a !! agent_id b with
  | Some entry => if (en_fingerprint entry =? fingerprint)%string then mret (en_generation entry) else allocate
  | None => allocate
  end.

(** ** Policy *)

Definition executable_ok (path : string) : M world string unit :=
  _ ← throw_if (negb (starts_with "/nix/store/" path)) authority_unavailable;
  file ← secure_open path false;
  m ← map_err err (sys_fstat file);
  throw_if (negb (bool_decide (i_kind m = Regular))) authority_unavailable.
Fixpoint bindings_ok (agents : list string) (scopes : list (string * string)) (l : list Binding) : bool :=
  match l with
  | [] => true
  | b :: l =>
      valid_id (agent_id b) && valid_id (tenant_id b) && valid_id (workload_id b) && valid_id (policy_revision b)
      && starts_with "agent-" (agent_id b)
      && (unit_name b =? "docker-" ++ agent_id b ++ ".service")%string
      && negb (str_in (agent_id b) agents)
      && negb (bool_decide ((tenant_id b, workload_id b) ∈ scopes))
      && bindings_ok (agent_id b :: agents) ((tenant_id b, workload_id b) :: scopes) l
  end.
Definition validate_policy (p : Policy) : M world string unit :=
  _ ← throw_if (negb (po_version p =? 1) || (MAX_BINDINGS <? blen (po_bindings p))) authority_unavailable;
  _ ← executable_ok (po_docker p);
  _ ← executable_ok (po_systemctl p);
  throw_if (negb (bindings_ok [] [] (po_bindings p))) authority_unavailable.
Definition load_policy : M world string Policy :=
  path ← map_err err (sys_canonicalize "/etc/tentaflake-workloads.json");
  _ ← throw_if (negb (in_store path)) authority_unavailable;
  f ← secure_open path false;
  b ← bounded_read f 65536;
  p ← lift (ok_or authority_unavailable (policy_from_slice b));
  docker ← map_err err (sys_canonicalize (po_docker p));
  systemctl ← map_err err (sys_canonicalize (po_systemctl p));
  let p := mkPolicy (po_version p) docker systemctl (po_bindings p) in
  _ ← validate_policy p;
  mret p.

(** ** The service *)

(** Both directories and the writer lock. *)
Definition take_ownership : M world string unit :=
  euid ← gets w_euid;
  _ ← throw_if (negb (euid =? 0)) authority_unavailable;
  dir ← secure_open STATE true;
  m ← map_err err (sys_fstat dir);
  _ ← throw_if (negb (mode_and (i_mode m) 63 =? 0)) authority_unavailable;
  dir ← secure_open RUNTIME true;
  m ← map_err err (sys_fstat dir);
  _ ← throw_if (negb (mode_and (i_mode m) 511 =? 493 (* 0o755 *))) authority_unavailable;
  f ← map_err err (sys_open_create (below STATE "lock") 384);
  m ← map_err err (sys_fstat f);
  _ ← throw_if (negb (i_uid m =? 0) || negb (bool_decide (i_kind m = Regular))
                || negb (mode_and (i_mode m) 63 =? 0)) authority_unavailable;
  map_err err (sys_flock f true).

Definition AUTHORITY : string := "authority.json".
Definition save_authority (a : Authority) : M world string unit :=
  atomic_json STATE AUTHORITY (authority_to_vec a) 384.
(** [--initialize]: only where there is no authority yet. *)
Definition initialize : M world string unit :=
  _ ← take_ownership;
  r ← attempt (sys_symlink_metadata (below STATE AUTHORITY));
  match r with
  | Err NotFound => save_authority Authority_empty
  | _ => bad
  end.

Definition read_authority : M world string Authority :=
  f ← secure_open (below STATE AUTHORITY) false;
  m ← map_err err (sys_fstat f);
  _ ← throw_if (negb (mode_and (i_mode m) 63 =? 0)) authority_unavailable;
  b ← bounded_read f 262144;
  a ← lift (ok_or authority_unavailable (authority_from_slice b));
  _ ← lift (Authority_validate a);
  mret a.
(** Revoke the manifests of agents the policy no longer has. *)
Definition retired (p : Policy) (a : Authority) : list string :=
  List.filter (λ id, negb (str_in id (agent_id <$> po_bindings p))) (fst <$> map_to_list (au_entries a)).
Fixpoint retire (ids : list string) (a : Authority) : M world string Authority :=
  match ids with
  | [] => mret a
  | id :: ids =>
      r ← attempt (sys_remove (below RUNTIME (id ++ ".json")));
      _ ← match r with Ok _ | Err NotFound => mret tt | Err _ => bad end;
      _ ← map_err err sys_sync;
      retire ids (mkAuthority (au_version a) (au_counter a) (delete id (au_entries a)))
  end.
(** From the start of [run] to its loop. *)
Definition start : M world string (Policy * Authority) :=
  _ ← take_ownership;
  p ← load_policy;
  a ← read_authority;
  a ← retire (retired p a) a;
  _ ← save_authority a;
  mret (p, a).

(** The loop's state: the host, the authority in memory, and the manifests that
    were handed to publication, latest first. *)
Record registry : Type := mkRegistry {
  rg_host : observer; rg_authority : Authority; rg_published : list Manifest }.
Definition set_rg_host (o : observer) (g : registry) : registry := mkRegistry o (rg_authority g) (rg_published g).
Definition on_observer {A} (m : M observer string A) : M registry string A := zoom rg_host set_rg_host m.
Definition on_authority {A} (m : M Authority string A) : M registry string A :=
  zoom rg_authority (λ a g, mkRegistry (rg_host g) a (rg_published g)) m.

(** One binding of a cycle: the allocation is persisted before it is exposed. *)
Definition publish (observed : Z) (b : Binding) (identity : option Identity) : M registry string unit :=
  previous_counter ← gets (au_counter ∘ rg_authority);
  generation ← on_authority (assign b identity);
  a ← gets rg_authority;
  _ ← (if negb (au_counter a =? previous_counter) then on_observer (on_world (save_authority a)) else mret tt);
  let manifest := Manifest_new b generation observed identity in
  _ ← modify (λ g, mkRegistry (rg_host g) (rg_authority g) (manifest :: rg_published g));
  on_observer (on_world (atomic_json RUNTIME (agent_id b ++ ".json") (manifest_to_vec manifest) 292 (* 0o444 *))).
Fixpoint publish_all (observed : Z) (l : list (Binding * option Identity)) : M registry string unit :=
  match l with
  | [] => mret tt
  | (b, i) :: l => _ ← publish observed b i; publish_all observed l
  end.
(** The clock in milliseconds; a reading that does not fit [u64] is an error. *)
Definition unix_millis : M world string Z :=
  t ← unix_seconds;
  _ ← throw_if (negb (in_range 0 u64_max t)) authority_unavailable;
  mret t.
(** One iteration of the loop. *)
Definition cycle (p : Policy) : M registry string unit :=
  identities ← on_observer (observe_all p);
  observed ← on_observer (on_world unix_millis);
  publish_all observed (zip (po_bindings p) identities).
End registry.
