(* ===== verification/Observation.v ===== *)
(** * The workload registry: what an observation rests on

    Opening and publishing files by descriptor walk, and what has been checked
    when an observation reports an identity. *)

From S2P Require Import Prelude RustStr Json Posix Budget PrivateStore Process Workloads.

(** ** Opening and publishing files *)

Lemma secure_walk_reader store parts directory : ∀ depth prefix file,
  reader (secure_walk store depth file prefix parts directory) (λ w f,
    if bool_decide (parts = []) then f = file
    else ∃ n, lookup_inode w (foldl below prefix parts) = Some (fd_ino f, n)).
Proof.
  induction parts as [|part rest IH]; intros depth prefix file w; cbn [secure_walk]; [by wp_step|].
  wp_step. wp_step; [done|]. wp_step. wp_step; [done|]. wp_step. wp_step.
  assert (reader (if negb (bool_decide (rest = [])) || directory then sys_open_dir (below prefix part)
                  else sys_open_read (below prefix part)) (λ w f,
    ∃ n, lookup_inode w (below prefix part) = Some (fd_ino f, n))) as Hopen.
  { destruct (negb _ || directory).
    - eapply reader_mono; [apply reader_open_dir|]. intros w' f (n & ? & _). by exists n.
    - eapply reader_mono; [apply reader_open_read|]. intros w' f (n & ? & _). by exists n. }
  wp_reader (Hopen w) as f w1 S1 (n & Hn); [|done].
  wp_step. wp_step. wp_reader (reader_fstat f) as m w2 S2 _; [|by etrans].
  wp_step. wp_step; [by etrans|]. assert (same_fs w w2) as S12 by (by etrans).
  wp_apply (IH (depth + 1) (below prefix part) f); [|intros e w3 S3; by etrans].
  intros f' w3 [S3 Hf]. split; [by etrans|]. case_bool_decide as Hr; [subst; by exists n|].
  destruct Hf as (n' & Hn'). exists n'. by rewrite <-(lookup_inode_same w w2) by done.
Qed.
Lemma secure_open_reader path directory : reader (secure_open path directory) (λ w f,
  components path ≠ [] → ∃ n, lookup_inode w (canonical (components path)) = Some (fd_ino f, n)).
Proof.
  intros w. unfold secure_open. wp_step. wp_step; [done|]. wp_step. wp_step.
  wp_reader (reader_open_dir "/") as root w1 S1 _; [|done].
  wp_apply (secure_walk_reader (in_store path) (components path) directory 1 EmptyString root);
    [|intros e w2 S2; by etrans].
  intros f w2 [S2 Hf]. split; [by etrans|]. intros Hne. rewrite bool_decide_false in Hf by done.
  destruct Hf as (n & Hn). exists n. unfold canonical. by rewrite <-(lookup_inode_same w w1) by done.
Qed.
Lemma bounded_read_reader f limit : reader (bounded_read f limit) (λ w d,
  blen d ≤ limit ∧ ∃ n, w_inodes w !! fd_ino f = Some n ∧ d = take (Z.to_nat (limit + 1)) (i_data n)).
Proof.
  intros w. unfold bounded_read. wp_step. wp_step.
  wp_reader (reader_read_take (limit + 1) f) as d w1 S1 Hd; [|done].
  wp_step. wp_step; [done|]. wp_step. split; [done|]. reflect. by split.
Qed.

(** The names [atomic_json] works on. *)
Definition json_target (directory name : string) : string := below (canonical (components directory)) name.
Definition apart (t : string) (w w' : world) : Prop := ∀ q, q ≠ t → q ≠ (t ++ ".pending")%string → keeps q w w'.
Lemma target_ne (t : string) : (t ++ ".pending")%string ≠ t.
Proof. by apply append_ne. Qed.

Lemma wp_fchmod_pending m t f d w : pending m t (fd_ino f) d w →
  wp (sys_fchmod f m) (λ _ w', pending m t (fd_ino f) d w' ∧ ∀ q, q ≠ t → keeps q w w')
    (λ _ w', same_fs w w') w.
Proof.
  intros P. apply wp_simple; intros fs; [apply same_fs_faults|]. apply run_wp. simpl. split.
  - destruct P as [W N I L]. split; try done. simpl. by rewrite lookup_alter_eq, I.
  - intros q Hq. eapply keeps_trans; [apply same_fs_keeps, (same_fs_faults fs); apply P|].
    apply (keeps_inode q t); [apply P|done|apply P].
Qed.

Lemma atomic_json_spec dir name data mode w :
  wf w → let t := json_target dir name in
  wp (atomic_json dir name data mode)
    (λ _ w', wf w' ∧ apart t w w' ∧ ∃ b, data = Some b ∧ placed mode w' t b)
    (λ _ w', wf w' ∧ apart t w w' ∧ (keeps t w w' ∨ ∃ b, data = Some b ∧ placed mode w' t b)) w.
Proof.
  intros Hw t. unfold atomic_json. fold (json_target dir name). fold t. set (tmp := (t ++ ".pending")%string).
  pose proof (target_ne t) as Hne. fold tmp in Hne.
  assert (∀ w', wf w' → (∀ q, q ≠ tmp → keeps q w w') →
    wf w' ∧ apart t w w' ∧ (keeps t w w' ∨ ∃ b, data = Some b ∧ placed mode w' t b)) as Hold.
  { intros w' Hw' K. split_and!; [done|by intros q _ Hq; apply K|left; by apply K, not_eq_sym]. }
  assert (∀ w', same_fs w w' → ∀ q, q ≠ tmp → keeps q w w') as Hsame by (intros; by apply same_fs_keeps).
  wp_step. wp_step; [apply Hold; [done|by apply Hsame]|]. wp_step.
  wp_reader (secure_open_reader dir true) as f0 w0 S0 _; [|apply Hold; [by rewrite <-S0|by apply Hsame]].
  assert (wf w0) as Hw0 by (by rewrite <-S0).
  wp_step. wp_step. wp_apply (wp_create_pending tmp mode w0 Hw0).
  2: { intros e w1 S1. apply Hold; [by rewrite <-S1|apply Hsame; by etrans]. }
  intros f w1 [P1 K1]. assert (∀ q, q ≠ tmp → keeps q w w1) as K01.
  { intros q Hq. eapply keeps_trans; [by apply Hsame|by apply K1]. }
  wp_try as b Hdata; [|apply Hold; [apply P1|done]]. apply ok_or_Ok in Hdata.
  wp_step. wp_step; [apply Hold; [apply P1|done]|]. wp_step. wp_step.
  wp_apply (wp_write_pending _ _ f b w1 P1).
  2: { intros e w2 K2. apply Hold; [apply (kp_wf _ _ _ (K2 t (not_eq_sym Hne)))|].
       intros q Hq. eapply keeps_trans; [by apply K01|by apply K2]. }
  intros u2 w2 [P2 K2]. wp_step. wp_step. wp_apply (wp_fchmod_pending _ _ f b w2 P2).
  2: { intros e w3 S3. apply Hold; [rewrite <-S3; apply P2|]. intros q Hq.
       eapply keeps_same; [|exact S3]. eapply keeps_trans; [by apply K01|by apply K2]. }
  intros u3 w3 [P3 K3]. assert (∀ q, q ≠ tmp → keeps q w w3) as K03.
  { intros q Hq. eapply keeps_trans; [by apply K01|]. eapply keeps_trans; [by apply K2|by apply K3]. }
  wp_step. wp_step. wp_reader reader_sync as u4 w4 S4 _.
  2: { apply Hold; [rewrite <-S4; apply P3|]. intros q Hq. eapply keeps_same; [by apply K03|done]. }
  wp_step. wp_step. wp_apply (wp_rename_pending mode tmp t (fd_ino f) b w4);
    [by eapply pending_same|done| |].
  2: { intros e w5 S5. apply Hold; [rewrite <-S5, <-S4; apply P3|]. intros q Hq.
       eapply keeps_same; [by apply K03|by etrans]. }
  intros u5 w5 (Hw5 & O5 & K5). assert (apart t w w5) as K05.
  { intros q Hq Hp. eapply keeps_trans; [by eapply keeps_same; [apply K03|]|by apply K5]. }
  wp_step. wp_reader reader_sync as u6 w6 S6 _.
  - split_and!; [by rewrite <-S6|intros q Hq Hp; eapply keeps_same; [by apply K05|done]|].
    exists b. split; [done|]. eapply placed_keeps; [|exact O5]. by apply same_fs_keeps.
  - split_and!; [by rewrite <-S6|intros q Hq Hp; eapply keeps_same; [by apply K05|done]|].
    right. exists b. split; [done|]. eapply placed_keeps; [|exact O5]. by apply same_fs_keeps.
Qed.

(** ** Observations *)

(** Looking at [/proc] and opening directories: no command, no change. *)
Record peeks (o o' : observer) : Prop := {
  pk_children : ob_children o' = ob_children o;
  pk_commands : ob_commands o' = ob_commands o;
  pk_world : same_fs (ob_world o) (ob_world o');
}.
Lemma peeks_refl o : peeks o o.
Proof. by split. Qed.
Lemma peeks_trans a b c : peeks a b → peeks b c → peeks a c.
Proof. intros [] []. split; [congruence..|by etrans]. Qed.
#[local] Instance peeks_preorder : PreOrder peeks.
Proof. split; [intros ?; apply peeks_refl|intros ? ? ?; apply peeks_trans]. Qed.

Lemma look_spec {A} (f : snapshot → option A) o :
  wp (look f) (λ _ o', peeks o o') (λ _ o', peeks o o') o.
Proof.
  unfold wp, look. destruct (ob_proc o) as [|s ss]; [done|]. by destruct (f s).
Qed.
Lemma proc_text_spec path o : wp (proc_text path) (λ _ o', peeks o o') (λ _ o', peeks o o') o.
Proof.
  unfold proc_text. wp_step. wp_apply (look_spec _ o); [|done]. intros b o1 K1.
  wp_check as Hb; [done|]. by wp_step.
Qed.

(** Close [peeks o o'] after one more look. *)
Ltac peek := intros; cbn beta in *; by etrans.

(** What an identity says of itself. *)
Record identity_ok (i : Identity) : Prop := {
  io_boot : str_len (kernel_boot_id i) = 36;
  io_cgroup : cgroup i = ("/system.slice/docker-" ++ (container_id i ++ ".scope"))%string;
  io_ticks : 0 < start_ticks i;
}.
Lemma parse_cgroup_Ok text c g : parse_cgroup text c = Ok g →
  g = ("/system.slice/docker-" ++ (c ++ ".scope"))%string.
Proof.
  unfold parse_cgroup. destruct (str_lines text) as [|line rest]; [done|]. intros Hp. inv_ok. simplify_eq.
  apply orb_false_iff in H0 as [_ Hs]. apply negb_false_iff, opt_str_eq_Some in Hs.
  apply bind_Some in Hs as (x & ->%strip_prefix_Some & ->%strip_suffix_Some). done.
Qed.
Lemma parse_stat_Ok text p t : parse_stat text p = Ok t → 0 < t.
Proof.
  unfold parse_stat. intros Hp. inv_ok. simplify_eq.
  match goal with X : parse_u64 _ = Some _ |- _ => apply parse_u64_bound in X; unfold u64 in X end.
  reflect. lia.
Qed.

(** One kernel check of a container: a script step that ends well describes it. *)
Lemma kernel_identity_spec c p o :
  wp (kernel_identity c p)
    (λ i o', peeks o o' ∧ container_id i = c ∧ pid i = p ∧ identity_ok i) (λ _ o', peeks o o') o.
Proof.
  unfold kernel_identity.
  wp_step. wp_apply (look_spec _ o); [|done]. intros ns1 o1 K1.
  wp_step. wp_apply (look_spec _ o1); [|peek]. intros ns2 o2 K2'. assert (peeks o o2) as K2 by peek.
  wp_check as Hns; [done|]. wp_step. wp_apply (proc_text_spec _ o2); [|peek].
  intros um o3 K3'. assert (peeks o o3) as K3 by peek. wp_check as Hum; [done|].
  wp_step. wp_apply (proc_text_spec _ o3); [|peek].
  intros stat o4 K4'. assert (peeks o o4) as K4 by peek. wp_try as ticks Ht; [|done].
  wp_step. wp_apply (proc_text_spec _ o4); [|peek].
  intros groups o5 K5'. assert (peeks o o5) as K5 by peek. wp_try as group Hg; [|done].
  wp_step. unfold on_world at 1. wp_step.
  wp_reader (secure_open_reader ("/sys/fs/cgroup" ++ group) true) as dir w6 S6 _.
  2: { transitivity o5; [done|]. by split. }
  set (o6 := mkObserver w6 _ _ _). assert (peeks o o6) as K6 by (transitivity o5; [done|by split]).
  wp_step. wp_apply (look_spec _ o6); [|peek].
  intros u o7 K7'. assert (peeks o o7) as K7 by peek.
  wp_step. wp_apply (proc_text_spec _ o7); [|peek].
  intros boot o8 K8'. assert (peeks o o8) as K8 by peek. wp_check as Hboot; [done|].
  wp_step. wp_apply (proc_text_spec _ o8); [|peek].
  intros stat2 o9 K9'. assert (peeks o o9) as K9 by peek. wp_try as ticks2 Ht2; [|done].
  wp_check as Hticks; [done|].
  wp_step. wp_apply (proc_text_spec _ o9); [|peek].
  intros groups2 o10 K10'. assert (peeks o o10) as K10 by peek. wp_try as group2 Hg2; [|done].
  wp_check as Hgr; [done|]. wp_step. split_and!; try done.
  apply orb_false_iff in Hboot as [Hboot _]. apply negb_false_iff, Z.eqb_eq in Hboot.
  split; [done|by eapply parse_cgroup_Ok|by eapply parse_stat_Ok].
Qed.

(** What a child reported. *)
Definition reports_active (p : Policy) (c : child) (active : gset string) : Prop :=
  ∃ t, bounded_command (output_limit (blen (unit_name <$> po_bindings p))) true c = Ok t
       ∧ parse_active_units t (unit_name <$> po_bindings p) = Ok active.
Definition reports_running (p : Policy) (c : child) (running : gmap string (string * Z)) : Prop :=
  ∃ t, bounded_command (output_limit (blen (agent_id <$> po_bindings p))) false c = Ok t
       ∧ parse_inspect_all t (agent_id <$> po_bindings p) = Ok running.

(** One command: the next child, and one entry of the log. *)
Record commanded (o o' : observer) (rest : list child) : Prop := {
  cm_children : ob_children o' = rest;
  cm_commands : length (ob_commands o') = S (length (ob_commands o));
  cm_world : same_fs (ob_world o) (ob_world o');
}.
Lemma active_units_spec p o :
  wp (active_units p) (λ a o', ∃ c, ob_children o = c :: ob_children o' ∧ reports_active p c a
                                    ∧ commanded o o' (ob_children o'))
    (λ _ o', commanded o o' (ob_children o')) o.
Proof.
  unfold active_units. wp_step. unfold wp at 1, run_bounded.
  destruct (ob_children o) as [|c cs] eqn:E; [by split|]. destruct (bounded_command _ _ c) as [t|] eqn:Hc; [|by split].
  wp_step; [|by split]. exists c. split_and!; [done| |by split]. by exists t.
Qed.
Lemma inspect_all_spec p o :
  wp (inspect_all p) (λ m o', ∃ c, ob_children o = c :: ob_children o' ∧ reports_running p c m
                                   ∧ commanded o o' (ob_children o'))
    (λ _ o', commanded o o' (ob_children o')) o.
Proof.
  unfold inspect_all. wp_step. unfold wp at 1, run_bounded.
  destruct (ob_children o) as [|c cs] eqn:E; [by split|]. destruct (bounded_command _ _ c) as [t|] eqn:Hc; [|by split].
  wp_step; [|by split]. exists c. split_and!; [done| |by split]. by exists t.
Qed.

(** A kernel check of the container of [i] that found [i], while [children] are
    still to run. *)
Definition verified (children : list child) (i : Identity) : Prop :=
  ∃ o o', ob_children o = children ∧ kernel_identity (container_id i) (pid i) o = (Ok i, o').
Lemma or_none_identity c p o :
  wp (or_none (kernel_identity c p)) (λ x o', peeks o o' ∧ ∀ i, x = Some i →
      container_id i = c ∧ pid i = p ∧ identity_ok i ∧ verified (ob_children o) i) (λ _ _, False) o.
Proof.
  unfold or_none. wp_step. wp_step. pose proof (kernel_identity_spec c p o) as Hk. unfold wp in *.
  destruct (kernel_identity c p o) as [[i|x] o'] eqn:E; simpl.
  - destruct Hk as (K & <- & <- & Hi). split; [done|]. intros ? [= <-]. split_and!; try done. by exists o, o'.
  - split; [done|]. by intros ? [=].
Qed.

Definition seen (running : gmap string (string * Z)) (active : gset string) (b : Binding) (i : Identity) : Prop :=
  running !! agent_id b = Some (container_id i, pid i) ∧ unit_name b ∈ active.
Lemma first_look_spec running active b o :
  wp (first_look running active b) (λ x o', peeks o o' ∧ ∀ i, x = Some i →
      seen running active b i ∧ identity_ok i ∧ verified (ob_children o) i) (λ _ _, False) o.
Proof.
  unfold first_look. destruct (running !! agent_id b) as [[id p]|] eqn:E; [|wp_step; by split].
  case_bool_decide; [|wp_step; by split]. wp_apply (or_none_identity id p o); [|done].
  intros x o' [K Hx]. split; [done|]. intros i (<- & <- & ? & ?)%Hx. by split_and!.
Qed.
Lemma second_look_spec running active b first o :
  wp (second_look running active b first) (λ x o', peeks o o' ∧ ∀ i, x = Some i →
      first = Some i ∧ seen running active b i ∧ verified (ob_children o) i) (λ _ _, False) o.
Proof.
  unfold second_look. destruct first as [i|]; [|wp_step; by split].
  destruct (_ && _) eqn:E; [|wp_step; by split]. apply andb_true_iff in E as [E1 E2]. reflect. wp_step.
  wp_apply (or_none_identity (container_id i) (pid i) o); [|done]. intros x o' [K Hx]. wp_step. split; [done|].
  intros i'. case_bool_decide as E; [|done]. intros [= <-]. destruct (Hx i E) as (_ & _ & _ & ?). by split_and!.
Qed.
Lemma first_looks_spec running active l : ∀ o,
  wp (first_looks running active l) (λ xs o', peeks o o' ∧ Forall2 (λ b x, ∀ i, x = Some i →
      seen running active b i ∧ identity_ok i ∧ verified (ob_children o) i) l xs) (λ _ _, False) o.
Proof.
  induction l as [|b l IH]; intros o; cbn [first_looks]; [wp_step; by split|].
  wp_step. wp_apply (first_look_spec running active b o); [|done]. intros x o1 [K1 Hx].
  wp_step. wp_apply (IH o1); [|done]. intros xs o2 [K2 Hxs]. wp_step. split; [by etrans|].
  constructor; [done|]. by rewrite (pk_children _ _ K1) in Hxs.
Qed.
Lemma second_looks_spec running active l : ∀ o,
  wp (second_looks running active l) (λ xs o', peeks o o' ∧ Forall2 (λ bf x, ∀ i, x = Some i →
      snd bf = Some i ∧ seen running active (fst bf) i ∧ verified (ob_children o) i) l xs) (λ _ _, False) o.
Proof.
  induction l as [|[b f] l IH]; intros o; cbn [second_looks]; [wp_step; by split|].
  wp_step. wp_apply (second_look_spec running active b f o); [|done]. intros x o1 [K1 Hx].
  wp_step. wp_apply (IH o1); [|done]. intros xs o2 [K2 Hxs]. wp_step. split; [by etrans|].
  constructor; [done|]. by rewrite (pk_children _ _ K1) in Hxs.
Qed.

(** An identity that two rounds of observation agree on. *)
Definition confirmed (p : Policy) (children : list child) (b : Binding) (i : Identity) : Prop :=
  identity_ok i ∧
  ∃ c1 c2 c3 c4 rest a1 m1 m2 a2, children = c1 :: c2 :: c3 :: c4 :: rest
    ∧ reports_active p c1 a1 ∧ reports_running p c2 m1 ∧ seen m1 a1 b i ∧ verified (c3 :: c4 :: rest) i
    ∧ reports_running p c3 m2 ∧ reports_active p c4 a2 ∧ seen m2 a2 b i ∧ verified rest i.

Definition observed (o o' : observer) : Prop :=
  (length (ob_commands o') ≤ length (ob_commands o) + 4)%nat ∧ same_fs (ob_world o) (ob_world o').
Lemma observe_batch_spec p o :
  wp (observe_batch p) (λ xs o', observed o o' ∧
      Forall2 (λ b x, ∀ i, x = Some i → confirmed p (ob_children o) b i) (po_bindings p) xs)
    (λ _ o', observed o o') o.
Proof.
  unfold observe_batch. case_bool_decide as Hnil.
  { wp_step. rewrite Hnil. split; [split; [lia|done]|constructor]. }
  wp_step. wp_apply (active_units_spec p o).
  2: { intros e o1 [_ L1 S1]. split; [lia|done]. }
  intros a1 o1 (c1 & E1 & R1 & [_ L1 S1]). wp_step. wp_apply (inspect_all_spec p o1).
  2: { intros e o2 [_ L2 S2]. split; [lia|by etrans]. }
  intros m1 o2 (c2 & E2 & R2 & [_ L2 S2]). wp_step.
  wp_apply (first_looks_spec m1 a1 (po_bindings p) o2); [|done].
  intros first o3 [[E3 L3 S3] F3]. rewrite <-(f_equal length L3) in L2 by done.
  wp_step. wp_apply (inspect_all_spec p o3).
  2: { intros e o4 [_ L4 S4]. split; [rewrite L3 in *; lia|by chain]. }
  intros m2 o4 (c3 & E4 & R3 & [_ L4 S4]). wp_step. wp_apply (active_units_spec p o4).
  2: { intros e o5 [_ L5 S5]. split; [rewrite L3 in *; lia|by chain]. }
  intros a2 o5 (c4 & E5 & R4 & [_ L5 S5]).
  wp_apply (second_looks_spec m2 a2 (zip (po_bindings p) first) o5); [|done].
  intros xs o6 [[E6 L6 S6] F6]. split.
  { split; [rewrite L6, L3 in *; lia|]. transitivity (ob_world o5); [by chain|done]. }
  assert (length first = length (po_bindings p)) as Hlen by (symmetry; by eapply Forall2_length).
  apply Forall2_same_length_lookup. split.
  { apply Forall2_length in F6. rewrite length_zip_with in F6. lia. }
  intros k b x Hb Hx i ->. destruct (lookup_lt_is_Some_2 first k) as [f Hf].
  { apply lookup_lt_Some in Hb. lia. }
  pose proof (Forall2_lookup_lr _ _ _ k b f F3 Hb Hf) as H3.
  assert (zip (po_bindings p) first !! k = Some (b, f)) as Hz by (apply lookup_zip_Some; done).
  pose proof (Forall2_lookup_lr _ _ _ k _ _ F6 Hz Hx i eq_refl) as (Hsf & Hs2 & Hv2). simpl in Hsf, Hs2.
  destruct (H3 i Hsf) as (Hs1 & Hio & Hv1). split; [done|].
  exists c1, c2, c3, c4, (ob_children o5), a1, m1, m2, a2. rewrite <-E5, <-E4.
  split_and!; try done.
  - by rewrite E1, E2, E3.
  - by rewrite E3.
Qed.

Lemma observe_all_spec p o :
  wp (observe_all p) (λ xs o', observed o o' ∧
      Forall2 (λ b x, ∀ i, x = Some i → confirmed p (ob_children o) b i) (po_bindings p) xs) (λ _ _, False) o.
Proof.
  unfold observe_all. wp_step. apply wp_attempt. wp_apply (observe_batch_spec p o).
  - intros xs o' H. by wp_step.
  - intros e o' H. wp_step. split; [done|]. apply Forall2_same_length_lookup. split; [by rewrite length_replicate|].
    intros k b x _ [-> _]%lookup_replicate i [=].
Qed.


(** However many bindings the policy has and whatever the processes
    do, an observation runs at most four commands, changes no file, and reports
    one result for every binding. *)
Theorem observation_is_bounded p o r o' : observe_all p o = (r, o') →
  (∃ ids, r = Ok ids ∧ length ids = length (po_bindings p))
  ∧ (length (ob_commands o') ≤ length (ob_commands o) + 4)%nat ∧ same_fs (ob_world o) (ob_world o').
Proof.
  intros Ho. pose proof (wp_run _ _ _ _ _ _ (observe_all_spec p o) Ho) as Hs.
  destruct r as [xs|]; [|done]. destruct Hs as [Ho' HF]. split; [|done].
  exists xs. split; [done|]. symmetry. by eapply Forall2_length.
Qed.
