(* ===== verification/Generations.v ===== *)
(** * The workload registry over its lifetime

    [run] is the reachable-states relation of the registry: it is initialised
    once, started, cycles, fails or is stopped at any point, and is started again
    with the same or another policy.  Everything but the authority file may change
    between steps.  The history of a run is the list of the manifests that were
    handed to publication, latest first. *)

From Stdlib Require Import Sorted.
From S2P Require Import Prelude RustStr Json Posix Budget PrivateStore Process Workloads Observation.

(** What serde's derived encodings are relied on for: the authority reads back as
    it was written, and two different pairs of a binding and an identity have
    different JSON texts. *)
Class WorkloadLaws `{WorkloadCodec} : Prop := {
  authority_codec a b : authority_to_vec a = Some b → authority_from_slice b = Some a;
  fingerprint_inj b i b' i' s : fingerprint_of b i = Some s → fingerprint_of b' i' = Some s → b = b' ∧ i = i';
}.

Section generations.
Context `{HC : WorkloadCodec} `{!WorkloadLaws}.

(** ** The allocator *)

(** The authority's numbers are its own: every entry has a number of its own,
    not above the counter. *)
Record numbered (a : Authority) : Prop := {
  nm_counter : 0 ≤ au_counter a;
  nm_bounds id e : au_entries a !! id = Some e → 1 ≤ en_generation e ≤ au_counter a;
  nm_distinct id e id' e' : au_entries a !! id = Some e → au_entries a !! id' = Some e' →
    en_generation e = en_generation e' → id = id';
}.
(** A manifest in the light of the authority. *)
Record accounted (a : Authority) (m : Manifest) : Prop := {
  ac_bounds : 1 ≤ mf_generation m ≤ au_counter a;
  ac_entry id e : au_entries a !! id = Some e → en_generation e = mf_generation m →
    fingerprint_of (mf_binding m) (mf_identity m) = Some (en_fingerprint e);
  ac_latest e : au_entries a !! agent_id (mf_binding m) = Some e → mf_generation m ≤ en_generation e;
}.
(** How a later manifest [m] relates to an earlier one. *)
Record supersedes (m m' : Manifest) : Prop := {
  su_order : agent_id (mf_binding m) = agent_id (mf_binding m') → mf_generation m' ≤ mf_generation m;
  su_same : mf_generation m = mf_generation m' → mf_binding m = mf_binding m' ∧ mf_identity m = mf_identity m';
}.
Record good (h : list Manifest) (a : Authority) : Prop := {
  gd_numbered : numbered a;
  gd_accounted : Forall (accounted a) h;
  gd_sorted : StronglySorted supersedes h;
}.

(** [assign] answers with the entry it leaves for the agent, and numbers that
    were handed out before keep their meaning. *)
Lemma assign_spec b i a :
  numbered a →
  wp (assign b i) (λ g a', numbered a' ∧ (∀ m, accounted a m → accounted a' m)
      ∧ (au_counter a' = au_counter a → a' = a)
      ∧ ∃ e, au_entries a' !! agent_id b = Some e ∧ g = en_generation e
             ∧ fingerprint_of b i = Some (en_fingerprint e))
    (λ _ a', a' = a) a.
Proof.
  intros Hn. unfold assign. wp_try as f Hf; [|done]. apply ok_or_Ok in Hf. wp_step. wp_step.
  set (allocate := mbind (M := M _ _) _ _).
  assert (wp allocate (λ g a', numbered a' ∧ (∀ m, accounted a m → accounted a' m)
      ∧ (au_counter a' = au_counter a → a' = a)
      ∧ ∃ e, au_entries a' !! agent_id b = Some e ∧ g = en_generation e
             ∧ fingerprint_of b i = Some (en_fingerprint e)) (λ _ a', a' = a) a) as Hal.
  { unfold allocate. wp_check as Hc; [done|]. wp_step. wp_step. wp_step. simpl. split_and!.
    - split; simpl; [apply nm_counter in Hn; lia|..].
      + intros id e [[_ <-]|[_ He]]%lookup_insert_Some; simpl; [apply nm_counter in Hn; lia|apply Hn in He; lia].
      + intros id e id' e' [[<- <-]|[? He]]%lookup_insert_Some [[<- <-]|[? He']]%lookup_insert_Some; simpl; try done.
        * apply Hn in He'. lia.
        * apply Hn in He. lia.
        * by eapply nm_distinct.
    - intros m [Hb He Hl]. split; simpl; [lia| |].
      + intros id e [[_ <-]|[_ Hid]]%lookup_insert_Some; simpl; [lia|by apply He with id].
      + intros e [[_ <-]|[_ Hid]]%lookup_insert_Some; simpl; [lia|by apply Hl].
    - lia.
    - eexists. rewrite lookup_insert_eq. by split_and!. }
  destruct (au_entries a !! agent_id b) as [e|] eqn:He; [|exact Hal].
  destruct (String.eqb_spec (en_fingerprint e) f) as [<-|]; [|exact Hal].
  wp_step. split_and!; try done. by exists e.
Qed.

(** A manifest made from the agent's entry may follow any history. *)
Lemma good_cons h a b i e t :
  good h a → au_entries a !! agent_id b = Some e → fingerprint_of b i = Some (en_fingerprint e) →
  good (Manifest_new b (en_generation e) t i :: h) a.
Proof.
  intros [Hn Ha Hs] He Hf. split; [done|constructor; [|done]|constructor; [done|]].
  - split; simpl; [by eapply nm_bounds| |].
    + intros id e' He' Hg. assert (id = agent_id b) as -> by (by eapply nm_distinct). by simplify_map_eq.
    + intros e' He'. by simplify_map_eq.
  - eapply Forall_impl; [exact Ha|]. intros m [Hb Hm Hl]. split; simpl.
    + intros Hid. apply Hl. by rewrite <-Hid.
    + intros Hg. by eapply fingerprint_inj, Hm.
Qed.
(** Retirement: an entry less. *)
Lemma good_delete h a id : good h a → good h (mkAuthority (au_version a) (au_counter a) (delete id (au_entries a))).
Proof.
  intros [[Hc Hb Hd] Ha Hs]. split; [|eapply Forall_impl; [exact Ha|]|done].
  - split; simpl; [done| |].
    + intros k e [_ Hk]%lookup_delete_Some. eauto.
    + intros k e k' e' [_ Hk]%lookup_delete_Some [_ Hk']%lookup_delete_Some. eauto.
  - intros m [Hm1 Hm2 Hm3]. split; simpl; [done| |].
    + intros k e [_ Hk]%lookup_delete_Some. eauto.
    + intros e [_ Hk]%lookup_delete_Some. eauto.
Qed.

(** ** The authority on disk *)

Definition AUTHORITY_PATH : string := below STATE AUTHORITY.
Definition stored (w : world) (a : Authority) : Prop :=
  ∃ b, authority_to_vec a = Some b ∧ placed 384 w AUTHORITY_PATH b.
Lemma stored_authority_keeps w w' a : keeps AUTHORITY_PATH w w' → stored w a → stored w' a.
Proof. intros K (b & ? & ?). exists b. split; [done|by eapply placed_keeps]. Qed.
Lemma save_authority_spec a w :
  wf w →
  wp (save_authority a) (λ _ w', wf w' ∧ stored w' a)
    (λ _ w', wf w' ∧ (keeps AUTHORITY_PATH w w' ∨ stored w' a)) w.
Proof.
  intros Hw. unfold save_authority. wp_apply (atomic_json_spec STATE AUTHORITY (authority_to_vec a) 384 w Hw).
  - intros _ w' (? & _ & Hb). by split.
  - intros _ w' (? & _ & [?|Hb]); split; auto.
Qed.
Lemma manifest_path_apart n s : json_target RUNTIME n ≠ AUTHORITY_PATH
  ∧ (json_target RUNTIME n ++ s)%string ≠ AUTHORITY_PATH ∧ below RUNTIME n ≠ AUTHORITY_PATH.
Proof. by split_and!. Qed.

Lemma publish_manifest_spec t b i g :
  let wld g := ob_world (rg_host g) in
  wf (wld g) → stored (wld g) (rg_authority g) → good (rg_published g) (rg_authority g) →
  wp (publish t b i)
    (λ _ g', wf (wld g') ∧ stored (wld g') (rg_authority g') ∧ good (rg_published g') (rg_authority g'))
    (λ _ g', wf (wld g') ∧ ∃ a, stored (wld g') a ∧ good (rg_published g') a) g.
Proof.
  intros wld Hw Hs Hg. unfold publish. wp_step. wp_step. wp_step. unfold on_authority. wp_step.
  wp_apply (assign_spec b i (rg_authority g)); [apply Hg| |].
  2: { intros x a' ->. split; [done|]. by exists (rg_authority g). }
  intros gen a' (Hn & Hacc & Hsame & e & He & -> & Hf).
  assert (good (rg_published g) a') as Hg'.
  { split; [done| |apply Hg]. eapply Forall_impl; [apply Hg|done]. }
  wp_step. wp_step. wp_step.
  (** The allocation is durable. *)
  assert (wp (if negb (au_counter a' =? au_counter (rg_authority g))
              then on_observer (on_world (save_authority a')) else mret tt)
    (λ _ g', wf (wld g') ∧ stored (wld g') a' ∧ rg_authority g' = a' ∧ rg_published g' = rg_published g)
    (λ _ g', wf (wld g') ∧ ∃ a, stored (wld g') a ∧ good (rg_published g') a)
    (mkRegistry (rg_host g) a' (rg_published g))) as Hsave.
  { destruct (Z.eqb_spec (au_counter a') (au_counter (rg_authority g))) as [Heq|Hne]; simpl.
    - wp_step. rewrite (Hsame Heq) in *. by split_and!.
    - unfold on_observer, on_world. wp_step. wp_step. wp_apply (save_authority_spec a' (wld g) Hw).
      + intros _ w' [? ?]. by split_and!.
      + intros _ w' [? [K|?]]; (split; [done|]); [|by exists a'].
        exists (rg_authority g). split; [by eapply stored_authority_keeps|done]. }
  wp_apply Hsave; [|done]. intros u g1 (Hw1 & Hs1 & <- & Hp1). wp_step. wp_step. unfold on_observer, on_world.
  wp_step. wp_step.
  wp_apply (atomic_json_spec RUNTIME (agent_id b ++ ".json")
    (manifest_to_vec (Manifest_new b (en_generation e) t i)) 292 (ob_world (rg_host g1)) Hw1).
  all: intros ? w' (Hw' & K & _); simpl; destruct (manifest_path_apart (agent_id b ++ ".json") ".pending") as (N1 & N2 & _).
  all: assert (stored w' (rg_authority g1)) by (eapply stored_authority_keeps; [by apply K; apply not_eq_sym|done]).
  all: assert (good (Manifest_new b (en_generation e) t i :: rg_published g1) (rg_authority g1)) as Hg1
    by (rewrite Hp1; by apply good_cons).
  - by split_and!.
  - split; [done|]. by exists (rg_authority g1).
Qed.

(** ** The service's operations *)

(** The state of a running registry, and what a failed operation leaves. *)
Definition wld (g : registry) : world := ob_world (rg_host g).
Definition healthy (g : registry) : Prop :=
  wf (wld g) ∧ stored (wld g) (rg_authority g) ∧ good (rg_published g) (rg_authority g).
Definition recoverable (h : list Manifest) (w : world) : Prop :=
  wf w ∧ ((h = [] ∧ w_names w !! AUTHORITY_PATH = None) ∨ ∃ a, stored w a ∧ good h a).
Lemma healthy_recoverable g : healthy g → recoverable (rg_published g) (wld g).
Proof. intros (? & ? & ?). split; [done|]. right. by exists (rg_authority g). Qed.
Lemma recoverable_keeps h w w' : keeps AUTHORITY_PATH w w' → recoverable h w → recoverable h w'.
Proof.
  intros K [_ Hr]. split; [apply K|]. destruct Hr as [[-> Hn]|(a & Hs & Hg)]; [left|right].
  - split; [done|]. by apply (kp_none _ _ _ K).
  - exists a. split; [by eapply stored_authority_keeps|done].
Qed.

Lemma publish_all_spec t l : ∀ g, healthy g →
  wp (publish_all t l) (λ _ g', healthy g') (λ _ g', recoverable (rg_published g') (wld g')) g.
Proof.
  induction l as [|[b i] l IH]; intros g Hg; cbn [publish_all]; [by wp_step|]. wp_step.
  destruct Hg as (Hw & Hs & Hg). wp_apply (publish_manifest_spec t b i g Hw Hs Hg).
  - intros u g1 H1. by apply IH.
  - intros e g1 [Hw1 H1]. split; [done|by right].
Qed.
Lemma unix_millis_reader : reader unix_millis (λ _ _, True).
Proof.
  intros w. unfold unix_millis. wp_step. wp_reader (reader_unix_seconds (E := string)) as t w1 S1 _; [|done].
  wp_check as Ht; [done|]. by wp_step.
Qed.
Lemma cycle_spec p g : healthy g →
  wp (cycle p) (λ _ g', healthy g') (λ _ g', recoverable (rg_published g') (wld g')) g.
Proof.
  intros Hg. unfold cycle. wp_step. unfold on_observer at 1. wp_step. wp_apply (observe_all_spec p (rg_host g)); [|done].
  intros ids o1 [[_ S1] _].
  assert (∀ o', same_fs (wld g) (ob_world o') → healthy (set_rg_host o' g)) as Hkeep.
  { intros o' S. destruct Hg as (Hw & Hs & Hg). split_and!; [by unfold wld; simpl; rewrite <-S| |done].
    eapply stored_authority_keeps; [by apply same_fs_keeps|done]. }
  wp_step. unfold on_observer at 1, on_world at 1. wp_step. wp_step.
  wp_reader (unix_millis_reader) as t w2 S2 _.
  - apply publish_all_spec, Hkeep. by etrans.
  - eapply healthy_recoverable, Hkeep. by etrans.
Qed.

Lemma take_ownership_spec w :
  wf w → wp take_ownership (λ _ w', keeps AUTHORITY_PATH w w') (λ _ w', keeps AUTHORITY_PATH w w') w.
Proof.
  intros Hw. unfold take_ownership.
  assert (∀ w', same_fs w w' → keeps AUTHORITY_PATH w w') as K by (intros; by apply same_fs_keeps).
  wp_step. wp_step. wp_check as Heuid; [by apply keeps_refl|]. wp_step.
  wp_reader (secure_open_reader STATE true) as d w1 S1 _; [|by apply K]. wp_step. wp_step.
  wp_reader (reader_fstat d) as m w2 S2 _; [|apply K; by chain]. wp_check as Hm; [apply K; by chain|]. wp_step.
  wp_reader (secure_open_reader RUNTIME true) as d' w3 S3 _; [|apply K; by chain]. wp_step. wp_step.
  wp_reader (reader_fstat d') as m' w4 S4 _; [|apply K; by chain]. wp_check as Hm'; [apply K; by chain|].
  assert (same_fs w w4) as S04 by (by chain). assert (wf w4) as Hw4 by (by rewrite <-S04).
  wp_step. wp_step. wp_apply (wp_open_create_keeps (below STATE "lock") 384 w4 Hw4).
  2: { intros e w5 S5. apply K. by chain. }
  intros f w5 [Hw5 K5]. assert (keeps AUTHORITY_PATH w w5) as K05.
  { eapply keeps_trans; [by apply K|by apply K5]. }
  wp_step. wp_step. wp_reader (reader_fstat f) as n w6 S6 _; [|by eapply keeps_same].
  assert (keeps AUTHORITY_PATH w w6) as K06 by (by eapply keeps_same). wp_check as Hn; [done|].
  wp_step. wp_apply (wp_flock_keeps f true w6 (kp_wf _ _ _ K06)); [|intros e w7 S7; by eapply keeps_same].
  intros u w7 [_ K7]. eapply keeps_trans; [exact K06|apply K7].
Qed.

Lemma stored_lookup w a : stored w a →
  ∃ i n, lookup_inode w AUTHORITY_PATH = Some (i, n) ∧ w_inodes w !! i = Some n ∧ authority_to_vec a = Some (i_data n).
Proof.
  intros (b & Hb & j & Hj & Hn & _). unfold lookup_inode. rewrite Hj. simpl. rewrite Hn. simpl. eauto.
Qed.
Lemma read_authority_reader : reader read_authority (λ w a',
  lookup_inode w AUTHORITY_PATH ≠ None ∧ ∀ a, stored w a → a' = a).
Proof.
  intros w. unfold read_authority. wp_step.
  wp_reader (secure_open_reader AUTHORITY_PATH false) as f w1 S1 Hf; [|done].
  destruct Hf as (n & Hn); [done|]. wp_step. wp_step. wp_reader (reader_fstat f) as m w2 S2 _; [|by chain].
  wp_check as Hm; [by chain|]. wp_step.
  wp_reader (bounded_read_reader f 262144) as b w3 S3 (Hlen & n' & Hn' & ->); [|by chain].
  wp_try as a' Ha; [|by chain]. apply ok_or_Ok in Ha. wp_try as u Hv; [|by chain]. wp_step. split; [by chain|].
  change (canonical (components AUTHORITY_PATH)) with AUTHORITY_PATH in Hn. split; [by rewrite Hn|].
  intros a Hs. destruct (stored_lookup _ _ Hs) as (i & n1 & Hl & Hi & Hb).
  rewrite Hl in Hn. injection Hn as -> <-.
  rewrite (sf_inodes _ _ S2), (sf_inodes _ _ S1), Hi in Hn'. injection Hn' as <-.
  rewrite take_bounded in Ha by done. apply authority_codec in Hb. by rewrite Hb in Ha; injection Ha.
Qed.
Lemma retire_spec h ids : ∀ a w,
  wf w → good h a →
  wp (retire ids a) (λ a' w', keeps AUTHORITY_PATH w w' ∧ good h a') (λ _ w', keeps AUTHORITY_PATH w w') w.
Proof.
  induction ids as [|id ids IH]; intros a w Hw Hg; cbn [retire]; [wp_step; split; [by apply keeps_refl|done]|].
  wp_step. wp_apply (wp_remove_any (below RUNTIME (id ++ ".json")) w Hw); [|done]. intros r w1 [Hw1 K1].
  assert (keeps AUTHORITY_PATH w w1) as K01 by (apply K1, not_eq_sym, (manifest_path_apart _ EmptyString)).
  unfold bad. wp_step. destruct r as [?|[]]; repeat wp_step; try done.
  all: wp_reader reader_sync as u w2 S2 _; [|by eapply keeps_same].
  all: assert (keeps AUTHORITY_PATH w w2) as K02 by (by eapply keeps_same).
  all: wp_apply (IH _ w2 (kp_wf _ _ _ K02) (good_delete _ _ id Hg)); [intros a' w3 [K3 Hg3]; split; [|done]|intros e w3 K3];
    by eapply keeps_trans.
Qed.

Lemma executable_ok_reader path : reader (executable_ok path) (λ _ _, True).
Proof.
  intros w. unfold executable_ok. wp_check as Hp; [done|]. wp_step.
  wp_reader (secure_open_reader path false) as f w1 S1 _; [|done]. wp_step. wp_step.
  wp_reader (reader_fstat f) as m w2 S2 _; [|by chain]. wp_step; [by chain|]. split; [by chain|done].
Qed.
Lemma reader_canonicalize p : reader (sys_canonicalize p) (λ _ _, True).
Proof.
  intros w. apply wp_simple; intros fs; [apply same_fs_faults|]. apply run_wp. cbv zeta.
  destruct (resolve_path 40 (set_faults fs w) p); [split; [|done]|]; apply same_fs_faults.
Qed.
Lemma load_policy_reader : reader load_policy (λ _ _, True).
Proof.
  intros w. unfold load_policy, validate_policy. wp_step. wp_step.
  wp_reader (reader_canonicalize "/etc/tentaflake-workloads.json") as path w1 S1 _; [|done].
  wp_check as Hp; [done|]. wp_step. wp_reader (secure_open_reader path false) as f w2 S2 _; [|by chain].
  wp_step. wp_reader (bounded_read_reader f 65536) as b w3 S3 _; [|by chain]. wp_try as p Hd; [|by chain].
  wp_step. wp_step. wp_reader (reader_canonicalize (po_docker p)) as docker w4 S4 _; [|by chain].
  wp_step. wp_step. wp_reader (reader_canonicalize (po_systemctl p)) as systemctl w5 S5 _; [|by chain].
  assert (same_fs w w5) as S05 by (by chain). wp_step. wp_check as Hv; [done|]. wp_step.
  wp_reader (executable_ok_reader docker) as u w6 S6 _; [|by chain]. wp_step.
  wp_reader (executable_ok_reader systemctl) as u' w7 S7 _; [|by chain]. wp_step; [by chain|]. wp_step.
  split; [by chain|done].
Qed.
Lemma recoverable_same h w w' : same_fs w w' → recoverable h w → recoverable h w'.
Proof. intros S Hr. eapply recoverable_keeps; [apply same_fs_keeps; [apply Hr|done]|done]. Qed.
Lemma start_registry_spec h w :
  recoverable h w →
  wp start (λ r w', wf w' ∧ stored w' (snd r) ∧ good h (snd r)) (λ _ w', recoverable h w') w.
Proof.
  intros Hr. unfold start. wp_step. wp_apply (take_ownership_spec w); [apply Hr| |].
  2: { intros e w1 K1. exact (recoverable_keeps _ _ _ K1 Hr). }
  intros u w1 K1. pose proof (recoverable_keeps _ _ _ K1 Hr) as Hr1. wp_step.
  wp_reader load_policy_reader as p w2 S2 _; [|exact (recoverable_same _ _ _ S2 Hr1)].
  pose proof (recoverable_same _ _ _ S2 Hr1) as Hr2.
  wp_step. wp_reader read_authority_reader as a w3 S3 [Hl Ha]; [|exact (recoverable_same _ _ _ S3 Hr2)].
  destruct Hr2 as [Hw2 [[-> Hn]|(a' & Hs & Hg)]]; [by unfold lookup_inode in Hl; rewrite Hn in Hl|].
  rewrite (Ha a' Hs) in *. assert (stored w3 a') as Hs3 by (eapply stored_authority_keeps; [by apply same_fs_keeps|done]).
  wp_step. wp_apply (retire_spec h (retired p a') a' w3); [by rewrite <-S3|done| |].
  2: { intros e w4 K4. split; [apply K4|]. right. exists a'. split; [exact (stored_authority_keeps _ _ _ K4 Hs3)|done]. }
  intros a4 w4 [K4 Hg4]. wp_step. wp_apply (save_authority_spec a4 w4 (kp_wf _ _ _ K4)).
  - intros u5 w5 [Hw5 Hs5]. by wp_step.
  - intros e w5 [Hw5 [K5|Hs5]]; (split; [done|]; right); [exists a'|by exists a4].
    split; [|done]. eapply stored_authority_keeps; [|exact Hs3]. by eapply keeps_trans.
Qed.

Lemma good_empty : good [] Authority_empty.
Proof. split; [split; simpl; [lia|by intros *; rewrite lookup_empty..]|constructor|constructor]. Qed.
Lemma initialize_spec h w :
  recoverable h w → wp initialize (λ _ w', recoverable h w') (λ _ w', recoverable h w') w.
Proof.
  intros Hr. unfold initialize, bad. wp_step. wp_apply (take_ownership_spec w); [apply Hr| |].
  2: { intros e w1 K1. exact (recoverable_keeps _ _ _ K1 Hr). }
  intros u w1 K1. pose proof (recoverable_keeps _ _ _ K1 Hr) as Hr1. wp_step. wp_step.
  assert (wp (sys_symlink_metadata AUTHORITY_PATH) (λ _ w', same_fs w1 w')
    (λ e w', same_fs w1 w' ∧ (e = NotFound → lookup_inode w1 AUTHORITY_PATH = None)) w1) as Hm.
  { apply wp_simple; intros fs; [split; [apply same_fs_faults|done]|].
    unfold wp. change (lookup_inode (set_faults fs w1) AUTHORITY_PATH) with (lookup_inode w1 AUTHORITY_PATH).
    destruct (lookup_inode w1 AUTHORITY_PATH) eqn:E; simpl; [apply same_fs_faults|]. split; [apply same_fs_faults|done]. }
  wp_apply Hm; [intros x w2 S2; wp_step; exact (recoverable_same _ _ _ S2 Hr1)|].
  intros [] w2 [S2 Hn]; [|wp_step; exact (recoverable_same _ _ _ S2 Hr1)..].
  assert (h = []) as ->.
  { destruct Hr1 as [_ [[-> _]|(a & Hs & _)]]; [done|]. destruct (stored_lookup _ _ Hs) as (i & n & E & _).
    by rewrite Hn in E. }
  pose proof (recoverable_same _ _ _ S2 Hr1) as Hr2.
  wp_apply (save_authority_spec Authority_empty w2); [apply Hr2| |].
  - intros u3 w3 [? ?]. split; [done|]. right. exists Authority_empty. split; [done|apply good_empty].
  - intros e w3 [? [K|?]]; [by eapply recoverable_keeps|]. split; [done|]. right.
    exists Authority_empty. split; [done|apply good_empty].
Qed.

(** ** The service *)

Inductive phase : Type := Stopped (w : world) (h : list Manifest) | Running (p : Policy) (g : registry).
Inductive run : phase → Prop :=
  | run_deploy w : wf w → w_names w !! AUTHORITY_PATH = None → run (Stopped w [])
  | run_outside w w' h : run (Stopped w h) → keeps AUTHORITY_PATH w w' → run (Stopped w' h)
  | run_initialize w h r w' : run (Stopped w h) → initialize w = (r, w') → run (Stopped w' h)
  | run_start w h p a w' children procs commands : run (Stopped w h) → start w = (Ok (p, a), w') →
      run (Running p (mkRegistry (mkObserver w' children procs commands) a h))
  | run_start_fails w h e w' : run (Stopped w h) → start w = (Err e, w') → run (Stopped w' h)
  | run_time_passes p g o : run (Running p g) → keeps AUTHORITY_PATH (wld g) (ob_world o) →
      run (Running p (set_rg_host o g))
  | run_cycle p g g' : run (Running p g) → cycle p g = (Ok tt, g') → run (Running p g')
  | run_cycle_fails p g e g' : run (Running p g) → cycle p g = (Err e, g') → run (Stopped (wld g') (rg_published g'))
  | run_stop p g : run (Running p g) → run (Stopped (wld g) (rg_published g)).

Definition history (ph : phase) : list Manifest := match ph with Stopped _ h => h | Running _ g => rg_published g end.
Definition disk (ph : phase) : world := match ph with Stopped w _ => w | Running _ g => wld g end.
Definition in_step (ph : phase) : Prop :=
  match ph with Stopped w h => recoverable h w | Running _ g => healthy g end.
Lemma registry_in_step ph : run ph → in_step ph.
Proof.
  induction 1 as [w Hw Hn|w w' h _ IH K|w h r w' _ IH E|w h p a w' ? ? ? _ IH E|w h e w' _ IH E
                 |p g o _ IH K|p g g' _ IH E|p g e g' _ IH E|p g _ IH]; simpl in *.
  - split; [done|by left].
  - by eapply recoverable_keeps.
  - pose proof (wp_run _ _ _ _ _ _ (initialize_spec h w IH) E). by destruct r.
  - by destruct (wp_run _ _ _ _ _ _ (start_registry_spec h w IH) E) as (? & ? & ?).
  - by apply (wp_run _ _ _ _ _ _ (start_registry_spec h w IH) E).
  - destruct IH as (? & ? & ?). split_and!; [apply K|by eapply stored_authority_keeps|done].
  - by apply (wp_run _ _ _ _ _ _ (cycle_spec p g IH) E).
  - by apply (wp_run _ _ _ _ _ _ (cycle_spec p g IH) E).
  - by apply healthy_recoverable.
Qed.

(** C6. Over the whole life of the registry, across restarts, changes
    of policy, failures and crashes: the generations published for one agent never
    go back, a generation number is never given to two different pairs of a
    binding and an identity (of one agent or of two), and every generation that
    was exposed is covered by the counter in the authority file, so that the next
    start allocates above it. *)
Theorem generations_never_reused ph :
  run ph →
  StronglySorted supersedes (history ph)
  ∧ ∀ m, m ∈ history ph → ∃ a, stored (disk ph) a ∧ 1 ≤ mf_generation m ≤ au_counter a.
Proof.
  intros Hr%registry_in_step. assert (recoverable (history ph) (disk ph)) as [_ Hd].
  { destruct ph; [done|by apply healthy_recoverable]. }
  destruct Hd as [[-> _]|(a & Hs & [_ Ha Hsort])]; (split; [by try constructor|]); intros m Hm.
  - by apply elem_of_nil in Hm.
  - exists a. split; [done|]. apply (proj1 (Forall_forall _ _) Ha m Hm).
Qed.
End generations.
