(* ===== verification/Policy.v ===== *)
(** * Egress address policy: [crates/tentaflake-broker/src/policy.rs]

    Which resolved targets the broker may contact.  URL parsing (the url crate,
    through reqwest) is the class [UrlLib]; DNS is the resolver argument, as in
    the source.  [IpAddr] and its textual form are the standard library's and
    are modelled. *)

From S2P Require Import Prelude RustStr.

(** ** [std::net] *)

Inductive IpAddr : Type :=
| V4 (a b c d : Z)
| V6 (s0 s1 s2 s3 s4 s5 s6 s7 : Z).
Record SocketAddr : Type := mkSocket { ip : IpAddr; port : Z }.

#[export] Instance IpAddr_eq_dec : EqDecision IpAddr.
Proof. solve_decision. Defined.

(** A parser of [core::net::parser]: consume a prefix or fail, atomically. *)
Definition parser (A : Type) : Type := bytes → option (A * bytes).

Definition digit_value (radix b : Z) : option Z :=
  if is_ascii_digit b then Some (b - 48)
  else if radix =? 16 then
    if in_range 97 102 b then Some (b - 87) else if in_range 65 70 b then Some (b - 55) else None
  else None.

(** Read digits greedily: value, count, rest; [None] on overflow of [limit] or
    more than [max] digits. *)
Fixpoint read_digits (radix limit max acc count : Z) (l : bytes) : option (Z * Z * bytes) :=
  match l with
  | b :: l' =>
      match digit_value radix b with
      | Some x =>
          let acc' := acc * radix + x in
          if (limit <? acc') || (max <? count + 1) then None
          else read_digits radix limit max acc' (count + 1) l'
      | None => Some (acc, count, l)
      end
  | [] => Some (acc, count, l)
  end.
Definition read_number (radix limit max : Z) (allow_zero_prefix : bool) : parser Z := λ l,
  let leading_zero := match l with b :: _ => b =? 48 | [] => false end in
  '(v, n, rest) ← read_digits radix limit max 0 0 l;
  if n =? 0 then None
  else if negb allow_zero_prefix && leading_zero && (1 <? n) then None
  else Some (v, rest).
Definition read_char (c : Z) : parser unit := λ l,
  match l with b :: l' => if b =? c then Some (tt, l') else None | [] => None end.
Definition read_separator {A} (sep : Z) (first : bool) (p : parser A) : parser A := λ l,
  if first then p l else '(_, l') ← read_char sep l; p l'.

Definition read_ipv4 : parser (Z * Z * Z * Z) := λ l,
  '(a, l) ← read_number 10 255 3 false l;
  '(b, l) ← read_separator 46 false (read_number 10 255 3 false) l;
  '(c, l) ← read_separator 46 false (read_number 10 255 3 false) l;
  '(d, l) ← read_separator 46 false (read_number 10 255 3 false) l;
  Some ((a, b, c, d), l).

(** [read_groups]: at most [n] groups, a trailing IPv4 form for the last two. *)
Fixpoint read_groups (n : nat) (first : bool) (l : bytes) : list Z * bool * bytes :=
  match n with
  | O => ([], false, l)
  | S n' =>
      let v4 := match n' with O => None | S _ => read_separator 58 first read_ipv4 l end in
      match v4 with
      | Some ((a, b, c, d), l') => ([a * 256 + b; c * 256 + d], true, l')
      | None =>
          match read_separator 58 first (read_number 16 65535 4 true) l with
          | Some (g, l') => let '(gs, v, l'') := read_groups n' false l' in (g :: gs, v, l'')
          | None => ([], false, l)
          end
      end
  end.
Definition segments_ip (l : list Z) : option IpAddr :=
  match l with
  | [s0; s1; s2; s3; s4; s5; s6; s7] => Some (V6 s0 s1 s2 s3 s4 s5 s6 s7)
  | _ => None
  end.
Definition read_ipv6 : parser IpAddr := λ l,
  let '(head, head_v4, l1) := read_groups 8 true l in
  if (length head =? 8)%nat then a ← segments_ip head; Some (a, l1)
  else if head_v4 then None
  else
    '(_, l2) ← read_char 58 l1;
    '(_, l3) ← read_char 58 l2;
    let '(tail, _, l4) := read_groups (8 - (length head + 1)) true l3 in
    a ← segments_ip (head ++ replicate (8 - length head - length tail) 0 ++ tail);
    Some (a, l4).

(** [str::parse::<IpAddr>]: the whole text must be consumed. *)
Definition parse_ip (s : string) : option IpAddr :=
  let l := str_bytes s in
  match read_ipv4 l with
  | Some ((a, b, c, d), []) => Some (V4 a b c d)
  | Some _ => None
  | None => match read_ipv6 l with Some (a, []) => Some a | _ => None end
  end.

(** ** The url crate *)

Class UrlLib : Type := {
  url : Type;
  url_parse : string → option url;
  url_scheme : url → string;
  url_username : url → string;
  url_password : url → option string;
  url_fragment : url → option string;
  url_query : url → option string;
  url_host_str : url → option string;
  url_port_or_known_default : url → option Z;
  url_path : url → string;
  url_cannot_be_a_base : url → bool;
  url_join : url → string → option url;
  url_as_str : url → string;
}.

(** ** Public addresses *)

Definition is_public_v4 (a b c d : Z) : bool :=
  negb ((a =? 0)
        || (a =? 10)
        || (a =? 127)
        || ((a =? 100) && in_range 64 127 b)
        || ((a =? 169) && (b =? 254))
        || ((a =? 172) && in_range 16 31 b)
        || ((a =? 192) && (b =? 0) && (c =? 0))
        || ((a =? 192) && (b =? 0) && (c =? 2))
        || ((a =? 192) && (b =? 168))
        || ((a =? 198) && ((b =? 18) || (b =? 19)))
        || ((a =? 198) && (b =? 51) && (c =? 100))
        || ((a =? 203) && (b =? 0) && (c =? 113))
        || (224 <=? a)).

(** [Ipv6Addr::to_ipv4_mapped]: [::ffff:a.b.c.d]. *)
Definition to_ipv4_mapped (s0 s1 s2 s3 s4 s5 s6 s7 : Z) : option (Z * Z * Z * Z) :=
  if (s0 =? 0) && (s1 =? 0) && (s2 =? 0) && (s3 =? 0) && (s4 =? 0) && (s5 =? 65535)
  then Some (s6 / 256, s6 mod 256, s7 / 256, s7 mod 256) else None.

Definition is_public_v6 (s0 s1 s2 s3 s4 s5 s6 s7 : Z) : bool :=
  match to_ipv4_mapped s0 s1 s2 s3 s4 s5 s6 s7 with
  | Some (a, b, c, d) => is_public_v4 a b c d
  | None =>
      (Z.land s0 57344 (* 0xe000 *) =? 8192 (* 0x2000 *))
      && negb ((s0 =? 8193 (* 0x2001 *)) && (s1 =? 3512 (* 0x0db8 *)))
  end.

Definition is_public_ip (a : IpAddr) : bool :=
  match a with
  | V4 a b c d => is_public_v4 a b c d
  | V6 s0 s1 s2 s3 s4 s5 s6 s7 => is_public_v6 s0 s1 s2 s3 s4 s5 s6 s7
  end.

(** ** Resolution *)

Section resolve.
Context `{UrlLib}.

Record ResolvedTarget : Type := mkTarget {
  t_url : url;
  t_host : string;
  t_addresses : list SocketAddr;
}.

Definition resolve_public_target_with (raw_url : string) (allowed_hosts : list string)
    (allow_http allow_non_public_for_tests : bool)
    (resolver : string → Z → result string (list SocketAddr)) : result string ResolvedTarget :=
  u ← ok_or "target is not a valid URL" (url_parse raw_url);
  _ ← bail_if (negb (url_scheme u =? "https")%string
               && negb (allow_http && (url_scheme u =? "http")%string))
        "target scheme is not allowed";
  _ ← bail_if (negb (url_username u =? "")%string
               || bool_decide (is_Some (url_password u)) || bool_decide (is_Some (url_fragment u)))
        "target URL credentials and fragments are rejected";
  host ← ok_or "target URL has no host" (url_host_str u);
  let host := to_ascii_lowercase host in
  _ ← bail_if (negb (existsb (String.eqb host) allowed_hosts))
        "target host is not in the exact allowlist";
  port ← ok_or "target has no known port" (url_port_or_known_default u);
  addresses ← match parse_ip host with
              | Some ip => Ok [mkSocket ip port]
              | None => resolver host port
              end;
  _ ← bail_if (bool_decide (addresses = [])
               || (negb allow_non_public_for_tests
                   && existsb (λ a, negb (is_public_ip (ip a))) addresses))
        "target resolves to a blocked or non-public address";
  _ ← bail_if (existsb (λ a, negb (Policy.port a =? port)) addresses)
        "resolved target port changed unexpectedly";
  Ok (mkTarget u host addresses).

(** The production entry point: the system resolver, every failure with one
    message. *)
Definition resolve_public_target (dns : string → Z → option (list SocketAddr))
    (raw_url : string) (allowed_hosts : list string)
    (allow_http allow_non_public_for_tests : bool) : result string ResolvedTarget :=
  resolve_public_target_with raw_url allowed_hosts allow_http allow_non_public_for_tests
    (λ h p, ok_or "target DNS resolution failed" (dns h p)).
End resolve.

(** * Properties *)

(** The address blocks the broker must never contact, as network prefixes:
    [(base, prefix length)] over the 32-bit address. *)
Definition v4_value (a b c d : Z) : Z := ((a * 256 + b) * 256 + c) * 256 + d.
Definition blocked_v4 : list (Z * Z) :=
  [ (v4_value 0 0 0 0, 8);        (* "this" network *)
    (v4_value 10 0 0 0, 8);       (* private *)
    (v4_value 100 64 0 0, 10);    (* carrier-grade NAT, tailnets *)
    (v4_value 127 0 0 0, 8);      (* loopback *)
    (v4_value 169 254 0 0, 16);   (* link-local, cloud metadata *)
    (v4_value 172 16 0 0, 12);    (* private *)
    (v4_value 192 0 0 0, 24);     (* IETF protocol assignments *)
    (v4_value 192 0 2 0, 24);     (* documentation *)
    (v4_value 192 168 0 0, 16);   (* private *)
    (v4_value 198 18 0 0, 15);    (* benchmarking *)
    (v4_value 198 51 100 0, 24);  (* documentation *)
    (v4_value 203 0 113 0, 24);   (* documentation *)
    (v4_value 224 0 0 0, 3) ].    (* multicast, reserved, broadcast *)
Definition in_prefix (x : Z) (p : Z * Z) : Prop :=
  x / 2 ^ (32 - snd p) = fst p / 2 ^ (32 - snd p).

Lemma in_prefix_range x base len :
  0 ≤ len ≤ 32 → base mod 2 ^ (32 - len) = 0 →
  in_prefix x (base, len) ↔ base ≤ x < base + 2 ^ (32 - len).
Proof.
  intros Hl Hm. unfold in_prefix. simpl. set (k := 2 ^ (32 - len)) in *.
  assert (0 < k) by (apply Z.pow_pos_nonneg; lia).
  pose proof (Z.div_mod base k ltac:(lia)). pose proof (Z.div_mod x k ltac:(lia)).
  pose proof (Z.mod_pos_bound x k ltac:(lia)). split; intros Hx.
  - rewrite Hx in *. lia.
  - assert (base / k ≤ x / k) by (apply Z.div_le_mono; lia).
    assert (x / k < base / k + 1); [|lia].
    apply Z.div_lt_upper_bound; [lia|]. lia.
Qed.

Lemma blocked_cons x base len l :
  0 ≤ len ≤ 32 → base mod 2 ^ (32 - len) = 0 →
  (∃ p, p ∈ (base, len) :: l ∧ in_prefix x p) ↔
  base ≤ x < base + 2 ^ (32 - len) ∨ ∃ p, p ∈ l ∧ in_prefix x p.
Proof.
  intros Hl Hm. rewrite <-(in_prefix_range x base len Hl Hm). split.
  - intros (p & Hp & Hx). apply list_elem_of_In in Hp as [<-|Hp]; [by left|right].
    exists p. by rewrite list_elem_of_In.
  - intros [Hx|(p & Hp & Hx)]; [exists (base, len)|exists p]; (split; [|done]); set_solver.
Qed.

Lemma blocked_ranges x :
  (∃ p, p ∈ blocked_v4 ∧ in_prefix x p) ↔
  0 ≤ x < 16777216 ∨ 167772160 ≤ x < 184549376 ∨ 1681915904 ≤ x < 1686110208
  ∨ 2130706432 ≤ x < 2147483648 ∨ 2851995648 ≤ x < 2852061184 ∨ 2886729728 ≤ x < 2887778304
  ∨ 3221225472 ≤ x < 3221225728 ∨ 3221225984 ≤ x < 3221226240 ∨ 3232235520 ≤ x < 3232301056
  ∨ 3323068416 ≤ x < 3323199488 ∨ 3325256704 ≤ x < 3325256960 ∨ 3405803776 ≤ x < 3405804032
  ∨ 3758096384 ≤ x < 4294967296.
Proof.
  unfold blocked_v4. rewrite !blocked_cons by (done || lia).
  assert ((∃ p, p ∈ ([] : list (Z * Z)) ∧ in_prefix x p) ↔ False) as ->.
  { split; [|done]. by intros (p & Hp%list_elem_of_In & _). }
  unfold v4_value. change (2 ^ (32 - 8)) with 16777216. change (2 ^ (32 - 10)) with 4194304.
  change (2 ^ (32 - 16)) with 65536. change (2 ^ (32 - 12)) with 1048576.
  change (2 ^ (32 - 24)) with 256. change (2 ^ (32 - 15)) with 131072.
  change (2 ^ (32 - 3)) with 536870912. lia.
Qed.

(** Masking the high bits of a 16-bit segment. *)
Lemma land_mask s k : 0 ≤ s < 65536 → 0 ≤ k →
  Z.land s (Z.land (Z.ones 16) (Z.lnot (Z.ones k))) = s / 2 ^ k * 2 ^ k.
Proof.
  intros Hs Hk.
  rewrite Z.land_assoc, Z.land_ones, Z.mod_small, <-Z.ldiff_land, Z.ldiff_ones_r by (simpl; lia).
  by rewrite Z.shiftl_mul_pow2, Z.shiftr_div_pow2 by lia.
Qed.

(** The top three bits of a 16-bit segment are 001. *)
Lemma top_bits_2000 s : 0 ≤ s < 65536 → (Z.land s 57344 =? 8192) = in_range 8192 16383 s.
Proof.
  intros Hs. change 57344 with (Z.land (Z.ones 16) (Z.lnot (Z.ones 13))).
  rewrite land_mask by lia. change (2 ^ 13) with 8192.
  pose proof (Z.div_mod s 8192 ltac:(lia)). pose proof (Z.mod_pos_bound s 8192 ltac:(lia)).
  unfold in_range. lia.
Qed.

(** The documented policy: outside every blocked prefix. *)
Definition v4_allowed (a b c d : Z) : Prop :=
  ¬ ∃ p, p ∈ blocked_v4 ∧ in_prefix (v4_value a b c d) p.
Definition ip_ok (x : IpAddr) : Prop :=
  match x with
  | V4 a b c d => Forall byte_ok [a; b; c; d]
  | V6 s0 s1 s2 s3 s4 s5 s6 s7 => Forall (λ s, 0 ≤ s < 65536) [s0; s1; s2; s3; s4; s5; s6; s7]
  end.
Definition ip_allowed (x : IpAddr) : Prop :=
  match x with
  | V4 a b c d => v4_allowed a b c d
  | V6 s0 s1 s2 s3 s4 s5 s6 s7 =>
      (s0 = 0 ∧ s1 = 0 ∧ s2 = 0 ∧ s3 = 0 ∧ s4 = 0 ∧ s5 = 65535
       ∧ v4_allowed (s6 / 256) (s6 mod 256) (s7 / 256) (s7 mod 256))
      ∨ (8192 ≤ s0 ≤ 16383 ∧ ¬ (s0 = 8193 ∧ s1 = 3512))
  end.

(** Each blocked range is one guard of the code. *)
Lemma v4_guards a b c d :
  byte_ok a → byte_ok b → byte_ok c → byte_ok d →
  is_public_v4 a b c d = false ↔ ∃ p, p ∈ blocked_v4 ∧ in_prefix (v4_value a b c d) p.
Proof.
  unfold byte_ok. intros. rewrite blocked_ranges. set (x := v4_value a b c d).
  assert (0 ≤ x < 16777216 ↔ a = 0) as -> by (unfold x, v4_value; lia).
  assert (167772160 ≤ x < 184549376 ↔ a = 10) as -> by (unfold x, v4_value; lia).
  assert (1681915904 ≤ x < 1686110208 ↔ a = 100 ∧ 64 ≤ b ∧ b ≤ 127) as -> by (unfold x, v4_value; lia).
  assert (2130706432 ≤ x < 2147483648 ↔ a = 127) as -> by (unfold x, v4_value; lia).
  assert (2851995648 ≤ x < 2852061184 ↔ a = 169 ∧ b = 254) as -> by (unfold x, v4_value; lia).
  assert (2886729728 ≤ x < 2887778304 ↔ a = 172 ∧ 16 ≤ b ∧ b ≤ 31) as -> by (unfold x, v4_value; lia).
  assert (3221225472 ≤ x < 3221225728 ↔ (a = 192 ∧ b = 0) ∧ c = 0) as -> by (unfold x, v4_value; lia).
  assert (3221225984 ≤ x < 3221226240 ↔ (a = 192 ∧ b = 0) ∧ c = 2) as -> by (unfold x, v4_value; lia).
  assert (3232235520 ≤ x < 3232301056 ↔ a = 192 ∧ b = 168) as -> by (unfold x, v4_value; lia).
  assert (3323068416 ≤ x < 3323199488 ↔ a = 198 ∧ (b = 18 ∨ b = 19)) as -> by (unfold x, v4_value; lia).
  assert (3325256704 ≤ x < 3325256960 ↔ (a = 198 ∧ b = 51) ∧ c = 100) as -> by (unfold x, v4_value; lia).
  assert (3405803776 ≤ x < 3405804032 ↔ (a = 203 ∧ b = 0) ∧ c = 113) as -> by (unfold x, v4_value; lia).
  assert (3758096384 ≤ x < 4294967296 ↔ 224 ≤ a) as -> by (unfold x, v4_value; lia).
  unfold is_public_v4, in_range.
  rewrite negb_false_iff, !orb_true_iff, !andb_true_iff, !orb_true_iff, !Z.eqb_eq, !Z.leb_le. tauto.
Qed.

Lemma is_public_v4_spec a b c d :
  byte_ok a → byte_ok b → byte_ok c → byte_ok d →
  is_public_v4 a b c d = true ↔ v4_allowed a b c d.
Proof.
  intros. unfold v4_allowed. rewrite <-v4_guards by done.
  destruct (is_public_v4 a b c d); naive_solver.
Qed.

Lemma half_bytes s : 0 ≤ s < 65536 → byte_ok (s / 256) ∧ byte_ok (s mod 256).
Proof.
  intros. unfold byte_ok. pose proof (Z.mod_pos_bound s 256 ltac:(lia)).
  pose proof (Z.div_pos s 256 ltac:(lia) ltac:(lia)).
  assert (s / 256 < 256) by (apply Z.div_lt_upper_bound; lia). lia.
Qed.

Lemma to_ipv4_mapped_Some s0 s1 s2 s3 s4 s5 s6 s7 x :
  to_ipv4_mapped s0 s1 s2 s3 s4 s5 s6 s7 = Some x ↔
  s0 = 0 ∧ s1 = 0 ∧ s2 = 0 ∧ s3 = 0 ∧ s4 = 0 ∧ s5 = 65535
  ∧ x = (s6 / 256, s6 mod 256, s7 / 256, s7 mod 256).
Proof.
  unfold to_ipv4_mapped. destruct (_ && _) eqn:E.
  - rewrite !andb_true_iff, !Z.eqb_eq in E. naive_solver.
  - split; [done|]. intros (-> & -> & -> & -> & -> & -> & _). done.
Qed.

Lemma is_public_v6_spec s0 s1 s2 s3 s4 s5 s6 s7 :
  ip_ok (V6 s0 s1 s2 s3 s4 s5 s6 s7) →
  is_public_v6 s0 s1 s2 s3 s4 s5 s6 s7 = true ↔ ip_allowed (V6 s0 s1 s2 s3 s4 s5 s6 s7).
Proof.
  simpl. rewrite !Forall_cons. intros (H0 & _ & _ & _ & _ & _ & H6 & H7 & _).
  unfold is_public_v6. destruct (to_ipv4_mapped _ _ _ _ _ _ _ _) as [[[[a b] c] d]|] eqn:E.
  - apply to_ipv4_mapped_Some in E as (-> & -> & -> & -> & -> & -> & [= -> -> -> ->]).
    destruct (half_bytes _ H6), (half_bytes _ H7). rewrite is_public_v4_spec by done.
    split; [intros; left; done | intros [?|?]; [tauto|lia]].
  - rewrite top_bits_2000 by done. unfold in_range.
    rewrite andb_true_iff, negb_true_iff, andb_false_iff, andb_true_iff, !Z.leb_le, !Z.eqb_neq.
    split; [intros; right; lia|]. intros [(-> & -> & -> & -> & -> & -> & _)|?]; [done|lia].
Qed.

Section policy_claims.
Context `{UrlLib}.

(** A successful resolution inverted: everything the caller may rely on. *)
Record admissible (hosts : list string) (allow_http non_public : bool) (t : ResolvedTarget) : Prop := {
  ad_scheme : url_scheme (t_url t) = "https"%string
    ∨ (allow_http = true ∧ url_scheme (t_url t) = "http"%string);
  ad_plain : url_username (t_url t) = ""%string ∧ url_password (t_url t) = None
    ∧ url_fragment (t_url t) = None;
  ad_host : to_ascii_lowercase <$> url_host_str (t_url t) = Some (t_host t);
  ad_listed : t_host t ∈ hosts;
  ad_some : t_addresses t ≠ [];
  ad_port : ∀ a, a ∈ t_addresses t → url_port_or_known_default (t_url t) = Some (port a);
  ad_public : non_public = false → ∀ a, a ∈ t_addresses t → is_public_ip (ip a) = true;
}.

Lemma resolve_admissible raw hosts http np dns t :
  resolve_public_target dns raw hosts http np = Ok t → admissible hosts http np t.
Proof.
  unfold resolve_public_target, resolve_public_target_with. intros Hr. inv_ok.
  injection Hr as <-.
  repeat match goal with H : _ || _ = false |- _ => apply orb_false_iff in H as [? ?] end.
  rewrite ?andb_false_iff, ?negb_false_iff, ?bool_decide_eq_false, ?existsb_string, ?existsb_false in *.
  split; simpl.
  - rewrite andb_true_iff, !String.eqb_eq in *. tauto.
  - rewrite String.eqb_eq, <-!eq_None_not_Some in *. done.
  - by match goal with E : url_host_str _ = _ |- _ => rewrite E end.
  - done.
  - done.
  - intros a Ha. select (∀ a, _ → negb (port a =? _) = false) (fun P => specialize (P a Ha)).
    rewrite negb_false_iff, Z.eqb_eq in *. congruence.
  - intros -> a Ha. select (_ ∨ ∀ a, _) (fun P => destruct P as [|P]; [done|specialize (P a Ha)]).
    by rewrite negb_false_iff in *.
Qed.

(** C38.  The egress filter is exact: an address counts as public iff it lies in none
    of the reserved IPv4 blocks of the table (private, loopback, link-local,
    carrier-grade NAT, documentation, benchmarking, multicast and reserved space) or, for
    IPv6, in the global unicast space outside the documentation prefix; an IPv4-mapped
    address is judged as the IPv4 address it embeds. *)
Theorem egress_filter_exact (x : IpAddr) :
  ip_ok x → is_public_ip x = true ↔ ip_allowed x.
Proof.
  destruct x; [|apply is_public_v6_spec]. simpl. rewrite !Forall_cons.
  intros (? & ? & ? & ? & _). by apply is_public_v4_spec.
Qed.

(** A resolved target is safe to contact: whatever DNS answers, a target
    that resolution returns has an https URL (or http where the policy allows it) without
    credentials, a host of the allowlist, and only public addresses, at least one, all of
    them on the URL's port, to which the client is then pinned. *)
Theorem resolved_target_is_safe raw hosts http dns t :
  resolve_public_target dns raw hosts http false = Ok t → admissible hosts http false t.
Proof. apply resolve_admissible. Qed.
End policy_claims.
