(* ===== verification/Net.v ===== *)
(** * Sockets and the monotonic clock

    A connection is what the code can observe of it: the reads the kernel will
    deliver (data, end of file, errors), how much each write accepts, what poll
    reports, the peer's credentials, and the readings of [Instant::now] (in
    nanoseconds).  All of it is a finite script chosen by the environment, so a
    theorem over every connection covers every fragmentation, stall and failure.
    An exhausted clock is a clock past every deadline; exhausted reads are end of
    file; exhausted writes and polls succeed. *)

From S2P Require Import Prelude RustStr.

(** [io::ErrorKind] as far as the code distinguishes it. *)
Inductive net_error : Type := WouldBlock | Interrupted | OtherNet.
Inductive rd : Type := RdData (b : bytes) | RdErr (k : net_error).
Inductive wr : Type := WrSome (n : nat) | WrErr (k : net_error).
Inductive poll : Type := PollReady | PollNothing | PollInterrupted.

Record conn : Type := mkConn {
  c_in : list rd;
  c_writes : list wr;
  c_out : bytes;
  c_polls : list poll;
  c_clock : list Z;
  c_peer_uid : option Z;
}.

Definition set_in x (c : conn) : conn :=
  mkConn x (c_writes c) (c_out c) (c_polls c) (c_clock c) (c_peer_uid c).
Definition set_writes x (c : conn) : conn :=
  mkConn (c_in c) x (c_out c) (c_polls c) (c_clock c) (c_peer_uid c).
Definition set_out x (c : conn) : conn :=
  mkConn (c_in c) (c_writes c) x (c_polls c) (c_clock c) (c_peer_uid c).
Definition set_polls x (c : conn) : conn :=
  mkConn (c_in c) (c_writes c) (c_out c) x (c_clock c) (c_peer_uid c).
Definition set_ticks x (c : conn) : conn :=
  mkConn (c_in c) (c_writes c) (c_out c) (c_polls c) x (c_peer_uid c).

(** An [Instant]; [None] is later than every deadline. *)
Definition instant : Type := option Z.
Definition instant_add (t : instant) (d : Z) : instant := (λ x, x + d) <$> t.

(** [Instant::now()]. *)
Definition instant_now {E} : M conn E instant := λ c,
  match c_clock c with
  | [] => (Ok None, c)
  | t :: ts => (Ok (Some t), set_ticks ts c)
  end.
(** [deadline.checked_duration_since(now)]. *)
Definition checked_duration_since (deadline now : instant) : option Z :=
  match deadline, now with
  | Some d, Some t => if t <=? d then Some (d - t) else None
  | _, _ => None
  end.

(** [stream.read(&mut buf)] with [n = buf.len()]: a delivery larger than the
    buffer stays queued. *)
Definition net_read {E} (n : nat) : M conn E (result net_error bytes) := λ c,
  match c_in c with
  | [] => (Ok (Ok []), c)
  | RdErr k :: l => (Ok (Err k), set_in l c)
  | RdData b :: l =>
      (Ok (Ok (take n b)), set_in (if (length b <=? n)%nat then l else RdData (drop n b) :: l) c)
  end.

(** [stream.write(b)]: how many bytes the kernel took. *)
Definition net_write {E} (b : bytes) : M conn E (result net_error nat) := λ c,
  match c_writes c with
  | [] => (Ok (Ok (length b)), set_out (c_out c ++ b) c)
  | WrErr k :: l => (Ok (Err k), set_writes l c)
  | WrSome n :: l =>
      (Ok (Ok (length (take n b))), set_writes l (set_out (c_out c ++ take n b) c))
  end.

(** [libc::poll] on one descriptor. *)
Definition net_poll {E} : M conn E poll := λ c,
  match c_polls c with
  | [] => (Ok PollReady, c)
  | p :: l => (Ok p, set_polls l c)
  end.

(** [write_all]: [write] until everything is taken, retrying [Interrupted]. *)
Definition write_step (rest : bytes) : M conn net_error (bytes + unit) :=
  if (length rest =? 0)%nat then mret (inr tt)
  else
    r ← net_write rest;
    match r with
    | Ok O => fail OtherNet
    | Ok n => mret (inl (drop n rest))
    | Err Interrupted => mret (inl rest)
    | Err k => fail k
    end.
Definition write_all (b : bytes) : M conn net_error unit := λ c,
  loop (length (c_writes c) + 2) OtherNet write_step b c.

(** The bytes still to be delivered. *)
Fixpoint incoming (l : list rd) : bytes :=
  match l with
  | [] => []
  | RdData b :: l => b ++ incoming l
  | RdErr _ :: l => incoming l
  end.

(** * Facts *)

(** Nothing was read, nothing written: only polls and clock readings. *)
Record idle (c c' : conn) : Prop := {
  id_in : c_in c' = c_in c;
  id_writes : c_writes c' = c_writes c;
  id_out : c_out c' = c_out c;
  id_peer : c_peer_uid c' = c_peer_uid c;
  id_ticks : (length (c_clock c') ≤ length (c_clock c))%nat;
}.
#[export] Instance idle_refl : Reflexive idle.
Proof. by split. Qed.
#[export] Instance idle_trans : Transitive idle.
Proof. intros a b c [] []. split; [congruence..|lia]. Qed.

Lemma wp_instant_now {E} (X : E → conn → Prop) c :
  wp instant_now (λ t c', idle c c' ∧ (is_Some t → (length (c_clock c') < length (c_clock c))%nat)) X c.
Proof.
  unfold wp, instant_now. destruct (c_clock c) as [|t ts] eqn:E1.
  - split; [reflexivity|]. by intros [? ?].
  - split; [|simpl; lia]. split; simpl; rewrite ?E1; simpl; (done || lia).
Qed.

(** A read takes a prefix of what is to come, of at most the buffer's size. *)
Lemma wp_net_read {E} n (X : E → conn → Prop) c :
  wp (net_read n) (λ r c', c_out c' = c_out c ∧ c_writes c' = c_writes c ∧ c_clock c' = c_clock c
     ∧ c_peer_uid c' = c_peer_uid c
     ∧ match r with
       | Ok b => incoming (c_in c) = b ++ incoming (c_in c') ∧ (length b ≤ n)%nat
       | Err _ => incoming (c_in c) = incoming (c_in c')
       end) X c.
Proof.
  unfold wp, net_read. destruct (c_in c) as [|[b|k] l] eqn:E1.
  - rewrite E1. split_and!; simpl; try done. lia.
  - destruct (Nat.leb_spec (length b) n).
    + split_and!; try done; [by rewrite take_ge by done|]. rewrite length_take. lia.
    + split_and!; try done; [|rewrite length_take; lia]. simpl. by rewrite app_assoc, take_drop.
  - done.
Qed.

Lemma wp_net_write {E} b (X : E → conn → Prop) c :
  wp (net_write b) (λ r c', c_in c' = c_in c ∧ c_clock c' = c_clock c
     ∧ (length (c_writes c') ≤ length (c_writes c))%nat
     ∧ match r with
       | Ok n => (n ≤ length b)%nat ∧ c_out c' = c_out c ++ take n b
                 ∧ (length (c_writes c') = length (c_writes c) → n = length b)
       | Err _ => c_out c' = c_out c ∧ (length (c_writes c') < length (c_writes c))%nat
       end) X c.
Proof.
  unfold wp, net_write. destruct (c_writes c) as [|[n|k] l] eqn:E1; simpl.
  - rewrite E1, take_ge by lia. done.
  - split_and!; try done; [lia|rewrite length_take; lia| |lia].
    f_equal. rewrite length_take. destruct (decide (n ≤ length b)%nat).
    + by rewrite Nat.min_l.
    + rewrite Nat.min_r by lia. rewrite !take_ge by lia. done.
  - split_and!; try done; lia.
Qed.

(** [write_all] sends everything or fails after a prefix. *)
Lemma write_all_spec b c :
  wp (write_all b) (λ _ c', c_out c' = c_out c ++ b ∧ c_in c' = c_in c)
     (λ _ c', ∃ k, c_out c' = c_out c ++ take k b ∧ c_in c' = c_in c) c.
Proof.
  unfold write_all. apply (wp_loop
    (λ rest c', ∃ k, rest = drop k b ∧ c_out c' = c_out c ++ take k b ∧ c_in c' = c_in c)
    (λ rest c', (length (c_writes c') + (if (length rest =? 0)%nat then 0 else 1))%nat));
    [|by exists 0%nat; rewrite take_0, app_nil_r|case_match; lia].
  intros rest c1 (k & -> & Ho & Hi). unfold write_step. destruct (length (drop k b) =? 0)%nat eqn:Hz.
  { wp_step. apply Nat.eqb_eq, nil_length_inv in Hz. split; [|done].
    rewrite Ho. f_equal. by rewrite <-(take_drop k b) at 2; rewrite Hz, app_nil_r. }
  wp_step. eapply wp_mono; [apply wp_net_write| |intros e c2 Hx; exact Hx].
  intros [[|n]|[]] c2 (Hi2 & _ & Hw & Hr); wp_go.
  - destruct Hr as (_ & Ho2 & _). exists k. rewrite Ho2, take_0, app_nil_r. split; congruence.
  - destruct Hr as (Hle & Ho2 & Hall). split.
    + exists (k + S n)%nat. rewrite drop_drop, Ho2, Ho, <-app_assoc, take_take_drop. split_and!; [done|done|congruence].
    + apply Nat.eqb_neq in Hz. destruct (decide (length (c_writes c2) = length (c_writes c1))) as [E1|].
      * rewrite E1, (Hall E1), drop_all. simpl. lia.
      * case_match; lia.
  - exists k. destruct Hr as [Ho2 _]. split; congruence.
  - destruct Hr as [Ho2 ?]. split; [|first [lia|rewrite Hz; lia]]. exists k. split_and!; congruence.
  - exists k. destruct Hr as [Ho2 _]. split; congruence.
Qed.
