(* ===== verification/Activity.v ===== *)
(** * Activity telemetry: [crates/tentaflake-activity/src/lib.rs]

    Validation of the host-fixed context, the framed exchange with the collector
    socket, the per-request [Guard] and the worker relay.  The event text is
    printed by serde_json ([SerdeJson]); decoding the relay's request structure is
    derived by serde and is the argument [decode_relay].  The accept loop of
    [serve_relay] is [serve_step]; [Services] has its start. *)

From S2P Require Import Prelude RustStr Json Posix Budget Net.

Record activity_config : Type := mkActivity {
  socket : string;
  server_uid : Z;
  relay_socket : option string;
  producer_uid : Z;
  producer_id : string;
  tenant_id : string;
  agent_id : string;
  run_id : string;
  workload_id : string;
  generation : Z;
  policy_revision : string;
}.

Inductive Operation : Type := Model | Tool | Enforcement.
Inductive Outcome : Type := Succeeded | Failed | Uncertain | Denied.
#[export] Instance Outcome_eq_dec : EqDecision Outcome.
Proof. solve_decision. Defined.

(** [#[serde(rename_all = "snake_case")]]. *)
Definition operation_name (o : Operation) : string :=
  match o with Model => "model" | Tool => "tool" | Enforcement => "enforcement" end.
Definition outcome_name (o : Outcome) : string :=
  match o with
  | Succeeded => "succeeded" | Failed => "failed" | Uncertain => "uncertain" | Denied => "denied"
  end.

(** ** Validation *)

(** [require_root_config] on the metadata of the opened file. *)
Definition require_root_config (n : inode) : result string unit :=
  bail_if (negb (bool_decide (i_kind n = Regular)) || negb (i_uid n =? 0)
           || negb (mode_and (i_mode n) 18 (* 0o022 *) =? 0))
    "activity requires root-owned non-writable configuration".

Definition id_byte (b : Z) : bool := is_ascii_alphanumeric b || byte_in "_.-" b.
Definition identifier (s : string) : bool :=
  negb (str_is_empty s) && (str_len s <=? 64) && all_bytes id_byte s.

Definition path_part (part : string) : bool :=
  negb (str_is_empty part) && negb ((part =? ".")%string || (part =? "..")%string)
  && all_bytes id_byte part.
Definition socket_path (s : string) : bool :=
  starts_with "/run/" s && (str_len s <? 108)
  && forallb path_part (drop 1 (split_char "/" s)).

Definition validate (c : activity_config) (agent : string) : result string unit :=
  let expected := if starts_with "agent-" agent then agent else ("agent-" ++ agent)%string in
  _ ← bail_if ((server_uid c =? 0)
               || (producer_uid c =? 0)
               || negb (agent_id c =? expected)%string
               || (generation c =? 0)
               || (9007199254740991 <? generation c)
               || negb (forallb identifier
                          [producer_id c; tenant_id c; agent_id c; run_id c; workload_id c;
                           policy_revision c])
               || negb (socket_path (socket c)))
        "invalid activity context";
  bail_if (is_some_and (λ s, negb (socket_path s)) (relay_socket c)) "invalid activity relay".

(** ** The environment of an emission *)

(** What [socket]/[connect] on a non-blocking stream does. *)
Inductive dial : Type :=
| DialFails
| DialNow (c : conn)
| DialPending (socket_error : bool) (c : conn).

Record env : Type := mkEnv {
  e_euid : Z;
  e_random : list (option bytes);    (* [getrandom]: 16 bytes or a failure *)
  e_wall : list (option Z);          (* wall clock in ms; [None]: before the epoch *)
  e_now : list Z;                    (* [Instant::now] in ns *)
  e_dials : list dial;
  e_log : list (string * bytes);     (* what was written to which socket *)
}.
Definition set_random x (e : env) := mkEnv (e_euid e) x (e_wall e) (e_now e) (e_dials e) (e_log e).
Definition set_wall x (e : env) := mkEnv (e_euid e) (e_random e) x (e_now e) (e_dials e) (e_log e).
Definition set_now x (e : env) := mkEnv (e_euid e) (e_random e) (e_wall e) x (e_dials e) (e_log e).
Definition set_dials x (e : env) := mkEnv (e_euid e) (e_random e) (e_wall e) (e_now e) x (e_log e).
Definition set_log x (e : env) := mkEnv (e_euid e) (e_random e) (e_wall e) (e_now e) (e_dials e) x.

Definition env_now {E} : M env E Z := λ e,
  match e_now e with [] => (Ok 0, e) | t :: ts => (Ok t, set_now ts e) end.
Definition ms (n : Z) : Z := n * 1000000.
Definition as_millis (d : Z) : Z := d / 1000000.

Definition hex_digit (n : Z) : Z := if n <? 10 then 48 + n else 87 + n.
Definition hex (b : bytes) : string :=
  bytes_str (concat ((λ x, [hex_digit (x / 16); hex_digit (x mod 16)]) <$> b)).

Definition unique_id : M env string string := λ e,
  match e_random e with
  | Some b :: l => if (length b =? 16)%nat then (Ok (hex b), set_random l e)
                   else (Err "activity identity unavailable"%string, set_random l e)
  | None :: l => (Err "activity identity unavailable"%string, set_random l e)
  | [] => (Err "activity identity unavailable"%string, e)
  end.

(** ** One framed exchange *)

(** One round of [ready]'s loop: break when ready, retry on [EINTR]. *)
Definition ready_step (deadline : instant) (_ : unit) : M conn string (unit + unit) :=
  now ← instant_now;
  remaining ← lift (ok_or "activity deadline" (checked_duration_since deadline now));
  let ms := Z.min (as_millis remaining) 2147483647 in
  _ ← throw_if (ms =? 0) "activity deadline";
  status ← net_poll;
  match status with
  | PollReady => mret (inr tt)
  | PollInterrupted => mret (inl tt)
  | PollNothing => fail "activity unavailable"
  end.
Definition ready (deadline : instant) : M conn string unit := λ c,
  loop (S (length (c_clock c))) "activity deadline"%string (ready_step deadline) tt c.

(** One round of [transfer]'s loop; its locals are the buffer and the offset. *)
Definition transfer_step (writing : bool) (deadline : instant) (st : bytes * nat) :
    M conn string ((bytes * nat) + bytes) :=
  let '(buf, offset) := st in
  if (length buf <=? offset)%nat then mret (inr buf)
  else
    _ ← ready deadline;
    if writing then
      r ← net_write (drop offset buf);
      match r with
      | Ok O => fail "activity closed"
      | Ok n => mret (inl (buf, offset + n)%nat)
      | Err OtherNet => fail "activity unavailable"
      | Err _ => mret (inl (buf, offset))
      end
    else
      r ← net_read (length buf - offset);
      match r with
      | Ok [] => fail "activity closed"
      | Ok d => mret (inl (take offset buf ++ d ++ drop (offset + length d) buf, offset + length d)%nat)
      | Err OtherNet => fail "activity unavailable"
      | Err _ => mret (inl (buf, offset))
      end.
Definition transfer (buf : bytes) (writing : bool) (deadline : instant) : M conn string bytes := λ c,
  loop (S (S (length (c_clock c)))) "activity deadline"%string (transfer_step writing deadline)
    (buf, 0%nat) c.

(** The system calls of [connect]: a pending connection is polled, then its
    socket error is read. *)
Definition dial_next (deadline : instant) : M env string conn := λ e,
  match e_dials e with
  | [] | DialFails :: _ => (Err "activity unavailable"%string, set_dials (tail (e_dials e)) e)
  | DialNow c :: l => (Ok c, set_dials l e)
  | DialPending failed c :: l =>
      match ready deadline c with
      | (Ok _, c') => (if failed then Err "activity unavailable"%string else Ok c', set_dials l e)
      | (Err x, _) => (Err x, set_dials l e)
      end
  end.
(** [sockaddr_un.sun_path] has 108 bytes. *)
Definition connect (path : string) (deadline : instant) : M env string conn :=
  _ ← throw_if (negb (starts_with "/" path) || contains_byte 0 path || (108 <=? str_len path))
        "activity path";
  dial_next deadline.

(** Talk on a new connection and record what was written to it. *)
Definition logged (sock : string) (m : M conn string unit) (c : conn) : M env string unit := λ e,
  match m (set_out [] c) with (r, c') => (r, set_log (e_log e ++ [(sock, c_out c')]) e) end.

Section emission.
Context `{SerdeJson}.

Definition frame_of (payload : bytes) : bytes := be_bytes 4 (blen payload) ++ payload.

(** Rust's [response["k"]]. *)
Definition index (k : string) (v : value) : value := default Null (vget k v).

Definition converse (uid : Z) (payload : bytes) (deadline : instant) : M conn string unit :=
  peer ← gets c_peer_uid;
  _ ← throw_if (negb (is_some_and (Z.eqb uid) peer)) "activity peer denied";
  _ ← transfer (be_bytes 4 (blen payload)) true deadline;
  _ ← transfer payload true deadline;
  header ← transfer [0; 0; 0; 0] false deadline;
  let length := be_value header 0 in
  _ ← throw_if ((length =? 0) || (65536 <? length)) "activity bounds";
  let n := Z.to_nat length in
  answer ← transfer (resize n 0 payload) false deadline;
  response ← lift (ok_or "activity response" (from_slice answer));
  throw_if (negb (is_some_and (Z.eqb 1) (as_u64 (index "version" response)))
            || negb (opt_str_eq (as_str (index "status" response)) "ok"))
    "activity rejected".

Definition exchange_until (sock : string) (uid : Z) (message : value) (deadline : instant) :
    M env string unit :=
  let payload := to_vec message in
  _ ← throw_if (65536 <? blen payload) "activity bounds";
  c ← connect sock deadline;
  logged sock (converse uid payload deadline) c.
Definition exchange (sock : string) (uid : Z) (message : value) (budget : Z) : M env string unit :=
  now ← env_now;
  exchange_until sock uid message (Some (now + budget)).

(** ** Events *)

Definition clamped (duration usage : Z) : list (string * value) :=
  [("duration_ms"%string, num (Z.min (as_millis duration) 86400000));
   ("usage"%string, num (Z.min usage 1000000000000))].
Definition relay_message (operation_id : string) (op : Operation) (out : Outcome)
    (duration usage : Z) : value :=
  json_obj ([("operation_id"%string, Str operation_id);
             ("operation"%string, Str (operation_name op));
             ("outcome"%string, Str (outcome_name out))] ++ clamped duration usage).
Definition event (c : activity_config) (event_id operation_id : string) (op : Operation)
    (out : Outcome) (occurred duration usage : Z) : value :=
  json_obj ([("version"%string, num 1);
             ("producer_id"%string, Str (producer_id c));
             ("event_id"%string, Str event_id);
             ("operation_id"%string, Str operation_id);
             ("tenant_id"%string, Str (tenant_id c));
             ("agent_id"%string, Str (agent_id c));
             ("run_id"%string, Str (run_id c));
             ("workload_id"%string, Str (workload_id c));
             ("generation"%string, num (generation c));
             ("policy_revision"%string, Str (policy_revision c));
             ("operation"%string, Str (operation_name op));
             ("decision"%string, Str (if decide (out = Denied) then "deny" else "allow"));
             ("outcome"%string, Str (outcome_name out));
             ("occurred_at_ms"%string, num occurred)] ++ clamped duration usage).
Definition publish_message (c : activity_config) (event_id operation_id : string)
    (op : Operation) (out : Outcome) (occurred duration usage : Z) : value :=
  json_obj [("operation"%string, Str "publish_activity"); ("version"%string, num 1);
            ("event"%string, event c event_id operation_id op out occurred duration usage)].

Definition wall_ms : M env string Z := λ e,
  match e_wall e with
  | Some t :: l => (Ok t, set_wall l e)
  | None :: l => (Err "activity clock"%string, set_wall l e)
  | [] => (Err "activity clock"%string, e)
  end.

Definition emit_until (c : activity_config) (operation_id : string) (op : Operation)
    (out : Outcome) (duration usage : Z) (deadline : instant) : M env string unit :=
  _ ← throw_if (negb (identifier operation_id)) "activity operation denied";
  euid ← gets e_euid;
  match relay_socket c with
  | Some sock =>
      _ ← throw_if (negb (euid =? 0)) "activity relay caller denied";
      exchange sock (producer_uid c) (relay_message operation_id op out duration usage) (ms 250)
  | None =>
      _ ← throw_if (negb (euid =? producer_uid c)) "activity producer denied";
      event_id ← unique_id;
      wall ← wall_ms;
      let occurred := Z.min wall 9007199254740991 in
      exchange_until (socket c) (server_uid c)
        (publish_message c event_id operation_id op out occurred duration usage) deadline
  end.
Definition emit (c : activity_config) (operation_id : string) (op : Operation) (out : Outcome)
    (duration usage : Z) : M env string unit :=
  now ← env_now;
  emit_until c operation_id op out duration usage (Some (now + ms 100)).

(** ** The guard of one request *)

Record Guard : Type := mkActGuard {
  g_config : activity_config;
  g_operation_id : string;
  g_start : Z;
  g_outcome : Outcome;
}.
Definition guard_new (c : activity_config) : M env string Guard :=
  id ← unique_id;
  now ← env_now;
  mret (mkActGuard c id now Denied).
Definition set_outcome (o : Outcome) (g : Guard) : Guard :=
  mkActGuard (g_config g) (g_operation_id g) (g_start g) o.
Definition guard_dispatched (g : Guard) : Guard := set_outcome Uncertain g.
Definition guard_finish (o : Outcome) (g : Guard) : Guard := set_outcome o g.
(** [impl Drop for Guard]: a failed publication only prints a gap. *)
Definition guard_drop (g : Guard) : M env string unit :=
  now ← env_now;
  let elapsed := Z.max 0 (now - g_start g) in
  _ ← attempt (E := string) (emit (g_config g) (g_operation_id g) Model (g_outcome g) elapsed 0);
  mret tt.

(** ** The worker relay *)

Record RelayEvent : Type := mkRelayEvent {
  r_operation_id : string;
  r_operation : Operation;
  r_outcome : Outcome;
  r_duration_ms : Z;
  r_usage : Z;
}.
Context (decode_relay : bytes → option RelayEvent).

(** The accepted stream and the environment it runs in. *)
Definition relay_state : Type := conn * env.
Definition on_stream {A} (m : M conn string A) : M relay_state string A :=
  zoom fst (λ c '(_, e), (c, e)) m.
Definition on_env {A} (m : M env string A) : M relay_state string A :=
  zoom snd (λ e '(c, _), (c, e)) m.

Definition relay_reply : bytes := str_bytes "{" ++ [34] ++ str_bytes "version" ++ [34]
  ++ str_bytes ":1," ++ [34] ++ str_bytes "status" ++ [34] ++ str_bytes ":" ++ [34]
  ++ str_bytes "ok" ++ [34] ++ str_bytes "}".

Definition relay_one (c : activity_config) : M relay_state string unit :=
  now ← on_env env_now;
  let deadline := Some (now + ms 200) in
  peer ← gets (c_peer_uid ∘ fst);
  _ ← throw_if (negb (is_some_and (Z.eqb 0) peer)) "activity relay caller denied";
  header ← on_stream (transfer [0; 0; 0; 0] false deadline);
  let length := be_value header 0 in
  _ ← throw_if ((length =? 0) || (1024 <? length)) "activity relay bounds";
  request ← on_stream (transfer (replicate (Z.to_nat length) 0) false deadline);
  ev ← lift (ok_or "activity relay context" (decode_relay request));
  _ ← throw_if (negb (identifier (r_operation_id ev)) || (86400000 <? r_duration_ms ev)
                || (1000000000000 <? r_usage ev)
                || match r_operation ev with Model => true | _ => false end)
        "activity relay event";
  _ ← on_env (emit_until c (r_operation_id ev) (r_operation ev) (r_outcome ev)
                (ms (r_duration_ms ev)) (r_usage ev) deadline);
  _ ← on_stream (transfer (be_bytes 4 (blen relay_reply)) true deadline);
  _ ← on_stream (transfer relay_reply true deadline);
  mret tt.

(** One round of the accept loop: a failed relay is a printed gap. *)
Definition serve_step (c : activity_config) (accepted : result net_error conn) :
    M env string unit := λ e,
  match accepted with
  | Ok stream => match relay_one c (stream, e) with (_, (_, e')) => (Ok tt, e') end
  | Err Interrupted => (Ok tt, e)
  | Err _ => (Err "activity relay accept"%string, e)
  end.
End emission.

(** * Facts *)

Lemma ready_spec deadline c :
  wp (ready deadline) (λ _ c', idle c c' ∧ (length (c_clock c') < length (c_clock c))%nat)
     (λ _ c', idle c c') c.
Proof.
  unfold ready. apply (wp_loop (λ _ c', idle c c') (λ _ c', length (c_clock c'))); [|reflexivity|lia].
  intros [] c1 I1. unfold ready_step. wp_step.
  wp_apply (wp_instant_now (λ _ c', idle c c')); [|done].
  intros now c2 [I2 Ht]. assert (idle c c2) as I by by etrans.
  wp_step. apply wp_lift; intros rem Hrem; [|done]. apply ok_or_Ok in Hrem.
  assert (is_Some now) as Hs by (unfold checked_duration_since in Hrem; destruct deadline, now; done).
  specialize (Ht Hs). pose proof (id_ticks _ _ I1). cbv zeta. wp_step. apply wp_throw_if; intros _; [done|].
  wp_step. apply run_wp. unfold net_poll. destruct (c_polls c2) as [|[] l]; wp_go; simpl.
  all: try (split; [|lia]). all: destruct I; by split.
Qed.

Lemma transfer_write_spec buf deadline c :
  wp (transfer buf true deadline)
    (λ b c', b = buf ∧ c_out c' = c_out c ++ buf ∧ c_in c' = c_in c)
    (λ _ c', ∃ k, c_out c' = c_out c ++ take k buf ∧ c_in c' = c_in c) c.
Proof.
  unfold transfer. apply (wp_loop
    (λ '(b, k) c', b = buf ∧ c_out c' = c_out c ++ take k buf ∧ c_in c' = c_in c)
    (λ '(b, k) c', length (c_clock c'))); [|by rewrite take_0, app_nil_r|lia].
  intros [b k] c1 (-> & Ho & Hi). unfold transfer_step.
  destruct (Nat.leb_spec (length buf) k).
  { wp_step. by rewrite take_ge in Ho by done. }
  wp_step. wp_apply (ready_spec deadline c1); [intros _ c2 [I Hlt] | intros e c2 I].
  2: { exists k. by rewrite (id_out _ _ I), (id_in _ _ I). }
  wp_step. eapply wp_mono; [apply wp_net_write| |intros e c3 Hx; exact Hx].
  intros [[|n]|[]] c3 (Hi3 & Ht & _ & Hr); wp_go.
  all: rewrite (id_in _ _ I), Hi in Hi3.
  - destruct Hr as (_ & Ho3 & _). exists k. by rewrite Ho3, take_0, app_nil_r, (id_out _ _ I).
  - destruct Hr as (_ & Ho3 & _). split; [|by rewrite Ht].
    by rewrite Ho3, (id_out _ _ I), Ho, <-app_assoc, take_take_drop.
  - destruct Hr as [Ho3 _]. by rewrite Ho3, (id_out _ _ I), Ht.
  - destruct Hr as [Ho3 _]. by rewrite Ho3, (id_out _ _ I), Ht.
  - destruct Hr as [Ho3 _]. exists k. by rewrite Ho3, (id_out _ _ I).
Qed.

Lemma transfer_read_spec buf deadline c :
  wp (transfer buf false deadline)
    (λ b c', length b = length buf ∧ incoming (c_in c) = b ++ incoming (c_in c') ∧ c_out c' = c_out c)
    (λ _ c', c_out c' = c_out c) c.
Proof.
  unfold transfer. apply (wp_loop
    (λ '(b, k) c', length b = length buf ∧ incoming (c_in c) = take k b ++ incoming (c_in c')
                   ∧ c_out c' = c_out c)
    (λ '(b, k) c', length (c_clock c'))); [|by rewrite take_0|lia].
  intros [b k] c1 (Hb & Hi & Ho). unfold transfer_step.
  destruct (Nat.leb_spec (length b) k).
  { wp_step. by rewrite take_ge in Hi by done. }
  wp_step. wp_apply (ready_spec deadline c1); [intros _ c2 [I Hlt] | intros e c2 I].
  2: by rewrite (id_out _ _ I).
  wp_step. eapply wp_mono; [apply wp_net_read| |intros e c3 Hx; exact Hx].
  intros [[|x d]|[]] c3 (Ho3 & _ & Ht & _ & Hr); rewrite (id_out _ _ I), Ho in Ho3;
    rewrite (id_in _ _ I) in Hr; wp_go; try done.
  - destruct Hr as [Hr Hlen]. rewrite Ht. split; [|done]. set (dd := x :: d) in *. split_and!; [| |done].
    + rewrite !length_app, length_take, length_drop. lia.
    + rewrite Hi, Hr, !app_assoc. f_equal. rewrite take_app_le by (rewrite length_app, length_take; lia).
      symmetry. apply take_ge. rewrite length_app, length_take. lia.
  - rewrite Ht, <-Hr. done.
  - rewrite Ht, <-Hr. done.
Qed.

Section emission_facts.
Context `{SerdeJson}.

(** What a conversation writes: a prefix of the frame, all of it on success. *)
Lemma converse_spec uid payload deadline c :
  wp (converse uid payload deadline)
    (λ _ c', c_out c' = c_out c ++ frame_of payload ∧ c_peer_uid c = Some uid)
    (λ _ c', ∃ k, c_out c' = c_out c ++ take k (frame_of payload)) c.
Proof.
  unfold converse. wp_step; wp_step. wp_step. apply wp_throw_if; intros Hp.
  { exists 0%nat. by rewrite take_0, app_nil_r. }
  assert (c_peer_uid c = Some uid) as Hpeer.
  { by apply negb_false_iff, is_some_and_eqb in Hp. }
  assert (∀ c', c_out c' = c_out c ++ frame_of payload →
    ∃ k, c_out c' = c_out c ++ take k (frame_of payload)) as Hall.
  { intros c' ->. exists (length (frame_of payload)). by rewrite take_ge. }
  wp_step. wp_apply (transfer_write_spec _ deadline c).
  2: { intros e c' (k & Ho & _). exists (k `min` 4)%nat. rewrite Ho. unfold frame_of.
       rewrite take_app_le by (rewrite length_be_bytes; lia).
       destruct (decide (k ≤ 4)%nat); [by rewrite Nat.min_l|].
       rewrite Nat.min_r, !take_ge by (rewrite ?length_be_bytes; lia). done. }
  intros _ c1 (_ & Ho1 & _). wp_step. wp_apply (transfer_write_spec _ deadline c1).
  2: { intros e c' (k & Ho & _). exists (4 + k)%nat. rewrite Ho, Ho1, <-app_assoc. unfold frame_of.
       rewrite take_app_ge by (rewrite length_be_bytes; lia). rewrite length_be_bytes.
       by replace (4 + k - 4)%nat with k by lia. }
  intros _ c2 (_ & Ho2 & _).
  assert (c_out c2 = c_out c ++ frame_of payload) as Hfull by by rewrite Ho2, Ho1, <-app_assoc.
  wp_step. wp_apply (transfer_read_spec _ deadline c2).
  2: { intros e c3 Ho3. apply Hall. congruence. }
  intros header c3 (_ & _ & Ho3). rewrite Hfull in Ho3. cbv zeta.
  wp_step. apply wp_throw_if; intros _; [by apply Hall|].
  wp_step. wp_apply (transfer_read_spec _ deadline c3).
  2: { intros e c4 Ho4. apply Hall. congruence. }
  intros answer c4 (_ & _ & Ho4). rewrite Ho3 in Ho4.
  wp_step. apply wp_lift; intros response _; [|by apply Hall].
  apply wp_throw_if; intros _; [by apply Hall|done].
Qed.

(** The log only grows, by at most one entry for [sock], a prefix of [payload]'s
    frame. *)
Definition at_most_sent (sock : string) (payload : bytes) (e e' : env) : Prop :=
  e_log e' = e_log e ∨ ∃ k, e_log e' = e_log e ++ [(sock, take k (frame_of payload))].

Lemma dial_log deadline e :
  wp (dial_next deadline) (λ _ e', e_log e' = e_log e ∧ e_euid e' = e_euid e)
     (λ _ e', e_log e' = e_log e) e.
Proof.
  unfold wp, dial_next. destruct (e_dials e) as [|[|c|failed c] l]; try done.
  destruct (ready deadline c) as [[?|?] c']; [by destruct failed|done].
Qed.

Lemma exchange_until_spec sock uid message deadline e :
  let payload := to_vec message in
  wp (exchange_until sock uid message deadline)
    (λ _ e', e_log e' = e_log e ++ [(sock, frame_of payload)] ∧ blen payload ≤ 65536)
    (λ _ e', at_most_sent sock payload e e') e.
Proof.
  intros payload. unfold exchange_until. cbv zeta. fold payload. wp_step.
  apply wp_throw_if; intros Hlen; [by left|]. apply Z.ltb_ge in Hlen.
  wp_step. unfold connect. wp_step. apply wp_throw_if; intros _; [by left|].
  wp_apply (dial_log deadline e); [|by left].
  intros c e1 [Hl _]. unfold logged. pose proof (converse_spec uid payload deadline (set_out [] c)) as Hc.
  apply run_wp. unfold wp in Hc. destruct (converse _ _ _ _) as [[[]|x] c']; simpl.
  - destruct Hc as [-> _]. by rewrite Hl.
  - destruct Hc as [k ->]. right. exists k. by rewrite Hl.
Qed.

(** A publication: one frame on the collector's socket whose event carries the
    identity of the configuration; a failed one left at most a prefix of it. *)
Definition wire (c : activity_config) (event_id id : string) (op : Operation) (out : Outcome)
    (occurred d u : Z) : bytes :=
  frame_of (to_vec (publish_message c event_id id op out occurred d u)).
Definition published c id op out d u (e e' : env) : Prop :=
  ∃ event_id occurred, e_log e' = e_log e ++ [(socket c, wire c event_id id op out occurred d u)].
Definition partly_published c id op out d u (e e' : env) : Prop :=
  e_log e' = e_log e ∨
  ∃ event_id occurred k,
    e_log e' = e_log e ++ [(socket c, take k (wire c event_id id op out occurred d u))].

Lemma unique_id_log e :
  wp unique_id (λ _ e', e_log e' = e_log e) (λ _ e', e_log e' = e_log e) e.
Proof. unfold wp, unique_id. destruct (e_random e) as [|[b|] l]; try done. by destruct (length b =? 16)%nat. Qed.
Lemma wall_ms_log e : wp wall_ms (λ _ e', e_log e' = e_log e) (λ _ e', e_log e' = e_log e) e.
Proof. unfold wp, wall_ms. by destruct (e_wall e) as [|[t|] l]. Qed.

Lemma emit_until_spec c id op out d u deadline e :
  relay_socket c = None →
  wp (emit_until c id op out d u deadline)
    (λ _ e', published c id op out d u e e' ∧ e_euid e = producer_uid c ∧ identifier id = true)
    (λ _ e', partly_published c id op out d u e e') e.
Proof.
  intros Hr. unfold emit_until. rewrite Hr. wp_step. apply wp_throw_if; intros Hid; [by left|].
  apply negb_false_iff in Hid. wp_step; wp_step. wp_step. apply wp_throw_if; intros Hu; [by left|].
  apply negb_false_iff, Z.eqb_eq in Hu. wp_step.
  wp_apply (unique_id_log e); [|by left]. intros ev e1 L1. wp_step.
  wp_apply (wall_ms_log e1); [|left; congruence]. intros t e2 L2. cbv zeta.
  wp_apply (exchange_until_spec _ _ _ _ _).
  - intros _ e3 [L3 _]. split; [|done]. exists ev, (Z.min t 9007199254740991). by rewrite L3, L2, L1.
  - intros x e3 [L3|(k & L3)]; [left; congruence|right].
    exists ev, (Z.min t 9007199254740991), k. by rewrite L3, L2, L1.
Qed.

(** ** Validated paths *)

Lemma split_char_bytes c s p :
  p (byte_of c) = true → forallb (all_bytes p) (split_char c s) = true → all_bytes p s = true.
Proof.
  intros Hc. unfold all_bytes. induction s as [|a s IH]; simpl; [done|].
  destruct (Ascii.eqb_spec a c) as [->|Hne]; simpl.
  - intros Hs. by rewrite Hc, IH.
  - destruct (split_char c s) as [|x xs] eqn:E; simpl; [by pose proof (split_char_ne c s)|].
    rewrite !andb_true_iff. intros [[-> Hx] Hxs]. split; [done|]. apply IH. simpl.
    by rewrite Hx, Hxs.
Qed.

Lemma socket_path_connectable s :
  socket_path s = true →
  starts_with "/" s = true ∧ contains_byte 0 s = false ∧ str_len s < 108.
Proof.
  unfold socket_path. rewrite !andb_true_iff, Z.ltb_lt. intros [[Hs Hl] Hp].
  unfold starts_with in *. destruct (strip_prefix "/run/" s) as [r|] eqn:E; [|done].
  apply strip_prefix_Some in E as ->. split_and!; [done| |done].
  unfold contains_byte. rewrite existsb_false. intros x Hx.
  apply Z.eqb_neq. intros <-.
  assert (all_bytes (λ b, negb (b =? 0)) ("/run/" ++ r) = true) as Ha.
  { apply (split_char_bytes "/"); [done|].
    change (split_char "/" ("/run/" ++ r)) with (""%string :: "run"%string :: split_char "/" r) in *.
    change (forallb path_part (split_char "/" r) = true) in Hp.
    change (forallb (all_bytes (λ b, negb (b =? 0))) (split_char "/" r) = true).
    apply forallb_forall. intros y Hy. rewrite forallb_forall in Hp. specialize (Hp y Hy).
    unfold path_part in Hp. rewrite !andb_true_iff in Hp. destruct Hp as [_ Hy'].
    unfold all_bytes in *. rewrite forallb_forall in Hy' |- *. intros b Hb. specialize (Hy' b Hb).
    destruct (Z.eqb_spec b 0) as [->|]; done. }
  unfold all_bytes in Ha. rewrite forallb_elem in Ha. by specialize (Ha _ Hx).
Qed.

(** ** The relay *)

Context (decode_relay : bytes → option RelayEvent).

(** The events a relay forwards: bounded, and never of the broker's own kind. *)
Record relayed (ev : RelayEvent) : Prop := {
  re_id : identifier (r_operation_id ev) = true;
  re_duration : r_duration_ms ev ≤ 86400000;
  re_usage : r_usage ev ≤ 1000000000000;
  re_kind : r_operation ev ≠ Model;
}.

(** Either nothing was acknowledged and at most a prefix published, or the event
    was published in full before the first reply byte. *)
Definition ack_after_publish (c : activity_config) (s e : relay_state) : Prop :=
  c_out (fst e) = c_out (fst s) ∨
  c_peer_uid (fst s) = Some 0 ∧ ∃ ev, relayed ev ∧
    published c (r_operation_id ev) (r_operation ev) (r_outcome ev) (ms (r_duration_ms ev))
      (r_usage ev) (snd s) (snd e).

Lemma env_now_log {E} (X : E → env → Prop) e : wp env_now (λ _ e', e_log e' = e_log e) X e.
Proof. unfold wp, env_now. by destruct (e_now e). Qed.

Lemma relay_event_ok ev :
  negb (identifier (r_operation_id ev)) || (86400000 <? r_duration_ms ev)
  || (1000000000000 <? r_usage ev)
  || match r_operation ev with Model => true | _ => false end = false → relayed ev.
Proof.
  rewrite !orb_false_iff, negb_false_iff, !Z.ltb_ge. intros [[[? ?] ?] Ho].
  split; try done. intros E. by rewrite E in Ho.
Qed.

Lemma relay_one_spec c s :
  relay_socket c = None →
  wp (relay_one decode_relay c)
    (λ _ s', c_out (fst s') = c_out (fst s) ++ frame_of relay_reply ∧ ack_after_publish c s s')
    (λ _ s', ack_after_publish c s s') s.
Proof.
  intros Hr. destruct s as [k e]. unfold relay_one, on_stream, on_env.
  wp_step; wp_step. wp_apply (env_now_log (λ _ _, False) e); [|done]. intros now e1 L1. cbv zeta.
  wp_step; wp_step. wp_step. apply wp_throw_if; intros Hp; [by left|]. cbn [fst compose] in Hp.
  assert (c_peer_uid k = Some 0) as Hpeer.
  { by apply negb_false_iff, is_some_and_eqb in Hp. }
  wp_step; wp_step. wp_apply (transfer_read_spec _ _ k); [|intros x k' Ho; by left].
  intros header k1 (_ & _ & Ho1). wp_step. apply wp_throw_if; intros _; [by left|].
  wp_step; wp_step. wp_apply (transfer_read_spec _ _ k1); [|intros x k' Ho; left; simpl; congruence].
  intros request k2 (_ & _ & Ho2). assert (c_out k2 = c_out k) as Ho by congruence.
  wp_step. apply wp_lift; intros ev _; [|by left].
  wp_step. apply wp_throw_if; intros Hev; [by left|]. apply relay_event_ok in Hev.
  wp_step; wp_step. simpl. wp_apply (emit_until_spec c _ _ _ _ _ _ e1 Hr); [|intros x e2 _; by left].
  intros _ e2 [Hpub _].
  assert (∀ k', ack_after_publish c (k, e) (k', e2)) as Hack.
  { intros k'. right. split; [done|]. exists ev. split; [done|].
    destruct Hpub as (event_id & occurred & L2). exists event_id, occurred.
    simpl. by rewrite L2, L1. }
  wp_step; wp_step. wp_apply (transfer_write_spec _ _ k2); [|by intros x k3 _].
  intros _ k3 (_ & Ho3 & _).
  wp_step; wp_step. wp_apply (transfer_write_spec _ _ k3); [|by intros x k4 _].
  intros _ k4 (_ & Ho4 & _). wp_step. split; [|apply Hack]. simpl.
  by rewrite Ho4, Ho3, Ho, <-app_assoc.
Qed.

(** ** Claims *)

(** Telemetry cannot be forged or widened by a caller: whatever the
    network does, an emission writes to the configured collector socket only, and
    what it writes is a prefix of one frame whose event carries the tenant, agent,
    run, workload, generation and policy of the host configuration; it reports
    success only when the whole frame was written by the configured producer. *)
Theorem emission_is_bound_to_config c id op out d u deadline e r e' :
  relay_socket c = None → emit_until c id op out d u deadline e = (r, e') →
  match r with
  | Ok _ => published c id op out d u e e' ∧ e_euid e = producer_uid c ∧ identifier id = true
  | Err _ => partly_published c id op out d u e e'
  end.
Proof.
  intros Hc Hrun. exact (wp_run _ _ _ _ _ _ (emit_until_spec c id op out d u deadline e Hc) Hrun).
Qed.

(** The worker relay acknowledges only what it published: no reply byte is
    written unless the caller is root, the event passed the relay's bounds and is
    not a model event, and its publication succeeded in full; a successful relay
    wrote exactly the framed acknowledgement. *)
Theorem relay_acknowledges_only_published c s r s' :
  relay_socket c = None → relay_one decode_relay c s = (r, s') →
  ack_after_publish c s s' ∧
  (is_ok r = true → c_out (fst s') = c_out (fst s) ++ frame_of relay_reply).
Proof.
  intros Hc Hrun. pose proof (wp_run _ _ _ _ _ _ (relay_one_spec c s Hc) Hrun) as Hp.
  destruct r; [|done]. by destruct Hp.
Qed.

(** A validated configuration never fails on its socket path: for every
    accepted context the collector path (and the relay path, if set) is absolute,
    free of NUL and short enough for [sockaddr_un], so [connect] goes straight to
    the system calls. *)
Theorem validated_paths_connect c agent deadline e :
  validate c agent = Ok () →
  connect (socket c) deadline e = dial_next deadline e ∧
  ∀ s, relay_socket c = Some s → connect s deadline e = dial_next deadline e.
Proof.
  intros Hv. unfold validate in Hv. inv_ok.
  assert (∀ s, socket_path s = true → connect s deadline e = dial_next deadline e) as Hc.
  { intros s (Hs & Hz & Hl)%socket_path_connectable. unfold connect, throw_if, mbind, M_bind, lift.
    rewrite Hs, Hz. destruct (Z.leb_spec 108 (str_len s)); [lia|done]. }
  repeat match goal with H : _ || _ = false |- _ => apply orb_false_iff in H as [? ?] end.
  split.
  - apply Hc. by rewrite <-negb_false_iff.
  - intros s Hs. rewrite Hs in *. simpl in *. apply Hc. by rewrite <-negb_false_iff.
Qed.
End emission_facts.
