(* ===== verification/Config.v ===== *)
(** * Broker configuration: [crates/tentaflake-broker/src/config.rs]

    The configuration records with the defaults the source declares, credential
    path expansion and validation.  Decoding the JSON file into the records is
    derived by serde: it is the argument [decode_config] of [load]. *)

From S2P Require Import Prelude RustStr Json Posix Policy Net Activity.

Record StreamingPolicy : Type := mkStreaming {
  enable : bool;
  max_event_bytes : Z;
  first_event_timeout_seconds : Z;
  idle_timeout_seconds : Z;
  total_timeout_seconds : Z;
}.
Definition StreamingPolicy_default : StreamingPolicy := mkStreaming false (64 * 1024) 30 30 120.

Record ModelPolicy : Type := mkModel {
  name : string;
  input_microusd_per_million : Z;
  output_microusd_per_million : Z;
}.
Record LlmPolicy : Type := mkLlm {
  upstream_base_url : string;
  provider_credential_file : string;
  allowed_models : list ModelPolicy;
  max_completion_tokens : Z;
  strict_cost_envelope : bool;
  streaming : StreamingPolicy;
  allow_plain_http_for_tests : bool;
}.
Record FetchPolicy : Type := mkFetch {
  allowed_hosts : list string;
  allowed_content_types : list string;
  quarantine_dir : string;
  max_quarantine_bytes : Z;
  max_quarantine_entries : Z;
  max_redirects : Z;
}.
Record Config : Type := mkConfig {
  agent : string;
  activity : option activity_config;
  listen : SocketAddr;
  token_file : string;
  audit_file : string;
  budget_state_file : string;
  max_request_bytes : Z;
  max_response_bytes : Z;
  max_header_bytes : Z;
  timeout_seconds : Z;
  connect_timeout_seconds : Z;
  max_concurrency : Z;
  rate_window_seconds : Z;
  max_requests_per_window : Z;
  daily_request_budget : Z;
  daily_token_budget : Z;
  daily_cost_microusd : Z;
  max_audit_bytes : Z;
  llm : option LlmPolicy;
  fetch : option FetchPolicy;
}.

(** ** Defaults *)

Definition default_quarantine_bytes : Z := 64 * 1024 * 1024.
Definition default_quarantine_entries : Z := 1024.
Definition default_request_bytes : Z := 1024 * 1024.
Definition default_response_bytes : Z := 8 * 1024 * 1024.
Definition default_header_bytes : Z := 32 * 1024.
Definition default_timeout_seconds : Z := 60.
Definition default_connect_timeout_seconds : Z := 10.
Definition default_concurrency : Z := 4.
Definition default_window_seconds : Z := 60.
Definition default_requests_per_window : Z := 30.
Definition default_daily_requests : Z := 1000.
Definition default_daily_tokens : Z := 1000000.
Definition default_daily_cost : Z := 10000000.
Definition default_audit_bytes : Z := 32 * 1024 * 1024.
Definition default_max_completion_tokens : Z := 4096.
Definition default_redirects : Z := 3.
Definition default_content_types : list string :=
  ["application/json"%string; "application/xml"%string; "text/html"%string;
   "text/plain"%string; "text/xml"%string].

(** ** Names and paths *)

(** [Path::is_absolute] and a [ParentDir] component. *)
Definition path_is_absolute (p : string) : bool := starts_with "/" p.
Definition has_parent_dir (p : string) : bool := existsb (String.eqb "..") (split_char "/" p).
Definition require_absolute_runtime_path (p : string) : result string unit :=
  bail_if (negb (path_is_absolute p) || has_parent_dir p)
    "broker path must be absolute without traversal".

(** The byte test of [valid_agent_name], which depends on the position. *)
Fixpoint agent_bytes (first : bool) (l : bytes) : bool :=
  match l with
  | [] => true
  | b :: l' =>
      (is_ascii_lowercase b || is_ascii_digit b
       || ((b =? 45) && negb first && negb (bool_decide (l' = []))))
      && agent_bytes false l'
  end.
Definition valid_agent_name (v : string) : bool :=
  negb (str_is_empty v) && (str_len v <=? 63) && agent_bytes true (str_bytes v).

Definition valid_label (label : string) : bool :=
  negb (str_is_empty label) && (str_len label <=? 63)
  && negb (starts_with "-" label) && negb (ends_with "-" label)
  && all_bytes (λ b, is_ascii_alphanumeric b || (b =? 45)) label.
Definition valid_hostname (v : string) : bool :=
  negb (str_is_empty v) && (str_len v <=? 253) && (v =? to_ascii_lowercase v)%string
  && forallb valid_label (split_char "." v).

Definition is_loopback_v4 (a b c d : Z) : bool := a =? 127.
Definition is_private_v4 (a b c d : Z) : bool :=
  (a =? 10) || ((a =? 172) && in_range 16 31 b) || ((a =? 192) && (b =? 168)).
Definition is_loopback_v6 (s0 s1 s2 s3 s4 s5 s6 s7 : Z) : bool :=
  (s0 =? 0) && (s1 =? 0) && (s2 =? 0) && (s3 =? 0) && (s4 =? 0) && (s5 =? 0) && (s6 =? 0) && (s7 =? 1).
Definition is_private_listener (x : IpAddr) : bool :=
  match x with
  | V4 a b c d => is_loopback_v4 a b c d || is_private_v4 a b c d
  | V6 s0 s1 s2 s3 s4 s5 s6 s7 =>
      is_loopback_v6 s0 s1 s2 s3 s4 s5 s6 s7
      || (Z.land s0 65024 (* 0xfe00 *) =? 64512 (* 0xfc00 *))
  end.

(** [PathBuf::join] with a relative path. *)
Definition path_join (dir rel : string) : string :=
  if str_is_empty dir || ends_with "/" dir then (dir ++ rel)%string else (dir ++ "/" ++ rel)%string.

Definition CREDENTIALS_PREFIX : string := "$CREDENTIALS_DIRECTORY/".
(** [directory]: the environment variable [CREDENTIALS_DIRECTORY]. *)
Definition expand_credential_path (directory : option string) (path : string) :
    result string string :=
  match strip_prefix CREDENTIALS_PREFIX path with
  | None => Ok path
  | Some relative =>
      _ ← bail_if (str_is_empty relative || contains_byte 47 relative || contains_str ".." relative)
            "credential path substitution requires one safe file name";
      directory ← ok_or "CREDENTIALS_DIRECTORY is required by broker config" directory;
      Ok (path_join directory relative)
  end.

Definition set_token_file (x : string) (c : Config) : Config :=
  mkConfig (agent c) (activity c) (listen c) x (audit_file c) (budget_state_file c)
    (max_request_bytes c) (max_response_bytes c) (max_header_bytes c) (timeout_seconds c)
    (connect_timeout_seconds c) (max_concurrency c) (rate_window_seconds c)
    (max_requests_per_window c) (daily_request_budget c) (daily_token_budget c)
    (daily_cost_microusd c) (max_audit_bytes c) (llm c) (fetch c).
Definition set_llm (x : option LlmPolicy) (c : Config) : Config :=
  mkConfig (agent c) (activity c) (listen c) (token_file c) (audit_file c) (budget_state_file c)
    (max_request_bytes c) (max_response_bytes c) (max_header_bytes c) (timeout_seconds c)
    (connect_timeout_seconds c) (max_concurrency c) (rate_window_seconds c)
    (max_requests_per_window c) (daily_request_budget c) (daily_token_budget c)
    (daily_cost_microusd c) (max_audit_bytes c) x (fetch c).
Definition expand_credential_paths (directory : option string) (c : Config) :
    result string Config :=
  token ← expand_credential_path directory (token_file c);
  let c := set_token_file token c in
  match llm c with
  | None => Ok c
  | Some p =>
      credential ← expand_credential_path directory (provider_credential_file p);
      Ok (set_llm (Some (mkLlm (upstream_base_url p) credential (allowed_models p)
                           (max_completion_tokens p) (strict_cost_envelope p) (streaming p)
                           (allow_plain_http_for_tests p))) c)
  end.

Section validation.
Context `{UrlLib}.

(** The loop over [allowed_models]; [seen] is the set [model_names]. *)
Fixpoint validate_models (seen : list string) (l : list ModelPolicy) : result string unit :=
  match l with
  | [] => Ok tt
  | m :: l =>
      _ ← bail_if (str_is_empty (name m) || (200 <? str_len (name m))
                   || existsb is_control (chars (name m)) || str_in (name m) seen
                   || (input_microusd_per_million m =? 0) || (output_microusd_per_million m =? 0))
            "llm models require unique bounded names and positive input/output prices";
      validate_models (name m :: seen) l
  end.
Definition validate_llm (p : LlmPolicy) : result string unit :=
  _ ← require_absolute_runtime_path (provider_credential_file p);
  u ← ok_or "llm upstream_base_url is not a valid URL" (url_parse (upstream_base_url p));
  _ ← bail_if (negb (url_scheme u =? "https")%string
               && negb (allow_plain_http_for_tests p && (url_scheme u =? "http")%string))
        "llm upstream requires HTTPS";
  _ ← bail_if (is_none (url_host_str u) || url_cannot_be_a_base u
               || negb (url_username u =? "")%string || is_some (url_password u)
               || is_some (url_query u) || is_some (url_fragment u)
               || negb (ends_with "/" (url_path u)))
        "llm upstream URL requires a host and trailing slash, without credentials, query, or fragment";
  _ ← bail_if (bool_decide (length (allowed_models p) = 0%nat) || (max_completion_tokens p =? 0))
        "llm policy requires models and a positive completion-token limit";
  validate_models [] (allowed_models p).

Definition validate_fetch (p : FetchPolicy) : result string unit :=
  _ ← require_absolute_runtime_path (quarantine_dir p);
  _ ← bail_if ((max_quarantine_bytes p =? 0) || (max_quarantine_entries p =? 0))
        "quarantine byte and entry limits must be positive";
  _ ← bail_if (bool_decide (allowed_hosts p = []) || bool_decide (allowed_content_types p = []))
        "fetch policy requires non-empty host and content-type allowlists";
  _ ← bail_if (negb (forallb valid_hostname (allowed_hosts p))) "invalid exact fetch hostname";
  _ ← bail_if (existsb (λ t, str_is_empty t || negb (t =? to_ascii_lowercase t)%string
                             || contains_byte 42 t || contains_byte 59 t
                             || negb (contains_byte 47 t)) (allowed_content_types p))
        "fetch content types must be exact lowercase media types";
  bail_if (10 <? max_redirects p) "fetch max_redirects may not exceed 10".

Definition validate_activity (c : Config) (euid : Z) : result string unit :=
  match activity c with
  | None => Ok tt
  | Some a =>
      _ ← Activity.validate a (agent c);
      bail_if (is_some (relay_socket a) || negb (euid =? producer_uid a))
        "broker activity requires its fixed non-root service UID"
  end.
Definition validate_limits (c : Config) : result string unit :=
  bail_if (existsb (Z.eqb 0)
    [max_request_bytes c; max_response_bytes c; max_header_bytes c; timeout_seconds c;
     connect_timeout_seconds c; max_concurrency c; rate_window_seconds c;
     max_requests_per_window c; daily_request_budget c; daily_token_budget c;
     daily_cost_microusd c; max_audit_bytes c])
    "broker limits must all be positive".
Definition validate_streaming (s : StreamingPolicy) (max_response_bytes : Z) :
    result string unit :=
  bail_if ((max_event_bytes s =? 0) || (first_event_timeout_seconds s =? 0)
           || (idle_timeout_seconds s =? 0) || (total_timeout_seconds s =? 0)
           || (total_timeout_seconds s <? first_event_timeout_seconds s)
           || (total_timeout_seconds s <? idle_timeout_seconds s)
           || (enable s && (max_response_bytes <? max_event_bytes s)))
    "streaming limits must be positive and fit the response/time ceilings".

Definition validate (c : Config) (euid : Z) : result string unit :=
  _ ← validate_activity c euid;
  _ ← bail_if (negb (valid_agent_name (agent c)))
        "agent must contain only lowercase ASCII letters, digits, and hyphens";
  _ ← bail_if (negb (is_private_listener (ip (listen c))))
        "listen must use loopback or a dedicated private broker-network address";
  _ ← require_absolute_runtime_path (token_file c);
  _ ← require_absolute_runtime_path (audit_file c);
  _ ← require_absolute_runtime_path (budget_state_file c);
  _ ← validate_limits c;
  _ ← match llm c, fetch c with
      | Some _, Some _ => Err "one broker process may be llm or fetch, never both"%string
      | None, None => Err "broker config requires exactly one of llm or fetch"%string
      | _, _ => Ok tt
      end;
  _ ← match llm c with
      | None => Ok tt
      | Some p => _ ← validate_llm p; validate_streaming (streaming p) (max_response_bytes c)
      end;
  match fetch c with None => Ok tt | Some p => validate_fetch p end.

Definition load (decode_config : bytes → option Config) (directory : option string)
    (path : string) : M world string Config :=
  file ← map_err (λ _, "cannot read broker config"%string) (sys_open_follow path);
  config ← lift (ok_or "invalid broker config" (decode_config (i_data file)));
  _ ← match activity config with
      | Some _ => lift (require_root_config file)
      | None => mret tt
      end;
  config ← lift (expand_credential_paths directory config);
  euid ← gets w_euid;
  _ ← lift (validate config euid);
  mret config.
End validation.

(** * Facts *)

(** A listener the broker accepts is never an address its egress filter would
    let it contact. *)
Lemma private_listener_not_public x :
  ip_ok x → is_private_listener x = true → is_public_ip x = false.
Proof.
  destruct x as [a b c d|s0 s1 s2 s3 s4 s5 s6 s7]; simpl; intros Hok Hp.
  - unfold is_loopback_v4, is_private_v4 in Hp. unfold is_public_v4. apply negb_false_iff.
    destruct (a =? 127) eqn:E; [by rewrite !orb_true_r|].
    rewrite !orb_true_iff, !andb_true_iff, !Z.eqb_eq in Hp.
    destruct Hp as [Hp|[[->|[-> Hb]]|[-> ->]]]; [done| |rewrite Hb|]; by rewrite ?orb_true_r.
  - rewrite !Forall_cons in Hok. destruct Hok as [H0 _].
    assert (s0 = 0 ∧ s5 = 0 ∨ 64512 ≤ s0) as Hs.
    { unfold is_loopback_v6 in Hp. rewrite orb_true_iff, !andb_true_iff, !Z.eqb_eq in Hp.
      destruct Hp as [Hp|Hp]; [left; tauto|right].
      change 65024 with (Z.land (Z.ones 16) (Z.lnot (Z.ones 9))) in Hp.
      rewrite land_mask in Hp by lia. change (2 ^ 9) with 512 in Hp.
      pose proof (Z.div_mod s0 512 ltac:(lia)). pose proof (Z.mod_pos_bound s0 512 ltac:(lia)). lia. }
    unfold is_public_v6. destruct (to_ipv4_mapped _ _ _ _ _ _ _ _) as [q|] eqn:E.
    { apply to_ipv4_mapped_Some in E. lia. }
    rewrite top_bits_2000 by done. unfold in_range.
    destruct (Z.leb_spec 8192 s0), (Z.leb_spec s0 16383); (done || lia).
Qed.

Lemma has_parent_dir_sep s t :
  has_parent_dir (s +:+ String "/" t) = has_parent_dir s || has_parent_dir t.
Proof. unfold has_parent_dir. by rewrite split_char_sep, existsb_app. Qed.

(** Without a separator and without "..", a name is one ordinary component. *)
Lemma safe_name_component r :
  contains_byte 47 r = false → contains_str ".." r = false → has_parent_dir r = false.
Proof.
  intros Hs Hd. unfold has_parent_dir. rewrite (split_char_none "/" r Hs). cbn [existsb]. rewrite orb_false_r.
  apply String.eqb_neq. intros <-. done.
Qed.

Lemma join_shape dir rel :
  dir ≠ EmptyString → ∃ d, path_join dir rel = d +:+ String "/" rel ∧ (dir = d ∨ dir = d +:+ "/").
Proof.
  intros Hne. unfold path_join, str_is_empty. apply String.eqb_neq in Hne as ->.
  unfold ends_with. destruct (strip_suffix "/" dir) as [d|] eqn:E; simpl; [|by exists dir; eauto].
  apply strip_suffix_Some in E as ->. exists d. split; [|by right].
  apply str_bytes_inj. change ((d +:+ "/") ++ rel)%string with ((d +:+ "/") +:+ rel).
  by rewrite !str_bytes_app, <-app_assoc.
Qed.

Lemma starts_with_app p s t : starts_with p s = true → starts_with p (s +:+ t) = true.
Proof.
  unfold starts_with. destruct (strip_prefix p s) as [r|] eqn:E; [|done]. intros _.
  apply strip_prefix_Some in E as ->.
  assert (strip_prefix p ((p ++ r) +:+ t)%string = Some (r +:+ t)) as ->; [|done].
  apply strip_prefix_Some, str_bytes_inj.
  change (p ++ (r +:+ t))%string with (p +:+ (r +:+ t)). change (p ++ r)%string with (p +:+ r).
  by rewrite !str_bytes_app, app_assoc.
Qed.

Lemma validate_models_ok l seen :
  validate_models seen l = Ok () →
  Forall (λ m, name m ≠ ""%string ∧ str_len (name m) ≤ 200
               ∧ input_microusd_per_million m ≠ 0 ∧ output_microusd_per_million m ≠ 0) l
  ∧ NoDup (name <$> l) ∧ ∀ x, x ∈ name <$> l → x ∉ seen.
Proof.
  revert seen. induction l as [|m l IH]; intros seen Hv; simpl in Hv.
  { split_and!; [done|constructor|set_solver]. }
  inv_ok. repeat match goal with H : _ || _ = false |- _ => apply orb_false_iff in H as [? ?] end.
  destruct (IH _ Hv) as (Hf & Hn & Hs).
  assert (name m ∉ seen) as Hm. { rewrite <-str_in_elem. congruence. }
  unfold str_is_empty in *. reflect. split_and!.
  - constructor; [|done]. split_and!; (done || lia).
  - simpl. constructor; [|done]. intros Hin. specialize (Hs _ Hin). set_solver.
  - intros y Hx. simpl in Hx. apply list_elem_of_In in Hx as [<-|Hx]; [done|].
    apply list_elem_of_In in Hx. specialize (Hs _ Hx). set_solver.
Qed.

Section config_facts.
Context `{UrlLib}.

(** What the rest of the broker relies on after a successful [load]. *)
Record sound (c : Config) : Prop := {
  so_listen : ip_ok (ip (listen c)) → is_public_ip (ip (listen c)) = false;
  so_limits : Forall (λ x, x ≠ 0) [max_request_bytes c; max_response_bytes c; max_header_bytes c;
    timeout_seconds c; connect_timeout_seconds c; max_concurrency c; rate_window_seconds c;
    max_requests_per_window c; daily_request_budget c; daily_token_budget c;
    daily_cost_microusd c; max_audit_bytes c];
  so_role : (is_Some (llm c) ∧ fetch c = None) ∨ (llm c = None ∧ is_Some (fetch c));
  so_llm p : llm c = Some p →
    max_completion_tokens p ≠ 0 ∧ allowed_models p ≠ []
    ∧ NoDup (name <$> allowed_models p)
    ∧ Forall (λ m, input_microusd_per_million m ≠ 0 ∧ output_microusd_per_million m ≠ 0)
        (allowed_models p)
    ∧ (enable (streaming p) = true → max_event_bytes (streaming p) ≤ max_response_bytes c);
  so_fetch p : fetch c = Some p →
    max_redirects p ≤ 10 ∧ max_quarantine_bytes p ≠ 0 ∧ max_quarantine_entries p ≠ 0
    ∧ Forall (λ h, valid_hostname h = true ∧ h = to_ascii_lowercase h) (allowed_hosts p);
}.

Lemma validate_llm_sound p :
  validate_llm p = Ok () →
  max_completion_tokens p ≠ 0 ∧ allowed_models p ≠ [] ∧ NoDup (name <$> allowed_models p)
  ∧ Forall (λ m, input_microusd_per_million m ≠ 0 ∧ output_microusd_per_million m ≠ 0)
      (allowed_models p).
Proof.
  unfold validate_llm. intros Hv. inv_ok. apply validate_models_ok in Hv as (Hf & Hn & _).
  select (bool_decide _ || _ = false) (fun P => apply orb_false_iff in P as [P1 P2]).
  reflect. split_and!; [done|by intros E; rewrite E in P1|done|].
  eapply Forall_impl; [exact Hf|]. by intros m (_ & _ & ? & ?).
Qed.

Lemma validate_fetch_sound p :
  validate_fetch p = Ok () →
  max_redirects p ≤ 10 ∧ max_quarantine_bytes p ≠ 0 ∧ max_quarantine_entries p ≠ 0
  ∧ Forall (λ h, valid_hostname h = true ∧ h = to_ascii_lowercase h) (allowed_hosts p).
Proof.
  unfold validate_fetch. intros Hv. inv_ok. reflect. split_and!; try done.
  apply Forall_forall. intros h Hh.
  select (forallb valid_hostname _ = true) (fun P => rewrite forallb_elem in P; specialize (P h Hh)).
  split; [done|]. unfold valid_hostname in *. rewrite !andb_true_iff, String.eqb_eq in *. tauto.
Qed.

(** A configuration that passes validation is one the rest of the broker is
    safe with: its listener is never an address the egress filter calls public,
    every limit is positive, it is exactly one of an LLM or a fetch broker, LLM
    models have unique names and positive prices (so every request has a positive
    cost bound), an enabled stream's events fit the response limit, and a fetch
    broker has lowercase exact hosts and at most ten redirects. *)
Theorem validated_config_is_sound c euid : validate c euid = Ok () → sound c.
Proof.
  intros Hv. unfold validate in Hv. inv_ok.
  match goal with L : validate_limits c = Ok _ |- _ =>
    unfold validate_limits in L; apply bail_if_Ok in L; rename L into Hl end.
  split.
  - intros Hip. apply private_listener_not_public; [done|]. by rewrite <-negb_false_iff.
  - apply Forall_forall. intros z Hz ->. rewrite existsb_false in Hl. by specialize (Hl _ Hz).
  - destruct (llm c), (fetch c); [done|left; by split|right; by split|done].
  - intros p E. rewrite E in *. inv_ok.
    destruct (validate_llm_sound p) as (? & ? & ? & ?); [congruence || done|].
    split_and!; try done. intros He. unfold validate_streaming in *. inv_ok.
    repeat match goal with H : _ || _ = false |- _ => apply orb_false_iff in H as [? ?] end.
    rewrite He in *. simpl in *. reflect. done.
  - intros p E. rewrite E in Hv. by apply validate_fetch_sound.
Qed.

(** Credential substitution cannot escape the credentials directory: an
    expanded path is the directory joined with a single file name, so it is an
    absolute path without traversal whenever the directory is one. *)
Theorem expanded_credential_stays_inside dir path p :
  strip_prefix CREDENTIALS_PREFIX path ≠ None →
  expand_credential_path (Some dir) path = Ok p →
  require_absolute_runtime_path dir = Ok () →
  ∃ file, p = path_join dir file ∧ split_char "/" file = [file] ∧ file ≠ ".."%string
          ∧ require_absolute_runtime_path p = Ok ().
Proof.
  unfold expand_credential_path, require_absolute_runtime_path. intros Hpre He Hd.
  destruct (strip_prefix _ path) as [file|]; [|done]. inv_ok. injection He as <-.
  simpl in *. simplify_eq. apply orb_false_iff in Hd as [Habs Hpar]. apply negb_false_iff in Habs.
  repeat match goal with H : _ || _ = false |- _ => apply orb_false_iff in H as [? ?] end.
  exists file. split_and!; [done|by apply split_char_none|by intros ->|].
  apply bail_if_Ok.
  destruct (join_shape x0 file) as (d & -> & Hdir); [by intros ->|].
  rewrite has_parent_dir_sep, (safe_name_component file) by done. rewrite orb_false_r.
  destruct Hdir as [->| ->].
  - rewrite Hpar. unfold path_is_absolute. by rewrite starts_with_app.
  - change (d +:+ "/") with (d +:+ String "/" EmptyString) in *.
    rewrite has_parent_dir_sep in Hpar. apply orb_false_iff in Hpar as [-> _].
    unfold path_is_absolute in *.
    replace (d +:+ String "/" file) with ((d +:+ String "/" EmptyString) +:+ file).
    + by rewrite starts_with_app.
    + apply str_bytes_inj. by rewrite !str_bytes_app, <-app_assoc.
Qed.
End config_facts.
