(* ===== verification/Http.v ===== *)
(** * HTTP ingress: [crates/tentaflake-broker/src/http.rs]

    [read_request] over a connection of [Net]: any fragmentation, end of file,
    read error and clock.  [set_read_timeout] is a no-op here: it fails only for a
    zero duration, which [require_before_deadline] excludes.  [Response] and
    [write_response] are in [Server], after the streaming relay they call. *)

From S2P Require Import Prelude RustStr Json Net.

Record Request : Type := mkRequest {
  method : string;
  req_path : string;
  headers : gmap string string;
  req_body : bytes;
}.

Definition CHUNK : nat := 4096.

(** [raw.windows(4).position(|w| w == b"\r\n\r\n")]. *)
Fixpoint find_blank_line (l : bytes) : option nat :=
  match l with
  | a :: ((b :: c :: d :: _) as l') =>
      if (a =? 13) && (b =? 10) && (c =? 13) && (d =? 10) then Some 0%nat
      else S <$> find_blank_line l'
  | _ => None
  end.

Definition require_before_deadline (deadline : instant) : M conn string Z :=
  now ← instant_now;
  lift (ok_or "request ingress deadline exceeded"
    (ofilter (λ r, negb (r =? 0)) (checked_duration_since deadline now))).
Definition set_remaining_read_timeout (deadline : instant) : M conn string unit :=
  _ ← require_before_deadline deadline;
  mret tt.

(** One read under the deadline: [count == 0] is the error [closed]. *)
Definition read_some (deadline : instant) (n : nat) (failed closed : string) : M conn string bytes :=
  _ ← set_remaining_read_timeout deadline;
  r ← net_read n;
  d ← lift (match r with Ok d => Ok d | Err _ => Err failed end);
  _ ← require_before_deadline deadline;
  _ ← throw_if (length d =? 0)%nat closed;
  mret d.

(** The loop that looks for the end of the headers; its local is [raw]. *)
Definition header_step (max_header_bytes : Z) (deadline : instant) (raw : bytes) :
    M conn string (bytes + bytes * nat) :=
  d ← read_some deadline CHUNK "read failed" "connection closed before request headers";
  let raw := raw ++ d in
  match find_blank_line raw with
  | Some index => mret (inr (raw, index + 4)%nat)
  | None =>
      _ ← throw_if (max_header_bytes <? blen raw) "request headers exceed configured limit";
      mret (inl raw)
  end.

Definition tchar (b : Z) : bool := is_ascii_alphanumeric b || byte_in "!#$%&'*+-.^_`|~" b.
Fixpoint parse_headers (acc : gmap string string) (lines : list string) :
    result string (gmap string string) :=
  match lines with
  | [] => Ok acc
  | line :: lines =>
      '(name, value) ← ok_or "malformed request header" (split_once ":" line);
      _ ← bail_if (str_is_empty name || negb (all_bytes tchar name)) "invalid request header name";
      let name := to_ascii_lowercase name in
      _ ← bail_if (is_some (acc !! name)) "duplicate request headers are rejected";
      parse_headers (<[name := trim value]> acc) lines
  end.

Definition bad_control (c : Z) : bool :=
  is_control c && negb (c =? 13) && negb (c =? 10) && negb (c =? 9).

(** From the header block to method, path, headers and content length. *)
Definition parse_head (max_body_bytes : Z) (head : bytes) :
    result string (string * string * gmap string string * Z) :=
  text ← ok_or "request headers are not UTF-8" (from_utf8 head);
  _ ← bail_if (existsb bad_control (chars text)) "request headers contain control characters";
  match split_crlf text with
  | [] => Err "missing request line"%string
  | start :: lines =>
      match split_char " " start with
      | [m; p; version] =>
          _ ← bail_if (negb (version =? "HTTP/1.1")%string)
                "only strict HTTP/1.1 requests are accepted";
          _ ← bail_if (str_is_empty p || negb (starts_with "/" p) || contains_byte 35 p)
                "invalid request target";
          hs ← parse_headers ∅ lines;
          _ ← bail_if (is_some (hs !! "transfer-encoding"%string)) "transfer encoding is not accepted";
          content_length ← match hs !! "content-length"%string with
                           | Some v => ok_or "invalid content-length" (parse_u64 v)
                           | None => Ok 0
                           end;
          _ ← bail_if (max_body_bytes <? content_length) "request body exceeds configured limit";
          Ok (m, p, hs, content_length)
      | _ => Err "only strict HTTP/1.1 requests are accepted"%string
      end
  end.

(** The loop that reads the body; its local is [raw]. *)
Definition body_step (header_end : nat) (content_length : Z) (deadline : instant) (raw : bytes) :
    M conn string (bytes + bytes) :=
  if content_length <=? blen raw - Z.of_nat header_end then mret (inr raw)
  else
    let remaining := content_length - (blen raw - Z.of_nat header_end) in
    let read_length := Z.to_nat (Z.min remaining (Z.of_nat CHUNK)) in
    d ← read_some deadline read_length "body read failed" "connection closed before request body";
    mret (inl (raw ++ d)).

(** Every iteration of either loop reads the clock, so the number of remaining
    clock readings bounds them. *)
Definition while_clock {A B} (body : A → M conn string (A + B)) (a : A) : M conn string B := λ c,
  loop (S (S (length (c_clock c)))) "request ingress deadline exceeded"%string body a c.

Definition read_request (max_header_bytes max_body_bytes : Z) (deadline : instant) :
    M conn string Request :=
  '(raw, header_end) ← while_clock (header_step max_header_bytes deadline) [];
  _ ← throw_if (max_header_bytes <? Z.of_nat header_end) "request headers exceed configured limit";
  '(m, p, hs, content_length) ← lift (parse_head max_body_bytes (take (header_end - 4) raw));
  let buffered := blen raw - Z.of_nat header_end in
  _ ← throw_if (content_length <? buffered) "pipelined requests are not accepted";
  raw ← while_clock (body_step header_end content_length deadline) raw;
  mret (mkRequest m p hs (drop header_end raw)).

(** * Specification: the request as a function of the byte stream *)

(** What a request is, independently of how the stream was delivered: the header
    block up to the first blank line and [content-length] bytes of body. *)
Definition parse_request (max_header_bytes max_body_bytes : Z) (stream : bytes) :
    result string (Request * bytes) :=
  index ← ok_or "connection closed before request headers" (find_blank_line stream);
  let header_end := (index + 4)%nat in
  _ ← bail_if (max_header_bytes <? Z.of_nat header_end) "request headers exceed configured limit";
  '(m, p, hs, content_length) ← parse_head max_body_bytes (take index stream);
  let rest := drop header_end stream in
  _ ← bail_if (blen rest <? content_length) "connection closed before request body";
  let n := Z.to_nat content_length in
  Ok (mkRequest m p hs (take n rest), drop n rest).

(** * Facts *)

Lemma find_blank_line_bound l i : find_blank_line l = Some i → (i + 4 ≤ length l)%nat.
Proof.
  revert i. induction l as [|a l IH]; intros i; [done|].
  destruct l as [|b [|c [|d l]]]; try done. cbn [find_blank_line].
  case_match; [intros [= <-]; simpl; lia|].
  intros Hf. apply fmap_Some in Hf as (j & Hj & ->). apply IH in Hj. simpl in *. lia.
Qed.

Lemma find_blank_line_app l l' i : find_blank_line l = Some i → find_blank_line (l ++ l') = Some i.
Proof.
  revert i. induction l as [|a l IH]; intros i; [done|].
  destruct l as [|b [|c [|d l]]]; try done.
  change (find_blank_line (a :: b :: c :: d :: l) = Some i →
          (if (a =? 13) && (b =? 10) && (c =? 13) && (d =? 10) then Some 0%nat
           else S <$> find_blank_line ((b :: c :: d :: l) ++ l')) = Some i).
  cbn [find_blank_line]. case_match; [done|].
  intros Hf. apply fmap_Some in Hf as (j & Hj & ->). by rewrite (IH _ Hj).
Qed.

(** A successful read moves a non-empty prefix of the stream and uses the clock. *)
Lemma read_some_spec deadline n failed closed c :
  wp (read_some deadline n failed closed)
    (λ d c', incoming (c_in c) = d ++ incoming (c_in c') ∧ (0 < length d ≤ n)%nat
             ∧ (length (c_clock c') < length (c_clock c))%nat ∧ c_out c' = c_out c)
    (λ _ c', c_out c' = c_out c) c.
Proof.
  unfold read_some, set_remaining_read_timeout, require_before_deadline.
  wp_step; wp_step. wp_step. wp_apply (wp_instant_now (λ _ c', c_out c' = c_out c)); [|done].
  intros t1 c1 [I1 Ht1]. apply wp_lift; [|intros; apply I1]. intros r Hr. apply ok_or_Ok in Hr.
  assert (is_Some t1) as Hs by (destruct deadline, t1; done). specialize (Ht1 Hs).
  wp_step. wp_step. eapply wp_mono; [apply wp_net_read| |intros e c2 Hx; exact Hx].
  intros r1 c2 (Ho2 & _ & Hc2 & _ & Hd). wp_step. apply wp_lift.
  2: { intros e _. by rewrite Ho2, (id_out _ _ I1). }
  intros d Ed. destruct r1 as [d'|]; [injection Ed as ->|done]. wp_step; wp_step.
  wp_apply (wp_instant_now (λ _ c', c_out c' = c_out c)); [|done].
  intros t2 c3 [I3 _]. assert (c_out c3 = c_out c) as Ho by (rewrite (id_out _ _ I3), Ho2; apply I1).
  apply wp_lift; [|done]. intros r2 _. wp_step. apply wp_throw_if; intros Hz; [done|].
  wp_step. destruct Hd as [Hi Hl]. rewrite (id_in _ _ I1) in Hi. rewrite (id_in _ _ I3).
  apply Nat.eqb_neq in Hz. pose proof (id_ticks _ _ I3). rewrite Hc2 in *. split_and!; (done || lia).
Qed.

Lemma header_loop_spec mh deadline c :
  wp (while_clock (header_step mh deadline) [])
    (λ x c', ∃ i, find_blank_line (fst x) = Some i ∧ snd x = (i + 4)%nat
                  ∧ incoming (c_in c) = fst x ++ incoming (c_in c') ∧ c_out c' = c_out c)
    (λ _ c', c_out c' = c_out c) c.
Proof.
  unfold while_clock. apply (wp_loop
    (λ raw c', incoming (c_in c) = raw ++ incoming (c_in c') ∧ c_out c' = c_out c)
    (λ _ c', length (c_clock c'))); [|done|lia].
  intros raw c1 [Hi Ho]. unfold header_step. wp_step.
  wp_apply (read_some_spec deadline CHUNK _ _ c1); [|intros; congruence].
  intros d c2 (Hd & _ & Ht & Ho2). cbv zeta.
  assert (incoming (c_in c) = (raw ++ d) ++ incoming (c_in c2)) as Hi2 by by rewrite Hi, Hd, app_assoc.
  destruct (find_blank_line (raw ++ d)) as [i|] eqn:Hf.
  - wp_step. exists i. split_and!; try done. congruence.
  - wp_step. apply wp_throw_if; intros _; [congruence|]. wp_step. split_and!; (done || congruence).
Qed.

Lemma body_loop_spec he n deadline raw0 c :
  blen raw0 - Z.of_nat he ≤ n →
  wp (while_clock (body_step he n deadline) raw0)
    (λ raw c', ∃ more, raw = raw0 ++ more ∧ incoming (c_in c) = more ++ incoming (c_in c')
                       ∧ blen raw - Z.of_nat he = n ∧ c_out c' = c_out c)
    (λ _ c', c_out c' = c_out c) c.
Proof.
  intros Hn. unfold while_clock. apply (wp_loop
    (λ raw c', ∃ more, raw = raw0 ++ more ∧ incoming (c_in c) = more ++ incoming (c_in c')
                       ∧ blen raw - Z.of_nat he ≤ n ∧ c_out c' = c_out c)
    (λ _ c', length (c_clock c'))); [| |lia].
  2: { exists []. by rewrite app_nil_r. }
  intros raw c1 (more & -> & Hi & Hle & Ho). unfold body_step.
  destruct (Z.leb_spec n (blen (raw0 ++ more) - Z.of_nat he)).
  { wp_step. exists more. split_and!; (done || lia). }
  wp_step. wp_apply (read_some_spec deadline _ _ _ c1); [|intros; congruence].
  intros d c2 (Hd & Hlen & Ht & Ho2). wp_step. split; [|done].
  exists (more ++ d). rewrite app_assoc. split_and!; [done| | |congruence].
  - by rewrite Hi, Hd, app_assoc.
  - unfold blen in *. rewrite length_app. unfold CHUNK in *. lia.
Qed.

Lemma read_request_spec mh mb deadline c :
  wp (read_request mh mb deadline)
    (λ req c', parse_request mh mb (incoming (c_in c)) = Ok (req, incoming (c_in c'))
               ∧ c_out c' = c_out c)
    (λ _ c', c_out c' = c_out c) c.
Proof.
  unfold read_request. wp_step. wp_apply (header_loop_spec mh deadline c); [|done].
  intros [raw he] c1 (i & Hf & Hhe & Hi & Ho). cbn [fst snd] in *. subst he.
  pose proof (find_blank_line_bound _ _ Hf) as Hb.
  wp_step. apply wp_throw_if; intros Hmh; [done|].
  replace (i + 4 - 4)%nat with i by lia.
  wp_step. apply wp_lift; [|done]. intros [[[m p] hs] n] Hhead. cbv zeta.
  wp_step. apply wp_throw_if; intros Hpipe; [done|]. apply Z.ltb_ge in Hpipe.
  wp_step. wp_apply (body_loop_spec _ _ deadline raw c1 Hpipe); [|intros; congruence].
  intros raw' c2 (more & -> & Hi2 & Hlen & Ho2). wp_step. split; [|congruence].
  rewrite Hi, Hi2. unfold parse_request.
  rewrite (find_blank_line_app _ _ _ Hf). cbn [ok_or mbind result_bind].
  rewrite Hmh. cbn [bail_if mbind result_bind].
  rewrite take_app_le by lia. rewrite Hhead. cbn [mbind result_bind].
  rewrite app_assoc, drop_app_le by (rewrite length_app; lia).
  set (b := drop (i + 4) (raw ++ more)).
  assert (blen b = n) as Hbn. { unfold b, blen in *. rewrite length_drop. lia. }
  assert (Z.to_nat n = length b) as -> by (unfold blen in Hbn; lia).
  assert ((blen (b ++ incoming (c_in c2)) <? n) = false) as ->.
  { apply Z.ltb_ge. unfold blen in *. rewrite length_app. lia. }
  cbn [bail_if mbind result_bind]. by rewrite take_app_length, drop_app_length.
Qed.

(** ** Progress *)

(** The peer delivers data and no failure, and the clock stays before the
    deadline for long enough: two readings per read. *)
Definition healthy (d : Z) (c : conn) : Prop :=
  Forall (λ r, ∃ b, r = RdData b ∧ b ≠ []) (c_in c) ∧ Forall (λ t, t < d) (c_clock c)
  ∧ (2 * length (incoming (c_in c)) ≤ length (c_clock c))%nat.

Lemma read_some_progress d n failed closed c :
  healthy d c → incoming (c_in c) ≠ [] → (0 < n)%nat →
  wp (read_some (Some d) n failed closed)
    (λ x c', healthy d c' ∧ incoming (c_in c) = x ++ incoming (c_in c') ∧ (0 < length x ≤ n)%nat
             ∧ (length (c_clock c') < length (c_clock c))%nat)
    (λ _ _, False) c.
Proof.
  destruct c as [rds ws out polls clock peer]. unfold healthy. cbn [c_in c_clock].
  intros (Hin & Hcl & Hn) Hne Hpos.
  destruct Hin as [|r rds (b & -> & Hb) Hin]; [done|]. cbn [incoming] in *. rewrite length_app in Hn.
  assert (0 < length b)%nat as Hlb by (destruct b; [done|simpl; lia]).
  destruct Hcl as [|t1 cl Ht1 Hcl]; [simpl in Hn; lia|].
  destruct Hcl as [|t2 cl Ht2 Hcl]; [simpl in Hn; lia|].
  apply run_wp. unfold read_some, set_remaining_read_timeout, require_before_deadline, instant_now,
    net_read, throw_if, lift, mbind, M_bind, mret, M_ret. cbn.
  assert (∀ t, t < d → ofilter (λ r : Z, negb (r =? 0)) (if t <=? d then Some (d - t) else None) = Some (d - t)) as Hf.
  { intros t Ht. destruct (Z.leb_spec t d); [|lia]. cbn [ofilter]. by destruct (Z.eqb_spec (d - t) 0); [lia|]. }
  rewrite !Hf by done. cbn.
  assert ((length (take n b) =? 0)%nat = false) as -> by (apply Nat.eqb_neq; rewrite length_take; lia).
  rewrite ?Hf by done. cbn. destruct (Nat.leb_spec (length b) n).
  - rewrite take_ge in * by lia. simpl in Hn. split_and!; try done; lia.
  - simpl in Hn. split_and!; try done; try (rewrite length_take; lia); try lia.
    + constructor; [|done]. exists (drop n b). split; [done|]. intros E. apply (f_equal length) in E.
      rewrite length_drop in E. simpl in E. lia.
    + cbn [incoming]. rewrite length_app, length_drop. lia.
    + cbn [incoming]. by rewrite app_assoc, take_drop.
Qed.

Lemma find_blank_line_prefix l l' i :
  find_blank_line (l ++ l') = Some i → find_blank_line l = None → (length l < i + 4)%nat.
Proof.
  revert i. induction l as [|a l IH]; intros i Hs Hn; [simpl; lia|].
  destruct l as [|b [|c [|d l]]]; [simpl; lia..|].
  change (find_blank_line ((a :: b :: c :: d :: l) ++ l')) with
    (if (a =? 13) && (b =? 10) && (c =? 13) && (d =? 10) then Some 0%nat
     else S <$> find_blank_line ((b :: c :: d :: l) ++ l')) in Hs.
  cbn [find_blank_line] in Hn. destruct (_ && _); [done|].
  apply fmap_Some in Hs as (j & Hj & ->). apply fmap_None in Hn.
  specialize (IH _ Hj Hn). cbn [length] in *. lia.
Qed.

Lemma header_loop_progress mh d c i :
  healthy d c → find_blank_line (incoming (c_in c)) = Some i → Z.of_nat (i + 4) ≤ mh →
  wp (while_clock (header_step mh (Some d)) [])
    (λ x c', healthy d c' ∧ find_blank_line (fst x) = Some i ∧ snd x = (i + 4)%nat
             ∧ incoming (c_in c) = fst x ++ incoming (c_in c')) (λ _ _, False) c.
Proof.
  intros Hh Hf Hmh. unfold while_clock. apply (wp_loop
    (λ raw c', healthy d c' ∧ incoming (c_in c) = raw ++ incoming (c_in c') ∧ find_blank_line raw = None)
    (λ _ c', length (c_clock c'))); [|done|lia].
  intros raw c1 (H1 & Hi & Hnone). unfold header_step. wp_step.
  assert (incoming (c_in c1) ≠ []) as Hne.
  { intros E. rewrite E, app_nil_r in Hi. congruence. }
  wp_apply (read_some_progress d CHUNK _ _ c1 H1 Hne); [unfold CHUNK; lia| |done].
  intros x c2 (H2 & Hx & _ & Ht). cbv zeta.
  assert (incoming (c_in c) = (raw ++ x) ++ incoming (c_in c2)) as Hi2 by by rewrite Hi, Hx, app_assoc.
  destruct (find_blank_line (raw ++ x)) as [j|] eqn:Hj.
  - wp_step. pose proof (find_blank_line_app _ (incoming (c_in c2)) _ Hj) as Hj'.
    rewrite <-Hi2, Hf in Hj'. injection Hj' as <-. done.
  - rewrite Hi2 in Hf. pose proof (find_blank_line_prefix _ _ _ Hf Hj).
    wp_step. apply wp_throw_if; intros Hb; [|by wp_step].
    apply Z.ltb_lt in Hb. unfold blen in Hb. lia.
Qed.

Lemma body_loop_progress he n d raw0 c :
  healthy d c → n ≤ blen raw0 - Z.of_nat he + blen (incoming (c_in c)) →
  wp (while_clock (body_step he n (Some d)) raw0) (λ _ _, True) (λ _ _, False) c.
Proof.
  intros Hh Hn. unfold while_clock. apply (wp_loop
    (λ raw c', healthy d c' ∧ n ≤ blen raw - Z.of_nat he + blen (incoming (c_in c')))
    (λ _ c', length (c_clock c'))); [|done|lia].
  intros raw c1 (H1 & Hle). unfold body_step. destruct (Z.leb_spec n (blen raw - Z.of_nat he)); [by wp_step|].
  wp_step. wp_apply (read_some_progress d _ _ _ c1 H1); [| | |done].
  - intros E. rewrite E in Hle. unfold blen in *. simpl in Hle. lia.
  - unfold CHUNK. lia.
  - intros x c2 (H2 & Hx & _ & Ht). wp_step. split; [|done]. split; [done|].
    rewrite Hx in Hle. unfold blen in *. rewrite !length_app in *. lia.
Qed.

Lemma parse_head_inv mb head m p hs n :
  parse_head mb head = Ok (m, p, hs, n) →
  hs !! "transfer-encoding"%string = None ∧ n ≤ mb ∧ 0 ≤ n ∧ starts_with "/" p = true
  ∧ match hs !! "content-length"%string with Some v => parse_u64 v = Some n | None => n = 0 end.
Proof.
  unfold parse_head. intros H. inv_ok. destruct (split_crlf x) as [|start lines]; [done|].
  destruct (split_char " " start) as [|m' [|p' [|v' [|]]]]; try done. inv_ok.
  match goal with E : parse_headers _ _ = Ok ?h |- _ => rename h into hs' end.
  injection H as <- <- <- <-. unfold is_some in *. destruct (hs' !! "transfer-encoding"%string); [done|].
  rewrite !orb_false_iff, negb_false_iff, Z.ltb_ge in *. destruct_and!.
  destruct (hs' !! "content-length"%string) as [v|] eqn:E; inv_ok.
  - pose proof (parse_u64_bound _ _ ltac:(eassumption)) as [? ?]. done.
  - match goal with E : Ok 0 = Ok _ |- _ => injection E as <- end. split_and!; (done || lia).
Qed.

Lemma read_request_progress mh mb d c req :
  healthy d c → parse_request mh mb (incoming (c_in c)) = Ok (req, []) →
  wp (read_request mh mb (Some d)) (λ _ _, True) (λ _ _, False) c.
Proof.
  intros Hh Hp. unfold parse_request in Hp. inv_ok. rename x into i, H into Hf, H0 into Hmh.
  destruct x1 as [[[m p] hs] n]. rename H1 into Hhead. inv_ok.
  pose proof (parse_head_inv _ _ _ _ _ _ Hhead) as (_ & _ & Hn0 & _).
  injection Hp as _ Hrest.
  unfold read_request. wp_step. apply Z.ltb_ge in Hmh, H.
  wp_apply (header_loop_progress mh d c i Hh Hf); [done| |done].
  intros [raw he] c1 (H1 & Hr & Hhe & Hi). cbn [fst snd] in *. subst he.
  pose proof (find_blank_line_bound _ _ Hr) as Hb.
  wp_step. apply wp_throw_if; intros Hx; [apply Z.ltb_lt in Hx; lia|].
  replace (i + 4 - 4)%nat with i by lia.
  assert (take i raw = take i (incoming (c_in c))) as -> by (rewrite Hi, take_app_le; [done|lia]).
  rewrite Hhead. wp_step. apply wp_lift; [|done]. intros y [= <-]. cbv zeta.
  assert (blen (incoming (c_in c)) - Z.of_nat (i + 4) = n) as Htot.
  { apply (f_equal length) in Hrest. rewrite length_drop in Hrest. unfold blen in *.
    rewrite length_drop in *. simpl in Hrest. rewrite Hi, length_app in *. lia. }
  rewrite Hi in Htot. unfold blen in Htot. rewrite length_app in Htot.
  wp_step. apply wp_throw_if; intros Hy; [apply Z.ltb_lt in Hy; unfold blen in Hy; lia|].
  wp_step. wp_apply (body_loop_progress (i + 4) n d raw c1 H1); [unfold blen; lia| |done].
  intros raw' c2 _. by wp_step.
Qed.

(** ** Claims *)

(** The body a request declares. *)
Definition declares (req : Request) (n : Z) : Prop :=
  match headers req !! "content-length"%string with
  | Some v => parse_u64 v = Some n
  | None => n = 0
  end.

(** Request framing is exact and bounded.  Whatever the fragmentation, errors
    and clock, an accepted request is a header block of at most the configured size
    followed by exactly the declared number of body bytes (none without a
    content-length, never more than the body limit, never a transfer encoding), and
    nothing past it was consumed from the connection or written to it. *)
Theorem accepted_request_is_framed mh mb deadline c req c' :
  read_request mh mb deadline c = (Ok req, c') →
  ∃ head, incoming (c_in c) = head ++ req_body req ++ incoming (c_in c')
    ∧ blen head ≤ mh ∧ blen (req_body req) ≤ mb ∧ declares req (blen (req_body req))
    ∧ headers req !! "transfer-encoding"%string = None ∧ c_out c' = c_out c.
Proof.
  intros Hrun. destruct (wp_run _ _ _ _ _ _ (read_request_spec mh mb deadline c) Hrun) as [Hp Ho].
  unfold parse_request in Hp. inv_ok. destruct x1 as [[[m p] hs] n]. inv_ok.
  injection Hp as <- Hrest. apply parse_head_inv in H1 as (Hte & Hn & Hpos & _ & Hcl).
  apply Z.ltb_ge in H0, H2. pose proof (find_blank_line_bound _ _ H) as Hb.
  exists (take (x + 4) (incoming (c_in c))). cbn [req_body headers].
  assert (blen (take (Z.to_nat n) (drop (x + 4) (incoming (c_in c)))) = n) as Hlen.
  { unfold blen in *. rewrite length_take. lia. }
  rewrite <-Hrest, take_drop, take_drop, Hlen. split_and!; try done.
  unfold blen. rewrite length_take. lia.
Qed.

(** The incremental reader refines a pure parser of the byte stream: the request
    it returns and the bytes it leaves are those of [parse_request] on the whole
    incoming stream, so two deliveries of the same bytes cannot be read as two
    different requests. *)
Theorem ingress_refines_parser mh mb deadline c req c' :
  read_request mh mb deadline c = (Ok req, c') →
  parse_request mh mb (incoming (c_in c)) = Ok (req, incoming (c_in c')).
Proof. intros Hrun. apply (wp_run _ _ _ _ _ _ (read_request_spec mh mb deadline c) Hrun). Qed.

(** The reader is complete: a peer that sends exactly one well-formed request
    within the deadline, however it is split, gets it accepted as the parser reads
    it. *)
Theorem complete_request_is_accepted mh mb d c req :
  healthy d c → parse_request mh mb (incoming (c_in c)) = Ok (req, []) →
  ∃ c', read_request mh mb (Some d) c = (Ok req, c').
Proof.
  intros Hh Hp. pose proof (read_request_progress _ _ _ _ _ Hh Hp) as Hw. unfold wp in Hw.
  destruct (read_request mh mb (Some d) c) as [[req'|e] c'] eqn:E; [|done].
  destruct (wp_run _ _ _ _ _ _ (read_request_spec mh mb (Some d) c) E) as [Hq _].
  rewrite Hp in Hq. injection Hq as <- _. by exists c'.
Qed.
