(* ===== verification/Envelope.v ===== *)
(** * Request and response policy of the LLM broker

    The pure JSON functions of [crates/tentaflake-broker/src/broker.rs]: the strict
    cost envelope, local-tool policy, cost estimation, usage extraction, response
    completeness, and the part of [handle_llm] that turns a request into a
    reservation and a forwarded payload ([admit_llm]). *)

From S2P Require Import Prelude RustStr Json Net Policy Activity Config Http.


Record Failure : Type := mkFailure { f_status : Z; f_kind : string; f_public : string }.
Definition llm_failure (status : Z) (public : string) : Failure := mkFailure status "llm" public.

Definition route_without_query (path : string) : string := first_piece (split_char "?" path) path.

(** ** Cost and usage *)

Definition u128_max : Z := 2 ^ 128 - 1.
Definition div_ceil (a b : Z) : Z := if a mod b =? 0 then a / b else a / b + 1.

Definition estimate_cost (m : ModelPolicy) (input_tokens output_tokens : Z) : option Z :=
  let input := input_tokens * input_microusd_per_million m in
  let output := output_tokens * output_microusd_per_million m in
  total ← (if input + output <=? u128_max then Some (input + output) else None);
  let c := div_ceil total 1000000 in
  if c <=? u64_max then Some c else None.

Definition usage_input (u : value) : option Z :=
  v ← or_else (vget "input_tokens" u) (vget "prompt_tokens" u); as_u64 v.
Definition usage_output (u : value) : option Z :=
  v ← or_else (vget "output_tokens" u) (vget "completion_tokens" u); as_u64 v.
Definition usage_total (u : value) : option Z := v ← vget "total_tokens" u; as_u64 v.

Definition parse_usage (usage : option value) : option (Z * Z * Z) :=
  v ← usage;
  input ← usage_input v;
  output ← usage_output v;
  total ← usage_total v;
  if bool_decide (checked_add input output = Some total) then Some (input, output, total) else None.

(** The call [observe_usage] makes on the guard, if any: observed tokens and
    cost ([None]: not representable). *)
Definition usage_observation (m : ModelPolicy) (usage : option value) : option (Z * option Z) :=
  u ← usage;
  let input := usage_input u in
  let output := usage_output u in
  let total := usage_total u in
  if is_some input || is_some output || is_some total then
    let input := default 0 input in
    let output := default 0 output in
    match checked_add input output with
    | None => Some (u64_max, None)
    | Some components =>
        Some (Z.max components (default 0 total), estimate_cost m input output)
    end
  else None.

(** ** Provider responses *)

Definition count_digits (s : string) : Z := blen (List.filter is_ascii_digit (str_bytes s)).
Definition first_byte (p : Z → bool) (s : string) : bool := is_some_and p (head (str_bytes s)).
Definition last_byte (p : Z → bool) (s : string) : bool := is_some_and p (last (str_bytes s)).

Definition provider_model_matches (requested returned : string) : bool :=
  (returned =? requested)%string
  || is_some_and (λ snapshot,
       all_bytes (λ b, is_ascii_digit b || (b =? 45)) snapshot
       && first_byte is_ascii_digit snapshot && last_byte is_ascii_digit snapshot
       && (4 <=? count_digits snapshot))
     (rest ← strip_prefix requested returned; strip_prefix "-" rest).

Definition object_with_keys (v : value) (allowed : list string) : option object :=
  m ← as_object v;
  if forallb (λ k, str_in k allowed) (obj_keys m) then Some m else None.
Definition nonempty_string (v : option value) : bool :=
  is_some_and (λ s, negb (str_is_empty s)) (x ← v; as_str x).
Definition get_str (k : string) (m : object) : option string := v ← obj_get k m; as_str v.

Definition text_part (part : value) : bool :=
  is_some_and (λ m, opt_str_eq (get_str "type" m) "text" && is_some_and is_string (obj_get "text" m))
    (object_with_keys part ["type"%string; "text"%string]).
Definition text_content (v : value) : bool :=
  is_string v || is_some_and (forallb text_part) (as_array v).

Definition strict_function_call (f : object) : bool :=
  nonempty_string (obj_get "name" f) && is_some_and is_string (obj_get "arguments" f).
Definition strict_tool_call (v : value) : bool :=
  is_some_and (λ call,
    nonempty_string (obj_get "id" call)
    && opt_str_eq (get_str "type" call) "function"
    && is_some_and strict_function_call
         (f ← obj_get "function" call; object_with_keys f ["name"%string; "arguments"%string]))
    (object_with_keys v ["id"%string; "type"%string; "function"%string]).
Definition nonempty_calls (v : value) : bool :=
  is_some_and (λ l, negb (bool_decide (length l = 0%nat)) && forallb strict_tool_call l) (as_array v).

Definition complete_choice (choice : value) : bool :=
  match (v ← vget "message" choice; as_object v) with
  | None => false
  | Some message =>
      opt_str_eq (get_str "role" message) "assistant"
      && (let calls := ofilter (λ c, negb (is_null c)) (obj_get "tool_calls" message) in
          let valid_calls := is_some_and nonempty_calls calls in
          if is_some calls && negb valid_calls then false
          else
            let content := is_none_or (λ c, is_null c || text_content c) (obj_get "content" message) in
            let refusal := is_none_or (λ r, is_null r || is_string r) (obj_get "refusal" message) in
            match (v ← vget "finish_reason" choice; as_str v) with
            | Some r =>
                if (r =? "tool_calls")%string then valid_calls
                else if str_in r ["stop"%string; "length"%string; "content_filter"%string]
                     then content && refusal else false
            | None => false
            end)
  end.

Definition complete_chat_response (v : value) (requested_model : string) : bool :=
  opt_str_eq (x ← vget "object" v; as_str x) "chat.completion"
  && is_some_and (provider_model_matches requested_model) (x ← vget "model" v; as_str x)
  && nonempty_string (vget "id" v)
  && is_none (vget "error" v)
  && is_some_and (λ choices,
       match choices with
       | [c] => is_some_and (Z.eqb 0) (x ← vget "index" c; as_u64 x) && complete_choice c
       | _ => false
       end) (x ← vget "choices" v; as_array x).

Definition nonstream_activity_outcome (route : string) (status : Z) (v : option value)
    (requested_model : string) : Outcome :=
  if 300 <=? status then Failed
  else match ofilter (λ _, status =? 200) v with
  | None => Uncertain
  | Some v =>
      if (route =? "/v1/chat/completions")%string then
        if complete_chat_response v requested_model then Succeeded else Uncertain
      else if negb (opt_str_eq (x ← vget "object" v; as_str x) "response")
              || negb (nonempty_string (vget "id" v))
              || negb (is_some_and (provider_model_matches requested_model)
                         (x ← vget "model" v; as_str x))
      then Uncertain
      else match (x ← vget "status" v; as_str x) with
           | Some st =>
               if (st =? "completed")%string && is_some_and is_array (vget "output" v)
                  && is_none_or is_null (vget "error" v) then Succeeded
               else if (st =? "failed")%string then Failed
               else Uncertain
           | None => Uncertain
           end
  end.

(** ** The strict envelope *)

Definition FIELDS : list string :=
  ["model"%string; "messages"%string; "tools"%string; "tool_choice"%string; "stream"%string;
   "stream_options"%string; "max_tokens"%string; "max_completion_tokens"%string; "n"%string;
   "temperature"%string; "top_p"%string; "stop"%string; "parallel_tool_calls"%string].

Definition role_fields (role : string) : option (list string) :=
  if str_in role ["system"%string; "developer"%string; "user"%string]
  then Some ["role"%string; "content"%string; "name"%string]
  else if (role =? "assistant")%string
  then Some ["role"%string; "content"%string; "name"%string; "tool_calls"%string]
  else if (role =? "tool")%string then Some ["role"%string; "content"%string; "tool_call_id"%string]
  else None.

Definition strict_message (v : value) : bool :=
  match (m ← as_object v; role ← get_str "role" m; allowed ← role_fields role; Some (m, role, allowed)) with
  | None => false
  | Some (m, role, allowed) =>
      if negb (forallb (λ k, str_in k allowed) (obj_keys m))
         || is_some_and (λ n, negb (nonempty_string (Some n))) (obj_get "name" m) then false
      else if (role =? "tool")%string && negb (nonempty_string (obj_get "tool_call_id" m)) then false
      else
        let calls := obj_get "tool_calls" m in
        if is_some_and (λ c, negb (nonempty_calls c)) calls then false
        else match obj_get "content" m with
             | Some Null | None => (role =? "assistant")%string && is_some calls
             | Some content => text_content content
             end
  end.

Definition strict_function (f : object) : bool :=
  nonempty_string (obj_get "name" f)
  && is_none_or is_string (obj_get "description" f)
  && is_none_or is_object (obj_get "parameters" f)
  && is_none_or is_boolean (obj_get "strict" f).
Definition strict_tool (v : value) : bool :=
  is_some_and (λ tool,
    opt_str_eq (get_str "type" tool) "function"
    && is_some_and strict_function
         (f ← obj_get "function" tool;
          object_with_keys f ["name"%string; "description"%string; "parameters"%string; "strict"%string]))
    (object_with_keys v ["type"%string; "function"%string]).

Definition CHOICES : list string := ["auto"%string; "none"%string; "required"%string].
Definition strict_choice (choice : value) : bool :=
  match choice with
  | Str s => str_in s CHOICES
  | Object _ =>
      is_some_and (λ c,
        opt_str_eq (get_str "type" c) "function"
        && is_some_and (λ f, nonempty_string (obj_get "name" f))
             (f ← obj_get "function" c; object_with_keys f ["name"%string]))
        (object_with_keys choice ["type"%string; "function"%string])
  | _ => false
  end.

Definition invalid_envelope : Failure := llm_failure 400 "request is outside the strict cost envelope".
Definition is_false (v : value) : bool := match v with Bool false => true | _ => false end.

Definition require_strict_envelope (payload : object) : result Failure unit :=
  _ ← bail_if (existsb (λ k, negb (str_in k FIELDS)) (obj_keys payload)
               || is_some_and (λ n, negb (is_some_and (Z.eqb 1) (as_u64 n))) (obj_get "n" payload)
               || (obj_contains "max_tokens" payload && obj_contains "max_completion_tokens" payload)
               || is_some_and (λ v, negb (is_false v)) (obj_get "parallel_tool_calls" payload)
               || is_some_and (λ v, negb (is_boolean v)) (obj_get "stream" payload)
               || is_some_and (λ v, negb (is_number v)) (obj_get "temperature" payload)
               || is_some_and (λ v, negb (is_number v)) (obj_get "top_p" payload))
        invalid_envelope;
  _ ← match obj_get "stream_options" payload with
      | None => Ok tt
      | Some options =>
          options ← ok_or invalid_envelope (object_with_keys options ["include_usage"%string]);
          bail_if (is_some_and (λ v, negb (is_boolean v)) (obj_get "include_usage" options))
            invalid_envelope
      end;
  _ ← bail_if (is_some_and (λ stop, negb (is_string stop)
                              && negb (is_some_and (forallb is_string) (as_array stop)))
                 (obj_get "stop" payload)) invalid_envelope;
  messages ← ok_or invalid_envelope (v ← obj_get "messages" payload; as_array v);
  _ ← bail_if (bool_decide (length messages = 0%nat) || negb (forallb strict_message messages))
        invalid_envelope;
  _ ← bail_if (is_some_and (λ t, negb (is_some_and (forallb strict_tool) (as_array t)))
                 (obj_get "tools" payload)) invalid_envelope;
  bail_if (is_some_and (λ c, negb (strict_choice c)) (obj_get "tool_choice" payload)) invalid_envelope.

(** ** Local tools *)

Definition local_tool (tool : value) : bool :=
  is_some_and (λ t, str_in t ["function"%string; "custom"%string]) (x ← vget "type" tool; as_str x).
Definition local_tools (tools : value) : bool := is_some_and (forallb local_tool) (as_array tools).
Definition choice_allowed (choice : value) : bool :=
  match choice with
  | Null => true
  | Str s => str_in s CHOICES
  | Object _ =>
      if local_tool choice then true
      else if opt_str_eq (x ← vget "type" choice; as_str x) "allowed_tools"
      then is_some_and local_tools (vget "tools" choice)
      else false
  | _ => false
  end.
Definition EXTENSIONS : list string :=
  ["web_search_options"%string; "plugins"%string; "extensions"%string; "data_sources"%string].
Definition require_local_tools (payload : object) : result Failure unit :=
  bail_if (existsb (λ f, obj_contains f payload) EXTENSIONS
           || negb (is_none_or local_tools (obj_get "tools" payload))
           || negb (is_none_or choice_allowed (obj_get "tool_choice" payload)))
    (llm_failure 403
       "provider tools and extensions are disabled; use secure-research-tool for web access").

Definition session_byte (b : Z) : bool := is_ascii_alphanumeric b || byte_in "_.:-" b.
Definition provider_session (req : Request) : result Failure (option string) :=
  match headers req !! "x-opencode-session"%string with
  | None => Ok None
  | Some s =>
      _ ← bail_if (str_is_empty s || (128 <? str_len s) || negb (all_bytes session_byte s))
            (llm_failure 400 "invalid provider session header");
      Ok (Some s)
  end.

(** [u64::try_from(usize).unwrap_or(u64::MAX)] on a 64-bit target. *)
Definition conservative_input_tokens (body_bytes : Z) : Z := Z.min body_bytes u64_max.

(** ** From request to reservation: [handle_llm] up to [reserve_llm] *)

Record LlmAdmission : Type := mkLlmAdmission {
  ad_route : string;
  ad_session : option string;
  ad_payload : object;          (* the forwarded body, with its token limit *)
  ad_streaming : bool;
  ad_model : ModelPolicy;
  ad_token_field : string;
  ad_completion_tokens : Z;
  ad_estimated_tokens : Z;
  ad_estimated_cost : Z;
}.

Definition stream_flag (payload : object) : result Failure bool :=
  match obj_get "stream" payload with
  | None => Ok false
  | Some (Bool b) => Ok b
  | Some _ => Err (llm_failure 400 "stream must be a boolean")
  end.
Definition token_field_of (route : string) (payload : object) : result Failure string :=
  if (route =? "/v1/responses")%string then Ok "max_output_tokens"%string
  else if obj_contains "max_completion_tokens" payload then
    _ ← bail_if (obj_contains "max_tokens" payload)
          (llm_failure 400 "use only one completion-token limit");
    Ok "max_completion_tokens"%string
  else Ok "max_tokens"%string.
Definition completion_limit (policy : LlmPolicy) (field : string) (payload : object) :
    result Failure Z :=
  n ← match obj_get field payload with
      | Some v =>
          x ← ok_or (llm_failure 400 "completion-token limit must be an integer") (as_u64 v);
          Ok (Z.min x (max_completion_tokens policy))
      | None => Ok (max_completion_tokens policy)
      end;
  _ ← bail_if (n =? 0) (llm_failure 400 "completion-token limit must be positive");
  Ok n.

Section admission.
Context `{SerdeJson}.

(** Lines 112-217 of [handle_llm], after authentication. *)
Definition admit_llm (policy : LlmPolicy) (req : Request) : result Failure LlmAdmission :=
  let route := route_without_query (req_path req) in
  _ ← bail_if (negb (str_in route ["/v1/chat/completions"%string; "/v1/responses"%string]))
        (llm_failure 404 "route is not allowed");
  session ← provider_session req;
  _ ← bail_if (strict_cost_envelope policy && negb (route =? "/v1/chat/completions")%string)
        (llm_failure 404 "route is not allowed in strict cost mode");
  _ ← bail_if (strict_cost_envelope policy && is_some session)
        (llm_failure 400 "session affinity is not allowed in strict cost mode");
  payload ← ok_or (llm_failure 400 "request body is not valid JSON") (from_slice (req_body req));
  obj ← ok_or (llm_failure 400 "request body must be a JSON object") (as_object payload);
  _ ← (if strict_cost_envelope policy then require_strict_envelope obj else Ok tt);
  _ ← require_local_tools obj;
  is_streaming ← stream_flag obj;
  _ ← bail_if (is_streaming && negb (enable (streaming policy)))
        (llm_failure 400 "streaming is disabled");
  _ ← bail_if ((is_streaming || (route =? "/v1/chat/completions")%string)
               && is_some_and (λ v, negb (is_some_and (Z.eqb 1) (as_u64 v))) (obj_get "n" obj))
        (llm_failure 400 "request requires one completion choice");
  _ ← bail_if (is_streaming && is_some_and (λ v, negb (is_false v)) (obj_get "background" obj))
        (llm_failure 400 "background streaming is not allowed");
  model_name ← ok_or (llm_failure 400 "model is required") (get_str "model" obj);
  model ← ok_or (llm_failure 403 "model is not allowed")
            (find_first (λ m, (name m =? model_name)%string) (allowed_models policy));
  field ← token_field_of route obj;
  completion_tokens ← completion_limit policy field obj;
  let obj := obj_insert field (num completion_tokens) obj in
  let input_tokens := conservative_input_tokens (blen (req_body req)) in
  tokens ← ok_or (llm_failure 400 "token reservation is too large")
             (checked_add input_tokens completion_tokens);
  cost ← ok_or (llm_failure 400 "cost reservation is too large")
           (estimate_cost model input_tokens completion_tokens);
  Ok (mkLlmAdmission route session obj is_streaming model field completion_tokens tokens cost).
End admission.

(** ** Upstream responses *)

(** What reqwest hands back: status, the headers the code reads, the declared
    length and the body ([None]: reading it failed). *)
Record upstream_response : Type := mkUpstream {
  u_status : Z;
  u_content_type : option string;
  u_location : option string;
  u_content_length : option Z;
  u_body : option bytes;
}.
Definition response_content_type (r : upstream_response) : string :=
  default "application/octet-stream"%string (u_content_type r).

Definition read_bounded (r : upstream_response) (limit : Z) : result Failure bytes :=
  let too_large := mkFailure 502 "upstream" "upstream body exceeds configured limit" in
  _ ← bail_if (is_some_and (λ n, limit <? n) (u_content_length r)) too_large;
  all ← ok_or (mkFailure 502 "upstream" "cannot read upstream body") (u_body r);
  let body := take (Z.to_nat (saturating_add limit 1)) all in
  _ ← bail_if (limit <? blen body) too_large;
  Ok body.

(** [text.chars().filter(..)]: control characters other than tab and line ends. *)
Definition sanitize (text : string) : string :=
  of_chars (List.filter (λ c, negb (is_control c) || (c =? 10) || (c =? 13) || (c =? 9)) (chars text)).

(** Decimal text of a non-negative integer. *)
Definition dec (n : Z) : string := pretty (Z.to_N n).
(** [seq] is the process-wide counter before the call. *)
Definition quarantine_id (now pid seq : Z) : string :=
  (dec now ++ "-" ++ dec pid ++ "-" ++ dec seq)%string.

(** * Facts *)

Lemma div_ceil_spec a b c : 0 < b → div_ceil a b = c ↔ a ≤ c * b < a + b.
Proof.
  intros Hb. unfold div_ceil. pose proof (Z.div_mod a b ltac:(lia)) as E.
  pose proof (Z.mod_pos_bound a b ltac:(lia)) as B.
  set (q := a / b) in *. set (r := a mod b) in *. destruct (Z.eqb_spec r 0); split; intros; nia.
Qed.

Lemma read_bounded_bound r limit b : read_bounded r limit = Ok b → blen b ≤ limit.
Proof. unfold read_bounded. intros Hr. inv_ok. injection Hr as <-. by reflect. Qed.
Lemma read_bounded_complete r limit b :
  0 ≤ limit < u64_max → read_bounded r limit = Ok b → u_body r = Some b ∧ blen b ≤ limit.
Proof.
  unfold read_bounded, saturating_add. intros Hl Hr. inv_ok. injection Hr as <-.
  rewrite Z.min_r in * by lia. reflect. unfold blen in *. rewrite length_take in *.
  rewrite take_ge by lia. split; [done|lia].
Qed.

(** The exact price in micro-USD times a million. *)
Definition price (m : ModelPolicy) (i o : Z) : Z :=
  i * input_microusd_per_million m + o * output_microusd_per_million m.
Definition priced (m : ModelPolicy) : Prop :=
  0 ≤ input_microusd_per_million m ∧ 0 ≤ output_microusd_per_million m.

Lemma estimate_cost_Some m i o c :
  estimate_cost m i o = Some c ↔ c ≤ u64_max ∧ price m i o ≤ c * 1000000 < price m i o + 1000000.
Proof.
  unfold estimate_cost, price. set (t := i * _ + o * _).
  rewrite <-(div_ceil_spec t 1000000 c) by lia.
  assert (u128_max < t → u64_max < div_ceil t 1000000) as Hbig.
  { intros Ht. destruct (proj1 (div_ceil_spec t 1000000 _ ltac:(lia)) eq_refl) as [Hle _].
    unfold u128_max, u64_max in *. lia. }
  destruct (Z.leb_spec t u128_max); simpl.
  - destruct (Z.leb_spec (div_ceil t 1000000) u64_max); split; intros; destruct_and?; simplify_eq; try done; lia.
  - specialize (Hbig ltac:(lia)). split; [done|]. intros [? <-]. lia.
Qed.

Lemma price_mono m i o i' o' : priced m → 0 ≤ i' ≤ i → 0 ≤ o' ≤ o → price m i' o' ≤ price m i o.
Proof. unfold price. intros [? ?] ? ?. apply Z.add_le_mono; apply Z.mul_le_mono_nonneg_r; lia. Qed.

(** A smaller usage costs no more, and its cost is representable. *)
Lemma estimate_cost_mono m i o i' o' c :
  priced m → 0 ≤ i' ≤ i → 0 ≤ o' ≤ o → estimate_cost m i o = Some c →
  ∃ c', estimate_cost m i' o' = Some c' ∧ c' ≤ c.
Proof.
  intros Hp Hi Ho [Hc Hr]%estimate_cost_Some. pose proof (price_mono m i o i' o' Hp Hi Ho).
  set (c' := div_ceil (price m i' o') 1000000).
  assert (price m i' o' ≤ c' * 1000000 < price m i' o' + 1000000) as Hc'.
  { by apply div_ceil_spec. }
  exists c'. split; [apply estimate_cost_Some|]; lia.
Qed.

Lemma estimate_cost_pos m i o c :
  priced m → input_microusd_per_million m ≠ 0 → output_microusd_per_million m ≠ 0 →
  0 ≤ i → 1 ≤ o → estimate_cost m i o = Some c → 1 ≤ c.
Proof.
  intros [? ?] ? ? ? ? [_ Hr]%estimate_cost_Some. unfold price in Hr.
  assert (1 ≤ o * output_microusd_per_million m) by nia.
  assert (0 ≤ i * input_microusd_per_million m) by nia. lia.
Qed.

(** ** The two request policies agree *)

Lemma bool_true_of_negb b : negb b = false → b = true.
Proof. by destruct b. Qed.

Lemma object_with_keys_Some v ks m :
  object_with_keys v ks = Some m → v = Object m ∧ ∀ k, k ∈ obj_keys m → k ∈ ks.
Proof.
  unfold object_with_keys. destruct v; try done. simpl. destruct (forallb _ _) eqn:E; [|done].
  intros [= <-]. split; [done|]. intros k Hk. rewrite forallb_elem in E. by apply str_in_elem, E.
Qed.

Lemma strict_tool_local v : strict_tool v = true → local_tool v = true.
Proof.
  unfold strict_tool, local_tool. destruct (object_with_keys _ _) as [m|] eqn:E; [|done].
  apply object_with_keys_Some in E as [-> _]. simpl. rewrite andb_true_iff. intros [Ht _].
  apply opt_str_eq_Some in Ht. unfold get_str in Ht. by rewrite Ht.
Qed.
Lemma strict_choice_allowed v : strict_choice v = true → choice_allowed v = true.
Proof.
  destruct v; try done. unfold strict_choice, choice_allowed.
  destruct (object_with_keys _ _) as [m'|] eqn:E; [|done].
  apply object_with_keys_Some in E as [[= ->] _]. cbn [is_some_and]. rewrite andb_true_iff. intros [Ht _].
  apply opt_str_eq_Some in Ht. unfold get_str in Ht. unfold local_tool. cbn [vget]. by rewrite Ht.
Qed.

Lemma strict_envelope_local payload :
  require_strict_envelope payload = Ok () → require_local_tools payload = Ok ().
Proof.
  unfold require_strict_envelope, require_local_tools. intros Hs. inv_ok. apply bail_if_Ok.
  repeat match goal with H : _ || _ = false |- _ => apply orb_false_iff in H as [? ?] end.
  rewrite !orb_false_iff, !negb_false_iff. split_and!.
  - rewrite existsb_false. intros f Hf. unfold obj_contains.
    destruct (obj_get f payload) as [v|] eqn:E; [|done].
    apply obj_get_elem in E.
    match goal with K : existsb _ (obj_keys payload) = false |- _ =>
      rewrite existsb_false in K; specialize (K f E); rename K into Hk end.
    apply list_elem_of_In in Hf. destruct Hf as [<-|[<-|[<-|[<-|[]]]]]; discriminate Hk.
  - destruct (obj_get "tools" payload) as [t|]; [|done]. simpl in *.
    match goal with K : negb (is_some_and _ (as_array t)) = false |- _ => apply bool_true_of_negb in K end.
    unfold local_tools. destruct (as_array t) as [l|]; [|done]. simpl in *.
    rewrite forallb_elem in *. eauto using strict_tool_local.
  - destruct (obj_get "tool_choice" payload) as [t|]; [|done]. simpl in *.
    by apply strict_choice_allowed, bool_true_of_negb.
Qed.

(** ** Admission *)

Section admission_facts.
Context `{SerdeJson}.

(** What an admitted request guarantees about the provider call it leads to. *)
Record within_policy (p : LlmPolicy) (req : Request) (a : LlmAdmission) : Prop := {
  wi_model : ad_model a ∈ allowed_models p;
  wi_forwarded : get_str "model" (ad_payload a) = Some (name (ad_model a));
  wi_limit : obj_get (ad_token_field a) (ad_payload a) = Some (num (ad_completion_tokens a));
  wi_completion : 1 ≤ ad_completion_tokens a ≤ max_completion_tokens p;
  wi_tokens : ad_estimated_tokens a = blen (req_body req) + ad_completion_tokens a
              ∧ ad_estimated_tokens a ≤ u64_max;
  wi_cost : estimate_cost (ad_model a) (blen (req_body req)) (ad_completion_tokens a)
            = Some (ad_estimated_cost a);
  wi_strict : strict_cost_envelope p = true →
    ad_route a = "/v1/chat/completions"%string ∧ ad_session a = None
    ∧ ∃ o, from_slice (req_body req) = Some (Object o) ∧ require_strict_envelope o = Ok ();
  wi_streaming : ad_streaming a = true → enable (streaming p) = true;
}.

(** A body is a [Vec] on a 64-bit machine, and [as_u64] of a parsed number is
    not negative. *)
Definition body_u64 (req : Request) : Prop := blen (req_body req) ≤ u64_max.
Definition parsed_naturals (req : Request) : Prop :=
  ∀ o k v x, from_slice (req_body req) = Some (Object o) → obj_get k o = Some v →
             as_u64 v = Some x → 0 ≤ x.

Lemma token_field_ne route o f : token_field_of route o = Ok f → f ≠ "model"%string.
Proof.
  unfold token_field_of. destruct (_ =? _)%string; [by intros [= <-]|].
  destruct (obj_contains _ _); intros Hf; inv_ok; by injection Hf as <-.
Qed.

Lemma completion_limit_bounds p f o n :
  (∀ v x, obj_get f o = Some v → as_u64 v = Some x → 0 ≤ x) → 0 ≤ max_completion_tokens p →
  completion_limit p f o = Ok n → 1 ≤ n ≤ max_completion_tokens p.
Proof.
  intros Hv Hp Hl. unfold completion_limit in Hl. inv_ok. injection Hl as <-. reflect.
  destruct (obj_get f o) as [v|] eqn:E; inv_ok.
  - specialize (Hv _ _ eq_refl H2). injection H0 as <-. lia.
  - injection H0 as <-. lia.
Qed.

Lemma admit_llm_sound p req a :
  0 ≤ max_completion_tokens p → body_u64 req →
  parsed_naturals req →
  admit_llm p req = Ok a → within_policy p req a.
Proof.
  intros Hmax Hbody Hnat. unfold admit_llm. intros Ha. inv_ok. injection Ha as <-.
  unfold body_u64 in Hbody. unfold conservative_input_tokens in *. rewrite Z.min_l in * by lia.
  match goal with E : as_object ?v = Some ?o |- _ =>
    destruct v; try discriminate E; injection E as -> end.
  match goal with F : find_first _ _ = Some _ |- _ => apply find_first_Some in F as [Hin Hname] end.
  match goal with F : checked_add _ _ = Some _ |- _ => apply checked_add_Some in F as [Hle Hsum] end.
  match goal with F : completion_limit _ _ _ = Ok _ |- _ =>
    apply completion_limit_bounds in F as Hn; [|by eauto|done] end.
  apply String.eqb_eq in Hname.
  split; simpl.
  - done.
  - unfold get_str in *. rewrite obj_get_insert_ne by (symmetry; eauto using token_field_ne). congruence.
  - apply obj_get_insert.
  - done.
  - lia.
  - done.
  - intros Hs. rewrite Hs in *. simpl in *. split_and!.
    + match goal with E : negb (_ =? _)%string = false |- _ => by apply negb_false_iff, String.eqb_eq in E end.
    + match goal with E : is_some ?s = false |- _ => by destruct s end.
    + eauto.
  - intros ->. simpl in *. by apply bool_true_of_negb.
Qed.

(** ** Claims *)

(** Cost estimation is exact: for the model's prices the estimate is the least
    whole micro-USD amount that covers [input] and [output] tokens, and the
    estimate fails exactly when that amount does not fit 64 bits; in particular
    128-bit intermediate overflow never hides a cost. *)
Theorem estimate_cost_is_exact m i o :
  match estimate_cost m i o with
  | Some c => price m i o ≤ c * 1000000 ∧ (∀ c', price m i o ≤ c' * 1000000 → c ≤ c')
  | None => ∀ c', price m i o ≤ c' * 1000000 → u64_max < c'
  end.
Proof.
  destruct (estimate_cost m i o) as [c|] eqn:E.
  - apply estimate_cost_Some in E as [_ Hr]. split; [lia|]. intros c' Hc'. lia.
  - intros c' Hc'. set (c := div_ceil (price m i o) 1000000).
    assert (price m i o ≤ c * 1000000 < price m i o + 1000000) as Hc by by apply div_ceil_spec.
    destruct (Z.ltb_spec u64_max c); [lia|].
    assert (estimate_cost m i o = Some c) as E' by (apply estimate_cost_Some; lia). congruence.
Qed.

(** C35.  A reservation covers the provider call it authorises.  For an admitted
    request, any usage the provider can report for it (at most one token per body
    byte of input, at most the forwarded limit of output) stays within the reserved
    tokens and the reserved cost; the forwarded payload names an allowed model and
    carries the clamped, positive token limit, and in strict mode the request was a
    chat completion inside the strict envelope without session affinity. *)
Theorem reservation_covers_usage p req a i o :
  0 ≤ max_completion_tokens p → body_u64 req → Forall priced (allowed_models p) →
  parsed_naturals req →
  admit_llm p req = Ok a →
  0 ≤ i ≤ blen (req_body req) → 0 ≤ o ≤ ad_completion_tokens a →
  within_policy p req a ∧ i + o ≤ ad_estimated_tokens a
  ∧ ∃ c, estimate_cost (ad_model a) i o = Some c ∧ c ≤ ad_estimated_cost a.
Proof.
  intros Hmax Hbody Hpr Hnat Ha Hi Ho.
  pose proof (admit_llm_sound p req a Hmax Hbody Hnat Ha) as Hw. split; [done|]. destruct Hw.
  split; [lia|]. eapply estimate_cost_mono; [|exact Hi|exact Ho|done].
  rewrite Forall_forall in Hpr. by apply Hpr.
Qed.

(** The strict envelope implies the local-tools policy: a request accepted by
    the strict cost envelope never names a provider extension, a remote tool or a
    remote tool choice, so strict mode is not weaker than the default policy. *)
Theorem strict_envelope_is_local payload :
  require_strict_envelope payload = Ok () → require_local_tools payload = Ok ().
Proof. apply strict_envelope_local. Qed.

(** A bounded upstream read returns the complete body or fails: it never
    truncates, and never returns more than the configured limit. *)
Theorem read_bounded_is_complete r limit b :
  0 ≤ limit < u64_max → read_bounded r limit = Ok b → u_body r = Some b ∧ blen b ≤ limit.
Proof. apply read_bounded_complete. Qed.

(** Sanitised fetch content is clean text: its characters are those of the body
    without any control character other than tab, line feed and carriage return, in
    the same order, and nothing else is dropped. *)
Theorem sanitize_removes_controls text :
  chars (sanitize text)
    = List.filter (λ c, negb (is_control c) || (c =? 10) || (c =? 13) || (c =? 9)) (chars text)
  ∧ ∀ c, c ∈ chars (sanitize text) → is_control c = true → c = 9 ∨ c = 10 ∨ c = 13.
Proof.
  unfold sanitize. rewrite chars_of_chars.
  2: { pose proof (chars_scalar text) as Hs. rewrite Forall_forall in Hs |- *. intros c Hc.
       apply list_elem_of_In, filter_In in Hc as [Hc _]. by apply Hs, list_elem_of_In. }
  split; [done|]. intros c Hc Hctl. apply list_elem_of_In, filter_In in Hc as [_ Hc].
  rewrite Hctl in Hc. simpl in Hc. reflect. lia.
Qed.
End admission_facts.
