(* ===== verification/Storage.v ===== *)
(** * Quarantine, audit log and credentials

    The remaining file-backed parts of [crates/tentaflake-broker/src/state.rs].  A
    held directory descriptor is modelled with the path it was opened at
    ([q_path]): the paths under [/proc/self/fd/N] are the paths under it. *)

From S2P Require Import Prelude RustStr Json Posix Budget.

(** ** Quarantine *)

Record Quarantine : Type := mkQuarantine {
  directory : fd;
  q_path : string;
  max_bytes : Z;
  max_entries : Z;
}.

(** [Path::file_name] of a path without a trailing slash. *)
Definition path_file_name (p : string) : option string :=
  let n := match rsplit_once "/" p with Some (_, n) => n | None => p end in
  if str_is_empty n || (n =? ".")%string || (n =? "..")%string then None else Some n.

(** The per-entry test of [usage]. *)
Definition unsafe_entry (w : world) (uid : Z) (i : Z) (n : inode) : bool :=
  negb (bool_decide (i_kind n = Regular)) || negb (nlink w i =? 1) || negb (i_uid n =? uid)
  || negb (mode_and (i_mode n) 63 =? 0).

(** The loop of [usage]; its locals are the running totals. *)
Fixpoint usage_scan (max_bytes max_entries uid : Z) (l : list (string * Z)) (bytes entries : Z) :
    M world string (Z * Z) :=
  match l with
  | [] => mret (bytes, entries)
  | (p, _) :: l =>
      _ ← throw_if (entries =? max_entries) "quarantine entry limit exceeded";
      '(i, n) ← map_err (io_err "cannot inspect quarantine entry") (sys_symlink_metadata p);
      w ← get;
      _ ← throw_if (unsafe_entry w uid i n) "quarantine contains an unsafe entry";
      bytes ← lift (ok_or "quarantine byte overflow" (checked_add bytes (blen (i_data n))));
      let entries := entries + 1 in
      _ ← throw_if (max_bytes <? bytes) "quarantine byte limit exceeded";
      usage_scan max_bytes max_entries uid l bytes entries
  end.
Definition usage (q : Quarantine) : M world string (Z * Z) :=
  metadata ← map_err (io_err "cannot inspect quarantine") (sys_fstat (directory q));
  l ← map_err (io_err "cannot scan quarantine") (sys_read_dir (q_path q));
  usage_scan (max_bytes q) (max_entries q) (i_uid metadata) l 0 0.

Definition open_quarantine (path : string) (max_bytes max_entries : Z) : M world string Quarantine :=
  _ ← throw_if ((max_bytes =? 0) || (max_entries =? 0) || negb (starts_with "/" path))
        "invalid quarantine limits or path";
  parent ← lift (ok_or "quarantine has no parent" (path_parent path));
  name ← lift (ok_or "quarantine has no directory name" (path_file_name path));
  parent ← map_err (io_err "cannot resolve quarantine parent") (sys_canonicalize parent);
  pfd ← map_err (io_err "cannot open quarantine parent") (sys_open_dir parent);
  uid ← gets w_euid;
  metadata ← map_err (io_err "cannot inspect quarantine parent") (sys_fstat pfd);
  _ ← throw_if ((negb (i_uid metadata =? 0) && negb (i_uid metadata =? uid))
                || negb (mode_and (i_mode metadata) 18 (* 0o022 *) =? 0))
        "quarantine parent must be host-controlled";
  let next := (parent ++ "/" ++ name)%string in
  r ← attempt (sys_mkdir next 448 (* 0o700 *));
  _ ← match r with
      | Ok _ => map_err (io_err "cannot sync quarantine parent") sys_sync
      | Err AlreadyExists => mret tt
      | Err _ => fail "cannot create quarantine directory"
      end;
  dir ← map_err (io_err "quarantine must be a real directory") (sys_open_dir next);
  metadata ← map_err (io_err "cannot inspect quarantine") (sys_fstat dir);
  _ ← throw_if (negb (i_uid metadata =? uid) || negb (mode_and (i_mode metadata) 63 =? 0))
        "quarantine must be owned by the broker and host-private";
  _ ← lock_owner dir true;
  let q := mkQuarantine dir next max_bytes max_entries in
  r ← attempt (usage q);
  match r with
  | Ok _ => mret q
  | Err e => _ ← modify (close dir); fail e
  end.

Definition object_path (q : Quarantine) (id : string) : string := (q_path q ++ "/" ++ id)%string.

Definition store (q : Quarantine) (id : string) (bytes : bytes) : M world string unit :=
  _ ← throw_if (str_is_empty id || negb (all_bytes (λ b, is_ascii_digit b || (b =? 45)) id))
        "invalid quarantine object identifier";
  '(used_bytes, used_entries) ← usage q;
  let size := blen bytes in
  _ ← throw_if ((max_entries q <=? used_entries) || (saturating_sub (max_bytes q) used_bytes <? size))
        "quarantine capacity exhausted";
  file ← create_private (object_path q id);
  _ ← map_err (io_err "cannot reserve quarantine object") (sys_set_len file size);
  _ ← map_err (io_err "cannot sync quarantine reservation") sys_sync;
  _ ← map_err (io_err "cannot sync quarantine entry") sys_sync;
  _ ← map_err (io_err "cannot write quarantine object") (sys_write file bytes);
  map_err (io_err "cannot sync quarantine object") sys_sync.

(** ** Audit log *)

Record Audit : Type := mkAudit { audit_path : string; audit_max_bytes : Z }.

Definition rotated_path (a : Audit) : string := with_extension "jsonl.1" (audit_path a).

(** [path.exists()]: a failed lookup counts as absent. *)
Definition sys_exists (p : string) : Sys bool :=
  r ← attempt (sys_open_follow p);
  mret (is_ok r).

Definition rotate (a : Audit) : M world string unit :=
  r ← attempt (sys_open_follow (audit_path a));
  let len := match r with Ok n => blen (i_data n) | Err _ => 0 end in
  if audit_max_bytes a <=? len then
    exists_ ← map_err (io_err "cannot rotate audit log") (sys_exists (rotated_path a));
    _ ← (if (exists_ : bool) then map_err (io_err "cannot rotate audit log") (sys_remove (rotated_path a))
         else mret tt);
    map_err (io_err "cannot rotate audit log") (sys_rename (audit_path a) (rotated_path a))
  else mret tt.

Section audit.
Context `{SerdeJson}.

Definition audit_event (ts : Z) (agent kind outcome : string) (detail : value) : value :=
  json_obj [("ts"%string, num ts); ("agent"%string, Str agent); ("kind"%string, Str kind);
            ("outcome"%string, Str outcome); ("detail"%string, detail)].

Definition record (a : Audit) (agent kind outcome : string) (detail : value) :
    M world string unit :=
  _ ← ensure_parent (audit_path a);
  _ ← rotate a;
  ts ← unix_seconds;
  let event := audit_event ts agent kind outcome detail in
  file ← map_err (io_err "cannot open audit log") (sys_open_create (audit_path a) 384);
  _ ← map_err (io_err "cannot encode audit") (sys_append file (to_vec event));
  _ ← map_err (io_err "cannot write audit") (sys_append file [10]);
  _ ← map_err (io_err "cannot sync audit log") sys_sync;
  _ ← lift (ok_or "audit path has no parent" (path_parent (audit_path a)));
  map_err (io_err "cannot sync audit directory") sys_sync.

Definition check_ready (a : Audit) : M world string unit :=
  _ ← ensure_parent (audit_path a);
  file ← map_err (io_err "cannot open audit log") (sys_open_create (audit_path a) 384);
  metadata ← map_err (io_err "cannot stat audit log") (sys_fstat file);
  _ ← throw_if (negb (bool_decide (i_kind metadata = Regular))
                || negb (mode_and (i_mode metadata) 63 =? 0))
        "audit log must be a private regular file";
  map_err (io_err "cannot sync audit log") sys_sync.
End audit.

(** ** Credentials *)

Definition is_newline (b : Z) : bool := (b =? 13) || (b =? 10).
(** [trim_end_matches(['\r', '\n'])], on the bytes (both are ASCII). *)
Definition trim_newlines (s : string) : string :=
  bytes_str (rev (drop_while is_newline (rev (str_bytes s)))).

Definition read_secret_from (path : string) (credentials_directory : option string) :
    M world string string :=
  file ← map_err (io_err "cannot open credential") (sys_open_read path);
  metadata ← map_err (io_err "cannot stat credential") (sys_fstat file);
  _ ← throw_if (negb (bool_decide (i_kind metadata = Regular))) "credential must be a regular file";
  let len := blen (i_data metadata) in
  _ ← throw_if ((len =? 0) || (4096 <? len)) "credential file must contain 1..4096 bytes";
  let mode := i_mode metadata in
  let is_systemd_credential :=
    is_some_and (λ d, starts_with "/" d && opt_str_eq (path_parent path) d
                      && is_some (path_file_name path)) credentials_directory in
  _ ← throw_if (negb (mode_and mode 7 =? 0) || (negb (mode_and mode 56 =? 0) && negb is_systemd_credential))
        "credential file must not be accessible by group or other";
  raw ← map_err (io_err "cannot read credential") (sys_read_all file);
  value ← lift (ok_or "cannot read credential" (from_utf8 raw));
  let value := trim_newlines value in
  _ ← throw_if (str_is_empty value || existsb is_newline (str_bytes value))
        "credential must be one non-empty line";
  mret value.
(** [directory]: the environment variable [CREDENTIALS_DIRECTORY]. *)
Definition read_secret (directory : option string) (path : string) : M world string string :=
  read_secret_from path directory.

(** ** Constant-time comparison *)

(** The loop [for index in 0..length]; a missing byte counts as 0. *)
Fixpoint ct_fold (left right : list Z) (indices : list nat) (difference : Z) : Z :=
  match indices with
  | [] => difference
  | k :: ks =>
      ct_fold left right ks
        (Z.lor difference (Z.lxor (default 0 (left !! k)) (default 0 (right !! k))))
  end.
Definition constant_time_eq (left right : list Z) : bool :=
  let length' := Nat.max (length left) (length right) in
  ct_fold left right (seq 0 length') (Z.lxor (blen left) (blen right)) =? 0.

(** * Facts *)

(** ** Constant-time comparison decides equality *)

Lemma ct_fold_zero l r ks d :
  ct_fold l r ks d = 0 ↔ d = 0 ∧ ∀ k, k ∈ ks → default 0 (l !! k) = default 0 (r !! k).
Proof.
  revert d. induction ks as [|k ks IH]; intros d; simpl.
  { split; [|tauto]. intros ->. split; [done|]. by intros k Hk%list_elem_of_In. }
  rewrite IH, Z.lor_eq_0_iff, Z.lxor_eq_0_iff. setoid_rewrite elem_of_cons. naive_solver.
Qed.

Lemma constant_time_eq_spec l r : constant_time_eq l r = true ↔ l = r.
Proof.
  unfold constant_time_eq. rewrite Z.eqb_eq, ct_fold_zero, Z.lxor_eq_0_iff. split.
  - intros [Hlen Hk]. unfold blen in Hlen. apply list_eq_same_length with (length l); [lia|lia|].
    intros k x y Hlt Hx Hy. specialize (Hk k). rewrite Hx, Hy in Hk. apply Hk, elem_of_seq. lia.
  - by intros ->.
Qed.

(** ** Credentials *)

Lemma drop_while_suffix {A} (p : A → bool) l : ∃ k, l = k ++ drop_while p l ∧ Forall (λ x, p x = true) k.
Proof.
  induction l as [|x l (k & E & Hk)]; simpl; [by exists []|].
  destruct (p x) eqn:Hp; [|by exists []]. exists (x :: k). split; [simpl; congruence|by constructor].
Qed.

Lemma trim_newlines_shape s :
  ∃ t, str_bytes s = str_bytes (trim_newlines s) ++ t ∧ Forall (λ b, is_newline b = true) t.
Proof.
  unfold trim_newlines. destruct (drop_while_suffix is_newline (rev (str_bytes s))) as (k & E & Hk).
  exists (rev k). split; [|by apply Forall_rev].
  rewrite str_bytes_bytes_str.
  - rewrite <-rev_app_distr, <-E. by rewrite rev_involutive.
  - apply Forall_rev. pose proof (str_bytes_ok s) as Hok. apply Forall_rev in Hok. rewrite E in Hok.
    by apply Forall_app in Hok as [_ ?].
Qed.

Lemma read_secret_reader path dir : reader (read_secret_from path dir) (λ w v,
  ∃ i n t, lookup_inode w path = Some (i, n) ∧ i_kind n = Regular ∧ mode_and (i_mode n) 7 = 0
    ∧ 1 ≤ blen (i_data n) ≤ 4096 ∧ i_data n = str_bytes v ++ t ∧ Forall (λ b, is_newline b = true) t
    ∧ v ≠ EmptyString ∧ Forall (λ b, is_newline b = false) (str_bytes v)).
Proof.
  intros w. unfold read_secret_from. wp_step; wp_step.
  wp_reader (reader_open_read path) as f w1 S1 (n & Hn & _); [|done].
  wp_step; wp_step. wp_reader (reader_fstat f) as n' w2 S2 Hn'; [|by etrans].
  assert (same_fs w w2) as S by by etrans.
  assert (w_inodes w !! fd_ino f = Some n) as Hino.
  { unfold lookup_inode in Hn. apply bind_Some in Hn as (i & Hi & Hn).
    apply bind_Some in Hn as (n1 & Hn1 & [= -> ->]). done. }
  rewrite (sf_inodes _ _ S1), Hino in Hn'. injection Hn' as <-.
  wp_step. apply wp_throw_if; intros Hk; [done|]. apply negb_false_iff, bool_decide_eq_true in Hk.
  cbv zeta. wp_step. apply wp_throw_if; intros Hl; [done|].
  apply orb_false_iff in Hl as [Hl1%Z.eqb_neq Hl2%Z.ltb_ge].
  wp_step. apply wp_throw_if; intros Hm; [done|].
  apply orb_false_iff in Hm as [Hm%negb_false_iff%Z.eqb_eq _].
  wp_step; wp_step. wp_reader (reader_read_all f) as raw w3 S3 (x & Hx & ->); [|by chain].
  assert (same_fs w w3) as S' by by chain.
  rewrite (sf_inodes _ _ S), Hino in Hx. injection Hx as <-.
  wp_step. apply wp_lift; [|done]. intros v Hv. apply ok_or_Ok in Hv. unfold from_utf8 in Hv.
  destruct (utf8_decode (i_data n)) as [cs|] eqn:Hu; [injection Hv as <-|done].
  wp_step. apply wp_throw_if; intros Hne; [done|]. wp_step. split; [done|].
  apply orb_false_iff in Hne as [Hne1 Hne2].
  destruct (trim_newlines_shape (bytes_str (i_data n))) as (t & Ht & Hnl).
  exists (fd_ino f), n, t. split_and!; try done; [unfold blen in *; lia| | |].
  - rewrite <-Ht. symmetry. apply str_bytes_bytes_str. by eapply utf8_decode_ok.
  - by apply String.eqb_neq.
  - apply Forall_forall. rewrite existsb_false in Hne2. auto.
Qed.

(** ** Quarantine capacity *)

Definition size_of (w : world) (i : Z) : Z :=
  match w_inodes w !! i with Some n => blen (i_data n) | None => 0 end.
Definition sizes (w : world) (l : list (string * Z)) : Z :=
  foldr (λ e acc, size_of w (snd e) + acc) 0 l.
(** What a directory retains: logical bytes and entries. *)
Definition held_bytes (w : world) (dir : string) : Z := sizes w (dir_entries w dir).
Definition held_entries (w : world) (dir : string) : Z := blen (dir_entries w dir).

(** Every name leads to an inode. *)
Definition solid (w : world) : Prop := ∀ p i, w_names w !! p = Some i → is_Some (w_inodes w !! i).

Lemma sizes_perm w l l' : l ≡ₚ l' → sizes w l = sizes w l'.
Proof. induction 1; simpl; lia. Qed.
Lemma sizes_ext w w' l :
  (∀ e, e ∈ l → size_of w' (snd e) = size_of w (snd e)) → sizes w' l = sizes w l.
Proof.
  induction l as [|e l IH]; intros He; simpl; [done|].
  rewrite (He e) by set_solver. rewrite IH; [done|]. intros e' ?. apply He. set_solver.
Qed.
Lemma dir_entries_same w w' dir : w_names w' = w_names w → dir_entries w' dir = dir_entries w dir.
Proof. unfold dir_entries. by intros ->. Qed.
Lemma held_same w w' dir : same_fs w w' →
  held_bytes w' dir = held_bytes w dir ∧ held_entries w' dir = held_entries w dir.
Proof.
  intros S. unfold held_bytes, held_entries. rewrite (dir_entries_same w w') by apply S.
  split; [|done]. apply sizes_ext. intros e _. unfold size_of. by rewrite (sf_inodes _ _ S).
Qed.

Lemma dir_entries_names w dir p i : (p, i) ∈ dir_entries w dir → w_names w !! p = Some i.
Proof.
  unfold dir_entries. rewrite elem_of_map_to_list. intros H. by apply map_lookup_filter_Some in H as [? _].
Qed.

Lemma dir_entries_insert w dir p i :
  w_names w !! p = None → child_of dir p = true →
  map_to_list (filter (λ kv, child_of dir kv.1 = true) (<[p := i]> (w_names w)))
  ≡ₚ (p, i) :: dir_entries w dir.
Proof.
  intros Hp Hc. rewrite map_filter_insert_True by done. apply map_to_list_insert.
  apply map_lookup_filter_None. by left.
Qed.

Lemma usage_scan_spec mb me uid l b e w :
  (∀ p i, (p, i) ∈ l → w_names w !! p = Some i) → b ≤ mb → e ≤ me →
  wp (usage_scan mb me uid l b e)
    (λ x w', same_fs w w' ∧ fst x = b + sizes w l ∧ snd x = e + blen l ∧ fst x ≤ mb ∧ snd x ≤ me)
    (λ _ w', same_fs w w') w.
Proof.
  revert b e w. induction l as [|[p i] l IH]; intros b e w Hl Hb He; cbn [usage_scan].
  { wp_step. unfold sizes, blen. simpl. split_and!; [reflexivity|lia..]. }
  wp_step. apply wp_throw_if; intros Hne; [reflexivity|]. apply Z.eqb_neq in Hne.
  wp_step; wp_step. wp_reader (reader_symlink_metadata p) as x w1 S1 Hx; [|done].
  destruct x as [i' n]. wp_step; wp_step. wp_step. apply wp_throw_if; intros _; [done|].
  wp_step. apply wp_lift; intros b' Hb'; [|done]. apply ok_or_Ok, checked_add_Some in Hb' as [_ ->].
  cbv zeta. wp_step. apply wp_throw_if; intros Hmb; [done|]. apply Z.ltb_ge in Hmb.
  unfold lookup_inode in Hx. rewrite (Hl p i) in Hx by set_solver. simpl in Hx.
  destruct (w_inodes w !! i) as [n'|] eqn:Hn; simplify_eq/=.
  wp_apply (IH _ _ w1).
  - intros q j Hq. rewrite (sf_names _ _ S1). apply Hl. set_solver.
  - done.
  - lia.
  - intros [b2 e2] w2 (S2 & H1 & H2 & H3). simpl in *. split_and!; [by etrans| |unfold blen in *; simpl; lia|lia|lia].
    rewrite H1, (sizes_ext w w1). { unfold size_of at 1. rewrite Hn. lia. }
    intros [q j] _. unfold size_of. by rewrite (sf_inodes _ _ S1).
  - intros x w2 S2. by etrans.
Qed.

Lemma usage_spec q w :
  0 ≤ max_bytes q → 0 ≤ max_entries q →
  wp (usage q)
    (λ x w', same_fs w w' ∧ fst x = held_bytes w (q_path q) ∧ snd x = held_entries w (q_path q)
             ∧ fst x ≤ max_bytes q ∧ snd x ≤ max_entries q)
    (λ _ w', same_fs w w') w.
Proof.
  intros Hmb Hm. unfold usage. wp_step; wp_step. wp_reader (reader_fstat (directory q)) as n w1 S1 _; [|done].
  wp_step; wp_step. wp_reader (reader_read_dir (q_path q)) as l w2 S2 ->; [|by etrans].
  assert (same_fs w w2) as S by by etrans.
  rewrite (dir_entries_same w w1) by apply S1.
  wp_apply (usage_scan_spec _ _ _ _ 0 0 w2).
  - intros p i Hp%dir_entries_names. by rewrite (sf_names _ _ S).
  - done.
  - done.
  - intros x w3 (S3 & H1 & H2 & H3 & H4). split_and!; [by etrans| |by rewrite H2, Z.add_0_l|done|done].
    rewrite H1, (sizes_ext w w2); [done|]. intros e _. unfold size_of. by rewrite (sf_inodes _ _ S).
  - intros x w3 S3. by etrans.
Qed.

(** The new object of a store: entry [p] on inode [i] holding [d], everything
    else in the directory as in [w]. *)
Record placed (dir p : string) (i : Z) (d : bytes) (w w' : world) : Prop := {
  pl_wf : wf w';
  pl_entries : dir_entries w' dir ≡ₚ (p, i) :: dir_entries w dir;
  pl_name : w_names w' !! p = Some i;
  pl_rest : ∀ e, e ∈ dir_entries w dir → snd e ≠ i ∧ size_of w' (snd e) = size_of w (snd e);
  pl_frame : frame [p] w w';
  pl_link : nlink w' i = 1;
  pl_node : ∃ n, w_inodes w' !! i = Some n ∧ i_data n = d;
}.

Lemma placed_held dir p i d w w' :
  placed dir p i d w w' →
  held_bytes w' dir = held_bytes w dir + blen d ∧ held_entries w' dir = held_entries w dir + 1.
Proof.
  intros []. unfold held_bytes, held_entries. rewrite (sizes_perm _ _ _ pl_entries0). split.
  - simpl. destruct pl_node0 as (n & Hn & <-). unfold size_of at 1. rewrite Hn.
    rewrite (sizes_ext w w'); [lia|]. intros e He. by apply pl_rest0.
  - unfold blen. rewrite (Permutation_length pl_entries0). simpl. lia.
Qed.

Lemma placed_same dir p i d w w1 w2 : placed dir p i d w w1 → same_fs w1 w2 → placed dir p i d w w2.
Proof.
  intros [] S. assert (∀ j, size_of w2 j = size_of w1 j) as Hsz.
  { intros j. unfold size_of. by rewrite (sf_inodes _ _ S). }
  split.
  - by rewrite <-S.
  - by rewrite (dir_entries_same w1 w2) by apply S.
  - by rewrite (sf_names _ _ S).
  - intros e He. rewrite Hsz. by apply pl_rest0.
  - etrans; [done|auto with broker].
  - by rewrite (nlink_same w1 w2) by apply S.
  - by rewrite (sf_inodes _ _ S).
Qed.

Lemma placed_upd dir p i d w w1 (g : bytes → bytes) :
  placed dir p i d w w1 → placed dir p i (g d) w (upd_data i g w1).
Proof.
  intros []. destruct pl_node0 as (n & Hn & <-). split; try done.
  - intros e He. destruct (pl_rest0 e He) as [Hne Hs]. split; [done|].
    rewrite <-Hs. unfold size_of. simpl. by rewrite lookup_alter_ne.
  - etrans; [done|]. apply (frame_upd_inode _ w1 p); [set_solver|done|done].
  - simpl. rewrite lookup_alter_eq, Hn. by eexists.
Qed.

Lemma placed_created dir p mode w :
  wf w → solid w → lookup_inode w p = None → child_of dir p = true →
  placed dir p (w_next_ino w) [] w (created p mode w).
Proof.
  intros Hwf Hs Hl Hc.
  assert (w_names w !! p = None) as Hp.
  { unfold lookup_inode in Hl. destruct (w_names w !! p) as [j|] eqn:E; [|done].
    destruct (Hs _ _ E) as [n Hn]. simpl in Hl. by rewrite Hn in Hl. }
  split.
  - by apply created_wf.
  - unfold dir_entries at 1. simpl. by apply dir_entries_insert.
  - simpl. by rewrite lookup_insert_eq.
  - intros [q j] He. apply dir_entries_names in He. pose proof (Hwf _ _ He) as Hlt. simpl.
    split; [lia|]. unfold size_of. simpl. by rewrite lookup_insert_ne by lia.
  - by apply created_frame.
  - rewrite nlink_links. simpl. rewrite links_insert_eq by congruence.
    rewrite links_fresh; [done|]. exact Hwf.
  - simpl. rewrite lookup_insert_eq. eauto.
Qed.

Lemma strip_prefix_app p r : strip_prefix p (p +:+ r) = Some r.
Proof. by apply strip_prefix_Some. Qed.

Lemma object_is_child q id :
  id ≠ EmptyString → all_bytes (λ b, is_ascii_digit b || (b =? 45)) id = true →
  child_of (q_path q) (object_path q id) = true.
Proof.
  intros Hne Hb. unfold child_of, object_path.
  replace (q_path q ++ "/" ++ id)%string with ((q_path q ++ "/") +:+ id).
  2: { apply str_bytes_inj. change (q_path q ++ "/" ++ id)%string with (q_path q +:+ ("/" +:+ id)).
       change (q_path q ++ "/")%string with (q_path q +:+ "/"). by rewrite !str_bytes_app, <-app_assoc. }
  rewrite strip_prefix_app. apply andb_true_iff. split.
  - by apply negb_true_iff, String.eqb_neq.
  - apply negb_true_iff, existsb_false. intros x Hx. unfold all_bytes in Hb.
    rewrite forallb_elem in Hb. specialize (Hb x Hx). unfold is_ascii_digit in Hb.
    apply Z.eqb_neq. intros <-. done.
Qed.

(** Growth stays within the limits; without growth nothing changes. *)
Definition bounded_growth (q : Quarantine) (w w' : world) : Prop :=
  (held_bytes w' (q_path q) = held_bytes w (q_path q)
   ∧ held_entries w' (q_path q) = held_entries w (q_path q))
  ∨ (held_bytes w' (q_path q) ≤ max_bytes q ∧ held_entries w' (q_path q) ≤ max_entries q).

Lemma same_growth q w w' : same_fs w w' → bounded_growth q w w'.
Proof. intros S. left. by apply held_same. Qed.

Lemma store_spec q id b w :
  wf w → solid w → 0 ≤ max_bytes q → 0 ≤ max_entries q →
  let p := object_path q id in
  wp (store q id b)
    (λ _ w', bounded_growth q w w' ∧ frame [p] w w' ∧ lookup_inode w p = None
             ∧ file_data w' p = Some b)
    (λ _ w', bounded_growth q w w' ∧ frame [p] w w') w.
Proof.
  intros Hwf Hs Hmb Hme p. unfold store. wp_step. apply wp_throw_if; intros Hid.
  { split; [apply same_growth|]; reflexivity. }
  apply orb_false_iff in Hid as [Hid1%String.eqb_neq Hid2%negb_false_iff].
  wp_step. wp_apply (usage_spec q w Hmb Hme).
  2: { intros e w1 S1. split; [by apply same_growth|auto with broker]. }
  intros [ub ue] w1 (S1 & Eb & Ee & Hub & Hue). cbn [fst snd] in *. subst ub ue. cbv zeta.
  wp_step. apply wp_throw_if; intros Hcap; [split; [by apply same_growth|auto with broker]|].
  unfold saturating_sub in Hcap. rewrite orb_false_iff, Z.leb_gt, Z.ltb_ge in Hcap. destruct Hcap as [Hc1 Hc2].
  destruct (held_same w w1 (q_path q) S1) as [E1 E2].
  assert (wf w1) as Hwf1 by by rewrite <-S1.
  assert (solid w1) as Hs1. { intros x i. rewrite (sf_names _ _ S1), (sf_inodes _ _ S1). apply Hs. }
  wp_step. unfold create_private. wp_step. fold p. wp_apply (wp_create_new p 384 w1 Hwf1).
  2: { intros e w2 S2. split; [apply same_growth; by etrans|]. apply same_fs_frame. by etrans. }
  intros f w2 (Hfree & Hino & S2).
  assert (placed (q_path q) p (fd_ino f) [] w1 w2) as Hp2.
  { rewrite Hino. eapply placed_same; [|done]. apply placed_created; try done. by apply object_is_child. }
  assert (∀ d w3, placed (q_path q) p (fd_ino f) d w1 w3 → blen d ≤ blen b →
    bounded_growth q w w3 ∧ frame [p] w w3) as Hok.
  { intros d w3 Hp3 Hd. split.
    - right. destruct (placed_held _ _ _ _ _ _ Hp3) as [-> ->]. unfold blen in *. lia.
    - etrans; [by apply same_fs_frame|]. apply Hp3. }
  assert (∀ d w3 w4, placed (q_path q) p (fd_ino f) d w1 w3 → same_fs w3 w4 → blen d ≤ blen b →
    bounded_growth q w w4 ∧ frame [p] w w4) as Hok'.
  { intros d w3 w4 Hp3 S Hd. eapply Hok; [by eapply placed_same|done]. }
  assert (blen ([] : bytes) ≤ blen b) as Hnil by (unfold blen; simpl; lia).
  wp_step; wp_step. apply wp_simple; intros fs; [by eapply Hok'; [|apply same_fs_faults|]|].
  apply run_wp. simpl.
  set (g := λ d : bytes, _). set (w3 := upd_data _ g _).
  assert (placed (q_path q) p (fd_ino f) (replicate (length b) 0) w1 w3) as Hp3.
  { replace (replicate (length b) 0) with (g []).
    - apply placed_upd. by eapply placed_same; [|apply same_fs_faults].
    - unfold g. rewrite take_nil. simpl. f_equal. unfold blen. lia. }
  assert (blen (replicate (length b) 0) = blen b) as Hrep by (unfold blen; by rewrite length_replicate).
  wp_step; wp_step. wp_reader reader_sync as u w4 S4 _; [|eapply Hok'; [done..|lia]].
  wp_step; wp_step. wp_reader reader_sync as u' w5 S5 _; [|eapply Hok'; [exact Hp3|by etrans|lia]].
  assert (placed (q_path q) p (fd_ino f) (replicate (length b) 0) w1 w5) as Hp5.
  { eapply placed_same; [done|by etrans]. }
  wp_step; wp_step. apply wp_syscall; intros.
  { eapply Hok; [apply placed_upd; by eapply placed_same; [|apply same_fs_faults]|].
    unfold overwrite, blen. rewrite length_app, length_drop, length_replicate, length_take. lia. }
  apply run_wp. cbn [Prelude.wp].
  set (w6 := upd_data _ _ _).
  assert (placed (q_path q) p (fd_ino f) b w1 w6) as Hp6.
  { replace b with (overwrite b (replicate (length b) 0)) at 1.
    - apply placed_upd. by eapply placed_same; [|apply same_fs_faults].
    - unfold overwrite. by rewrite drop_ge, app_nil_r by (rewrite length_replicate; lia). }
  wp_step. wp_reader reader_sync as u6 w7 S7 _; [|by eapply Hok'].
  pose proof (placed_same _ _ _ _ _ _ _ Hp6 S7) as Hp7. destruct (Hok _ _ Hp7 ltac:(lia)) as [HB HF].
  split_and!; try done; [by rewrite <-(lookup_inode_same w w1)|].
  destruct Hp7. destruct pl_node0 as (n & Hn & Hd). unfold file_data, lookup_inode.
  rewrite pl_name0. simpl. rewrite Hn. simpl. by rewrite Hd.
Qed.

(** ** Audit log *)

Section audit_facts.
Context `{SerdeJson} (a : Audit) (d : bytes).
Let p := audit_path a.
Let rp := rotated_path a.

(** The log file is open as [f] and holds [old]; after a rotation ([B]) the
    previous log [d] is in the rotated file. *)
Definition slot (old : bytes) (B : bool) (f : fd) (w : world) : Prop :=
  w_names w !! p = Some (fd_ino f)
  ∧ (∃ n, w_inodes w !! fd_ino f = Some n ∧ i_data n = old)
  ∧ (B = true → ∃ i n, w_names w !! rp = Some i ∧ i ≠ fd_ino f ∧ w_inodes w !! i = Some n
                       ∧ i_data n = d).

Lemma slot_same old B f w w' : slot old B f w → same_fs w w' → slot old B f w'.
Proof.
  intros Hs S. unfold slot in *. by rewrite (sf_names _ _ S), (sf_inodes _ _ S).
Qed.
Lemma slot_upd old B f w g : slot old B f w → slot (g old) B f (upd_data (fd_ino f) g w).
Proof.
  intros (Hp & (n & Hn & <-) & HB). split_and!; [done| |].
  - simpl. rewrite lookup_alter_eq, Hn. by eexists.
  - intros ->. destruct (HB eq_refl) as (i & m & Hi & Hne & Hm & Hd). exists i, m.
    split_and!; try done. simpl. by rewrite lookup_alter_ne.
Qed.
Lemma slot_data old B f w : slot old B f w →
  file_data w p = Some old ∧ (B = true → file_data w rp = Some d).
Proof.
  intros (Hp & (n & Hn & <-) & HB). unfold file_data, lookup_inode. rewrite Hp. simpl. rewrite Hn.
  split; [done|]. intros ->. destruct (HB eq_refl) as (i & m & -> & _ & Hm & <-). simpl. by rewrite Hm.
Qed.

Lemma append_spec x old B f w :
  slot old B f w →
  wp (sys_append f x) (λ _ w', slot (old ++ x) B f w') (λ _ w', ∃ k, slot (old ++ take k x) B f w') w.
Proof.
  intros Hs. apply wp_syscall; intros.
  - exists k. apply (slot_upd _ _ _ _ (λ d, d ++ take k x)). eapply slot_same; [done|apply same_fs_faults].
  - apply run_wp. apply (slot_upd _ _ _ _ (λ d, d ++ x)). eapply slot_same; [done|apply same_fs_faults].
Qed.

(** Before the file is opened. *)
Definition closed_log (B : bool) (w : world) : Prop :=
  wf w ∧
  if B then w_names w !! p = None ∧ ∃ i n, w_names w !! rp = Some i ∧ w_inodes w !! i = Some n ∧ i_data n = d
  else ∃ i n, w_names w !! p = Some i ∧ w_inodes w !! i = Some n ∧ i_kind n = Regular ∧ i_data n = d.

Lemma closed_log_same B w w' : closed_log B w → same_fs w w' → closed_log B w'.
Proof.
  intros [Hwf Hc] S. split; [by rewrite <-S|].
  by rewrite (sf_names _ _ S), (sf_inodes _ _ S).
Qed.
(** No record is lost: the old log is a prefix of the log, or it was rotated. *)
Definition kept (w : world) : Prop :=
  (∃ x, file_data w p = Some (d ++ x)) ∨ file_data w rp = Some d.
Lemma closed_kept B w : closed_log B w → kept w.
Proof.
  intros [_ Hc]. destruct B.
  - destruct Hc as (_ & i & n & Hi & Hn & Hd). right. unfold file_data, lookup_inode.
    rewrite Hi. simpl. rewrite Hn. simpl. by rewrite Hd.
  - destruct Hc as (i & n & Hi & Hn & _ & Hd). left. exists []. unfold file_data, lookup_inode.
    rewrite Hi. simpl. rewrite Hn. simpl. by rewrite Hd, app_nil_r.
Qed.
Lemma closed_same_kept B w w' : closed_log B w → same_fs w w' → kept w'.
Proof. intros Hc S. exact (closed_kept B w' (closed_log_same B w w' Hc S)). Qed.
Lemma slot_kept x (B : bool) f w : slot ((if B then [] else d) ++ x) B f w → kept w.
Proof.
  intros Hs. destruct (slot_data _ _ _ _ Hs) as [Hp Hr]. destruct B; [right; auto|left; eauto].
Qed.

Lemma open_log_spec B w :
  p ≠ rp → closed_log B w →
  wp (sys_open_create p 384) (λ f w', slot (if B then [] else d) B f w') (λ _ w', closed_log B w') w.
Proof.
  intros Hne [Hwf Hc]. apply wp_simple; intros fs.
  { eapply closed_log_same; [by split|apply same_fs_faults]. }
  unfold wp. change (lookup_inode (set_faults fs w) p) with (lookup_inode w p). unfold lookup_inode.
  destruct B.
  - destruct Hc as (Hp & i & n & Hi & Hn & Hd). rewrite Hp. simpl. unfold slot. simpl.
    rewrite !lookup_insert_eq. split_and!; [done|by eexists|]. intros _.
    pose proof (Hwf _ _ Hi). exists i, n. rewrite !lookup_insert_ne by (done || lia). split_and!; (done || lia).
  - destruct Hc as (i & n & Hi & Hn & Hk & Hd). rewrite Hi. simpl. rewrite Hn. simpl. rewrite Hk. simpl.
    unfold slot. simpl. split_and!; [done|by exists n|done].
Qed.

Lemma exists_reader q : reader (sys_exists q) (λ _ _, True).
Proof.
  intros w. unfold sys_exists. wp_step; wp_step.
  wp_reader (reader_open_follow q) as x w1 S1 _; by wp_step.
Qed.

Lemma rename_rotates w :
  p ≠ rp → closed_log false w → closed_log true (set_names (λ m, <[rp := default 0 (w_names w !! p)]> (delete p m)) w).
Proof.
  intros Hne [Hwf (i & n & Hi & Hn & Hk & Hd)]. rewrite Hi. simpl. split.
  - intros q j. simpl. rewrite lookup_insert, lookup_delete. repeat case_decide; intros; simplify_eq; eauto.
  - simpl. rewrite lookup_insert_ne by done. rewrite lookup_delete_eq, lookup_insert_eq. split; [done|].
    by exists i, n.
Qed.

Lemma remove_rotated w : p ≠ rp → closed_log false w → closed_log false (set_names (delete rp) w).
Proof.
  intros Hne [Hwf (i & n & Hi & ?)]. split; [by apply wf_delete|]. exists i, n. simpl.
  by rewrite lookup_delete_ne by done.
Qed.

Lemma rotate_spec w :
  p ≠ rp → closed_log false w →
  wp (rotate a) (λ _ w', ∃ B, closed_log B w' ∧ (B = true → audit_max_bytes a ≤ blen d ∨ audit_max_bytes a ≤ 0))
     (λ _ w', closed_log false w') w.
Proof.
  intros Hne Hc. unfold rotate. fold p rp. wp_step; wp_step.
  assert (∀ x, follow 40 w p = Ok x → i_data x = d) as Hdat.
  { intros x. destruct Hc as [_ (i & n & Hi & Hn & Hk & Hd)]. cbn [follow]. unfold lookup_inode.
    rewrite Hi. simpl. rewrite Hn. simpl. rewrite Hk. congruence. }
  assert (∀ b w', (b = true → audit_max_bytes a ≤ blen d ∨ audit_max_bytes a ≤ 0) → closed_log false w' →
    wp (if (b : bool) then
          exists_ ← map_err (io_err "cannot rotate audit log") (sys_exists rp);
          _ ← (if (exists_ : bool) then map_err (io_err "cannot rotate audit log") (sys_remove rp) else mret tt);
          map_err (io_err "cannot rotate audit log") (sys_rename p rp)
        else mret tt)
      (λ _ w', ∃ B, closed_log B w' ∧ (B = true → audit_max_bytes a ≤ blen d ∨ audit_max_bytes a ≤ 0))
      (λ _ w', closed_log false w') w') as Hrot.
  { clear w Hc Hdat. intros b w Hb Hc. destruct b; [|wp_step; by exists false].
    assert (∀ w1, closed_log false w1 → wp (sys_rename p rp)
      (λ _ w', ∃ B, closed_log B w' ∧ (B = true → audit_max_bytes a ≤ blen d ∨ audit_max_bytes a ≤ 0))
      (λ _ w', closed_log false w') w1) as Hren.
    { intros w1 H1. apply wp_simple; intros fs;
        assert (closed_log false (set_faults fs w1)) as H2 by (by eapply closed_log_same; [|apply same_fs_faults]); [done|].
      pose proof (rename_rotates _ Hne H2) as H3. apply run_wp. simpl in H3 |- *.
      destruct (w_names w1 !! p) as [i|]; [|done]. exists true. auto. }
    wp_step; wp_step. wp_reader (exists_reader rp) as e w1 S1 _; [|by eapply closed_log_same].
    pose proof (closed_log_same _ _ _ Hc S1) as H1. wp_step. destruct e.
    - wp_step. apply wp_simple; intros fs;
        assert (closed_log false (set_faults fs w1)) as H2 by (by eapply closed_log_same; [|apply same_fs_faults]); [done|].
      pose proof (remove_rotated _ Hne H2) as H3. apply run_wp. simpl.
      destruct (w_names w1 !! rp); [|done]. wp_step. by apply Hren.
    - wp_step. wp_step. by apply Hren. }
  wp_reader (reader_open_follow p) as x w1 S1 Hx; cbv zeta; (apply Hrot; [|by eapply closed_log_same]); intros Hm; reflect.
  - left. by rewrite <-(Hdat x).
  - by right.
Qed.

Lemma record_spec agent kind outcome detail w :
  p ≠ rp → closed_log false w →
  wp (record a agent kind outcome detail)
    (λ _ w', ∃ ts B, file_data w' p = Some ((if (B : bool) then [] else d)
                       ++ to_vec (audit_event ts agent kind outcome detail) ++ [10])
             ∧ (B = true → file_data w' rp = Some d
                           ∧ (audit_max_bytes a ≤ blen d ∨ audit_max_bytes a ≤ 0)))
    (λ _ w', kept w') w.
Proof.
  intros Hne Hc. unfold record, ensure_parent. fold p. wp_step; wp_step.
  apply wp_lift; intros ? _; [|by apply (closed_kept false)].
  wp_step. wp_reader reader_sync as u w1 S1 _; [|by eapply closed_same_kept].
  wp_step. wp_apply (rotate_spec w1 Hne); [by eapply closed_log_same| |intros e w' Hw'; exact (closed_kept _ _ Hw')].
  intros _ w2 (B & H2 & HB). wp_step.
  wp_reader reader_unix_seconds as ts w3 S3 _; [|by eapply closed_same_kept].
  cbv zeta. wp_step; wp_step.
  wp_apply (open_log_spec B w3 Hne); [by eapply closed_log_same| |intros e w' Hw'; exact (closed_kept _ _ Hw')].
  intros f w4 H4. wp_step; wp_step.
  wp_apply (append_spec _ _ _ _ _ H4); [intros [] w5 H5 |].
  2: { intros e w5 [k H5]. exact (slot_kept _ _ _ _ H5). }
  wp_step; wp_step. wp_apply (append_spec _ _ _ _ _ H5).
  2: { intros e w6 [k H6]. rewrite <-app_assoc in H6. exact (slot_kept _ _ _ _ H6). }
  intros [] w6 H6. rewrite <-app_assoc in H6.
  assert (∀ w', same_fs w6 w' → kept w') as Hk by (intros w' S; exact (slot_kept _ _ _ _ (slot_same _ _ _ _ _ H6 S))).
  wp_step; wp_step. wp_reader reader_sync as u2 w7 S7 _; [|by apply Hk].
  wp_step. apply wp_lift; intros ? _; [|by apply Hk].
  wp_step. wp_reader reader_sync as u3 w8 S8 _; [|by apply Hk; etrans].
  exists ts, B. assert (same_fs w6 w8) as S by by etrans.
  destruct (slot_data _ _ _ _ (slot_same _ _ _ _ _ H6 S)) as [Hp Hr].
  split; [done|]. intros ->. eauto.
Qed.
End audit_facts.

(** ** Claims *)

(** Token comparison is exact: the accumulating comparison accepts two byte
    strings iff they are equal, so a missing byte is never confused with a zero
    byte and no prefix is accepted. *)
Theorem constant_time_eq_is_equality (l r : bytes) : constant_time_eq l r = true ↔ l = r.
Proof. apply constant_time_eq_spec. Qed.

(** A credential is read only from a private regular file: the path itself is
    not a symbolic link, other users have no access, the file has 1 to 4096 bytes, and
    the secret is its single non-empty line, the content without trailing newlines. *)
Theorem secret_is_one_private_line path dir w v w' :
  read_secret_from path dir w = (Ok v, w') →
  same_fs w w' ∧
  ∃ i n t, lookup_inode w path = Some (i, n) ∧ i_kind n = Regular ∧ mode_and (i_mode n) 7 = 0
    ∧ 1 ≤ blen (i_data n) ≤ 4096 ∧ i_data n = str_bytes v ++ t ∧ Forall (λ b, is_newline b = true) t
    ∧ v ≠ EmptyString ∧ Forall (λ b, is_newline b = false) (str_bytes v).
Proof. intros Hrun. exact (wp_run _ _ _ _ _ _ (read_secret_reader path dir w) Hrun). Qed.

(** The quarantine never outgrows its limits.  Under any schedule of I/O
    failures, storing an object either leaves the retained bytes and entries as they
    were or leaves them within the configured limits (a failed or partial write stays
    charged at its full size); no other file changes; and success means a new object
    that holds exactly the bytes. *)
Theorem quarantine_store_is_bounded q id b w r w' :
  wf w → solid w → 0 ≤ max_bytes q → 0 ≤ max_entries q →
  store q id b w = (r, w') →
  bounded_growth q w w' ∧ frame [object_path q id] w w'
  ∧ (r = Ok () → lookup_inode w (object_path q id) = None
                 ∧ file_data w' (object_path q id) = Some b).
Proof.
  intros Hwf Hs Hb He Hrun. pose proof (wp_run _ _ _ _ _ _ (store_spec q id b w Hwf Hs Hb He) Hrun) as Hp.
  destruct r; naive_solver.
Qed.

(** The audit log is append-only.  Whatever call fails, the records already in the
    log are still there, as a prefix of the log or as the rotated file; a successful
    record ends the log with exactly its own line, after the old records unless the
    log had reached its size limit and was rotated. *)
Theorem audit_is_append_only `{SerdeJson} a agent kind outcome detail d w r w' :
  audit_path a ≠ rotated_path a → 0 < audit_max_bytes a → closed_log a d false w →
  record a agent kind outcome detail w = (r, w') →
  kept a d w' ∧
  (r = Ok () → ∃ ts, let line := to_vec (audit_event ts agent kind outcome detail) ++ [10] in
     file_data w' (audit_path a) = Some (d ++ line)
     ∨ (file_data w' (audit_path a) = Some line ∧ file_data w' (rotated_path a) = Some d
        ∧ audit_max_bytes a ≤ blen d)).
Proof.
  intros Hne Hpos Hc Hrun.
  pose proof (wp_run _ _ _ _ _ _ (record_spec a d agent kind outcome detail w Hne Hc) Hrun) as Hp.
  destruct r as [[]|e]; [|by split].
  destruct Hp as (ts & [] & Hp & HB).
  - destruct (HB eq_refl) as [Hr Hm]. split; [by right|]. intros _. exists ts. right.
    split_and!; try done. lia.
  - split; [left; by eexists|]. intros _. exists ts. by left.
Qed.
