(* ===== verification/Streaming.v ===== *)
(** * The streaming relay: [crates/tentaflake-broker/src/streaming.rs]

    [SseParser], [Protocol] and the relay of one provider stream to one client.
    Asynchronous waiting is modelled by its outcomes: every guarded network
    operation consumes one [wait] of the schedule, which says whether the client
    disconnected, the deadline passed, the write failed (each after some bytes) or
    the operation ran.  The provider is the list of chunks it delivers; its end is
    the end of the body. *)

From S2P Require Import Prelude RustStr Json Posix Budget Limits Policy Net Activity Config Http Envelope Storage.

(** [streaming::Failure]; status 0 is a client that is gone. *)
Record sfailure : Type := mkSFailure { sf_status : Z; sf_reason : string }.
Definition upstream_failure (reason : string) : sfailure := mkSFailure 502 reason.
Definition PROVIDER_REJECTED : string := "provider rejected streaming request".

(** ** Server-sent events *)

Record SseParser : Type := mkSse {
  frame : bytes;
  line_bytes : Z;
  skip_lf : bool;
  raw_bytes : Z;
  limit : Z;
}.
Definition sse_new (limit : Z) : SseParser := mkSse [] 0 false 0 limit.

Definition push (byte : Z) : M SseParser sfailure (option bytes) := λ s,
  if skip_lf s && (byte =? 10) then
    (Ok None, mkSse (frame s) (line_bytes s) false (raw_bytes s) (limit s))
  else
    let raw := raw_bytes s + 1 in
    if limit s <? raw then
      (Err (upstream_failure "event exceeds configured event limit"),
       mkSse (frame s) (line_bytes s) false raw (limit s))
    else if (byte =? 13) || (byte =? 10) then
      let frame' := frame s ++ [10] in
      if line_bytes s =? 0 then (Ok (Some frame'), mkSse [] 0 (byte =? 13) 0 (limit s))
      else (Ok None, mkSse frame' 0 (byte =? 13) raw (limit s))
    else (Ok None, mkSse (frame s ++ [byte]) (line_bytes s + 1) false raw (limit s)).

(** ** Protocol inspection *)

Record Event : Type := mkEvent { has_data : bool; terminal : option string }.

Record Protocol : Type := mkProtocol {
  responses : bool;
  chat_finished : bool;
  p_usage : value;
  expected_model : option string;
  completion_id : option string;
  first_frame : bool;
}.
Definition protocol_new (responses : bool) (expected : option string) : Protocol :=
  mkProtocol responses false Null expected None true.
Definition set_first (p : Protocol) : Protocol :=
  mkProtocol (responses p) (chat_finished p) (p_usage p) (expected_model p) (completion_id p) false.
Definition set_finished (x : bool) (p : Protocol) : Protocol :=
  mkProtocol (responses p) x (p_usage p) (expected_model p) (completion_id p) (first_frame p).
Definition set_usage (x : value) (p : Protocol) : Protocol :=
  mkProtocol (responses p) (chat_finished p) x (expected_model p) (completion_id p) (first_frame p).
Definition set_completion_id (x : option string) (p : Protocol) : Protocol :=
  mkProtocol (responses p) (chat_finished p) (p_usage p) (expected_model p) x (first_frame p).

(** [str::lines]: no empty last line; a CR before a line feed belongs to the line end. *)
Definition strip_cr (s : string) : string := default s (strip_suffix (String (ascii_of 13) EmptyString) s).
Definition lines (s : string) : list string :=
  let l := split_char (ascii_of 10) s in
  (strip_cr <$> removelast l) ++
  match last l with Some p => if str_is_empty p then [] else [p] | None => [] end.
(** [text.trim_start_matches('\u{feff}')], the byte order mark. *)
Definition trim_bom (s : string) : string := of_chars (drop_while (Z.eqb 65279) (chars s)).

(** The fields of an event: its data lines and its last event name. *)
Fixpoint sse_fields (ls : list string) (data : list string) (name : option string) :
    list string * option string :=
  match ls with
  | [] => (data, name)
  | line :: ls =>
      let '(field, v) := default (line, EmptyString) (split_once ":" line) in
      let v := default v (strip_prefix " " v) in
      if (field =? "data")%string then sse_fields ls (data ++ [v]) name
      else if (field =? "event")%string then sse_fields ls data (Some v)
      else sse_fields ls data name
  end.

Definition valid_function_delta (v : value) : bool :=
  is_some_and (λ f, forallb (λ k, is_none_or (λ x, is_null x || is_string x) (obj_get k f))
                      ["name"%string; "arguments"%string]) (as_object v).
Definition valid_call_delta (call : value) : bool :=
  is_object call
  && is_some (x ← vget "index" call; as_u64 x)
  && is_none_or (λ id, is_null id || is_string id) (vget "id" call)
  && is_none_or (λ k, is_null k || opt_str_eq (as_str k) "function") (vget "type" call)
  && is_none_or (λ f, is_null f || valid_function_delta f) (vget "function" call).
Definition valid_chat_delta (v : value) : bool :=
  match as_object v with
  | None => false
  | Some delta =>
      if is_some_and (λ r, negb (is_null r) && negb (opt_str_eq (as_str r) "assistant"))
           (obj_get "role" delta)
         || existsb (λ k, is_some_and (λ x, negb (is_null x) && negb (is_string x)) (obj_get k delta))
              ["content"%string; "refusal"%string] then false
      else if is_some_and (λ calls, negb (is_some_and (forallb valid_call_delta) (as_array calls)))
                (ofilter (λ x, negb (is_null x)) (obj_get "tool_calls" delta)) then false
      else is_none_or (λ c, is_null c || valid_function_delta c) (obj_get "function_call" delta)
  end.

Definition sanitize_usage (usage : option value) : value :=
  match parse_usage usage with
  | Some (input, output, total) =>
      json_obj [("input_tokens"%string, num input); ("output_tokens"%string, num output);
                ("total_tokens"%string, num total)]
  | None => Null
  end.

Definition FINISH_REASONS : list string :=
  ["stop"%string; "length"%string; "tool_calls"%string; "content_filter"%string; "function_call"%string].

(** The loop over the choices of a chat chunk: does it finish the completion? *)
Fixpoint inspect_choices (strict : bool) (choices : list value) (finished : bool) :
    result sfailure bool :=
  match choices with
  | [] => Ok finished
  | c :: cs =>
      _ ← bail_if (negb (is_some_and (Z.eqb 0) (x ← vget "index" c; as_u64 x)))
            (upstream_failure "completion choice is outside the requested limit");
      _ ← bail_if (strict && negb (is_some_and valid_chat_delta (vget "delta" c)))
            (upstream_failure "completion choice has an invalid delta");
      match vget "finish_reason" c with
      | None | Some Null => inspect_choices strict cs finished
      | Some (Str reason) =>
          if str_in reason FINISH_REASONS then inspect_choices strict cs true
          else Err (upstream_failure "completion finish reason is invalid")
      | Some _ => Err (upstream_failure "completion finish reason is invalid")
      end
  end.

(** The identity checks of the strict profile; returns the completion id. *)
Definition check_identity (p : Protocol) (v : value) : result sfailure (option string) :=
  match expected_model p with
  | None => Ok (completion_id p)
  | Some expected =>
      _ ← bail_if (negb (is_some_and (provider_model_matches expected) (x ← vget "model" v; as_str x)))
            (upstream_failure "completion stream model does not match the allowed model");
      id ← ok_or (upstream_failure "completion stream has no completion id")
             (ofilter (λ id, negb (str_is_empty (trim id))) (x ← vget "id" v; as_str x));
      match completion_id p with
      | Some previous =>
          _ ← bail_if (negb (previous =? id)%string)
                (upstream_failure "completion stream completion id changed");
          Ok (Some previous)
      | None => Ok (Some id)
      end
  end.

Definition inspect_chat (p : Protocol) (v : value) : result sfailure Protocol :=
  _ ← bail_if (negb (opt_str_eq (x ← vget "object" v; as_str x) "chat.completion.chunk"))
        (upstream_failure "provider returned an invalid completion chunk");
  id ← check_identity p v;
  choices ← ok_or (upstream_failure "completion chunk has no choices")
              (x ← vget "choices" v; as_array x);
  _ ← bail_if (is_some (expected_model p) && (1 <? blen choices))
        (upstream_failure "completion stream has multiple choices");
  finished ← inspect_choices (is_some (expected_model p)) choices (chat_finished p);
  let p := set_finished finished (set_completion_id id p) in
  Ok (match ofilter (λ u, negb (is_null u)) (vget "usage" v) with
      | Some u => set_usage (sanitize_usage (Some u)) p
      | None => p
      end).

Definition response_outcome (kind : string) : option string :=
  if (kind =? "response.completed")%string then Some "completed"%string
  else if (kind =? "response.failed")%string then Some "failed"%string
  else if (kind =? "response.incomplete")%string then Some "incomplete"%string
  else if (kind =? "error")%string then Some "failed"%string
  else None.
Definition inspect_responses (p : Protocol) (v : value) (name : option string) :
    result sfailure (option string * Protocol) :=
  kind ← ok_or (upstream_failure "Responses event has no type") (x ← vget "type" v; as_str x);
  _ ← bail_if (is_some_and (λ n, negb (n =? kind)%string) name)
        (upstream_failure "Responses event type does not match its SSE field");
  let outcome := response_outcome kind in
  match outcome with
  | Some o =>
      if (kind =? "error")%string then Ok (outcome, p)
      else
        _ ← bail_if (negb (opt_str_eq (x ← pointer ["response"%string; "status"%string] v; as_str x) o))
              (upstream_failure "Responses terminal status is invalid");
        Ok (outcome, set_usage (sanitize_usage (pointer ["response"%string; "usage"%string] v)) p)
  | None => Ok (None, p)
  end.

(** ** The relay's state *)

Inductive wait : Type :=
| WRun
| WDisconnect (k : nat)
| WDeadline (k : nat)
| WFail (k : nat).

(** What [write_to] works on: the ledger (with the operating system behind it),
    the usage guard and the reservation of the request, the wait schedule, what
    was written to the client, and the two locals it passes by reference. *)
Record rw : Type := mkRw {
  rw_ledger : ledger;
  rw_guard : option UsageGuard;
  rw_settlement : option Reservation;
  rw_waits : list wait;
  rw_out : bytes;
  rw_headers_sent : bool;
  rw_outcome : Outcome;
}.
Definition set_rw_ledger x (s : rw) := mkRw x (rw_guard s) (rw_settlement s) (rw_waits s) (rw_out s) (rw_headers_sent s) (rw_outcome s).
Definition set_rw_guard x (s : rw) := mkRw (rw_ledger s) x (rw_settlement s) (rw_waits s) (rw_out s) (rw_headers_sent s) (rw_outcome s).
Definition set_rw_settlement x (s : rw) := mkRw (rw_ledger s) (rw_guard s) x (rw_waits s) (rw_out s) (rw_headers_sent s) (rw_outcome s).
Definition set_rw_waits x (s : rw) := mkRw (rw_ledger s) (rw_guard s) (rw_settlement s) x (rw_out s) (rw_headers_sent s) (rw_outcome s).
Definition set_rw_out x (s : rw) := mkRw (rw_ledger s) (rw_guard s) (rw_settlement s) (rw_waits s) x (rw_headers_sent s) (rw_outcome s).
Definition set_rw_headers x (s : rw) := mkRw (rw_ledger s) (rw_guard s) (rw_settlement s) (rw_waits s) (rw_out s) x (rw_outcome s).
Definition set_rw_outcome x (s : rw) := mkRw (rw_ledger s) (rw_guard s) (rw_settlement s) (rw_waits s) (rw_out s) (rw_headers_sent s) x.

Definition on_disk {E A} (m : M world E A) : M rw E A :=
  zoom (λ s, l_world (rw_ledger s)) (λ w s, set_rw_ledger (set_world w (rw_ledger s)) s) m.

(** The next outcome of the schedule; an exhausted schedule runs. *)
Definition next_wait : M rw sfailure wait := λ s,
  match rw_waits s with
  | [] => (Ok WRun, s)
  | x :: l => (Ok x, set_rw_waits l s)
  end.
Definition emit_bytes (b : bytes) : M rw sfailure unit := modify (λ s, set_rw_out (rw_out s ++ b) s).

Definition disconnected : sfailure :=
  mkSFailure 0 "client disconnected or sent additional request data".
Definition deadline_exceeded : sfailure := mkSFailure 504 "stream deadline exceeded".
(** [guarded] around an operation that writes nothing to the client. *)
Definition guarded {A} (r : result sfailure A) : M rw sfailure A :=
  x ← next_wait;
  match x with
  | WRun => lift r
  | WDisconnect _ => fail disconnected
  | WDeadline _ | WFail _ => fail deadline_exceeded
  end.
Definition write_bytes (b : bytes) : M rw sfailure unit :=
  x ← next_wait;
  match x with
  | WRun => emit_bytes b
  | WDisconnect k => _ ← emit_bytes (take k b); fail disconnected
  | WDeadline k => _ ← emit_bytes (take k b); fail deadline_exceeded
  | WFail k => _ ← emit_bytes (take k b); fail (mkSFailure 0 "client write failed")
  end.

(** ** The provider *)

Inductive chunk : Type := Chunk (b : bytes) | ChunkError (timeout : bool).
Record provider_stream : Type := mkProvider {
  pv_status : Z;
  pv_content_type : option string;
  pv_content_length : option Z;
  pv_chunks : list chunk;
}.
(** The provider request: the client cannot be built, [send()] fails (possibly by
    a timeout), or it answers with a response head and its body. *)
Inductive sent : Type := ClientError | SendError (timeout : bool) | Answered (s : provider_stream).

Definition chunk_failure (timeout : bool) : sfailure :=
  mkSFailure (if timeout then 504 else 502) "provider stream read failed".
Definition next_chunk (l : list chunk) : result sfailure (option (bytes * list chunk)) :=
  match l with
  | [] => Ok None
  | Chunk b :: l => Ok (Some (b, l))
  | ChunkError t :: _ => Err (chunk_failure t)
  end.
Definition over_limit : sfailure := upstream_failure "stream exceeds configured response limit".
Definition add_received (received : Z) (b : bytes) (max : Z) : result sfailure Z :=
  ok_or over_limit (ofilter (λ n, n <=? max) (checked_add received (blen b))).

Definition CRLF : bytes := [13; 10].
Definition line (s : string) : bytes := str_bytes s ++ CRLF.
Definition STREAM_HEADERS : bytes :=
  line "HTTP/1.1 200 OK" ++ line "Content-Type: text/event-stream"
  ++ line "Transfer-Encoding: chunked" ++ line "Connection: close" ++ line "Cache-Control: no-store"
  ++ line "X-Content-Type-Options: nosniff" ++ CRLF.
(** [format!("{:x}", n)]. *)
Fixpoint hex_digits (fuel : nat) (n : Z) (acc : bytes) : bytes :=
  match fuel with
  | O => acc
  | S fuel => if n <? 16 then hex_digit n :: acc
              else hex_digits fuel (n / 16) (hex_digit (n mod 16) :: acc)
  end.
Definition lower_hex (n : Z) : bytes := hex_digits 16 n [].
Definition chunk_prefix (f : bytes) : bytes := lower_hex (blen f) ++ CRLF.
Definition LAST_CHUNK : bytes := str_bytes "0" ++ CRLF ++ CRLF.

Section relay.
Context `{Crates} `{SerdeJson} `{UrlLib}.
Context (L : Limits).

(** The immutable part of [StreamingResponse]. *)
Record StreamingResponse : Type := mkStreamingResponse {
  sr_target : ResolvedTarget;
  sr_credential : string;
  sr_session_id : option string;
  sr_body : bytes;
  sr_policy : StreamingPolicy;
  sr_max_response_bytes : Z;
  sr_audit : Audit;
  sr_model_policy : ModelPolicy;
  sr_agent : string;
  sr_route : string;
}.

(** [observe_usage] on the guard of the request. *)
Definition observe_usage (m : ModelPolicy) (u : option value) : M rw string unit := λ s,
  match rw_guard s, usage_observation m u with
  | Some g, Some (t, c) =>
      match observe L t c (rw_ledger s, g) with
      | (r, (l, g')) => (r, set_rw_guard (Some g') (set_rw_ledger l s))
      end
  | _, _ => (Ok tt, s)
  end.

(** [Protocol::inspect]. *)
Definition inspect (m : ModelPolicy) (p : Protocol) (f : bytes) : M rw sfailure (Event * Protocol) :=
  text ← lift (ok_or (upstream_failure "event is not UTF-8") (from_utf8 f));
  let text := if first_frame p then trim_bom text else text in
  let p := set_first p in
  let '(data, name) := sse_fields (lines text) [] None in
  if forallb str_is_empty data then mret (mkEvent false None, p)
  else
    let data := join (String (ascii_of 10) EmptyString) data in
    if negb (responses p) && (data =? "[DONE]")%string then
      _ ← throw_if (negb (chat_finished p))
            (upstream_failure "completion ended without a finish reason");
      _ ← throw_if (is_some (expected_model p) && is_none (completion_id p))
            (upstream_failure "completion stream did not identify the allowed model and completion");
      mret (mkEvent true (Some "completed"%string), p)
    else
      v ← lift (ok_or (upstream_failure "event data is not valid JSON") (from_slice (str_bytes data)));
      _ ← throw_if (negb (is_object v)) (upstream_failure "event data must be a JSON object");
      let usage := if responses p then pointer ["response"%string; "usage"%string] v
                   else vget "usage" v in
      _ ← map_err (λ _, mkSFailure 503 "budget accounting is unavailable") (observe_usage m usage);
      if responses p then
        '(outcome, p) ← lift (inspect_responses p v name);
        mret (mkEvent true outcome, p)
      else if is_some (vget "error" v) || opt_str_eq name "error" then
        mret (mkEvent true (Some "failed"%string), p)
      else
        p ← lift (inspect_chat p v);
        mret (mkEvent true None, p).

Definition audit_unavailable : sfailure := mkSFailure 503 "audit log is unavailable".
Definition check_audit (sr : StreamingResponse) : M rw sfailure unit :=
  map_err (λ _, audit_unavailable) (on_disk (check_ready (sr_audit sr))).

Definition stream_detail (sr : StreamingResponse) (received latency : Z) (usage : value) : value :=
  json_obj [("route"%string, Str (sr_route sr)); ("provider"%string, Str (t_host (sr_target sr)));
            ("model"%string, Str (name (sr_model_policy sr))); ("streaming"%string, Bool true);
            ("status"%string, num 200); ("response_bytes"%string, num received);
            ("latency_ms"%string, num latency); ("usage"%string, usage)].

Definition terminal_activity (t : string) : Outcome :=
  if (t =? "completed")%string then Succeeded
  else if (t =? "failed")%string then Failed
  else Uncertain.

(** The response head, before the first forwarded frame: marked as sent before
    writing, so that a partial head cannot become a JSON response. *)
Definition send_headers (sent : bool) : M rw sfailure unit :=
  if sent then mret tt
  else _ ← modify (set_rw_headers true); write_bytes STREAM_HEADERS.
Definition record_terminal (sr : StreamingResponse) (latency received : Z) (event : Event)
    (p : Protocol) : M rw sfailure unit :=
  match terminal event with
  | Some outcome =>
      map_err (λ _, audit_unavailable)
        (on_disk (record (sr_audit sr) (sr_agent sr) "llm" outcome
                    (stream_detail sr received latency (p_usage p))))
  | None => mret tt
  end.
(** The frame as one chunk, and the end of the body after a terminal event. *)
Definition send_frame (event : Event) (p : Protocol) (f : bytes) : M rw sfailure (Protocol + bool) :=
  _ ← write_bytes (chunk_prefix f);
  _ ← write_bytes f;
  _ ← write_bytes CRLF;
  match terminal event with
  | Some outcome =>
      _ ← write_bytes LAST_CHUNK;
      _ ← modify (set_rw_outcome (terminal_activity outcome));
      mret (inr (outcome =? "completed")%string)
  | None => mret (inl p)
  end.

(** Everything the relay does with one complete frame: [inl p] continues with
    the next byte, [inr b] ends the relay.  [latency]: the elapsed milliseconds. *)
Definition handle_frame (sr : StreamingResponse) (latency received : Z) (p : Protocol) (f : bytes) :
    M rw sfailure (Protocol + bool) :=
  '(event, p) ← inspect (sr_model_policy sr) p f;
  sent ← gets rw_headers_sent;
  if negb sent && negb (has_data event) then mret (inl p)
  else
    _ ← check_audit sr;
    _ ← send_headers sent;
    _ ← record_terminal sr latency received event p;
    send_frame event p f.

(** [for byte in chunk]. *)
Fixpoint feed (sr : StreamingResponse) (latency received : Z) (b : bytes) (sse : SseParser)
    (p : Protocol) : M rw sfailure (SseParser * Protocol + bool) :=
  match b with
  | [] => mret (inl (sse, p))
  | x :: b =>
      match push x sse with
      | (Err e, _) => fail e
      | (Ok None, sse) => feed sr latency received b sse p
      | (Ok (Some f), sse) =>
          r ← handle_frame sr latency received p f;
          match r with
          | inl p => feed sr latency received b sse p
          | inr done => mret (inr done)
          end
      end
  end.

(** The main loop, one provider chunk at a time. *)
Fixpoint relay_loop (sr : StreamingResponse) (latency : Z) (chunks : list chunk) (received : Z)
    (sse : SseParser) (p : Protocol) : M rw sfailure bool :=
  match chunks with
  | [] => _ ← guarded (Ok tt); fail (upstream_failure "provider stream ended without a terminal event")
  | Chunk b :: chunks =>
      _ ← guarded (Ok tt);
      received ← lift (add_received received b (sr_max_response_bytes sr));
      r ← feed sr latency received b sse p;
      match r with
      | inl (sse, p) => relay_loop sr latency chunks received sse p
      | inr done => mret done
      end
  | ChunkError t :: _ => _ ← guarded (Err (chunk_failure t) : result sfailure unit); fail (chunk_failure t)
  end.

(** Draining the body of a rejected request, in strict mode only. *)
Fixpoint drain (max : Z) (chunks : list chunk) (received : Z) : M rw sfailure unit :=
  match chunks with
  | [] => guarded (Ok tt)
  | Chunk b :: chunks =>
      _ ← guarded (Ok tt);
      received ← lift (add_received received b max);
      drain max chunks received
  | ChunkError t :: _ => guarded (Err (chunk_failure t))
  end.

Definition is_success (status : Z) : bool := in_range 200 299 status.

(** Sending the request.  A client found gone at the first poll is noticed
    before the request is polled at all; otherwise it counts as dispatched. *)
Definition dispatch (r : result sfailure provider_stream) : M rw sfailure provider_stream :=
  x ← next_wait;
  match x with
  | WDisconnect O => fail disconnected
  | _ =>
      _ ← modify (λ s, set_rw_settlement (mark_dispatched <$> rw_settlement s) s);
      match x with
      | WRun => lift r
      | WDisconnect _ => fail disconnected
      | WDeadline _ | WFail _ => fail deadline_exceeded
      end
  end.

Definition relay (sr : StreamingResponse) (latency : Z) (upstream : sent) : M rw sfailure bool :=
  _ ← throw_if (match upstream with ClientError => true | _ => false end)
        (upstream_failure "cannot construct streaming client");
  _ ← check_audit sr;
  response ← dispatch (match upstream with
                       | Answered r => Ok r
                       | SendError t =>
                           Err (mkSFailure (if t then 504 else 502) "provider streaming request failed")
                       | ClientError => Err (upstream_failure "cannot construct streaming client")
                       end);
  strict ← gets (λ s, is_some (rw_settlement s));
  if negb (is_success (pv_status response)) then
    _ ← (if (strict : bool) then drain (sr_max_response_bytes sr) (pv_chunks response) 0 else mret tt);
    fail (mkSFailure (pv_status response) PROVIDER_REJECTED)
  else
    let mime := match pv_content_type response with
                | Some v => first_piece (split_char ";" v) EmptyString
                | None => EmptyString
                end in
    _ ← throw_if (negb (eq_ignore_ascii_case (trim mime) "text/event-stream"))
          (upstream_failure "provider did not return an event stream");
    _ ← throw_if (is_some_and (λ n, sr_max_response_bytes sr <? n) (pv_content_length response))
          over_limit;
    let p := protocol_new (sr_route sr =? "/v1/responses")%string
               (if (strict : bool) then Some (name (sr_model_policy sr)) else None) in
    relay_loop sr latency (pv_chunks response) 0 (sse_new (max_event_bytes (sr_policy sr))) p.

(** ** [write_to] *)

Definition error_head (status len : Z) : bytes :=
  str_bytes "HTTP/1.1 " ++ str_bytes (dec status) ++ line " Error"
  ++ line "Content-Type: application/json"
  ++ str_bytes "Content-Length: " ++ str_bytes (dec len) ++ CRLF
  ++ line "Connection: close" ++ line "Cache-Control: no-store"
  ++ line "X-Content-Type-Options: nosniff" ++ CRLF.

Definition ok_of {S E E' A} (m : M S E A) : M S E' bool :=
  r ← attempt m; mret (is_ok r).

(** The handler of a failed relay: audit, then an error response if nothing was
    sent yet; [Ok true] only for a rejection that was audited and delivered. *)
Definition abort_stream (sr : StreamingResponse) (in_time : bool) (f : sfailure) : M rw string bool :=
  audited ← ok_of (on_disk (record (sr_audit sr) (sr_agent sr) "llm" "stream_aborted"
               (json_obj [("route"%string, Str (sr_route sr));
                          ("model"%string, Str (name (sr_model_policy sr)));
                          ("provider"%string, Str (t_host (sr_target sr)));
                          ("reason"%string, Str (sf_reason f))])));
  sent ← gets rw_headers_sent;
  delivered ← (if negb sent && negb (sf_status f =? 0) && in_time then
                 let body := to_vec (json_obj [("error"%string, Str (sf_reason f))]) in
                 a ← ok_of (write_bytes (error_head (sf_status f) (blen body)));
                 if (a : bool) then ok_of (write_bytes body) else mret false
               else mret false);
  if (sf_reason f =? PROVIDER_REJECTED)%string && audited && delivered then mret true
  else fail (sf_reason f).

(** [write_to] up to the value of [result] and [provider_rejected].  [setup]: the
    runtime and the cloned socket are available; [in_time]: [Instant::now() <
    total] when a failure is reported. *)
Definition write_stream (sr : StreamingResponse) (latency : Z) (setup in_time : bool) (upstream : sent) :
    M rw string (bool * bool) :=
  _ ← throw_if (negb setup) "cannot set up the stream";
  _ ← modify (set_rw_outcome Uncertain ∘ set_rw_headers false);
  r ← attempt (relay sr latency upstream);
  match r with
  | Ok completed => mret (completed, false)
  | Err f => done ← abort_stream sr in_time f; mret (done, true)
  end.

(** [reservation.settle()] on the response's own reservation. *)
Definition settle_stream : M rw string unit := λ s,
  match rw_settlement s with
  | Some r =>
      match settle L r (rw_ledger s) with
      | (x, l) => (x, set_rw_settlement None (set_rw_ledger l s))
      end
  | None => (Ok tt, s)
  end.
(** Dropping the response: the reservation if it was not consumed, then the
    usage guard. *)
Definition drop_stream : M rw string unit := λ s,
  let l := match rw_settlement s with
           | Some r => snd (drop_reservation L r (rw_ledger s))
           | None => rw_ledger s
           end in
  let l := match rw_guard s with
           | Some g => snd (drop_guard L g l)
           | None => l
           end in
  (Ok tt, set_rw_guard None (set_rw_settlement None (set_rw_ledger l s))).

(** [StreamingResponse::write_to]: its result, and the outcome the activity
    guard is finished with. *)
Definition write_to (sr : StreamingResponse) (latency : Z) (setup in_time : bool) (upstream : sent) :
    M rw string (result string unit * Outcome) :=
  res ← attempt (write_stream sr latency setup in_time upstream);
  relayed ← gets rw_outcome;
  let outcome := match res with
                 | Ok (_, true) => Failed
                 | Ok (_, false) => relayed
                 | Err _ => Uncertain
                 end in
  answer ← match res with
           | Ok (true, _) => attempt settle_stream
           | Ok (false, _) => mret (Ok tt)
           | Err e => mret (Err e)
           end;
  _ ← drop_stream;
  mret (answer, outcome).
End relay.

(** * Facts *)

(** ** The parser *)

(** Line ends normalised to LF: CR, LF and CRLF each become one. *)
Fixpoint normalize (skip : bool) (l : bytes) : bytes :=
  match l with
  | [] => []
  | b :: l =>
      if skip && (b =? 10) then normalize false l
      else if (b =? 13) || (b =? 10) then 10 :: normalize (b =? 13) l
      else b :: normalize false l
  end.

(** Feed a byte string: the frames it completes and the parser afterwards. *)
Fixpoint push_all (l : bytes) (s : SseParser) : result sfailure (list bytes * SseParser) :=
  match l with
  | [] => Ok ([], s)
  | b :: l =>
      match push b s with
      | (Err e, _) => Err e
      | (Ok None, s) => push_all l s
      | (Ok (Some f), s) => '(fs, s') ← push_all l s; Ok (f :: fs, s')
      end
  end.

(** A frame: complete lines without a blank one, then one blank line. *)
Fixpoint no_blank (start : bool) (l : bytes) : bool :=
  match l with
  | [] => true
  | b :: l => if b =? 10 then negb start && no_blank true l else no_blank false l
  end.
Definition at_line_start (l : bytes) : bool :=
  match last l with None => true | Some b => b =? 10 end.
Definition well_framed (f : bytes) : Prop :=
  ∃ body, f = body ++ [10] ∧ no_blank true body = true ∧ at_line_start body = true.

(** The parser's invariant: bounded, and its buffer is an incomplete frame. *)
Record sse_inv (s : SseParser) : Prop := {
  si_bound : blen (frame s) = raw_bytes s ∧ raw_bytes s ≤ limit s;
  si_blank : no_blank true (frame s) = true;
  si_line : at_line_start (frame s) = (line_bytes s =? 0);
  si_pos : 0 ≤ line_bytes s;
}.

Lemma no_blank_snoc start l b :
  no_blank start (l ++ [b]) =
  no_blank start l && negb ((b =? 10) && (match last l with None => start | Some x => x =? 10 end)).
Proof.
  revert start. induction l as [|x l IH]; intros start.
  { simpl. destruct (b =? 10); simpl; [by rewrite andb_true_r|done]. }
  assert (match last (x :: l) with None => start | Some y => y =? 10 end
          = match last l with None => x =? 10 | Some y => y =? 10 end) as -> by (rewrite last_cons; by destruct (last l)).
  cbn [app no_blank]. destruct (Z.eqb_spec x 10) as [->|Hx]; rewrite IH; [by rewrite andb_assoc|done].
Qed.

Lemma at_line_start_snoc l b : at_line_start (l ++ [b]) = (b =? 10).
Proof. unfold at_line_start. by rewrite last_snoc. Qed.
Lemma at_line_start_last l : at_line_start l = match last l with None => true | Some x => x =? 10 end.
Proof. done. Qed.

Lemma sse_new_inv n : 0 ≤ n → sse_inv (sse_new n).
Proof. intros Hn. split; simpl; try done. Qed.

(** One byte: what it adds to the normalised text, and the invariant. *)
Lemma push_spec b s r s' :
  sse_inv s → 0 ≤ limit s → push b s = (Ok r, s') →
  sse_inv s' ∧ limit s' = limit s ∧
  ∃ x, frame s ++ x = match r with Some f => f ++ frame s' | None => frame s' end
       ∧ (∀ l, normalize (skip_lf s) (b :: l) = x ++ normalize (skip_lf s') l)
       ∧ match r with
         | Some f => well_framed f ∧ blen f ≤ limit s ∧ frame s' = []
         | None => True
         end.
Proof.
  intros [[Hb Hl] Hn Hs Hp] Hlim. unfold push. cbn [normalize].
  destruct (skip_lf s && (b =? 10)) eqn:Esk.
  { intros [= <- <-]. split; [by split|]. split; [done|]. exists []. by rewrite app_nil_r. }
  destruct (Z.ltb_spec (limit s) (raw_bytes s + 1)); [done|].
  assert (∀ x, blen (frame s ++ [x]) = raw_bytes s + 1) as Hlen.
  { intros x. unfold blen in *. rewrite length_app. simpl. lia. }
  destruct ((b =? 13) || (b =? 10)) eqn:Enl.
  - destruct (Z.eqb_spec (line_bytes s) 0) as [E0|E0]; intros [= <- <-].
    + split; [by split; simpl; (done || (unfold blen; simpl; lia))|]. split; [done|]. exists [10].
      split_and!; [by rewrite app_nil_r|done| |rewrite Hlen; lia|done].
      exists (frame s). by rewrite Hs.
    + split; [|split; [done|by exists [10]]].
      split; simpl; [split; [done|lia]| |by rewrite at_line_start_snoc|done].
      rewrite no_blank_snoc, Hn, <-at_line_start_last, Hs. done.
  - intros [= <- <-]. apply orb_false_iff in Enl as [_ Hb10]. split; [|split; [done|by exists [b]]].
    split; simpl; [split; [done|lia]| | |lia].
    + by rewrite no_blank_snoc, Hn, Hb10.
    + rewrite at_line_start_snoc, Hb10. symmetry. apply Z.eqb_neq. lia.
Qed.

Lemma push_all_spec l s fs s' :
  sse_inv s → 0 ≤ limit s → push_all l s = Ok (fs, s') →
  sse_inv s' ∧ limit s' = limit s
  ∧ concat fs ++ frame s' = frame s ++ normalize (skip_lf s) l
  ∧ Forall (λ f, well_framed f ∧ blen f ≤ limit s) fs.
Proof.
  revert s fs. induction l as [|b l IH]; intros s fs Hi Hl; cbn [push_all].
  { intros [= <- <-]. split_and!; try done. by rewrite app_nil_r. }
  destruct (push b s) as [[[f|]|e] s1] eqn:Hp; [| |done].
  - destruct (push_spec _ _ _ _ Hi Hl Hp) as (Hi1 & Hl1 & x & Hx & Hnorm & Hf & Hfl & Hf0).
    intros Hr. apply result_bind_Ok in Hr as ([fs1 s2] & H1 & [= <- <-]).
    destruct (IH _ _ Hi1 ltac:(lia) H1) as (Hi2 & Hl2 & Hc & Hall). rewrite Hl1 in *.
    split_and!; try done; [|by constructor].
    rewrite Hnorm, app_assoc, Hx. simpl. rewrite <-!app_assoc. f_equal. by rewrite Hc, Hf0.
  - destruct (push_spec _ _ _ _ Hi Hl Hp) as (Hi1 & Hl1 & x & Hx & Hnorm & _).
    intros Hr. destruct (IH _ _ Hi1 ltac:(lia) Hr) as (Hi2 & Hl2 & Hc & Hall). rewrite Hl1 in *.
    split_and!; try done. by rewrite Hc, Hnorm, app_assoc, Hx.
Qed.

Lemma push_all_app l1 l2 s :
  push_all (l1 ++ l2) s =
  ('(f1, s1) ← push_all l1 s; '(f2, s2) ← push_all l2 s1; Ok (f1 ++ f2, s2)).
Proof.
  revert s. induction l1 as [|b l1 IH]; intros s; cbn [app push_all].
  { simpl. by destruct (push_all l2 s) as [[f2 s2]|]. }
  destruct (push b s) as [[[f|]|e] s1]; [| |done].
  - rewrite IH. destruct (push_all l1 s1) as [[f1 s1']|]; [|done]. cbn [mbind result_bind].
    by destruct (push_all l2 s1') as [[f2 s2]|].
  - apply IH.
Qed.

(** A failure is the limit, at some byte. *)
Lemma push_all_Err l s e :
  push_all l s = Err e →
  ∃ l1 b l2 fs s1, l = l1 ++ b :: l2 ∧ push_all l1 s = Ok (fs, s1) ∧ limit s1 < raw_bytes s1 + 1.
Proof.
  revert s. induction l as [|b l IH]; intros s; cbn [push_all]; [done|].
  destruct (push b s) as [[[f|]|e'] s1] eqn:Hp.
  - destruct (push_all l s1) as [[]|] eqn:E; [done|]. intros [= ->].
    destruct (IH _ E) as (l1 & x & l2 & fs & s2 & -> & H1 & H2).
    exists (b :: l1), x, l2, (f :: fs), s2. split_and!; [done| |done]. simpl. by rewrite Hp, H1.
  - intros E. destruct (IH _ E) as (l1 & x & l2 & fs & s2 & -> & H1 & H2).
    exists (b :: l1), x, l2, fs, s2. split_and!; [done| |done]. simpl. by rewrite Hp, H1.
  - intros _. exists [], b, l, [], s. split_and!; [done|done|]. unfold push in Hp.
    destruct (_ && _); [done|]. destruct (Z.ltb_spec (limit s) (raw_bytes s + 1)); [done|].
    destruct (_ || _); [|done]. by destruct (_ =? _).
Qed.

(** ** What the relay writes *)

Definition encode_frame (f : bytes) : bytes := chunk_prefix f ++ f ++ CRLF.
Definition encode_frames (fs : list bytes) : bytes := concat (encode_frame <$> fs).
Lemma encode_frames_snoc fs f : encode_frames (fs ++ [f]) = encode_frames fs ++ encode_frame f.
Proof. unfold encode_frames. rewrite fmap_app, concat_app. simpl. by rewrite app_nil_r. Qed.

(** Only the ledger, the guard and the schedule moved. *)
Definition same_out (s s' : rw) : Prop :=
  rw_out s' = rw_out s ∧ rw_headers_sent s' = rw_headers_sent s ∧ rw_outcome s' = rw_outcome s.
#[export] Instance same_out_refl : Reflexive same_out.
Proof. done. Qed.
#[export] Instance same_out_trans : Transitive same_out.
Proof. intros a b c (? & ? & ?) (? & ? & ?). unfold same_out. split_and!; congruence. Qed.

Lemma on_disk_out {E A} (m : M world E A) s :
  wp (on_disk m) (λ _ s', same_out s s') (λ _ s', same_out s s') s.
Proof. unfold on_disk. apply wp_zoom, run_wp. by destruct (m _) as [[?|?] ?]. Qed.
Lemma on_disk_settlement {E A} (m : M world E A) s :
  wp (on_disk m) (λ _ s', rw_settlement s' = rw_settlement s)
     (λ _ s', rw_settlement s' = rw_settlement s) s.
Proof. unfold on_disk. apply wp_zoom, run_wp. by destruct (m _) as [[?|?] ?]. Qed.

Lemma guarded_out {A} (r : result sfailure A) s :
  wp (guarded r) (λ a s', same_out s s' ∧ r = Ok a) (λ _ s', same_out s s') s.
Proof.
  unfold guarded. wp_step. apply run_wp. unfold next_wait.
  destruct (rw_waits s) as [|[] l]; try done; apply wp_lift; intros; (try split); done.
Qed.

(** A write appends its bytes, or a prefix of them when it fails. *)
Lemma write_bytes_out b s :
  wp (write_bytes b)
    (λ _ s', rw_out s' = rw_out s ++ b ∧ rw_headers_sent s' = rw_headers_sent s
             ∧ rw_outcome s' = rw_outcome s)
    (λ _ s', ∃ k, rw_out s' = rw_out s ++ take k b ∧ rw_headers_sent s' = rw_headers_sent s) s.
Proof.
  unfold write_bytes, emit_bytes. wp_step. apply run_wp. unfold next_wait.
  destruct (rw_waits s) as [|[|k|k|k] l]; wp_go; simpl; eauto.
Qed.

Section relay_facts.
Context `{Crates} `{SerdeJson} `{UrlLib}.
Context (L : Limits).

Lemma observe_usage_out m u s :
  wp (observe_usage L m u) (λ _ s', same_out s s') (λ _ s', same_out s s') s.
Proof.
  unfold wp, observe_usage. destruct (rw_guard s) as [g|]; [|done].
  destruct (usage_observation m u) as [[t c]|]; [|done].
  by destruct (observe L t c (rw_ledger s, g)) as [[?|?] [l g']].
Qed.

(** ** Protocol soundness *)

(** The JSON value a frame carries. *)
Definition frame_value (first : bool) (f : bytes) : option value :=
  text ← from_utf8 f;
  let data := fst (sse_fields (lines (if first then trim_bom text else text)) [] None) in
  from_slice (str_bytes (join (String (ascii_of 10) EmptyString) data)).

(** A chat chunk that ends its completion. *)
Definition finishes (v : value) : Prop :=
  ∃ cs c r, (x ← vget "choices" v; as_array x) = Some cs ∧ c ∈ cs
            ∧ vget "finish_reason" c = Some (Str r) ∧ r ∈ FINISH_REASONS.
(** A chunk of the expected model that belongs to completion [id]. *)
Definition belongs (e id : string) (v : value) : Prop :=
  (∃ m, (x ← vget "model" v; as_str x) = Some m ∧ provider_model_matches e m = true)
  ∧ (x ← vget "id" v; as_str x) = Some id.
Definition chat_history (p : Protocol) (h : list value) : Prop :=
  (chat_finished p = true → ∃ v, v ∈ h ∧ finishes v)
  ∧ ∀ e, expected_model p = Some e → ∀ v, v ∈ h → ∃ id, completion_id p = Some id ∧ belongs e id v.

Lemma inspect_choices_finish strict cs fin fin' :
  inspect_choices strict cs fin = Ok fin' → fin' = true →
  fin = true ∨ ∃ c r, c ∈ cs ∧ vget "finish_reason" c = Some (Str r) ∧ r ∈ FINISH_REASONS.
Proof.
  revert fin. induction cs as [|c cs IH]; intros fin Hi Hf; cbn [inspect_choices] in Hi.
  { left. congruence. }
  inv_ok. destruct (vget "finish_reason" c) as [v|] eqn:E.
  - destruct v; try done; try (destruct (IH _ Hi Hf) as [?|(c' & r & ? & ? & ?)];
      [by left|right; exists c', r; set_solver]).
    destruct (str_in s FINISH_REASONS) eqn:Es; [|done]. right. exists c, s.
    split_and!; [set_solver|done|by apply str_in_elem].
  - destruct (IH _ Hi Hf) as [?|(c' & r & ? & ? & ?)]; [by left|right; exists c', r; set_solver].
Qed.

Lemma check_identity_belongs p v id e :
  check_identity p v = Ok id → expected_model p = Some e →
  ∃ i, id = Some i ∧ belongs e i v ∧ (∀ j, completion_id p = Some j → j = i).
Proof.
  intros Hc He. unfold check_identity in Hc. rewrite He in Hc. inv_ok.
  match goal with F : ofilter _ _ = Some ?i |- _ => rename i into i0; rename F into Hf end.
  unfold ofilter in Hf. destruct (x ← vget "id" v; as_str x) as [i|] eqn:Ei; [|done].
  destruct (negb (str_is_empty (trim i))); [injection Hf as ->|done].
  assert (belongs e i0 v) as Hb.
  { split; [|done]. match goal with F : negb (is_some_and _ _) = false |- _ => apply negb_false_iff in F end.
    destruct (x ← vget "model" v; as_str x) as [m|]; [|done]. by exists m. }
  destruct (completion_id p) as [j|]; inv_ok; injection Hc as <-.
  - match goal with F : negb (_ =? _)%string = false |- _ => apply negb_false_iff, String.eqb_eq in F as -> end.
    exists i0. split_and!; [done|done|congruence].
  - exists i0. split_and!; [done|done|done].
Qed.

Lemma inspect_chat_history p v p' h :
  inspect_chat p v = Ok p' → chat_history p h →
  chat_history p' (v :: h) ∧ responses p' = responses p ∧ expected_model p' = expected_model p.
Proof.
  intros Hi [Hf Hb]. unfold inspect_chat in Hi. inv_ok.
  match goal with F : check_identity p v = Ok ?i |- _ => rename i into id; rename F into Hid end.
  match goal with F : inspect_choices _ ?c _ = Ok ?x |- _ => rename c into cs; rename x into fin; rename F into Hfin end.
  set (q := set_finished fin (set_completion_id id p)) in *.
  assert (chat_history q (v :: h) ∧ responses q = responses p ∧ expected_model q = expected_model p) as Hq.
  { split; [|done]. split.
    - simpl. intros Ht. destruct (inspect_choices_finish _ _ _ _ Hfin Ht) as [Hp|(c & r & ? & ? & ?)].
      + destruct (Hf Hp) as (u & ? & ?). exists u. set_solver.
      + exists v. split; [set_solver|]. by exists cs, c, r.
    - simpl. intros e He u Hu.
      destruct (check_identity_belongs _ _ _ _ Hid He) as (i & -> & Hbv & Hsame).
      exists i. split; [done|]. apply list_elem_of_In in Hu as [<-|Hu]; [done|].
      apply list_elem_of_In in Hu. destruct (Hb e He u Hu) as (j & Hj & Hbu). by rewrite <-(Hsame _ Hj). }
  destruct (ofilter _ _); injection Hi as <-; exact Hq.
Qed.

(** A completion the strict profile confirms: some chunk finished it, and every
    chunk came from the expected model under one completion id. *)
Definition confirmed (e : string) (h : list value) : Prop :=
  ∃ id, (∃ v, v ∈ h ∧ finishes v) ∧ ∀ u, u ∈ h → belongs e id u.

(** What one inspected frame does to a chat protocol with history [h]. *)
Definition chat_step (p : Protocol) (f : bytes) (h : list value) (ev : Event) (p' : Protocol)
    (h' : list value) : Prop :=
  chat_history p' h' ∧ (h' = h ∨ ∃ v, h' = v :: h ∧ frame_value (first_frame p) f = Some v)
  ∧ (terminal ev = Some "completed"%string → ∀ e, expected_model p = Some e → confirmed e h').

Lemma done_confirmed p h e :
  chat_history p h → chat_finished p = true →
  is_some (expected_model p) && is_none (completion_id p) = false → expected_model p = Some e →
  confirmed e h.
Proof.
  intros [Hf Hb] Hfin Hid He. destruct (Hf Hfin) as (v & Hv & Hfv).
  destruct (Hb e He v Hv) as (id & Hi & _). exists id. split; [by exists v|].
  intros u Hu. destruct (Hb e He u Hu) as (id' & Hi' & Hbu). congruence.
Qed.

Lemma inspect_responses_keeps p v name o p' :
  inspect_responses p v name = Ok (o, p') →
  responses p' = responses p ∧ expected_model p' = expected_model p.
Proof.
  unfold inspect_responses. intros Hi. inv_ok. cbv zeta in Hi.
  destruct (response_outcome _) as [r|]; [|by injection Hi as <- <-].
  match type of Hi with (if ?b then _ else _) = _ => destruct b end; [by injection Hi as <- <-|].
  inv_ok. by injection Hi as <- <-.
Qed.

Lemma inspect_spec m p f h s :
  (responses p = false → chat_history p h) →
  wp (inspect L m p f)
    (λ x s', same_out s s' ∧ responses (snd x) = responses p
             ∧ expected_model (snd x) = expected_model p
             ∧ (responses p = false → ∃ h', chat_step p f h (fst x) (snd x) h'))
    (λ _ s', same_out s s') s.
Proof.
  intros Hh. unfold inspect. wp_step. apply wp_lift; [|done]. intros text Ht. apply ok_or_Ok in Ht.
  cbv zeta. destruct (sse_fields _ _ _) as [data name] eqn:Ed.
  assert (responses p = false → chat_history (set_first p) h) as Hh' by done.
  destruct (forallb str_is_empty data).
  { wp_step. split_and!; try done. intros Hr. exists h. split_and!; [by apply Hh'|by left|done]. }
  destruct (negb (responses (set_first p)) && _) eqn:Edone.
  - apply andb_true_iff in Edone as [Hr%negb_true_iff _].
    wp_step. apply wp_throw_if; intros Hfin; [done|]. apply negb_false_iff in Hfin.
    wp_step. apply wp_throw_if; intros Hid; [done|]. wp_step. split_and!; try done.
    intros _. exists h. split_and!; [by apply Hh'|by left|]. intros _ e He.
    by eapply (done_confirmed (set_first p)); [apply Hh'|..].
  - wp_step. apply wp_lift; [|done]. intros v Hv. apply ok_or_Ok in Hv.
    wp_step. apply wp_throw_if; intros _; [done|].
    wp_step; wp_step. wp_apply (observe_usage_out m _ s); [|done]. intros [] s1 S1.
    destruct (responses (set_first p)) eqn:Hr.
    + wp_step. apply wp_lift; [|done]. intros [outcome p'] Hi. wp_step.
      assert (responses p' = responses p ∧ expected_model p' = expected_model p) as [? ?].
      { by eapply inspect_responses_keeps in Hi. }
      split_and!; try done. intros Hr'. simpl in Hr. congruence.
    + destruct (is_some (vget "error" v) || opt_str_eq name "error").
      { wp_step. split_and!; try done. intros Hr'. exists h. split_and!; [by apply Hh'|by left|done]. }
      wp_step. apply wp_lift; [|done]. intros p' Hi. wp_step.
      destruct (inspect_chat_history _ _ _ h Hi (Hh' Hr)) as (Hp' & ? & ?).
      split_and!; try done. intros _. exists (v :: h). split_and!; [done| |done].
      right. exists v. split; [done|]. unfold frame_value. rewrite Ht. simpl. by rewrite Ed.
Qed.

(** ** One frame *)

Definition pending_headers (s : rw) : bytes := if rw_headers_sent s then [] else STREAM_HEADERS.
(** [x] was appended to what [s] had written, under sent headers. *)
Definition wrote (s : rw) (x : bytes) (s' : rw) : Prop :=
  rw_out s' = rw_out s ++ x ∧ rw_headers_sent s' = true.
(** The failed relay of a frame: a prefix of what its success writes. *)
Definition wrote_part (s : rw) (total : bytes) (s' : rw) : Prop :=
  same_out s s' ∨ ∃ x, x `prefix_of` total ∧ wrote s x s'.

Lemma part_prefix (x y z : bytes) k : x ++ take k y `prefix_of` x ++ y ++ z.
Proof. apply prefix_app, prefix_app_r, prefix_take. Qed.

Lemma write_next s x y z s1 :
  wrote s x s1 →
  wp (write_bytes y) (λ _ s', wrote s (x ++ y) s')
     (λ _ s', wrote_part s (x ++ y ++ z) s') s1.
Proof.
  intros [Ho Hh]. wp_apply (write_bytes_out y s1).
  - intros [] s2 (Ho2 & Hh2 & _). split; [by rewrite Ho2, Ho, app_assoc|congruence].
  - intros e s2 (k & Ho2 & Hh2). right. exists (x ++ take k y). split; [apply part_prefix|].
    split; [by rewrite Ho2, Ho, app_assoc|congruence].
Qed.

Lemma wrote_same s x s1 s2 : wrote s x s1 → same_out s1 s2 → wrote s x s2.
Proof. intros [? ?] (? & ? & ?). split; congruence. Qed.

#[local] Opaque STREAM_HEADERS LAST_CHUNK CRLF chunk_prefix.

Lemma send_headers_spec s1 s2 x :
  same_out s1 s2 →
  wp (send_headers (rw_headers_sent s2)) (λ _ s', wrote s1 (pending_headers s1) s')
     (λ _ s', wrote_part s1 (pending_headers s1 ++ x) s') s2.
Proof.
  intros (Ho & Hh & _). unfold send_headers, pending_headers. rewrite Hh.
  destruct (rw_headers_sent s1) eqn:E.
  - wp_step. split; [by rewrite app_nil_r|congruence].
  - wp_step; wp_step. wp_apply (write_bytes_out STREAM_HEADERS _); cbn [rw_out rw_headers_sent set_rw_headers].
    + intros [] s4 (Ho4 & Hh4 & _). split; [|done]. by rewrite Ho4, Ho.
    + intros e s4 (k & Ho4 & Hh4). right. exists (take k STREAM_HEADERS).
      split; [apply prefix_app_r, prefix_take|]. split; [by rewrite Ho4, Ho|done].
Qed.

Lemma send_frame_spec s ev p f h s1 :
  wrote s h s1 →
  wp (send_frame ev p f)
    (λ r s', match r with
             | inl p' => p' = p ∧ terminal ev = None ∧ wrote s (h ++ encode_frame f) s'
             | inr d => wrote s ((h ++ encode_frame f) ++ LAST_CHUNK) s' ∧
                        ∃ t, terminal ev = Some t ∧ d = (t =? "completed")%string
                             ∧ rw_outcome s' = terminal_activity t
             end)
    (λ _ s', wrote_part s ((h ++ encode_frame f) ++ LAST_CHUNK) s') s1.
Proof.
  intros Hw1. unfold send_frame, encode_frame.
  assert (∀ x y z w s', x ++ y ++ z = w → wrote_part s (x ++ y ++ z) s' → wrote_part s w s') as Hpart
    by by intros; subst.
  wp_step. wp_apply (write_next s _ (chunk_prefix f) (f ++ CRLF ++ LAST_CHUNK) _ Hw1);
    [|intros e s'; apply Hpart; by rewrite <-!app_assoc].
  intros [] s6 H6. wp_step. wp_apply (write_next s _ f (CRLF ++ LAST_CHUNK) _ H6);
    [|intros e s'; apply Hpart; by rewrite <-!app_assoc].
  intros [] s7 H7. wp_step. wp_apply (write_next s _ CRLF LAST_CHUNK _ H7);
    [|intros e s'; apply Hpart; by rewrite <-!app_assoc].
  intros [] s8 H8. destruct (terminal ev) as [t|].
  - wp_step. wp_apply (write_next s _ LAST_CHUNK [] _ H8);
      [|intros e s'; apply Hpart; by rewrite app_nil_r, <-!app_assoc].
    intros [] s9 [Ho Hh]. wp_step; wp_step. wp_step. split; [|by exists t].
    split; [|done]. simpl. by rewrite Ho, <-!app_assoc.
  - wp_step. split_and!; [done|done|]. by rewrite <-!app_assoc in H8.
Qed.

(** What one frame does to the client's stream and to the protocol. *)
Lemma handle_frame_spec sr latency received p f h s :
  (responses p = false → chat_history p h) →
  let body := pending_headers s ++ encode_frame f in
  wp (handle_frame L sr latency received p f)
    (λ r s', match r with
             | inl p' =>
                 responses p' = responses p ∧ expected_model p' = expected_model p
                 ∧ (responses p = false → ∃ ev h', chat_step p f h ev p' h')
                 ∧ (wrote s body s' ∨ (rw_headers_sent s = false ∧ same_out s s'))
             | inr d =>
                 wrote s (body ++ LAST_CHUNK) s'
                 ∧ (rw_outcome s' = Succeeded → d = true)
                 ∧ (d = true → rw_outcome s' = Succeeded ∧
                      (responses p = false → ∀ e, expected_model p = Some e →
                         ∃ ev p' h', chat_step p f h ev p' h' ∧ confirmed e h'))
             end)
    (λ _ s', wrote_part s (body ++ LAST_CHUNK) s') s.
Proof.
  intros Hh body. unfold handle_frame. wp_step. wp_apply (inspect_spec _ p f h s Hh); [|by left].
  intros [ev p1] s1 (S1 & Hr & He & Hst). cbn [fst snd] in *. wp_step; wp_step.
  destruct (negb _ && negb _) eqn:Ehb.
  { apply andb_true_iff in Ehb as [Hsent%negb_true_iff _]. wp_step. split_and!; try done.
    - intros Hp. destruct (Hst Hp) as [h' ?]. eauto.
    - right. split; [|done]. destruct S1 as (_ & <- & _). done. }
  wp_step. unfold check_audit. wp_step. wp_apply (on_disk_out (check_ready (sr_audit sr)) s1).
  2: { intros e s2 S2. left. by etrans. }
  intros [] s2 S2. assert (same_out s s2) as S12 by by etrans.
  assert (rw_headers_sent s1 = rw_headers_sent s2) as -> by (destruct S2 as (_ & ? & _); done).
  wp_step. wp_apply (send_headers_spec s s2 (encode_frame f ++ LAST_CHUNK) S12).
  2: { intros e s' Hp. unfold body. by rewrite <-app_assoc. }
  intros [] s3 H3. wp_step.
  assert (wp (record_terminal sr latency received ev p1) (λ _ s', same_out s3 s')
            (λ _ s', same_out s3 s') s3) as Hrec.
  { unfold record_terminal. destruct (terminal ev); [|by wp_step]. wp_step. apply on_disk_out. }
  wp_apply Hrec.
  2: { intros e s4 S4. right. exists (pending_headers s). split; [|by eapply wrote_same].
       unfold body. rewrite <-app_assoc. by apply prefix_app_r. }
  intros [] s4 S4. wp_apply (send_frame_spec s ev p1 f _ s4 (wrote_same _ _ _ _ H3 S4)); [|done].
  intros [p'|d] s5; [intros (-> & _ & Hw)|intros (Hw & t & Ht & -> & Ho)].
  - split_and!; try done; [|by left]. intros Hp. destruct (Hst Hp) as [h' ?]. eauto.
  - split; [done|]. split.
    { rewrite Ho. unfold terminal_activity. destruct (t =? "completed")%string; [done|].
      by destruct (t =? "failed")%string. }
    intros ->%String.eqb_eq. split; [done|]. intros Hp e Hexp.
    destruct (Hst Hp) as (h' & Hstep). exists ev, p1, h'. split; [done|]. by apply Hstep.
Qed.

(** ** The whole stream *)

Context (lim : Z).

(** [used] was consumed; its frames are the dropped heartbeats [pre] and the
    forwarded [fs]; every chat chunk of the history came in one of them. *)
Definition from_frames (frames : list bytes) (h : list value) : Prop :=
  ∀ v, v ∈ h → ∃ first f, f ∈ frames ∧ frame_value first f = Some v.
Definition relaying (used : bytes) (sse : SseParser) (p : Protocol) (s : rw) : Prop :=
  ∃ pre fs h, push_all used (sse_new lim) = Ok (pre ++ fs, sse)
    ∧ (if rw_headers_sent s then rw_out s = STREAM_HEADERS ++ encode_frames fs
       else fs = [] ∧ rw_out s = [])
    ∧ (responses p = false → chat_history p h) ∧ from_frames (pre ++ fs) h.
(** What the client received of the provider bytes [total]: a complete chunked
    body of consecutive frames of it. *)
Definition relayed (total : bytes) (s : rw) : Prop :=
  ∃ used rest pre fs sse, total = used ++ rest ∧ push_all used (sse_new lim) = Ok (pre ++ fs, sse)
    ∧ rw_out s = STREAM_HEADERS ++ encode_frames fs ++ LAST_CHUNK.
Definition relayed_part (total : bytes) (s : rw) : Prop :=
  ∃ used rest pre fs sse, total = used ++ rest ∧ push_all used (sse_new lim) = Ok (pre ++ fs, sse)
    ∧ rw_out s `prefix_of` STREAM_HEADERS ++ encode_frames fs ++ LAST_CHUNK
    ∧ (rw_headers_sent s = false → rw_out s = []).
Definition stream_confirmed (total : bytes) (e : string) : Prop :=
  ∃ used rest frames sse h, total = used ++ rest ∧ push_all used (sse_new lim) = Ok (frames, sse)
    ∧ confirmed e h ∧ from_frames frames h.

Lemma relaying_part used rest sse p s : relaying used sse p s → relayed_part (used ++ rest) s.
Proof.
  intros (pre & fs & h & Hp & Ho & _). exists used, rest, pre, fs, sse. split_and!; [done|done|..].
  - destruct (rw_headers_sent s).
    + rewrite Ho, app_assoc. by apply prefix_app_r.
    + destruct Ho as [_ ->]. apply prefix_nil.
  - intros Hs. rewrite Hs in Ho. apply Ho.
Qed.

Lemma chat_step_frames p f h ev p' h' frames :
  chat_step p f h ev p' h' → from_frames frames h → f ∈ frames → from_frames frames h'.
Proof.
  intros (_ & [->|(v & -> & Hv)] & _) Hf Hin; [done|]. intros u Hu.
  apply list_elem_of_In in Hu as [<-|Hu]; [eauto|]. apply Hf. by apply list_elem_of_In.
Qed.

(** One completed frame: the cases of [handle_frame_spec] on the invariant. *)
Lemma relaying_frame used x sse sse' f pre fs :
  push_all used (sse_new lim) = Ok (pre ++ fs, sse) → push x sse = (Ok (Some f), sse') →
  push_all (used ++ [x]) (sse_new lim) = Ok ((pre ++ fs) ++ [f], sse').
Proof. intros H1' H2'. rewrite push_all_app, H1'. simpl. by rewrite H2'. Qed.

Lemma feed_spec sr latency received b used sse p s :
  relaying used sse p s →
  wp (feed L sr latency received b sse p)
    (λ r s', match r with
             | inl (sse', p') => relaying (used ++ b) sse' p' s'
                 ∧ responses p' = responses p ∧ expected_model p' = expected_model p
             | inr d => relayed (used ++ b) s'
                 ∧ (rw_outcome s' = Succeeded → d = true)
                 ∧ (d = true → rw_outcome s' = Succeeded ∧
                      (responses p = false → ∀ e, expected_model p = Some e →
                         stream_confirmed (used ++ b) e))
             end)
    (λ _ s', relayed_part (used ++ b) s') s.
Proof.
  revert used sse p s. induction b as [|x b IH]; intros used sse p s HR; cbn [feed].
  { wp_step. by rewrite app_nil_r. }
  assert (used ++ x :: b = (used ++ [x]) ++ b) as Eb by by rewrite <-app_assoc.
  destruct (push x sse) as [[[f|]|e] sse'] eqn:Hpush.
  2: { rewrite Eb. apply IH. destruct HR as (pre & fs & h & Hp & Ho & Hh & Hf).
       exists pre, fs, h. split_and!; try done. rewrite push_all_app, Hp. simpl. rewrite Hpush.
       simpl. by rewrite app_nil_r. }
  2: { wp_step. by eapply relaying_part. }
  destruct HR as (pre & fs & h & Hp & Ho & Hh & Hf).
  pose proof (relaying_frame _ _ _ _ _ _ _ Hp Hpush) as Hp'.
  assert (from_frames ((pre ++ fs) ++ [f]) h) as Hf'.
  { intros v Hv. destruct (Hf v Hv) as (fi & g & Hg & ?). exists fi, g. split; [set_solver|done]. }
  assert (f ∈ (pre ++ fs) ++ [f]) as Hin by set_solver.
  assert (∀ s', wrote s (pending_headers s ++ encode_frame f) s' →
            rw_out s' = STREAM_HEADERS ++ encode_frames (fs ++ [f]) ∧ rw_headers_sent s' = true) as Hw.
  { intros s' [Hout Hsent]. split; [|done]. rewrite Hout, encode_frames_snoc.
    unfold pending_headers. destruct (rw_headers_sent s); [by rewrite Ho, <-app_assoc|].
    destruct Ho as [-> ->]. done. }
  wp_step. wp_apply (handle_frame_spec sr latency received p f h s Hh).
  - intros [p'|d] s1; cbn beta iota.
    + intros (Hr & He & Hst & Hcase). rewrite Eb.
      assert (relaying (used ++ [x]) sse' p' s1) as HR1.
      { assert (∃ h', (responses p' = false → chat_history p' h') ∧ from_frames ((pre ++ fs) ++ [f]) h') as (h' & Hh' & Hf1).
        { destruct (responses p) eqn:Ep; [exists []; split; [congruence|by intros v Hv%list_elem_of_In]|].
          destruct (Hst eq_refl) as (ev & h' & Hstep). exists h'. split; [intros _; apply Hstep|].
          by eapply chat_step_frames. }
        destruct Hcase as [Hwr|[Hs0 S1]].
        - destruct (Hw _ Hwr) as [Ho1 Hs1]. exists pre, (fs ++ [f]), h'. rewrite Hs1, app_assoc. done.
        - rewrite Hs0 in Ho. destruct Ho as [-> Ho]. destruct S1 as (Ho1 & Hs1 & _).
          exists (pre ++ [f]), [], h'. rewrite Hs1, Hs0. rewrite !app_nil_r in *.
          split_and!; try done. congruence. }
      wp_apply (IH _ _ _ _ HR1); [|done].
      intros [[sse2 p2]|d] s2; rewrite ?Hr, ?He; done.
    + intros (Hwr & Hout' & Hd). wp_step. split_and!; [|done|].
      * destruct Hwr as [Hout Hsent]. exists (used ++ [x]), b, pre, (fs ++ [f]), sse'.
        rewrite app_assoc. split_and!; [done|done|]. rewrite encode_frames_snoc, Hout.
        unfold pending_headers. destruct (rw_headers_sent s).
        -- rewrite Ho, <-!app_assoc. done.
        -- destruct Ho as [-> ->]. by rewrite <-!app_assoc.
      * intros Hdone. destruct (Hd Hdone) as [Hout Hconf]. split; [done|]. intros Hr e He.
        destruct (Hconf Hr e He) as (ev & p' & h' & Hstep & Hc).
        exists (used ++ [x]), b, ((pre ++ fs) ++ [f]), sse', h'. split_and!; try done.
        by eapply chat_step_frames.
  - intros e s1 Hpart. exists (used ++ [x]), b, pre, (fs ++ [f]), sse'. rewrite app_assoc.
    split_and!; [done|done|..].
    2: { intros Hs. destruct Hpart as [(Ho1 & Hs1 & _)|(y & _ & _ & Hs1)]; [|congruence].
         rewrite <-Hs1, Hs in Ho. rewrite Ho1. apply Ho. }
    rewrite encode_frames_snoc. unfold pending_headers in Hpart.
    destruct Hpart as [(Ho1 & _)|(y & Hy & Ho1 & _)]; rewrite Ho1; destruct (rw_headers_sent s).
    + rewrite Ho. apply prefix_app, prefix_app_r, prefix_app_r. done.
    + destruct Ho as [_ ->]. apply prefix_nil.
    + rewrite Ho, <-!app_assoc. by apply prefix_app, prefix_app.
    + destruct Ho as [-> ->]. simpl. rewrite <-!app_assoc in *. done.
Qed.

(** The bytes of a provider body. *)
Fixpoint provider_bytes (l : list chunk) : bytes :=
  match l with
  | [] => []
  | Chunk b :: l => b ++ provider_bytes l
  | ChunkError _ :: l => provider_bytes l
  end.

Lemma relayed_more total rest s : relayed total s → relayed (total ++ rest) s.
Proof.
  intros (used & r & pre & fs & sse & -> & ? & ?). exists used, (r ++ rest), pre, fs, sse.
  by rewrite app_assoc.
Qed.
Lemma relayed_part_more total rest s : relayed_part total s → relayed_part (total ++ rest) s.
Proof.
  intros (used & r & pre & fs & sse & -> & ? & ?). exists used, (r ++ rest), pre, fs, sse.
  by rewrite app_assoc.
Qed.
Lemma stream_confirmed_more total rest e :
  stream_confirmed total e → stream_confirmed (total ++ rest) e.
Proof.
  intros (used & r & frames & sse & h & -> & ? & ?). exists used, (r ++ rest), frames, sse, h.
  by rewrite app_assoc.
Qed.
Lemma relaying_same used sse p s s' : relaying used sse p s → same_out s s' → relaying used sse p s'.
Proof.
  intros (pre & fs & h & ? & ? & ?) (Ho & Hh & _). exists pre, fs, h. by rewrite Ho, Hh.
Qed.

(** The success of a relay of the bytes [total]. *)
Definition stream_done (p : Protocol) (total : bytes) (d : bool) (s : rw) : Prop :=
  relayed total s ∧
  (rw_outcome s = Succeeded → d = true) ∧
  (d = true → rw_outcome s = Succeeded ∧
     (responses p = false → ∀ e, expected_model p = Some e → stream_confirmed total e)).

Lemma relay_loop_spec sr latency chunks received used sse p s :
  relaying used sse p s →
  let total := used ++ provider_bytes chunks in
  wp (relay_loop L sr latency chunks received sse p)
    (λ d s', stream_done p total d s') (λ _ s', relayed_part total s') s.
Proof.
  revert received used sse p s. induction chunks as [|[b|t] chunks IH]; intros received used sse p s HR total;
    cbn [relay_loop provider_bytes] in *.
  - wp_step. wp_apply (guarded_out (Ok ()) s).
    + intros [] s1 [S1 _]. wp_step. by eapply relaying_part, relaying_same.
    + intros e s1 S1. by eapply relaying_part, relaying_same.
  - wp_step. wp_apply (guarded_out (Ok ()) s); [|intros e s1 S1; by eapply relaying_part, relaying_same].
    intros [] s1 [S1 _]. wp_step. apply wp_lift; [|intros; by eapply relaying_part, relaying_same].
    intros received' _. wp_step.
    wp_apply (feed_spec sr latency received' b used sse p s1 (relaying_same _ _ _ _ _ HR S1)).
    2: { intros e s2 Hp. unfold total. rewrite app_assoc. by apply relayed_part_more. }
    intros [[sse' p']|d] s2; cbn beta iota.
    + intros (HR2 & Hr & He). wp_apply (IH received' _ _ _ _ HR2).
      * intros d s3 Hd. unfold total, stream_done in *. rewrite app_assoc. by rewrite Hr, He in Hd.
      * intros e s3 Hp. unfold total. by rewrite app_assoc.
    + intros (Hrel & Hout & Hd). wp_step. unfold total. rewrite app_assoc. split_and!; [by apply relayed_more|done|].
      intros Ht. destruct (Hd Ht) as [Ho Hc]. split; [done|]. intros. by apply stream_confirmed_more, Hc.
  - wp_step. wp_apply (guarded_out (Err (chunk_failure t) : result sfailure unit) s).
    + by intros [] s1 [S1 ?].
    + intros e s1 S1. by eapply relaying_part, relaying_same.
Qed.

Definition upstream_bytes (u : sent) : bytes :=
  match u with Answered r => provider_bytes (pv_chunks r) | _ => [] end.

Lemma nothing_part total s : rw_out s = [] → relayed_part total s.
Proof.
  intros Ho. exists [], total, [], [], (sse_new lim). split_and!; [done|done| |done].
  rewrite Ho. apply prefix_nil.
Qed.

(** Dispatch and drain leave the client's stream alone. *)
Lemma dispatch_out r s :
  wp (dispatch r) (λ a s', same_out s s' ∧ r = Ok a ∧ (is_some (rw_settlement s') = is_some (rw_settlement s)))
     (λ _ s', same_out s s') s.
Proof.
  unfold dispatch. wp_step. apply run_wp. unfold next_wait.
  destruct (rw_waits s) as [|[|[|k]|k|k] l]; wp_go; simpl; try done; intros; split_and!; try done;
    by destruct (rw_settlement s).
Qed.
Lemma drain_out max chunks n s :
  wp (drain max chunks n) (λ _ s', same_out s s') (λ _ s', same_out s s') s.
Proof.
  revert n s. induction chunks as [|[b|t] chunks IH]; intros n s; cbn [drain].
  - wp_apply (guarded_out (Ok ()) s); [by intros ? ? [? _]|done].
  - wp_step. wp_apply (guarded_out (Ok ()) s); [|done]. intros [] s1 [S1 _].
    wp_step. apply wp_lift; [|done]. intros n' _. wp_apply (IH n' s1); intros; by etrans.
  - wp_apply (guarded_out (Err (chunk_failure t) : result sfailure unit) s); [by intros ? ? [? _]|done].
Qed.

(** ** Failures other than a rejection *)

(** A computation that never reports a provider rejection. *)
Definition own_failure {A} (m : M rw sfailure A) : Prop :=
  ∀ s, wp m (λ _ _, True) (λ e _, sf_reason e ≠ PROVIDER_REJECTED) s.
Definition own_result {A} (r : result sfailure A) : Prop :=
  ∀ e, r = Err e → sf_reason e ≠ PROVIDER_REJECTED.

Lemma own_ret {A} (a : A) : own_failure (mret a).
Proof. done. Qed.
Lemma own_fail {A} e : sf_reason e ≠ PROVIDER_REJECTED → own_failure (fail e : M rw sfailure A).
Proof. intros He s. exact He. Qed.
Lemma own_bind {A B} (m : M rw sfailure A) (k : A → M rw sfailure B) :
  own_failure m → (∀ a, own_failure (k a)) → own_failure (m ≫= k).
Proof. intros Hm Hk s. wp_step. wp_apply (Hm s); [intros a s' _; apply Hk|done]. Qed.
Lemma own_lift {A} (r : result sfailure A) :
  own_result r → own_failure (lift r).
Proof. intros Hr s. apply wp_lift; auto. Qed.
Lemma own_throw b e : sf_reason e ≠ PROVIDER_REJECTED → own_failure (throw_if b e).
Proof. intros He s. by apply wp_throw_if. Qed.
Lemma own_const {E A} c (m : M rw E A) :
  sf_reason c ≠ PROVIDER_REJECTED → own_failure (map_err (λ _, c) m).
Proof. intros Hc s. wp_step. apply run_wp. by destruct (m s) as [[]]. Qed.
Lemma own_gets {A} (f : rw → A) : own_failure (gets f).
Proof. done. Qed.
Lemma own_modify f : own_failure (modify f).
Proof. done. Qed.
Lemma own_write b : own_failure (write_bytes b).
Proof.
  intros s. unfold write_bytes, emit_bytes. wp_step. apply run_wp. unfold next_wait.
  destruct (rw_waits s) as [|[] l]; wp_go; done.
Qed.
Lemma own_guarded {A} (r : result sfailure A) :
  own_result r → own_failure (guarded r).
Proof.
  intros Hr s. unfold guarded. wp_step. apply run_wp. unfold next_wait.
  destruct (rw_waits s) as [|[] l]; wp_go; try done; intros; auto.
Qed.
Lemma ok_or_own {A} c (o : option A) :
  sf_reason c ≠ PROVIDER_REJECTED → own_result (ok_or c o).
Proof. intros Hc e. destruct o; simpl; [done|]. by intros [= <-]. Qed.

Lemma own_result_bind {A B} (m : result sfailure A) (k : A → result sfailure B) :
  own_result m → (∀ a, own_result (k a)) → own_result (m ≫= k).
Proof. intros Hm Hk e. destruct m; simpl; [apply Hk|]. intros [= <-]. by apply Hm. Qed.
Lemma own_bail b c : sf_reason c ≠ PROVIDER_REJECTED → own_result (bail_if b c).
Proof. intros Hc e. destruct b; simpl; [by intros [= <-]|done]. Qed.

Lemma inspect_choices_own strict cs fin : own_result (inspect_choices strict cs fin).
Proof.
  revert fin. induction cs as [|c cs IH]; intros fin; cbn [inspect_choices]; [done|].
  repeat (apply own_result_bind; [by apply own_bail|intros _]).
  destruct (vget "finish_reason" c) as [[]|]; try apply IH; try by intros e [= <-].
  destruct (str_in s FINISH_REASONS); [apply IH|by intros e [= <-]].
Qed.
Lemma inspect_chat_own p v : own_result (inspect_chat p v).
Proof.
  unfold inspect_chat. apply own_result_bind; [by apply own_bail|intros _].
  apply own_result_bind.
  { unfold check_identity. destruct (expected_model p); [|done].
    apply own_result_bind; [by apply own_bail|intros _].
    apply own_result_bind; [by apply ok_or_own|intros id]. destruct (completion_id p); [|done].
    apply own_result_bind; [by apply own_bail|done]. }
  intros id. apply own_result_bind; [by apply ok_or_own|intros cs].
  apply own_result_bind; [by apply own_bail|intros _].
  apply own_result_bind; [apply inspect_choices_own|done].
Qed.
Lemma inspect_responses_own p v n : own_result (inspect_responses p v n).
Proof.
  unfold inspect_responses. apply own_result_bind; [by apply ok_or_own|intros k].
  apply own_result_bind; [by apply own_bail|intros _]. cbv zeta.
  destruct (response_outcome k); [|done]. destruct (k =? "error")%string; [done|].
  apply own_result_bind; [by apply own_bail|done].
Qed.

Lemma inspect_own m p f : own_failure (inspect L m p f).
Proof.
  unfold inspect. apply own_bind; [by apply own_lift, ok_or_own|intros text]. cbv zeta.
  destruct (sse_fields _ _ _) as [data n]. destruct (forallb _ _); [done|].
  destruct (negb _ && _).
  { repeat (apply own_bind; [by apply own_throw|intros _]). done. }
  apply own_bind; [by apply own_lift, ok_or_own|intros v].
  apply own_bind; [by apply own_throw|intros _].
  apply own_bind; [by apply own_const|intros _].
  destruct (responses _).
  { apply own_bind; [apply own_lift, inspect_responses_own|by intros []]. }
  destruct (_ || _); [done|].
  apply own_bind; [apply own_lift, inspect_chat_own|done].
Qed.
Lemma handle_frame_own sr l r p f : own_failure (handle_frame L sr l r p f).
Proof.
  unfold handle_frame. apply own_bind; [apply inspect_own|intros [ev p']].
  apply own_bind; [apply own_gets|intros sent]. destruct (_ && _); [done|].
  apply own_bind; [by apply own_const|intros _].
  apply own_bind; [unfold send_headers; destruct sent; [done|]; apply own_bind; [done|intros _; apply own_write]|intros _].
  apply own_bind; [unfold record_terminal; destruct (terminal ev); [by apply own_const|done]|intros _].
  unfold send_frame. repeat (apply own_bind; [apply own_write|intros _]).
  destruct (terminal ev); [|done]. apply own_bind; [apply own_write|intros _]. by apply own_bind.
Qed.
Lemma push_own x s : own_result (fst (push x s)).
Proof.
  unfold push, own_result. destruct (_ && _); [done|]. destruct (_ <? _); [by intros e [= <-]|].
  destruct (_ || _); [|done]. by destruct (_ =? _).
Qed.
Lemma feed_own sr l r b sse p : own_failure (feed L sr l r b sse p).
Proof.
  revert sse p. induction b as [|x b IH]; intros sse p; cbn [feed]; [done|].
  pose proof (push_own x sse) as Hp. destruct (push x sse) as [[[f|]|e] sse'].
  - apply own_bind; [apply handle_frame_own|intros [p'|d]; [apply IH|done]].
  - apply IH.
  - apply own_fail. by apply Hp.
Qed.
Lemma relay_loop_own sr l cs r sse p : own_failure (relay_loop L sr l cs r sse p).
Proof.
  revert r sse p. induction cs as [|[b|t] cs IH]; intros r sse p; cbn [relay_loop].
  - by apply own_bind; [apply own_guarded|intros _; apply own_fail].
  - apply own_bind; [by apply own_guarded|intros _].
    apply own_bind; [by apply own_lift, ok_or_own|intros r'].
    apply own_bind; [apply feed_own|intros [[sse' p']|d]; [apply IH|done]].
  - apply own_bind; [|intros _; by apply own_fail]. apply own_guarded. intros e [= <-]. by destruct t.
Qed.

(** ** The relay *)

(** A provider that rejected the request; in strict mode its whole error body
    was read within the response limit. *)
Definition body_read (max : Z) (chunks : list chunk) : Prop :=
  (∀ t, ChunkError t ∉ chunks) ∧ blen (provider_bytes chunks) ≤ max.
Definition rejected (sr : StreamingResponse) (strict : bool) (u : sent) (status : Z) : Prop :=
  ∃ r, u = Answered r ∧ status = pv_status r ∧ is_success (pv_status r) = false
    ∧ (strict = true → body_read (sr_max_response_bytes sr) (pv_chunks r)).

Lemma dispatch_own r : own_result r → own_failure (dispatch r).
Proof.
  intros Hr s. unfold dispatch. wp_step. apply run_wp. unfold next_wait.
  destruct (rw_waits s) as [|[|[|k]|k|k] l]; wp_go; try done; intros; auto.
Qed.
Lemma drain_spec max chunks n s :
  n ≤ max →
  wp (drain max chunks n)
    (λ _ _, (∀ t, ChunkError t ∉ chunks) ∧ n + blen (provider_bytes chunks) ≤ max)
    (λ e _, sf_reason e ≠ PROVIDER_REJECTED) s.
Proof.
  revert n s. induction chunks as [|[b|t] chunks IH]; intros n s Hn; cbn [drain provider_bytes].
  - wp_apply (own_guarded (Ok ()) ltac:(done) s); [|done]. intros _ _ _. split; [|unfold blen; simpl; lia].
    by intros t Ht%list_elem_of_In.
  - wp_step. wp_apply (own_guarded (Ok ()) ltac:(done) s); [|done]. intros [] s1 _.
    wp_step. apply wp_lift; [|by apply ok_or_own]. intros n' Hn'. unfold add_received in Hn'.
    apply ok_or_Ok in Hn'. destruct (checked_add n (blen b)) as [k|] eqn:Ek; [|done].
    apply checked_add_Some in Ek as [_ ->]. simpl in Hn'.
    destruct (Z.leb_spec (n + blen b) max); [injection Hn' as <-|done].
    wp_apply (IH (n + blen b) s1); [done| |done]. intros _ _ [H1' H2']. split.
    + intros t Ht. apply elem_of_cons in Ht as [|]; [done|]. by apply (H1' t).
    + unfold blen in *. rewrite length_app. lia.
  - assert (own_failure (guarded (Err (chunk_failure t) : result sfailure unit))) as Ho.
    { apply own_guarded. intros e [= <-]. by destruct t. }
    pose proof (Ho s) as Hs. pose proof (guarded_out (Err (chunk_failure t) : result sfailure unit) s) as Hg.
    unfold wp in *. destruct (guarded _ s) as [[u|e] s']; [|done]. by destruct Hg.
Qed.

Definition initial_protocol (sr : StreamingResponse) (strict : bool) : Protocol :=
  protocol_new (sr_route sr =? "/v1/responses")%string
    (if strict then Some (name (sr_model_policy sr)) else None).

Lemma relaying_start p s : rw_out s = [] → rw_headers_sent s = false →
  (p = protocol_new (responses p) (expected_model p)) → relaying [] (sse_new lim) p s.
Proof.
  intros Ho Hh Hp. exists [], [], []. rewrite Hh. split_and!; try done.
  - intros _. rewrite Hp. split; [done|]. by intros e _ v Hv%list_elem_of_In.
  - by intros v Hv%list_elem_of_In.
Qed.

Lemma relay_spec sr latency u s :
  rw_out s = [] → rw_headers_sent s = false → max_event_bytes (sr_policy sr) = lim →
  0 ≤ sr_max_response_bytes sr →
  let strict := is_some (rw_settlement s) in
  wp (relay L sr latency u)
    (λ d s', stream_done (initial_protocol sr strict) (upstream_bytes u) d s')
    (λ e s', relayed_part (upstream_bytes u) s'
             ∧ (sf_reason e = PROVIDER_REJECTED →
                same_out s s' ∧ rejected sr strict u (sf_status e))) s.
Proof.
  intros Ho Hh Hlim Hmax strict. unfold relay.
  assert (∀ s', same_out s s' → rw_out s' = []) as Hout by (intros s' (? & _); congruence).
  assert (∀ e s', same_out s s' → sf_reason e ≠ PROVIDER_REJECTED →
    relayed_part (upstream_bytes u) s' ∧ (sf_reason e = PROVIDER_REJECTED →
                same_out s s' ∧ rejected sr strict u (sf_status e))) as Hearly.
  { intros e s' S He. split; [by apply nothing_part, Hout|done]. }
  wp_step. apply wp_throw_if; intros _; [by apply Hearly|].
  wp_step. unfold check_audit. wp_step.
  wp_apply (wp_conj _ _ _ _ _ _ (on_disk_out (check_ready (sr_audit sr)) s) (on_disk_settlement _ s)).
  2: { intros e s1 [S1 _]. by apply Hearly. }
  intros [] s1 [S1 Hs1]. wp_step.
  assert (own_result (match u with
                      | Answered r => Ok r
                      | SendError t => Err (mkSFailure (if t then 504 else 502) "provider streaming request failed")
                      | ClientError => Err (upstream_failure "cannot construct streaming client")
                      end)) as Hown.
  { destruct u as [|t|r]; intros e; [by intros [= <-]|intros [= <-]; by destruct t|done]. }
  wp_apply (wp_conj _ _ _ _ _ _ (dispatch_out _ s1) (dispatch_own _ Hown s1)).
  2: { intros e s2 [S2 He]. apply Hearly; [by etrans|done]. }
  intros r s2 ((S2 & Hu & Hst) & _). destruct u as [| |r']; [done..|]. injection Hu as <-.
  assert (same_out s s2) as S02 by by etrans.
  wp_step; wp_step. rewrite Hst, Hs1. fold strict. cbn [upstream_bytes] in *.
  destruct (is_success (pv_status r')) eqn:Hsucc; cbn [negb].
  - cbv zeta. wp_step. apply wp_throw_if; intros _; [by apply Hearly|].
    wp_step. apply wp_throw_if; intros _; [by apply Hearly|].
    rewrite Hlim. fold (initial_protocol sr strict).
    assert (relaying [] (sse_new lim) (initial_protocol sr strict) s2) as HR.
    { destruct S02 as (Ho2 & Hh2 & _). apply relaying_start; [congruence..|done]. }
    wp_apply (wp_conj _ _ _ _ _ _ (relay_loop_spec sr latency (pv_chunks r') 0 [] _ _ _ HR)
                (relay_loop_own _ _ _ _ _ _ s2)).
    + by intros d s3 [? _].
    + intros e s3 [? ?]. by split.
  - wp_step.
    assert (wp (if strict then drain (sr_max_response_bytes sr) (pv_chunks r') 0 else mret tt)
              (λ _ s', same_out s2 s' ∧ (strict = true → body_read (sr_max_response_bytes sr) (pv_chunks r')))
              (λ e s', same_out s2 s' ∧ sf_reason e ≠ PROVIDER_REJECTED) s2) as Hdrain.
    { destruct strict; [|by wp_step].
      wp_apply (wp_conj _ _ _ _ _ _ (drain_out _ (pv_chunks r') 0 s2) (drain_spec _ (pv_chunks r') 0 s2 Hmax)).
      - intros [] s3 (? & ? & ?). split; [done|]. intros _. by split.
      - by intros e s3 [? ?]. }
    wp_apply Hdrain.
    + intros [] s3 [S3 Hb]. wp_step. split; [apply nothing_part, Hout; by etrans|].
      intros _. split; [by etrans|]. by exists r'.
    + intros e s3 [S3 He]. apply Hearly; [by etrans|done].
Qed.

Lemma ok_of_write b s :
  wp (ok_of (write_bytes b))
    (λ (a : bool) s', ∃ x, x `prefix_of` b ∧ rw_out s' = rw_out s ++ x ∧ (a = true → x = b))
    (λ (_ : string) _, False) s.
Proof.
  unfold ok_of. wp_step; wp_step. wp_apply (write_bytes_out b s).
  - intros [] s1 (? & _). wp_step. by exists b.
  - intros e s1 (k & ? & _). wp_step. exists (take k b). split; [apply prefix_take|done].
Qed.

Definition error_body (f : sfailure) : bytes := to_vec (json_obj [("error"%string, Str (sf_reason f))]).
Definition error_response (f : sfailure) : bytes :=
  error_head (sf_status f) (blen (error_body f)) ++ error_body f.

Lemma error_write_spec f s :
  wp (a ← ok_of (write_bytes (error_head (sf_status f) (blen (error_body f))));
      if (a : bool) then ok_of (write_bytes (error_body f)) else mret false)
    (λ (b : bool) s', ∃ x, x `prefix_of` error_response f ∧ rw_out s' = rw_out s ++ x
                           ∧ (b = true → x = error_response f))
    (λ (_ : string) _, False) s.
Proof.
  wp_step. wp_apply (ok_of_write _ s); [|done]. intros [] s1 (x & Hx & Ho & Ht).
  - rewrite (Ht eq_refl) in Ho. wp_apply (ok_of_write _ s1); [|done]. intros b s2 (y & Hy & Ho2 & Hb).
    exists (error_head (sf_status f) (blen (error_body f)) ++ y). split_and!.
    + by apply prefix_app.
    + by rewrite Ho2, Ho, app_assoc.
    + intros Hbt. by rewrite (Hb Hbt).
  - wp_step. exists x. split_and!; [by apply prefix_app_r|done|done].
Qed.

(** An error response, or a part of it, and only where nothing was sent. *)
Definition answered_part (f : sfailure) (s s' : rw) : Prop :=
  ∃ x, x `prefix_of` error_response f ∧ rw_out s' = rw_out s ++ x
       ∧ (rw_headers_sent s = true → x = []).

(** An aborted stream counts as finished only for a rejection whose error
    response was delivered in full. *)
Lemma abort_spec sr it f s :
  wp (abort_stream sr it f)
    (λ b s', b = true ∧ sf_reason f = PROVIDER_REJECTED ∧ rw_headers_sent s = false
             ∧ rw_out s' = rw_out s ++ error_response f)
    (λ _ s', answered_part f s s') s.
Proof.
  unfold abort_stream. wp_step. unfold ok_of at 1. wp_step; wp_step.
  assert (∀ a s1, same_out s s1 → wp (
    sent ← gets rw_headers_sent;
    delivered ← (if negb sent && negb (sf_status f =? 0) && it then
                 a ← ok_of (write_bytes (error_head (sf_status f) (blen (error_body f))));
                 if (a : bool) then ok_of (write_bytes (error_body f)) else mret false
               else mret false);
    if (sf_reason f =? PROVIDER_REJECTED)%string && a && delivered then mret true
    else fail (sf_reason f))
      (λ b s', b = true ∧ sf_reason f = PROVIDER_REJECTED ∧ rw_headers_sent s = false
             ∧ rw_out s' = rw_out s ++ error_response f) (λ _ s', answered_part f s s') s1) as Hrest.
  { intros a s1 (Ho & Hh & _). wp_step; wp_step. wp_step.
    destruct (negb (rw_headers_sent s1) && _ && _) eqn:Eg.
    - apply andb_true_iff in Eg as [[Hs%negb_true_iff _]%andb_true_iff _].
      wp_apply (error_write_spec f s1); [|done]. intros d s2 (x & Hx & Ho2 & Hd).
      rewrite Ho in Ho2. destruct (_ && d) eqn:Ed.
      + wp_step. apply andb_true_iff in Ed as [[Er%String.eqb_eq _]%andb_true_iff ->].
        split_and!; [done|done|congruence|]. by rewrite Ho2, (Hd eq_refl).
      + exists x. split_and!; [done|done|congruence].
    - wp_step. rewrite andb_false_r. exists []. split_and!; [apply prefix_nil| |done].
      by rewrite app_nil_r. }
  wp_apply (on_disk_out _ s); [intros [] s1 S1|intros e s1 S1]; wp_step; by apply Hrest.
Qed.

(** What the client of a stream received when [write_stream] answers. *)
Definition stream_verdict (sr : StreamingResponse) (strict : bool) (u : sent) (done rejection : bool)
    (s : rw) : Prop :=
  if rejection then
    done = true ∧ ∃ f, sf_reason f = PROVIDER_REJECTED ∧ rejected sr strict u (sf_status f)
                       ∧ rw_out s = error_response f
  else stream_done (initial_protocol sr strict) (upstream_bytes u) done s.
Definition stream_part (total out : bytes) : Prop :=
  ∃ used rest pre fs sse, total = used ++ rest ∧ push_all used (sse_new lim) = Ok (pre ++ fs, sse)
    ∧ out `prefix_of` STREAM_HEADERS ++ encode_frames fs ++ LAST_CHUNK.
Definition stream_failed (u : sent) (s : rw) : Prop :=
  stream_part (upstream_bytes u) (rw_out s) ∨ ∃ f, rw_out s `prefix_of` error_response f.
Lemma relayed_part_out total s : relayed_part total s → stream_part total (rw_out s).
Proof. intros (used & rest & pre & fs & sse & ? & ? & ? & _). by exists used, rest, pre, fs, sse. Qed.

Lemma write_stream_spec sr latency setup it u s :
  rw_out s = [] → max_event_bytes (sr_policy sr) = lim → 0 ≤ sr_max_response_bytes sr →
  wp (write_stream L sr latency setup it u)
    (λ x s', stream_verdict sr (is_some (rw_settlement s)) u (fst x) (snd x) s')
    (λ _ s', stream_failed u s') s.
Proof.
  intros Ho Hlim Hmax. unfold write_stream. wp_step. apply wp_throw_if; intros _.
  { left. by apply relayed_part_out, nothing_part. }
  wp_step; wp_step. wp_step; wp_step.
  wp_apply (relay_spec sr latency u (set_rw_outcome Uncertain (set_rw_headers false s)) Ho eq_refl Hlim Hmax).
  - intros d s1 Hd. by wp_step.
  - intros f s1 (Hp & Hrej). wp_step. wp_apply (abort_spec sr it f s1).
    + intros b s2 (-> & Hr & Hh & Ho2). wp_step. destruct (Hrej Hr) as [(Ho1 & _ & _) Hrj].
      simpl in Ho1. split; [done|]. exists f. split_and!; [done|done|]. by rewrite Ho2, Ho1, Ho.
    + intros e s2 (x & Hx & Ho2 & Hn). destruct (rw_headers_sent s1) eqn:Hh.
      * rewrite (Hn eq_refl), app_nil_r in Ho2. left. rewrite Ho2. by apply relayed_part_out.
      * destruct Hp as (? & ? & ? & ? & ? & _ & _ & _ & Hz). rewrite (Hz Hh) in Ho2.
        right. exists f. by rewrite Ho2.
Qed.

Lemma settle_stream_out s : same_out s (snd (settle_stream L s)).
Proof.
  unfold settle_stream. destruct (rw_settlement s) as [r|]; [|done].
  by destruct (settle L r (rw_ledger s)).
Qed.
Lemma drop_stream_out s : same_out s (snd (drop_stream L s)).
Proof. done. Qed.

(** Dropping a dispatched reservation keeps it: the ledger's budget moves only
    by the release of the usage guard. *)
Definition hold_kept (s s' : rw) : Prop := rw_ledger s' = rw_ledger (snd (drop_stream L s)).

Definition stream_accounted (sr : StreamingResponse) (strict : bool) (u : sent) (s1 : rw)
    (answer : result string unit) (o : Outcome) (s' : rw) : Prop :=
  (o = Succeeded → stream_verdict sr strict u true false s')
  ∧ ((∃ rejection, stream_verdict sr strict u true rejection s') ∨ hold_kept s1 s').

Lemma verdict_same sr strict u d rj s s' :
  stream_verdict sr strict u d rj s → same_out s s' → stream_verdict sr strict u d rj s'.
Proof.
  intros Hv (Ho & _ & Hoc). unfold stream_verdict, stream_done, relayed in *. by rewrite Ho, Hoc.
Qed.

Lemma write_to_spec sr latency setup it u s x s' :
  rw_out s = [] → max_event_bytes (sr_policy sr) = lim → 0 ≤ sr_max_response_bytes sr →
  write_to L sr latency setup it u s = (Ok x, s') →
  stream_accounted sr (is_some (rw_settlement s)) u
    (snd (write_stream L sr latency setup it u s)) (fst x) (snd x) s'.
Proof.
  intros Ho Hlim Hmax. pose proof (write_stream_spec sr latency setup it u s Ho Hlim Hmax) as Hw.
  unfold write_to, attempt, mbind, M_bind, gets, mret, M_ret, wp in *.
  destruct (write_stream _ _ _ _ _ _ s) as [[[d rj]|e] s1]; cbn [fst snd] in *.
  - pose proof (settle_stream_out s1) as Hs. destruct d.
    + destruct (settle_stream L s1) as [ans s2] eqn:Es. cbn [fst snd] in *. intros [= <- <-].
      pose proof (drop_stream_out s2) as Hd.
      assert (stream_verdict sr (is_some (rw_settlement s)) u true rj (snd (drop_stream L s2))) as Hv.
      { eapply verdict_same; [exact Hw|]. etrans; [exact Hs|exact Hd]. }
      split; [destruct rj; [done|]; intros _; exact Hv|left; by exists rj].
    + intros [= <- <-]. split; [|by right]. destruct rj; [done|]. intros Hoc. exfalso.
      destruct Hw as (_ & Hs' & _). by specialize (Hs' Hoc).
  - intros [= <- <-]. split; [done|by right].
Qed.
End relay_facts.

(** ** Properties *)

(** [SseParser::push] over any byte string: the emitted frames and the
    pending one are exactly the input with its line ends normalised, so nothing is
    lost, duplicated or reordered; every frame is a block of non-blank lines closed by one
    blank line and no longer than the limit; and the parser fails only at a byte that would
    make the pending frame exceed the limit. *)
Theorem sse_parser_is_exact (n : Z) (l : bytes) :
  0 ≤ n →
  match push_all l (sse_new n) with
  | Ok (fs, s) =>
      concat fs ++ frame s = normalize false l
      ∧ Forall (λ f, well_framed f ∧ blen f ≤ n) fs
      ∧ no_blank true (frame s) = true ∧ blen (frame s) ≤ n
  | Err _ =>
      ∃ l1 b l2 fs s, l = l1 ++ b :: l2 ∧ push_all l1 (sse_new n) = Ok (fs, s) ∧ blen (frame s) = n
  end.
Proof.
  intros Hn. destruct (push_all l (sse_new n)) as [[fs s]|e] eqn:E.
  - destruct (push_all_spec _ _ _ _ (sse_new_inv n Hn) Hn E) as (Hi & Hl & Hc & Hall).
    split_and!; [done|done|by apply si_blank|]. pose proof (si_bound _ Hi). simpl in Hl. lia.
  - destruct (push_all_Err _ _ _ E) as (l1 & b & l2 & fs & s & -> & H1 & H2).
    exists l1, b, l2, fs, s. split_and!; [done|done|].
    destruct (push_all_spec _ _ _ _ (sse_new_inv n Hn) Hn H1) as (Hi & Hl & _ & _).
    pose proof (si_bound _ Hi). simpl in Hl. lia.
Qed.

Section properties.
Context `{Crates} `{SerdeJson} `{UrlLib}.
Context (L : Limits).


End properties.
