(* ===== verification/Server.v ===== *)
(** * The server: [main.rs] and [write_response] of [http.rs]

    Writing a response (and settling only afterwards), one connection from its
    first byte to its last, the accept loop with its concurrency limit as a step
    relation over the shared counter, and the command line. *)

From S2P Require Import Prelude RustStr Json Posix Budget Limits Policy Net Activity Config Http Envelope Storage Streaming Broker.

(** What the environment does during a stream: the outcome of each wait, the
    elapsed milliseconds, whether the runtime and the cloned socket could be set
    up, whether an abort is still in time, and the provider. *)
Record stream_script : Type := mkScript {
  ss_waits : list wait;
  ss_latency : Z;
  ss_setup : bool;
  ss_in_time : bool;
  ss_upstream : sent;
}.

Definition reason_phrase (status : Z) : string :=
  if status =? 200 then "OK"
  else if status =? 400 then "Bad Request"
  else if status =? 401 then "Unauthorized"
  else if status =? 403 then "Forbidden"
  else if status =? 404 then "Not Found"
  else if status =? 405 then "Method Not Allowed"
  else if status =? 413 then "Content Too Large"
  else if status =? 429 then "Too Many Requests"
  else if status =? 502 then "Bad Gateway"
  else if status =? 503 then "Service Unavailable"
  else "Error".

Definition response_head (status : Z) (content_type : string) (len : Z) : bytes :=
  str_bytes "HTTP/1.1 " ++ str_bytes (dec status) ++ str_bytes " " ++ line (reason_phrase status)
  ++ str_bytes "Content-Type: " ++ line content_type
  ++ str_bytes "Content-Length: " ++ line (dec len)
  ++ line "Connection: close" ++ line "Cache-Control: no-store"
  ++ line "X-Content-Type-Options: nosniff" ++ CRLF.

Section server.
Context `{Crates} `{SerdeJson} `{UrlLib}.
Context (credentials : option string) (decode_fetch : bytes → option string).

(** One connection: the handler's state, the socket and the script of a
    stream, should the response be one. *)
Record cs : Type := mkCs { c_hs : hs; c_conn : conn; c_script : stream_script }.
Definition set_c_hs x (s : cs) : cs := mkCs x (c_conn s) (c_script s).
Definition set_c_conn x (s : cs) : cs := mkCs (c_hs s) x (c_script s).
Definition set_c_ledger l (s : cs) : cs := set_c_hs (set_h_ledger l (c_hs s)) s.
Definition set_c_env e (s : cs) : cs := set_c_hs (set_h_env e (c_hs s)) s.

Definition drop_activity (g : option Guard) (s : cs) : cs :=
  match g with
  | Some g => set_c_env (snd (guard_drop g (h_env (c_hs s)))) s
  | None => s
  end.
Definition drop_settlement (L : Limits) (r : option Reservation) (s : cs) : cs :=
  match r with
  | Some r => set_c_ledger (snd (drop_reservation L r (h_ledger (c_hs s)))) s
  | None => s
  end.

(** [streaming.write_to(stream)]: the relay writes to the same socket. *)
Definition write_streaming (L : Limits) (st : stream_parts) : M cs string unit := λ s,
  let sc := c_script s in
  let rw0 := mkRw (h_ledger (c_hs s)) (st_usage st) (st_settlement st) (ss_waits sc) [] false Uncertain in
  let '(r, rw1) := write_to L (st_response st) (ss_latency sc) (ss_setup sc) (ss_in_time sc) (ss_upstream sc) rw0 in
  let '(answer, outcome) := match r with Ok x => x | Err e => (Err e, Uncertain) end in
  let s := set_c_ledger (rw_ledger rw1) s in
  let s := set_c_conn (set_out (c_out (c_conn s) ++ rw_out rw1) (c_conn s)) s in
  (answer, drop_activity (guard_finish outcome ∘ guard_dispatched <$> st_activity st) s).

(** The head and the body; an error leaves the rest unsent. *)
Definition write_complete (resp : Response) : M cs string unit :=
  zoom c_conn set_c_conn (map_err (λ _, "write failed"%string) (
    _ ← write_all (response_head (r_status resp) (r_content_type resp) (blen (r_body resp)));
    write_all (r_body resp))).

Definition settle_response (L : Limits) (r : Reservation) : M cs string unit :=
  zoom (λ s, h_ledger (c_hs s)) set_c_ledger (settle L r).

Definition write_response (L : Limits) (resp : Response) : M cs string unit :=
  match r_streaming resp with
  | Some st => write_streaming L st
  | None => λ s,
      match write_complete resp s with
      | (Err e, s) =>
          (Err e, drop_activity (fst <$> r_activity resp) (drop_settlement L (r_settlement resp) s))
      | (Ok _, s) =>
          let '(settled, s) := match r_settlement resp with
                               | Some r => settle_response L r s
                               | None => (Ok tt, s)
                               end in
          match settled with
          | Err e => (Err e, drop_activity (fst <$> r_activity resp) s)
          | Ok _ =>
              (Ok tt, drop_activity ((λ '(g, o), guard_finish o g) <$> r_activity resp) s)
          end
      end
  end.

(** ** One connection *)

Record ConnectionSettings : Type := mkConnSettings {
  cn_timeout : Z;
  cn_max_concurrency : Z;
  cn_header_limit : Z;
  cn_body_limit : Z;
}.

Definition handle_connection (b : Broker) (cfg : ConnectionSettings) (deadline : instant) (s : cs) : cs :=
  let '(r, c) := read_request (cn_header_limit cfg) (cn_body_limit cfg) deadline (c_conn s) in
  let s := set_c_conn c s in
  let '(resp, h) := match r with
                    | Ok req => handle credentials decode_fetch b req (c_hs s)
                    | Err reason => (Response_json 400 (error_json reason), c_hs s)
                    end in
  snd (write_response (limits b) resp (set_c_hs h s)).

(** [dispatch_connection], given what [fetch_add] returned: over the limit the
    connection is refused without being read, otherwise its thread handles it. *)
Definition dispatch_connection (b : Broker) (cfg : ConnectionSettings) (previous : Z) (deadline : instant) (s : cs) : cs :=
  if cn_max_concurrency cfg <=? previous
  then snd (write_response (limits b) (Response_json 503 (error_json "broker concurrency limit exceeded")) s)
  else handle_connection b cfg deadline s.

(** ** The command line *)

Inductive Command : Type :=
| Serve (path : string)
| InitializeStrictBudget (path : string)
| ReconcileStrictBudget (path : string).

Definition USAGE : string :=
  "usage: tentaflake-broker --config /absolute/path/config.json | --initialize-strict-budget /absolute/path/budget.json | --reconcile-strict-budget /absolute/path/budget.json".
(** [args]: the arguments after the program name. *)
Definition parse_args (args : list string) : result string Command :=
  match args with
  | [] => Err "missing broker operation"%string
  | [_] => Err "missing absolute path"%string
  | operation :: path :: rest =>
      if negb (bool_decide (rest = [])) || negb (path_is_absolute path) || has_parent_dir path
      then Err "broker operation requires one absolute path without traversal"%string
      else if (operation =? "--config")%string then Ok (Serve path)
      else if (operation =? "--initialize-strict-budget")%string then Ok (InitializeStrictBudget path)
      else if (operation =? "--reconcile-strict-budget")%string then Ok (ReconcileStrictBudget path)
      else Err USAGE
  end.

(** [run] up to the accept loop: what it serves, or [None] for a command that
    is done.  [bound]: the listener could be bound. *)
Definition start_server (decode_config : bytes → option Config) (bound : bool) (args : list string) :
    M world string (option (Broker * ledger * ConnectionSettings)) :=
  command ← lift (parse_args args);
  match command with
  | InitializeStrictBudget p =>
      now ← unix_seconds;
      _ ← initialize_strict_at p now;
      mret None
  | ReconcileStrictBudget p =>
      now ← unix_seconds;
      _ ← reconcile_strict_at p now;
      mret None
  | Serve p =>
      c ← Config.load decode_config credentials p;
      _ ← throw_if (negb bound) "cannot bind broker listener";
      let settings := mkConnSettings (timeout_seconds c) (max_concurrency c) (max_header_bytes c)
                        (max_request_bytes c) in
      '(b, l) ← new c;
      mret (Some (b, l, settings))
  end.
End server.

(** ** The accept loop

    The only accesses to the counter are atomic: the accept loop's [fetch_add],
    its [fetch_sub] for a refused connection, and the [fetch_sub] of the guard a
    connection's thread drops.  [accepting] is the value [fetch_add] returned to
    the loop while it decides; threads finish in between. *)

Record server : Type := mkServer {
  active : Z;
  accepting : option Z;
  running : nat;
  refused : nat;
}.
Definition usize_wrap (x : Z) : Z := x mod 2 ^ 64.
Definition fetch_add (s : server) : server :=
  mkServer (usize_wrap (active s + 1)) (Some (active s)) (running s) (refused s).

Inductive server_step (max_concurrency : Z) : server → server → Prop :=
| SAccept s : accepting s = None → server_step max_concurrency s (fetch_add s)
| SRefuse s previous :
    accepting s = Some previous → max_concurrency ≤ previous →
    server_step max_concurrency s
      (mkServer (usize_wrap (active s - 1)) None (running s) (S (refused s)))
| SSpawn s previous :
    accepting s = Some previous → previous < max_concurrency →
    server_step max_concurrency s (mkServer (active s) None (S (running s)) (refused s))
| SFinish s n :
    running s = S n →
    server_step max_concurrency s (mkServer (usize_wrap (active s - 1)) (accepting s) n (refused s)).

Definition server_init : server := mkServer 0 None 0 0.
Definition server_reachable (max_concurrency : Z) : server → Prop :=
  rtc (server_step max_concurrency) server_init.

(** * Facts *)

(** The counter is exact, and a connection about to be served has a place. *)
Record server_inv (m : Z) (s : server) : Prop := {
  sv_active : active s = Z.of_nat (running s) + match accepting s with Some _ => 1 | None => 0 end;
  sv_running : Z.of_nat (running s) ≤ m;
  sv_place p : accepting s = Some p → Z.of_nat (running s) ≤ p;
}.

Lemma server_inv_step m s s' :
  0 ≤ m < u64_max → server_inv m s → server_step m s s' → server_inv m s'.
Proof.
  intros Hm [Ha Hr Hp] Hs. unfold u64_max in Hm. inversion Hs; subst; unfold fetch_add, usize_wrap in *.
  - rewrite H in Ha. split; simpl; [rewrite Z.mod_small; lia|done|intros p [= <-]; lia].
  - rewrite H in Ha. split; simpl; [rewrite Z.mod_small; lia|done|done].
  - rewrite H in Ha. specialize (Hp _ H). split; simpl; [lia|lia|done].
  - split; simpl; [|lia|intros p Hq; specialize (Hp p Hq); lia].
    destruct (accepting s); rewrite Z.mod_small; lia.
Qed.

Lemma server_inv_reachable m s : 0 ≤ m < u64_max → server_reachable m s → server_inv m s.
Proof.
  intros Hm Hr. assert (server_inv m server_init) as Hi by by split; simpl; try done; lia.
  revert Hi. induction Hr as [|x y z Hxy _ IH]; [done|]. intros Hx. apply IH. by eapply server_inv_step.
Qed.

Section server_facts.
Context `{Crates} `{SerdeJson} `{UrlLib}.
Context (credentials : option string) (decode_fetch : bytes → option string).

Definition full_response (resp : Response) : bytes :=
  response_head (r_status resp) (r_content_type resp) (blen (r_body resp)) ++ r_body resp.

Lemma write_complete_spec resp s :
  wp (write_complete resp)
    (λ _ s', c_out (c_conn s') = c_out (c_conn s) ++ full_response resp ∧ c_hs s' = c_hs s)
    (λ _ s', (∃ x, x `prefix_of` full_response resp ∧ c_out (c_conn s') = c_out (c_conn s) ++ x)
             ∧ c_hs s' = c_hs s) s.
Proof.
  unfold write_complete, full_response. set (hd := response_head _ _ _). apply wp_zoom. wp_step; wp_step.
  wp_apply (write_all_spec hd (c_conn s)).
  - intros [] c1 [Ho1 _]. wp_apply (write_all_spec (r_body resp) c1).
    + intros [] c2 [Ho2 _]. split; [|done]. simpl. by rewrite Ho2, Ho1, <-app_assoc.
    + intros e c2 (k & Ho2 & _). split; [|done]. exists (hd ++ take k (r_body resp)). split.
      * apply prefix_app, prefix_take.
      * simpl. by rewrite Ho2, Ho1, <-app_assoc.
  - intros e c1 (k & Ho1 & _). split; [|done]. exists (take k hd). split; [|done].
    apply prefix_app_r, prefix_take.
Qed.

Lemma drop_activity_frame g s :
  h_ledger (c_hs (drop_activity g s)) = h_ledger (c_hs s) ∧ c_conn (drop_activity g s) = c_conn s
  ∧ h_sent (c_hs (drop_activity g s)) = h_sent (c_hs s).
Proof. by destruct g. Qed.

(** The accounting of a complete response: settled after all of it was
    written, or dropped, which keeps a dispatched reservation held. *)
Definition response_accounted (L : Limits) (resp : Response) (s : cs) (r : result string unit) (s' : cs) : Prop :=
  (c_out (c_conn s') = c_out (c_conn s) ++ full_response resp
   ∧ h_ledger (c_hs s') = match r_settlement resp with
                          | Some x => snd (settle L x (h_ledger (c_hs s)))
                          | None => h_ledger (c_hs s)
                          end)
  ∨ (r ≠ Ok tt
     ∧ (∃ x, x `prefix_of` full_response resp ∧ c_out (c_conn s') = c_out (c_conn s) ++ x)
     ∧ h_ledger (c_hs s') = match r_settlement resp with
                            | Some x => snd (drop_reservation L x (h_ledger (c_hs s)))
                            | None => h_ledger (c_hs s)
                            end).

Lemma write_response_spec L resp s :
  r_streaming resp = None →
  let '(r, s') := write_response L resp s in
  response_accounted L resp s r s' ∧ h_sent (c_hs s') = h_sent (c_hs s).
Proof.
  intros Hst. unfold write_response. rewrite Hst.
  pose proof (write_complete_spec resp s) as Hw. unfold wp in Hw.
  destruct (write_complete resp s) as [[[]|e] s1].
  - destruct Hw as [Ho Hh]. destruct (r_settlement resp) as [x|] eqn:Er.
    + unfold settle_response, zoom. destruct (settle L x (h_ledger (c_hs s1))) as [[[]|e] l] eqn:Es;
        rewrite Hh in Es;
        (match goal with |- context [drop_activity ?g ?y] => destruct (drop_activity_frame g y) as (Hl & Hc & Hs) end);
        rewrite Hs; (split; [left; rewrite Hl, Hc, Er, Es; by rewrite <-Ho|simpl; by rewrite Hh]).
    + match goal with |- context [drop_activity ?g ?y] => destruct (drop_activity_frame g y) as (Hl & Hc & Hs) end.
      split; [|congruence]. left. rewrite Er. split; congruence.
  - destruct Hw as [Ho Hh].
    match goal with |- context [drop_activity ?g ?y] => destruct (drop_activity_frame g y) as (Hl & Hc & Hs) end.
    rewrite Hs. unfold drop_settlement in *. destruct (r_settlement resp) as [x|] eqn:Er; simpl in *; rewrite Hh in *.
    + split; [|done]. right. rewrite Hc, Hl, Er. done.
    + split; [|congruence]. right. rewrite Er, Hc. split_and!; [done|done|congruence].
Qed.

(** A response without accounting leaves the ledger alone. *)
Lemma plain_untouched L resp s h :
  plain resp → untouched h (c_hs (snd (write_response L resp (set_c_hs h s)))).
Proof.
  intros [Hst Hr]. pose proof (write_response_spec L resp (set_c_hs h s) Hst) as Hw.
  destruct (write_response L resp (set_c_hs h s)) as [r s'].
  destruct Hw as [[[_ Hl]|(_ & _ & Hl)] Hs]; rewrite Hr in Hl; simpl in *; split; congruence.
Qed.
End server_facts.

(** ** Properties *)

(** The concurrency limit is exact.  In every interleaving of the accept loop
    with the connection threads, at most [max_concurrency] connections are served at once;
    the counter always equals the connections in service plus the one being decided, so
    a refused or finished connection gives its place back; and whenever a place is free
    and no connection is being decided, the next one is served. *)
Theorem concurrency_limit_is_exact (max_concurrency : Z) (s : server) :
  0 ≤ max_concurrency < u64_max → server_reachable max_concurrency s →
  Z.of_nat (running s) ≤ max_concurrency
  ∧ active s = Z.of_nat (running s) + (if bool_decide (accepting s = None) then 0 else 1)
  ∧ (accepting s = None → Z.of_nat (running s) < max_concurrency →
     ∃ s', rtc (server_step max_concurrency) s s' ∧ running s' = S (running s)
           ∧ refused s' = refused s).
Proof.
  intros Hm Hr. destruct (server_inv_reachable _ _ Hm Hr) as [Ha Hrun Hp]. split_and!.
  - done.
  - rewrite Ha. by destruct (accepting s).
  - intros Hacc Hlt. rewrite Hacc, Z.add_0_r in Ha. eexists. split_and!.
    + eapply rtc_l; [by apply SAccept|]. eapply rtc_once, SSpawn; [done|]. simpl. lia.
    + done.
    + done.
Qed.

Section server_claims.
Context `{Crates} `{SerdeJson} `{UrlLib}.
Context (credentials : option string) (decode_fetch : bytes → option string).

(** A complete response settles its reservation only after its last byte
    was written.  For every behaviour of the socket, [write_response] either wrote the
    whole head and body and then settled the reservation, or reported an error after
    a prefix and dropped the reservation, which for a dispatched request leaves the
    ledger exactly as it was. *)
Theorem settlement_follows_delivery (L : Limits) (resp : Response) (s s' : cs) (r : result string unit) :
  r_streaming resp = None → (∀ x, r_settlement resp = Some x → dispatched x = true) →
  write_response L resp s = (r, s') →
  (c_out (c_conn s') = c_out (c_conn s) ++ full_response resp
   ∧ h_ledger (c_hs s') = match r_settlement resp with
                          | Some x => snd (settle L x (h_ledger (c_hs s)))
                          | None => h_ledger (c_hs s)
                          end)
  ∨ (r ≠ Ok tt ∧ h_ledger (c_hs s') = h_ledger (c_hs s)
     ∧ ∃ x, x `prefix_of` full_response resp ∧ c_out (c_conn s') = c_out (c_conn s) ++ x).
Proof.
  intros Hst Hd Hw. pose proof (write_response_spec L resp s Hst) as Hspec. rewrite Hw in Hspec.
  destruct Hspec as [[?|(Hr & Hx & Hl)] _]; [by left|right]. split_and!; [done| |done].
  rewrite Hl. destruct (r_settlement resp) as [x|]; [|done]. unfold drop_reservation.
  by rewrite (Hd x eq_refl).
Qed.

(** End to end: whatever bytes, fragmentation and timing a connection
    delivers, the broker contacts no upstream and charges nothing for it unless the
    first request of its byte stream is an authentic one within the configured header
    and body limits. *)
Theorem connection_acts_only_for_authentic_requests (b : Broker) (cfg : ConnectionSettings)
    (deadline : instant) (s : cs) :
  fresh (c_hs s) →
  let s' := handle_connection credentials decode_fetch b cfg deadline s in
  untouched (c_hs s) (c_hs s')
  ∨ ∃ req rest, parse_request (cn_header_limit cfg) (cn_body_limit cfg) (incoming (c_in (c_conn s)))
                  = Ok (req, rest)
                ∧ authentic b req (l_world (h_ledger (c_hs s))).
Proof.
  intros Hf. unfold handle_connection.
  pose proof (read_request_spec (cn_header_limit cfg) (cn_body_limit cfg) deadline (c_conn s)) as Hw.
  unfold wp in Hw. destruct (read_request _ _ _ (c_conn s)) as [[req|e] c1].
  - pose proof (handle_authentic credentials decode_fetch b req (c_hs s) Hf) as Ha.
    cbn [c_hs set_c_conn]. destruct (handle _ _ b req (c_hs s)) as [resp h].
    destruct Ha as [[Hu Hp]|Ha].
    + left. eapply untouched_trans; [exact Hu|]. by apply plain_untouched.
    + right. exists req, (incoming (c_in c1)). split; [apply Hw|done].
  - left. cbn [c_hs set_c_conn]. by apply plain_untouched.
Qed.
(** The same of a dispatched connection, which over the limit does nothing at all. *)
Lemma dispatch_acts_only_for_authentic_requests (b : Broker) (cfg : ConnectionSettings) (previous : Z)
    (deadline : instant) (s : cs) :
  fresh (c_hs s) →
  let s' := dispatch_connection credentials decode_fetch b cfg previous deadline s in
  untouched (c_hs s) (c_hs s')
  ∨ previous < cn_max_concurrency cfg
    ∧ ∃ req rest, parse_request (cn_header_limit cfg) (cn_body_limit cfg) (incoming (c_in (c_conn s)))
                    = Ok (req, rest)
                  ∧ authentic b req (l_world (h_ledger (c_hs s))).
Proof.
  intros Hf. unfold dispatch_connection. destruct (Z.leb_spec (cn_max_concurrency cfg) previous) as [Hl|Hl].
  - left. replace s with (set_c_hs (c_hs s) s) at 2 by (by destruct s). by apply plain_untouched.
  - destruct (connection_acts_only_for_authentic_requests b cfg deadline s Hf) as [Hu|Ha]; [by left|by right].
Qed.
End server_claims.
