(* ===== verification/WorkerFs.v ===== *)
(** * The host of a worker: [crates/tentaflake-worker/src/main.rs], file access

    The file system calls that only the worker makes (hard links, directory
    renames and removals, [openat2]), the host record every worker operation runs
    on, and the small functions of [main.rs] over directory descriptors.  A held
    directory descriptor is the path it was opened at.  A child process is a
    script of its outputs, and every command given to the container runtime is
    recorded. *)

From stdpp Require Import sorting.
From S2P Require Import Prelude RustStr Json Posix Budget PrivateStore Template Net Activity.

(** ** More of the file system *)

(** What follows [d] in a path at or below [d]: empty, or a slash and a path. *)
Definition tail_of (d p : string) : option string :=
  match strip_prefix d p with
  | Some r => if str_is_empty r || starts_with "/" r then Some r else None
  | None => None
  end.
Definition within (d p : string) : bool := is_some (tail_of d p).
Definition strictly_within (d p : string) : bool := starts_with (d ++ "/") p.

Definition is_directory (w : world) (d : string) : bool :=
  match lookup_inode w d with
  | Some (_, n) => bool_decide (i_kind n = Directory)
  | None => str_is_empty d                      (* the root *)
  end.
(** A call that makes a name in the directory [d], which must exist. *)
Definition in_directory {A} (d : string) (m : Sys A) : Sys A := λ w,
  if is_directory w d then m w else (Err NotFound, w).

(** [fs::hard_link]: never replaces. *)
Definition sys_hard_link (a b : string) : Sys unit := simple (λ w,
  match lookup_inode w a with
  | None => (Err NotFound, w)
  | Some (i, n) =>
      if bool_decide (i_kind n = Directory) then (Err OtherIo, w)
      else match w_names w !! b with
           | Some _ => (Err AlreadyExists, w)
           | None => (Ok tt, set_names (<[b := i]>) w)
           end
  end).
(** [fs::remove_file], [unlinkat] without flags. *)
Definition sys_unlink (p : string) : Sys unit := simple (λ w,
  match lookup_inode w p with
  | None => (Err NotFound, w)
  | Some (_, n) =>
      if bool_decide (i_kind n = Directory) then (Err OtherIo, w)
      else (Ok tt, set_names (delete p) w)
  end).

(** The names after everything at or below [a] moved to [b]. *)
Definition moved (a b : string) (m : gmap string Z) : gmap string Z :=
  filter (λ kv, within a kv.1 = false) (delete b m)
  ∪ list_to_map (omap (λ '(p, i), r ← tail_of a p; Some ((b ++ r)%string, i)) (map_to_list m)).
Definition has_entries (w : world) (d : string) : bool :=
  existsb (λ kv, strictly_within d (fst kv)) (map_to_list (w_names w)).
(** [fs::rename]: a directory only onto nothing or onto an empty directory, a
    file onto anything but a directory; two names of one file stay. *)
Definition sys_move (a b : string) : Sys unit := simple (λ w,
  match lookup_inode w a with
  | None => (Err NotFound, w)
  | Some (i, n) =>
      let go := (Ok tt, set_names (moved a b) w) in
      match lookup_inode w b with
      | None => if within a b || has_entries w b (* there are none below a missing name *)
                then (Err OtherIo, w) else go
      | Some (j, m) =>
          if i =? j then (Ok tt, w)
          else if negb (Bool.eqb (bool_decide (i_kind n = Directory)) (bool_decide (i_kind m = Directory)))
               then (Err OtherIo, w)
          else if within a b || within b a || has_entries w b then (Err OtherIo, w) else go
      end
  end).

(** The names strictly below a directory, deepest first. *)
Definition longer (p q : string) : Prop := (String.length q <= String.length p)%nat.
#[export] Instance longer_dec p q : Decision (longer p q).
Proof. unfold longer. apply _. Defined.
Definition subtree (w : world) (d : string) : list string :=
  merge_sort longer (List.filter (strictly_within d) (fst <$> map_to_list (w_names w))).
Definition delete_all (ps : list string) (m : gmap string Z) : gmap string Z := foldr delete m ps.
(** [fs::remove_dir_all]: a failure leaves the directory with some of its
    entries gone; a link is removed, not followed. *)
Definition sys_remove_dir_all (p : string) : Sys unit :=
  syscall (λ k w, set_names (delete_all (take k (subtree w p))) w) (λ w,
    match lookup_inode w p with
    | None => (Err NotFound, w)
    | Some (_, n) =>
        match i_kind n with
        | Directory => (Ok tt, set_names (filter (λ kv, within p kv.1 = false)) w)
        | Symlink => (Ok tt, set_names (delete p) w)
        | _ => (Err OtherIo, w)
        end
    end).

(** [symlinkat]: a link holds its target. *)
Definition sys_symlink (target : bytes) (p : string) : Sys unit := simple (λ w,
  match w_names w !! p with
  | Some _ => (Err AlreadyExists, w)
  | None =>
      let i := w_next_ino w in
      (Ok tt, set_next_ino (i + 1) (set_names (<[p := i]>)
                (set_inodes (<[i := mk_inode Symlink 511 (w_euid w) target]>) w)))
  end).
(** [readlinkat] into a buffer of [n] bytes. *)
Definition sys_readlink (n : Z) (p : string) : Sys bytes := simple (λ w,
  match lookup_inode w p with
  | None => (Err NotFound, w)
  | Some (_, x) =>
      if bool_decide (i_kind x = Symlink) then (Ok (take_bytes n (i_data x)), w) else (Err OtherIo, w)
  end).

(** [fstatat] without following a link. *)
Record stat : Type := mkStat { st_ino : Z; st_node : inode; st_nlink : Z }.
Definition st_size (s : stat) : Z := blen (i_data (st_node s)).
Definition st_kind (s : stat) : fkind := i_kind (st_node s).
Definition sys_stat (p : string) : Sys stat := simple (λ w,
  match lookup_inode w p with
  | Some (i, n) => (Ok (mkStat i n (nlink w i)), w)
  | None => (Err NotFound, w)
  end).
(** [openat] of a file for reading with [O_NOFOLLOW]: [None] is [ELOOP]. *)
Definition sys_open_at (p : string) : Sys (option fd) := simple (λ w,
  match lookup_inode w p with
  | None => (Err NotFound, w)
  | Some (i, n) =>
      match i_kind n with
      | Symlink => (Ok None, w)
      | _ => (Ok (Some (mk_fd (w_next_fd w) i)), set_next_fd (w_next_fd w + 1) w)
      end
  end).
(** [Path::try_exists]: follows links. *)
Definition sys_try_exists (p : string) : Sys bool := simple (λ w,
  match follow 40 w p with
  | Ok _ => (Ok true, w)
  | Err NotFound => (Ok false, w)
  | Err e => (Err e, w)
  end).
(** [append(true).create(true).mode(..)]: follows links. *)
Definition sys_open_append (p : string) (mode : Z) : Sys fd := simple (λ w,
  match lookup_inode w p with
  | None => alloc p mode w
  | Some _ =>
      match resolve_path 40 w p with
      | Err e => (Err e, w)
      | Ok q => match lookup_inode w q with
                | Some (i, n) => if bool_decide (i_kind n = Directory) then (Err OtherIo, w) else new_fd i w
                | None => (Err OtherIo, w)
                end
      end
  end).
(** [openat2] with [RESOLVE_NO_SYMLINKS | RESOLVE_NO_MAGICLINKS] of a directory:
    every component is a directory, [..] goes up.  [stack] is reversed. *)
Fixpoint resolve_dirs (w : world) (stack parts : list string) : option string :=
  match parts with
  | [] => Some (canonical (rev stack))
  | part :: parts =>
      if (part =? "..")%string then resolve_dirs w (tail stack) parts
      else match lookup_inode w (canonical (rev (part :: stack))) with
           | Some (_, n) => if bool_decide (i_kind n = Directory)
                            then resolve_dirs w (part :: stack) parts else None
           | None => None
           end
  end.
Definition sys_openat2 (p : string) : Sys string := simple (λ w,
  if negb (starts_with "/" p) || contains_byte 0 p then (Err OtherIo, w)
  else match resolve_dirs w [] (components p) with
       | Some d => (Ok d, w)
       | None => (Err OtherIo, w)
       end).

(** ** The host *)

(** [std::process::Output]. *)
Record output : Type := mkOutput { o_success : bool; o_stdout : bytes; o_stderr : bytes }.
(** One iteration of the reading loop of [read_completion_marker]. *)
Inductive marker_read : Type := MData (b : bytes) | MAgain | MIntr | MFail.
Record marker_round : Type := mkMRound { mr_read : marker_read; mr_wait : result unit (option bool) }.
Record marker_child : Type := mkMarkerChild {
  mc_pair : bool; mc_nonblocking : bool; mc_spawns : bool; mc_rounds : list marker_round }.
(** What the [tar] crate makes of the stream: entries, in order. *)
Inductive tar_kind : Type := TarDir | TarFile | TarOther.
Record tar_entry : Type := mkTarEntry {
  te_path : option string;     (* [entry.path()] *)
  te_kind : tar_kind;
  te_size : Z;                 (* the size its header declares *)
  te_data : bytes;             (* what reading the entry yields ... *)
  te_broken : bool;            (* ... before an error *)
  te_mode : option Z;
}.
Record archive : Type := mkArchive {
  ar_spawns : bool;
  ar_entries : option (list (option tar_entry));
  ar_wait : option bool;       (* exit status *)
  ar_stderr : list (option bytes);  (* reads, until one fails or the end *)
}.

Record whost : Type := mkWHost {
  wh_world : world;
  wh_env : env;                        (* of the activity publisher *)
  wh_now : list Z;                     (* [Instant::now], in seconds *)
  wh_outputs : list (result io_error output);
  wh_markers : list marker_child;
  wh_archives : list archive;
  wh_commands : list (list string);    (* given to the runtime, latest first *)
  wh_stdout : bytes;
  wh_umask : Z;
  wh_gid : Z;
  wh_setegid : bool;                   (* whether [setegid] works *)
  wh_openat2 : bool;                   (* whether the kernel has [openat2] *)
  wh_blind : list bool;                (* whether the next [Path::exists] cannot see its path *)
}.
Definition set_wworld x (h : whost) : whost := mkWHost x (wh_env h) (wh_now h) (wh_outputs h) (wh_markers h)
  (wh_archives h) (wh_commands h) (wh_stdout h) (wh_umask h) (wh_gid h) (wh_setegid h) (wh_openat2 h) (wh_blind h).
Definition set_wenv x (h : whost) : whost := mkWHost (wh_world h) x (wh_now h) (wh_outputs h) (wh_markers h)
  (wh_archives h) (wh_commands h) (wh_stdout h) (wh_umask h) (wh_gid h) (wh_setegid h) (wh_openat2 h) (wh_blind h).
Definition set_wnow x (h : whost) : whost := mkWHost (wh_world h) (wh_env h) x (wh_outputs h) (wh_markers h)
  (wh_archives h) (wh_commands h) (wh_stdout h) (wh_umask h) (wh_gid h) (wh_setegid h) (wh_openat2 h) (wh_blind h).
Definition set_outputs x (h : whost) : whost := mkWHost (wh_world h) (wh_env h) (wh_now h) x (wh_markers h)
  (wh_archives h) (wh_commands h) (wh_stdout h) (wh_umask h) (wh_gid h) (wh_setegid h) (wh_openat2 h) (wh_blind h).
Definition set_markers x (h : whost) : whost := mkWHost (wh_world h) (wh_env h) (wh_now h) (wh_outputs h) x
  (wh_archives h) (wh_commands h) (wh_stdout h) (wh_umask h) (wh_gid h) (wh_setegid h) (wh_openat2 h) (wh_blind h).
Definition set_archives x (h : whost) : whost := mkWHost (wh_world h) (wh_env h) (wh_now h) (wh_outputs h)
  (wh_markers h) x (wh_commands h) (wh_stdout h) (wh_umask h) (wh_gid h) (wh_setegid h) (wh_openat2 h) (wh_blind h).
Definition set_commands x (h : whost) : whost := mkWHost (wh_world h) (wh_env h) (wh_now h) (wh_outputs h)
  (wh_markers h) (wh_archives h) x (wh_stdout h) (wh_umask h) (wh_gid h) (wh_setegid h) (wh_openat2 h) (wh_blind h).
Definition set_stdout x (h : whost) : whost := mkWHost (wh_world h) (wh_env h) (wh_now h) (wh_outputs h)
  (wh_markers h) (wh_archives h) (wh_commands h) x (wh_umask h) (wh_gid h) (wh_setegid h) (wh_openat2 h) (wh_blind h).
Definition set_gid x (h : whost) : whost := mkWHost (wh_world h) (wh_env h) (wh_now h) (wh_outputs h)
  (wh_markers h) (wh_archives h) (wh_commands h) (wh_stdout h) (wh_umask h) x (wh_setegid h) (wh_openat2 h) (wh_blind h).
Definition set_blind x (h : whost) : whost := mkWHost (wh_world h) (wh_env h) (wh_now h) (wh_outputs h)
  (wh_markers h) (wh_archives h) (wh_commands h) (wh_stdout h) (wh_umask h) (wh_gid h) (wh_setegid h) (wh_openat2 h) x.

Abbreviation W := (M whost string).
Definition on_fs {E A} (m : M world E A) : M whost E A := zoom wh_world set_wworld m.

(** [for x in l { .. }] with [?] in its body: the locals it updates, or nothing. *)
Fixpoint foldM {S E A B} (f : B → A → M S E B) (b : B) (l : list A) : M S E B :=
  match l with
  | [] => mret b
  | x :: l => b ← f b x; foldM f b l
  end.
Definition for_each {S E A} (f : A → M S E unit) (l : list A) : M S E unit := foldM (λ _, f) tt l.

(** The text of an I/O error. *)
Definition io_text (e : io_error) : string :=
  match e with
  | NotFound => "No such file or directory (os error 2)"
  | AlreadyExists => "File exists (os error 17)"
  | OtherIo => "Input/output error (os error 5)"
  end.
(** [map_err(|e| format!("what: {e}"))], and [map_err(|e| e.to_string())]. *)
Definition sys {A} (what : string) (m : Sys A) : W A :=
  map_err (λ e, (what ++ ": " ++ io_text e)%string) (on_fs m).
Definition sys_plain {A} (m : Sys A) : W A := map_err io_text (on_fs m).

(** The mode a new file gets. *)
Definition masked (mode : Z) (h : whost) : Z := Z.ldiff mode (wh_umask h).
(** [fs::create_dir] of [name] in [d]. *)
Definition create_dir (what d name : string) : W unit :=
  mode ← gets (masked 511);
  sys what (in_directory d (sys_mkdir (below d name) mode)).
(** [write(true).create_new(true).mode(mode)] of [name] in [d]. *)
Definition create_file (what d name : string) (mode : Z) : W fd :=
  mode ← gets (masked mode);
  sys what (in_directory d (sys_create_new (below d name) mode)).

(** [Path::exists]: follows links, and an inspection that fails says [false]. *)
Definition exists_path (p : string) : W bool := λ h,
  let seen := is_ok (follow 40 (wh_world h) p) in
  match wh_blind h with
  | [] => (Ok seen, h)
  | b :: l => (Ok (negb b && seen), set_blind l h)
  end.

(** A process: its descriptors, and the locks on them, end with it. *)
Definition process {A} (m : W A) : W A := λ h,
  let mine (l : flock) := w_next_fd (wh_world h) <=? l_fd l in
  match m h with
  | (r, h') => (r, set_wworld (set_locks (List.filter (λ l, negb (mine l))) (wh_world h')) h')
  end.

(** ** The container runtime *)

(** [Command::output]: the next scripted output; a script that ended is a
    runtime that cannot be started. *)
Definition run_output (args : list string) : M whost io_error output := λ h,
  let h := set_commands (args :: wh_commands h) h in
  match wh_outputs h with
  | [] => (Err NotFound, h)
  | r :: l => (r, set_outputs l h)
  end.
(** [Instant::now() >= deadline]; a clock with no reading left is past every
    deadline. *)
Definition read_instant : W (option Z) := λ h,
  match wh_now h with [] => (Ok None, h) | t :: l => (Ok (Some t), set_wnow l h) end.
Definition past (deadline : option Z) : W bool :=
  now ← read_instant;
  mret (match now, deadline with Some t, Some d => d <=? t | _, _ => true end).
(** [stdout.write_all]. *)
Definition print_bytes (b : bytes) : M whost io_error unit :=
  _ ← on_fs sys_sync;
  modify (λ h, set_stdout (wh_stdout h ++ b) h).

(** [fs::File::create]: truncates an existing file. *)
Definition sys_create (p : string) (mode : Z) : Sys fd := simple (λ w,
  match lookup_inode w p with
  | None => alloc p mode w
  | Some (i, n) =>
      match i_kind n with
      | Symlink | Directory => (Err OtherIo, w)
      | _ => new_fd i (upd_data i (λ _, []) w)
      end
  end).
(** [fs::create_dir_all]. *)
Fixpoint create_dir_all (prefix : string) (parts : list string) : M whost io_error unit :=
  match parts with
  | [] => mret tt
  | part :: rest =>
      let next := below prefix part in
      mode ← gets (masked 511);
      r ← attempt (on_fs (sys_mkdir next mode));
      there ← gets (λ h, is_directory (wh_world h) next);
      match r with
      | Ok _ => create_dir_all next rest
      | Err AlreadyExists => if (there : bool) then create_dir_all next rest else fail AlreadyExists
      | Err e => fail e
      end
  end.

(** ** Text of child processes *)

(** [String::from_utf8_lossy]: one U+FFFD for each maximal invalid piece. *)
Definition lead_len (b : Z) : nat :=
  if in_range 194 223 b then 2 else if in_range 224 239 b then 3 else if in_range 240 244 b then 4 else 0.
Definition second_ok (b1 b2 : Z) : bool :=
  if b1 =? 224 then in_range 160 191 b2 else if b1 =? 237 then in_range 128 159 b2
  else if b1 =? 240 then in_range 144 191 b2 else if b1 =? 244 then in_range 128 143 b2 else cont b2.
Definition invalid_len (l : bytes) : nat :=
  match l with
  | b1 :: l' =>
      if (lead_len b1 =? 0)%nat then 1%nat
      else match l' with
           | [] => 1%nat
           | b2 :: l' =>
               if negb (second_ok b1 b2) then 1%nat
               else match l' with
                    | [] => 2%nat
                    | b3 :: l' => if negb (cont b3) then 2%nat else 3%nat
                    end
           end
  | [] => 1%nat
  end.
Definition first_char (l : bytes) : option (Z * nat) :=
  find_first (λ _, true) (omap (λ k, match utf8_decode (take k l) with Some [c] => Some (c, k) | _ => None end)
                            [1; 2; 3; 4]%nat).
Fixpoint lossy_chars (fuel : nat) (l : bytes) : list Z :=
  match fuel, l with
  | O, _ | _, [] => []
  | S fuel, _ =>
      match first_char l with
      | Some (ch, k) => ch :: lossy_chars fuel (drop k l)
      | None => 65533 :: lossy_chars fuel (drop (invalid_len l) l)
      end
  end.
(** Every round takes at least one byte. *)
Definition from_utf8_lossy (l : bytes) : string :=
  match from_utf8 l with
  | Some s => s
  | None => of_chars (lossy_chars (length l) l)
  end.
(** [str::lines]: a CR before a line feed belongs to the line end. *)
Definition strip_cr (s : string) : string := default s (strip_suffix (String "013" EmptyString) s).
Definition lines (s : string) : list string :=
  let ls := split_char "010" s in
  (strip_cr <$> removelast ls) ++
  match last ls with Some p => if str_is_empty p then [] else [p] | None => [] end.

(** ** Small functions of [main.rs] *)

(** [name.to_str()]. *)
Definition to_str (name : string) : option string := from_utf8 (str_bytes name).

(** The names in a directory, in the order the kernel lists them. *)
Definition dir_names (w : world) (d : string) : list string :=
  omap (λ '(p, _), strip_prefix (d ++ "/") p) (dir_entries w d).
(** [fs::read_dir] through the descriptor [d]. *)
Definition sys_names (d : string) : Sys (list string) := simple (λ w, (Ok (dir_names w d), w)).

Fixpoint open_components (current : string) (parts : list string) : Sys string :=
  match parts with
  | [] => mret current
  | part :: parts =>
      if (part =? "..")%string then fail OtherIo
      else _ ← sys_open_dir (below current part); open_components (below current part) parts
  end.
Definition open_path_no_symlinks_fallback (p : string) : Sys string :=
  if negb (starts_with "/" p) then fail OtherIo
  else _ ← sys_sync (* opening the root *); open_components EmptyString (components p).
Definition open_path_no_symlinks (p : string) : W string :=
  has ← gets wh_openat2;
  let what := ("securely open " ++ p)%string in
  if (has : bool) then sys what (sys_openat2 p)
  else sys (what ++ ": openat2 unavailable; fallback failed") (open_path_no_symlinks_fallback p).

Definition open_dir_at (parent name : string) : M whost io_error string :=
  _ ← throw_if (contains_byte 0 name) OtherIo;
  _ ← on_fs (sys_open_dir (below parent name));
  mret (below parent name).
(** [None]: [ELOOP]. *)
Definition open_file_at (parent name : string) : M whost io_error (option fd) :=
  _ ← throw_if (contains_byte 0 name) OtherIo;
  on_fs (sys_open_at (below parent name)).

Fixpoint bounded_names (max : Z) (top : bool) (l acc : list string) : option (list string) :=
  match l with
  | [] => Some acc
  | name :: l =>
      if top && (name =? ".tentaflake-worker")%string then bounded_names max top l acc
      else if max <=? blen acc then None
      else bounded_names max top l (acc ++ [name])
  end.
Definition list_fd_dir (d : string) (max_entries : Z) (top : bool) : W (list string) :=
  l ← sys "read directory fd" (sys_names d);
  lift (ok_or "snapshot entry limit exceeded"%string (bounded_names max_entries top l [])).
Definition fstatat_nofollow (d name : string) : W stat :=
  _ ← throw_if (contains_byte 0 name) "entry name contains NUL";
  sys "stat snapshot entry" (sys_stat (below d name)).
Definition read_link_at (d name : string) : W bytes :=
  _ ← throw_if (contains_byte 0 name) "entry name contains NUL";
  target ← sys "read snapshot symlink" (sys_readlink 4097 (below d name));
  _ ← throw_if (blen target =? 4097) "snapshot symlink target is too long";
  mret target.
Definition unlink_at (d name : string) : W unit :=
  _ ← throw_if (contains_byte 0 name) "entry name contains NUL";
  sys "remove inbox entry" (sys_unlink (below d name)).
Definition read_bounded (file : fd) (max : Z) : Sys bytes :=
  content ← sys_read_take (max + 1) file;
  _ ← throw_if (max <? blen content) OtherIo;
  mret content.
(** [sync_directory] of [queue.rs]. *)
Definition sync_directory (path : string) : W unit :=
  d ← open_path_no_symlinks path;
  _ ← sys "open directory for sync" (sys_open_dir d);
  sys ("sync " ++ path) sys_sync.
