(* ===== verification/WorkerData.v ===== *)
(** * Jobs, results and policy: [crates/tentaflake-worker/src/main.rs], data

    The configuration of a worker, requests and results, their validation, the
    arguments of the container runtime, and the pure parts of [main.rs]: the
    completion marker, archive paths, log bounds, modes.  What serde derives is
    the class [WorkerCodec]; a derived reader is given the defaults it fills in. *)

From S2P Require Import Prelude RustStr Json Posix Template PrivateStore Net Activity.

(** ** Data *)

Record Config : Type := mkWConfig {
  agent : string;
  activity : option activity_config;
  backend : string;
  runtime : string;
  image : string;
  workspace : string;
  state_dir : string;
  container_uid : Z;
  container_gid : Z;
  max_request_bytes : Z;
  max_inbox_entries : Z;
  max_inbox_bytes : Z;
  max_queue_entries : Z;
  max_queue_bytes : Z;
  max_retained_results : Z;
  max_retained_result_bytes : Z;
  max_retained_entries : Z;
  max_snapshot_bytes : Z;
  max_snapshot_entries : Z;
  max_log_bytes : Z;
  max_timeout_seconds : Z;
  memory : string;
  memory_swap : string;
  cpus : string;
  pids_limit : Z;
  workspace_tmpfs_size : string;
  tmp_tmpfs_size : string;
}.

Inductive ActionClass : Type :=
| LocalReversible | ExternalReversible | Irreversible | Financial | Production | Communicative
| Privileged | Forbidden.
#[export] Instance ActionClass_eq_dec : EqDecision ActionClass.
Proof. solve_decision. Defined.
Definition needs_approval (a : ActionClass) : bool :=
  match a with LocalReversible | Forbidden => false | _ => true end.

Record JobRequest : Type := mkRequest {
  rq_version : Z; rq_id : string; rq_action_class : ActionClass; rq_argv : list string;
  rq_timeout_seconds : Z }.
Record JobResult : Type := mkResult {
  rs_version : Z; rs_id : string; rs_action_class : ActionClass; rs_status : string;
  rs_exit_code : option Z; rs_timed_out : bool; rs_artifacts_available : bool; rs_log_truncated : bool;
  rs_completed_unix_seconds : Z; rs_message : string }.
Record CompletionMarker : Type := mkMarker { mk_raw : string; mk_exit_code : Z }.
#[export] Instance CompletionMarker_eq_dec : EqDecision CompletionMarker.
Proof. solve_decision. Defined.
Record ArtifactExport : Type := mkExport { ae_available : bool; ae_diagnostic : option string }.
Inductive WorkerGroupAction : Type := Keep | Adopt.
Record AuditEvent : Type := mkAuditEvent {
  av_timestamp : Z; av_agent : string; av_job : string; av_event : string;
  av_action_class : option ActionClass; av_detail : string }.
Record CopyBudget : Type := mkBudget { bytes_left : Z; entries_left : Z }.

Inductive Decision : Type := Approve | Deny.
#[export] Instance Decision_eq_dec : EqDecision Decision.
Proof. solve_decision. Defined.
Record Receipt : Type := mkReceipt {
  rc_schema_version : Z; rc_agent : string; rc_job_id : string; rc_request_digest : string;
  rc_decision : Decision; rc_state : string; rc_drain_required : bool }.
Record RequestRow : Type := mkRow {
  rw_id : string; rw_request_digest : string; rw_action_class : ActionClass; rw_argv : list string;
  rw_cwd : string; rw_timeout_seconds : Z; rw_state : string; rw_approval_status : string;
  rw_can_approve : bool; rw_can_deny : bool }.
Record Requests : Type := mkRequests {
  rqs_schema_version : Z; rqs_agent : string; rqs_initialized : bool; rqs_truncated : bool;
  rqs_requests : list RequestRow }.

(** The defaults of [#[serde(default = ..)]]. *)
Definition default_timeout : Z := 300.
Definition default_queue_entries : Z := 256.
Definition default_queue_bytes : Z := 8 * 1024 * 1024.
Definition default_retained_results : Z := 1024.
Definition default_retained_result_bytes : Z := 4 * 1024 * 1024 * 1024.
Definition default_retained_entries : Z := 1000000.
Record queue_defaults : Type := mkDefaults {
  df_entries : Z; df_bytes : Z; df_results : Z; df_result_bytes : Z; df_retained_entries : Z }.
Definition config_defaults : queue_defaults :=
  mkDefaults default_queue_entries default_queue_bytes default_retained_results
    default_retained_result_bytes default_retained_entries.

Class WorkerCodec : Type := {
  config_reader : queue_defaults → bytes → option Config;
  request_reader : Z → bytes → option JobRequest;
  request_to_vec : JobRequest → option bytes;
  result_from_slice : bytes → option JobResult;
  result_to_pretty : JobResult → option bytes;
  receipt_from_slice : bytes → option Receipt;
  receipt_to_vec : Receipt → option bytes;
  requests_to_vec : Requests → option bytes;
  event_to_vec : AuditEvent → option bytes;
}.
Definition request_from_slice `{WorkerCodec} : bytes → option JobRequest := request_reader default_timeout.

(** ** Validation *)

Definition identifier_byte (index : nat) (b : Z) : bool :=
  is_ascii_lowercase b || is_ascii_digit b || ((0 <? index)%nat && byte_in "-_" b).
Definition valid_identifier (value : string) (max : Z) : bool :=
  negb (str_is_empty value) && (str_len value <=? max)
  && forallb (λ ib, identifier_byte (fst ib) (snd ib)) (imap pair (str_bytes value)).
Definition validate_identifier (kind value : string) (max : Z) : result string unit :=
  bail_if (negb (valid_identifier value max))
    (kind ++ " must be lowercase ASCII, begin with a letter or digit, and be at most "
     ++ pretty max ++ " bytes")%string.

Definition checked_mul (a b : Z) : option Z := if a * b <=? u64_max then Some (a * b) else None.
Definition positive_limits (c : Config) : bool :=
  forallb (λ n, negb (n =? 0))
    [max_request_bytes c; max_inbox_entries c; max_inbox_bytes c; max_queue_entries c; max_queue_bytes c;
     max_retained_results c; max_retained_result_bytes c; max_retained_entries c; max_snapshot_bytes c;
     max_snapshot_entries c; max_log_bytes c; max_timeout_seconds c; pids_limit c].
Definition fits_one_job (c : Config) : bool :=
  let bytes := n ← checked_mul (max_snapshot_bytes c) 2; n ← checked_add n (max_log_bytes c);
               checked_add n (16 * 1024) in
  let entries := n ← checked_mul (max_snapshot_entries c) 2; checked_add n 8 in
  negb (is_none_or (λ n, max_retained_result_bytes c <? n) bytes
        || is_none_or (λ n, max_retained_entries c <? n) entries).
Definition validate_config (c : Config) : result string unit :=
  _ ← validate_identifier "agent" (agent c) 48;
  _ ← match activity c with
      | Some a =>
          _ ← Activity.validate a (agent c);
          bail_if (is_none (relay_socket a)) "worker activity requires isolated publisher relay"%string
      | None => Ok tt
      end;
  _ ← bail_if (negb ((backend c =? "docker")%string || (backend c =? "podman")%string))
        "backend must be docker or podman"%string;
  _ ← bail_if (negb (starts_with "/" (runtime c)) || negb (starts_with "/" (workspace c))
               || negb (starts_with "/" (state_dir c)))
        "runtime, workspace, and state_dir must be absolute paths"%string;
  _ ← bail_if (contains_byte 44 (workspace c)) "workspace may not contain a comma"%string;
  _ ← bail_if (str_is_empty (image c) || existsb is_whitespace (chars (image c)))
        "image must be one non-empty OCI reference"%string;
  _ ← bail_if (negb (positive_limits c)) "worker limits must all be positive"%string;
  bail_if (negb (fits_one_job c)) "retained capacity must fit one worst-case job without overflow"%string.

Definition MAX_ARGUMENT_UTF16_UNITS : Z := 4096.
(** [encode_utf16().count()]. *)
Definition utf16_units (s : string) : Z :=
  foldr (λ c n, n + (if c <? 65536 then 1 else 2)) 0 (chars s).
Definition validate_request (c : Config) (r : JobRequest) : result string unit :=
  _ ← bail_if (negb (rq_version r =? 1)) "request version must be 1"%string;
  _ ← validate_identifier "job id" (rq_id r) 64;
  _ ← bail_if (bool_decide (rq_argv r = []) || (128 <? blen (rq_argv r)))
        "argv must contain between 1 and 128 entries"%string;
  _ ← bail_if (existsb (λ v, contains_byte 0 v || (MAX_ARGUMENT_UTF16_UNITS <? utf16_units v)) (rq_argv r))
        ("argv contains a NUL or a value longer than " ++ pretty MAX_ARGUMENT_UTF16_UNITS
         ++ " UTF-16 code units")%string;
  bail_if ((rq_timeout_seconds r =? 0) || (max_timeout_seconds c <? rq_timeout_seconds r))
    ("timeout_seconds must be between 1 and " ++ pretty (max_timeout_seconds c))%string.

Definition worker_group_action (effective_uid effective_gid container_gid : Z) : result string WorkerGroupAction :=
  if effective_gid =? container_gid then Ok Keep
  else if effective_uid =? 0 then Ok Adopt
  else Err ("worker must run as root or with effective group " ++ pretty container_gid
            ++ "; current group is " ++ pretty effective_gid)%string.
Definition reject_extra_args (args : list string) : result string unit :=
  match args with
  | [] => Ok tt
  | value :: _ => Err ("unexpected argument: " ++ value)%string
  end.
Definition required_job (args : list string) : result string string :=
  job ← ok_or "missing job id"%string (head args);
  _ ← reject_extra_args (tail args);
  _ ← validate_identifier "job id" job 64;
  Ok job.

(** ** Modes *)

Definition hardened_shared_directory_mode (current : Z) : Z := Z.lor 488 (* 0o750 *) (Z.land current 1024 (* 0o2000 *)).
(** The mode [set_snapshot_permissions] gives a copy. *)
Definition snapshot_mode (source_mode : Z) : Z :=
  let owner_read_execute := Z.land source_mode 320 (* 0o500 *) in
  let capsule_group_access := Z.shiftr owner_read_execute 3 in
  Z.lor (Z.land source_mode 511 (* 0o777 *)) capsule_group_access.
(** The mode of an imported artifact file. *)
Definition artifact_mode (source_mode : Z) : Z :=
  let executable := Z.land source_mode 64 (* 0o100 *) in
  Z.lor (Z.lor 416 (* 0o640 *) executable) (Z.shiftr executable 3).

(** ** The completion marker *)

(** [str::parse::<i32>]. *)
Fixpoint parse_magnitude (acc limit : Z) (l : bytes) : option Z :=
  match l with
  | [] => Some acc
  | b :: l =>
      if is_ascii_digit b then
        let acc := acc * 10 + (b - 48) in
        if acc <=? limit then parse_magnitude acc limit l else None
      else None
  end.
Definition parse_i32 (s : string) : option Z :=
  match str_bytes s with
  | 45 :: (_ :: _) as l => Z.opp <$> parse_magnitude 0 2147483648 (tail l)
  | 43 :: (_ :: _) as l => parse_magnitude 0 2147483647 (tail l)
  | [] => None
  | l => parse_magnitude 0 2147483647 l
  end.
(** [trim_end_matches('\n')]. *)
Definition trim_newlines (s : string) : string :=
  bytes_str (rev (drop_while (Z.eqb 10) (rev (str_bytes s)))).
Definition is_ascii_hexdigit (b : Z) : bool :=
  is_ascii_digit b || in_range 97 102 b || in_range 65 70 b.
Definition parse_completion_marker (b : bytes) : option CompletionMarker :=
  text ← from_utf8 b;
  let raw := trim_newlines text in
  match split_char ":" raw with
  | tag :: nonce :: code :: rest =>
      if negb (tag =? "TFW1")%string then None
      else if negb (str_len nonce =? 32) || negb (all_bytes is_ascii_hexdigit nonce) then None
      else
        exit_code ← parse_i32 code;
        if negb ((0 <=? exit_code) && (exit_code <=? 255)) || negb (bool_decide (rest = [])) then None
        else Some (mkMarker raw exit_code)
  | _ => None
  end.

(** ** Archive paths *)

(** [Path::components]: a leading [.] is kept, others and empty names are not. *)
Inductive component : Type := RootDir | CurDir | ParentDir | Normal (name : string).
Definition named (piece : string) : list component :=
  if str_is_empty piece || (piece =? ".")%string then []
  else if (piece =? "..")%string then [ParentDir] else [Normal piece].
Definition path_components (p : string) : list component :=
  match split_char "/" p with
  | [] => []
  | first :: rest =>
      (if str_is_empty first then (if bool_decide (rest = []) then [] else [RootDir])
       else if (first =? ".")%string then [CurDir] else named first)
      ++ concat (named <$> rest)
  end.
(** A relative path of normal components. *)
Fixpoint normalize_components (l : list component) : result string (list string) :=
  match l with
  | [] => Ok []
  | CurDir :: l => normalize_components l
  | Normal name :: l => names ← normalize_components l; Ok (name :: names)
  | _ :: _ => Err "artifact archive contains an unsafe path"%string
  end.
Definition normalize_archive_path (p : string) : result string (list string) :=
  normalize_components (path_components p).

(** ** Logs *)

Definition truncate (b : bytes) (max : Z) : bytes := take_bytes max b.
Definition stderr_section : bytes := str_bytes (String "010" "[stderr]") ++ [10].
Definition bounded_combined_log (stdout stderr : bytes) (max : Z) : bytes * bool :=
  let combined := if bool_decide (stderr = []) then stdout else stdout ++ stderr_section ++ stderr in
  (truncate combined max, max <? blen combined).
Definition append_bounded_log_section (log : bytes) (truncated : bool) (max : Z) (name : string)
    (content : bytes) : bytes * bool :=
  let section := [10] ++ str_bytes ("[" ++ name ++ "]") ++ [10] in
  let wanted := saturating_add (blen section) (blen content) in
  let remaining := saturating_sub max (blen log) in
  let truncated := (remaining <? wanted) || truncated in
  let log := log ++ take_bytes (Z.min (blen section) remaining) section in
  let remaining := saturating_sub max (blen log) in
  (log ++ take_bytes (Z.min (blen content) remaining) content, truncated).
(** [drain_bounded]: the reads until the end, or a failed one. *)
Fixpoint drain_bounded (max : Z) (reads : list (option bytes)) (kept : bytes) : option bytes :=
  match reads with
  | [] | Some [] :: _ => Some kept
  | None :: _ => None
  | Some b :: reads => drain_bounded max reads (kept ++ take_bytes (saturating_sub max (blen kept)) b)
  end.

(** ** The arguments of the runtime *)

Definition dq : string := String (ascii_of 34) EmptyString.
Definition concat_lines (l : list string) : string := foldr (λ a b, a ++ String "010" b)%string EmptyString l.
Definition COMPLETION_MARKER : string := "/workspace/.tentaflake-worker-complete".
Definition WORKSPACE_INIT_SCRIPT : string :=
  concat_lines ["";
    "cp -R --no-preserve=ownership /input/. /workspace/";
    "cd /workspace";
    "rm -f .tentaflake-worker-complete";
    "trap '' USR1";
    "set +e";
    dq ++ "$@" ++ dq;
    "status=$?";
    "nonce=" ++ dq ++ "$(od -An -N16 -tx1 /dev/urandom | tr -d ' \n')" ++ dq;
    "trap 'exit " ++ dq ++ "$status" ++ dq ++ "' USR1";
    "printf 'TFW1:%s:%s\n' " ++ dq ++ "$nonce" ++ dq ++ " " ++ dq ++ "$status" ++ dq
      ++ " > .tentaflake-worker-complete";
    "while :; do";
    "  sleep 3600 &";
    "  wait " ++ dq ++ "$!" ++ dq ++ " || true";
    "done"]%string.

Definition append_runtime_log_policy (backend : string) : option (list string) :=
  if (backend =? "docker")%string then
    Some ["--log-driver=local"; "--log-opt=max-size=1m"; "--log-opt=max-file=1"; "--log-opt=compress=false"]%string
  else if (backend =? "podman")%string then
    Some ["--log-driver=k8s-file"; "--log-opt=max-size=1m"]%string
  else None.   (* [unreachable!] *)
Definition append_runtime_policy (c : Config) (container snapshot : string) : option (list string) :=
  log ← append_runtime_log_policy (backend c);
  Some (["--name=" ++ container; "--runtime=runsc"; "--network=none"; "--read-only"; "--cap-drop=ALL";
         "--security-opt=no-new-privileges:true";
         "--user=" ++ pretty (container_uid c) ++ ":" ++ pretty (container_gid c);
         "--memory=" ++ memory c; "--memory-swap=" ++ memory_swap c; "--cpus=" ++ cpus c;
         "--pids-limit=" ++ pretty (pids_limit c);
         "--tmpfs=/workspace:rw,nosuid,nodev,uid=" ++ pretty (container_uid c) ++ ",gid="
           ++ pretty (container_gid c) ++ ",mode=0700,size=" ++ workspace_tmpfs_size c;
         "--tmpfs=/tmp:rw,nosuid,nodev,noexec,uid=" ++ pretty (container_uid c) ++ ",gid="
           ++ pretty (container_gid c) ++ ",mode=0700,size=" ++ tmp_tmpfs_size c;
         "--ulimit=nofile=4096:4096";
         "--ulimit=nproc=" ++ pretty (pids_limit c) ++ ":" ++ pretty (pids_limit c);
         "--mount=type=bind,source=" ++ snapshot ++ ",target=/input,readonly";
         "--workdir=/workspace"]%string
        ++ log
        ++ (if (backend c =? "docker")%string then ["--security-opt=apparmor=docker-default"%string] else [])).
Definition container_name (c : Config) (job : string) : string := ("tfw-" ++ agent c ++ "-" ++ job)%string.
(** [create.arg("create")], the policy, the image and the job. *)
Definition create_args (c : Config) (r : JobRequest) (snapshot : string) : option (list string) :=
  policy ← append_runtime_policy c (container_name c (rq_id r)) snapshot;
  Some (["create"%string] ++ policy
        ++ ["--label=io.tentaflake.worker=" ++ agent c; "--entrypoint=/bin/bash"; image c;
            "-ceu"; WORKSPACE_INIT_SCRIPT; "tentaflake-worker-job"]%string
        ++ rq_argv r).

(** ** Results *)

Definition TERMINAL : list string :=
  ["succeeded"; "failed"; "timed-out"; "runtime-error"; "rejected"; "denied"; "interrupted"]%string.
(** [message.chars().take(2048).collect()]. *)
Definition clip_message (message : string) : string := of_chars (take 2048 (chars message)).
Definition plain_result (r : JobRequest) (status message : string) (now : Z) : JobResult :=
  mkResult 1 (rq_id r) (rq_action_class r) status None false false false now (clip_message message).
Definition job_status (timed_out started : bool) (exit_code : option Z) : string :=
  if timed_out then "timed-out"
  else if negb started then "runtime-error"
  else if bool_decide (exit_code = Some 0) then "succeeded" else "failed".
Definition job_result (r : JobRequest) (timed_out started : bool) (exit_code : option Z)
    (artifacts_available log_truncated : bool) (now : Z) : JobResult :=
  mkResult 1 (rq_id r) (rq_action_class r) (job_status timed_out started exit_code) exit_code timed_out
    artifacts_available log_truncated now
    "executed in a disposable no-network gVisor capsule; artifacts are read-only to the controller".
