(* ===== verification/Queue.v ===== *)
(** * The private queue: [crates/tentaflake-worker/src/queue.rs]

    Durable transitions of a job between [pending], [running] and [results], the
    admission of retained storage, and the functions of [main.rs] they call:
    [audit], [activity_event], [write_json], [finish_without_run].  A path below
    the state directory is written from its canonical root. *)

From stdpp Require Import sorting.
From S2P Require Import Prelude RustStr Json Posix Budget PrivateStore Template Net Activity WorkerFs WorkerData.

Definition DRAIN_REQUEST : string := ".drain-request".
Definition MAX_TREE_DEPTH : nat := 128.
(** The canonical state directory, and a directory of it. *)
Definition root (c : Config) : string := canonical (components (state_dir c)).
Definition sub (c : Config) (directory : string) : string := below (root c) directory.
Definition json_name (job : string) : string := (job ++ ".json")%string.
Definition staging_name (name : string) : string := ("." ++ name ++ ".new")%string.
Definition tmp_name (job : string) : string := ("." ++ job ++ ".tmp")%string.
Definition sorted (names : list string) : list string := merge_sort name_le names.

(** [match r { Ok(_) => .., Err(NotFound) => .., Err(e) => return Err(..) }]. *)
Definition present {A} (what : string) (m : Sys A) : W bool :=
  r ← attempt (on_fs m);
  match r with
  | Ok _ => mret true
  | Err NotFound => mret false
  | Err e => fail (what ++ io_text e)%string
  end.

Definition consume_drain_request (c : Config) : W unit :=
  removed ← present "consume drain request: " (sys_unlink (sub c DRAIN_REQUEST));
  if (removed : bool) then sync_directory (root c) else mret tt.

(** The returned descriptor holds the lock until it is closed. *)
Definition lock (c : Config) : W fd :=
  _ ← open_path_no_symlinks (state_dir c);
  mode ← gets (masked 384 (* 0o600 *));
  file ← sys "open queue lock" (in_directory (root c) (sys_open_create (sub c ".queue.lock") mode));
  m ← sys_plain (sys_fstat file);
  _ ← throw_if (negb (bool_decide (i_kind m = Regular))) "queue lock must be a regular private file";
  _ ← sys "queue is busy or cannot be locked" (sys_flock file true);
  mret file.

Definition read_private (path : string) (max : Z) : W bytes :=
  file ← sys ("open " ++ path) (sys_open_read path);
  m ← sys_plain (sys_fstat file);
  _ ← throw_if (negb (bool_decide (i_kind m = Regular))) ("not a regular queue file: " ++ path)%string;
  sys ("read " ++ path) (read_bounded file max).

Definition write_private (parent name : string) (content : bytes) : W unit :=
  _ ← open_path_no_symlinks parent;
  let staging := below parent (staging_name name) in
  r ← attempt (on_fs (sys_symlink_metadata staging));
  _ ← match r with
      | Ok (_, m) =>
          if bool_decide (i_kind m = Regular) then
            _ ← sys "remove incomplete queue staging" (sys_unlink staging);
            sync_directory parent
          else fail "incomplete queue staging is not a regular file"%string
      | Err NotFound => mret tt
      | Err e => fail (io_text e)
      end;
  file ← create_file "create queue staging" parent (staging_name name) 384;
  _ ← sys "write queue staging" (_ ← sys_write file content; sys_sync);
  _ ← sys "publish private queue file" (in_directory parent (sys_hard_link staging (below parent name)));
  _ ← sync_directory parent;
  _ ← sys "remove published queue staging" (sys_unlink staging);
  sync_directory parent.

(** ** Scans *)

Definition queue_entry (d : string) (max_entries max_bytes : Z) (acc : list string * Z) (name : string) :
    W (list string * Z) :=
  let '(names, bytes) := acc in
  _ ← throw_if (max_entries <=? blen names) "worker queue exceeds its aggregate entry ceiling";
  s ← fstatat_nofollow d name;
  bytes ← lift (ok_or "worker queue byte count overflow"%string (checked_add bytes (st_size s)));
  _ ← throw_if (max_bytes <? bytes) "worker queue exceeds its aggregate byte ceiling";
  mret (names ++ [name], bytes).
Definition scan (d : string) (max_entries max_bytes : Z) : W (list string * Z) :=
  l ← sys_plain (sys_names d);
  foldM (queue_entry d max_entries max_bytes) ([], 0) l.

Definition usage_of (c : Config) (acc : Z * Z) (directory : string) : W (Z * Z) :=
  let '(entries, bytes) := acc in
  d ← open_path_no_symlinks (sub c directory);
  found ← scan d (max_queue_entries c) (max_queue_bytes c);
  let entries := entries + blen (fst found) in
  bytes ← lift (ok_or "worker queue byte count overflow"%string (checked_add bytes (snd found)));
  _ ← throw_if ((max_queue_entries c <? entries) || (max_queue_bytes c <? bytes))
        "private worker queue exceeds its aggregate capacity";
  mret (entries, bytes).
Definition usage (c : Config) : W (Z * Z) :=
  foldM (usage_of c) (0, 0) ["pending"; "running"]%string.

(** ** Retained storage *)

Record RetainedUsage : Type := mkUsage {
  ru_receipts : list string; ru_running : list bool; ru_bytes : Z; ru_entries : Z; ru_results : Z }.
Definition job_storage_budget (c : Config) : CopyBudget :=
  mkBudget (saturating_add (saturating_add (saturating_mul (max_snapshot_bytes c) 2) (max_log_bytes c)) (16 * 1024))
           (saturating_add (saturating_mul (max_snapshot_entries c) 2) 8).

(** One staging file of a reservation: it is safe to remove. *)
Definition reservation_staging (d : string) (names : list string) (staging : list string) (name : string) :
    W (list string) :=
  raw ← lift (ok_or "invalid retained reservation name"%string (to_str name));
  if negb (starts_with "." raw) then mret staging
  else
    job ← lift (ok_or "unknown reservation staging"%string (strip_prefix "." raw ≫= strip_suffix ".new"));
    _ ← lift (validate_identifier "reservation staging" job 64);
    s ← fstatat_nofollow d name;
    euid ← gets (w_euid ∘ wh_world);
    _ ← throw_if (negb (bool_decide (st_kind s = Regular)) || negb (st_size s =? 0)
                  || negb (mode_and (i_mode (st_node s)) 63 (* 0o077 *) =? 0)
                  || negb (i_uid (st_node s) =? euid)) "unsafe reservation staging";
    _ ← (if str_in job names then
           published ← fstatat_nofollow d job;
           throw_if (negb (st_nlink s =? 2) || negb (st_nlink published =? 2)
                     || negb (st_ino s =? st_ino published))
             "reservation staging does not match published receipt"%string
         else throw_if (negb (st_nlink s =? 1)) "reservation staging has unexplained hardlinks"%string);
    mret (staging ++ [name]).
Definition recover_reservation_staging (c : Config) : W unit :=
  d ← open_path_no_symlinks (sub c "reservations");
  names ← list_fd_dir d 8192 false;
  staging ← foldM (reservation_staging d names) [] names;
  _ ← for_each (unlink_at d) staging;
  if bool_decide (staging = []) then mret tt else sync_directory (sub c "reservations").

Definition retained_reservation (d : string) (reserved : list string) (name : string) : W (list string) :=
  job ← lift (ok_or "invalid retained reservation name"%string (to_str name));
  _ ← lift (validate_identifier "retained reservation" job 64);
  s ← fstatat_nofollow d name;
  euid ← gets (w_euid ∘ wh_world);
  _ ← throw_if (negb (bool_decide (st_kind s = Regular)) || negb (st_nlink s =? 1) || negb (st_size s =? 0)
                || negb (mode_and (i_mode (st_node s)) 18 (* 0o022 *) =? 0)
                || negb (i_uid (st_node s) =? euid)) "unsafe retained reservation";
  mret (reserved ++ [job]).

Fixpoint scan_retained_tree (levels : nat) (d : string) (snapshot : bool) (budget : CopyBudget) : W CopyBudget :=
  match levels with
  | O => fail "retained directory depth exceeds ceiling"%string
  | S levels =>
      names ← list_fd_dir d (entries_left budget) false;
      foldM (λ budget name,
        left ← lift (ok_or "retained entry ceiling exceeded"%string (checked_sub (entries_left budget) 1));
        let budget := mkBudget (bytes_left budget) left in
        s ← fstatat_nofollow d name;
        euid ← gets (w_euid ∘ wh_world);
        _ ← throw_if (negb (i_uid (st_node s) =? euid)
                      || (negb snapshot && negb (bool_decide (st_kind s = Symlink))
                          && negb (mode_and (i_mode (st_node s)) 18 =? 0)))
              "unsafe retained entry ownership or permissions"%string;
        match st_kind s with
        | Directory =>
            child ← map_err io_text (open_dir_at d name);
            scan_retained_tree levels child snapshot budget
        | Regular =>
            _ ← throw_if (negb (st_nlink s =? 1)) "unsafe retained entry"%string;
            left ← lift (ok_or "retained byte ceiling exceeded"%string (checked_sub (bytes_left budget) (st_size s)));
            mret (mkBudget left (entries_left budget))
        | Symlink =>
            _ ← throw_if (negb (snapshot && (st_size s <=? 4096))) "unsafe retained entry"%string;
            mret budget
        | Socket | Special => fail "unsafe retained entry"%string
        end) budget names
  end.

(** The locals of [check_retained] during its scan. *)
Record retained : Type := mkRetained {
  re_budgets : list CopyBudget; re_running : list bool; re_occupied : list bool;
  re_count : Z; re_bytes : Z; re_entries : Z }.
Definition retained_job (directory raw : string) : result string string :=
  if (directory =? "running")%string then ok_or "unknown running state"%string (strip_suffix ".json" raw)
  else if (directory =? "results")%string && starts_with "." raw then
    ok_or "unknown result staging"%string (strip_prefix "." raw ≫= strip_suffix ".tmp")
  else Ok raw.
(** [binary_search] in the sorted receipts. *)
Definition position (job : string) (reserved : list string) : option nat :=
  fst <$> list_find (λ id, id = job) reserved.
(** Charge bytes and entries against the ceilings. *)
Definition charge (c : Config) (what : string) (bytes entries : Z) (st : retained) : result string retained :=
  total_bytes ← ok_or "retained size overflow"%string (checked_add (re_bytes st) bytes);
  total_entries ← ok_or "retained entry overflow"%string (checked_add (re_entries st) entries);
  _ ← bail_if ((max_retained_result_bytes c <? total_bytes) || (max_retained_entries c <? total_entries)) what;
  Ok (mkRetained (re_budgets st) (re_running st) (re_occupied st) (re_count st) total_bytes total_entries).
Definition retained_entry (c : Config) (reserved : list string) (directory d : string) (st : retained)
    (name : string) : W retained :=
  raw ← lift (ok_or "invalid retained state name"%string (to_str name));
  job ← lift (retained_job directory raw);
  index ← lift (ok_or "unreserved legacy worker state; operator reconciliation required"%string
                  (position job reserved));
  let st := if default false (re_occupied st !! index) then st
            else mkRetained (re_budgets st) (re_running st) (<[index := true]> (re_occupied st))
                   (re_count st + 1) (re_bytes st) (re_entries st) in
  _ ← throw_if (max_retained_results c <? re_count st) "retained result count ceiling exceeded";
  s ← fstatat_nofollow d name;
  euid ← gets (w_euid ∘ wh_world);
  _ ← throw_if (negb (i_uid (st_node s) =? euid) || negb (mode_and (i_mode (st_node s)) 18 =? 0)
                || ((directory =? "jobs")%string && negb (mode_and (i_mode (st_node s)) 63 =? 0)))
        "unsafe retained state ownership or permissions";
  if (directory =? "running")%string then
    _ ← throw_if (negb (bool_decide (st_kind s = Regular)) || negb (st_nlink s =? 1)
                  || (max_request_bytes c <? st_size s)) "unsafe retained running claim";
    let st := mkRetained (re_budgets st) (<[index := true]> (re_running st)) (re_occupied st)
                (re_count st) (re_bytes st) (re_entries st) in
    let full := job_storage_budget c in
    lift (charge c "retained running reservations exceed aggregate capacity"
            (bytes_left full) (entries_left full) st)
  else
    _ ← throw_if (negb (bool_decide (st_kind s = Directory))) "retained state must be a directory";
    let before := default (job_storage_budget c) (re_budgets st !! index) in
    child ← map_err io_text (open_dir_at d name);
    after ← scan_retained_tree (MAX_TREE_DEPTH + 2) child (directory =? "jobs")%string before;
    let st := mkRetained (<[index := after]> (re_budgets st)) (re_running st) (re_occupied st)
                (re_count st) (re_bytes st) (re_entries st) in
    if default false (re_running st !! index) then mret st
    else lift (charge c "retained trees exceed aggregate capacity"
                 (bytes_left before - bytes_left after) (entries_left before - entries_left after) st).
Definition retained_directory (c : Config) (reserved : list string) (st : retained) (directory : string) :
    W retained :=
  d ← open_path_no_symlinks (sub c directory);
  names ← list_fd_dir d (saturating_mul (max_retained_results c) 2) false;
  foldM (retained_entry c reserved directory d) st names.
Definition check_retained (c : Config) : W RetainedUsage :=
  _ ← recover_reservation_staging c;
  d ← open_path_no_symlinks (sub c "reservations");
  names ← list_fd_dir d 4096 false;
  reserved ← foldM (retained_reservation d) [] names;
  let reserved := sorted reserved in
  let start := mkRetained ((λ _, job_storage_budget c) <$> reserved) ((λ _, false) <$> reserved)
                 ((λ _, false) <$> reserved) 0 0 0 in
  st ← foldM (retained_directory c reserved) start ["running"; "results"; "jobs"]%string;
  mret (mkUsage reserved (re_running st) (re_bytes st) (re_entries st) (re_count st)).

Definition reserve_result (c : Config) (job : string) : W unit :=
  usage ← check_retained c;
  let existing := position job (ru_receipts usage) in
  if is_some_and (λ index, default false (ru_running usage !! index)) existing then mret tt
  else
    let full := job_storage_budget c in
    _ ← throw_if ((max_retained_results c <=? ru_results usage)
                  || (saturating_sub (max_retained_result_bytes c) (ru_bytes usage) <? bytes_left full)
                  || (saturating_sub (max_retained_entries c) (ru_entries usage) <? entries_left full)
                  || (is_none existing && (4096 <=? blen (ru_receipts usage))))
          "retained worker capacity is full; no results or receipts were removed";
    if is_none existing then write_private (sub c "reservations") job [] else mret tt.

(** ** Transitions *)

Section queue.
Context `{SerdeJson} `{WorkerCodec}.

Definition read_request (c : Config) (directory job : string) : W JobRequest :=
  _ ← lift (validate_identifier "job id" job 64);
  _ ← open_path_no_symlinks (sub c directory);
  content ← read_private (below (sub c directory) (json_name job)) (max_request_bytes c);
  request ← lift (ok_or "parse private request"%string (request_from_slice content));
  _ ← lift (validate_request c request);
  _ ← throw_if (negb (rq_id request =? job)%string) "private request filename must equal <id>.json";
  mret request.

Definition APPROVED : bytes := str_bytes "approved" ++ [10].
Definition approved (c : Config) (job : string) : W bool :=
  _ ← open_path_no_symlinks (sub c "approvals");
  let path := below (sub c "approvals") job in
  found ← present "inspect host approval: " (sys_symlink_metadata path);
  if (found : bool) then
    b ← read_private path 32;
    _ ← throw_if (negb (bool_decide (b = APPROVED))) "invalid host approval record";
    mret true
  else mret false.

Definition claim (c : Config) (r : JobRequest) : W unit :=
  _ ← reserve_result c (rq_id r);
  let name := json_name (rq_id r) in
  let pending := below (sub c "pending") name in
  let running := below (sub c "running") name in
  found ← present "inspect running claim: " (sys_symlink_metadata running);
  _ ← throw_if found "job already has a durable running claim";
  _ ← sys "sync request before claim" (_ ← sys_open_read pending; sys_sync);
  _ ← sys "claim job" (in_directory (sub c "running") (sys_move pending running));
  _ ← sync_directory (sub c "running");
  sync_directory (sub c "pending").

(** What [terminal] accepts as the result of a request. *)
Definition result_matches (r : JobRequest) (res : JobResult) : bool :=
  (rs_version res =? 1) && (rs_id res =? rq_id r)%string
  && bool_decide (rs_action_class res = rq_action_class r) && str_in (rs_status res) TERMINAL.
Definition terminal (c : Config) (r : JobRequest) : W bool :=
  let path := below (sub c "results") (rq_id r) in
  found ← present "inspect terminal result: " (sys_symlink_metadata path);
  if (found : bool) then
    _ ← open_path_no_symlinks path;
    b ← read_private (below path "result.json") (16 * 1024);
    res ← lift (ok_or "invalid terminal result"%string (result_from_slice b));
    _ ← throw_if (negb (result_matches r res)) "terminal result does not match its private request";
    mret true
  else mret false.

Definition retire (c : Config) (directory : string) (r : JobRequest) : W unit :=
  done ← terminal c r;
  _ ← throw_if (negb done) "cannot retire a request without a durable terminal result";
  removed ← present "consume approval: " (sys_unlink (below (sub c "approvals") (rq_id r)));
  _ ← (if (removed : bool) then sync_directory (sub c "approvals") else mret tt);
  _ ← sys "retire request" (sys_unlink (below (sub c directory) (json_name (rq_id r))));
  sync_directory (sub c directory).

(** [sync_tree]: the fuel is above the number of names, so above every depth. *)
Fixpoint sync_tree (fuel : nat) (path : string) : W unit :=
  match fuel with
  | O => fail EmptyString
  | S fuel =>
      l ← sys_plain (sys_names path);
      _ ← for_each (λ name,
        x ← sys_plain (sys_symlink_metadata (below path name));
        match i_kind (snd x) with
        | Directory => sync_tree fuel (below path name)
        | Regular => sys_plain (_ ← sys_open_read (below path name); sys_sync)
        | _ => fail "result staging contains a link or special file"%string
        end) l;
      sync_directory path
  end.
Definition publish_result (dir staging destination : string) : W unit :=
  fuel ← gets (λ h, S (size (w_names (wh_world h))));
  _ ← sync_tree fuel (below dir staging);
  found ← present "inspect terminal destination: " (sys_symlink_metadata (below dir destination));
  _ ← throw_if found "refusing to replace an existing terminal result";
  _ ← sys "publish result" (in_directory dir (sys_move (below dir staging) (below dir destination)));
  sync_directory dir.

(** ** Records of [main.rs] *)

Definition classify (event detail : string) : option (Operation * Outcome) :=
  if str_in event ["denied"; "rejected"; "request-rejected"; "queue-overload"]%string then
    Some (Enforcement, Denied)
  else if (event =? "execution")%string then
    Some (Tool, if (detail =? "succeeded")%string then Succeeded
                else if (detail =? "failed")%string then Failed else Uncertain)
  else if str_in event ["execution-uncertain"; "recovered"]%string then Some (Tool, Uncertain)
  else if str_in event ["approved"; "request-accepted"; "approval-required"]%string then
    Some (Enforcement, Succeeded)
  else None.
(** A failed emission only prints a gap. *)
Definition activity_event (c : Config) (job event detail : string) : W unit :=
  match activity c, classify event detail with
  | Some a, Some (op, out) =>
      _ ← attempt (E := string) (zoom wh_env set_wenv (emit a job op out 0 0));
      mret tt
  | _, _ => mret tt
  end.
Definition AUDIT : string := "audit.jsonl".
Definition audit (c : Config) (job event : string) (action_class : option ActionClass) (detail : string) :
    W unit :=
  mode ← gets (masked 384);
  file ← sys "open audit" (in_directory (root c) (sys_open_append (sub c AUDIT) mode));
  now ← on_fs unix_seconds;
  record ← lift (ok_or "serialize audit"%string
                   (event_to_vec (mkAuditEvent now (agent c) job event action_class detail)));
  let record := record ++ [10] in
  m ← sys_plain (sys_fstat file);
  _ ← throw_if (1024 * 1024 <? saturating_add (blen (i_data m)) (blen record))
        "worker audit capacity is full; operator archival required";
  _ ← sys_plain (sys_append file record);
  activity_event c job event detail.

Definition write_json (d name : string) (value : option bytes) : W unit :=
  file ← create_file ("create " ++ below d name) d name 416 (* 0o640 *);
  b ← lift (ok_or "serialize"%string value);
  _ ← sys_plain (sys_write file (b ++ [10]));
  sys ("sync " ++ below d name) sys_sync.

Definition harden_shared_directory (path : string) : W unit :=
  x ← sys ("stat " ++ path) (sys_symlink_metadata path);
  let m := snd x in
  _ ← throw_if (negb (bool_decide (i_kind m = Directory))) ("refusing non-directory result path " ++ path)%string;
  let current := Z.land (i_mode m) 4095 (* 0o7777 *) in
  let desired := hardened_shared_directory_mode current in
  if negb (current =? desired) then sys ("chmod " ++ path) (sys_chmod path desired) else mret tt.

Definition finish_without_run (c : Config) (r : JobRequest) (status message : string) : W unit :=
  _ ← reserve_result c (rq_id r);
  let staging := below (sub c "results") (tmp_name (rq_id r)) in
  _ ← create_dir "create result staging" (sub c "results") (tmp_name (rq_id r));
  _ ← harden_shared_directory staging;
  now ← on_fs unix_seconds;
  _ ← write_json staging "result.json" (result_to_pretty (plain_result r status message now));
  _ ← publish_result (sub c "results") (tmp_name (rq_id r)) (rq_id r);
  activity_event c (rq_id r) status "".
End queue.
