(* ===== verification/Review.v ===== *)
(** * Operator review: [crates/tentaflake-worker/src/review.rs]

    The listing of captured requests and the recording of digest-bound decisions.
    Neither command recovers or dispatches a job. *)

From S2P Require Import Prelude RustStr Json Posix Budget PrivateStore Template Net Activity WorkerFs WorkerData Queue.

Definition MAX_ENTRIES : Z := 256.
Definition MAX_QUEUE_BYTES : Z := 8 * 1024 * 1024.
Definition MAX_REQUEST_BYTES : Z := 64 * 1024.
Definition MAX_RESPONSE_BYTES : Z := 256 * 1024.
Definition MAX_ROWS : Z := 100.
Definition MAX_DECISIONS : Z := 4096.
Definition MAX_RECEIPT_BYTES : Z := 1024.

Definition invalid (e : string) : string := ("invalid: " ++ e)%string.
Definition invalid_io (e : io_error) : string := invalid (io_text e).

(** [check_owner] on the metadata of the opened file. *)
Definition check_owner (m : inode) (directory private : bool) : W unit :=
  euid ← gets (w_euid ∘ wh_world);
  throw_if (negb (i_uid m =? euid)
            || (directory && negb (bool_decide (i_kind m = Directory)))
            || (negb directory && negb (bool_decide (i_kind m = Regular)))
            || negb (mode_and (i_mode m) (if private then 63 (* 0o077 *) else 18 (* 0o022 *)) =? 0))
    "invalid: review state must be owned by the worker and private".

Definition checked_directory (parent name : string) (private : bool) : W (option string) :=
  r ← attempt (open_dir_at parent name);
  match r with
  | Err NotFound => mret None
  | Err e => fail (invalid_io e)
  | Ok d =>
      x ← map_err invalid_io (on_fs (sys_symlink_metadata d));
      _ ← check_owner (snd x) true private;
      mret (Some d)
  end.

Definition read_at (parent name : string) (max : Z) : W (option bytes) :=
  r ← attempt (open_file_at parent name);
  match r with
  | Err NotFound => mret None
  | Err e => fail (invalid_io e)
  | Ok None => fail (invalid_io OtherIo)
  | Ok (Some file) =>
      m ← map_err invalid_io (on_fs (sys_fstat file));
      _ ← check_owner m false true;
      links ← gets (λ h, nlink (wh_world h) (fd_ino file));
      _ ← (if links =? 1 then mret tt
           else
             staging ← map_err invalid (fstatat_nofollow parent (staging_name name));
             throw_if (negb (links =? 2) || negb (st_ino staging =? fd_ino file)
                       || negb (bool_decide (st_kind staging = Regular)))
               "invalid: review file has an unexpected hard link"%string);
      _ ← throw_if (max <? blen (i_data m)) "limit: review file exceeds byte ceiling";
      b ← map_err (λ e, ("limit: " ++ io_text e)%string) (on_fs (read_bounded file max));
      mret (Some b)
  end.

(** [Queue]: the state directory and its pending directory, under the lock. *)
Record Queue : Type := mkQueue { q_root : string; q_pending : string; q_lock : fd }.
Definition Queue_open (c : Config) : W (option Queue) :=
  found ← present "invalid: " (sys_symlink_metadata (root c));
  if negb found then mret None
  else
    r ← map_err invalid (open_path_no_symlinks (state_dir c));
    x ← map_err invalid_io (on_fs (sys_symlink_metadata r));
    _ ← check_owner (snd x) true false;
    l ← attempt (open_file_at r ".queue.lock");
    match l with
    | Err NotFound => mret None
    | Err e => fail (invalid_io e)
    | Ok None => fail (invalid_io OtherIo)
    | Ok (Some lock) =>
        m ← map_err invalid_io (on_fs (sys_fstat lock));
        _ ← check_owner m false true;
        links ← gets (λ h, nlink (wh_world h) (fd_ino lock));
        _ ← throw_if (negb (links =? 1)) "invalid: queue lock has an unexpected hard link";
        _ ← map_err (λ _, "busy: worker queue is already owned or unavailable"%string)
              (on_fs (sys_flock lock true));
        pending ← checked_directory r "pending" true;
        match pending with
        | None => fail "invalid: initialized queue has no private pending directory"%string
        | Some pending => mret (Some (mkQueue r pending lock))
        end
    end.

Definition valid_digest (value : string) : bool :=
  (str_len value =? 64) && all_bytes (λ b, is_ascii_digit b || in_range 97 102 b) value.

Section review.
Context `{Sha2} `{SerdeJson} `{WorkerCodec}.

Definition Queue_request (c : Config) (q : Queue) (job : string) : W (option JobRequest) :=
  b ← read_at (q_pending q) (json_name job) (Z.min (max_request_bytes c) MAX_REQUEST_BYTES);
  match b with
  | None => mret None
  | Some b =>
      request ← lift (ok_or (invalid "request") (request_from_slice b));
      _ ← map_err invalid (lift (validate_request c request));
      _ ← throw_if (negb (rq_id request =? job)%string) "invalid: private request ID differs from filename";
      mret (Some request)
  end.
Definition no_running_claim (q : Queue) (job : string) : W unit :=
  d ← checked_directory (q_root q) "running" true;
  match d with
  | None => fail "invalid: initialized queue has no private running directory"%string
  | Some d =>
      r ← attempt (open_file_at d (json_name job));
      match r with
      | Err NotFound => mret tt
      | Err e => fail (invalid_io e)
      | Ok None => fail (invalid_io OtherIo)
      | Ok (Some _) => fail "conflict: job already has a running claim"%string
      end
  end.

(** Every field of a validated request is bound. *)
Definition request_digest (r : JobRequest) : result string string :=
  b ← ok_or (invalid "request") (request_to_vec r);
  Ok (Template.digest b).

Definition receipt_ok (c : Config) (job : string) (r : Receipt) : bool :=
  (rc_schema_version r =? 1) && (rc_agent r =? agent c)%string && (rc_job_id r =? job)%string
  && valid_digest (rc_request_digest r) && (rc_state r =? "recorded")%string && rc_drain_required r.
Definition read_receipt (c : Config) (r job : string) : W (option Receipt) :=
  d ← checked_directory r "decisions" true;
  match d with
  | None => mret None
  | Some d =>
      b ← read_at d job MAX_RECEIPT_BYTES;
      match b with
      | None => mret None
      | Some b =>
          receipt ← lift (ok_or (invalid "receipt") (receipt_from_slice b));
          _ ← throw_if (negb (receipt_ok c job receipt))
                "invalid: decision receipt does not match its queue identity";
          mret (Some receipt)
      end
  end.
Definition decision_for (c : Config) (r : JobRequest) : W (option Decision) :=
  d ← map_err invalid (open_path_no_symlinks (state_dir c));
  receipt ← read_receipt c d (rq_id r);
  match receipt with
  | None => mret None
  | Some receipt =>
      digest ← lift (request_digest r);
      _ ← throw_if (negb (rc_request_digest receipt =? digest)%string)
            "conflict: captured request differs from its recorded decision";
      _ ← throw_if (bool_decide (rc_decision receipt = Approve) && negb (needs_approval (rq_action_class r)))
            "invalid: action class cannot carry a recorded approval";
      mret (Some (rc_decision receipt))
  end.
Definition legacy_approved (q : Queue) (job : string) : W bool :=
  d ← checked_directory (q_root q) "approvals" true;
  match d with
  | None => fail "invalid: initialized queue has no private approvals directory"%string
  | Some d =>
      b ← read_at d job 32;
      match b with
      | Some b => if bool_decide (b = APPROVED) then mret true else fail "invalid: legacy approval record"%string
      | None => mret false
      end
  end.

Definition print_json (value : option bytes) : W unit :=
  output ← lift (ok_or (invalid "serialize") value);
  _ ← throw_if (MAX_RESPONSE_BYTES <? blen output) "limit: review response exceeds byte ceiling";
  _ ← map_err invalid_io (print_bytes output);
  map_err invalid_io (print_bytes [10]).

(** ** [requests] *)

Definition approval_status (decision : option Decision) (approved : bool) (a : ActionClass) : string :=
  match decision with
  | Some Approve => "approved"
  | Some Deny => "denied"
  | None => if approved then "approved"
            else if bool_decide (a = Forbidden) then "forbidden"
            else if negb (needs_approval a) then "not-required" else "pending"
  end.
Definition review_row (r : JobRequest) (digest : string) (decision : option Decision) (approved : bool) : RequestRow :=
  let undecided := is_none decision && negb approved in
  mkRow (rq_id r) digest (rq_action_class r) (rq_argv r) "/workspace" (rq_timeout_seconds r) "pending"
    (approval_status decision approved (rq_action_class r))
    (undecided && needs_approval (rq_action_class r)) undecided.
(** The response so far, and whether the loop was left. *)
Definition review_entry (c : Config) (q : Queue) (acc : Requests * bool) (name : string) : W (Requests * bool) :=
  let '(resp, stopped) := acc in
  if (stopped : bool) then mret acc
  else
    s ← map_err invalid (fstatat_nofollow (q_pending q) name);
    _ ← throw_if (negb (bool_decide (st_kind s = Regular)))
          "invalid: pending directory contains a link or special entry";
    match to_str name ≫= strip_suffix ".json" with
    | None => mret acc
    | Some job =>
        _ ← map_err invalid (lift (validate_identifier "job id" job 64));
        request ← Queue_request c q job;
        r ← lift (ok_or "invalid: captured request disappeared while locked"%string request);
        _ ← no_running_claim q job;
        done ← map_err invalid (terminal c r);
        if (done : bool) then mret acc
        else
          decision ← decision_for c r;
          approved ← legacy_approved q job;
          _ ← throw_if (bool_decide (decision = Some Deny) && approved)
                "conflict: recorded denial has a legacy approval";
          let truncated := mkRequests (rqs_schema_version resp) (rqs_agent resp) (rqs_initialized resp)
                             true (rqs_requests resp) in
          if blen (rqs_requests resp) =? MAX_ROWS then mret (truncated, true)
          else
            digest ← lift (request_digest r);
            let longer := mkRequests (rqs_schema_version resp) (rqs_agent resp) (rqs_initialized resp)
                            (rqs_truncated resp) (rqs_requests resp ++ [review_row r digest decision approved]) in
            b ← lift (ok_or (invalid "serialize") (requests_to_vec longer));
            if MAX_RESPONSE_BYTES <? blen b then mret (truncated, true) else mret (longer, false)
    end.
Definition limited (e : string) : string := ("limit: " ++ e)%string.
Definition requests (c : Config) : W unit :=
  queue ← Queue_open c;
  match queue with
  | None => print_json (requests_to_vec (mkRequests 1 (agent c) false false []))
  | Some q =>
      found ← map_err limited (scan (q_pending q) (Z.min (max_queue_entries c) MAX_ENTRIES)
                                 (Z.min (max_queue_bytes c) MAX_QUEUE_BYTES));
      resp ← foldM (review_entry c q) (mkRequests 1 (agent c) true false [], false) (sorted (fst found));
      print_json (requests_to_vec (fst resp))
  end.

(** ** [decide] *)

Definition parse_decision (args : list string) : result string (string * Decision * string) :=
  job ← ok_or "invalid: missing job ID"%string (args !! 0%nat);
  _ ← match validate_identifier "job id" job 64 with Ok _ => Ok tt | Err e => Err (invalid e) end;
  decision ← match args !! 1%nat with
             | Some d => if (d =? "approve")%string then Ok Approve
                         else if (d =? "deny")%string then Ok Deny
                         else Err "invalid: decision must be approve or deny"%string
             | None => Err "invalid: decision must be approve or deny"%string
             end;
  _ ← bail_if (negb (opt_str_eq (args !! 2%nat) "--expected-digest")) "invalid: --expected-digest is required"%string;
  expected ← ok_or "invalid: missing expected digest"%string (args !! 3%nat);
  _ ← bail_if (negb (valid_digest expected))
        "invalid: expected digest must be 64 lowercase hexadecimal characters"%string;
  _ ← match reject_extra_args (drop 4 args) with Ok _ => Ok tt | Err e => Err (invalid e) end;
  Ok (job, decision, expected).
Definition decision_receipt (c : Config) (job : string) (decision : Decision) (expected : string) : Receipt :=
  mkReceipt 1 (agent c) job expected decision "recorded" true.
(** The private [decisions] directory, made if it is missing. *)
Definition decisions_directory (r : string) : W string :=
  d ← checked_directory r "decisions" true;
  match d with
  | Some d => mret d
  | None =>
      mode ← gets (masked 448 (* 0o700 *));
      _ ← map_err invalid_io (on_fs (in_directory r (sys_mkdir (below r "decisions") mode)));
      _ ← map_err invalid_io (on_fs (sys_open_dir r));
      _ ← map_err invalid_io (on_fs sys_sync);
      d ← checked_directory r "decisions" true;
      lift (ok_or "invalid: private decision directory disappeared"%string d)
  end.
Definition DRAIN : bytes := str_bytes "drain" ++ [10].
(** The wake-up is published before the decision. *)
Definition publish_wakeup (c : Config) (q : Queue) : W unit :=
  b ← read_at (q_root q) DRAIN_REQUEST 16;
  match b with
  | Some b => if bool_decide (b = DRAIN)
              then map_err (λ e, ("uncertain: drain wakeup publication did not finish: " ++ e)%string)
                     (sync_directory (root c))
              else fail "invalid: malformed drain request"%string
  | None => map_err (λ e, ("uncertain: drain wakeup publication did not finish: " ++ e)%string)
              (write_private (root c) DRAIN_REQUEST DRAIN)
  end.
Definition uncertain (e : string) : string := ("uncertain: " ++ e)%string.
Definition record_decision (c : Config) (q : Queue) (job : string) (decision : Decision) (expected : string) :
    W unit :=
  d ← decisions_directory (q_root q);
  found ← map_err limited (scan d MAX_DECISIONS (MAX_DECISIONS * MAX_RECEIPT_BYTES));
  _ ← throw_if (MAX_DECISIONS <=? blen (fst found)) "limit: decision receipt capacity reached";
  let receipt := decision_receipt c job decision expected in
  _ ← publish_wakeup c q;
  b ← lift (ok_or (invalid "receipt") (receipt_to_vec receipt));
  _ ← map_err (λ e, ("uncertain: decision publication did not finish: " ++ e)%string)
        (write_private (sub c "decisions") job b);
  _ ← activity_event c job (if bool_decide (decision = Deny) then "denied" else "approved") "";
  map_err uncertain (print_json (Some b)).
Definition decide_queue (c : Config) (q : Queue) (job : string) (decision : Decision) (expected : string) :
    W unit :=
  request ← Queue_request c q job;
  _ ← match request with
      | Some r => digest ← lift (request_digest r);
                  throw_if (negb (digest =? expected)%string)
                    "conflict: captured request changed; inspect it again"%string
      | None => mret tt
      end;
  existing ← read_receipt c (q_root q) job;
  match existing with
  | Some receipt =>
      _ ← throw_if (negb (rc_request_digest receipt =? expected)%string
                    || negb (bool_decide (rc_decision receipt = decision)))
            "conflict: job already has a different recorded decision";
      map_err uncertain (print_json (receipt_to_vec receipt))
  | None =>
      r ← lift (ok_or "not found: no captured pending request with this ID"%string request);
      _ ← no_running_claim q job;
      done ← map_err invalid (terminal c r);
      _ ← throw_if done "conflict: job already has a terminal result";
      approved ← legacy_approved q job;
      _ ← throw_if approved "conflict: job already has a legacy approval";
      _ ← throw_if (bool_decide (decision = Approve) && negb (needs_approval (rq_action_class r)))
            "invalid: this action class cannot be approved";
      record_decision c q job decision expected
  end.
Definition decide_command (c : Config) (args : list string) : W unit :=
  x ← lift (parse_decision args);
  let '(job, decision, expected) := x in
  queue ← Queue_open c;
  match queue with
  | None => fail "not found: worker queue is not initialized"%string
  | Some q => decide_queue c q job decision expected
  end.
End review.
