(* ===== verification/Capsule.v ===== *)
(** * The disposable capsule: [crates/tentaflake-worker/src/main.rs]

    The snapshot of the workspace, the completion marker, the import of the
    artifact archive, and the commands that create, watch and remove the
    container of a job. *)

From S2P Require Import Prelude RustStr Json Posix Budget PrivateStore Template Net Activity WorkerFs WorkerData Queue.

(** ** The snapshot *)

Definition set_snapshot_permissions (path : string) (source_mode : Z) : W unit :=
  sys ("set snapshot permissions for " ++ path) (sys_chmod path (snapshot_mode source_mode)).
(** One regular file. *)
Definition copy_file (d destination name : string) (s : stat) (budget : CopyBudget) : W CopyBudget :=
  source ← map_err (λ e, ("open snapshot file: " ++ io_text e)%string) (open_file_at d name);
  source ← lift (ok_or "open snapshot file"%string source);
  file ← create_file "create snapshot file" destination name (Z.land (i_mode (st_node s)) 511 (* 0o777 *));
  data ← sys "copy snapshot file" (sys_read_take (bytes_left budget + 1) source);
  _ ← sys "copy snapshot file" (sys_write file data);
  _ ← throw_if (bytes_left budget <? blen data) "snapshot byte limit exceeded";
  _ ← set_snapshot_permissions (below destination name) (i_mode (st_node s));
  mret (mkBudget (bytes_left budget - blen data) (entries_left budget)).
(** [levels]: how many directories may still be entered. *)
Fixpoint copy_directory_fd_at_depth (levels : nat) (d destination : string) (top : bool)
    (budget : CopyBudget) : W CopyBudget :=
  names ← list_fd_dir d (entries_left budget) top;
  foldM (λ budget name,
    _ ← throw_if (entries_left budget =? 0) "snapshot entry limit exceeded"%string;
    let budget := mkBudget (bytes_left budget) (entries_left budget - 1) in
    s ← fstatat_nofollow d name;
    let path := below destination name in
    match st_kind s with
    | Directory =>
        match levels with
        | O => fail "snapshot directory depth exceeds ceiling"%string
        | S levels =>
            _ ← create_dir "create snapshot directory" destination name;
            _ ← sys_plain (sys_chmod path 448 (* 0o700 *));
            child ← map_err (λ e, ("open snapshot directory: " ++ io_text e)%string) (open_dir_at d name);
            budget ← copy_directory_fd_at_depth levels child path false budget;
            _ ← set_snapshot_permissions path (i_mode (st_node s));
            mret budget
        end
    | Regular => copy_file d destination name s budget
    | Symlink =>
        target ← read_link_at d name;
        _ ← sys "copy snapshot symlink" (in_directory destination (sys_symlink target path));
        mret budget
    | Socket | Special => fail ("snapshot contains unsupported special file " ++ name)%string
    end) budget (sorted names).
Definition copy_directory_fd (d destination : string) (budget : CopyBudget) (top : bool) : W CopyBudget :=
  copy_directory_fd_at_depth MAX_TREE_DEPTH d destination top budget.

(** ** The container *)

Definition runtime_output (c : Config) (args : list string) : W output :=
  map_err (λ e, ("run " ++ runtime c ++ ": " ++ io_text e)%string) (run_output args).
Definition command_ok (args : list string) (operation : string) : W unit :=
  o ← map_err (λ e, (operation ++ ": " ++ io_text e)%string) (run_output args);
  throw_if (negb (o_success o)) (operation ++ " failed: " ++ trim (from_utf8_lossy (o_stderr o)))%string.
Definition remove_worker_container (container : string) : W unit :=
  command_ok ["rm"%string; "--force"%string; container] "remove disposable container".
Definition LABEL_FORMAT : string :=
  ("--format={{index .Config.Labels " ++ dq ++ "io.tentaflake.worker" ++ dq ++ "}}")%string.
Definition cleanup_existing_worker_container (c : Config) (container : string) : W unit :=
  listing ← runtime_output c ["ps"; "--all"; "--filter=name=" ++ container; "--format={{.Names}}"]%string;
  _ ← throw_if (negb (o_success listing))
        "cannot determine whether the owned worker container still exists";
  if negb (existsb (λ name, (trim name =? container)%string) (lines (from_utf8_lossy (o_stdout listing))))
  then mret tt
  else
    o ← map_err (λ e, ("inspect stale worker container: " ++ io_text e)%string)
          (run_output ["inspect"%string; LABEL_FORMAT; container]);
    _ ← throw_if (negb (o_success o)) ("cannot inspect ownership of worker container " ++ container)%string;
    _ ← throw_if (negb (trim (from_utf8_lossy (o_stdout o)) =? agent c)%string)
          ("refusing to remove unowned container " ++ container)%string;
    remove_worker_container container.

(** ** The completion marker *)

(** The next marker process; a script that ended has no socket pair. *)
Definition next_marker : W marker_child := λ h,
  match wh_markers h with
  | [] => (Ok (mkMarkerChild false false false []), h)
  | m :: l => (Ok m, set_markers l h)
  end.
Definition log_command (args : list string) : W unit := modify (λ h, set_commands (args :: wh_commands h) h).
(** The reading loop; a script that ended is the deadline. *)
Fixpoint marker_loop (deadline : option Z) (rounds : list marker_round) (b : bytes) (eof : bool) :
    W (option CompletionMarker) :=
  match rounds with
  | [] => mret None
  | r :: rounds =>
      late ← past deadline;
      if (late : bool) then mret None
      else
        let wait (b : bytes) (eof : bool) : W (option CompletionMarker) :=
          match mr_wait r with
          | Err _ => fail "wait for completion marker"%string
          | Ok (Some success) =>
              if eof then mret (if (success : bool) then parse_completion_marker b else None)
              else marker_loop deadline rounds b eof
          | Ok None => marker_loop deadline rounds b eof
          end in
        if eof then wait b true
        else match mr_read r with
             | MData [] => wait b true
             | MData d =>
                 let b := b ++ take_bytes (97 - blen b) d in
                 if 96 <? blen b then mret None else wait b false
             | MAgain => wait b false
             | MIntr => marker_loop deadline rounds b false
             | MFail => fail "read completion marker"%string
             end
  end.
Definition read_completion_marker (container : string) (deadline : option Z) : W (option CompletionMarker) :=
  late ← past deadline;
  if (late : bool) then mret None
  else
    child ← next_marker;
    _ ← throw_if (negb (mc_pair child) || negb (mc_nonblocking child)) "capture completion marker";
    _ ← log_command ["exec"%string; container; "head"%string; "-c"%string; "96"%string; COMPLETION_MARKER];
    _ ← throw_if (negb (mc_spawns child)) "read disposable completion marker";
    marker_loop deadline (mc_rounds child) [] false.

(** ** Artifacts *)

Fixpoint create_artifact_directories (levels : nat) (path : string) (parts : list string) (entries_left : Z) :
    W Z :=
  match parts with
  | [] => mret entries_left
  | part :: parts =>
      match levels with
      | O => fail "artifact directory depth exceeds ceiling"%string
      | S levels =>
          let next := below path part in
          r ← attempt (on_fs (sys_symlink_metadata next));
          match r with
          | Ok (_, m) =>
              _ ← throw_if (negb (bool_decide (i_kind m = Directory))) "artifact parent is not a directory";
              create_artifact_directories levels next parts entries_left
          | Err NotFound =>
              left ← lift (ok_or "artifact entry limit exceeded"%string (checked_sub entries_left 1));
              mode ← gets (masked 511);
              _ ← sys_plain (in_directory path (sys_mkdir next mode));
              _ ← sys_plain (sys_chmod next 488 (* 0o750 *));
              create_artifact_directories levels next parts left
          | Err e => fail (io_text e)
          end
      end
  end.
(** The locals of [import_artifact_tar]. *)
Record import : Type := mkImport { im_bytes : Z; im_entries : Z; im_tree : Z; im_count : Z }.
Definition import_file (destination : string) (names : list string) (e : tar_entry) (st : import) : W import :=
  _ ← throw_if (im_bytes st <? te_size e) "artifact byte limit exceeded";
  let dir := foldl below destination (removelast names) in
  let name := default EmptyString (last names) in
  tree ← create_artifact_directories MAX_TREE_DEPTH destination (removelast names) (im_tree st);
  tree ← lift (ok_or "artifact entry limit exceeded"%string (checked_sub tree 1));
  file ← create_file "create artifact file" dir name 384;
  _ ← sys "copy artifact file" (sys_write file (te_data e));
  _ ← throw_if (te_broken e) "copy artifact file";
  _ ← throw_if (negb (blen (te_data e) =? te_size e)) "artifact size changed during import";
  _ ← sys "chmod artifact file" (sys_chmod (below dir name) (artifact_mode (default 384 (te_mode e))));
  mret (mkImport (im_bytes st - blen (te_data e)) (im_entries st) tree (im_count st)).
Definition import_entry (destination : string) (st : import) (e : option tar_entry) : W import :=
  _ ← throw_if (im_entries st =? 0) "artifact entry limit exceeded";
  e ← lift (ok_or "read archive entry"%string e);
  p ← lift (ok_or "read artifact path"%string (te_path e));
  names ← lift (normalize_archive_path p);
  let st := mkImport (im_bytes st) (im_entries st - 1) (im_tree st) (im_count st + 1) in
  match names, te_kind e with
  | [], TarDir => mret st
  | [], _ => fail "artifact archive has an empty non-directory path"%string
  | _, TarDir =>
      tree ← create_artifact_directories MAX_TREE_DEPTH destination names (im_tree st);
      _ ← sys "chmod artifact directory" (sys_chmod (foldl below destination names) 488);
      mret (mkImport (im_bytes st) (im_entries st) tree (im_count st))
  | _, TarFile => import_file destination names e st
  | _, TarOther => fail "artifact archive contains a link or special file"%string
  end.
Definition import_artifact_tar (entries : option (list (option tar_entry))) (destination : string)
    (max_bytes max_entries : Z) : W Z :=
  entries ← lift (ok_or "read archive entries"%string entries);
  st ← foldM (import_entry destination) (mkImport max_bytes max_entries max_entries 0) entries;
  mret (im_count st).

Definition next_archive : W archive := λ h,
  match wh_archives h with
  | [] => (Ok (mkArchive false None None []), h)
  | a :: l => (Ok a, set_archives l h)
  end.
Definition archive_args (container : string) : list string :=
  ["exec"; container; "sh"; "-c";
   "test ! -d /workspace/artifacts || exec tar -C /workspace/artifacts -cf - ."]%string.
Definition export_outcome (success : bool) (imported : result string Z) (stderr : bytes) : ArtifactExport :=
  match success, imported with
  | true, Ok entries => mkExport (0 <? entries) None
  | false, _ => mkExport false (Some ("capsule archive command failed: " ++ trim (from_utf8_lossy stderr))%string)
  | true, Err e => mkExport false (Some ("artifact archive rejected: " ++ e)%string)
  end.
(** [destination] is [name] in the directory [dir]. *)
Definition export_artifacts_if_stable (c : Config) (container dir name : string) (marker : CompletionMarker)
    (deadline : option Z) : W (option ArtifactExport) :=
  let destination := below dir name in
  there ← exists_path destination;
  _ ← (if (there : bool) then sys "reset artifact staging" (sys_remove_dir_all destination) else mret tt);
  _ ← create_dir "create artifact staging" dir name;
  _ ← sys "chmod artifact staging" (sys_chmod destination 448);
  a ← next_archive;
  _ ← log_command (archive_args container);
  _ ← throw_if (negb (ar_spawns a)) "start artifact archive stream";
  imported ← attempt (import_artifact_tar (ar_entries a) destination (max_snapshot_bytes c) (max_snapshot_entries c));
  success ← lift (ok_or "wait for artifact archive stream"%string (ar_wait a));
  stderr ← lift (ok_or "read artifact archive stderr"%string (drain_bounded 8192 (ar_stderr a) []));
  let export := export_outcome success imported stderr in
  again ← read_completion_marker container deadline;
  let stable := bool_decide (again = Some marker) in
  _ ← (if negb stable || negb (ae_available export)
       then sys "discard unstable artifact staging" (sys_remove_dir_all destination) else mret tt);
  mret (if stable then Some export else None).

(** ** Watching the container *)

Record supervision : Type := mkSupervision {
  su_handled : option CompletionMarker; su_copied : bool; su_diagnostic : option string }.
(** How the loop ended: timed out, and the exit code. *)
Definition supervise_step (c : Config) (container job_root : string) (deadline : option Z) (st : supervision) :
    W (supervision + (supervision * bool * option Z)) :=
  state ← runtime_output c ["inspect"; "--format={{.State.Running}}"; container]%string;
  if negb (trim (from_utf8_lossy (o_stdout state)) =? "true")%string then
    status ← runtime_output c ["inspect"; "--format={{.State.ExitCode}}"; container]%string;
    mret (inr (st, false, parse_i32 (trim (from_utf8_lossy (o_stdout status)))))
  else
    marker ← read_completion_marker container deadline;
    st ← match marker with
         | Some m =>
             if bool_decide (su_handled st = Some m) then mret st
             else
               export ← export_artifacts_if_stable c container job_root "artifacts-export" m deadline;
               match export with
               | Some e =>
                   _ ← command_ok ["kill"; "--signal=USR1"; container]%string
                         "release completed disposable container";
                   mret (mkSupervision (Some m) (ae_available e) (ae_diagnostic e))
               | None => mret st
               end
         | None => mret st
         end;
    late ← past deadline;
    if (late : bool) then
      _ ← attempt (run_output ["kill"%string; container]);
      mret (inr (st, true, None))
    else mret (inl st).
(** Every round that goes on has read the clock. *)
Definition supervise (c : Config) (container job_root : string) (deadline : option Z) :
    W (supervision * bool * option Z) := λ h,
  loop (S (length (wh_now h))) EmptyString (supervise_step c container job_root deadline)
    (mkSupervision None false None) h.
