(* ===== verification/Worker.v ===== *)
(** * The worker's commands: [crates/tentaflake-worker/src/main.rs], [queue.rs]

    [execute], [recover], [process_ready], [ingest], [drain], [approve], [deny]
    and [run], over the queue of [Queue], the reviews of [Review] and the capsule
    of [Capsule]. *)

From S2P Require Import Prelude RustStr Json Posix Budget PrivateStore Template Net Activity WorkerFs WorkerData Queue Review Capsule.

Section worker.
Context `{Sha2} `{SerdeJson} `{WorkerCodec}.

(** ** Running a job *)

(** A guard: [release] runs on every exit.  [inl] leaves before the explicit
    [cleanup], whose failure is reported; then the destructor tries again. *)
Definition guarded {A} (release : W unit) (m : W (unit + A)) : W (unit + A) := λ h,
  let drop (r : result string (unit + A)) (h : whost) :=
    match release h with (_, h') => (r, h') end in
  match m h with
  | (Ok (inr a), h1) =>
      match release h1 with
      | (Ok _, h2) => (Ok (inr a), h2)
      | (Err e, h2) => drop (Err e) h2
      end
  | (r, h1) => drop r h1
  end.
Definition release_directory (path : string) : W unit := sys "clean job state" (sys_remove_dir_all path).

(** From the log to the published result. *)
Definition publish_execution (c : Config) (r : JobRequest) (container : string) (started : bool)
    (outcome : supervision * bool * option Z) : W JobResult :=
  let '(st, timed_out, exit_code) := outcome in
  let job_root := below (sub c "jobs") (rq_id r) in
  let artifact_export := below job_root "artifacts-export" in
  logs ← attempt (runtime_output c ["logs"%string; container]);
  let '(log, log_truncated) :=
    match logs with
    | Ok o => bounded_combined_log (o_stdout o) (o_stderr o) (max_log_bytes c)
    | Err e => bounded_combined_log [] (str_bytes e) (max_log_bytes c)
    end in
  let '(log, log_truncated) :=
    match su_diagnostic st with
    | Some d => append_bounded_log_section log log_truncated (max_log_bytes c) "artifact-export" (str_bytes d)
    | None => (log, log_truncated)
    end in
  let results := sub c "results" in
  let staging := below results (tmp_name (rq_id r)) in
  _ ← create_dir "create result staging" results (tmp_name (rq_id r));
  _ ← harden_shared_directory staging;
  mode ← gets (masked 438 (* 0o666 *));
  file ← sys "write job log" (in_directory staging (sys_create (below staging "job.log") mode));
  _ ← sys "write job log" (sys_write file log);
  let artifacts_available :=
    su_copied st && negb timed_out && bool_decide (mk_exit_code <$> su_handled st = exit_code) in
  _ ← (if artifacts_available then
         _ ← harden_shared_directory artifact_export;
         sys "publish artifact staging"
           (in_directory staging (sys_move artifact_export (below staging "artifacts")))
       else
         there ← exists_path artifact_export;
         _ ← (if (there : bool) then sys "discard incomplete artifacts" (sys_remove_dir_all artifact_export)
              else mret tt);
         create_dir "create artifact staging" staging "artifacts");
  now ← on_fs unix_seconds;
  let result := job_result r timed_out started exit_code artifacts_available log_truncated now in
  _ ← write_json staging "result.json" (result_to_pretty result);
  _ ← publish_result results (tmp_name (rq_id r)) (rq_id r);
  mret result.

(** The part of [execute] the container's guard covers. *)
Definition run_container (c : Config) (r : JobRequest) (container : string) : W (unit + JobResult) :=
  started ← attempt (command_ok ["start"%string; container] "start disposable container");
  outcome ← (if is_ok started then
               now ← read_instant;
               supervise c container (below (sub c "jobs") (rq_id r))
                 ((λ t, t + rq_timeout_seconds r) <$> now)
             else mret (mkSupervision None false None, false, None));
  result ← publish_execution c r container (is_ok started) outcome;
  mret (inr result).
(** The part the job directory's guard covers; [inl]: the snapshot was refused. *)
Definition run_job (c : Config) (ws : string) (r : JobRequest) : W (unit + JobResult) :=
  let job_root := below (sub c "jobs") (rq_id r) in
  let snapshot := below job_root "input" in
  _ ← sys_plain (sys_chmod job_root 448 (* 0o700 *));
  _ ← create_dir "create snapshot" job_root "input";
  _ ← set_snapshot_permissions snapshot 448;
  copied ← attempt (copy_directory_fd ws snapshot (mkBudget (max_snapshot_bytes c) (max_snapshot_entries c)) true);
  match copied with
  | Err e =>
      _ ← finish_without_run c r "rejected" ("snapshot rejected: " ++ e);
      mret (inl tt)
  | Ok _ =>
      let container := container_name c (rq_id r) in
      _ ← cleanup_existing_worker_container c container;
      args ← lift (ok_or "backend was validated before execution"%string (create_args c r snapshot));
      _ ← command_ok args "create disposable container";
      guarded (remove_worker_container container) (run_container c r container)
  end.
Definition execute (c : Config) (ws : string) (r : JobRequest) : W unit :=
  let job_root := below (sub c "jobs") (rq_id r) in
  _ ← create_dir "create job state" (sub c "jobs") (rq_id r);
  finished ← guarded (release_directory job_root) (run_job c ws r);
  match finished with
  | inl _ => mret tt
  | inr result =>
      _ ← audit c (rq_id r) "completed" (Some (rq_action_class r)) (rs_status result);
      activity_event c (rq_id r) "execution"
        (if is_none (rs_exit_code result) then "unknown"%string else rs_status result)
  end.

(** ** Recovery *)

(** A leftover of [write_private] in [directory]. *)
Definition staged_job (directory name : string) : option string :=
  staged ← strip_prefix "." name ≫= strip_suffix ".new";
  if (directory =? "pending")%string then strip_suffix ".json" staged else Some staged.
Definition remove_staged (c : Config) (directory name : string) : W unit :=
  if is_some_and (λ job, valid_identifier job 64) (to_str name ≫= staged_job directory) then
    x ← sys_plain (sys_symlink_metadata (below (sub c directory) name));
    _ ← throw_if (negb (bool_decide (i_kind (snd x) = Regular)))
          "incomplete queue staging is not a regular file";
    sys_plain (sys_unlink (below (sub c directory) name))
  else mret tt.
Definition recover_staged (c : Config) (directory : string) : W unit :=
  skip ← (if (directory =? "decisions")%string then
            r ← attempt (on_fs (sys_symlink_metadata (sub c directory)));
            mret (match r with Err NotFound => true | _ => false end)
          else mret false);
  if (skip : bool) then mret tt
  else
    _ ← open_path_no_symlinks (sub c directory);
    l ← sys_plain (sys_names (sub c directory));
    _ ← for_each (remove_staged c directory) l;
    sync_directory (sub c directory).
Definition remove_interrupted (parent name : string) : W unit :=
  found ← present "" (sys_symlink_metadata (below parent name));
  if (found : bool) then
    _ ← open_path_no_symlinks (below parent name);
    _ ← sys "remove interrupted staging" (sys_remove_dir_all (below parent name));
    sync_directory parent
  else mret tt.
Definition recover_claim (c : Config) (name : string) : W unit :=
  match to_str name ≫= strip_suffix ".json" with
  | None => mret tt
  | Some job =>
      r ← read_request c "running" job;
      _ ← cleanup_existing_worker_container c (container_name c job);
      _ ← remove_interrupted (sub c "jobs") job;
      _ ← remove_interrupted (sub c "results") (tmp_name job);
      done ← terminal c r;
      _ ← (if negb done then
             finish_without_run c r "interrupted"
               "execution outcome is unknown; review before submitting a new job ID"
           else mret tt);
      _ ← audit c job "recovered" (Some (rq_action_class r)) "abandoned claim retired without dispatch replay";
      retire c "running" r
  end.
Definition recover (c : Config) : W unit :=
  _ ← for_each (recover_staged c) ["pending"; "approvals"; "decisions"]%string;
  d ← open_path_no_symlinks (sub c "running");
  found ← scan d (max_queue_entries c) (max_queue_bytes c);
  for_each (recover_claim c) (fst found).

(** ** The queue *)

Definition read_pending (c : Config) (job : string) : W JobRequest := read_request c "pending" job.
Definition pending_path (c : Config) (job : string) : string := below (sub c "pending") (json_name job).
(** [a || b]: the first that exists ends the inspection. *)
Fixpoint any_exists (paths : list string) : W bool :=
  match paths with
  | [] => mret false
  | p :: paths => b ← exists_path p; if (b : bool) then mret true else any_exists paths
  end.
Definition job_exists (c : Config) (job : string) : W bool :=
  any_exists [pending_path c job; below (sub c "running") (json_name job); below (sub c "approvals") job;
              below (sub c "results") job; below (sub c "jobs") job; below (sub c "decisions") job;
              below (sub c "reservations") job].

(** Dispatch a claimed job, or recover it when an old worker left a snapshot. *)
Definition dispatch_claimed (c : Config) (ws : string) (r : JobRequest) : W unit :=
  there ← sys_plain (sys_try_exists (below (sub c "jobs") (rq_id r)));
  if (there : bool) then recover c
  else
    done ← attempt (execute c ws r);
    match done with
    | Err e => _ ← activity_event c (rq_id r) "execution-uncertain" ""; fail e
    | Ok _ => retire c "running" r
    end.
Definition process_request (c : Config) (ws : string) (r : JobRequest) : W unit :=
  done ← terminal c r;
  if (done : bool) then retire c "pending" r
  else
    decision ← decision_for c r;
    if bool_decide (decision = Some Deny) then
      _ ← finish_without_run c r "denied" "host operator denied the request";
      retire c "pending" r
    else if bool_decide (rq_action_class r = Forbidden) then
      _ ← finish_without_run c r "rejected" "action class is always forbidden";
      retire c "pending" r
    else
      ok ← (if bool_decide (decision = Some Approve) then mret true else approved c (rq_id r));
      if needs_approval (rq_action_class r) && negb ok then mret tt
      else
        _ ← claim c r;
        dispatch_claimed c ws r.
Definition process_entry (c : Config) (ws name : string) : W unit :=
  match strip_suffix ".json" name with
  | None | Some EmptyString => mret tt
  | Some stem =>
      job ← lift (ok_or "invalid pending job filename"%string (to_str stem));
      r ← read_pending c job;
      process_request c ws r
  end.
Definition process_ready (c : Config) (ws : string) : W unit :=
  d ← open_path_no_symlinks (sub c "pending");
  found ← scan d (max_queue_entries c) (max_queue_bytes c);
  for_each (process_entry c ws) (sorted (fst found)).

(** The request a file of the inbox holds, or why it is refused. *)
Definition inbox_request (c : Config) (name : string) (content : bytes) : result string JobRequest :=
  r ← ok_or "invalid request JSON"%string (request_from_slice content);
  _ ← validate_request c r;
  _ ← bail_if (negb (name =? json_name (rq_id r))%string) "request filename must equal <id>.json"%string;
  Ok r.
Definition capture (c : Config) (inbox name : string) (content : bytes) (r : JobRequest) (usage : Z * Z) :
    W (Z * Z) :=
  _ ← (if (max_queue_entries c <=? fst usage)
          || (saturating_sub (max_queue_bytes c) (snd usage) <? blen content)
       then
         _ ← audit c (rq_id r) "queue-overload" (Some (rq_action_class r))
               "private queue exceeds entry or byte ceiling";
         fail "private worker queue is full; request remains in the inbox"%string
       else mret tt);
  _ ← write_private (sub c "pending") (json_name (rq_id r)) content;
  _ ← unlink_at inbox name;
  _ ← audit c (rq_id r)
        (if needs_approval (rq_action_class r) then "approval-required" else "request-accepted")
        (Some (rq_action_class r)) "request moved into private worker state";
  mret (fst usage + 1, snd usage + blen content).
Definition refuse_duplicate (c : Config) (inbox name : string) (r : JobRequest) : W unit :=
  there ← sys_plain (sys_try_exists (pending_path c (rq_id r)));
  _ ← (if (there : bool) then _ ← read_pending c (rq_id r); mret tt else mret tt);
  _ ← audit c (rq_id r) "request-rejected" (Some (rq_action_class r)) "job id already exists";
  unlink_at inbox name.
Definition ingest_entry (c : Config) (inbox : string) (usage : Z * Z) (name : string) : W (Z * Z) :=
  if negb (ends_with ".json" name) || (69 <? str_len name) then mret usage
  else
    file ← map_err (λ e, ("open inbox entry: " ++ io_text e)%string) (open_file_at inbox name);
    match file with
    | None =>
        _ ← audit c "unknown" "request-rejected" None "inbox entry is a symlink";
        mret usage
    | Some file =>
        m ← sys_plain (sys_fstat file);
        _ ← throw_if (negb (bool_decide (i_kind m = Regular))) "inbox request must be a regular file";
        content ← sys "read inbox entry" (read_bounded file (max_request_bytes c));
        match inbox_request c name content with
        | Err e =>
            _ ← audit c "unknown" "request-rejected" None e;
            _ ← unlink_at inbox name;
            mret usage
        | Ok r =>
            there ← job_exists c (rq_id r);
            if (there : bool) then _ ← refuse_duplicate c inbox name r; mret usage
            else capture c inbox name content r usage
        end
    end.
Definition ingest (c : Config) (inbox : string) : W unit :=
  found ← attempt (scan inbox (max_inbox_entries c) (max_inbox_bytes c));
  match found with
  | Err e =>
      _ ← attempt (E := string) (audit c "unknown" "queue-overload" None "inbox exceeds entry or byte ceiling");
      fail e
  | Ok (names, _) =>
      u ← usage c;
      _ ← foldM (ingest_entry c inbox) u (sorted names);
      mret tt
  end.

(** ** Commands *)

Definition drain (c : Config) : W unit :=
  _ ← check_retained c;
  _ ← consume_drain_request c;
  _ ← recover c;
  ws ← open_path_no_symlinks (workspace c);
  _ ← process_ready c ws;
  control ← attempt (open_dir_at ws ".tentaflake-worker");
  match control with
  | Err NotFound => mret tt
  | Err e => fail ("open worker control directory: " ++ io_text e)%string
  | Ok control =>
      inbox ← attempt (open_dir_at control "inbox");
      match inbox with
      | Err NotFound => mret tt
      | Err e => fail ("open worker inbox: " ++ io_text e)%string
      | Ok inbox =>
          _ ← ingest c inbox;
          process_ready c ws
      end
  end.
Definition approve (c : Config) (job : string) : W unit :=
  r ← read_pending c job;
  done ← terminal c r;
  _ ← throw_if done "job is already terminal; drain the queue to retire its stale request";
  _ ← throw_if (negb (needs_approval (rq_action_class r)) || bool_decide (rq_action_class r = Forbidden))
        "this action class cannot be approved";
  decision ← decision_for c r;
  _ ← throw_if (bool_decide (decision = Some Deny)) "conflict: job has a recorded denial";
  _ ← (if is_none decision then write_private (sub c "approvals") job APPROVED else mret tt);
  _ ← audit c job "approved" (Some (rq_action_class r)) "host operator approval recorded";
  ws ← open_path_no_symlinks (workspace c);
  process_ready c ws.
Definition deny (c : Config) (job : string) : W unit :=
  r ← read_pending c job;
  done ← terminal c r;
  _ ← throw_if done "job is already terminal; drain the queue to retire its stale request";
  decision ← decision_for c r;
  _ ← throw_if (bool_decide (decision = Some Approve)) "conflict: job has a recorded approval";
  _ ← finish_without_run c r "denied" "host operator denied the request";
  _ ← retire c "pending" r;
  audit c job "denied" (Some (rq_action_class r)) "host operator denied request".

Definition enter_worker_group (c : Config) : W unit :=
  h ← get;
  action ← lift (worker_group_action (w_euid (wh_world h)) (wh_gid h) (container_gid c));
  match action with
  | Keep => mret tt
  | Adopt =>
      _ ← throw_if (negb (wh_setegid h)) ("adopt worker group " ++ pretty (container_gid c))%string;
      modify (set_gid (container_gid c))
  end.
Definition private_directory (c : Config) (name : string) : W unit :=
  _ ← map_err (λ e, ("create " ++ sub c name ++ ": " ++ io_text e)%string)
        (create_dir_all EmptyString (components (state_dir c) ++ [name]));
  _ ← open_path_no_symlinks (sub c name);
  sys ("chmod " ++ sub c name) (sys_chmod (sub c name) 448).
Definition ensure_state_layout (c : Config) : W unit :=
  _ ← for_each (private_directory c) ["pending"; "running"; "approvals"; "jobs"; "reservations"]%string;
  _ ← map_err (λ e, ("create " ++ sub c "results" ++ ": " ++ io_text e)%string)
        (create_dir_all EmptyString (components (state_dir c) ++ ["results"%string]));
  harden_shared_directory (sub c "results").

(** [run] after the configuration was read. *)
Definition run_config (c : Config) (command : string) (args : list string) : W unit :=
  _ ← lift (validate_config c);
  if (command =? "requests")%string then _ ← lift (reject_extra_args args); requests c
  else if (command =? "decide")%string then decide_command c args
  else
    _ ← enter_worker_group c;
    _ ← ensure_state_layout c;
    _ ← Queue.lock c;
    if (command =? "drain")%string then _ ← lift (reject_extra_args args); drain c
    else if (command =? "approve")%string then job ← lift (required_job args); approve c job
    else if (command =? "deny")%string then job ← lift (required_job args); deny c job
    else fail ("unknown command: " ++ command)%string.
Definition load_config (path : string) : W Config :=
  meta ← sys ("open " ++ path) (sys_open_follow path);
  b ← sys ("parse " ++ path) (sys_read_file path);
  c ← lift (ok_or ("parse " ++ path)%string (config_reader config_defaults b));
  _ ← (if is_some (activity c) then lift (require_root_config meta) else mret tt);
  mret c.
Definition USAGE : string :=
  "usage: tentaflake-worker --config FILE drain|requests|approve JOB|deny JOB|decide JOB approve|deny --expected-digest SHA256".
(** [args]: the arguments after the program's name. *)
Definition run (args : list string) : W unit :=
  match args with
  | flag :: args =>
      _ ← throw_if (negb (flag =? "--config")%string) USAGE;
      path ← lift (ok_or "--config requires a path"%string (head args));
      command ← lift (ok_or "missing drain, approve, or deny command"%string (head (tail args)));
      c ← load_config path;
      run_config c command (tail (tail args))
  | [] => fail USAGE
  end.
(** One invocation of the program. *)
Definition main (args : list string) : W unit := process (run args).
End worker.
