(* ===== verification/WorkerSpec.v ===== *)
(** * What a worker command may do to the queue

    The durable facts of a queue are its keys: the captured request, the running
    claim, the approval, the recorded decision, the receipt and the result of a
    job.  [quiet] code changes none of them, whatever calls fail; the few
    functions that change one are specified here one by one. *)

From stdpp Require Import sorting.
From S2P Require Import Prelude RustStr Json Posix Budget PrivateStore Template Net Activity WorkerFs WorkerData Queue Review Capsule Worker.

(** ** Keys *)

Inductive key : Type :=
| KPending (job : string) | KRunning (job : string) | KApproval (job : string)
| KDecision (job : string) | KReceipt (job : string) | KResult (job : string).
#[export] Instance key_eq_dec : EqDecision key.
Proof. solve_decision. Defined.
Definition kjob (k : key) : string :=
  match k with
  | KPending j | KRunning j | KApproval j | KDecision j | KReceipt j | KResult j => j
  end.
Definition kdir (k : key) : string :=
  match k with
  | KPending _ => "pending" | KRunning _ => "running" | KApproval _ => "approvals"
  | KDecision _ => "decisions" | KReceipt _ => "reservations" | KResult _ => "results"
  end.
Definition krest (k : key) : string :=
  match k with
  | KPending j | KRunning j => json_name j
  | KApproval j | KDecision j | KReceipt j => j
  | KResult j => below j "result.json"
  end.
Definition kvalid (k : key) : Prop := valid_identifier (kjob k) 64 = true.
Definition kpath (rt : string) (k : key) : string := below (below rt (kdir k)) (krest k).
Definition apath (rt : string) : string := below rt AUDIT.
(** A path that names no key. *)
Definition hidden (rt p : string) : Prop := ∀ k, kvalid k → p ≠ kpath rt k.

(** ** Paths *)

Definition slashless (s : string) : Prop := contains_byte 47 s = false.
Lemma slashless_app s t : slashless (s +:+ t) ↔ slashless s ∧ slashless t.
Proof.
  unfold slashless, contains_byte. rewrite str_bytes_app, existsb_app. apply orb_false_iff.
Qed.
Lemma slash_split a b x y : slashless a → slashless b →
  a +:+ String "/" x = b +:+ String "/" y → a = b ∧ x = y.
Proof.
  revert b. induction a as [|ch a IH]; intros [|ch' b] Ha Hb E; simpl in E.
  - by injection E.
  - injection E as <- _. done.
  - injection E as -> _. done.
  - injection E as -> E. unfold slashless, contains_byte in *. simpl in Ha, Hb.
    apply orb_false_iff in Ha as [_ Ha], Hb as [_ Hb]. destruct (IH b Ha Hb E) as [-> ->]. done.
Qed.
Lemma below_inj rt x y : below rt x = below rt y → x = y.
Proof. unfold below. intros E. apply append_inj_r in E. by injection E. Qed.
Lemma below_below rt a b : below (below rt a) b = below rt (a +:+ String "/" b).
Proof. unfold below. by rewrite append_assoc. Qed.
Lemma below_split rt a b x y : slashless a → slashless b →
  below (below rt a) x = below (below rt b) y → a = b ∧ x = y.
Proof. rewrite !below_below. intros Ha Hb E%below_inj. by apply slash_split. Qed.

Lemma identifier_first job : valid_identifier job 64 = true →
  ∃ a s, job = String a s ∧ (is_ascii_lowercase (byte_of a) || is_ascii_digit (byte_of a)) = true.
Proof.
  unfold valid_identifier. intros H. reflect. destruct job as [|a s]; [done|]. exists a, s. split; [done|].
  simpl in H0. apply andb_true_iff in H0 as [H0 _]. unfold identifier_byte in H0. simpl in H0.
  by rewrite orb_false_r in H0.
Qed.
Lemma identifier_slashless job : valid_identifier job 64 = true → slashless job.
Proof.
  unfold valid_identifier, slashless, contains_byte. intros H. reflect. clear H H1.
  apply existsb_false. intros b Hb. apply Z.eqb_neq. intros <-.
  apply forallb_forall with (x := (default 0%nat (fst <$> list_find (λ x, x = 47) (str_bytes job)), 47)) in H0.
  - unfold identifier_byte in H0. simpl in H0. by rewrite andb_false_r in H0.
  - apply list_elem_of_In. destruct (list_find (λ x, x = 47) (str_bytes job)) as [[i y]|] eqn:E.
    + apply list_find_Some in E as (E & -> & _). apply list_elem_of_lookup. exists i.
      rewrite list_lookup_imap, E. done.
    + apply list_find_None in E. rewrite Forall_forall in E. naive_solver.
Qed.
Lemma kdir_slashless k : slashless (kdir k).
Proof. by destruct k. Qed.
(** A key's name in its directory does not start with a dot. *)
Lemma krest_first k : kvalid k → ∃ a s, krest k = String a s ∧ a ≠ "."%char ∧ a ≠ "/"%char.
Proof.
  intros (a & s & E & Ha)%identifier_first. destruct k; simpl in *; subst; unfold json_name, below; simpl;
    eexists _, _; (split; [reflexivity|]); split; intros ->; done.
Qed.

Lemma hidden_flat rt x : slashless x → hidden rt (below rt x).
Proof.
  intros Hx k Hk E. unfold kpath in E. rewrite below_below in E. apply below_inj in E.
  rewrite E in Hx. apply slashless_app in Hx as [_ Hx]. done.
Qed.
Lemma hidden_dot rt d x : slashless d → hidden rt (below (below rt d) (String "." x)).
Proof.
  intros Hd k Hk E. apply below_split in E as [_ E]; [|done|apply kdir_slashless].
  destruct (krest_first k Hk) as (a & s & E' & Ha & _). congruence.
Qed.
Lemma hidden_jobs rt x : hidden rt (below (below rt "jobs") x).
Proof.
  intros k Hk E. apply below_split in E as [E _]; [|done|apply kdir_slashless]. by destruct k.
Qed.
Lemma hidden_audit rt : hidden rt (apath rt).
Proof. by apply hidden_flat. Qed.
(** The key paths are distinct. *)
Lemma kpath_inj rt k k' : kvalid k → kvalid k' → kpath rt k = kpath rt k' → k = k'.
Proof.
  intros Hk Hk' E. apply below_split in E as [Ed Er]; [|apply kdir_slashless..].
  assert (∀ s t u : string, s +:+ u = t +:+ u → s = t) as Hsuf.
  { intros s t u E'. apply (f_equal rev_str) in E'. rewrite !rev_str_app in E'. apply append_inj_r in E'.
    apply (f_equal rev_str) in E'. by rewrite !rev_str_involutive in E'. }
  destruct k, k'; simpl in Ed, Er; try discriminate; f_equal; try exact Er; by eapply Hsuf.
Qed.

(** Directories whose whole tree is hidden. *)
Definition hidden_tree (rt d : string) : Prop := ∀ k, kvalid k → within d (kpath rt k) = false.
Lemma tail_of_Some d p r : tail_of d p = Some r ↔ p = d +:+ r ∧ (r = EmptyString ∨ ∃ s, r = String "/" s).
Proof.
  unfold tail_of. destruct (strip_prefix d p) as [r'|] eqn:E.
  - apply strip_prefix_Some in E as ->. split.
    + destruct (str_is_empty r' || starts_with "/" r') eqn:E'; [|done]. intros [= <-]. split; [done|].
      apply orb_true_iff in E' as [E'|E']; [left; by apply String.eqb_eq|right].
      unfold starts_with in E'. destruct (strip_prefix "/" r') as [s|] eqn:E2; [|done].
      apply strip_prefix_Some in E2 as ->. by exists s.
    + intros [E' Hr]. apply append_inj_r in E' as <-.
      assert ((str_is_empty r' || starts_with "/" r') = true) as ->; [|done].
      destruct Hr as [->|[s ->]]; [done|]. apply orb_true_iff. by right.
  - split; [done|]. intros [-> _]. assert (strip_prefix d (d +:+ r) = Some r) as E'; [|by rewrite E' in E].
    by apply strip_prefix_Some.
Qed.
Lemma within_spec d p : within d p = true ↔ ∃ r, tail_of d p = Some r.
Proof. unfold within. destruct (tail_of d p); simpl; split; [eauto|done|done|by intros [? ?]]. Qed.
Lemma hidden_tree_dot rt d x : slashless d → hidden_tree rt (below (below rt d) (String "." x)).
Proof.
  intros Hd k Hk. destruct (within _ _) eqn:E; [|done]. apply within_spec in E as [r [E _]%tail_of_Some].
  exfalso. apply (hidden_dot rt d (x +:+ r) Hd k Hk). rewrite E. unfold below. by rewrite !append_assoc.
Qed.
Lemma hidden_tree_jobs rt x : hidden_tree rt (below (below rt "jobs") x).
Proof.
  intros k Hk. destruct (within _ _) eqn:E; [|done]. apply within_spec in E as [r [E _]%tail_of_Some].
  exfalso. apply (hidden_jobs rt (x +:+ r) k Hk). rewrite E. unfold below. by rewrite !append_assoc.
Qed.
Lemma append_empty s : s +:+ EmptyString = s.
Proof. induction s as [|a s IH]; [done|]. change (String a (s +:+ EmptyString) = String a s). by rewrite IH. Qed.
Lemma within_below d r : within d (below d r) = true.
Proof. apply within_spec. exists (String "/" r). apply tail_of_Some. eauto. Qed.
Lemma hidden_tree_hidden rt d x : hidden_tree rt d → hidden rt (below d x).
Proof. intros Hd k Hk E. specialize (Hd k Hk). rewrite <-E in Hd. by rewrite within_below in Hd. Qed.
Lemma hidden_tree_self rt d : hidden_tree rt d → hidden rt d.
Proof.
  intros Hd k Hk E. specialize (Hd k Hk). rewrite <-E in Hd.
  assert (within d d = true) as H; [|by rewrite H in Hd]. apply within_spec. exists EmptyString. apply tail_of_Some.
  split; [|by left]. by rewrite append_empty.
Qed.
Lemma hidden_tree_below rt d x : hidden_tree rt d → hidden_tree rt (below d x).
Proof.
  intros Hd k Hk. destruct (within _ _) eqn:E; [|done]. apply within_spec in E as [r [E _]%tail_of_Some].
  specialize (Hd k Hk). rewrite E in Hd. replace (below d x +:+ r) with (below d (x +:+ r)) in Hd.
  - by rewrite within_below in Hd.
  - unfold below. by rewrite !append_assoc.
Qed.

(** ** Quiet changes of the file system *)

Definition shape (n : inode) : fkind * bytes := (i_kind n, i_data n).
Definition kview (rt : string) (w : world) (k : key) : option (fkind * bytes) :=
  shape ∘ snd <$> lookup_inode w (kpath rt k).
(** The audit log, job directories and unpublished results. *)
Inductive scratch (rt : string) : string → Prop :=
| scratch_audit : scratch rt (apath rt)
| scratch_job x : scratch rt (below (below rt "jobs") x)
| scratch_result x : scratch rt (below (below rt "results") (String "." x)).
(** Scratch files are not files of keys, and the audit log is no link. *)
Record sound (rt : string) (w : world) : Prop := {
  so_scratch q i k : scratch rt q → kvalid k → w_names w !! q = Some i → w_names w !! kpath rt k ≠ Some i;
  so_audit i n : w_names w !! apath rt = Some i → w_inodes w !! i = Some n → i_kind n ≠ Symlink;
}.
Lemma scratch_hidden rt q : scratch rt q → hidden rt q.
Proof. intros []; [apply hidden_audit|apply hidden_jobs|by apply hidden_dot]. Qed.
(** Job directories and unpublished results, with everything below them. *)
Inductive workdir (rt : string) : string → Prop :=
| workdir_job x : workdir rt (below (below rt "jobs") x)
| workdir_result x : workdir rt (below (below rt "results") (String "." x)).
Lemma workdir_scratch rt q : workdir rt q → scratch rt q.
Proof. intros []; constructor. Qed.
Lemma workdir_hidden rt q : workdir rt q → hidden rt q.
Proof. intros. by apply scratch_hidden, workdir_scratch. Qed.
Lemma workdir_tree rt q : workdir rt q → hidden_tree rt q.
Proof. intros []; [apply hidden_tree_jobs|by apply hidden_tree_dot]. Qed.
Lemma workdir_below rt q x : workdir rt q → workdir rt (below q x).
Proof.
  intros [y|y].
  - replace (below _ x) with (below (below rt "jobs") (below y x)); [constructor|].
    unfold below. by rewrite !append_assoc.
  - replace (below _ x) with (below (below rt "results") (String "." (below y x))); [constructor|].
    unfold below. by rewrite !append_assoc.
Qed.
Lemma workdir_audit rt q : workdir rt q → q ≠ apath rt.
Proof. intros [x|x] E; rewrite below_below in E; by apply below_inj in E. Qed.

(** [w] is [w0] after changes that no key sees. *)
Record qworld (rt : string) (w0 w : world) : Prop := {
  qw_wf0 : wf w0;
  qw_wf : wf w;
  qw_sound : sound rt w;
  qw_next : w_next_ino w0 ≤ w_next_ino w;
  qw_names k : kvalid k → w_names w !! kpath rt k = w_names w0 !! kpath rt k;
  qw_view k : kvalid k → kview rt w k = kview rt w0 k;
}.

Lemma qworld_refl rt w : wf w → sound rt w → qworld rt w w.
Proof. intros. by split. Qed.
Lemma qworld_trans rt a b c : qworld rt a b → qworld rt b c → qworld rt a c.
Proof.
  intros [A1 A2 A3 A4 A5 A6] [B1 B2 B3 B4 B5 B6]. split; try done; try lia; intros k Hk.
  - by rewrite B5, A5.
  - by rewrite B6, A6.
Qed.
Lemma sound_same rt w w' : same_fs w w' → sound rt w → sound rt w'.
Proof. intros [S1 S2 _ _ _ _] [A B]. split; rewrite S1, ?S2; [apply A|apply B]. Qed.
Lemma qworld_same rt w0 w w' : qworld rt w0 w → same_fs w w' → qworld rt w0 w'.
Proof.
  intros [A1 A2 A3 A4 A5 A6] S. split; try done.
  - by rewrite <-S.
  - by eapply sound_same.
  - by rewrite (sf_next _ _ S).
  - intros k Hk. rewrite (sf_names _ _ S). by apply A5.
  - intros k Hk. rewrite <-A6 by done. unfold kview. by rewrite (lookup_inode_same w w').
Qed.
(** Files made since [w0] are no key's. *)
Lemma qworld_fresh rt w0 w i k :
  qworld rt w0 w → w_next_ino w0 ≤ i → kvalid k → w_names w !! kpath rt k ≠ Some i.
Proof. intros [A1 A2 A3 A4 A5 A6] Hi Hk. rewrite A5 by done. intros E%A1. lia. Qed.

(** Names that are no keys are removed, or given to files that have a name. *)
Lemma qworld_set_names rt w0 w f :
  qworld rt w0 w →
  (∀ k, kvalid k → f (w_names w) !! kpath rt k = w_names w !! kpath rt k) →
  (∀ q i, f (w_names w) !! q = Some i → w_names w !! q = Some i
     ∨ q ≠ apath rt ∧ ∃ a, w_names w !! a = Some i ∧ (scratch rt q → scratch rt a)) →
  qworld rt w0 (set_names f w).
Proof.
  intros [A1 A2 A3 A4 A5 A6] Hk Hf. split; simpl; try done.
  - intros q i [?|(_ & a & ? & _)]%Hf; by eapply A2.
  - split; simpl.
    + intros q i k Hq Hv Hi. rewrite Hk by done. apply Hf in Hi as [Hi|(_ & a & Hi & Ha)].
      * exact (so_scratch _ _ A3 q i k Hq Hv Hi).
      * exact (so_scratch _ _ A3 a i k (Ha Hq) Hv Hi).
    + intros i n [Hi|[? _]]%Hf; [|done]. by apply (so_audit _ _ A3).
  - intros k Hv. by rewrite Hk, A5.
  - intros k Hv. rewrite <-A6 by done. unfold kview, lookup_inode. simpl. by rewrite Hk.
Qed.
(** An inode that is no key's, or whose content stays. *)
Lemma qworld_upd_inode rt w0 w i g :
  qworld rt w0 w → (∀ n, i_kind (g n) = i_kind n) →
  (∀ n, i_data (g n) = i_data n) ∨ (∀ k, kvalid k → w_names w !! kpath rt k ≠ Some i) →
  qworld rt w0 (set_inodes (alter g i) w).
Proof.
  intros [A1 A2 A3 A4 A5 A6] Hg Hi. split; simpl; try done.
  - destruct A3 as [B1 B2]. split; [done|]. simpl. intros j n Hj.
    destruct (decide (i = j)) as [->|]; [|rewrite lookup_alter_ne by done; by apply B2].
    rewrite lookup_alter_eq. intros (n' & Hn' & ->)%fmap_Some_1. rewrite Hg. by eapply B2.
  - intros k Hk. rewrite <-A6 by done. unfold kview, lookup_inode. simpl.
    destruct (w_names w !! kpath rt k) as [j|] eqn:E; [|done]. simpl.
    destruct (decide (i = j)) as [->|]; [|by rewrite lookup_alter_ne].
    rewrite lookup_alter_eq. destruct Hi as [Hd|Hn]; [|by destruct (Hn k Hk)].
    destruct (w_inodes w !! j) as [n|]; [|done]. simpl. unfold shape. by rewrite Hg, Hd.
Qed.
(** A new file under a name that is no key. *)
Lemma qworld_alloc rt w0 w p x :
  qworld rt w0 w → hidden rt p → (p = apath rt → i_kind x ≠ Symlink) →
  qworld rt w0 (set_next_ino (w_next_ino w + 1)
    (set_names (<[p := w_next_ino w]>) (set_inodes (<[w_next_ino w := x]>) w))).
Proof.
  intros [A1 A2 A3 A4 A5 A6] Hp Hx.
  assert (∀ k, kvalid k → <[p := w_next_ino w]> (w_names w) !! kpath rt k = w_names w !! kpath rt k) as Hk.
  { intros k Hk. rewrite lookup_insert_ne; [done|]. by apply Hp. }
  split; simpl; try done; try lia.
  - intros q i. simpl. rewrite lookup_insert. case_decide; intros Hq; simplify_eq; [lia|].
    specialize (A2 q i Hq). lia.
  - split; simpl.
    + intros q i k Hq Hv Hi. rewrite Hk by done. rewrite lookup_insert in Hi. case_decide.
      * injection Hi as <-. intros E%A2. lia.
      * by eapply so_scratch.
    + intros i n Hi. rewrite lookup_insert in Hi. case_decide.
      * injection Hi as <-. rewrite lookup_insert_eq. intros [= <-]. by apply Hx.
      * specialize (A2 _ _ Hi). rewrite lookup_insert_ne by lia. by eapply so_audit.
  - intros k Hv. by rewrite Hk, A5.
  - intros k Hv. rewrite <-A6 by done. unfold kview, lookup_inode. simpl. rewrite Hk by done.
    destruct (w_names w !! kpath rt k) as [j|] eqn:E; [|done]. simpl. specialize (A2 _ _ E).
    by rewrite lookup_insert_ne by lia.
Qed.

(** ** Code that keeps an invariant *)

Definition stays {S E A} (I : S → Prop) (m : M S E A) (Q : A → Prop) : Prop :=
  ∀ s, I s → wp m (λ a s', I s' ∧ Q a) (λ _ s', I s') s.
Definition any {A} (_ : A) : Prop := True.

Section stays_rules.
Context {S E : Type} (I : S → Prop).
Lemma stays_ret {A} (a : A) (Q : A → Prop) : Q a → stays (E := E) I (mret a) Q.
Proof. intros H s Hs. by apply wp_ret. Qed.
Lemma stays_fail {A} (e : E) (Q : A → Prop) : stays I (fail e) Q.
Proof. intros s Hs. by apply wp_fail. Qed.
Lemma stays_mono {A} (m : M S E A) (Q Q' : A → Prop) : stays I m Q → (∀ a, Q a → Q' a) → stays I m Q'.
Proof. intros H HQ s Hs. eapply wp_mono; [by apply H| |done]. naive_solver. Qed.
Lemma stays_any {A} (m : M S E A) (Q : A → Prop) : stays I m Q → stays I m any.
Proof. intros H. by eapply stays_mono. Qed.
Lemma stays_bind {A B} (m : M S E A) (k : A → M S E B) Q R :
  stays I m Q → (∀ a, Q a → stays I (k a) R) → stays I (m ≫= k) R.
Proof.
  intros H Hk s Hs. apply wp_bind. eapply wp_mono; [by apply H| |done].
  intros a s' [? ?]. by apply Hk.
Qed.
Lemma stays_then {A B} (m : M S E A) (k : A → M S E B) R :
  stays I m any → (∀ a, stays I (k a) R) → stays I (m ≫= k) R.
Proof. intros H Hk. eapply stays_bind; [exact H|]. intros a _. apply Hk. Qed.
Lemma stays_lift {A} (r : result E A) (Q : A → Prop) : (∀ a, r = Ok a → Q a) → stays I (lift r) Q.
Proof. intros H s Hs. apply wp_lift; [|done]. intros a Ha. auto. Qed.
Lemma stays_throw_if b (e : E) Q : (b = false → Q tt) → stays I (throw_if b e) Q.
Proof. intros H s Hs. apply wp_throw_if; [done|]. auto. Qed.
Lemma stays_gets {A} (f : S → A) Q : (∀ s, I s → Q (f s)) → stays (E := E) I (gets f) Q.
Proof. intros H s Hs. apply wp_gets. auto. Qed.
Lemma stays_get : stays (E := E) I get any.
Proof. intros s Hs. by apply wp_gets. Qed.
Lemma stays_modify f : (∀ s, I s → I (f s)) → stays (E := E) I (modify f) any.
Proof. intros H s Hs. apply wp_modify. split; [auto|done]. Qed.
Lemma stays_map_err {E' A} (f : E' → E) (m : M S E' A) Q : stays I m Q → stays I (map_err f m) Q.
Proof. intros H s Hs. apply wp_map_err. by apply H. Qed.
Lemma stays_attempt {E' A} (m : M S E' A) (Q : A → Prop) :
  stays I m Q → stays (E := E) I (attempt m) (λ r, ∀ a, r = Ok a → Q a).
Proof.
  intros H s Hs. apply wp_attempt. eapply wp_mono; [by apply H| |]; simpl.
  - intros a s' [? ?]. split; [done|]. by intros ? [= <-].
  - by intros.
Qed.
Lemma stays_foldM {A B} (f : B → A → M S E B) (Q : B → Prop) l : ∀ b,
  Q b → (∀ b x, x ∈ l → Q b → stays I (f b x) Q) → stays I (foldM f b l) Q.
Proof.
  induction l as [|x l IH]; intros b Hb Hf; cbn [foldM]; [by apply stays_ret|].
  eapply stays_bind; [apply Hf; [set_solver|done]|]. intros b' Hb'. apply IH; [done|].
  intros. apply Hf; [set_solver|done].
Qed.
Lemma stays_loop {A B} fuel oof (body : A → M S E (A + B)) : ∀ a,
  (∀ a, stays I (body a) any) → stays I (loop fuel oof body a) any.
Proof.
  induction fuel as [|fuel IH]; intros a Hb; cbn [loop]; [apply stays_fail|].
  apply stays_then; [done|]. intros [a'|b]; [by apply IH|by apply stays_ret].
Qed.
Lemma stays_wp {A} (m : M S E A) Q s : stays I m Q → I s → wp m (λ a s', I s' ∧ Q a) (λ _ s', I s') s.
Proof. intros H Hs. by apply H. Qed.
End stays_rules.

(** ** System calls *)

(** No key names the inode, in [w0] or after quiet changes. *)
Definition keyless (rt : string) (w0 : world) (i : Z) : Prop := ∀ k, kvalid k → w_names w0 !! kpath rt k ≠ Some i.
Lemma keyless_now rt w0 w i k : qworld rt w0 w → keyless rt w0 i → kvalid k → w_names w !! kpath rt k ≠ Some i.
Proof. intros Q Hi Hk. rewrite (qw_names _ _ _ Q) by done. by apply Hi. Qed.
Lemma keyless_fresh rt w0 w i : qworld rt w0 w → w_next_ino w ≤ i → keyless rt w0 i.
Proof. intros [A1 A2 A3 A4 A5 A6] Hi k Hk E%A1. lia. Qed.
Lemma keyless_scratch rt w0 w q i : qworld rt w0 w → scratch rt q → w_names w !! q = Some i → keyless rt w0 i.
Proof. intros Q Hq Hi k Hk. rewrite <-(qw_names _ _ _ Q) by done. by eapply so_scratch; [apply Q|..]. Qed.

Section calls.
Context (rt : string) (w0 : world).
Abbreviation I := (qworld rt w0).

Lemma stays_reader {E A} (m : M world E A) R : reader m R → stays I m (λ a, ∃ w, I w ∧ R w a).
Proof.
  intros H w Hw. wp_apply (H w).
  - intros a w' [S HR]. split; [by eapply qworld_same|]. by exists w.
  - intros e w' S. by eapply qworld_same.
Qed.
Lemma stays_syscall {A} partial (m : Sys A) Q :
  (∀ k w, I w → I (partial k w)) → stays I m Q → stays I (syscall partial m) Q.
Proof.
  intros Hp Hm w Hw. assert (∀ fs, I (set_faults fs w)) as Hf.
  { intros fs. eapply qworld_same; [done|apply same_fs_faults]. }
  apply wp_syscall; intros; [by apply Hp|by apply Hm].
Qed.
Lemma stays_simple {A} (m : Sys A) Q : stays I m Q → stays I (simple m) Q.
Proof. apply stays_syscall. auto. Qed.
Lemma stays_in_directory {A} d (m : Sys A) Q : stays I m Q → stays I (in_directory d m) Q.
Proof. intros H w Hw. unfold wp, in_directory. destruct (is_directory w d); [by apply H|done]. Qed.
Lemma stays_new_fd i (Q : fd → Prop) : (∀ f, fd_ino f = i → Q f) → stays I (new_fd i) Q.
Proof. intros HQ w Hw. split; [eapply qworld_same; [done|apply same_fs_fd]|by apply HQ]. Qed.
Lemma stays_alloc p mode : hidden rt p → stays I (alloc p mode) (λ f, keyless rt w0 (fd_ino f)).
Proof.
  intros Hp w Hw. split.
  - eapply qworld_same; [|apply same_fs_fd]. by apply qworld_alloc.
  - eapply keyless_fresh; [done|]. simpl. lia.
Qed.
Lemma stays_mkdir p mode : hidden rt p → stays I (sys_mkdir p mode) any.
Proof.
  intros Hp. apply stays_simple. intros w Hw. apply run_wp. destruct (lookup_inode w p); [done|].
  split; [by apply qworld_alloc|done].
Qed.
Lemma stays_create_new p mode : hidden rt p →
  stays I (sys_create_new p mode) (λ f, keyless rt w0 (fd_ino f)).
Proof.
  intros Hp. apply stays_simple. intros w Hw. apply run_wp. destruct (lookup_inode w p); [done|].
  by apply (stays_alloc p mode Hp w).
Qed.
Lemma stays_open_create p mode : hidden rt p → stays I (sys_open_create p mode) any.
Proof.
  intros Hp. apply stays_simple. intros w Hw. apply run_wp.
  destruct (lookup_inode w p) as [[i n]|]; [|by apply (stays_any _ _ _ (stays_alloc p mode Hp) w)].
  destruct (i_kind n); try done; by apply (stays_new_fd i any).
Qed.
Lemma lookup_name w p i n : lookup_inode w p = Some (i, n) → w_names w !! p = Some i ∧ w_inodes w !! i = Some n.
Proof.
  unfold lookup_inode. intros H. apply bind_Some in H as (j & Hj & H).
  by apply bind_Some in H as (m & Hm & [= <- <-]).
Qed.
Lemma stays_create p mode : scratch rt p → stays I (sys_create p mode) (λ f, keyless rt w0 (fd_ino f)).
Proof.
  intros Hp. apply stays_simple. intros w Hw. apply run_wp.
  destruct (lookup_inode w p) as [[i n]|] eqn:E;
    [|by apply (stays_alloc p mode (scratch_hidden _ _ Hp) w)].
  apply lookup_name in E as [Hi Hn]. pose proof (keyless_scratch _ _ _ _ _ Hw Hp Hi) as Hk.
  assert (I (upd_data i (λ _, []) w)) as Hu.
  { apply qworld_upd_inode; [done..|]. right. intros k. by eapply keyless_now. }
  destruct (i_kind n); try done; (apply (stays_new_fd i (λ f, keyless rt w0 (fd_ino f))); [|done]);
    by intros f ->.
Qed.
Lemma stays_open_append mode : stays I (sys_open_append (apath rt) mode) (λ f, keyless rt w0 (fd_ino f)).
Proof.
  apply stays_simple. intros w Hw. apply run_wp.
  destruct (lookup_inode w (apath rt)) as [[i n]|] eqn:E;
    [|by apply (stays_alloc (apath rt) mode (hidden_audit rt) w)].
  pose proof E as [Hi Hn]%lookup_name.
  assert (resolve_path 40 w (apath rt) = Ok (apath rt)) as ->.
  { cbn [resolve_path]. rewrite E. pose proof (so_audit _ _ (qw_sound _ _ _ Hw) i n Hi Hn).
    by destruct (i_kind n). }
  rewrite E. case_bool_decide; [done|].
  apply (stays_new_fd i (λ f, keyless rt w0 (fd_ino f))); [|done].
  intros f ->. eapply keyless_scratch; [done|constructor|done].
Qed.
Lemma stays_write f b : keyless rt w0 (fd_ino f) → stays I (sys_write f b) any.
Proof.
  intros Hf. assert (∀ g w, I w → I (upd_data (fd_ino f) g w)) as Hu.
  { intros g w Hw. apply qworld_upd_inode; [done..|]. right. intros k. by eapply keyless_now. }
  apply stays_syscall; [auto|]. intros w Hw. apply run_wp. split; [by apply Hu|done].
Qed.
Lemma stays_append f b : keyless rt w0 (fd_ino f) → stays I (sys_append f b) any.
Proof.
  intros Hf. assert (∀ g w, I w → I (upd_data (fd_ino f) g w)) as Hu.
  { intros g w Hw. apply qworld_upd_inode; [done..|]. right. intros k. by eapply keyless_now. }
  apply stays_syscall; [auto|]. intros w Hw. apply run_wp. split; [by apply Hu|done].
Qed.
Lemma stays_chmod p mode : stays I (sys_chmod p mode) any.
Proof.
  apply stays_simple. intros w Hw. apply run_wp. destruct (w_names w !! p); [|done].
  split; [|done]. apply qworld_upd_inode; [done..|by left].
Qed.
Lemma stays_flock f excl : stays I (sys_flock f excl) any.
Proof.
  apply stays_simple. intros w Hw. apply run_wp. unfold sys_flock. destruct (existsb _ _); [done|].
  split; [|done]. destruct Hw as [A1 A2 A3 A4 A5 A6]. split; try done. by destruct A3.
Qed.
Lemma qworld_delete w p : I w → hidden rt p → I (set_names (delete p) w).
Proof.
  intros Hw Hp. apply qworld_set_names; [done| |].
  - intros k Hk. rewrite lookup_delete_ne; [done|]. by apply Hp.
  - intros q i [_ ?]%lookup_delete_Some. by left.
Qed.
Lemma stays_unlink p : hidden rt p → stays I (sys_unlink p) any.
Proof.
  intros Hp. apply stays_simple. intros w Hw. apply run_wp.
  destruct (lookup_inode w p) as [[i n]|]; [|done]. case_bool_decide; [done|].
  split; [by apply qworld_delete|done].
Qed.
Lemma stays_symlink t p : workdir rt p → stays I (sys_symlink t p) any.
Proof.
  intros Hp. apply stays_simple. intros w Hw. apply run_wp. destruct (w_names w !! p); [done|].
  split; [|done]. apply qworld_alloc; [done|by apply workdir_hidden|]. by intros ?%workdir_audit.
Qed.
Lemma qworld_delete_all w ps : I w → (∀ p, p ∈ ps → hidden rt p) → I (set_names (delete_all ps) w).
Proof.
  intros Hw Hps. apply qworld_set_names; [done| |].
  - intros k Hk. induction ps as [|p ps IH]; [done|]. simpl.
    rewrite lookup_delete_ne; [apply IH; set_solver|]. apply (Hps p); [set_solver|done].
  - intros q i Hq. left. induction ps as [|p ps IH]; [done|]. simpl in Hq.
    apply lookup_delete_Some in Hq as [_ Hq]. apply IH; [set_solver|done].
Qed.
Lemma subtree_within w d p : p ∈ subtree w d → within d p = true.
Proof.
  unfold subtree. rewrite merge_sort_Permutation. intros H%list_elem_of_In%filter_In. destruct H as [_ H].
  unfold strictly_within, starts_with in H. destruct (strip_prefix (d ++ "/") p) as [r|] eqn:E; [|done].
  apply strip_prefix_Some in E as ->. rewrite append_assoc. apply (within_below d r).
Qed.
Lemma stays_remove_dir_all d : hidden_tree rt d → stays I (sys_remove_dir_all d) any.
Proof.
  intros Hd. assert (∀ p, within d p = true → hidden rt p) as Hh.
  { intros p Hp k Hk ->. by rewrite (Hd k Hk) in Hp. }
  apply stays_syscall.
  - intros n w Hw. apply qworld_delete_all; [done|]. intros p Hp. eapply Hh, subtree_within.
    by eapply subseteq_take.
  - intros w Hw. apply run_wp. destruct (lookup_inode w d) as [[i n]|]; [|done].
    destruct (i_kind n); try done; (split; [|done]).
    + apply qworld_set_names; [done| |].
      * intros k Hk. destruct (w_names w !! kpath rt k) as [j|] eqn:E.
        -- apply map_lookup_filter_Some. split; [done|]. by apply Hd.
        -- apply map_lookup_filter_None. by left.
      * intros q j [? _]%map_lookup_filter_Some. by left.
    + apply qworld_delete; [done|]. by apply hidden_tree_self.
Qed.
End calls.

(** ** Readers *)

(** A call that only computes a result from the world. *)
Lemma reader_simple {A} (m : Sys A) (R : world → A → Prop) :
  (∀ w, wp m (λ a w', same_fs w w' ∧ R w a) (λ _ w', same_fs w w') w) →
  (∀ fs w a, R (set_faults fs w) a → R w a) → reader (simple m) R.
Proof.
  intros Hm HR w. apply wp_simple; intros fs; [apply same_fs_faults|].
  wp_apply (Hm (set_faults fs w)).
  - intros a w' [S Ha]. split; [exact (transitivity (same_fs_faults fs w) S)|by eapply HR].
  - intros e w' S. exact (transitivity (same_fs_faults fs w) S).
Qed.
Lemma reader_stat p : reader (sys_stat p) (λ w s, lookup_inode w p = Some (st_ino s, st_node s)).
Proof.
  apply reader_simple; [|by intros ? ? ? H; exact H]. intros w. apply run_wp.
  destruct (lookup_inode w p) as [[i n]|]; [|done]. by split.
Qed.
Lemma reader_open_at p : reader (sys_open_at p) (λ w r,
  ∀ f, r = Some f → ∃ n, lookup_inode w p = Some (fd_ino f, n) ∧ i_kind n ≠ Symlink).
Proof.
  apply reader_simple; [|by intros ? ? ? H; exact H]. intros w. apply run_wp.
  destruct (lookup_inode w p) as [[i n]|] eqn:E; [|done].
  destruct (i_kind n) eqn:K; (split; [done || apply same_fs_fd|]); intros f Hf; simplify_eq;
    exists n; by rewrite K.
Qed.
Lemma reader_names d : reader (sys_names d) (λ w l, l = dir_names w d).
Proof. apply reader_simple; [done|by intros ? ? ? H; exact H]. Qed.
Lemma reader_try_exists p : reader (sys_try_exists p) (λ w b, b = is_ok (follow 40 w p)).
Proof.
  apply reader_simple; [|by intros fs w a; rewrite follow_faults]. intros w. apply run_wp.
  by destruct (follow 40 w p) as [x|[]].
Qed.
Lemma reader_readlink n p : reader (sys_readlink n p) (λ _ _, True).
Proof.
  apply reader_simple; [|by intros ? ? ? H; exact H]. intros w. apply run_wp.
  destruct (lookup_inode w p) as [[i x]|]; [|done]. by case_bool_decide.
Qed.
Lemma resolve_dirs_faults fs w parts : ∀ stack,
  resolve_dirs (set_faults fs w) stack parts = resolve_dirs w stack parts.
Proof.
  induction parts as [|part parts IH]; intros stack; [done|]. cbn [resolve_dirs].
  change (lookup_inode (set_faults fs w)) with (lookup_inode w). rewrite !IH. done.
Qed.
Lemma reader_openat2 p : reader (sys_openat2 p) (λ w d, resolve_dirs w [] (components p) = Some d).
Proof.
  apply reader_simple; [|by intros fs w a; rewrite resolve_dirs_faults]. intros w. apply run_wp.
  destruct (_ || _); [done|]. by destruct (resolve_dirs w [] (components p)).
Qed.
Lemma reader_bind {A B} (m : Sys A) (k : A → Sys B) R (R' : world → B → Prop) :
  reader m R → (∀ a, reader (k a) R') → (∀ w w' b, same_fs w w' → R' w' b → R' w b) → reader (m ≫= k) R'.
Proof.
  intros Hm Hk HR w. apply wp_bind. wp_apply (Hm w); [|done].
  intros a w1 [S1 _]. wp_apply (Hk a w1).
  - intros b w2 [S2 Hb]. split; [by etrans|by eapply HR].
  - intros e w2 S2. by etrans.
Qed.
Lemma reader_open_components parts : ∀ current, reader (open_components current parts) (λ _ d,
  d = foldl below current parts ∧ ".."%string ∉ parts).
Proof.
  induction parts as [|part parts IH]; intros current; cbn [open_components].
  - intros w. apply wp_ret. split; [done|]. split; [done|set_solver].
  - destruct (String.eqb_spec part ".."); [intros w; by apply wp_fail|].
    eapply reader_bind; [apply reader_open_dir| |done]. intros f. eapply reader_mono; [apply IH|].
    intros w' d [-> ?]. split; [done|]. set_solver.
Qed.
Lemma reader_fallback p : reader (open_path_no_symlinks_fallback p) (λ _ d,
  d = canonical (components p) ∧ ".."%string ∉ components p).
Proof.
  unfold open_path_no_symlinks_fallback. destruct (negb _); [intros w; by apply wp_fail|].
  eapply reader_bind; [apply reader_sync|intros _; apply reader_open_components|done].
Qed.
Lemma reader_read_bounded f max : reader (read_bounded f max) (λ w d,
  ∃ x, w_inodes w !! fd_ino f = Some x ∧ d = i_data x).
Proof.
  intros w. unfold read_bounded. apply wp_bind. wp_apply (reader_read_take (max + 1) f w); [|done].
  intros d w1 [S1 (x & Hx & ->)]. apply wp_bind. apply wp_throw_if; intros Hl; [done|].
  apply wp_ret. split; [done|]. exists x. split; [done|]. apply take_bounded.
  apply Z.ltb_ge in Hl. done.
Qed.
Lemma reader_any {E A} (m : M world E A) R : reader m R → reader m (λ _ _, True).
Proof. intros H. by eapply reader_mono. Qed.
Lemma reader_read_file p : reader (sys_read_file p) (λ _ _, True).
Proof.
  apply reader_simple; [|by intros ? ? ? H; exact H]. intros w. apply run_wp.
  destruct (follow 40 w p) as [x|e]; [|done]. by destruct (i_kind x).
Qed.

(** ** Hosts *)

Definition quiet_command (args : list string) : Prop := head args ≠ Some "create"%string.
Record qrel (rt : string) (h0 h : whost) : Prop := {
  qr_world : qworld rt (wh_world h0) (wh_world h);
  qr_commands : ∃ l, wh_commands h = l ++ wh_commands h0 ∧ Forall quiet_command l;
  qr_blind : wh_blind h0 = [] → wh_blind h = [];
}.
Definition healthy (rt : string) (h : whost) : Prop := wf (wh_world h) ∧ sound rt (wh_world h).
Lemma qrel_refl rt h : healthy rt h → qrel rt h h.
Proof. intros []. split; [by apply qworld_refl|by exists []|done]. Qed.
Lemma qrel_trans rt a b c : qrel rt a b → qrel rt b c → qrel rt a c.
Proof.
  intros [A1 (l & A2 & F) A3] [B1 (l' & B2 & F') B3]. split.
  - by eapply qworld_trans.
  - exists (l' ++ l). rewrite B2, A2, app_assoc. split; [done|]. by apply Forall_app.
  - auto.
Qed.
Lemma qrel_healthy rt h0 h : qrel rt h0 h → healthy rt h.
Proof. intros [[] _ _]. by split. Qed.
Lemma qrel_world rt h0 h h' :
  qrel rt h0 h → wh_world h' = wh_world h → wh_commands h' = wh_commands h → wh_blind h' = wh_blind h →
  qrel rt h0 h'.
Proof. intros [A B C] E1 E2 E3. split; rewrite ?E1, ?E2, ?E3; done. Qed.

Section hosts.
Context (rt : string) (h0 : whost).
Abbreviation J := (qrel rt h0).
Lemma stays_on_fs {E A} (m : M world E A) Q : stays (qworld rt (wh_world h0)) m Q → stays J (on_fs m) Q.
Proof.
  intros H h Hh. apply wp_zoom. wp_apply (H (wh_world h) (qr_world _ _ _ Hh)).
  - intros a w' [Hw ?]. split; [|done]. destruct Hh. by split.
  - intros e w' Hw. destruct Hh. by split.
Qed.
Lemma stays_exists p : stays J (exists_path p) any.
Proof.
  intros h Hh. unfold wp, exists_path. destruct (wh_blind h) as [|b l] eqn:E; [done|].
  split; [|done]. destruct Hh as [A B C]. split; [done..|]. intros Hb. rewrite C in E by done. done.
Qed.
Lemma qrel_command args h : J h → quiet_command args → J (set_commands (args :: wh_commands h) h).
Proof.
  intros [A (l & B & F) C] Hq. split; [done| |done]. exists (args :: l). simpl. rewrite B. split; [done|].
  by constructor.
Qed.
Lemma stays_run_output args : quiet_command args → stays J (run_output args) any.
Proof.
  intros Hq h Hh. unfold wp, run_output. simpl. pose proof (qrel_command args h Hh Hq) as H.
  destruct (wh_outputs h) as [|[o|e] l]; [done|split; [|done]|]; by eapply qrel_world.
Qed.
Lemma stays_log_command args : quiet_command args → stays J (log_command args) any.
Proof. intros Hq. apply stays_modify. intros h Hh. by apply qrel_command. Qed.
Lemma stays_read_instant : stays J read_instant any.
Proof.
  intros h Hh. unfold wp, read_instant. destruct (wh_now h); (split; [|done]); [done|by eapply qrel_world].
Qed.
Lemma stays_next_marker : stays J next_marker any.
Proof.
  intros h Hh. unfold wp, next_marker. destruct (wh_markers h); (split; [|done]); [done|by eapply qrel_world].
Qed.
Lemma stays_next_archive : stays J next_archive any.
Proof.
  intros h Hh. unfold wp, next_archive. destruct (wh_archives h); (split; [|done]); [done|by eapply qrel_world].
Qed.
Lemma stays_zoom_env {E A} (m : M env E A) : stays J (zoom wh_env set_wenv m) any.
Proof.
  intros h Hh. unfold wp, zoom. destruct (m (wh_env h)) as [[a|e] x]; [split; [|done]|]; by eapply qrel_world.
Qed.
Lemma stays_stdout f : stays (E := io_error) J (modify (λ h, set_stdout (f h) h)) any.
Proof. apply stays_modify. intros h Hh. by eapply qrel_world. Qed.
End hosts.
