(* ===== verification/QueueSpec.v ===== *)
(** * The functions of the worker, key by key

    Which functions of [Queue], [Review], [Capsule] and [Worker] are quiet, and
    what the others do to the keys of the queue, under any schedule of failures. *)

From stdpp Require Import sorting.
From S2P Require Import Prelude RustStr Json Posix Budget PrivateStore Template Net Activity WorkerFs WorkerData Queue Review Capsule Worker WorkerSpec.

(** ** Automation *)

Create HintDb quiet.
#[export] Hint Resolve reader_stat reader_open_at reader_names reader_try_exists reader_readlink
  reader_openat2 reader_fallback reader_read_bounded reader_read_file reader_open_read reader_open_dir
  reader_fstat reader_read_take reader_symlink_metadata reader_sync reader_unix_seconds reader_open_follow
  stays_exists stays_run_output stays_log_command stays_read_instant stays_next_marker stays_next_archive
  stays_zoom_env stays_stdout stays_chmod stays_flock stays_get : quiet.
#[export] Hint Resolve hidden_audit hidden_jobs workdir_hidden workdir_tree workdir_below workdir_job
  workdir_scratch stays_mkdir stays_unlink stays_symlink stays_remove_dir_all : quiet.
#[export] Hint Extern 1 (slashless _) => reflexivity : quiet.
#[export] Hint Extern 1 (quiet_command _) => discriminate : quiet.
#[export] Hint Extern 2 (hidden _ (below (below _ _) (staging_name _))) => apply hidden_dot; reflexivity : quiet.
#[export] Hint Extern 2 (hidden _ (below (below _ _) (tmp_name _))) => apply hidden_dot; reflexivity : quiet.
#[export] Hint Extern 2 (workdir _ (below _ (tmp_name _))) => apply workdir_result : quiet.
#[export] Hint Extern 2 (hidden _ (below _ _)) => apply hidden_flat; reflexivity : quiet.

(** One step of a proof that code is quiet; facts are dropped. *)
Ltac quiet1 :=
  lazymatch goal with
  | |- stays _ (mret _) _ => apply stays_ret; exact I
  | |- stays _ (fail _) _ => apply stays_fail
  | |- stays _ (mbind _ _) _ => apply stays_then; [|intros ?]
  | |- stays _ (lift _) _ => apply stays_lift; intros; exact I
  | |- stays _ (throw_if _ _) _ => apply stays_throw_if; intros; exact I
  | |- stays _ (gets _) _ => apply stays_gets; intros; exact I
  | |- stays _ (map_err _ _) _ => apply stays_map_err
  | |- stays _ (attempt _) _ => eapply stays_any, stays_attempt
  | |- stays _ (foldM _ _ _) _ => apply stays_foldM; [exact I|intros ? ? ? _]
  | |- stays _ (for_each _ _) _ => unfold for_each
  | |- stays _ (sys _ _) _ => unfold sys
  | |- stays _ (sys_plain _) _ => unfold sys_plain
  | |- stays _ (on_fs _) _ => apply stays_on_fs
  | |- stays _ (in_directory _ _) _ => apply stays_in_directory
  | |- stays _ (match ?x with _ => _ end) _ => destruct x
  | |- stays _ (let '_ := ?x in _) _ => destruct x
  end.
Ltac quiet_leaf :=
  first
  [ solve [eauto with quiet nocore]
  | eapply stays_any, stays_reader; solve [eauto with quiet nocore]
  | eapply stays_any; solve [eauto with quiet nocore] ].
Ltac quiet := repeat first [quiet1 | quiet_leaf].

(** A property of the keys that [w] and [w0] share. *)
Lemma shared_view rt w0 w k i n :
  qworld rt w0 w → kvalid k → lookup_inode w (kpath rt k) = Some (i, n) → kview rt w0 k = Some (shape n).
Proof. intros Q Hk E. rewrite <-(qw_view _ _ _ Q) by done. unfold kview. by rewrite E. Qed.

Section quiet.
Context (rt : string) (h0 : whost).
Abbreviation J := (qrel rt h0).

Lemma q_open_path p : stays J (open_path_no_symlinks p) any.
Proof. unfold open_path_no_symlinks. quiet. Qed.
Lemma q_open_dir_at d n : stays J (open_dir_at d n) any.
Proof. unfold open_dir_at. quiet. Qed.
Lemma q_open_file_at d n : stays J (open_file_at d n) any.
Proof. unfold open_file_at. quiet. Qed.
Lemma q_list_fd_dir d m t : stays J (list_fd_dir d m t) any.
Proof. unfold list_fd_dir. quiet. Qed.
Lemma q_fstatat d n : stays J (fstatat_nofollow d n) any.
Proof. unfold fstatat_nofollow. quiet. Qed.
Lemma q_read_link_at d n : stays J (read_link_at d n) any.
Proof. unfold read_link_at. quiet. Qed.
#[local] Hint Resolve q_open_path q_open_dir_at q_open_file_at q_list_fd_dir q_fstatat q_read_link_at : quiet.
Lemma q_sync_directory p : stays J (sync_directory p) any.
Proof. unfold sync_directory. quiet. Qed.
Lemma q_unlink_at d n : hidden rt (below d n) → stays J (unlink_at d n) any.
Proof. intros. unfold unlink_at. quiet. Qed.
Lemma q_create_dir what d n : hidden rt (below d n) → stays J (create_dir what d n) any.
Proof. intros. unfold create_dir. quiet. Qed.
Lemma q_create_file what d n mode : hidden rt (below d n) →
  stays J (create_file what d n mode) (λ f, keyless rt (wh_world h0) (fd_ino f)).
Proof.
  intros. unfold create_file. apply stays_then; [quiet|]. intros m. unfold sys. quiet.
  by apply stays_create_new.
Qed.
Lemma q_present {A} what (m : Sys A) R : reader m R → stays J (present what m) any.
Proof. intros. unfold present. quiet. Qed.
Lemma q_present_unlink what p : hidden rt p → stays J (present what (sys_unlink p)) any.
Proof. intros. unfold present. quiet. Qed.
Lemma q_read_private p max : stays J (read_private p max) any.
Proof. unfold read_private. quiet. Qed.
#[local] Hint Resolve q_sync_directory q_read_private : quiet.
Lemma q_scan d e b : stays J (scan d e b) any.
Proof. unfold scan, queue_entry. quiet. Qed.
#[local] Hint Resolve q_scan : quiet.
Lemma q_usage c : stays J (usage c) any.
Proof. unfold usage, usage_of. quiet. Qed.
End quiet.
#[export] Hint Resolve q_open_path q_open_dir_at q_open_file_at q_list_fd_dir q_fstatat q_read_link_at
  q_sync_directory q_unlink_at q_create_dir q_present q_present_unlink q_read_private q_scan q_usage : quiet.

(** ** Canonical paths *)

Definition clean (part : string) : Prop := part ≠ EmptyString ∧ part ≠ "."%string ∧ slashless part.
Lemma split_slashless s : Forall slashless (split_char "/" s).
Proof.
  induction s as [|a s IH]; simpl; [by repeat constructor|].
  destruct (Ascii.eqb_spec a "/") as [->|Ha]; [by constructor|].
  destruct (split_char "/" s) as [|p ps] eqn:E; [by apply split_char_ne in E|].
  inversion IH; subst. constructor; [|done]. unfold slashless, contains_byte in *.
  cbn [str_bytes existsb]. apply orb_false_iff. split; [|done]. apply Z.eqb_neq. intros Eb. apply Ha.
  rewrite <-(ascii_of_byte_of a), <-Eb. done.
Qed.
Lemma components_clean p : Forall clean (components p).
Proof.
  apply Forall_forall. intros part H%list_elem_of_In%filter_In. destruct H as [Hin Hp]. apply andb_true_iff in Hp as [H1 H2].
  split_and!.
  - intros ->. done.
  - intros ->. done.
  - pose proof (split_slashless p) as Hf. rewrite Forall_forall in Hf. apply Hf. by apply list_elem_of_In.
Qed.
Lemma canonical_snoc l x : canonical (l ++ [x]) = below (canonical l) x.
Proof. unfold canonical. by rewrite foldl_app. Qed.
Lemma components_canonical l : Forall clean l → components (canonical l) = l.
Proof.
  induction l as [|x l IH] using rev_ind; intros Hf; [done|].
  apply Forall_app in Hf as [Hf Hx]. inversion Hx as [|? ? (H1 & H2 & H3) _]; subst.
  rewrite canonical_snoc. unfold below, components.
  change (canonical l ++ "/" ++ x)%string with (canonical l +:+ String "/" x).
  rewrite split_char_sep, List.filter_app. change (List.filter _ (split_char "/" (canonical l))) with (components (canonical l)).
  rewrite IH by done. rewrite (split_char_none "/" x) by done. simpl.
  destruct (str_is_empty x) eqn:E; [by apply String.eqb_eq in E|].
  by destruct (String.eqb_spec x ".").
Qed.

(** What the theorems ask of a configuration: its directories are written
    without [..], and neither is inside the other. *)
Record placed_apart (c : Config) : Prop := {
  pa_state : ".."%string ∉ components (state_dir c);
  pa_workspace : ".."%string ∉ components (workspace c);
  pa_outside : within (root c) (canonical (components (workspace c))) = false;
  pa_inside : within (canonical (components (workspace c))) (root c) = false;
}.
Lemma resolve_dirs_plain w parts : ∀ stack d,
  ".."%string ∉ parts → resolve_dirs w stack parts = Some d → d = canonical (rev stack ++ parts).
Proof.
  induction parts as [|part parts IH]; intros stack d Hn; cbn [resolve_dirs].
  - intros [= <-]. by rewrite app_nil_r.
  - destruct (String.eqb_spec part "..") as [->|_]; [set_solver|].
    destruct (lookup_inode w _) as [[i n]|]; [|done]. case_bool_decide; [|done].
    intros Hd. apply IH in Hd; [|set_solver]. rewrite Hd. simpl. by rewrite <-app_assoc.
Qed.
Lemma f_open_path rt h0 p : ".."%string ∉ components p →
  stays (qrel rt h0) (open_path_no_symlinks p) (λ d, d = canonical (components p)).
Proof.
  intros Hp. unfold open_path_no_symlinks. apply stays_then; [quiet|]. intros []; unfold sys;
    apply stays_map_err, stays_on_fs.
  - eapply stays_mono; [apply stays_reader, reader_openat2|]. intros d (w & _ & Hd).
    by apply resolve_dirs_plain in Hd.
  - eapply stays_mono; [apply stays_reader, reader_fallback|]. by intros d (w & _ & -> & _).
Qed.
Definition plain_name (d : string) : Prop := clean d ∧ d ≠ ".."%string.
Lemma components_sub c d : plain_name d → components (sub c d) = components (state_dir c) ++ [d].
Proof.
  intros [Hc _]. unfold sub, root. rewrite <-canonical_snoc. apply components_canonical.
  apply Forall_app. split; [apply components_clean|by constructor].
Qed.
Lemma f_open_sub c h0 rt d : placed_apart c → plain_name d →
  stays (qrel rt h0) (open_path_no_symlinks (sub c d)) (λ p, p = sub c d).
Proof.
  intros [Hs _ _ _] Hd. eapply stays_mono; [apply f_open_path|].
  - rewrite components_sub by done. destruct Hd. set_solver.
  - intros p ->. by rewrite components_sub, canonical_snoc.
Qed.
Lemma f_open_root c h0 rt : placed_apart c →
  stays (qrel rt h0) (open_path_no_symlinks (state_dir c)) (λ p, p = root c).
Proof. intros [Hs _ _ _]. by apply f_open_path. Qed.

(** Nothing in the workspace is a key. *)
Lemma common_prefix d e x y : below d x = below e y → within d e = true ∨ within e d = true.
Proof.
  unfold below. revert e. induction d as [|a d IH]; intros e E.
  - destruct e as [|b e]; [left; by apply within_spec; exists EmptyString|].
    left. injection E as <- _. apply (within_below EmptyString e).
  - destruct e as [|b e].
    + right. injection E as -> _. apply (within_below EmptyString d).
    + injection E as -> E. apply IH in E as [E|E]; [left|right]; apply within_spec in E as [r [-> Hr]%tail_of_Some];
        apply within_spec; exists r; by apply tail_of_Some.
Qed.
Lemma hidden_workspace c x : placed_apart c → hidden (root c) (below (canonical (components (workspace c))) x).
Proof.
  intros [_ _ Ho Hi] k Hk E. unfold kpath in E. rewrite below_below in E.
  apply common_prefix in E as [E|E]; congruence.
Qed.
Lemma hidden_inbox c name : placed_apart c →
  hidden (root c) (below (below (below (canonical (components (workspace c))) ".tentaflake-worker") "inbox") name).
Proof. intros Hc. rewrite below_below, below_below. by apply hidden_workspace. Qed.

(** ** What reads of keys tell *)

Lemma inode_view rt w0 w k i n :
  qworld rt w0 w → kvalid k → w_names w0 !! kpath rt k = Some i → w_inodes w !! i = Some n →
  kview rt w0 k = Some (shape n).
Proof.
  intros Q Hk Hi Hn. rewrite <-(qw_view _ _ _ Q) by done. unfold kview, lookup_inode.
  rewrite (qw_names _ _ _ Q), Hi by done. simpl. by rewrite Hn.
Qed.
Section facts.
Context (rt : string) (h0 : whost).
Abbreviation J := (qrel rt h0).
Abbreviation view := (kview rt (wh_world h0)).
Abbreviation w0 := (wh_world h0).

Lemma f_named k (f : fd) : kvalid k →
  (∃ w, qworld rt w0 w ∧ ∃ n, lookup_inode w (kpath rt k) = Some (fd_ino f, n) ∧ i_kind n ≠ Symlink) →
  w_names w0 !! kpath rt k = Some (fd_ino f).
Proof. intros Hk (w & Q & n & [Hn _]%lookup_name & _). by rewrite <-(qw_names _ _ _ Q). Qed.
Lemma f_fstat k f : kvalid k → w_names w0 !! kpath rt k = Some (fd_ino f) →
  stays (qworld rt w0) (sys_fstat f) (λ m, view k = Some (shape m)).
Proof.
  intros Hk Hf. eapply stays_mono; [apply stays_reader, reader_fstat|]. intros m (w & Q & Hm).
  by eapply inode_view.
Qed.
Lemma f_read_bounded k f max : kvalid k → w_names w0 !! kpath rt k = Some (fd_ino f) →
  stays (qworld rt w0) (read_bounded f max) (λ b, ∃ kd, view k = Some (kd, b)).
Proof.
  intros Hk Hf. eapply stays_mono; [apply stays_reader, reader_read_bounded|].
  intros b (w & Q & n & Hn & ->). exists (i_kind n). exact (inode_view _ _ _ _ _ _ Q Hk Hf Hn).
Qed.
Lemma f_read_private k max : kvalid k →
  stays J (read_private (kpath rt k) max) (λ b, view k = Some (Regular, b)).
Proof.
  intros Hk. unfold read_private, sys, sys_plain. eapply stays_bind.
  { apply stays_map_err, stays_on_fs, stays_reader, reader_open_read. }
  intros f Hf%f_named; [|done]. eapply stays_bind.
  { by apply stays_map_err, stays_on_fs, (f_fstat k). }
  intros m Hm. eapply stays_bind; [apply (stays_throw_if _ _ _ (λ _, i_kind m = Regular))|].
  { intros. by reflect. }
  intros u Hr. apply stays_map_err, stays_on_fs. eapply stays_mono; [by apply (f_read_bounded k)|].
  intros b [kd Hb]. rewrite Hm in Hb. unfold shape in Hb. rewrite Hr in Hb. injection Hb as <- <-.
  rewrite Hm. unfold shape. by rewrite Hr.
Qed.
(** [present] distinguishes only a missing file. *)
Lemma f_present what p : stays J (present what (sys_symlink_metadata p)) (λ b,
  ∃ w, qworld rt w0 w ∧ (if (b : bool) then is_Some (lookup_inode w p) else lookup_inode w p = None)).
Proof.
  intros h Hh. unfold present. apply wp_bind, wp_attempt, wp_zoom. apply wp_simple; intros fs.
  { apply wp_fail. eapply qrel_trans; [exact Hh|]. split; [|by exists []|done].
    eapply qworld_same; [apply qworld_refl; by destruct (qrel_healthy _ _ _ Hh)|]. apply same_fs_faults. }
  assert (qrel rt h0 (set_wworld (set_faults fs (wh_world h)) h)) as Hh'.
  { destruct Hh as [Q C B]. split; [|done..]. eapply qworld_same; [exact Q|apply same_fs_faults]. }
  apply run_wp. change (lookup_inode (set_faults fs (wh_world h)) p) with (lookup_inode (wh_world h) p).
  destruct (lookup_inode (wh_world h) p) as [x|] eqn:E; apply wp_ret;
    (split; [exact Hh'|]); exists (wh_world h); rewrite E; (split; [apply Hh|done]).
Qed.
End facts.

(** ** Requests, results, approvals and decisions *)

Lemma plain_names : Forall plain_name
  ["pending"; "running"; "approvals"; "decisions"; "reservations"; "results"; "jobs"]%string.
Proof. repeat constructor; try discriminate. Qed.
#[export] Hint Extern 1 (plain_name _) => (repeat split; (discriminate || reflexivity)) : quiet.
Lemma valid_Ok kind v max u : validate_identifier kind v max = Ok u → valid_identifier v max = true.
Proof. unfold validate_identifier. intros H. apply bail_if_Ok in H. by apply negb_false_iff. Qed.
Lemma request_id_valid c r u : validate_request c r = Ok u → valid_identifier (rq_id r) 64 = true.
Proof. unfold validate_request. intros H. inv_ok. by eapply valid_Ok. Qed.

Section data_facts.
Context `{Sha2} `{SerdeJson} `{WorkerCodec}.
Context (c : Config) (h0 : whost) (Hc : placed_apart c).
Abbreviation rt := (root c).
Abbreviation J := (qrel rt h0).
Abbreviation view := (kview rt (wh_world h0)).

(** The file of [k] holds the valid request [r] of the key's job. *)
Definition captured (w : world) (k : key) (r : JobRequest) : Prop :=
  ∃ d, kview rt w k = Some (Regular, d) ∧ request_from_slice d = Some r
       ∧ validate_request c r = Ok tt ∧ rq_id r = kjob k.
Definition queue_key (directory job : string) : key :=
  if (directory =? "running")%string then KRunning job else KPending job.
Lemma f_read_request directory job : directory = "pending"%string ∨ directory = "running"%string →
  stays J (read_request c directory job)
    (λ r, captured (wh_world h0) (queue_key directory job) r ∧ kvalid (queue_key directory job)).
Proof.
  intros Hd. unfold read_request.
  assert (kpath rt (queue_key directory job) = below (sub c directory) (json_name job)) as Hp
    by (by destruct Hd as [-> | ->]).
  assert (kjob (queue_key directory job) = job) as Hj by (by destruct Hd as [-> | ->]).
  eapply stays_bind; [apply (stays_lift _ _ (λ _, kvalid (queue_key directory job)))|].
  { intros u Hu%valid_Ok. unfold kvalid. by rewrite Hj. }
  intros u Hk. apply stays_then; [quiet|]. intros d. rewrite <-Hp.
  eapply stays_bind; [by apply f_read_private|]. intros b Hb.
  eapply stays_bind; [apply (stays_lift _ _ (λ r, request_from_slice b = Some r))|]; [by intros r Hr; inv_ok|].
  intros r Hr. eapply stays_bind; [apply (stays_lift _ _ (λ _, validate_request c r = Ok tt))|]; [by intros []|].
  intros u2 Hv. eapply stays_bind; [apply (stays_throw_if _ _ _ (λ _, rq_id r = job))|]; [intros; by reflect|].
  intros u3 Hid. apply stays_ret. split; [|done]. exists b. by rewrite Hj.
Qed.

Lemma kpath_result job : below (below (sub c "results") job) "result.json" = kpath rt (KResult job).
Proof. unfold kpath, sub, below. simpl. by rewrite !append_assoc. Qed.
(** A published result of the request. *)
Definition finished_with (w : world) (r : JobRequest) : Prop :=
  ∃ d res, kview rt w (KResult (rq_id r)) = Some (Regular, d) ∧ result_from_slice d = Some res
           ∧ result_matches r res = true.
Lemma f_terminal r : valid_identifier (rq_id r) 64 = true →
  stays J (terminal c r) (λ b, b = true → finished_with (wh_world h0) r).
Proof.
  intros Hv. unfold terminal. apply stays_then; [quiet|]. intros []; [|by apply stays_ret].
  apply stays_then; [quiet|]. intros _.
  rewrite kpath_result. eapply stays_bind; [by apply (f_read_private rt h0 (KResult (rq_id r)))|]. intros b Hb.
  eapply stays_bind; [apply (stays_lift _ _ (λ res, result_from_slice b = Some res))|]; [by intros x Hx; inv_ok|].
  intros res Hres. eapply stays_bind; [apply (stays_throw_if _ _ _ (λ _, result_matches r res = true))|].
  { by intros Hm%negb_false_iff. }
  intros u Hm. apply stays_ret. intros _. by exists b, res.
Qed.
Lemma f_approved job : valid_identifier job 64 = true →
  stays J (approved c job) (λ b, b = true → view (KApproval job) = Some (Regular, APPROVED)).
Proof.
  intros Hv. unfold approved. apply stays_then; [quiet|]. intros _. apply stays_then; [quiet|].
  intros []; [|by apply stays_ret].
  eapply stays_bind; [by apply (f_read_private rt h0 (KApproval job))|]. intros b Hb.
  eapply stays_bind; [apply (stays_throw_if _ _ _ (λ _, b = APPROVED))|]; [intros; by reflect|].
  intros u ->. by apply stays_ret.
Qed.

Lemma f_read_at k d name max : kvalid k → kpath rt k = below d name →
  stays J (read_at d name max) (λ r, ∀ b, r = Some b → view k = Some (Regular, b)).
Proof.
  intros Hk Hp. unfold read_at, open_file_at. eapply stays_bind.
  { apply stays_attempt. apply stays_then; [quiet|]. intros _. rewrite <-Hp.
    apply stays_on_fs, stays_reader, reader_open_at. }
  intros [[f|]|[]] Hr; try apply stays_fail; [|by apply stays_ret].
  specialize (Hr _ eq_refl). assert (w_names (wh_world h0) !! kpath rt k = Some (fd_ino f)) as Hf.
  { apply f_named; [done|]. destruct Hr as (w & Q & Hr). exists w. split; [done|]. by apply Hr. }
  eapply stays_bind; [by apply stays_map_err, stays_on_fs, (f_fstat rt h0 k)|]. intros m Hm.
  eapply stays_bind; [|intros u Hreg].
  { unfold check_owner. apply stays_then; [quiet|]. intros e.
    apply (stays_throw_if _ _ _ (λ _, i_kind m = Regular)). intros Hx. apply orb_false_iff in Hx as [Hx _].
    apply orb_false_iff in Hx as [_ Hx]. by apply negb_false_iff, bool_decide_eq_true in Hx. }
  apply stays_then; [quiet|]. intros n. apply stays_then; [quiet|]. intros _. apply stays_then; [quiet|].
  intros _. eapply stays_bind; [by apply stays_map_err, stays_on_fs, (f_read_bounded rt h0 k)|].
  intros b [kd Hb]. apply stays_ret. intros b' [= <-]. rewrite Hb. rewrite Hm in Hb. unfold shape in Hb.
  rewrite Hreg in Hb. by injection Hb as <- _.
Qed.
(** A valid recorded decision. *)
Definition decided (w : world) (job : string) (rec : Receipt) : Prop :=
  ∃ b, kview rt w (KDecision job) = Some (Regular, b) ∧ receipt_from_slice b = Some rec
       ∧ receipt_ok c job rec = true.
Lemma f_checked_directory d name private :
  stays J (checked_directory d name private) (λ r, ∀ x, r = Some x → x = below d name).
Proof.
  unfold checked_directory. eapply stays_bind.
  { apply stays_attempt. unfold open_dir_at. apply stays_then; [quiet|]. intros _.
    apply stays_then; [quiet|]. intros _. by apply (stays_ret _ (below d name) (λ x, x = below d name)). }
  intros [x|[]] Hx; try apply stays_fail; [|by apply stays_ret]. apply stays_then; [quiet|]. intros m.
  apply stays_then; [unfold check_owner; quiet|]. intros _. apply stays_ret. intros y [= <-]. auto.
Qed.
Lemma f_read_receipt job : valid_identifier job 64 = true →
  stays J (read_receipt c rt job) (λ r, ∀ rec, r = Some rec → decided (wh_world h0) job rec).
Proof.
  intros Hv. unfold read_receipt. eapply stays_bind; [apply f_checked_directory|]. intros [d|] Hd; [|by apply stays_ret].
  rewrite (Hd d eq_refl). eapply stays_bind; [by apply (f_read_at (KDecision job))|].
  intros [b|] Hb; [|by apply stays_ret]. specialize (Hb b eq_refl).
  eapply stays_bind; [apply (stays_lift _ _ (λ rec, receipt_from_slice b = Some rec))|]; [by intros x Hx; inv_ok|].
  intros rec Hrec. eapply stays_bind; [apply (stays_throw_if _ _ _ (λ _, receipt_ok c job rec = true))|].
  { by intros Hm%negb_false_iff. }
  intros u Hok. apply stays_ret. intros x [= <-]. by exists b.
Qed.
(** The decision binds the digest of the request. *)
Definition decided_for (w : world) (r : JobRequest) (dec : Decision) : Prop :=
  ∃ rec, decided w (rq_id r) rec ∧ request_digest r = Ok (rc_request_digest rec) ∧ rc_decision rec = dec.
Lemma f_decision_for r : valid_identifier (rq_id r) 64 = true →
  stays J (decision_for c r) (λ d, ∀ dec, d = Some dec → decided_for (wh_world h0) r dec).
Proof.
  intros Hv. unfold decision_for. eapply stays_bind; [by apply stays_map_err, f_open_root|]. intros d ->.
  eapply stays_bind; [by apply f_read_receipt|]. intros [rec|] Hrec; [|by apply stays_ret].
  eapply stays_bind; [apply (stays_lift _ _ (λ x, request_digest r = Ok x))|]; [done|]. intros x Hx.
  eapply stays_bind; [apply (stays_throw_if _ _ _ (λ _, rc_request_digest rec = x))|]; [intros; by reflect|].
  intros u <-. apply stays_then; [quiet|]. intros _. apply stays_ret. intros dec [= <-]. by exists rec; auto.
Qed.
End data_facts.

(** ** Retained storage *)

Lemma to_str_eq name s : to_str name = Some s → s = name.
Proof.
  unfold to_str, from_utf8. destruct (utf8_decode (str_bytes name)); [|done]. intros [= <-].
  apply bytes_str_bytes.
Qed.
Lemma position_elem job l i : position job l = Some i → job ∈ l.
Proof.
  unfold position. intros (p & Hp & _)%fmap_Some. destruct p as [j x].
  apply list_find_Some in Hp as (Hp & -> & _). by eapply list_elem_of_lookup_2.
Qed.
Lemma sorted_perm l : sorted l ≡ₚ l.
Proof. apply merge_sort_Permutation. Qed.

Section retained_facts.
Context (c : Config) (h0 : whost) (Hc : placed_apart c).
Abbreviation rt := (root c).
Abbreviation J := (qrel rt h0).
Abbreviation view := (kview rt (wh_world h0)).

Lemma q_recover_reservation_staging : stays J (recover_reservation_staging c) any.
Proof.
  unfold recover_reservation_staging.
  eapply stays_bind; [apply f_open_sub; [done|auto with quiet]|]. intros d ->.
  apply stays_then; [quiet|]. intros names.
  eapply (stays_bind _ _ _ (Forall (λ n, ∃ x, n = String "." x))).
  - apply stays_foldM; [constructor|]. intros st name _ Hst. unfold reservation_staging.
    eapply stays_bind; [apply (stays_lift _ _ (λ raw, raw = name))|].
    { intros raw Hr. inv_ok. by apply to_str_eq. }
    intros raw ->. destruct (starts_with "." name) eqn:E; cbn [negb]; [|by apply stays_ret].
    repeat (apply stays_then; [quiet|]; intros ?). apply stays_ret. apply Forall_app. split; [done|].
    constructor; [|done]. unfold starts_with in E. destruct (strip_prefix "." name) as [x|] eqn:Ex; [|done].
    apply strip_prefix_Some in Ex. by exists x.
  - intros st Hst. apply stays_then; [|intros _; quiet].
    unfold for_each. apply stays_foldM; [done|]. intros u name Hn _. rewrite Forall_forall in Hst.
    destruct (Hst name Hn) as [x ->]. apply q_unlink_at. by apply hidden_dot.
Qed.
Lemma q_scan_tree levels : ∀ d snap b, stays J (scan_retained_tree levels d snap b) any.
Proof. induction levels as [|levels IH]; intros d snap b; cbn [scan_retained_tree]; quiet. Qed.
#[local] Hint Resolve q_scan_tree : quiet.
Lemma q_retained_directory reserved st dir : stays J (retained_directory c reserved st dir) any.
Proof. unfold retained_directory, retained_entry. quiet. Qed.

Definition receipted (job : string) : Prop :=
  valid_identifier job 64 = true ∧ view (KReceipt job) = Some (Regular, []).
Lemma f_retained_reservation reserved name : Forall receipted reserved →
  stays J (retained_reservation (sub c "reservations") reserved name) (Forall receipted).
Proof.
  intros Hr. unfold retained_reservation.
  eapply stays_bind; [apply (stays_lift _ _ (λ job, job = name))|].
  { intros raw Hx. inv_ok. by apply to_str_eq. }
  intros job ->. eapply stays_bind; [apply (stays_lift _ _ (λ _, kvalid (KReceipt name)))|].
  { intros u Hu. by eapply valid_Ok. }
  intros u Hk. eapply (stays_bind _ _ _ (λ s, view (KReceipt name) = Some (shape (st_node s)))).
  { unfold fstatat_nofollow. apply stays_then; [quiet|]. intros _. unfold sys.
    apply stays_map_err, stays_on_fs. eapply stays_mono; [apply stays_reader, reader_stat|].
    intros s (w & Q & E). exact (shared_view _ _ _ (KReceipt name) _ _ Q Hk E). }
  intros s Hs. apply stays_then; [quiet|]. intros e.
  eapply stays_bind; [apply (stays_throw_if _ _ _ (λ _, shape (st_node s) = (Regular, [])))|].
  { intros Hx. repeat (apply orb_false_iff in Hx as [Hx ?]). reflect. unfold shape, st_kind, st_size in *.
    assert (i_data (st_node s) = []) as ->; [|by rewrite Hx].
    destruct (i_data (st_node s)); [done|]. unfold blen in *. simpl in *. lia. }
  intros u' Hx. apply stays_ret. apply Forall_app. split; [done|]. constructor; [|done]. split; [exact Hk|]. rewrite Hs. by f_equal.
Qed.
Lemma f_check_retained : stays J (check_retained c) (λ u, Forall receipted (ru_receipts u)).
Proof.
  unfold check_retained. apply stays_then; [apply q_recover_reservation_staging|]. intros _.
  eapply stays_bind; [apply f_open_sub; [done|auto with quiet]|]. intros d ->.
  apply stays_then; [quiet|]. intros names.
  eapply (stays_bind _ _ _ (Forall receipted)).
  { apply stays_foldM; [constructor|]. intros b x _ Hb. by apply f_retained_reservation. }
  intros reserved Hr. apply stays_then.
  { apply stays_foldM; [done|]. intros. apply q_retained_directory. }
  intros st. apply stays_ret. simpl. by rewrite sorted_perm.
Qed.
End retained_facts.

(** ** Records and capsules *)

Section quiet_functions.
Context `{Sha2} `{SerdeJson} `{WorkerCodec}.
Context (c : Config) (h0 : whost).
Abbreviation rt := (root c).
Abbreviation J := (qrel rt h0).

Lemma q_activity_event job e d : stays J (activity_event c job e d) any.
Proof. unfold activity_event. quiet. Qed.
#[local] Hint Resolve q_activity_event : quiet.
Lemma q_audit job e a d : stays J (audit c job e a d) any.
Proof.
  unfold audit. apply stays_then; [quiet|]. intros mode. eapply stays_bind.
  { unfold sys. apply stays_map_err, stays_on_fs, stays_in_directory, stays_open_append. }
  intros f Hf. repeat (apply stays_then; [quiet|]; intros ?).
  - eapply stays_append. done.
  - quiet.
Qed.
Lemma q_write_json d name b : hidden rt (below d name) → stays J (write_json d name b) any.
Proof.
  intros Hd. unfold write_json. eapply stays_bind; [by apply q_create_file|]. intros f Hf.
  repeat (apply stays_then; [quiet|]; intros ?); [|quiet]. by apply stays_write.
Qed.
Lemma q_harden p : stays J (harden_shared_directory p) any.
Proof. unfold harden_shared_directory. quiet. Qed.
Lemma q_sync_tree fuel : ∀ p, stays J (sync_tree fuel p) any.
Proof. induction fuel as [|fuel IH]; intros p; cbn [sync_tree]; quiet. Qed.
Lemma q_past d : stays J (past d) any.
Proof. unfold past. quiet. Qed.
#[local] Hint Resolve q_harden q_past : quiet.

Lemma q_copy_file d dest name s b : workdir rt dest → stays J (copy_file d dest name s b) any.
Proof.
  intros Hs. unfold copy_file. apply stays_then; [quiet|]. intros src.
  apply stays_then; [quiet|]. intros src'. eapply stays_bind; [apply q_create_file; eauto with quiet|].
  intros f Hf. unfold set_snapshot_permissions. quiet. by apply stays_write.
Qed.
#[local] Hint Resolve q_copy_file : quiet.
Lemma q_copy levels : ∀ d dest top b, workdir rt dest →
  stays J (copy_directory_fd_at_depth levels d dest top b) any.
Proof.
  induction levels as [|levels IH]; intros d dest top b Hs; cbn [copy_directory_fd_at_depth];
    unfold set_snapshot_permissions; quiet.
Qed.
Lemma q_command_ok args op : quiet_command args → stays J (command_ok args op) any.
Proof. intros. unfold command_ok. quiet. Qed.
#[local] Hint Resolve q_command_ok : quiet.
Lemma q_cleanup_container name : stays J (cleanup_existing_worker_container c name) any.
Proof. unfold cleanup_existing_worker_container, remove_worker_container, runtime_output. quiet. Qed.
Lemma q_marker_loop dl rounds : ∀ b eof, stays J (marker_loop dl rounds b eof) any.
Proof. induction rounds as [|r rounds IH]; intros b eof; cbn [marker_loop]; quiet. Qed.
#[local] Hint Resolve q_marker_loop : quiet.
Lemma q_read_marker ct dl : stays J (read_completion_marker ct dl) any.
Proof. unfold read_completion_marker. quiet. Qed.
Lemma q_artifact_directories levels : ∀ p parts n, workdir rt p →
  stays J (create_artifact_directories levels p parts n) any.
Proof.
  induction levels as [|levels IH]; intros p parts n Hp; destruct parts; cbn [create_artifact_directories]; quiet.
Qed.
#[local] Hint Resolve q_read_marker q_artifact_directories : quiet.
Lemma workdir_foldl p l : workdir rt p → workdir rt (foldl below p l).
Proof. revert p. induction l as [|x l IH]; intros p Hp; [done|]. simpl. apply IH. by apply workdir_below. Qed.
Lemma q_import es dest mb me : workdir rt dest → stays J (import_artifact_tar es dest mb me) any.
Proof.
  intros Hd. unfold import_artifact_tar, import_entry. quiet.
  unfold import_file. apply stays_then; [quiet|]. intros _. apply stays_then; [quiet|]. intros t.
  apply stays_then; [quiet|]. intros t'.
  eapply stays_bind; [apply q_create_file, workdir_hidden, workdir_below, workdir_foldl; done|]. intros f Hf.
  quiet. by apply stays_write.
Qed.
#[local] Hint Resolve q_import : quiet.
Lemma q_export ct d n m dl : workdir rt d → stays J (export_artifacts_if_stable c ct d n m dl) any.
Proof. intros Hd. unfold export_artifacts_if_stable. quiet. Qed.
#[local] Hint Resolve q_export : quiet.
Lemma q_supervise ct d dl : workdir rt d → stays J (supervise c ct d dl) any.
Proof.
  intros Hd h. apply (stays_loop _ _ _ (supervise_step c ct d dl)). intros st.
  unfold supervise_step, runtime_output. quiet.
Qed.
End quiet_functions.
#[export] Hint Resolve q_activity_event q_audit q_write_json q_harden q_sync_tree q_past q_copy q_command_ok
  q_cleanup_container q_read_marker q_supervise q_recover_reservation_staging : quiet.
