(* ===== verification/QueueKeys.v ===== *)
(** * The functions that change a key

    [write_private], the claim of a request, the removal of a record and the
    publication of a result: each changes one key (a claim: two), completely or
    not at all, whatever call fails. *)

From stdpp Require Import sorting.
From S2P Require Import Prelude RustStr Json Posix Budget PrivateStore Template Net Activity WorkerFs WorkerData Queue Review Capsule Worker WorkerSpec QueueSpec.

(** ** Changed keys *)

Record changes (rt : string) (ks : list key) (h0 h : whost) : Prop := {
  ch_healthy : healthy rt h;
  ch_commands : ∃ l, wh_commands h = l ++ wh_commands h0 ∧ Forall quiet_command l;
  ch_blind : wh_blind h0 = [] → wh_blind h = [];
  ch_view k : kvalid k → k ∉ ks → kview rt (wh_world h) k = kview rt (wh_world h0) k;
}.
Lemma changes_qrel rt ks a b c : changes rt ks a b → qrel rt b c → changes rt ks a c.
Proof.
  intros [A1 (l & A2 & F) A3 A4] Q. split.
  - by eapply qrel_healthy.
  - destruct (qr_commands _ _ _ Q) as (l' & E & F'). exists (l' ++ l). rewrite E, A2, app_assoc.
    split; [done|]. by apply Forall_app.
  - intros Hb. by apply (qr_blind _ _ _ Q), A3.
  - intros k Hk Hn. rewrite (qw_view _ _ _ (qr_world _ _ _ Q)) by done. by apply A4.
Qed.
Lemma qrel_changes rt ks a b c : qrel rt a b → changes rt ks b c → changes rt ks a c.
Proof.
  intros Q [A1 (l & A2 & F) A3 A4]. split; [done|..].
  - destruct (qr_commands _ _ _ Q) as (l' & E & F'). exists (l ++ l'). rewrite A2, E, app_assoc.
    split; [done|]. by apply Forall_app.
  - intros Hb. by apply A3, (qr_blind _ _ _ Q).
  - intros k Hk Hn. rewrite A4 by done. apply (qw_view _ _ _ (qr_world _ _ _ Q)). done.
Qed.
(** A change of the world alone. *)
Lemma changes_world rt ks h0 h w :
  qrel rt h0 h → wf w → sound rt w →
  (∀ k, kvalid k → k ∉ ks → kview rt w k = kview rt (wh_world h) k) → changes rt ks h0 (set_wworld w h).
Proof.
  intros Q W So Hv. eapply qrel_changes; [exact Q|]. split; [by split|by exists []|done|done].
Qed.

Section wp_quiet.
Context {rt : string} {h0 : whost}.
(** Quiet code in front of other code. *)
Lemma wp_quiet {E A B} (m : M whost E A) (k : A → M whost E B) Q R X h :
  stays (qrel rt h0) m Q → qrel rt h0 h →
  (∀ a h', qrel rt h0 h' → Q a → wp (k a) R X h') → (∀ e h', qrel rt h0 h' → X e h') →
  wp (m ≫= k) R X h.
Proof.
  intros Hm Hh Hk HX. apply wp_bind. eapply wp_mono; [by apply Hm| |done]. intros a h' []. by apply Hk.
Qed.
End wp_quiet.
Tactic Notation "wp_quietly" "as" simple_intropattern(a) simple_intropattern(h) simple_intropattern(Hh) :=
  eapply (wp_quiet _ _ any); [quiet|eassumption|intros a h Hh _|].

(** ** Publication of a private file *)

Definition wrote (rt : string) (k : key) (b : bytes) (h0 h : whost) : Prop :=
  changes rt [k] h0 h ∧ kview rt (wh_world h0) k = None ∧ kview rt (wh_world h) k = Some (Regular, b).
Lemma wrote_qrel rt k b h0 h h' : kvalid k → wrote rt k b h0 h → qrel rt h h' → wrote rt k b h0 h'.
Proof.
  intros Hk (C & N & V) Q. split_and!; [by eapply changes_qrel|done|].
  by rewrite (qw_view _ _ _ (qr_world _ _ _ Q)).
Qed.

Lemma scratch_dir rt d x : slashless d → scratch rt (below (below rt d) x) → d = "jobs"%string ∨ d = "results"%string.
Proof.
  intros Hd. inversion 1 as [E|y E|y E].
  - unfold apath in E. rewrite below_below in E. apply below_inj in E.
    assert (slashless AUDIT) as Ha by done. rewrite E in Ha. apply slashless_app in Ha as [_ Ha]. done.
  - apply below_split in E as [-> _]; [by left|done..].
  - apply below_split in E as [-> _]; [by right|done..].
Qed.

(** The new file of [write_private] or [write_json], while only its own name leads to it. *)
Lemma w_create_file rt h0 h what d n mode :
  hidden rt (below d n) → qrel rt h0 h →
  wp (create_file what d n mode)
    (λ f h', qrel rt h0 h' ∧ keyless rt (wh_world h0) (fd_ino f)
             ∧ ∃ m, pending m (below d n) (fd_ino f) [] (wh_world h'))
    (λ _ h', qrel rt h0 h') h.
Proof.
  intros Hd Hh. eapply wp_mono; [apply wp_conj|..].
  - by apply (q_create_file rt h0 what d n mode Hd).
  - unfold create_file, sys. apply wp_bind, wp_gets, wp_map_err, wp_zoom.
    instantiate (1 := λ _ _, True). 
    instantiate (1 := λ f h', ∃ m, pending m (below d n) (fd_ino f) [] (wh_world h')).
    unfold in_directory. apply run_wp. destruct (is_directory _ _); [|done].
    change (wp (sys_create_new (below d n) (masked mode h))
      (λ a w, ∃ m, pending m (below d n) (fd_ino a) [] w) (λ _ _, True) (wh_world h)).
    wp_apply (wp_create_pending (below d n) (masked mode h) (wh_world h)); [apply Hh| |done].
    intros f w [P _]. by eexists.
  - intros f h' [[? ?] ?]. done.
  - by intros e h' [? _].
Qed.
Lemma w_write_file rt h0 h what t m f b :
  qrel rt h0 h → keyless rt (wh_world h0) (fd_ino f) → pending m t (fd_ino f) [] (wh_world h) →
  wp (sys what (_ ← sys_write f b; sys_sync))
    (λ _ h', qrel rt h0 h' ∧ pending m t (fd_ino f) b (wh_world h')) (λ _ h', qrel rt h0 h') h.
Proof.
  intros Hh Hf P. eapply wp_mono; [apply wp_conj|..].
  - assert (stays (qrel rt h0) (sys what (_ ← sys_write f b; sys_sync)) any) as Hs; [|by apply Hs].
    quiet. by apply stays_write.
  - unfold sys. apply wp_map_err, wp_zoom. instantiate (1 := λ _ _, True). 
    instantiate (1 := λ _ h', pending m t (fd_ino f) b (wh_world h')). apply wp_bind.
    wp_apply (wp_write_pending m t f b (wh_world h) P); [|done]. intros _ w [P' _].
    wp_apply (reader_sync w); [|done]. intros _ w' [S _]. by eapply pending_same.
  - intros u h' [[? _] ?]. done.
  - by intros e h' [? _].
Qed.
Lemma pending_unique m t i d w q : pending m t i d w → w_names w !! q = Some i → q = t.
Proof. intros [W N I L] Hq. by apply (nlink_one_unique w q t i). Qed.

(** The link that publishes: it never replaces. *)
Lemma w_hard_link rt h0 h what d k m t i b :
  qrel rt h0 h → kvalid k → pending m t i b (wh_world h) → ¬ scratch rt t →
  wp (sys what (in_directory d (sys_hard_link t (kpath rt k))))
    (λ _ h', wrote rt k b h0 h') (λ _ h', qrel rt h0 h') h.
Proof.
  intros Hh Hk P Ht. unfold sys. apply wp_map_err, wp_zoom. unfold in_directory. apply run_wp.
  destruct (is_directory _ d); [|by eapply qrel_world].
  assert (∀ fs, qrel rt h0 (set_wworld (set_faults fs (wh_world h)) h)) as Hf.
  { intros fs. destruct Hh as [Q C B]. split; [|done..]. eapply qworld_same; [exact Q|apply same_fs_faults]. }
  change (wp (sys_hard_link t (kpath rt k)) (λ a w, wrote rt k b h0 (set_wworld w h))
    (λ _ w, qrel rt h0 (set_wworld w h)) (wh_world h)).
  apply wp_simple; intros fs; [by apply Hf|]. apply run_wp.
  assert (lookup_inode (set_faults fs (wh_world h)) t = Some (i, mk_inode Regular m (w_euid (wh_world h)) b)) as ->.
  { unfold lookup_inode. simpl. rewrite (pe_name _ _ _ _ _ P). simpl. by rewrite (pe_inode _ _ _ _ _ P). }
  simpl. change (w_names (set_faults fs (wh_world h))) with (w_names (wh_world h)).
  destruct (w_names (wh_world h) !! kpath rt k) eqn:E; [by apply Hf|].
  pose proof (qr_world _ _ _ Hh) as Q. pose proof (qw_sound _ _ _ Q) as So. split_and!.
  - eapply changes_world; [exact Hh|..].
    + intros q j. simpl. rewrite lookup_insert. case_decide; intros Hq; simplify_eq; [|by eapply (pe_wf _ _ _ _ _ P)].
      eapply (pe_wf _ _ _ _ _ P), (pe_name _ _ _ _ _ P).
    + split; simpl.
      * intros q j k' Hq Hk' Hj. rewrite lookup_insert_ne in Hj by (intros E'; exact (scratch_hidden _ _ Hq k Hk (eq_sym E'))).
        rewrite lookup_insert. case_decide; [|by eapply so_scratch]. intros [= ->].
        apply Ht. by rewrite <-(pending_unique _ _ _ _ _ _ P Hj).
      * intros j n. rewrite lookup_insert_ne by (intros E'; exact (hidden_audit rt k Hk (eq_sym E'))). apply (so_audit _ _ So).
    + intros k' Hk' Hn. unfold kview, lookup_inode. simpl. rewrite lookup_insert_ne; [done|].
      intros E'. apply Hn. apply kpath_inj in E'; [|done..]. set_solver.
  - unfold kview, lookup_inode. rewrite <-(qw_names _ _ _ Q), E by done. done.
  - unfold kview, lookup_inode. simpl. rewrite lookup_insert_eq. simpl. by rewrite (pe_inode _ _ _ _ _ P).
Qed.

Lemma w_write_private rt h0 h k b :
  qrel rt h0 h → kvalid k → kdir k ≠ "results"%string →
  wp (write_private (below rt (kdir k)) (krest k) b)
    (λ _ h', wrote rt k b h0 h') (λ _ h', qrel rt h0 h' ∨ wrote rt k b h0 h') h.
Proof.
  intros Hh Hk Hd. set (p := below rt (kdir k)). set (t := below p (staging_name (krest k))).
  assert (hidden rt t) as Ht by (apply hidden_dot, kdir_slashless).
  unfold write_private. fold p. fold t. 
  wp_quietly as x h1 H1; [|by left]. wp_quietly as y h2 H2; [|by left]. wp_quietly as z h3 H3; [|by left].
  apply wp_bind. wp_apply (w_create_file rt h0 h3); [exact Ht|exact H3| |by left].
  intros f h4 (H4 & Kf & m & P4). apply wp_bind.
  wp_apply (w_write_file rt h0 h4 _ t m f b H4 Kf P4); [|by left]. intros u h5 [H5 P5]. apply wp_bind.
  wp_apply (w_hard_link rt h0 h5 _ p k m t (fd_ino f) b H5 Hk P5).
  { intros Hs%scratch_dir; [|apply kdir_slashless]. destruct Hs as [Hs|Hs]; [by destruct k|done]. }
  2: by left. intros u' h6 W6. destruct W6 as (C6 & V6 & V6').
  assert (qrel rt h6 h6) as H6 by (apply qrel_refl, C6).
  assert (∀ h', qrel rt h6 h' → wrote rt k b h0 h') as Hw.
  { intros h' Q. eapply wrote_qrel; [done|by split|done]. }
  assert (stays (qrel rt h6) (_ ← sync_directory p; _ ← sys "remove published queue staging" (sys_unlink t);
    sync_directory p) any) as Hs by quiet.
  eapply wp_mono; [by apply (Hs h6)|..]; intros; [|right]; apply Hw; naive_solver.
Qed.

(** ** Moving names *)

Definition tail_like (r : string) : Prop := r = EmptyString ∨ ∃ s, r = String "/" s.
Lemma moved_inv a b m q i : moved a b m !! q = Some i →
  (m !! q = Some i ∧ within a q = false) ∨ ∃ r, tail_like r ∧ q = b +:+ r ∧ m !! (a +:+ r) = Some i.
Proof.
  unfold moved. intros [H|[_ H]]%lookup_union_Some_raw.
  - apply map_lookup_filter_Some in H as [H Hw]. apply lookup_delete_Some in H as [_ H]. by left.
  - right. apply elem_of_list_to_map_2 in H. apply list_elem_of_omap in H as ([p j] & Hp & E).
    apply bind_Some in E as (r & Hr & [= <- <-]). apply tail_of_Some in Hr as [-> Hr].
    exists r. split_and!; [exact Hr|done|]. by apply elem_of_map_to_list in Hp.
Qed.
Lemma within_false d p r : tail_like r → within d p = false → p ≠ d +:+ r.
Proof.
  intros Hr Hw ->. assert (within d (d +:+ r) = true) as E; [|by rewrite E in Hw].
  apply within_spec. exists r. by apply tail_of_Some.
Qed.
Lemma moved_keep a b m q : within a q = false → within b q = false → moved a b m !! q = m !! q.
Proof.
  intros Ha Hb. destruct (m !! q) as [i|] eqn:E.
  - unfold moved. apply lookup_union_Some_l. apply map_lookup_filter_Some. split; [|done].
    apply lookup_delete_Some. split; [|done]. intros ->.
    apply (within_false q q EmptyString); [by left|done|by rewrite append_empty].
  - destruct (moved a b m !! q) as [i|] eqn:E'; [|done].
    apply moved_inv in E' as [[? _]|(r & Hr & -> & _)]; [congruence|].
    by apply (within_false b _ r) in Hb.
Qed.
Lemma moved_dest a b m r i : tail_like r → m !! (b +:+ r) = None ∨ r = EmptyString →
  m !! (a +:+ r) = Some i → moved a b m !! (b +:+ r) = Some i.
Proof.
  intros Hr Hn Hi. unfold moved. apply lookup_union_Some_raw. right. split.
  - apply map_lookup_filter_None. left. destruct Hn as [Hn| ->].
    + apply lookup_delete_None. by right.
    + apply lookup_delete_None. left. by rewrite append_empty.
  - apply elem_of_list_to_map_1'.
    + intros j Hj. apply list_elem_of_omap in Hj as ([p x] & Hp & E).
      apply bind_Some in E as (r' & Hr' & [= E <-]). apply append_inj_r in E as ->.
      apply tail_of_Some in Hr' as [-> _]. apply elem_of_map_to_list in Hp. congruence.
    + apply list_elem_of_omap. exists (a +:+ r, i). split; [by apply elem_of_map_to_list|].
      apply bind_Some. exists r. split; [by apply tail_of_Some|done].
Qed.
Lemma moved_gone a b m r : tail_like r → within b (a +:+ r) = false → moved a b m !! (a +:+ r) = None.
Proof.
  intros Hr Hb. destruct (moved a b m !! (a +:+ r)) as [i|] eqn:E; [|done].
  apply moved_inv in E as [[_ H]|(r' & Hr' & E & _)].
  - by apply (within_false a _ r) in H.
  - exfalso. by apply (within_false b _ r' Hr' Hb).
Qed.

(** A key is at or below another only if they are one. *)
Lemma kpath_within rt k k' : kvalid k → kvalid k' → within (kpath rt k) (kpath rt k') = true → k = k'.
Proof.
  intros Hk Hk' Hw. apply within_spec in Hw as [r [E Hr]%tail_of_Some].
  destruct Hr as [->|[s ->]]; [apply (kpath_inj rt); [done..|]; by rewrite E, append_empty|].
  exfalso. unfold kpath at 2 in E. replace (below (below rt (kdir k)) (krest k) +:+ String "/" s)
    with (below (below rt (kdir k)) (krest k +:+ String "/" s)) in E by (unfold below; by rewrite !append_assoc).
  apply below_split in E as [Ed Er]; [|apply kdir_slashless..].
  pose proof (identifier_slashless _ Hk) as S1. pose proof (identifier_slashless _ Hk') as S2.
  assert (∀ x y, slashless x → x ≠ y +:+ String "/" s) as Hn.
  { intros x y Hx ->. by apply slashless_app in Hx as [_ Hx]. }
  assert (∀ j, slashless j → slashless (json_name j)) as Hj by (intros j ?; by apply slashless_app).
  destruct k', k; simpl in Ed, Er, S1, S2; try discriminate;
    try (by eapply Hn, Er; auto).
  unfold below in Er. rewrite append_assoc in Er. apply (slash_split job job0) in Er as [_ Er]; [|done..].
  discriminate Er.
Qed.
Lemma within_dirs rt k d x : kvalid k → slashless d → d ≠ kdir k → within (below (below rt d) x) (kpath rt k) = false.
Proof.
  intros Hk Hd Hne. destruct (within _ _) eqn:E; [|done]. apply within_spec in E as [r [E _]%tail_of_Some].
  exfalso. unfold kpath in E. replace (below (below rt d) x +:+ r) with (below (below rt d) (x +:+ r)) in E
    by (unfold below; by rewrite !append_assoc).
  apply below_split in E as [E _]; [congruence|apply kdir_slashless|done].
Qed.

(** A failed or inspecting call leaves the host as it was, but for the schedule. *)
Definition same_host (h h' : whost) : Prop := ∃ w, same_fs (wh_world h) w ∧ h' = set_wworld w h.
Lemma same_host_qrel rt h0 h h' : qrel rt h0 h → same_host h h' → qrel rt h0 h'.
Proof. intros [Q C B] (w & S & ->). split; [|done..]. by eapply qworld_same. Qed.
Lemma same_host_faults fs h : same_host h (set_wworld (set_faults fs (wh_world h)) h).
Proof. eexists. split; [|done]. apply same_fs_faults. Qed.
Lemma same_host_trans a b c : same_host a b → same_host b c → same_host a c.
Proof. intros (w & S & ->) (w' & S' & ->). exists w'. split; [by etrans|done]. Qed.
Lemma w_present what p h :
  wp (present what (sys_symlink_metadata p))
    (λ b h', same_host h h' ∧ (b = false → lookup_inode (wh_world h') p = None)) (λ _ h', same_host h h') h.
Proof.
  unfold present. apply wp_bind, wp_attempt, wp_zoom. apply wp_simple; intros fs.
  { apply wp_fail. apply same_host_faults. }
  apply run_wp. change (lookup_inode (set_faults fs (wh_world h)) p) with (lookup_inode (wh_world h) p).
  destruct (lookup_inode (wh_world h) p) as [x|] eqn:E; apply wp_ret; (split; [apply same_host_faults|done]).
Qed.

(** ** Claiming *)

Lemma pending_running rt job r : valid_identifier job 64 = true → tail_like r →
  within (kpath rt (KRunning job)) (kpath rt (KPending job) +:+ r) = false.
Proof.
  intros Hj Hr. destruct (within _ _) eqn:E; [|done]. apply within_spec in E as [r' [E _]%tail_of_Some].
  exfalso. unfold kpath in E. simpl in E. revert E.
  replace (below (below rt "pending") (json_name job) +:+ r) with (below (below rt "pending") (json_name job +:+ r))
    by (unfold below; by rewrite !append_assoc).
  replace (below (below rt "running") (json_name job) +:+ r') with (below (below rt "running") (json_name job +:+ r'))
    by (unfold below; by rewrite !append_assoc).
  intros [E _]%below_split; done.
Qed.
Definition claimed (rt job : string) (h0 h : whost) : Prop :=
  changes rt [KPending job; KRunning job] h0 h
  ∧ kview rt (wh_world h) (KPending job) = None
  ∧ kview rt (wh_world h) (KRunning job) = kview rt (wh_world h0) (KPending job).
Lemma claimed_qrel rt job h0 h h' : valid_identifier job 64 = true →
  claimed rt job h0 h → qrel rt h h' → claimed rt job h0 h'.
Proof.
  intros Hj (C & P & R) Q. split_and!; [by eapply changes_qrel|..];
    by rewrite (qw_view _ _ _ (qr_world _ _ _ Q)).
Qed.
Lemma w_claim_move rt h0 h what d job :
  qrel rt h0 h → valid_identifier job 64 = true → kview rt (wh_world h0) (KRunning job) = None →
  wp (sys what (in_directory d (sys_move (kpath rt (KPending job)) (kpath rt (KRunning job)))))
    (λ _ h', claimed rt job h0 h') (λ _ h', qrel rt h0 h') h.
Proof.
  intros Hh Hj Hr. set (a := kpath rt (KPending job)). set (b := kpath rt (KRunning job)).
  assert (kvalid (KPending job) ∧ kvalid (KRunning job)) as [Ka Kb] by done.
  pose proof (qr_world _ _ _ Hh) as Q. pose proof (qw_sound _ _ _ Q) as So.
  unfold sys. apply wp_map_err, wp_zoom. unfold in_directory. apply run_wp.
  destruct (is_directory _ d); [|by eapply qrel_world].
  change (wp (sys_move a b) (λ _ w, claimed rt job h0 (set_wworld w h)) (λ _ w, qrel rt h0 (set_wworld w h)) (wh_world h)).
  assert (∀ fs, qrel rt h0 (set_wworld (set_faults fs (wh_world h)) h)) as Hf.
  { intros fs. eapply same_host_qrel; [done|apply same_host_faults]. }
  apply wp_simple; intros fs; [by apply Hf|]. apply run_wp.
  change (lookup_inode (set_faults fs (wh_world h))) with (lookup_inode (wh_world h)).
  destruct (lookup_inode (wh_world h) a) as [[i n]|] eqn:Ea; [|by apply Hf].
  assert (lookup_inode (wh_world h) b = None) as ->.
  { rewrite <-(qw_view _ _ _ Q) in Hr by done. unfold kview in Hr. fold b in Hr.
    by destruct (lookup_inode (wh_world h) b). }
  destruct (_ || _) eqn:Hw; [by apply Hf|]. apply orb_false_iff in Hw as [Hwab _]. clear Hf.
  apply lookup_name in Ea as [Ea En].
  assert (∀ k, kvalid k → k ≠ KPending job → k ≠ KRunning job →
    moved a b (w_names (wh_world h)) !! kpath rt k = w_names (wh_world h) !! kpath rt k) as Hk.
  { intros k Hk H1 H2. apply moved_keep.
    - destruct (within a (kpath rt k)) eqn:E; [|done]. apply kpath_within in E; congruence.
    - destruct (within b (kpath rt k)) eqn:E; [|done]. apply kpath_within in E; congruence. }
  assert (moved a b (w_names (wh_world h)) !! a = None) as Hma.
  { pose proof (moved_gone a b (w_names (wh_world h)) EmptyString) as Hm. rewrite append_empty in Hm.
    apply Hm; [by left|]. rewrite <-(append_empty a). apply pending_running; [done|by left]. }
  assert (moved a b (w_names (wh_world h)) !! b = Some i) as Hmb.
  { pose proof (moved_dest a b (w_names (wh_world h)) EmptyString i) as Hm. rewrite !append_empty in Hm.
    apply Hm; [by left|by right|done]. }
  split_and!.
  - eapply changes_world; [exact Hh|..].
    + intros q j. simpl. intros [[Hq _]|(r & _ & _ & Hq)]%moved_inv; by eapply (qw_wf _ _ _ Q).
    + split; simpl.
      * intros q j k Hq Hv Hqj. apply moved_inv in Hqj as [[Hqj _]|(r & Hr' & -> & _)].
        -- destruct (decide (k = KPending job)) as [->|H1]; [fold a; by rewrite Hma|].
           destruct (decide (k = KRunning job)) as [->|H2].
           { fold b. rewrite Hmb. intros [= ->]. by eapply (so_scratch _ _ So q j (KPending job)). }
           rewrite Hk by done. by eapply so_scratch.
        -- exfalso. unfold b, kpath in Hq. simpl in Hq.
           replace (below (below rt "running") (json_name job) +:+ r) with
             (below (below rt "running") (json_name job +:+ r)) in Hq by (unfold below; by rewrite !append_assoc).
           apply scratch_dir in Hq as [?|?]; done.
      * intros j x [[Hj' _]|(r & Hr' & E & _)]%moved_inv; [by apply (so_audit _ _ So)|].
        exfalso. eapply (within_false b (apath rt) r Hr'); [|done].
        destruct (within b (apath rt)) eqn:E'; [|done]. apply within_spec in E' as [r' [E2 _]%tail_of_Some].
        exfalso. unfold apath, b, kpath in E2. rewrite below_below in E2.
        replace (below rt (kdir (KRunning job) +:+ String "/" (krest (KRunning job))) +:+ r') with
          (below rt (kdir (KRunning job) +:+ String "/" (krest (KRunning job)) +:+ r')) in E2
          by (unfold below; by rewrite !append_assoc).
        apply below_inj in E2. discriminate.
    + intros k Hv Hn. unfold kview, lookup_inode. simpl. by rewrite Hk by set_solver.
  - unfold kview, lookup_inode. simpl. fold a. by rewrite Hma.
  - rewrite <-(qw_view _ _ _ Q) by done. unfold kview, lookup_inode. simpl. fold a b. by rewrite Hmb, Ea.
Qed.

(** ** Removing a record *)

Definition removed (rt : string) (k : key) (h0 h : whost) : Prop :=
  changes rt [k] h0 h ∧ kview rt (wh_world h) k = None.
Lemma removed_qrel rt k h0 h h' : kvalid k → removed rt k h0 h → qrel rt h h' → removed rt k h0 h'.
Proof.
  intros Hk (C & P) Q. split; [by eapply changes_qrel|]. by rewrite (qw_view _ _ _ (qr_world _ _ _ Q)).
Qed.
Lemma removed_world rt k h0 h fs : kvalid k → qrel rt h0 h →
  removed rt k h0 (set_wworld (set_names (delete (kpath rt k)) (set_faults fs (wh_world h))) h).
Proof.
  intros Hk Hh. pose proof (qr_world _ _ _ Hh) as Q. pose proof (qw_sound _ _ _ Q) as So. split.
  - eapply changes_world; [exact Hh|..].
    + apply wf_delete. apply (qw_wf _ _ _ Q).
    + split; simpl.
      * intros q i k' Hq Hv [_ Hi]%lookup_delete_Some. intros [_ Hk']%lookup_delete_Some.
        by eapply (so_scratch _ _ So).
      * intros i n [_ Hi]%lookup_delete_Some. by apply (so_audit _ _ So).
    + intros k' Hv Hn. unfold kview, lookup_inode. simpl. rewrite lookup_delete_ne; [done|].
      intros E. apply kpath_inj in E; [set_solver|done..].
  - unfold kview, lookup_inode. simpl. by rewrite lookup_delete_eq.
Qed.
Lemma w_unlink rt h0 h k : kvalid k → qrel rt h0 h →
  wp (on_fs (sys_unlink (kpath rt k))) (λ _ h', removed rt k h0 h') (λ _ h', qrel rt h0 h') h.
Proof.
  intros Hk Hh. apply wp_zoom.
  assert (∀ fs, qrel rt h0 (set_wworld (set_faults fs (wh_world h)) h)) as Hf.
  { intros fs. eapply same_host_qrel; [done|apply same_host_faults]. }
  apply wp_simple; intros fs; [by apply Hf|]. apply run_wp.
  change (lookup_inode (set_faults fs (wh_world h))) with (lookup_inode (wh_world h)).
  destruct (lookup_inode _ _) as [[i n]|]; [|by apply Hf]. case_bool_decide; [by apply Hf|].
  by apply removed_world.
Qed.

(** ** Publication of a result *)

(** An invariant that the schedule of failures does not break. *)
Definition fs_closed (I : whost → Prop) : Prop := ∀ h h', I h → same_host h h' → I h'.
Lemma stays_fs_reader {E A} I (m : M world E A) R : fs_closed I → reader m R → stays I (on_fs m) any.
Proof.
  intros HI Hm h Hh. apply wp_zoom. wp_apply (Hm (wh_world h)).
  - intros a w [S _]. split; [|done]. eapply HI; [exact Hh|]. by exists w.
  - intros e w S. eapply HI; [exact Hh|]. by exists w.
Qed.
Lemma reader_open_sync p : reader (_ ← sys_open_read p; sys_sync) (λ _ _, True).
Proof. eapply reader_bind; [apply reader_open_read|intros _; apply reader_sync|done]. Qed.
Ltac still := repeat first [eapply stays_fs_reader; [eassumption|solve [eauto using reader_open_sync with quiet nocore]] | quiet1
                           | solve [eauto with nocore]].
Section still.
Context (I : whost → Prop) (HI : fs_closed I).
Lemma s_open_path p : stays I (open_path_no_symlinks p) any.
Proof using HI. unfold open_path_no_symlinks. still. Qed.
Lemma s_sync_directory p : stays I (sync_directory p) any.
Proof using HI. pose proof s_open_path. unfold sync_directory. still. Qed.
Lemma s_sync_tree fuel : ∀ p, stays I (sync_tree fuel p) any.
Proof using HI.
  pose proof s_sync_directory. induction fuel as [|fuel IH]; intros p; cbn [sync_tree]; still.
Qed.
End still.

Lemma w_write_json rt h0 h d name v :
  hidden rt (below d name) → qrel rt h0 h →
  wp (write_json d name v)
    (λ _ h', qrel rt h0 h' ∧ ∃ b m i, v = Some b ∧ pending m (below d name) i (b ++ [10]) (wh_world h'))
    (λ _ h', qrel rt h0 h') h.
Proof.
  intros Hd Hh. unfold write_json. apply wp_bind.
  wp_apply (w_create_file rt h0 h); [exact Hd|exact Hh| |done]. intros f h1 (H1 & Kf & m & P1).
  apply wp_bind, wp_lift; [|done]. intros b Hb. inv_ok.
  eapply (wp_mono _ (λ _ h', qrel rt h0 h' ∧ pending m (below d name) (fd_ino f) (b ++ [10]) (wh_world h')));
    [|intros u h' [? ?]; split; [done|by exists b, m, (fd_ino f)]|exact (λ _ _ H, H)].
  set (I := λ h', qrel rt h0 h' ∧ pending m (below d name) (fd_ino f) (b ++ [10]) (wh_world h')).
  assert (fs_closed I) as HI.
  { intros a a' [Q P] Sa. split; [by eapply same_host_qrel|]. destruct Sa as (w & S & ->). by eapply pending_same. }
  apply wp_bind. unfold sys_plain. apply wp_map_err.
  eapply (wp_mono _ (λ _ h', I h') _ (λ _ h', qrel rt h0 h')).
  - eapply wp_mono; [apply wp_conj|..].
    + apply (stays_on_fs rt h0 _ any); [by apply stays_write|done].
    + apply wp_zoom. instantiate (1 := λ _ _, True).
      instantiate (1 := λ _ h', pending m (below d name) (fd_ino f) (b ++ [10]) (wh_world h')).
      wp_apply (wp_write_pending m _ f (b ++ [10]) (wh_world h1) P1); [|done]. by intros u w [P' _].
    + intros u h2 [[? _] ?]. by split.
    + by intros e h2 [? _].
  - intros u h2 H2. assert (stays I (sys ("sync " ++ below d name) sys_sync) any) as Hs by still.
    wp_apply (Hs h2 H2); [by intros u' h3 [? _]|]. by intros e h3 [? _].
  - done.
Qed.

Lemma w_publish_move rt h0 h what d job m i b :
  let staging := below (below rt "results") (tmp_name job) in
  let destination := below (below rt "results") job in
  qrel rt h0 h → valid_identifier job 64 = true → pending m (below staging "result.json") i b (wh_world h) →
  lookup_inode (wh_world h) destination = None →
  wp (sys what (in_directory d (sys_move staging destination)))
    (λ _ h', wrote rt (KResult job) b h0 h') (λ _ h', qrel rt h0 h') h.
Proof.
  intros s t Hh Hj P Ht. pose proof (qr_world _ _ _ Hh) as Q. pose proof (qw_sound _ _ _ Q) as So.
  unfold sys. apply wp_map_err, wp_zoom. unfold in_directory. apply run_wp.
  destruct (is_directory _ d); [|by eapply qrel_world].
  change (wp (sys_move s t) (λ _ w, wrote rt (KResult job) b h0 (set_wworld w h)) (λ _ w, qrel rt h0 (set_wworld w h)) (wh_world h)).
  assert (∀ fs, qrel rt h0 (set_wworld (set_faults fs (wh_world h)) h)) as Hf.
  { intros fs. eapply same_host_qrel; [done|apply same_host_faults]. }
  apply wp_simple; intros fs; [by apply Hf|]. apply run_wp.
  change (lookup_inode (set_faults fs (wh_world h))) with (lookup_inode (wh_world h)).
  destruct (lookup_inode (wh_world h) s) as [[j n]|]; [|by apply Hf]. rewrite Ht.
  destruct (_ || _) eqn:Hw; [by apply Hf|]. apply orb_false_iff in Hw as [_ He]. clear Hf.
  assert (kpath rt (KResult job) = t +:+ String "/" "result.json") as Hp.
  { unfold kpath, t, below. simpl. by rewrite !append_assoc. }
  assert (below s "result.json" = s +:+ String "/" "result.json") as Hs by done.
  assert (w_names (wh_world h) !! kpath rt (KResult job) = None) as Hnone.
  { destruct (w_names (wh_world h) !! kpath rt (KResult job)) as [x|] eqn:E; [|done].
    unfold has_entries in He. rewrite existsb_false in He.
    specialize (He (kpath rt (KResult job), x)). simpl in He.
    rewrite Hp in He. unfold strictly_within, starts_with in He.
    assert (strip_prefix (t ++ "/") (t +:+ String "/" "result.json") = Some "result.json"%string) as Hpre.
    { apply strip_prefix_Some. by rewrite append_assoc. }
    rewrite Hpre in He. discriminate He. rewrite <-Hp. by apply elem_of_map_to_list. }
  assert (moved s t (w_names (wh_world h)) !! kpath rt (KResult job) = Some i) as Hm.
  { rewrite Hp. apply moved_dest; [right; by eexists|left; by rewrite <-Hp|]. rewrite <-Hs. apply P. }
  assert (∀ r, within s (t +:+ r) = true → False) as Hst.
  { intros r E. apply within_spec in E as [r' [E _]%tail_of_Some]. unfold s, t, tmp_name, below in E.
    rewrite !append_assoc in E. apply append_inj_r in E. injection E as E.
    destruct (identifier_first _ Hj) as (a & x & -> & Ha). injection E as -> _. done. }
  assert (∀ k, kvalid k → k ≠ KResult job →
    moved s t (w_names (wh_world h)) !! kpath rt k = w_names (wh_world h) !! kpath rt k) as Hk.
  { intros k Hk Hne. apply moved_keep; [by apply hidden_tree_dot|].
    destruct (within t (kpath rt k)) eqn:E; [|done]. exfalso. apply within_spec in E as [r [E Hr]%tail_of_Some].
    unfold kpath, t in E. replace (below (below rt "results") job +:+ r) with
      (below (below rt "results") (job +:+ r)) in E by (unfold below; by rewrite !append_assoc).
    apply below_split in E as [Ed Er]; [|apply kdir_slashless|done].
    destruct k as [| | | | |job']; try discriminate. simpl in Er. apply Hne. f_equal.
    destruct Hr as [->|[x ->]].
    - rewrite append_empty in Er. pose proof (identifier_slashless _ Hj) as Hjs.
      rewrite <-Er in Hjs. by apply slashless_app in Hjs as [_ Hjs].
    - apply (slash_split job' job "result.json" x) in Er as [-> _]; [done|by apply identifier_slashless..]. }
  split_and!.
  - eapply changes_world; [exact Hh|..].
    + intros q x. simpl. intros [[Hq _]|(r & _ & _ & Hq)]%moved_inv; by eapply (qw_wf _ _ _ Q).
    + split; simpl.
      * intros q x k Hq Hv Hqx. apply moved_inv in Hqx as [[Hqx Hqs]|(r & Hr & -> & _)].
        -- destruct (decide (k = KResult job)) as [->|Hne]; [|rewrite Hk by done; by eapply so_scratch].
           rewrite Hm. intros [= <-]. rewrite (pending_unique _ _ _ _ _ _ P Hqx) in Hqs.
           by rewrite within_below in Hqs.
        -- exfalso. inversion Hq as [E|y E|y E]; unfold t, below in E; rewrite ?append_assoc in E.
           ++ unfold apath, below in E. apply append_inj_r in E. discriminate E.
           ++ apply append_inj_r in E. discriminate E.
           ++ apply append_inj_r in E. injection E as E.
              destruct (identifier_first _ Hj) as (ch & z & -> & Hch). injection E as <- _. done.
      * intros x y [[Hx _]|(r & Hr & E & _)]%moved_inv; [by apply (so_audit _ _ So)|].
        exfalso. unfold t, apath, below in E. rewrite ?append_assoc in E. apply append_inj_r in E. discriminate E.
    + intros k Hv Hn. unfold kview, lookup_inode. simpl. by rewrite Hk by set_solver.
  - unfold kview, lookup_inode. rewrite <-(qw_names _ _ _ Q), Hnone by done. done.
  - unfold kview, lookup_inode. simpl. rewrite Hm. simpl. by rewrite (pe_inode _ _ _ _ _ P).
Qed.

Lemma w_publish_result rt h0 h job m i b :
  qrel rt h0 h → valid_identifier job 64 = true →
  pending m (below (below (below rt "results") (tmp_name job)) "result.json") i b (wh_world h) →
  wp (publish_result (below rt "results") (tmp_name job) job)
    (λ _ h', wrote rt (KResult job) b h0 h') (λ _ h', qrel rt h0 h' ∨ wrote rt (KResult job) b h0 h') h.
Proof.
  intros Hh Hj P. set (t := below (below rt "results") job). set (s := below (below rt "results") (tmp_name job)).
  unfold publish_result. fold s. fold t.
  set (I := λ h', qrel rt h0 h' ∧ pending m (below s "result.json") i b (wh_world h')).
  assert (fs_closed I) as HI.
  { intros x x' [Qx Px] Sx. split; [by eapply same_host_qrel|]. destruct Sx as (w & S & ->). by eapply pending_same. }
  apply wp_bind, wp_gets, wp_bind.
  wp_apply (s_sync_tree I HI _ _ h); [by split| |by intros e h' [? _]; left]. intros u h1 [[H1 P1] _].
  apply wp_bind. wp_apply (w_present _ t h1); [|intros e h' S; left; by eapply same_host_qrel].
  intros found h2 [S2 N2]. assert (I h2) as [H2 P2] by (by eapply HI).
  apply wp_bind, wp_throw_if; intros Hfound; [by left|]. specialize (N2 Hfound).
  apply wp_bind. wp_apply (w_publish_move rt h0 h2 _ _ job m i b H2 Hj P2 N2); [|by left].
  intros u' h3 W3. assert (qrel rt h3 h3) as H3 by (apply qrel_refl, W3).
  wp_apply (q_sync_directory rt h3 _ h3 H3); [intros u2 h4 [Q4 _]|intros e h4 Q4; right];
    exact (wrote_qrel rt (KResult job) b h0 h3 _ Hj W3 Q4).
Qed.
