(* ===== verification/QueueSteps.v ===== *)
(** * The worker refines a queue of durable steps

    [qstep] is the abstract queue: what may happen to its keys, one durable step
    at a time, and when the runtime may be told to create a container.  Every
    command of the worker, under any schedule of failures and so at any crash,
    is a finite sequence of these steps. *)

From stdpp Require Import sorting relations.
From S2P Require Import Prelude RustStr Json Posix Budget PrivateStore Template Net Activity WorkerFs WorkerData Queue Review Capsule Worker WorkerSpec QueueSpec QueueKeys.

(** The monad's associativity, under [wp]. *)
Lemma wp_assoc {S E A B D} (m : M S E A) (k : A → M S E B) (l : B → M S E D) Q X s :
  wp ((m ≫= k) ≫= l) Q X s → wp (m ≫= λ a, k a ≫= l) Q X s.
Proof. unfold wp, mbind, M_bind. by destruct (m s) as [[a|e] s']. Qed.

Section steps.
Context `{HS : Sha2} `{HJ : SerdeJson} `{HW : WorkerCodec}.
Context (c : Config) (cmd : list string).
Abbreviation rt := (root c).
Abbreviation view h := (kview rt (wh_world h)).

(** What allows a job to run: nothing is needed, or an operator's record. *)
Definition permitted (h : whost) (r : JobRequest) : Prop :=
  rq_action_class r ≠ Forbidden
  ∧ (needs_approval (rq_action_class r) = true →
     decided_for c (wh_world h) r Approve ∨ view h (KApproval (rq_id r)) = Some (Regular, APPROVED)).
(** No record of the job. *)
Definition unknown (h : whost) (job : string) : Prop :=
  ∀ k d, k ∈ [KPending job; KRunning job; KApproval job; KDecision job; KReceipt job] →
    view h k ≠ Some (Regular, d).

(** A state of the queue: the host, and the job this command has claimed and not
    yet given to the runtime. *)
Definition qstate : Type := whost * option JobRequest.
Inductive qstep : qstate → qstate → Prop :=
| q_quiet h h' t : qrel rt h h' → qstep (h, t) (h', t)
| q_drop h t : qstep (h, t) (h, None)
| q_capture job d r h h' t :
    cmd = ["drain"%string] → valid_identifier job 64 = true → wrote rt (KPending job) d h h' →
    request_from_slice d = Some r → validate_request c r = Ok tt → rq_id r = job →
    (wh_blind h = [] → unknown h job) → qstep (h, t) (h', t)
| q_approve job r h h' t :
    valid_identifier job 64 = true → cmd = ["approve"%string; job] → captured c (wh_world h) (KPending job) r →
    needs_approval (rq_action_class r) = true →
    wrote rt (KApproval job) APPROVED h h' → qstep (h, t) (h', t)
| q_decide job args decision expected r b h h' t :
    valid_identifier job 64 = true → cmd = "decide"%string :: args →
    parse_decision args = Ok (job, decision, expected) →
    captured c (wh_world h) (KPending job) r → request_digest r = Ok expected →
    receipt_to_vec (decision_receipt c job decision expected) = Some b →
    wrote rt (KDecision job) b h h' → qstep (h, t) (h', t)
| q_reserve job h h' t :
    valid_identifier job 64 = true → wrote rt (KReceipt job) [] h h' → qstep (h, t) (h', t)
| q_claim r h h' :
    captured c (wh_world h) (KPending (rq_id r)) r → permitted h r →
    view h (KReceipt (rq_id r)) = Some (Regular, []) → view h (KRunning (rq_id r)) = None →
    claimed rt (rq_id r) h h' → qstep (h, None) (h', Some r)
| q_dispatch r snapshot args h h' :
    create_args c r snapshot = Some args → wh_world h' = wh_world h →
    wh_commands h' = args :: wh_commands h → wh_blind h' = wh_blind h → qstep (h, Some r) (h', None)
| q_publish r res b h h' t :
    valid_identifier (rq_id r) 64 = true → result_matches r res = true → result_to_pretty res = Some b →
    wrote rt (KResult (rq_id r)) (b ++ [10]) h h' → qstep (h, t) (h', t)
| q_retire k r h h' t :
    kvalid k → k ∈ [KApproval (rq_id r); KPending (rq_id r); KRunning (rq_id r)] →
    finished_with c (wh_world h) r → removed rt k h h' → qstep (h, t) (h', t).
Definition steps : qstate → qstate → Prop := rtc qstep.

Lemma qstep_healthy s s' : qstep s s' → healthy rt s.1 → healthy rt s'.1.
Proof.
  intros St. destruct St as [h h' t Q|h t|job d r h h' t _ _ W|job r h h' t _ _ _ _ W|
    job args dec ex r b h h' t _ _ _ _ _ _ W|job h h' t _ W|r h h' _ _ _ _ W|
    r sn args h h' _ E _ _|r res b h h' t _ _ _ W|k r h h' t _ _ _ W]; simpl; try (intros _; apply W); try done.
  - intros _. by eapply qrel_healthy.
  - intros [A B]. unfold healthy. by rewrite E.
Qed.
Lemma steps_healthy s s' : steps s s' → healthy rt s.1 → healthy rt s'.1.
Proof. induction 1; eauto using qstep_healthy. Qed.
Lemma steps_one s s' : qstep s s' → steps s s'.
Proof. apply rtc_once. Qed.
Lemma steps_drop s h t : steps s (h, t) → steps s (h, None).
Proof. intros S. etrans; [exact S|]. apply steps_one, q_drop. Qed.
Lemma steps_quiet s h h' t : steps s (h, t) → qrel rt h h' → steps s (h', t).
Proof. intros S Q. etrans; [exact S|]. by apply steps_one, q_quiet. Qed.

(** On the way from [s0], whatever was claimed. *)
Definition track (s0 : qstate) (h : whost) : Prop := steps s0 (h, None) ∧ healthy rt h.
Definition walks {A} (m : W A) : Prop :=
  ∀ h, healthy rt h → wp m (λ _ h', steps (h, None) (h', None)) (λ _ h', steps (h, None) (h', None)) h.
Lemma walks_stays {A} (m : W A) s0 : walks m → stays (track s0) m any.
Proof.
  intros Hm h [S Hh]. wp_apply (Hm h Hh).
  - intros a h' S'. split; [|done]. split; [by etrans|]. exact (steps_healthy _ _ S' Hh).
  - intros e h' S'. split; [by etrans|]. exact (steps_healthy _ _ S' Hh).
Qed.
Lemma stays_walks {A} (m : W A) : (∀ s0, stays (track s0) m any) → walks m.
Proof.
  intros Hm h Hh. wp_apply (Hm (h, None) h); [split; [apply rtc_refl|done]|..].
  - by intros a h' [[? _] _].
  - by intros e h' [? _].
Qed.
Lemma quiet_walks {A} (m : W A) : (∀ h0, stays (qrel rt h0) m any) → walks m.
Proof.
  intros Hm h Hh. wp_apply (Hm h h (qrel_refl _ _ Hh)).
  - intros a h' [Q _]. by apply steps_one, q_quiet.
  - intros e h' Q. by apply steps_one, q_quiet.
Qed.
Lemma walks_bind {A B} (m : W A) (k : A → W B) : walks m → (∀ a, walks (k a)) → walks (m ≫= k).
Proof.
  intros Hm Hk. apply stays_walks. intros s0. apply stays_then; [by apply walks_stays|].
  intros a. by apply walks_stays.
Qed.
Lemma walks_each {A} (f : A → W unit) l : (∀ x, x ∈ l → walks (f x)) → walks (for_each f l).
Proof.
  intros Hf. apply stays_walks. intros s0. apply stays_foldM; [done|]. intros. by apply walks_stays, Hf.
Qed.
Lemma walks_fold {A B} (f : B → A → W B) l : ∀ b, (∀ b x, walks (f b x)) → walks (foldM f b l).
Proof.
  intros b Hf. apply stays_walks. intros s0. apply stays_foldM; [done|]. intros. by apply walks_stays.
Qed.

(** ** Receipts, claims and results *)

Context (Hc : placed_apart c).

Lemma w_reserve h0 h t job : qrel rt h0 h → valid_identifier job 64 = true →
  wp (reserve_result c job)
    (λ _ h', ∃ h1, steps (h0, t) (h1, t) ∧ qrel rt h1 h' ∧ view h1 (KReceipt job) = Some (Regular, [])
             ∧ ∀ k, kvalid k → k ≠ KReceipt job → view h1 k = view h0 k)
    (λ _ h', steps (h0, t) (h', t)) h.
Proof.
  intros Hh Hj. assert (∀ h', qrel rt h0 h' → steps (h0, t) (h', t)) as Hq.
  { intros h' Q. by apply steps_one, q_quiet. }
  unfold reserve_result. eapply wp_quiet; [apply f_check_retained, Hc|exact Hh| |by intros e; auto].
  intros u h1 H1 Hu. set (existing := position job (ru_receipts u)).
  assert (∀ h', qrel rt h0 h' → is_Some existing →
    ∃ h1, steps (h0, t) (h1, t) ∧ qrel rt h1 h' ∧ view h1 (KReceipt job) = Some (Regular, [])
             ∧ ∀ k, kvalid k → k ≠ KReceipt job → view h1 k = view h0 k) as Hold.
  { intros h' Q [i Hi]. exists h0. split_and!; [apply rtc_refl|done| |done].
    rewrite Forall_forall in Hu. by apply (Hu job), (position_elem _ _ i). }
  destruct (is_some_and _ existing) eqn:E1.
  { apply wp_ret, Hold; [done|]. by destruct existing. }
  apply wp_bind, wp_throw_if; intros _; [by apply Hq|].
  destruct (is_none existing) eqn:E2; [|apply wp_ret, Hold; [done|by destruct existing]].
  wp_apply (w_write_private rt h0 h1 (KReceipt job) [] H1 Hj ltac:(done)).
  - intros v h2 W. exists h2. split_and!; [by apply steps_one, (q_reserve job)|apply qrel_refl, W|apply W|].
    intros k Hk Hn. apply W; [done|set_solver].
  - intros e h2 [Q|W]; [by apply Hq|by apply steps_one, (q_reserve job)].
Qed.

Lemma view_captured h h' k r : view h' k = view h k → captured c (wh_world h) k r → captured c (wh_world h') k r.
Proof. intros E (d & Hd & ?). exists d. by rewrite E. Qed.
Lemma view_permitted h h' r :
  view h' (KDecision (rq_id r)) = view h (KDecision (rq_id r)) →
  view h' (KApproval (rq_id r)) = view h (KApproval (rq_id r)) → permitted h r → permitted h' r.
Proof.
  intros Ed Ea [Hf Hp]. split; [done|]. intros [(rec & (b & Hb & ?) & ?)|?]%Hp; [left|right; congruence].
  exists rec. split; [|done]. exists b. by rewrite Ed.
Qed.
Lemma view_finished h h' r : view h' (KResult (rq_id r)) = view h (KResult (rq_id r)) →
  finished_with c (wh_world h) r → finished_with c (wh_world h') r.
Proof. intros E (d & res & Hd & ?). exists d, res. by rewrite E. Qed.

Lemma w_claim h0 h r : qrel rt h0 h → captured c (wh_world h0) (KPending (rq_id r)) r → permitted h0 r →
  wp (claim c r) (λ _ h', steps (h0, None) (h', Some r)) (λ _ h', steps (h0, None) (h', None)) h.
Proof.
  intros Hh Hcap Hperm. assert (valid_identifier (rq_id r) 64 = true) as Hj.
  { destruct Hcap as (d & _ & _ & Hv & _). by eapply request_id_valid. }
  unfold claim. apply wp_bind. wp_apply (w_reserve h0 h None (rq_id r) Hh Hj); [|done].
  intros u h1 (hb & Sb & Q1 & Rb & Vb).
  assert (∀ h', qrel rt hb h' → steps (h0, None) (h', None)) as Hq.
  { intros h' Q. by eapply steps_quiet. }
  assert (captured c (wh_world hb) (KPending (rq_id r)) r) as Hcb by (eapply view_captured; [by apply Vb|done]).
  assert (permitted hb r) as Hpb by (eapply view_permitted; [by apply Vb..|done]).
  eapply wp_quiet; [apply f_present|exact Q1| |intros e; auto]. intros found h2 H2 (w & Qw & Hw).
  apply wp_bind, wp_throw_if; intros Hf; [by apply Hq|]. subst found.
  assert (view hb (KRunning (rq_id r)) = None) as Hrun.
  { rewrite <-(qw_view _ _ _ Qw) by done. unfold kview, kpath. simpl. change (below (root c) "running") with (sub c "running").
    by rewrite Hw. }
  wp_quietly as v h3 H3; [|by intros e; auto]. apply wp_bind.
  wp_apply (w_claim_move rt hb h3 _ _ (rq_id r) H3 Hj Hrun); [|by intros e; auto].
  intros x h4 C4. assert (qrel rt h4 h4) as H4 by (apply qrel_refl, C4).
  assert (∀ h', qrel rt h4 h' → steps (h0, None) (h', Some r)) as Hdone.
  { intros h' Q. etrans; [exact Sb|]. apply steps_one, (q_claim r); try done.
    exact (claimed_qrel _ _ _ _ _ Hj C4 Q). }
  assert (stays (qrel rt h4) (_ ← sync_directory (sub c "running"); sync_directory (sub c "pending")) any)
    as Hs by quiet.
  wp_apply (Hs h4 H4); [intros y h5 [Q5 _]; by apply Hdone|]. intros e h5 Q5. by eapply steps_drop, Hdone.
Qed.

(** The result of [write_json] and [publish_result]. *)
Lemma w_publish h0 h t r res : qrel rt h0 h → valid_identifier (rq_id r) 64 = true → result_matches r res = true →
  wp (_ ← write_json (below (sub c "results") (tmp_name (rq_id r))) "result.json" (result_to_pretty res);
      publish_result (sub c "results") (tmp_name (rq_id r)) (rq_id r))
    (λ _ h', steps (h0, t) (h', t) ∧ healthy rt h') (λ _ h', steps (h0, t) (h', t)) h.
Proof.
  intros Hh Hj Hm. apply wp_bind. wp_apply (w_write_json rt h0 h); [|exact Hh| |].
  - apply workdir_hidden, workdir_below. apply workdir_result.
  - intros u h1 (H1 & b & m & i & Hb & P). wp_apply (w_publish_result rt h0 h1 _ m i _ H1 Hj P).
    + intros v h2 W2. split; [by apply steps_one, (q_publish r res b)|apply W2].
    + intros e h2 [Q|W]; [by apply steps_one, q_quiet|by apply steps_one, (q_publish r res b)].
  - intros e h1 Q. by apply steps_one, q_quiet.
Qed.

Lemma plain_result_matches r status message now : str_in status TERMINAL = true →
  result_matches r (plain_result r status message now) = true.
Proof.
  intros Hs. unfold result_matches, plain_result. cbn [rs_version rs_id rs_action_class rs_status].
  by rewrite Hs, String.eqb_refl, bool_decide_true by done.
Qed.
Lemma job_result_matches r a b e f g now : result_matches r (job_result r a b e f g now) = true.
Proof.
  unfold result_matches, job_result. cbn [rs_version rs_id rs_action_class rs_status].
  rewrite String.eqb_refl, bool_decide_true by done. unfold job_status. repeat case_match; done.
Qed.
Lemma w_finish h0 h t r status message : qrel rt h0 h → valid_identifier (rq_id r) 64 = true →
  str_in status TERMINAL = true →
  wp (finish_without_run c r status message) (λ _ h', steps (h0, t) (h', t)) (λ _ h', steps (h0, t) (h', t)) h.
Proof.
  intros Hh Hj Hs. unfold finish_without_run. apply wp_bind.
  wp_apply (w_reserve h0 h t (rq_id r) Hh Hj); [|done]. intros u h1 (hb & Sb & Q1 & _ & _).
  assert (∀ h', qrel rt hb h' → steps (h0, t) (h', t)) as Hq by (intros h' Q; by eapply steps_quiet).
  wp_quietly as x1 h2 H2; [|auto]. wp_quietly as x2 h3 H3; [|auto]. wp_quietly as now h4 H4; [|auto].
  apply wp_assoc, wp_bind.
  wp_apply (w_publish hb h4 t r _ H4 Hj (plain_result_matches r status message now Hs)).
  - intros v h5 [S5 Hh5]. assert (stays (qrel rt h5) (activity_event c (rq_id r) status "") any) as Ha by quiet.
    assert (∀ h', qrel rt h5 h' → steps (h0, t) (h', t)) as Hq'.
    { intros h' Q. eapply steps_quiet; [|exact Q]. by etrans. }
    wp_apply (Ha h5 (qrel_refl _ _ Hh5)); [intros y h6 [Q6 _]|intros e h6 Q6]; by apply Hq'.
  - intros e h5 S5. by etrans.
Qed.

(** ** Retirement *)

Definition queue_name (directory : string) : Prop := directory = "pending"%string ∨ directory = "running"%string.
Lemma w_present_unlink hb h what k : kvalid k → qrel rt hb h →
  wp (present what (sys_unlink (kpath rt k))) (λ b h', if (b : bool) then removed rt k hb h' else qrel rt hb h')
    (λ _ h', qrel rt hb h') h.
Proof.
  intros Hk Hh. unfold present. apply wp_bind, wp_attempt.
  wp_apply (w_unlink rt hb h k Hk Hh).
  - intros u h' R. by apply wp_ret.
  - intros [] h' Q; by (apply wp_ret || apply wp_fail).
Qed.
Lemma w_retire h0 h t directory r : qrel rt h0 h → valid_identifier (rq_id r) 64 = true → queue_name directory →
  wp (retire c directory r) (λ _ h', steps (h0, t) (h', t)) (λ _ h', steps (h0, t) (h', t)) h.
Proof.
  intros Hh Hj Hd. assert (∀ h', qrel rt h0 h' → steps (h0, t) (h', t)) as Hq.
  { intros h' Q. by apply steps_one, q_quiet. }
  unfold retire. eapply wp_quiet; [by apply f_terminal|exact Hh| |by intros e; auto].
  intros fin h1 H1 Hfin. apply wp_bind, wp_throw_if; intros Ht; [by apply Hq|].
  apply negb_false_iff in Ht. specialize (Hfin Ht). apply wp_bind.
  change (below (sub c "approvals") (rq_id r)) with (kpath rt (KApproval (rq_id r))).
  eapply (wp_mono _ (λ b h', ∃ hb, steps (h0, t) (hb, t) ∧ qrel rt hb h' ∧ finished_with c (wh_world hb) r)
            _ (λ _ h', steps (h0, t) (h', t))).
  { wp_apply (w_present_unlink h0 h1 "consume approval: " (KApproval (rq_id r)) Hj H1); [|by intros e; auto].
    intros [] h2 H2; [|exists h0; split_and!; [apply rtc_refl|done..]].
    exists h2. split_and!; [|apply qrel_refl, H2|].
    - apply steps_one, (q_retire (KApproval (rq_id r)) r); [done|set_solver|done|done].
    - eapply view_finished; [|exact Hfin]. apply H2; [done|set_solver]. }
  2: done. intros b h2 (hb & Sb & H2 & Fb).
  assert (∀ h', qrel rt hb h' → steps (h0, t) (h', t)) as Hq' by (intros h' Q; by eapply steps_quiet).
  wp_quietly as x h3 H3; [|by intros e; auto]. apply wp_bind. unfold sys. apply wp_map_err.
  set (k := if (directory =? "running")%string then KRunning (rq_id r) else KPending (rq_id r)).
  assert (below (sub c directory) (json_name (rq_id r)) = kpath rt k) as -> by (by destruct Hd as [-> | ->]).
  assert (kvalid k) as Hk by (unfold k; by case_match).
  assert (k ∈ [KApproval (rq_id r); KPending (rq_id r); KRunning (rq_id r)]) as Hin
    by (unfold k; case_match; set_solver).
  wp_apply (w_unlink rt hb h3 k Hk H3); [|by intros e; auto]. intros y h4 R4.
  assert (∀ h', qrel rt h4 h' → steps (h0, t) (h', t)) as Hdone.
  { intros h' Q. etrans; [exact Sb|]. apply steps_one, (q_retire k r); [done..|].
    exact (removed_qrel _ _ _ _ _ Hk R4 Q). }
  assert (qrel rt h4 h4) as H4 by (apply qrel_refl, R4).
  wp_apply (q_sync_directory rt h4 _ h4 H4); [intros z h5 [Q5 _]|intros e h5 Q5]; by apply Hdone.
Qed.

(** ** Execution *)

(** A guard's release is quiet. *)
Lemma w_guarded {A} release (m : W (unit + A)) s h :
  (∀ h0, stays (qrel rt h0) release any) →
  wp m (λ _ h', steps s (h', None) ∧ healthy rt h') (λ _ h', steps s (h', None) ∧ healthy rt h') h →
  wp (guarded release m) (λ _ h', steps s (h', None) ∧ healthy rt h') (λ _ h', steps s (h', None) ∧ healthy rt h') h.
Proof.
  intros Hr Hm. assert (∀ h1, steps s (h1, None) ∧ healthy rt h1 →
    match release h1 with (_, h2) => steps s (h2, None) ∧ healthy rt h2 end) as Hrel.
  { intros h1 [S1 Hh1]. specialize (Hr h1 h1 (qrel_refl _ _ Hh1)). unfold wp in Hr.
    destruct (release h1) as [[u|e] h2]; [destruct Hr as [Q _]|rename Hr into Q];
      (split; [by eapply steps_quiet|by eapply qrel_healthy]). }
  unfold wp, guarded in *. destruct (m h) as [[[u|a]|e] h1].
  - specialize (Hrel h1 Hm). destruct (release h1). done.
  - pose proof (Hrel h1 Hm) as H1. destruct (release h1) as [[u|e] h2]; [done|].
    specialize (Hrel h2 H1). by destruct (release h2).
  - specialize (Hrel h1 Hm). destruct (release h1). done.
Qed.

Definition job_dir (r : JobRequest) : string := below (sub c "jobs") (rq_id r).
Lemma job_workdir r : workdir rt (job_dir r).
Proof. apply workdir_job. Qed.

(** The steps from the log to the result, from any base. *)
Lemma stays_move_scratch h0 what d a b : workdir rt a → workdir rt b →
  stays (qrel rt h0) (sys what (in_directory d (sys_move a b))) any.
Proof.
  intros Ha Hb. unfold sys. quiet. apply stays_simple. intros w Hw. apply run_wp.
  destruct (lookup_inode w a) as [[i n]|]; [|done].
  assert (qworld rt (wh_world h0) (set_names (moved a b) w)) as Hm.
  { apply qworld_set_names; [done| |].
    - intros k Hk. apply moved_keep; by apply workdir_tree.
    - intros q j [[? _]|(r & Hr & -> & Hj)]%moved_inv; [by left|right].
      destruct Hr as [->|[x ->]].
      + rewrite !append_empty in *. split; [by apply workdir_audit|]. exists a. split; [done|].
        intros _. by apply workdir_scratch.
      + split; [apply workdir_audit, (workdir_below _ b x), Hb|]. exists (below a x). split; [done|].
        intros _. by apply workdir_scratch, workdir_below. }
  destruct (lookup_inode w b) as [[j m]|].
  - destruct (i =? j); [done|]. destruct (negb _); [done|]. destruct (_ || _); [done|]. by split.
  - destruct (_ || _); [done|]. by split.
Qed.
Lemma stays_write_log h0 d name mode b : workdir rt d →
  stays (qrel rt h0) (file ← sys "write job log" (in_directory d (sys_create (below d name) mode));
                      sys "write job log" (sys_write file b)) any.
Proof.
  intros Hd. eapply stays_bind.
  - unfold sys. apply stays_map_err, stays_on_fs, stays_in_directory, stays_create.
    by apply workdir_scratch, workdir_below.
  - intros f Hf. unfold sys. apply stays_map_err, stays_on_fs. by apply stays_write.
Qed.
Definition arrived (s : qstate) {A} (_ : A) (h : whost) : Prop := steps s (h, None) ∧ healthy rt h.
Lemma arrived_quiet {A} s h h' (a : A) : steps s (h, None) → qrel rt h h' → arrived s a h'.
Proof. intros S Q. split; [by eapply steps_quiet|by eapply qrel_healthy]. Qed.
Lemma w_publish_execution h0 h r container started outcome :
  healthy rt h0 → qrel rt h0 h → valid_identifier (rq_id r) 64 = true →
  wp (publish_execution c r container started outcome) (arrived (h0, None)) (arrived (h0, None)) h.
Proof.
  intros Hh0 Hh Hj. assert (∀ e h', qrel rt h0 h' → arrived (h0, None) (A := string) e h') as Hq.
  { intros e h'. apply arrived_quiet, rtc_refl. }
  unfold publish_execution, runtime_output. destruct outcome as [[st timed_out] exit_code].
  wp_quietly as logs h1 H1; [|auto].
  destruct (match logs with Ok o => _ | Err e => _ end) as [log trunc].
  destruct (match su_diagnostic st with Some d => _ | None => _ end) as [log' trunc'].
  wp_quietly as x1 h2 H2; [|auto]. wp_quietly as x2 h3 H3; [|auto]. wp_quietly as mode h4 H4; [|auto].
  apply wp_assoc.
  eapply (wp_quiet _ _ any); [apply stays_write_log, workdir_result|exact H4|intros x3 h5 H5 _|auto].
  eapply (wp_quiet _ _ any); [|exact H5|intros x4 h6 H6 _|auto].
  { pose proof (job_workdir r) as Hjw. unfold job_dir in Hjw.
    destruct (_ && _); [apply stays_then; [quiet|intros _]|quiet].
    apply stays_move_scratch; [by apply workdir_below|apply workdir_below, workdir_result]. }
  wp_quietly as now h7 H7; [|auto]. apply wp_assoc, wp_bind.
  wp_apply (w_publish h0 h7 None r _ H7 Hj (job_result_matches r _ _ _ _ _ _)).
  - intros y h8 S8. by apply wp_ret.
  - intros e h8 S8. split; [done|]. exact (steps_healthy _ _ S8 Hh0).
Qed.
Lemma w_run_container h0 h r container : healthy rt h0 → qrel rt h0 h → valid_identifier (rq_id r) 64 = true →
  wp (run_container c r container) (arrived (h0, None)) (arrived (h0, None)) h.
Proof.
  intros Hh0 Hh Hj. unfold run_container. pose proof (job_workdir r) as Hjw. unfold job_dir in Hjw.
  wp_quietly as started h1 H1; [|intros e h'; apply arrived_quiet, rtc_refl].
  wp_quietly as outcome h2 H2; [|intros e h'; apply arrived_quiet, rtc_refl].
  apply wp_bind. wp_apply (w_publish_execution h0 h2 r container (is_ok started) outcome Hh0 H2 Hj); [|done].
  intros res h3 H3. by apply wp_ret.
Qed.
Lemma w_run_job h0 h ws r : healthy rt h0 → qrel rt h0 h → valid_identifier (rq_id r) 64 = true →
  wp (run_job c ws r) (arrived (h0, Some r)) (arrived (h0, Some r)) h.
Proof.
  intros Hh0 Hh Hj. pose proof (job_workdir r) as Hjw. unfold job_dir in Hjw.
  assert (∀ e h', qrel rt h0 h' → arrived (h0, Some r) (A := string) e h') as Hq.
  { intros e h'. apply arrived_quiet. apply steps_one, q_drop. }
  unfold run_job, set_snapshot_permissions, copy_directory_fd.
  wp_quietly as x1 h1 H1; [|auto]. wp_quietly as x2 h2 H2; [|auto]. wp_quietly as x3 h3 H3; [|auto].
  wp_quietly as copied h4 H4; [|auto]. destruct copied as [b|e].
  2: { apply wp_bind. wp_apply (w_finish h0 h4 (Some r) r "rejected" _ H4 Hj eq_refl).
       - intros u h5 S5. apply wp_ret. split; [exact (steps_drop _ _ _ S5)|exact (steps_healthy _ _ S5 Hh0)].
       - intros x h5 S5. split; [exact (steps_drop _ _ _ S5)|exact (steps_healthy _ _ S5 Hh0)]. }
  wp_quietly as x5 h5 H5; [|auto].
  apply wp_bind, wp_lift; [|by intros e _; apply Hq]. intros args Hargs. inv_ok. apply wp_bind.
  eapply (wp_mono _ (arrived (h0, Some r)) _ (arrived (h0, Some r))).
  { unfold command_ok. apply wp_bind, wp_map_err.
    assert (∀ x, wh_world x = wh_world h5 → wh_commands x = args :: wh_commands h5 → wh_blind x = wh_blind h5 →
      steps (h0, Some r) (x, None) ∧ healthy rt x) as Hd.
    { intros x E1 E2 E3. split.
      - eapply rtc_l; [apply q_quiet, H5|]. apply steps_one. by eapply q_dispatch.
      - destruct (qrel_healthy _ _ _ H5). unfold healthy. by rewrite E1. }
    unfold wp at 1, run_output. simpl. destruct (wh_outputs h5) as [|[o|e] l]; [by apply Hd| |by apply Hd].
    apply wp_throw_if; intros _; by apply Hd. }
  2: done. intros u h6 [S6 Hh6].
  apply (w_guarded _ _ (h0, Some r)).
  - intros hb. unfold remove_worker_container. quiet.
  - wp_apply (w_run_container h6 h6 r (container_name c (rq_id r)) Hh6 (qrel_refl _ _ Hh6) Hj).
    + intros a h7 [S7 Hh7]. split; [by etrans|done].
    + intros a h7 [S7 Hh7]. split; [by etrans|done].
Qed.
Lemma w_execute h0 h ws r : healthy rt h0 → qrel rt h0 h → valid_identifier (rq_id r) 64 = true →
  wp (execute c ws r) (arrived (h0, Some r)) (arrived (h0, Some r)) h.
Proof.
  intros Hh0 Hh Hj. pose proof (job_workdir r) as Hjw. unfold job_dir in Hjw. unfold execute.
  wp_quietly as x1 h1 H1; [|intros e h'; apply arrived_quiet, steps_one, q_drop].
  apply wp_bind. wp_apply (w_guarded _ _ (h0, Some r)); [|apply w_run_job; done|..].
  - intros hb. unfold release_directory. quiet.
  - intros fin h2 [S2 Hh2].
    destruct fin as [u|res]; [by apply wp_ret|].
    assert (stays (qrel rt h2) (_ ← audit c (rq_id r) "completed" (Some (rq_action_class r)) (rs_status res);
      activity_event c (rq_id r) "execution" (if is_none (rs_exit_code res) then "unknown"%string else rs_status res)) any)
      as Hs by quiet.
    wp_apply (Hs h2 (qrel_refl _ _ Hh2)); [intros y h3 [Q3 _]|intros e h3 Q3]; by eapply arrived_quiet.
  - done.
Qed.

(** ** Recovery and the queue *)

(** From quiet code to the rest of a walk, with what the code found. *)
Lemma walks_quiet {A B} (m : W A) (k : A → W B) (Q : whost → A → Prop) :
  (∀ h0, stays (qrel rt h0) m (Q h0)) →
  (∀ h0 a h, healthy rt h0 → qrel rt h0 h → Q h0 a →
     wp (k a) (λ _ h', steps (h0, None) (h', None)) (λ _ h', steps (h0, None) (h', None)) h) →
  walks (m ≫= k).
Proof.
  intros Hm Hk h Hh. eapply wp_quiet; [apply Hm|by apply qrel_refl| |].
  - intros a h' Hq HQ. by apply Hk.
  - intros e h' Hq. by apply steps_one, q_quiet.
Qed.
(** A walk from a later host. *)
Lemma walks_from {A} (m : W A) h0 h : walks m → healthy rt h0 → qrel rt h0 h →
  wp m (λ _ h', steps (h0, None) (h', None)) (λ _ h', steps (h0, None) (h', None)) h.
Proof.
  intros Hm Hh0 Hq. wp_apply (Hm h (qrel_healthy _ _ _ Hq)); intros x h' S;
    (eapply rtc_l; [by apply q_quiet|exact S]).
Qed.

Lemma walks_retire directory r : valid_identifier (rq_id r) 64 = true → queue_name directory →
  walks (retire c directory r).
Proof. intros Hj Hd h Hh. apply w_retire; [by apply qrel_refl|done..]. Qed.
Lemma walks_finish r status message : valid_identifier (rq_id r) 64 = true → str_in status TERMINAL = true →
  walks (finish_without_run c r status message).
Proof. intros Hj Hs h Hh. apply w_finish; [by apply qrel_refl|done..]. Qed.
Lemma walks_audit job e a d : walks (audit c job e a d).
Proof. apply quiet_walks. intros. quiet. Qed.

Lemma q_recover_staged directory : queue_name directory ∨ directory = "approvals"%string ∨ directory = "decisions"%string →
  walks (recover_staged c directory).
Proof.
  intros Hd. apply quiet_walks. intros h0. unfold recover_staged.
  apply stays_then; [quiet|]. intros []; [quiet|]. apply stays_then; [quiet|]. intros _.
  apply stays_then; [quiet|]. intros l. apply stays_then; [|intros _; quiet].
  unfold for_each. apply stays_foldM; [done|]. intros u name _ _. unfold remove_staged.
  destruct (is_some_and _ _) eqn:E; [|quiet].
  assert (hidden rt (below (sub c directory) name)) as Hh.
  { destruct (to_str name) as [s|] eqn:Es; [|done]. apply to_str_eq in Es as ->.
    simpl in E. unfold staged_job in E. destruct (strip_prefix "." name) as [x|] eqn:Ex; [|done].
    apply strip_prefix_Some in Ex as ->. apply hidden_dot.
    by destruct Hd as [[-> | ->]|[-> | ->]]. }
  quiet.
Qed.
Lemma q_remove_interrupted h0 parent name : workdir rt (below parent name) →
  stays (qrel rt h0) (remove_interrupted parent name) any.
Proof. intros Hw. unfold remove_interrupted. quiet. Qed.
Lemma walks_recover_claim name : walks (recover_claim c name).
Proof.
  unfold recover_claim. destruct (to_str name ≫= strip_suffix ".json") as [job|]; [|apply quiet_walks; intros; quiet].
  eapply walks_quiet; [intros h0; apply f_read_request; by right|]. intros h0 r h Hh0 Hh [Hcap Hk].
  assert (rq_id r = job) as Hid by (by destruct Hcap as (d & _ & _ & _ & ->)).
  assert (valid_identifier (rq_id r) 64 = true) as Hj by (by rewrite Hid).
  apply walks_from; [|done..]. apply walks_bind; [apply quiet_walks; intros; quiet|intros _].
  apply walks_bind; [apply quiet_walks; intros; apply q_remove_interrupted, workdir_job|intros _].
  apply walks_bind; [apply quiet_walks; intros; apply q_remove_interrupted, workdir_result|intros _].
  apply walks_bind; [apply quiet_walks; intros; eapply stays_any, (f_terminal c _ r Hj)|intros fin].
  apply walks_bind; [destruct fin; cbn [negb]; [apply quiet_walks; intros; quiet|by apply walks_finish]|intros _].
  apply walks_bind; [apply walks_audit|intros _]. apply walks_retire; [done|by right].
Qed.
Lemma walks_recover : walks (recover c).
Proof.
  unfold recover. apply walks_bind.
  { apply walks_each. intros d Hd. apply q_recover_staged. unfold queue_name. set_solver. }
  intros _. apply walks_bind; [apply quiet_walks; intros; quiet|intros d].
  apply walks_bind; [apply quiet_walks; intros; quiet|intros found].
  apply walks_each. intros. apply walks_recover_claim.
Qed.

Lemma w_process_request h0 h ws r : healthy rt h0 → qrel rt h0 h →
  captured c (wh_world h0) (KPending (rq_id r)) r →
  wp (process_request c ws r) (λ _ h', steps (h0, None) (h', None)) (λ _ h', steps (h0, None) (h', None)) h.
Proof.
  intros Hh0 Hh Hcap. assert (valid_identifier (rq_id r) 64 = true) as Hj.
  { destruct Hcap as (d & _ & _ & Hv & _). by eapply request_id_valid. }
  assert (∀ e : string, ∀ h', qrel rt h0 h' → steps (h0, None) (h', None)) as Hq.
  { intros _ h' Q. by apply steps_one, q_quiet. }
  unfold process_request. eapply wp_quiet; [by apply f_terminal|exact Hh| |auto]. intros fin h1 H1 _.
  destruct fin; [apply w_retire; [done..|by left]|].
  eapply wp_quiet; [by apply f_decision_for|exact H1| |auto]. intros dec h2 H2 Hdec.
  assert (∀ status message, str_in status TERMINAL = true →
    wp (_ ← finish_without_run c r status message; retire c "pending" r)
      (λ _ h', steps (h0, None) (h', None)) (λ _ h', steps (h0, None) (h', None)) h2) as Hend.
  { intros st msg Hst. apply walks_from; [|done..]. apply walks_bind; [by apply walks_finish|intros _].
    apply walks_retire; [done|by left]. }
  case_bool_decide; [by apply Hend|]. case_bool_decide as Hforb; [by apply Hend|].
  eapply (wp_quiet _ _ (λ ok, ok = true → dec = Some Approve ∨ view h0 (KApproval (rq_id r)) = Some (Regular, APPROVED)));
    [|exact H2| |auto].
  { case_bool_decide; [apply stays_ret; by left|]. eapply stays_mono; [by apply f_approved|]. naive_solver. }
  intros ok h3 H3 Hok. destruct (needs_approval (rq_action_class r) && negb ok) eqn:Hn.
  { apply wp_ret. by apply (Hq EmptyString). }
  assert (permitted h0 r) as Hperm.
  { split; [done|]. intros Hna. rewrite Hna in Hn. destruct ok; [|done].
    destruct (Hok eq_refl) as [->|?]; [left|by right]. by apply Hdec. }
  apply wp_bind. wp_apply (w_claim h0 h3 r H3 Hcap Hperm); [|done]. intros u h4 S4.
  pose proof (steps_healthy _ _ S4 Hh0) as Hh4. simpl in Hh4.
  assert (∀ h', steps (h4, Some r) (h', None) → steps (h0, None) (h', None)) as Ht.
  { intros h' S. etrans; [exact S4|exact S]. }
  assert (∀ e : string, ∀ h', qrel rt h4 h' → steps (h0, None) (h', None)) as Hq4.
  { intros _ h' Q. apply Ht. eapply rtc_l; [by apply q_quiet|]. apply steps_one, q_drop. }
  unfold dispatch_claimed. eapply (wp_quiet _ _ any); [quiet|by apply (qrel_refl rt h4)| |auto].
  intros there h5 H5 _. destruct there.
  { wp_apply (walks_from (recover c) h4 h5 walks_recover Hh4 H5); intros x h6 S6; apply Ht;
      (eapply rtc_l; [apply q_drop|exact S6]). }
  apply wp_bind, wp_attempt. wp_apply (w_execute h4 h5 ws r Hh4 H5 Hj).
  - intros x h6 [S6 Hh6]. wp_apply (walks_retire "running" r Hj ltac:(by right) h6 Hh6);
      intros y h7 S7; apply Ht; by etrans.
  - intros e h6 [S6 Hh6]. assert (stays (qrel rt h6) (_ ← activity_event c (rq_id r) "execution-uncertain" ""; fail (A := unit) e) any)
      as Hs by quiet.
    wp_apply (Hs h6 (qrel_refl _ _ Hh6)); [intros y h7 [Q7 _]|intros y h7 Q7]; apply Ht; by eapply steps_quiet.
Qed.
Lemma walks_process_ready ws : walks (process_ready c ws).
Proof.
  unfold process_ready. apply walks_bind; [apply quiet_walks; intros; quiet|intros d].
  apply walks_bind; [apply quiet_walks; intros; quiet|intros found]. apply walks_each. intros name _.
  unfold process_entry. destruct (strip_suffix ".json" name) as [[|ch stem]|]; [apply quiet_walks; intros; quiet| |
    apply quiet_walks; intros; quiet].
  apply walks_bind; [apply quiet_walks; intros; quiet|intros job]. unfold read_pending.
  eapply walks_quiet; [intros h0; apply f_read_request; by left|]. intros h0 r h Hh0 Hh [Hcap Hk].
  apply w_process_request; [done..|]. by destruct (Hcap) as (b & _ & _ & _ & ->).
Qed.

(** ** Capture *)

Lemma follow_regular n w p i x : lookup_inode w p = Some (i, x) → i_kind x = Regular → is_ok (follow n w p) = true.
Proof. intros E K. destruct n; cbn [follow]; rewrite E, K; done. Qed.
Lemma w_any_exists h0 ps : stays (qrel rt h0) (any_exists ps) (λ b, b = false → wh_blind h0 = [] →
  ∀ k d, kvalid k → kpath rt k ∈ ps → view h0 k ≠ Some (Regular, d)).
Proof.
  induction ps as [|p ps IH]; cbn [any_exists]; [apply stays_ret; set_solver|].
  eapply (stays_bind _ _ _ (λ b, b = false → wh_blind h0 = [] → ∀ k d, kvalid k → kpath rt k = p → view h0 k ≠ Some (Regular, d))).
  - intros h Hh. unfold wp, exists_path. destruct (wh_blind h) as [|b l] eqn:Eb.
    + split; [done|]. intros Hf _ k d Hk <-. rewrite <-(qw_view _ _ _ (qr_world _ _ _ Hh)) by done.
      unfold kview. intros E. destruct (lookup_inode _ _) as [[i x]|] eqn:El; [|done].
      injection E as Ek _. by rewrite (follow_regular _ _ _ _ _ El Ek) in Hf.
    + split; [|by intros _ Hb%(qr_blind _ _ _ Hh); rewrite Hb in Eb].
      destruct Hh as [A B C]. split; [done..|]. intros Hb. by rewrite C in Eb.
  - intros [] Hp; [by apply stays_ret|]. eapply stays_mono; [exact IH|].
    intros b Hb Hf Hbl k d Hk [E|Hin]%elem_of_cons; [by apply Hp|by apply Hb].
Qed.
Lemma f_job_exists h0 job : valid_identifier job 64 = true →
  stays (qrel rt h0) (job_exists c job) (λ b, b = false → wh_blind h0 = [] → unknown h0 job).
Proof.
  intros Hj. eapply stays_mono; [apply w_any_exists|]. intros b Hb Hf Hbl k d Hin.
  assert (kvalid k) as Hk by (unfold kvalid; set_solver). apply (Hb Hf Hbl k d Hk).
  unfold pending_path. repeat (apply elem_of_cons in Hin as [-> | Hin]; [set_solver|]). set_solver.
Qed.
Lemma inbox_request_Ok name content r : inbox_request c name content = Ok r →
  request_from_slice content = Some r ∧ validate_request c r = Ok tt.
Proof. unfold inbox_request. intros E. inv_ok. by simplify_eq. Qed.
Lemma walks_ingest_entry inbox u name : cmd = ["drain"%string] → (∀ x, hidden rt (below inbox x)) → walks (ingest_entry c inbox u name).
Proof.
  intros Hcmd Hin. unfold ingest_entry. destruct (_ || _); [apply quiet_walks; intros; quiet|].
  apply walks_bind; [apply quiet_walks; intros; quiet|]. intros [f|]; [|apply quiet_walks; intros; quiet].
  apply walks_bind; [apply quiet_walks; intros; quiet|intros m].
  apply walks_bind; [apply quiet_walks; intros; quiet|intros _].
  apply walks_bind; [apply quiet_walks; intros; quiet|intros content].
  destruct (inbox_request c name content) as [r|e] eqn:Er; [|apply quiet_walks; intros; quiet].
  apply inbox_request_Ok in Er as (Hr & Hval). pose proof (request_id_valid _ _ _ Hval) as Hj.
  eapply walks_quiet; [intros h0; by apply f_job_exists|]. intros h0 there h Hh0 Hh Hun. destruct there.
  { apply walks_from; [|done..]. apply quiet_walks. intros hb. unfold refuse_duplicate, read_pending.
    apply stays_then; [|intros _; quiet]. apply stays_then; [quiet|]. intros t.
    apply stays_then; [|intros _; quiet]. destruct t; [|quiet]. apply stays_then; [|intros _; quiet].
    eapply stays_any, f_read_request; by left. }
  specialize (Hun eq_refl). unfold capture. assert (∀ e : string, ∀ h', qrel rt h0 h' → steps (h0, None) (h', None)) as Hq.
  { intros _ h' Q. by apply steps_one, q_quiet. }
  wp_quietly as x1 h1 H1; [|auto]. apply wp_bind.
  wp_apply (w_write_private rt h0 h1 (KPending (rq_id r)) content H1 Hj ltac:(done)).
  - intros x2 h2 W2. assert (steps (h0, None) (h2, None)) as S2 by (apply steps_one; eapply (q_capture (rq_id r) content r); [exact Hcmd|exact Hj|exact W2|done..]).
    assert (healthy rt h2) as Hh2 by apply W2.
    assert (stays (qrel rt h2) (_ ← unlink_at inbox name; _ ← audit c (rq_id r)
        (if needs_approval (rq_action_class r) then "approval-required" else "request-accepted")
        (Some (rq_action_class r)) "request moved into private worker state";
        mret (fst u + 1, snd u + blen content)) any) as Hs by quiet.
    wp_apply (Hs h2 (qrel_refl _ _ Hh2)); [intros y h3 [Q3 _]|intros y h3 Q3]; by eapply steps_quiet.
  - intros e h2 [Q|W]; [by apply (Hq e)|]. apply steps_one; eapply (q_capture (rq_id r) content r); [exact Hcmd|exact Hj|exact W|done..].
Qed.
Lemma walks_ingest inbox : cmd = ["drain"%string] → (∀ x, hidden rt (below inbox x)) → walks (ingest c inbox).
Proof.
  intros Hcmd Hin. unfold ingest. apply walks_bind; [apply quiet_walks; intros; quiet|].
  intros [[names b]|e]; [|apply quiet_walks; intros; quiet].
  apply walks_bind; [apply quiet_walks; intros; quiet|intros u].
  apply walks_bind; [|intros _; apply quiet_walks; intros; quiet]. apply walks_fold. intros. by apply walks_ingest_entry.
Qed.
End steps.
