(* ===== verification/QueueCommands.v ===== *)
(** * Every command of the worker is a walk of the queue

    [drain], [approve], [deny], [requests] and [decide], with the layout and the
    lock that come first, from the steps of [QueueSteps]. *)

From stdpp Require Import sorting relations.
From S2P Require Import Prelude RustStr Json Posix Budget PrivateStore Template Net Activity WorkerFs WorkerData Queue Review Capsule Worker WorkerSpec QueueSpec QueueKeys QueueSteps.

(** ** Quiet parts of the review and of the layout *)

Section review_quiet.
Context (rt : string) (h0 : whost).
Abbreviation J := (qrel rt h0).
Lemma q_read_at d name max : stays J (read_at d name max) any.
Proof. unfold read_at, check_owner. quiet. Qed.
Lemma q_checked_directory d name b : stays J (checked_directory d name b) any.
Proof. unfold checked_directory, check_owner. quiet. Qed.
Lemma q_print v : stays J (print_json v) any.
Proof. unfold print_json, print_bytes. quiet. Qed.

(** A link outside the keys and the scratch files. *)
Lemma stays_hard_link a b : hidden rt b → ¬ scratch rt b → b ≠ apath rt →
  stays (qworld rt (wh_world h0)) (sys_hard_link a b) any.
Proof.
  intros Hb Hs Ha. apply stays_simple. intros w Hw. apply run_wp.
  destruct (lookup_inode w a) as [[i n]|] eqn:Ea; [|done]. case_bool_decide; [done|].
  destruct (w_names w !! b) eqn:Eb; [done|]. split; [|done]. apply qworld_set_names; [done| |].
  - intros k Hk. rewrite lookup_insert_ne; [done|]. by apply Hb.
  - intros q j. rewrite lookup_insert. case_decide; intros; simplify_eq; [|by left]. right. split; [done|].
    exists a. by apply lookup_name in Ea as [? _].
Qed.
Lemma q_write_private d name b :
  hidden rt (below d (staging_name name)) → hidden rt (below d name) → ¬ scratch rt (below d name) →
  below d name ≠ apath rt → stays J (write_private d name b) any.
Proof.
  intros Hs Hn Hsc Ha. unfold write_private. do 3 (apply stays_then; [quiet|]; intros ?).
  eapply stays_bind; [by apply q_create_file|]. intros f Hf. apply stays_then.
  { quiet. by apply stays_write. }
  intros _. apply stays_then; [unfold sys; quiet; by apply stays_hard_link|]. intros _. quiet.
Qed.
Lemma q_create_dir_all parts : ∀ prefix,
  (∀ n, (0 < n ≤ length parts)%nat → hidden rt (foldl below prefix (take n parts))) →
  stays J (create_dir_all prefix parts) any.
Proof.
  induction parts as [|part parts IH]; intros prefix Hp; cbn [create_dir_all]; [by apply stays_ret|].
  assert (hidden rt (below prefix part)) as H1 by (apply (Hp 1%nat); simpl; lia).
  assert (stays J (create_dir_all (below prefix part) parts) any) as H2.
  { apply IH. intros n Hn. apply (Hp (S n)). simpl. lia. }
  quiet.
Qed.
End review_quiet.
#[export] Hint Resolve q_read_at q_checked_directory q_print : quiet.

Section layout.
Context `{HS : Sha2} `{HJ : SerdeJson} `{HW : WorkerCodec}.
Context (c : Config) (h0 : whost).
Abbreviation rt := (root c).
Abbreviation J := (qrel rt h0).
Lemma foldl_below_length l : ∀ p, (String.length p ≤ String.length (foldl below p l))%nat.
Proof.
  induction l as [|x l IH]; intros p; simpl; [lia|]. etrans; [|apply IH]. unfold below.
  rewrite !length_append. lia.
Qed.
(** The state directory, what is above it, and its directories. *)
Lemma hidden_above n : hidden rt (foldl below EmptyString (take n (components (state_dir c)))).
Proof.
  intros k Hk E. pose proof (foldl_below_length (drop n (components (state_dir c)))
    (foldl below EmptyString (take n (components (state_dir c))))) as Hl.
  rewrite <-foldl_app, take_drop in Hl. change (foldl below EmptyString (components (state_dir c))) with rt in Hl.
  apply (f_equal String.length) in E. rewrite E in Hl. unfold kpath, below in Hl. rewrite !length_append in Hl.
  simpl in Hl. lia.
Qed.
Lemma q_make_sub d : slashless d → stays J (create_dir_all EmptyString (components (state_dir c) ++ [d])) any.
Proof.
  intros Hd. apply q_create_dir_all. intros n Hn.
  destruct (decide (n ≤ length (components (state_dir c)))%nat) as [Hle|Hgt].
  - rewrite take_app_le by done. apply hidden_above.
  - rewrite take_ge by (rewrite length_app in *; simpl in *; lia). rewrite foldl_app. simpl.
    by apply hidden_flat.
Qed.
Lemma q_layout : stays J (ensure_state_layout c) any.
Proof.
  unfold ensure_state_layout, for_each. apply stays_then.
  { apply stays_foldM; [done|]. intros u name Hin _. unfold private_directory.
    apply stays_then; [apply stays_map_err, q_make_sub|intros _; quiet].
    repeat (apply elem_of_cons in Hin as [-> | Hin]; [done|]). by apply not_elem_of_nil in Hin. }
  intros _. apply stays_then; [by apply stays_map_err, q_make_sub|intros _; quiet].
Qed.
Lemma q_enter_group : stays J (enter_worker_group c) any.
Proof.
  unfold enter_worker_group. apply stays_then; [apply stays_get|]. intros h. apply stays_then; [quiet|].
  intros []; [quiet|]. apply stays_then; [quiet|]. intros _. apply stays_modify. intros s Hs. by eapply qrel_world.
Qed.
Lemma q_lock : stays J (Queue.lock c) any.
Proof.
  unfold Queue.lock. apply stays_then; [quiet|]. intros d. apply stays_then; [quiet|]. intros mode.
  apply stays_then; [|intros f; quiet]. unfold sys. apply stays_map_err, stays_on_fs, stays_in_directory.
  apply stays_open_create. by apply hidden_flat.
Qed.
Context (Hc : placed_apart c).
Lemma f_Queue_open : stays J (Queue_open c) (λ r, ∀ q, r = Some q → q_root q = rt ∧ q_pending q = sub c "pending").
Proof.
  unfold Queue_open. apply stays_then; [quiet|]. intros []; cbn [negb]; [|by apply stays_ret].
  eapply stays_bind; [by apply stays_map_err, f_open_root|]. intros r ->.
  apply stays_then; [quiet|]. intros x. apply stays_then; [unfold check_owner; quiet|]. intros _.
  apply stays_then; [quiet|]. intros [[f|]|[]]; try apply stays_fail; [|by apply stays_ret].
  apply stays_then; [quiet|]. intros m. apply stays_then; [unfold check_owner; quiet|]. intros _.
  do 3 (apply stays_then; [quiet|]; intros ?).
  eapply stays_bind; [apply f_checked_directory|]. intros [p|] Hp; [|apply stays_fail].
  apply stays_ret. intros q [= <-]. by rewrite (Hp p eq_refl).
Qed.
Lemma f_Queue_request q job : q_pending q = sub c "pending" → valid_identifier job 64 = true →
  stays J (Queue_request c q job) (λ r, ∀ x, r = Some x → captured c (wh_world h0) (KPending job) x).
Proof.
  intros Hq Hj. unfold Queue_request. rewrite Hq.
  eapply stays_bind; [by apply (f_read_at c h0 (KPending job))|]. intros [b|] Hb; [|by apply stays_ret].
  specialize (Hb b eq_refl).
  eapply stays_bind; [apply (stays_lift _ _ (λ r, request_from_slice b = Some r))|]; [by intros r Hr; inv_ok|].
  intros r Hr. eapply stays_bind; [apply stays_map_err, (stays_lift _ _ (λ _, validate_request c r = Ok tt))|]; [by intros []|].
  intros u Hv. eapply stays_bind; [apply (stays_throw_if _ _ _ (λ _, rq_id r = job))|]; [intros; by reflect|].
  intros u' Hid. apply stays_ret. intros x [= <-]. by exists b.
Qed.
Lemma q_no_running q job : stays J (no_running_claim q job) any.
Proof. unfold no_running_claim. quiet. Qed.
Lemma q_legacy q job : stays J (legacy_approved q job) any.
Proof. unfold legacy_approved. quiet. Qed.
End layout.
#[export] Hint Resolve q_no_running q_legacy q_layout q_enter_group q_lock : quiet.

(** ** Commands *)

Section commands.
Context `{HS : Sha2} `{HJ : SerdeJson} `{HW : WorkerCodec}.
Context (c : Config) (Hc : placed_apart c) (cmd : list string).
Abbreviation rt := (root c).
Abbreviation walk := (walks c cmd).
Abbreviation stp := (steps c cmd).

Lemma f_read_pending h0 job : stays (qrel rt h0) (read_pending c job)
  (λ r, captured c (wh_world h0) (KPending job) r ∧ rq_id r = job ∧ valid_identifier job 64 = true).
Proof.
  eapply stays_mono; [apply f_read_request; by left|]. intros r [Hr Hk]. split_and!; [exact Hr| |exact Hk].
  by destruct Hr as (d & _ & _ & _ & Hid).
Qed.
Lemma quiet_walk {A} (m : W A) : (∀ h0, stays (qrel rt h0) m any) → walk m.
Proof. apply quiet_walks. Qed.
Ltac quietly := apply quiet_walk; intros; quiet.

Lemma walks_drain : cmd = ["drain"%string] → walk (drain c).
Proof.
  intros Hcmd.
  unfold drain. apply walks_bind; [apply quiet_walk; intros; eapply stays_any, f_check_retained, Hc|intros _].
  apply walks_bind; [unfold consume_drain_request, sub; quietly|intros _].
  apply walks_bind; [by apply walks_recover|intros _].
  eapply walks_quiet; [intros h0; apply f_open_path, pa_workspace, Hc|]. intros h0 ws h Hh0 Hh ->.
  apply walks_from; [|done..]. apply walks_bind; [by apply walks_process_ready|intros _].
  eapply walks_quiet.
  { intros h1. apply (stays_attempt _ _ (λ x, x = below (canonical (components (workspace c))) ".tentaflake-worker")).
    unfold open_dir_at. repeat (apply stays_then; [quiet|]; intros _). by apply stays_ret. }
  intros h1 control h2 Hh1 Hh2 Hctl. apply walks_from; [|done..]. destruct control as [d|[]]; try solve [quietly].
  rewrite (Hctl d eq_refl). eapply walks_quiet.
  { intros h3. apply (stays_attempt _ _ (λ x, x = below (below (canonical (components (workspace c))) ".tentaflake-worker") "inbox")).
    unfold open_dir_at. repeat (apply stays_then; [quiet|]; intros _). by apply stays_ret. }
  intros h3 inbox h4 Hh3 Hh4 Hin. apply walks_from; [|done..]. destruct inbox as [i|[]]; try solve [quietly].
  rewrite (Hin i eq_refl). apply walks_bind; [apply walks_ingest; [done..|]; intros x; by apply hidden_inbox|].
  intros _. by apply walks_process_ready.
Qed.

Lemma walks_approve job : cmd = ["approve"%string; job] → walk (approve c job).
Proof.
  intros Hcmd. unfold approve. eapply walks_quiet; [intros h0; apply f_read_pending|].
  intros h0 r h Hh0 Hh (Hcap & Hid & Hj). assert (valid_identifier (rq_id r) 64 = true) as Hj' by (by rewrite Hid).
  assert (∀ e : string, ∀ h', qrel rt h0 h' → stp (h0, None) (h', None)) as Hq.
  { intros _ h' Q. by apply steps_one, q_quiet. }
  eapply (wp_quiet _ _ any); [by eapply stays_any, f_terminal|exact Hh|intros fin h1 H1 _|auto].
  wp_quietly as u2 h2 H2; [|auto].
  apply wp_bind, wp_throw_if; intros Hna; [by apply (Hq EmptyString)|].
  eapply (wp_quiet _ _ any); [by eapply stays_any, f_decision_for|exact H2|intros dec h3 H3 _|auto].
  wp_quietly as u4 h4 H4; [|auto].
  assert (walk (_ ← audit c job "approved" (Some (rq_action_class r)) "host operator approval recorded";
                ws ← open_path_no_symlinks (workspace c); process_ready c ws)) as Hrest.
  { apply walks_bind; [by apply walks_audit|intros _]. apply walks_bind; [quietly|intros ws].
    by apply walks_process_ready. }
  destruct (is_none dec); [|by apply walks_from]. apply wp_bind.
  apply orb_false_iff in Hna as [Hna _]. apply negb_false_iff in Hna.
  wp_apply (w_write_private rt h0 h4 (KApproval job) APPROVED H4 Hj ltac:(done)).
  - intros u5 h5 W5. assert (healthy rt h5) as Hh5 by apply W5.
    wp_apply (Hrest h5 Hh5); intros x h6 S6; (eapply rtc_l; [exact (q_approve c cmd job r h0 h5 None Hj Hcmd Hcap Hna W5)|exact S6]).
  - intros e h5 [Q|W5]; [by apply (Hq e)|]. exact (steps_one _ _ _ _ (q_approve c cmd job r h0 h5 None Hj Hcmd Hcap Hna W5)).
Qed.
Lemma walks_deny job : walk (deny c job).
Proof.
  unfold deny. eapply walks_quiet; [intros h0; apply f_read_pending|].
  intros h0 r h Hh0 Hh (Hcap & Hid & Hj). assert (valid_identifier (rq_id r) 64 = true) as Hj' by (by rewrite Hid).
  apply walks_from; [|done..].
  apply walks_bind; [apply quiet_walk; intros; by eapply stays_any, f_terminal|intros fin].
  apply walks_bind; [quietly|intros _].
  apply walks_bind; [apply quiet_walk; intros; by eapply stays_any, f_decision_for|intros dec].
  apply walks_bind; [quietly|intros _]. apply walks_bind; [by apply walks_finish|intros _].
  apply walks_bind; [by apply walks_retire, or_introl|intros _]. by apply walks_audit.
Qed.

Lemma walks_requests : walk (requests c).
Proof.
  unfold requests. eapply walks_quiet; [intros h0; by apply f_Queue_open|]. intros h0 r h Hh0 Hh Hr.
  apply walks_from; [|done..]. destruct r as [q|]; [|quietly]. destruct (Hr q eq_refl) as [Hroot Hpend].
  apply walks_bind; [quietly|intros found]. apply walks_bind; [|intros resp; quietly].
  apply quiet_walk. intros h1. apply stays_foldM; [done|]. intros [resp stopped] name _ _. unfold review_entry.
  destruct stopped; [quiet|]. do 2 (apply stays_then; [quiet|]; intros ?).
  destruct (to_str name ≫= strip_suffix ".json") as [job|]; [|quiet].
  eapply stays_bind; [apply stays_map_err, (stays_lift _ _ (λ _, valid_identifier job 64 = true))|].
  { by intros u Hu%valid_Ok. }
  intros u Hj. eapply stays_bind; [by apply f_Queue_request|]. intros request Hreq.
  eapply stays_bind; [apply (stays_lift _ _ (λ r, valid_identifier (rq_id r) 64 = true))|].
  { intros r E. inv_ok. destruct (Hreq r) as (d & _ & _ & _ & ->); done. }
  intros r Hr'. apply stays_then; [quiet|]. intros _.
  apply stays_then; [by apply stays_map_err; eapply stays_any, f_terminal|]. intros [|]; [quiet|].
  apply stays_then; [by eapply stays_any, f_decision_for|]. intros dec. quiet.
Qed.

Lemma q_decisions h0 : stays (qrel rt h0) (decisions_directory rt) any.
Proof. unfold decisions_directory. quiet. Qed.
Lemma drain_not_scratch : ¬ scratch rt (sub c DRAIN_REQUEST).
Proof.
  unfold sub. inversion 1 as [E|x E|x E]; [by apply below_inj in E|..];
    rewrite below_below in E; by apply below_inj in E.
Qed.
Lemma q_wakeup h0 q : stays (qrel rt h0) (publish_wakeup c q) any.
Proof.
  unfold publish_wakeup. apply stays_then; [quiet|]. intros [b|]; [quiet|]. apply stays_map_err.
  apply q_write_private; [by apply hidden_flat..|apply drain_not_scratch|]. by intros E%below_inj.
Qed.
Lemma walks_decide args : cmd = "decide"%string :: args → walk (decide_command c args).
Proof.
  intros Hcmd. unfold decide_command. eapply (walks_quiet _ _ _ _ (λ _ x, parse_decision args = Ok x)).
  { intros h0. by apply stays_lift. }
  intros h0 [[job decision] expected] h Hh0 Hh Hargs. assert (valid_identifier job 64 = true) as Hj.
  { unfold parse_decision in Hargs. inv_ok. simplify_eq. 
    destruct (validate_identifier "job id" job 64) eqn:Ev; [by eapply valid_Ok|done]. }
  assert (∀ e : string, ∀ h', qrel rt h0 h' → stp (h0, None) (h', None)) as Hq.
  { intros _ h' Q. by apply steps_one, q_quiet. }
  eapply wp_quiet; [by apply f_Queue_open|exact Hh| |auto]. intros queue h1 H1 Hqueue.
  destruct queue as [q|]; [|by apply (Hq EmptyString)]. destruct (Hqueue q eq_refl) as [Hroot Hpend].
  unfold decide_queue. eapply wp_quiet; [by apply f_Queue_request|exact H1| |auto]. intros request h2 H2 Hreq.
  eapply (wp_quiet _ _ (λ _, ∀ r, request = Some r → request_digest r = Ok expected)); [|exact H2| |auto].
  { destruct request as [r|]; [|by apply stays_ret].
    eapply stays_bind; [by apply (stays_lift _ _ (λ x, request_digest r = Ok x))|]. intros x Hx.
    apply stays_throw_if. intros E r' [= <-]. apply negb_false_iff, String.eqb_eq in E. by subst x. }
  intros u h3 H3 Hdig. rewrite Hroot.
  eapply (wp_quiet _ _ any); [by eapply stays_any, f_read_receipt|exact H3| |auto]. intros existing h4 H4 _.
  destruct existing as [rec|].
  { assert (stays (qrel rt h0) (_ ← throw_if (negb (rc_request_digest rec =? expected)%string
       || negb (bool_decide (rc_decision rec = decision))) "conflict: job already has a different recorded decision";
       map_err uncertain (print_json (receipt_to_vec rec))) any) as Hs by quiet.
    wp_apply (Hs h4 H4); [intros x h5 [Q _]|intros x h5 Q]; by apply (Hq EmptyString). }
  destruct request as [r|]; [|by apply (Hq EmptyString)]. specialize (Hreq r eq_refl). specialize (Hdig r eq_refl).
  assert (rq_id r = job) as Hid by (by destruct Hreq as (d & _ & _ & _ & Hid)).
  apply wp_bind, wp_lift; [|by intros e ?]. intros r' Hr'. injection Hr' as <-.
  wp_quietly as u5 h5 H5; [|auto].
  eapply (wp_quiet _ _ any); [apply stays_map_err; eapply stays_any, f_terminal; by rewrite Hid|exact H5| |auto].
  intros fin h6 H6 _. wp_quietly as u7 h7 H7; [|auto]. wp_quietly as ap h8 H8; [|auto].
  wp_quietly as u9 h9 H9; [|auto]. wp_quietly as u10 h10 H10; [|auto].
  unfold record_decision. rewrite Hroot.
  eapply (wp_quiet _ _ any); [apply q_decisions|exact H10| |auto]. intros d h11 H11 _.
  wp_quietly as found h12 H12; [|auto]. wp_quietly as u13 h13 H13; [|auto].
  eapply (wp_quiet _ _ any); [apply q_wakeup|exact H13| |auto]. intros u14 h14 H14 _.
  apply wp_bind, wp_lift; [|by intros e _; apply (Hq e)]. intros b Hb. inv_ok. apply wp_bind, wp_map_err.
  wp_apply (w_write_private rt h0 h14 (KDecision job) b H14 Hj ltac:(done)).
  - intros u15 h15 W. assert (healthy rt h15) as Hh15 by apply W.
    assert (stp (h0, None) (h15, None)) as S15.
    { apply steps_one. exact (q_decide c cmd job args decision expected r b h0 h15 None Hj Hcmd Hargs Hreq Hdig Hb W). }
    assert (stays (qrel rt h15) (_ ← activity_event c job (if bool_decide (decision = Deny) then "denied" else "approved") "";
      map_err uncertain (print_json (Some b))) any) as Hs by quiet.
    wp_apply (Hs h15 (qrel_refl _ _ Hh15)); [intros x h16 [Q _]|intros x h16 Q]; by eapply steps_quiet.
  - intros e h15 [Q|W]; [by apply (Hq e)|]. apply steps_one.
    exact (q_decide c cmd job args decision expected r b h0 h15 None Hj Hcmd Hargs Hreq Hdig Hb W).
Qed.
End commands.

Lemma required_job_Ok args job : required_job args = Ok job → args = [job].
Proof.
  unfold required_job, reject_extra_args. intros E. inv_ok. destruct args as [|a1 [|a2 rest]]; by simplify_eq/=.
Qed.
(** Under any schedule of failures, one command is a walk of the queue. *)
Lemma run_config_steps `{HS : Sha2} `{HJ : SerdeJson} `{HW : WorkerCodec} c command args h r h' :
  placed_apart c → healthy (root c) h → run_config c command args h = (r, h') →
  steps c (command :: args) (h, None) (h', None).
Proof.
  intros Hc Hh Hrun. assert (walks c (command :: args) (run_config c command args)) as Hw.
  { unfold run_config. apply walks_bind; [apply quiet_walks; intros; quiet|intros _].
    destruct (String.eqb_spec command "requests") as [->|_].
    { apply walks_bind; [apply quiet_walks; intros; quiet|intros _]. by apply walks_requests. }
    destruct (String.eqb_spec command "decide") as [->|_]; [by apply walks_decide|].
    do 3 (apply walks_bind; [apply quiet_walks; intros; quiet|intros _]).
    destruct (String.eqb_spec command "drain") as [->|_].
    { eapply (walks_quiet _ _ _ _ (λ _ _, args = [])).
      - intros h0. apply stays_lift. intros u. by destruct args.
      - intros h0 u h1 Hh0 Hh1 ->. apply walks_from; [|done..]. by apply walks_drain. }
    destruct (String.eqb_spec command "approve") as [->|_].
    { eapply (walks_quiet _ _ _ _ (λ _ job, args = [job])).
      - intros h0. apply stays_lift. intros job. by apply required_job_Ok.
      - intros h0 job h1 Hh0 Hh1 ->. apply walks_from; [|done..]. by apply walks_approve. }
    destruct (String.eqb_spec command "deny") as [->|_]; [|apply quiet_walks; intros; quiet].
    apply walks_bind; [apply quiet_walks; intros; quiet|intros job]. by apply walks_deny. }
  specialize (Hw h Hh). unfold wp in Hw. rewrite Hrun in Hw. by destruct r.
Qed.

(** The end of a process is quiet. *)
Lemma process_quiet rt f h : healthy rt h → qrel rt h (set_wworld (set_locks f (wh_world h)) h).
Proof. intros [W So]. split; [|by exists []|done]. split; simpl; try done. by destruct So. Qed.
(** The whole program: the command that the arguments and the configuration name. *)
Lemma main_steps `{HS : Sha2} `{HJ : SerdeJson} `{HW : WorkerCodec} c path command args h h1 r h' :
  placed_apart c → healthy (root c) h → load_config path h = (Ok c, h1) →
  main ("--config" :: path :: command :: args)%string h = (r, h') → steps c (command :: args) (h, None) (h', None).
Proof.
  intros Hc Hh Hl. unfold main, process, run. cbn [head tail]. unfold throw_if, lift. simpl.
  unfold mbind, M_bind, mret, M_ret. rewrite Hl. simpl.
  destruct (run_config c command args h1) as [r1 h2] eqn:E. intros [= <- <-].
  assert (qrel (root c) h h1) as Q1.
  { assert (stays (qrel (root c) h) (load_config path) any) as Hs by (unfold load_config; quiet).
    specialize (Hs h (qrel_refl _ _ Hh)). unfold wp in Hs. by rewrite Hl in Hs; destruct Hs. }
  assert (healthy (root c) h1) as Hh1 by (by eapply qrel_healthy).
  pose proof (run_config_steps _ _ _ _ _ _ Hc Hh1 E) as S. pose proof (steps_healthy _ _ _ _ S Hh1) as Hh2.
  eapply rtc_l; [by apply q_quiet|]. etrans; [exact S|]. by apply steps_one, q_quiet, process_quiet.
Qed.
