(* ===== verification/WorkerRun.v ===== *)
(** * The life of a worker

    A sequence of commands of the worker, each under its own schedule of failures
    and with its own configuration of the same agent and state directory; between
    two commands anything outside the private records of the queue may change, and
    results may expire. *)

From stdpp Require Import sorting relations.
From S2P Require Import Prelude RustStr Json Posix Budget PrivateStore Template Net Activity WorkerFs WorkerData Queue Review Capsule Worker WorkerSpec QueueSpec QueueKeys QueueSteps QueueCommands.

(** The containers the runtime was told to create, the last first. *)
Definition creates (h : whost) : list (list string) :=
  filter (λ args, head args = Some "create"%string) (wh_commands h).
Lemma creates_quiet l : Forall quiet_command l → filter (λ args, head args = Some "create"%string) l = [].
Proof. induction 1 as [|a l Ha _ IH]; [done|]. by rewrite filter_cons_False. Qed.
Lemma creates_same h h' :
  (∃ l, wh_commands h' = l ++ wh_commands h ∧ Forall quiet_command l) → creates h' = creates h.
Proof. intros (l & E & F). unfold creates. by rewrite E, filter_app, creates_quiet. Qed.

(** Receipts, decisions and results are final. *)
Definition final (k : key) : Prop :=
  match k with KDecision _ | KReceipt _ | KResult _ => True | _ => False end.

Section step_facts.
Context `{HS : Sha2} `{HJ : SerdeJson} `{HW : WorkerCodec}.
Context (c : Config) (cmd : list string).
Abbreviation rt := (root c).
Abbreviation view h := (kview rt (wh_world h)).

(** What a step may write: a record that appears, and why. *)
Inductive news (h : whost) : key → fkind * bytes → Prop :=
| n_capture job d r : cmd = ["drain"%string] → request_from_slice d = Some r → validate_request c r = Ok tt →
    rq_id r = job → (wh_blind h = [] → unknown c h job) → news h (KPending job) (Regular, d)
| n_approve job r : cmd = ["approve"%string; job] → captured c (wh_world h) (KPending job) r →
    news h (KApproval job) (Regular, APPROVED)
| n_decide job args decision expected r b : cmd = "decide"%string :: args →
    parse_decision args = Ok (job, decision, expected) → captured c (wh_world h) (KPending job) r →
    request_digest r = Ok expected → receipt_to_vec (decision_receipt c job decision expected) = Some b →
    news h (KDecision job) (Regular, b)
| n_reserve job : news h (KReceipt job) (Regular, [])
| n_claim r x : captured c (wh_world h) (KPending (rq_id r)) r → view h (KPending (rq_id r)) = Some x →
    news h (KRunning (rq_id r)) x
| n_publish r res b : result_matches r res = true → result_to_pretty res = Some b →
    news h (KResult (rq_id r)) (Regular, b ++ [10]).
(** What a step may remove. *)
Inductive gone (h h' : whost) : key → Prop :=
| g_claim r : captured c (wh_world h) (KPending (rq_id r)) r → 
    view h' (KRunning (rq_id r)) = view h (KPending (rq_id r)) → gone h h' (KPending (rq_id r))
| g_retire k r : k ∈ [KApproval (rq_id r); KPending (rq_id r); KRunning (rq_id r)] →
    finished_with c (wh_world h) r → gone h h' k.

Lemma wrote_news k b h h' q x : wrote rt k b h h' → kvalid q → view h' q = Some x →
  view h q = Some x ∨ q = k ∧ x = (Regular, b).
Proof.
  intros (C & N & V) Hq E. destruct (decide (q = k)) as [->|Hn]; [right; split; [done|congruence]|left].
  rewrite <-E. symmetry. apply C; [done|set_solver].
Qed.
Lemma wrote_keeps k b h h' q x : wrote rt k b h h' → kvalid q → view h q = Some x → view h' q = Some x.
Proof.
  intros (C & N & V) Hq E. destruct (decide (q = k)) as [->|Hn]; [congruence|].
  rewrite <-E. apply C; [done|set_solver].
Qed.
Lemma qstep_news s s' k x : qstep c cmd s s' → kvalid k → view s'.1 k = Some x →
  view s.1 k = Some x ∨ news s.1 k x.
Proof.
  intros St Hk Hx. destruct St as [h h' t Q|h t|job d r h h' t ? _ W|job r h h' t _ ? ? _ W|
    job args dec ex r b h h' t _ ? ? ? ? ? W|job h h' t _ W|r h h' Hcap _ _ _ W|
    r sn args h h' _ E _ _|r res b h h' t _ ? ? W|k' r h h' t _ Hin _ W]; simpl in *;
    try (destruct (wrote_news _ _ _ _ _ _ W Hk Hx) as [?|[-> ->]]; [by left|right; by econstructor]).
  - left. by rewrite <-(qw_view _ _ _ (qr_world _ _ _ Q)).
  - by left.
  - destruct W as (C & P & R). destruct (decide (k = KPending (rq_id r))) as [->|Hn]; [congruence|].
    destruct (decide (k = KRunning (rq_id r))) as [->|Hn']; [right; constructor; [done|congruence]|left].
    rewrite <-Hx. symmetry. apply C; [done|set_solver].
  - left. by rewrite <-E.
  - left. destruct W as (C & P). destruct (decide (k = k')) as [->|Hn]; [congruence|].
    rewrite <-Hx. symmetry. apply C; [done|set_solver].
Qed.
Lemma qstep_gone s s' k x : qstep c cmd s s' → kvalid k → view s.1 k = Some x →
  view s'.1 k = Some x ∨ gone s.1 s'.1 k.
Proof.
  intros St Hk Hx. destruct St as [h h' t Q|h t|job d r h h' t ? _ W|job r h h' t _ ? ? _ W|
    job args dec ex r b h h' t _ ? ? ? ? ? W|job h h' t _ W|r h h' Hcap _ _ Hrun W|
    r sn args h h' _ E _ _|r res b h h' t _ ? ? W|k' r h h' t _ Hin Hfin W]; simpl in *;
    try (left; by eapply wrote_keeps).
  - left. by rewrite (qw_view _ _ _ (qr_world _ _ _ Q)).
  - by left.
  - destruct W as (C & P & R). destruct (decide (k = KPending (rq_id r))) as [->|Hn]; [right; by constructor|].
    left. destruct (decide (k = KRunning (rq_id r))) as [->|Hn']; [congruence|].
    rewrite <-Hx. apply C; [done|set_solver].
  - left. by rewrite E.
  - destruct W as (C & P). destruct (decide (k = k')) as [->|Hn]; [right; by eapply g_retire|].
    left. rewrite <-Hx. apply C; [done|set_solver].
Qed.

(** The runtime's commands and the claimed job. *)
Lemma qstep_creates s s' : qstep c cmd s s' →
  creates s'.1 = creates s.1
  ∨ ∃ r snapshot args, s.2 = Some r ∧ s'.2 = None ∧ create_args c r snapshot = Some args
      ∧ creates s'.1 = args :: creates s.1.
Proof.
  destruct 1 as [h h' t Q|h t|job d r h h' t _ _ W|job r h h' t _ _ _ _ W|
    job args dec ex r b h h' t _ _ _ _ _ _ W|job h h' t _ W|r h h' _ _ _ _ W|
    r sn args h h' Ha _ E _|r res b h h' t _ _ _ W|k r h h' t _ _ _ W]; simpl;
    try (left; by apply creates_same, W); try by left.
  - left. apply creates_same, Q.
  - right. exists r, sn, args. split_and!; [done..|]. unfold creates. rewrite E.
    unfold create_args in Ha. apply bind_Some in Ha as (p & _ & [= <-]). by rewrite filter_cons_True.
Qed.
Lemma qstep_token s s' r : qstep c cmd s s' → s'.2 = Some r →
  s.2 = Some r ∨ captured c (wh_world s.1) (KPending (rq_id r)) r ∧ permitted c s.1 r
    ∧ view s'.1 (KReceipt (rq_id r)) = Some (Regular, []) ∧ view s'.1 (KPending (rq_id r)) = None.
Proof.
  destruct 1 as [| | | | | |r' h h' Hcap Hp Hrec Hrun W| | |]; simpl; try (by left); try done.
  intros [= ->]. right. destruct W as (C & P & R). split_and!; [done..| |done].
  etrans; [|exact Hrec]. apply C; [|set_solver]. destruct Hcap as (d & _ & _ & Hv & _).
  by eapply request_id_valid.
Qed.
Lemma qstep_blind s s' : qstep c cmd s s' → wh_blind s.1 = [] → wh_blind s'.1 = [].
Proof.
  destruct 1 as [h h' t Q|h t|job d r h h' t _ _ W|job r h h' t _ _ _ _ W|
    job args dec ex r b h h' t _ _ _ _ _ _ W|job h h' t _ W|r h h' _ _ _ _ W|
    r sn args h h' _ _ _ E|r res b h h' t _ _ _ W|k r h h' t _ _ _ W]; simpl;
    try done; try apply W; [apply Q|congruence].
Qed.
End step_facts.

(** ** Lives *)

Section life.
Context `{HS : Sha2} `{HJ : SerdeJson} `{HW : WorkerCodec} (rt ag : string).
Abbreviation view h := (kview rt (wh_world h)).

(** A command of the worker: its configuration, its arguments and the host it
    was started on. *)
Definition invocation : Type := Config * list string * whost.
(** The operator approved this request: it was the pending request of its job. *)
Definition approved_by (past : list invocation) (r : JobRequest) : Prop :=
  ∃ c h, (c, ["approve"%string; rq_id r], h) ∈ past ∧ captured c (wh_world h) (KPending (rq_id r)) r.
(** The operator decided for the digest of this request. *)
Definition decided_by (past : list invocation) (r : JobRequest) (dec : Decision) : Prop :=
  ∃ c args h seen D, (c, "decide"%string :: args, h) ∈ past
    ∧ parse_decision args = Ok (rq_id r, dec, D)
    ∧ captured c (wh_world h) (KPending (rq_id r)) seen ∧ request_digest seen = Ok D ∧ request_digest r = Ok D.
Definition authorised (past : list invocation) (c : Config) (r : JobRequest) : Prop :=
  validate_request c r = Ok tt ∧ rq_action_class r ≠ Forbidden
  ∧ (needs_approval (rq_action_class r) = true → approved_by past r ∨ decided_by past r Approve).

(** A configuration of this agent's queue. *)
Definition ours (c : Config) : Prop := root c = rt ∧ agent c = ag ∧ placed_apart c.
(** Between two commands. *)
Definition elsewhere (h h' : whost) : Prop :=
  healthy rt h' ∧ wh_blind h' = [] ∧ wh_commands h' = wh_commands h
  ∧ ∀ k, kvalid k → view h' k = view h k ∨ (∃ job, k = KResult job) ∧ view h' k = None.
Inductive lives : list invocation → whost → Prop :=
| l_start h : healthy rt h → wh_blind h = [] → creates h = [] → (∀ k, kvalid k → view h k = None) → lives [] h
| l_elsewhere past h h' : lives past h → elsewhere h h' → lives past h'
| l_command past c path command args h h1 r h' :
    lives past h → ours c → load_config path h = (Ok c, h1) →
    main ("--config" :: path :: command :: args)%string h = (r, h') →
    lives ((c, command :: args, h) :: past) h'.

(** ** The invariant of a life *)

#[local] Instance config_inhabited : Inhabited Config.
Proof. constructor. constructor; exact inhabitant. Qed.

Definition names_job (job : string) (args : list string) : Prop :=
  args !! 1%nat = Some ("--name=tfw-" ++ ag ++ "-" ++ job)%string.
Record live (past : list invocation) (c : Config) (s : qstate) : Prop := {
  li_healthy : healthy rt s.1;
  li_blind : wh_blind s.1 = [];
  li_once : NoDup ((.!! 1%nat) <$> creates s.1);
  li_made : Forall (λ args, ∃ c r snapshot, ours c ∧ create_args c r snapshot = Some args ∧ authorised past c r) (creates s.1);
  li_done job args : valid_identifier job 64 = true → args ∈ creates s.1 → names_job job args →
    view s.1 (KReceipt job) = Some (Regular, []) ∧ view s.1 (KPending job) = None;
  li_token r : s.2 = Some r → authorised past c r
    ∧ view s.1 (KReceipt (rq_id r)) = Some (Regular, []) ∧ view s.1 (KPending (rq_id r)) = None
    ∧ ∀ args, args ∈ creates s.1 → ¬ names_job (rq_id r) args;
  li_approval job x : valid_identifier job 64 = true → view s.1 (KApproval job) = Some x →
    x = (Regular, APPROVED) ∧ ∃ r, rq_id r = job ∧ approved_by past r
         ∧ ∀ d, view s.1 (KPending job) = Some (Regular, d) → request_from_slice d = Some r;
  li_decision job x : valid_identifier job 64 = true → view s.1 (KDecision job) = Some x →
    ∃ c args h seen dec D b, x = (Regular, b) ∧ (c, "decide"%string :: args, h) ∈ past
      ∧ parse_decision args = Ok (job, dec, D) ∧ captured c (wh_world h) (KPending job) seen
      ∧ request_digest seen = Ok D ∧ receipt_to_vec (decision_receipt c job dec D) = Some b;
}.

Lemma create_names_job c r snapshot args : agent c = ag → create_args c r snapshot = Some args → names_job (rq_id r) args.
Proof.
  unfold create_args, append_runtime_policy. intros Ha (p & Hp & [= <-])%bind_Some.
  apply bind_Some in Hp as (l & _ & [= <-]). unfold names_job, container_name. by rewrite Ha.
Qed.
Lemma names_job_inj job job' args : names_job job args → names_job job' args → job = job'.
Proof. unfold names_job. intros -> [= E]. apply append_inj_r in E. by simplify_eq/=. Qed.
Lemma authorised_more past past' c r : past ⊆ past' → authorised past c r → authorised past' c r.
Proof.
  intros Hs (V & F & A). split_and!; [done..|]. intros [(c' & h & Hin & ?)|(c' & args & h & seen & D & Hin & ?)]%A.
  - left. exists c', h. split; [by apply Hs|done].
  - right. exists c', args, h, seen, D. split; [by apply Hs|done].
Qed.
Lemma live_more past past' c c' h : past ⊆ past' → live past c (h, None) → live past' c' (h, None).
Proof.
  intros Hs [A1 A2 A3 A4 A5 A6 A7 A8]. split; try done.
  - eapply Forall_impl; [exact A4|]. intros args (c1 & r & sn & ? & ? & ?). exists c1, r, sn.
    split_and!; [done..|by eapply authorised_more].
  - intros job x Hj Hx. destruct (A7 job x Hj Hx) as (-> & r & ? & (c1 & h1 & Hin & ?) & ?). split; [done|]. exists r.
    split_and!; [done| |done]. exists c1, h1. split; [by apply Hs|done].
  - intros job x Hj Hx. destruct (A8 job x Hj Hx) as (c1 & args & h1 & seen & dec & D & b & ? & Hin & ?).
    exists c1, args, h1, seen, dec, D, b. split_and!; [done|by apply Hs|by destruct_and!..].
Qed.

(** A request of the queue that may run is authorised. *)
Context (receipt_roundtrip : ∀ rec b, receipt_to_vec rec = Some b → receipt_from_slice b = Some rec).
Lemma permitted_authorised past c s r : ours c → live past c s →
  captured c (wh_world s.1) (KPending (rq_id r)) r → permitted c s.1 r → authorised past c r.
Proof.
  intros (Hr & Ha & _) L (d & Hd & Hreq & Hval & _) [Hf Hp]. rewrite Hr in Hd.
  pose proof (request_id_valid _ _ _ Hval) as Hj. split_and!; [done..|].
  intros Hna. destruct (Hp Hna) as [(rec & (b & Hb & Hrec & _) & Hdig & Hdec)|Hap].
  - right. rewrite Hr in Hb. destruct (li_decision _ _ _ L _ _ Hj Hb)
      as (c1 & args & h1 & seen & dec & D & b' & [= <-] & Hin & Hargs & Hseen & HD & Hvec).
    rewrite (receipt_roundtrip _ _ Hvec) in Hrec. injection Hrec as <-. simpl in *. subst dec.
    by exists c1, args, h1, seen, D.
  - left. rewrite Hr in Hap. destruct (li_approval _ _ _ L _ _ Hj Hap) as (_ & r' & Hid & Hby & Heq).
    specialize (Heq d Hd). assert (r' = r) as <- by congruence. done.
Qed.

(** One step of a command that was started on [hs]. *)
Definition since (c : Config) (cmd : list string) (hs : whost) (s : qstate) : Prop :=
  cmd ≠ ["drain"%string] → ∀ job x, valid_identifier job 64 = true →
    view s.1 (KPending job) = Some x → view hs (KPending job) = Some x.
Section one_step.
Context (past : list invocation) (c : Config) (cmd : list string) (hs : whost) (s s' : qstate).
Context (Hc : ours c) (L : live ((c, cmd, hs) :: past) c s) (Sn : since c cmd hs s) (St : qstep c cmd s s').

Lemma step_news k x : kvalid k → view s'.1 k = Some x → view s.1 k = Some x ∨ news c cmd s.1 k x.
Proof. destruct Hc as (<- & _). by apply qstep_news. Qed.
Lemma step_final k x : kvalid k → final k → view s.1 k = Some x → view s'.1 k = Some x.
Proof.
  destruct Hc as (<- & _). intros Hk Hf Hx. destruct (qstep_gone _ _ _ _ _ _ St Hk Hx) as [?|G]; [done|].
  destruct G as [r|k r Hin]; [done|]. destruct k; try done; set_solver.
Qed.
Lemma step_since : since c cmd hs s'.
Proof.
  intros Hd job x Hj Hx. destruct (step_news (KPending job) x Hj Hx) as [?|N]; [by apply Sn|].
  by inversion N.
Qed.
Lemma step_captured job r : cmd ≠ ["drain"%string] → captured c (wh_world s.1) (KPending job) r →
  captured c (wh_world hs) (KPending job) r.
Proof.
  intros Hd (d & Hv & Hr & Hval & Hid). exists d. split_and!; [|done..].
  pose proof (request_id_valid _ _ _ Hval) as Hj. rewrite Hid in Hj. destruct Hc as (Er & _). rewrite Er in *.
  by apply (Sn Hd).
Qed.
Lemma step_approval job x : valid_identifier job 64 = true → view s'.1 (KApproval job) = Some x →
  x = (Regular, APPROVED) ∧ ∃ r, rq_id r = job ∧ approved_by ((c, cmd, hs) :: past) r
       ∧ ∀ d, view s'.1 (KPending job) = Some (Regular, d) → request_from_slice d = Some r.
Proof.
  intros Hj Hx. destruct (step_news (KApproval job) x Hj Hx) as [Hx'|N].
  - destruct (li_approval _ _ _ L _ _ Hj Hx') as (-> & r & Hid & Hby & Hreq). split; [done|]. exists r.
    split_and!; [done..|]. intros d Hd. destruct (step_news (KPending job) _ Hj Hd) as [?|N]; [by apply Hreq|].
    inversion N as [j d' r' _ _ _ _ Hu| | | | |]; subst. destruct Hc as (Er & _). specialize (Hu (li_blind _ _ _ L)).
    unfold unknown in Hu. rewrite Er in Hu. exfalso. eapply Hu, Hx'. set_solver.
  - inversion N as [|j r Hcmd Hcap E1| | | |]; subst j; subst x. split; [done|].
    assert (captured c (wh_world hs) (KPending job) r) as Hcs by (apply step_captured; [by rewrite Hcmd|done]).
    destruct (Hcap) as (d & Hd & Hreq & _ & Hid). simpl in Hid. exists r. split_and!; [done| |].
    + exists c, hs. rewrite Hid. split; [rewrite Hcmd; set_solver|done].
    + intros d' Hd'. destruct (step_news (KPending job) _ Hj Hd') as [Hd''|N'].
      * destruct Hc as (Er & _). rewrite Er in Hd. congruence.
      * inversion N'; congruence.
Qed.
Lemma step_decision job x : valid_identifier job 64 = true → view s'.1 (KDecision job) = Some x →
  ∃ c0 args h seen dec D b, x = (Regular, b) ∧ (c0, "decide"%string :: args, h) ∈ (c, cmd, hs) :: past
      ∧ parse_decision args = Ok (job, dec, D) ∧ captured c0 (wh_world h) (KPending job) seen
      ∧ request_digest seen = Ok D ∧ receipt_to_vec (decision_receipt c0 job dec D) = Some b.
Proof.
  intros Hj Hx. destruct (step_news (KDecision job) x Hj Hx) as [Hx'|N]; [by apply L|].
  inversion N as [| |j args dec D r b Hcmd Hargs Hcap Hdig Hvec| | |]; subst j; subst x.
  exists c, args, hs, r, dec, D, b. split_and!; [done|rewrite Hcmd; set_solver|done| |done..].
  apply step_captured; [by rewrite Hcmd|done].
Qed.
(** A job with a receipt is not captured again. *)
Lemma step_dead job : valid_identifier job 64 = true →
  view s.1 (KReceipt job) = Some (Regular, []) → view s.1 (KPending job) = None →
  view s'.1 (KReceipt job) = Some (Regular, []) ∧ view s'.1 (KPending job) = None.
Proof.
  intros Hj Hr Hp. split; [by apply (step_final (KReceipt job))|].
  destruct (view s'.1 (KPending job)) as [x|] eqn:Hx; [|done].
  destruct (step_news (KPending job) x Hj Hx) as [?|N]; [congruence|].
  inversion N as [j d' r' _ _ _ _ Hu| | | | |]; subst. destruct Hc as (Er & _). specialize (Hu (li_blind _ _ _ L)).
  unfold unknown in Hu. rewrite Er in Hu. exfalso. eapply Hu, Hr. set_solver.
Qed.
Lemma step_token r : s'.2 = Some r → authorised ((c, cmd, hs) :: past) c r
    ∧ view s'.1 (KReceipt (rq_id r)) = Some (Regular, []) ∧ view s'.1 (KPending (rq_id r)) = None
    ∧ ∀ args, args ∈ creates s'.1 → ¬ names_job (rq_id r) args.
Proof.
  intros Ht. assert (creates s'.1 = creates s.1) as Ec.
  { destruct (qstep_creates _ _ _ _ St) as [?|(? & ? & ? & _ & E & _)]; [done|congruence]. }
  rewrite Ec. destruct (qstep_token _ _ _ _ _ St Ht) as [Ht'|(Hcap & Hperm & Hrec & Hpen)].
  - destruct (li_token _ _ _ L r Ht') as (A & R & P & N). destruct (step_dead (rq_id r)) as [? ?]; [|done..].
    destruct A as (Hv & _). by eapply request_id_valid.
  - destruct Hc as (Er & _). rewrite Er in *. split_and!; [by eapply permitted_authorised|done..|].
    intros args Hin Hn. destruct (Hcap) as (d & Hd & _ & Hv & _). rewrite Er in Hd.
    destruct (li_done _ _ _ L (rq_id r) args) as [_ Hnone]; [by eapply request_id_valid|done..|]. congruence.
Qed.
Lemma step_live : live ((c, cmd, hs) :: past) c s'.
Proof.
  assert (∀ job args, valid_identifier job 64 = true → args ∈ creates s.1 → names_job job args →
    view s'.1 (KReceipt job) = Some (Regular, []) ∧ view s'.1 (KPending job) = None) as Hold.
  { intros job args Hj Hin Hn. destruct (li_done _ _ _ L job args Hj Hin Hn). by apply step_dead. }
  destruct L as [A1 A2 A3 A4 A5 A6 A7 A8].
  assert (healthy rt s'.1) as B1.
  { destruct Hc as (<- & _). by eapply qstep_healthy. }
  pose proof (qstep_blind _ _ _ _ St A2) as B2.
  pose proof step_approval as B7. pose proof step_decision as B8. pose proof step_token as B6.
  destruct (qstep_creates _ _ _ _ St) as [E|(r & sn & args & Ht & Ht' & Ha & E)].
  { split; try done; by rewrite E. }
  destruct (A6 r Ht) as (Hau & Hrec & Hpen & Hfresh).
  assert (names_job (rq_id r) args) as Hn by (eapply create_names_job; [apply Hc|done]).
  split; try done; rewrite E.
  - rewrite fmap_cons. apply NoDup_cons. split; [|done]. rewrite Hn.
    intros (a & Hna & Hin)%list_elem_of_fmap. exact (Hfresh a Hin (eq_sym Hna)).
  - constructor; [|done]. by exists c, r, sn.
  - intros job a Hj [->|Hin]%elem_of_cons Hna; [|by apply (Hold job a)].
    rewrite (names_job_inj _ _ _ Hna Hn). apply step_dead; [|done..]. destruct Hau as (Hv & _). by eapply request_id_valid.
Qed.
End one_step.

Lemma steps_live past c cmd hs s s' : ours c → steps c cmd s s' →
  live ((c, cmd, hs) :: past) c s → since c cmd hs s → live ((c, cmd, hs) :: past) c s'.
Proof.
  intros Hc St. induction St as [s|s1 s2 s3 S1 _ IH]; [done|]. intros L Sn.
  apply IH; [by eapply step_live|by eapply step_since].
Qed.
(** Every life keeps the invariant. *)
Lemma lives_live past h : lives past h → ∀ c, live past c (h, None).
Proof.
  induction 1 as [h Hh Hb Hcr Hk|past h h' _ IH (Hh & Hb & Hcm & Hv)|past c path cmd args h h1 r h' _ IH Hc Hl Hrun]; intros c0.
  - split; simpl; rewrite ?Hcr; try done; try by constructor.
    + intros job args _ Hin. by apply not_elem_of_nil in Hin.
    + intros job x Hj. by rewrite Hk.
    + intros job x Hj. by rewrite Hk.
  - destruct (IH c0) as [A1 A2 A3 A4 A5 A6 A7 A8]. simpl in *.
    assert (creates h' = creates h) as E by (unfold creates; by rewrite Hcm).
    assert (∀ k, kvalid k → (∀ j, k ≠ KResult j) → view h' k = view h k) as Hs.
    { intros k Hk Hn. destruct (Hv k Hk) as [?|[[j ->] _]]; [done|]. by destruct (Hn j). }
    split; simpl; try done; try by rewrite E.
    + rewrite E. intros job a Hj. rewrite !Hs by done. by apply A5.
    + intros job x Hj. rewrite !Hs by done. by apply A7.
    + intros job x Hj. rewrite !Hs by done. by apply A8.
  - pose proof (IH c) as L. apply (live_more ((c, cmd :: args, h) :: past) _ c); [done|].
    eapply steps_live; [done| |eapply live_more; [|exact L]; set_solver|by intros _ job x].
    eapply main_steps; [apply Hc|destruct Hc as (-> & _); apply L|done..].
Qed.

(** ** What a life guarantees *)

(** C5. At most one container is ever created for a job of the agent: over
    every sequence of worker commands, each under any schedule of failures (and so
    after any crash), with restarts, expired results and changed configurations
    between them, two commands that create the container of the same job are the
    same command.  [Path::exists] is assumed to inspect what is there. *)
Theorem worker_dispatches_once past h job i j a b :
  lives past h → creates h !! i = Some a → creates h !! j = Some b → names_job job a → names_job job b → i = j.
Proof.
  intros L Hi Hj Ha Hb. pose proof (li_once _ _ _ (lives_live _ _ L inhabitant)) as Hnd. cbn [fst] in Hnd.
  apply (NoDup_lookup _ i j (a !! 1%nat) Hnd); rewrite list_lookup_fmap; [by rewrite Hi|].
  rewrite Hj. simpl. by rewrite Ha, Hb.
Qed.

End life.

(** ** What every command guarantees *)

Section command.
Context `{HS : Sha2} `{HJ : SerdeJson} `{HW : WorkerCodec}.
Context (c : Config) (path command : string) (args : list string) (h h1 : whost) (r : result string unit) (h' : whost).
Context (Hc : placed_apart c) (Hh : healthy (root c) h) (Hl : load_config path h = (Ok c, h1)).
Context (Hrun : main ("--config" :: path :: command :: args)%string h = (r, h')).
Abbreviation view h := (kview (root c) (wh_world h)).

(** A result of the job is published. *)
Definition answered (w : world) (job : string) : Prop :=
  ∃ d res, kview (root c) w (KResult job) = Some (Regular, d) ∧ result_from_slice d = Some res
           ∧ rs_id res = job ∧ str_in (rs_status res) TERMINAL = true.
(** The request is in the queue, or answered. *)
Definition held (r : JobRequest) (s : qstate) : Prop :=
  captured c (wh_world s.1) (KPending (rq_id r)) r ∨ captured c (wh_world s.1) (KRunning (rq_id r)) r
  ∨ answered (wh_world s.1) (rq_id r).
Lemma steps_final cmd s s' k x : steps c cmd s s' → kvalid k → final k →
  view s.1 k = Some x → view s'.1 k = Some x.
Proof.
  intros St Hk Hf. induction St as [s|s1 s2 s3 S1 _ IH]; [done|]. intros Hx. apply IH.
  destruct (qstep_gone _ _ _ _ _ _ S1 Hk Hx) as [?|G]; [done|].
  destruct G as [rq|k rq Hin]; [done|]. destruct k; try done; set_solver.
Qed.
Lemma finished_answered w rq : finished_with c w rq → answered w (rq_id rq).
Proof.
  intros (d & res & Hd & Hr & Hm). exists d, res. unfold result_matches in Hm. apply andb_prop in Hm as [Hm Hs].
  split_and!; [done..| |done]. repeat (apply andb_prop in Hm as [Hm ?]). by apply String.eqb_eq.
Qed.
Lemma held_step cmd rq s s' : valid_identifier (rq_id rq) 64 = true → qstep c cmd s s' → held rq s → held rq s'.
Proof.
  intros Hj St. assert (∀ k, k = KPending (rq_id rq) ∨ k = KRunning (rq_id rq) →
    captured c (wh_world s.1) k rq → captured c (wh_world s'.1) k rq ∨ held rq s') as Hcap.
  { intros k Hk (d & Hd & Hreq & Hval & Hid). assert (kvalid k) as Hkv.
    { unfold kvalid. rewrite <-Hid. by eapply request_id_valid. }
    destruct (qstep_gone _ _ _ _ _ _ St Hkv Hd) as [Hd'|G]; [left; by exists d|right].
    destruct G as [r2 Hcap2 Hmv|k r2 Hin Hfin].
    - destruct Hk as [[= Hk]|]; [|done]. right. left. exists d. rewrite <-Hk, Hmv. split_and!; try done; congruence.
    - right. right. assert (rq_id r2 = rq_id rq) as E by (destruct Hk as [-> | ->]; set_solver).
      apply finished_answered in Hfin as (d2 & res & Hv2 & Hres). rewrite E in *. exists d2, res. split; [|done].
      by apply (steps_final cmd s s'); [apply steps_one|..]. }
  intros [Hp|[Hr|Ha]].
  - destruct (Hcap _ (or_introl eq_refl) Hp); [by left|done].
  - destruct (Hcap _ (or_intror eq_refl) Hr); [by right; left|done].
  - right. right. destruct Ha as (d & res & Hv & Hres). exists d, res. split; [|done].
    by apply (steps_final cmd s s'); [apply steps_one|..].
Qed.
Lemma steps_held cmd rq s s' : valid_identifier (rq_id rq) 64 = true → steps c cmd s s' → held rq s → held rq s'.
Proof. intros Hj St. induction St; eauto using held_step. Qed.

(** C20. A captured request is never lost: after any worker command, under any
    schedule of failures, a request that was pending or claimed is still pending or
    claimed, unchanged, or a terminal result of its job is published. *)
Theorem worker_never_loses_requests rq k :
  k ∈ [KPending (rq_id rq); KRunning (rq_id rq)] → captured c (wh_world h) k rq → held rq (h', None).
Proof.
  intros Hk Hcap. pose proof (main_steps _ _ _ _ _ _ _ _ Hc Hh Hl Hrun) as S.
  eapply steps_held; [|exact S|].
  - destruct Hcap as (d & _ & _ & Hv & _). by eapply request_id_valid.
  - apply elem_of_cons in Hk as [-> | Hk]; [by left|]. right. left. by apply list_elem_of_singleton in Hk as ->.
Qed.

(** C36. Results, recorded decisions and no-replay receipts are final: no
    worker command changes or removes one, whatever fails. *)
Theorem worker_records_are_final k x : kvalid k → final k → view h k = Some x → view h' k = Some x.
Proof. intros Hk Hf. apply (steps_final _ _ _ _ _ (main_steps _ _ _ _ _ _ _ _ Hc Hh Hl Hrun) Hk Hf). Qed.

(** C22. The program refines the abstract queue: a run of any command, under
    any schedule of failures, is a finite sequence of the steps of [qstep], from a
    queue with no claimed job to a queue with no claimed job. *)
Theorem worker_refines_queue : steps c (command :: args) (h, None) (h', None).
Proof. exact (main_steps _ _ _ _ _ _ _ _ Hc Hh Hl Hrun). Qed.
End command.
