(* ===== verification/WorkerFacts.v ===== *)
(** * Facts of the capsule

    The options of the runtime, the paths of imported artifacts, the size of logs
    and the end of the supervision loop. *)

From S2P Require Import Prelude RustStr Json Posix Budget PrivateStore Template Net Activity WorkerFs WorkerData Queue Capsule Worker WorkerSpec QueueSpec.

(** ** The supervision loop ends *)

(** Two amounts of fuel above a decreasing measure give the same run. *)
Lemma loop_fuel {S E A B} (μ : S → nat) (body : A → M S E (A + B)) :
  (∀ a s a' s', body a s = (Ok (inl a'), s') → (μ s' < μ s)%nat) →
  ∀ n m oof oof' a s, (μ s < n)%nat → (μ s < m)%nat → loop n oof body a s = loop m oof' body a s.
Proof.
  intros Hb. induction n as [|n IH]; intros [|m] oof oof' a s Hn Hm; try lia.
  cbn [loop]. unfold mbind, M_bind. destruct (body a s) as [[[a'|b]|e] s'] eqn:Eb; [|done..].
  apply IH; specialize (Hb _ _ _ _ Eb); lia.
Qed.

Section clock.
Context (n : nat).
(** At most [n] readings of the clock are left. *)
Definition slow (h : whost) : Prop := (length (wh_now h) ≤ n)%nat.
Lemma slow_on_fs {E A} (m : M world E A) : stays slow (on_fs m) any.
Proof.
  intros h Hh. unfold wp, on_fs, zoom. destruct (m (wh_world h)) as [[a|e] w]; [split|]; done.
Qed.
Lemma slow_run args : stays slow (run_output args) any.
Proof. intros h Hh. unfold wp, run_output. simpl. destruct (wh_outputs h) as [|[o|e] l]; done. Qed.
Lemma slow_exists p : stays slow (exists_path p) any.
Proof. intros h Hh. unfold wp, exists_path. by destruct (wh_blind h). Qed.
Lemma slow_log args : stays slow (log_command args) any.
Proof. intros h Hh. done. Qed.
Lemma slow_marker : stays slow next_marker any.
Proof. intros h Hh. unfold wp, next_marker. by destruct (wh_markers h). Qed.
Lemma slow_archive : stays slow next_archive any.
Proof. intros h Hh. unfold wp, next_archive. by destruct (wh_archives h). Qed.
Lemma slow_instant : stays slow read_instant any.
Proof.
  intros h Hh. unfold wp, read_instant, slow in *. destruct (wh_now h) as [|t l] eqn:E; (split; [|done]);
    simpl in *; [by rewrite E|lia].
Qed.
End clock.
Create HintDb clock.
#[local] Hint Resolve slow_on_fs slow_run slow_exists slow_log slow_marker slow_archive slow_instant : clock.
(** One step of a proof that code only consumes the clock. *)
Ltac clock1 :=
  lazymatch goal with
  | |- stays _ (mret _) _ => apply stays_ret; exact I
  | |- stays _ (fail _) _ => apply stays_fail
  | |- stays _ (mbind _ _) _ => apply stays_then; [|intros ?]
  | |- stays _ (lift _) _ => apply stays_lift; intros; exact I
  | |- stays _ (throw_if _ _) _ => apply stays_throw_if; intros; exact I
  | |- stays _ (gets _) _ => apply stays_gets; intros; exact I
  | |- stays _ (map_err _ _) _ => apply stays_map_err
  | |- stays _ (attempt _) _ => eapply stays_any, (stays_attempt _ _ any)
  | |- stays _ (foldM _ _ _) _ => apply stays_foldM; [exact I|intros ? ? ? _; cbv beta]
  | |- stays _ (sys _ _) _ => unfold sys
  | |- stays _ (sys_plain _) _ => unfold sys_plain
  | |- stays _ (match ?x with _ => _ end) _ => destruct x
  end.
Ltac clock := repeat first [clock1 | solve [eauto with clock nocore]].

Section supervision.
Context (n : nat).
Lemma slow_past d : stays (slow n) (past d) any.
Proof. unfold past. clock. Qed.
#[local] Hint Resolve slow_past : clock.
Lemma slow_marker_loop d rounds : ∀ b eof, stays (slow n) (marker_loop d rounds b eof) any.
Proof. induction rounds as [|r rounds IH]; intros b eof; cbn [marker_loop]; clock. Qed.
#[local] Hint Resolve slow_marker_loop : clock.
Lemma slow_read_marker ct d : stays (slow n) (read_completion_marker ct d) any.
Proof. unfold read_completion_marker. clock. Qed.
Lemma slow_directories levels : ∀ p parts k, stays (slow n) (create_artifact_directories levels p parts k) any.
Proof. induction levels as [|levels IH]; intros p [|part parts] k; cbn [create_artifact_directories]; clock. Qed.
#[local] Hint Resolve slow_read_marker slow_directories : clock.
Lemma slow_export c ct d name m dl : stays (slow n) (export_artifacts_if_stable c ct d name m dl) any.
Proof.
  unfold export_artifacts_if_stable, create_dir, import_artifact_tar, import_entry, import_file, create_file. clock.
Qed.
End supervision.
Lemma supervise_step_measure c ct d dl st h st' h' :
  supervise_step c ct d dl st h = (Ok (inl st'), h') → (length (wh_now h') < length (wh_now h))%nat.
Proof.
  intros E. enough (wp (supervise_step c ct d dl st)
    (λ r h', match r with inl _ => (length (wh_now h') < length (wh_now h))%nat | inr _ => True end)
    (λ _ _, True) h) as Hw by (unfold wp in Hw; by rewrite E in Hw).
  clear E. unfold supervise_step. set (n := length (wh_now h)).
  assert (slow n h) as Hh by (unfold slow; lia).
  assert (∀ {A B} (m : W A) (k : A → W B) R h1, slow n h1 → stays (slow n) m any →
    (∀ a h2, slow n h2 → wp (k a) R (λ _ _, True) h2) → wp (m ≫= k) R (λ _ _, True) h1) as Hbind.
  { intros A B m k R h1 H1 Hm Hk. apply wp_bind. wp_apply (Hm h1 H1); [|done]. intros a h2 [H2 _]. by apply Hk. }
  apply Hbind; [done|unfold runtime_output; clock|]. intros state h1 H1.
  destruct (negb _).
  { apply Hbind; [done|unfold runtime_output; clock|]. intros status h2 _. by apply wp_ret. }
  apply Hbind; [done|apply slow_read_marker|]. intros marker h2 H2.
  apply Hbind; [done| |].
  { pose proof slow_export. unfold command_ok. clock. }
  intros st1 h3 H3. unfold past. apply wp_bind, wp_bind. unfold wp at 1, read_instant.
  destruct (wh_now h3) as [|t l] eqn:E3.
  - apply wp_ret. cbn. apply Hbind; [by unfold slow; rewrite E3; simpl; lia|clock|]. intros u h4 _. by apply wp_ret.
  - apply wp_ret. unfold slow in H3. rewrite E3 in H3. simpl in H3.
    destruct (match dl with Some d0 => d0 <=? t | None => true end).
    + apply Hbind; [unfold slow; simpl; lia|clock|]. intros u h4 _. by apply wp_ret.
    + apply wp_ret. simpl. lia.
Qed.


(** ** The options of the runtime *)

(** Options that would give the capsule more than the policy. *)
Definition WIDENING : list string :=
  ["--privileged"; "--cap-add"; "--device"; "--volume"; "-v"; "--env"; "-e"; "--pid="; "--ipc="; "--userns";
   "--uts"; "--cgroup"; "--publish"; "-p"; "--add-host"; "--group-add"; "--sysctl"; "--gpus"; "--link"]%string.
(** An option that is the only one of its name is the reviewed one. *)
Definition reviewed (snapshot o : string) : Prop :=
  (starts_with "--network" o = true → o = "--network=none"%string)
  ∧ (starts_with "--runtime" o = true → o = "--runtime=runsc"%string)
  ∧ (starts_with "--read-only" o = true → o = "--read-only"%string)
  ∧ (starts_with "--cap-" o = true → o = "--cap-drop=ALL"%string)
  ∧ (starts_with "--mount" o = true → o = ("--mount=type=bind,source=" ++ snapshot ++ ",target=/input,readonly")%string)
  ∧ Forall (λ p, starts_with p o = false) WIDENING.
Definition CONFINEMENT : list string :=
  ["--runtime=runsc"; "--network=none"; "--read-only"; "--cap-drop=ALL"; "--security-opt=no-new-privileges:true"]%string.

Ltac check_option := unfold reviewed; split_and!; [let E := fresh in intros E; first [discriminate E|reflexivity]..|repeat constructor].
Lemma policy_reviewed c name snapshot p : append_runtime_policy c name snapshot = Some p →
  CONFINEMENT ⊆ p ∧ Forall (reviewed snapshot) p
  ∧ ("--user=" ++ pretty (container_uid c) ++ ":" ++ pretty (container_gid c))%string ∈ p.
Proof.
  unfold append_runtime_policy. intros (l & Hl & [= <-])%bind_Some. split_and!.
  - unfold CONFINEMENT. set_solver.
  - repeat (apply Forall_cons_2; [check_option|]).
    apply Forall_app. split; [|case_match; repeat (constructor; [check_option|]); constructor].
    unfold append_runtime_log_policy in Hl. repeat case_match; simplify_eq;
      repeat (constructor; [check_option|]); constructor.
  - set_solver.
Qed.

(** ** Archive paths *)

(** A name that stays in its directory. *)
Definition safe_name (n : string) : Prop := clean n ∧ n ≠ ".."%string.
Lemma named_safe piece : slashless piece →
  Forall (λ k, match k with Normal n => safe_name n | _ => True end) (named piece).
Proof.
  intros Hs. unfold named. destruct (str_is_empty piece || _) eqn:E; [constructor|].
  apply orb_false_iff in E as [E1 E2]. destruct (String.eqb_spec piece "..") as [->|H3]; [by repeat constructor|].
  constructor; [|constructor]. split; [|done]. split_and!; [by intros ->..|done].
Qed.
Lemma components_safe p : Forall (λ k, match k with Normal n => safe_name n | _ => True end) (path_components p).
Proof.
  unfold path_components. pose proof (split_slashless p) as Hs. destruct (split_char "/" p) as [|first rest]; [constructor|].
  inversion Hs as [|? ? H1 H2]; subst. apply Forall_app. split.
  - destruct (str_is_empty first); [case_bool_decide; by repeat constructor|].
    destruct (first =? ".")%string; [by repeat constructor|by apply named_safe].
  - clear Hs H1. induction H2 as [|x l Hx _ IH]; [constructor|]. simpl. apply Forall_app. split; [by apply named_safe|done].
Qed.
Lemma normalize_safe l names : normalize_components l = Ok names →
  Forall (λ k, match k with Normal n => safe_name n | _ => True end) l → Forall safe_name names.
Proof.
  revert names. induction l as [|k l IH]; intros names E Hf; simpl in E; [by simplify_eq|].
  inversion Hf as [|? ? H1 H2]; subst. destruct k as [| | |n]; [done|by apply IH|done|].
  apply result_bind_Ok in E as (ns & E & [= <-]). constructor; [done|by apply IH].
Qed.
Lemma named_clean n : safe_name n → named n = [Normal n].
Proof.
  intros ((H1 & H2 & H3) & H4). unfold named, str_is_empty.
  destruct (String.eqb_spec n EmptyString); [done|]. destruct (String.eqb_spec n "."); [done|].
  by destruct (String.eqb_spec n "..").
Qed.

(** An artifact's path cannot leave the staging directory: an accepted
    archive path has only names that are not empty, [.], [..] or absolute and hold
    no slash; and every path of such names is accepted as it is. *)
Theorem archive_paths_are_safe :
  (∀ p names, normalize_archive_path p = Ok names → Forall safe_name names)
  ∧ (∀ n names, Forall safe_name (n :: names) →
       normalize_archive_path (foldl below n names) = Ok (n :: names)).
Proof.
  split.
  - intros p names E. eapply normalize_safe; [exact E|apply components_safe].
  - intros n names Hf. inversion Hf as [|? ? Hn Hns]; subst. unfold normalize_archive_path, path_components.
    assert (split_char "/" (foldl below n names) = n :: names) as ->.
    { clear Hf. revert Hns. induction names as [|x l IH] using rev_ind; intros Hns; simpl.
      - apply split_char_none, Hn.
      - apply Forall_app in Hns as [Hl Hx]. inversion Hx as [|? ? Hx' _]; subst. rewrite foldl_app. simpl.
        unfold below at 1. change (String.append ?a ("/" ++ x)%string) with (a +:+ String "/" x).
        rewrite split_char_sep, IH by done. rewrite (split_char_none "/" x) by apply Hx'. done. }
    destruct Hn as ((H1 & H2 & H3) & H4). unfold str_is_empty.
    destruct (String.eqb_spec n EmptyString); [done|]. destruct (String.eqb_spec n "."); [done|].
    rewrite named_clean by done. simpl. clear - Hns.
    assert (normalize_components (concat (named <$> names)) = Ok names) as ->; [|done].
    induction Hns as [|x l Hx _ IH]; [done|]. change (concat (named <$> x :: l)) with (named x ++ concat (named <$> l)).
    rewrite named_clean by done. cbn [app normalize_components]. by rewrite IH.
Qed.

(** ** Logs *)

Lemma take_prefix {A} n (l : list A) : take n l `prefix_of` l.
Proof. exists (drop n l). by rewrite take_drop. Qed.
Lemma take_bytes_prefix n (l : bytes) : take_bytes n l `prefix_of` l.
Proof. rewrite take_bytes_take. apply take_prefix. Qed.
Lemma blen_take_bytes n (l : bytes) : 0 ≤ n → blen (take_bytes n l) = Z.min n (blen l).
Proof. intros Hn. rewrite take_bytes_take. unfold blen. rewrite length_take. lia. Qed.
Lemma blen_app {A} (l k : list A) : blen (l ++ k) = blen l + blen k.
Proof. unfold blen. rewrite length_app. lia. Qed.
(** A second piece after a piece that was cut is empty. *)
Lemma bounded_append (max : Z) (log piece : bytes) :
  blen log ≤ max →
  let l := log ++ take_bytes (Z.min (blen piece) (saturating_sub max (blen log))) piece in
  blen l ≤ max ∧ l `prefix_of` (log ++ piece) ∧ (blen log + blen piece ≤ max → l = log ++ piece)
  ∧ (max < blen log + blen piece → blen l = max).
Proof.
  intros Hl l. unfold l, saturating_sub. rewrite blen_app, blen_take_bytes by (unfold blen in *; lia). split_and!.
  - lia.
  - apply prefix_app, take_bytes_prefix.
  - intros Hm. rewrite take_bytes_all; [done|lia].
  - lia.
Qed.
Lemma append_full (max : Z) (log piece : bytes) : blen log = max →
  log ++ take_bytes (Z.min (blen piece) (saturating_sub max (blen log))) piece = log.
Proof.
  intros <-. unfold saturating_sub. rewrite take_bytes_take, Z.sub_diag.
  replace (Z.to_nat _) with 0%nat by (unfold blen; lia). by rewrite take_0, app_nil_r.
Qed.

(** The section of [append_bounded_log_section], and everything a log could hold. *)
Definition section_header (name : string) : bytes := [10] ++ str_bytes ("[" ++ name ++ "]") ++ [10].
Definition whole_log (stdout stderr : bytes) : bytes :=
  if bool_decide (stderr = []) then stdout else stdout ++ stderr_section ++ stderr.

(** A job's log never exceeds its limit: the combined output, and then a
    diagnostic section after it, are cut at the limit; the log is always a prefix of
    the whole text, and it is the whole text when it is not marked as truncated. *)
Theorem job_log_is_bounded stdout stderr max name content :
  0 ≤ max ≤ u64_max →
  blen (section_header name) + blen content ≤ u64_max →
  let '(log, cut) := bounded_combined_log stdout stderr max in
  let '(log', cut') := append_bounded_log_section log cut max name content in
  blen log ≤ max ∧ log `prefix_of` whole_log stdout stderr ∧ (cut = false → log = whole_log stdout stderr)
  ∧ blen log' ≤ max ∧ log `prefix_of` log' ∧ log' `prefix_of` (whole_log stdout stderr ++ section_header name ++ content)
  ∧ (cut' = false → log' = whole_log stdout stderr ++ section_header name ++ content).
Proof.
  intros Hm Hu. unfold bounded_combined_log. fold (whole_log stdout stderr). set (all := whole_log stdout stderr).
  unfold truncate, append_bounded_log_section. fold (section_header name). set (sec := section_header name) in *.
  set (log := take_bytes max all).
  assert (blen log ≤ max) as Hl by (unfold log; rewrite blen_take_bytes by lia; lia).
  assert ((max <? blen all) = false → log = all) as Hall by (intros Hc; apply take_bytes_all; lia).
  destruct (bounded_append max log sec Hl) as (L1 & P1 & F1 & C1).
  set (log1 := log ++ take_bytes _ sec) in *.
  destruct (bounded_append max log1 content L1) as (L2 & P2 & F2 & C2).
  set (log2 := log1 ++ take_bytes _ content) in *.
  assert (0 ≤ blen all ∧ 0 ≤ blen content ∧ 0 ≤ blen sec) as Hpos by (unfold blen; lia).
  split_and!; [done|apply take_bytes_prefix|done|done| | |].
  - unfold log2, log1. rewrite <-app_assoc. by apply prefix_app_r.
  - destruct (Z.ltb_spec max (blen all)) as [Hc|Hc].
    + assert (blen log = max) as E by (unfold log; rewrite blen_take_bytes by lia; lia).
      assert (log1 = log) as E1 by (by apply append_full). unfold log2. rewrite append_full by (by rewrite E1).
      rewrite E1. apply prefix_app_r, take_bytes_prefix.
    + rewrite (Hall eq_refl) in *. destruct (Z.leb_spec (blen all + blen sec) max) as [Hs|Hs].
      * rewrite (F1 Hs) in P2. by rewrite app_assoc.
      * unfold log2. rewrite append_full by auto. rewrite app_assoc. by apply prefix_app_r.
  - unfold saturating_add, saturating_sub. intros [Hc1 Hc2]%orb_false_iff. rewrite (Hall Hc2) in *.
    assert (log1 = all ++ sec) as E1 by (apply F1; lia). rewrite F2, E1; [by rewrite app_assoc|].
    rewrite E1, blen_app. lia.
Qed.
