(* ===== verification/Advisory.v ===== *)
(** * Evidence-only proposals: [crates/tentaflake-integrations/src/advisory.rs]

    The policy of one observer, and [propose], which turns telemetry and a finding
    into a proposal for human review.  A [BTreeSet] is the list of its elements; a
    length is a [usize]. *)

From S2P Require Import Prelude RustStr Json.

Inductive Error : Type := Denied | Unavailable | Bounds | MissingEvidence.

Record Policy : Type := mkPolicy {
  po_system : string; po_observer : string; po_admitted : bool;
  po_resources : list string; po_max_evidence : Z; po_max_content_bytes : Z }.
Record Telemetry : Type := mkTelemetry {
  te_resource : string; te_evidence_reference : string; te_summary : string }.
Inductive Category : Type := Security | Optimization.
Record Finding : Type := mkFinding {
  fi_title : string; fi_explanation : string; fi_evidence_references : list string; fi_category : Category }.
Inductive ReviewState : Type := AwaitingHumanReview.
Record ProposalFinding : Type := mkProposalFinding {
  pf_title : string; pf_explanation : string; pf_evidence_references : list string; pf_category : Category }.
Record ReviewProposal : Type := mkReviewProposal {
  rp_system : string; rp_observer : string; rp_state : ReviewState; rp_finding : ProposalFinding }.

Definition id_byte (b : Z) : bool := is_ascii_alphanumeric b || byte_in "-_:./" b.
Definition id (s : string) : bool :=
  negb (str_is_empty s) && (str_len s <=? 256) && all_bytes id_byte s.

(** [Advisory::new]: an [Advisory] is its policy. *)
Definition Advisory_new (p : Policy) : result Error Policy :=
  _ ← bail_if (negb (id (po_system p)) || negb (id (po_observer p))
               || (blen (po_resources p) =? 0) || (128 <? blen (po_resources p))
               || negb (forallb id (po_resources p))
               || negb (in_range 1 64 (po_max_evidence p))
               || negb (in_range 1 65536 (po_max_content_bytes p))) Bounds;
  Ok p.

Definition add_len (n : Z) (s : string) : result Error Z := ok_or Bounds (checked_add n (str_len s)).
(** The loop over the telemetry: the references seen so far and the bytes. *)
Fixpoint gather (p : Policy) (telemetry : list Telemetry) (references : list string) (bytes : Z) :
    result Error (list string * Z) :=
  match telemetry with
  | [] => Ok (references, bytes)
  | entry :: telemetry =>
      _ ← bail_if (negb (str_in (te_resource entry) (po_resources p))
                   || negb (id (te_evidence_reference entry))) Denied;
      _ ← bail_if (str_in (te_evidence_reference entry) references) MissingEvidence;
      n ← add_len bytes (te_summary entry);
      n ← add_len n (te_evidence_reference entry);
      gather p telemetry (te_evidence_reference entry :: references) n
  end.
(** The loop over the references of the finding. *)
Fixpoint cite (known cited : list string) (bytes : Z) : result Error Z :=
  match cited with
  | [] => Ok bytes
  | reference :: cited =>
      _ ← bail_if (negb (str_in reference known)) MissingEvidence;
      n ← add_len bytes reference;
      cite known cited n
  end.
Definition propose (p : Policy) (authenticated_observer : string) (telemetry : list Telemetry)
    (finding : option Finding) : result Error ReviewProposal :=
  _ ← bail_if (negb (authenticated_observer =? po_observer p)%string) Denied;
  _ ← bail_if (negb (po_admitted p)) Unavailable;
  f ← ok_or Unavailable finding;
  _ ← bail_if ((blen telemetry =? 0) || (po_max_evidence p <? blen telemetry)
               || str_is_empty (fi_title f) || (256 <? str_len (fi_title f))
               || str_is_empty (fi_explanation f)
               || (blen (fi_evidence_references f) =? 0)
               || (po_max_evidence p <? blen (fi_evidence_references f))) Bounds;
  bytes ← ok_or Bounds (checked_add (str_len (fi_title f)) (str_len (fi_explanation f)));
  gathered ← gather p telemetry [] bytes;
  bytes ← cite (fst gathered) (fi_evidence_references f) (snd gathered);
  _ ← bail_if (po_max_content_bytes p <? bytes) Bounds;
  Ok (mkReviewProposal (po_system p) (po_observer p) AwaitingHumanReview
        (mkProposalFinding (fi_title f) (fi_explanation f) (fi_evidence_references f) (fi_category f))).

(** ** Facts *)

(** The bytes a list of strings adds. *)
Definition total_len (l : list string) : Z := foldr (λ s n, str_len s + n) 0 l.

Lemma add_len_Ok n s m : add_len n s = Ok m → m = n + str_len s ∧ m ≤ u64_max.
Proof. unfold add_len. rewrite ok_or_Ok, checked_add_Some. lia. Qed.

Lemma cite_Ok known cited n m :
  cite known cited n = Ok m → cited ⊆ known ∧ m = n + total_len cited.
Proof.
  revert n. induction cited as [|r cited IH]; intros n E1; simpl in *; [injection E1 as ->; split; [set_solver|lia]|].
  inv_ok. reflect. apply str_in_elem in H. apply add_len_Ok in H0 as [-> _].
  destruct (IH _ E1) as [? ->]. split; [set_solver|lia].
Qed.

Record gathered (p : Policy) (telemetry : list Telemetry) (old new : list string) (n m : Z) : Prop := {
  ga_resources : ∀ t, t ∈ telemetry → te_resource t ∈ po_resources p ∧ id (te_evidence_reference t) = true;
  ga_known : new = reverse (te_evidence_reference <$> telemetry) ++ old;
  ga_distinct : NoDup old → NoDup new;
  ga_bytes : m = n + total_len (te_summary <$> telemetry) + total_len (te_evidence_reference <$> telemetry);
}.
Lemma gather_Ok p telemetry old n new m :
  gather p telemetry old n = Ok (new, m) → gathered p telemetry old new n m.
Proof.
  revert old n. induction telemetry as [|t telemetry IH]; intros old n E1; simpl in E1.
  - injection E1 as <- <-. split; [set_solver|done|done|simpl; lia].
  - inv_ok. reflect. apply str_in_elem in H. apply add_len_Ok in H1 as [-> _], H2 as [-> _].
    destruct (IH _ _ E1) as [Hr -> Hd ->].
    assert (te_evidence_reference t ∉ old) as Hn by (by rewrite <-str_in_elem, H0).
    split.
    + intros t' [->|Ht']%elem_of_cons; [done|by apply Hr].
    + by rewrite fmap_cons, reverse_cons, <-app_assoc.
    + intros Hold. apply Hd. by constructor.
    + rewrite !fmap_cons. cbn [total_len foldr]. fold (total_len (te_summary <$> telemetry)). fold (total_len (te_evidence_reference <$> telemetry)). lia.
Qed.

(** What reaches the review queue: an admitted, authenticated observer; telemetry
    of granted resources under distinct references; a finding that cites only
    these; sizes within the policy; nothing but the finding and the fixed names. *)
Theorem proposals_are_evidenced p observer telemetry finding proposal :
  propose p observer telemetry finding = Ok proposal →
  observer = po_observer p ∧ po_admitted p = true
  ∧ (∀ t, t ∈ telemetry → te_resource t ∈ po_resources p)
  ∧ NoDup (te_evidence_reference <$> telemetry)
  ∧ pf_evidence_references (rp_finding proposal) ⊆ te_evidence_reference <$> telemetry
  ∧ 1 ≤ blen (pf_evidence_references (rp_finding proposal)) ≤ po_max_evidence p
  ∧ 1 ≤ blen telemetry ≤ po_max_evidence p
  ∧ str_len (pf_title (rp_finding proposal)) + str_len (pf_explanation (rp_finding proposal))
    + total_len (te_summary <$> telemetry) + total_len (te_evidence_reference <$> telemetry)
    + total_len (pf_evidence_references (rp_finding proposal)) ≤ po_max_content_bytes p
  ∧ ∃ f, finding = Some f
         ∧ proposal = mkReviewProposal (po_system p) (po_observer p) AwaitingHumanReview
                        (mkProposalFinding (fi_title f) (fi_explanation f) (fi_evidence_references f)
                           (fi_category f)).
Proof.
  intros E1. unfold propose in E1. inv_ok. reflect. injection E1 as <-. simpl.
  destruct x4 as [known n]. apply gather_Ok in H4 as [Hr -> Hd ->]. apply cite_Ok in H5 as [Hc ->].
  subst. rewrite app_nil_r in *.
  split_and!; try done.
  - intros t Ht. by apply Hr.
  - rewrite <-reverse_Permutation. apply Hd. constructor.
  - intros r Hx. apply Hc in Hx. cbn [fst] in Hx. by apply elem_of_reverse.
  - unfold blen in *. lia.
  - unfold blen in *. lia.
  - by eexists.
Qed.
