(* ===== verification/Proposals.v ===== *)
(** * The durable review queue: [crates/tentaflake-integrations/src/review.rs]

    [Store] keeps its rows in [proposals.json], replaced by writing
    [proposals.next] and renaming it.  The encoders and decoders derived by serde
    are the class [ReviewCodec]. *)

From S2P Require Import Prelude RustStr Json Posix ControlData EngineSpec Advisory.

Inductive Decision : Type := Pending | Acknowledged | Dismissed.
#[export] Instance Decision_eq_dec : EqDecision Decision.
Proof. solve_decision. Defined.
Record Row : Type := mkRow { ro_id : string; ro_proposal : ReviewProposal; ro_review : Decision }.

Class ReviewCodec : Type := {
  snapshot_to_vec : value → list Row → option bytes;        (* [to_vec(&Snapshot)] *)
  snapshot_from_slice : bytes → option (value * list Row);  (* [from_slice::<State>] *)
}.

(** [to_value] of a row. *)
Definition category_name (c : Category) : string :=
  match c with Security => "security" | Optimization => "optimization" end.
Definition decision_name (d : Decision) : string :=
  match d with Pending => "pending" | Acknowledged => "acknowledged" | Dismissed => "dismissed" end.
Definition finding_value (f : ProposalFinding) : value :=
  json_obj [("title"%string, Str (pf_title f)); ("explanation"%string, Str (pf_explanation f));
            ("evidence_references"%string, Array (Str <$> pf_evidence_references f));
            ("category"%string, Str (category_name (pf_category f)))].
Definition proposal_value (p : ReviewProposal) : value :=
  json_obj [("system"%string, Str (rp_system p)); ("observer"%string, Str (rp_observer p));
            ("state"%string, Str "AwaitingHumanReview"); ("finding"%string, finding_value (rp_finding p))].
Definition row_value (r : Row) : value :=
  json_obj [("id"%string, Str (ro_id r)); ("proposal"%string, proposal_value (ro_proposal r));
            ("review"%string, Str (decision_name (ro_review r)))].

Record Store : Type := mkStore {
  so_directory : string; so_context : value; so_rows : list Row; so_lock : fd; so_poisoned : bool }.
Definition set_rows rows (s : Store) : Store :=
  mkStore (so_directory s) (so_context s) rows (so_lock s) (so_poisoned s).
Definition set_poisoned b (s : Store) : Store :=
  mkStore (so_directory s) (so_context s) (so_rows s) (so_lock s) b.
(** The file system and the store. *)
Record desk : Type := mkDesk { dk_world : world; dk_store : Store }.
Definition set_world w (d : desk) : desk := mkDesk w (dk_store d).
Definition set_store s (d : desk) : desk := mkDesk (dk_world d) s.
Definition on_disk {E A} (m : M world E A) : M desk E A := zoom dk_world set_world m.

(** [write(true).create(true).truncate(true).mode(..)] with [O_NOFOLLOW]. *)
Definition sys_create (p : string) (mode : Z) : Sys fd := simple (λ w,
  match lookup_inode w p with
  | None => alloc p mode w
  | Some (i, n) =>
      match i_kind n with
      | Symlink | Directory => (Err OtherIo, w)
      | _ => new_fd i (upd_data i (λ _, []) w)
      end
  end).

Definition STATE_LIMIT : Z := 8 * 1024 * 1024.
Definition JSON : string := "proposals.json".
Definition NEXT : string := "proposals.next".
Definition join_path (dir name : string) : string := dir ++ "/" ++ name.
Definition unavailable {E} (_ : E) : string := "state unavailable".
Definition row_id (index : nat) : string := "proposal-" ++ pretty (N.of_nat (S index)).

Section store.
Context `{ReviewCodec}.

Definition publish_snapshot (dir : string) (b : bytes) : M world string unit :=
  file ← map_err unavailable (sys_create (join_path dir NEXT) 384 (* 0o600 *));
  _ ← map_err unavailable (sys_write file b);
  _ ← map_err unavailable sys_sync;
  _ ← map_err unavailable (sys_rename (join_path dir NEXT) (join_path dir JSON));
  _ ← map_err unavailable (sys_open_follow dir);
  map_err unavailable sys_sync.
Definition save : M desk string unit :=
  _ ← modify (λ d, set_store (set_poisoned true (dk_store d)) d);
  s ← gets dk_store;
  b ← lift (ok_or "state unavailable" (snapshot_to_vec (so_context s) (so_rows s)));
  _ ← throw_if (STATE_LIMIT <? blen b) "state bounds";
  _ ← on_disk (publish_snapshot (so_directory s) b);
  modify (λ d, set_store (set_poisoned false (dk_store d)) d).

(** ** [Store::open] *)

Definition read_state (dir : string) : M world string (option (value * list Row)) :=
  r ← attempt (sys_open_read (join_path dir JSON));
  match r with
  | Ok file =>
      data ← map_err unavailable (sys_read_take (STATE_LIMIT + 1) file);
      _ ← throw_if (STATE_LIMIT <? blen data) "state bounds";
      s ← lift (ok_or "corrupt or unbound state" (snapshot_from_slice data));
      mret (Some s)
  | Err NotFound => mret None
  | Err _ => fail "state unavailable"
  end.
Definition check_fresh (dir : string) : M world string unit :=
  r ← attempt (sys_symlink_metadata (join_path dir NEXT));
  match r with
  | Err NotFound => mret tt
  | _ => fail "unbound or uncertain state"
  end.
Definition bound_rows (context : value) (state : option (value * list Row)) : result string (list Row) :=
  match state with
  | Some (c, rows) => if value_eqb c context then Ok rows else Err "review context mismatch"%string
  | None => Ok []
  end.
Definition rows_ok (rows : list Row) : bool :=
  (blen rows <=? 100) && forallb (λ ir : nat * Row, (ro_id ir.2 =? row_id ir.1)%string) (imap (λ i r, (i, r)) rows).
(** With the lock held. *)
Definition open_locked (dir : string) (context : value) (lock : fd) : M world string (bool * Store) :=
  state ← read_state dir;
  let fresh := is_none state in
  _ ← (if fresh then check_fresh dir else mret tt);
  rows ← lift (bound_rows context state);
  _ ← throw_if (negb (rows_ok rows)) "corrupt state";
  mret (fresh, mkStore dir context rows lock false).
(** Run [save] on a store that is not yet in use. *)
Definition saved (s : Store) : M world string Store := λ w,
  match save (mkDesk w s) with
  | (Ok _, d) => (Ok (dk_store d), dk_world d)
  | (Err e, d) => (Err e, dk_world d)
  end.
Definition open_with (dir : string) (context : value) (lock : fd) : M world string Store :=
  _ ← map_err (λ _, "state busy"%string) (sys_flock lock true);
  s ← open_locked dir context lock;
  if fst s : bool then saved (snd s) else mret (snd s).
Definition open (dir : string) (context : value) : M world string Store :=
  m ← map_err unavailable (sys_symlink_metadata dir);
  uid ← gets w_euid;
  _ ← throw_if (negb (bool_decide (i_kind m.2 = Directory)) || negb (i_uid m.2 =? uid)
                || negb (mode_and (i_mode m.2) 63 (* 0o077 *) =? 0)) "unsafe state";
  lock ← map_err unavailable (sys_open_create (join_path dir "lock") 384);
  r ← attempt (open_with dir context lock);
  match r with
  | Ok s => mret s
  | Err e => _ ← modify (close lock); fail e
  end.

(** ** Operations *)

Definition list_rows : M desk string value :=
  s ← gets dk_store;
  _ ← throw_if (so_poisoned s) "state uncertain";
  mret (json_obj [("proposals"%string, Array (row_value <$> so_rows s))]).
Definition push_row (p : ReviewProposal) (s : Store) : Store :=
  set_rows (so_rows s ++ [mkRow (row_id (length (so_rows s))) p Pending]) s.
Definition last_row (rows : list Row) : value :=
  match last rows with Some r => row_value r | None => Null end.
Definition submit (p : ReviewProposal) : M desk string value :=
  s ← gets dk_store;
  _ ← throw_if (so_poisoned s || (100 <=? blen (so_rows s))) "state unavailable";
  _ ← modify (λ d, set_store (push_row p (dk_store d)) d);
  _ ← save;
  s ← gets dk_store;
  mret (last_row (so_rows s)).
Definition position (id : string) (rows : list Row) : option nat :=
  fst <$> list_find (λ r, ro_id r = id) rows.
Definition decide_row (d : Decision) (r : Row) : Row := mkRow (ro_id r) (ro_proposal r) d.
Definition review (id : string) (decision : Decision) : M desk string value :=
  s ← gets dk_store;
  _ ← throw_if (so_poisoned s || bool_decide (decision = Pending)) "denied";
  index ← lift (ok_or "not found" (position id (so_rows s)));
  row ← lift (ok_or "index out of bounds" (so_rows s !! index));
  _ ← throw_if (negb (bool_decide (ro_review row = Pending)) && negb (bool_decide (ro_review row = decision)))
        "already reviewed";
  _ ← (if decide (ro_review row = Pending) then
         _ ← modify (λ d, set_store (set_rows (alter (decide_row decision) index (so_rows (dk_store d)))
                                      (dk_store d)) d);
         save
       else mret tt);
  s ← gets dk_store;
  mret (from_option row_value Null (so_rows s !! index)).
End store.
