(* ===== verification/ProposalsRun.v ===== *)
(** * What the review queue promises

    Over restarts, crashes and failed calls, an acknowledged proposal stays in the
    queue, an acknowledged decision is never changed, and a queue bound to one
    configuration answers to no other. *)

From S2P Require Import Prelude RustStr Json Posix ControlData EngineSpec Advisory Proposals.

Class ReviewLaws `{ReviewCodec} : Prop := {
  snapshot_codec c rows b : float_free c = true →
    snapshot_to_vec c rows = Some b → snapshot_from_slice b = Some (c, rows);
}.

(** ** Lifetimes *)

Inductive command : Type := CSubmit (p : ReviewProposal) | CReview (id : string) (d : Decision) | CList.
Section lives.
Context `{ReviewCodec}.
Definition perform (c : command) : M desk string value :=
  match c with
  | CSubmit p => submit p
  | CReview id d => review id d
  | CList => list_rows
  end.
Fixpoint serve (cs : list command) (d : desk) : list (command * result string value) * desk :=
  match cs with
  | [] => ([], d)
  | c :: cs =>
      let '(r, d) := perform c d in
      let '(answers, d) := serve cs d in ((c, r) :: answers, d)
  end.
(** One process: it opens the store, answers some commands, and ends. *)
Definition life (dir : string) (context : value) (cs : list command) (w : world) :
    list (command * result string value) * world :=
  match open dir context w with
  | (Ok s, w) => let '(answers, d) := serve cs (mkDesk w s) in (answers, close (so_lock s) (dk_world d))
  | (Err _, w) => ([], w)
  end.
End lives.
(** The answers that acknowledge something. *)
Fixpoint acknowledged (context : value) (l : list (command * result string value)) :
    list (value * command * value) :=
  match l with
  | [] => []
  | (c, Ok v) :: l => (context, c, v) :: acknowledged context l
  | (_, Err _) :: l => acknowledged context l
  end.

(** What happens between two processes: the two files stay (the directory is
    private), anything else may change. *)
Record apart (dir : string) (w w' : world) : Prop := {
  ap_wf : wf w';
  ap_json : lookup_inode w' (join_path dir JSON) = lookup_inode w (join_path dir JSON);
  ap_next : w_names w' !! join_path dir NEXT = w_names w !! join_path dir NEXT;
}.
Inductive history `{ReviewCodec} (dir : string) : list (value * command * value) → world → Prop :=
| history_start w : wf w → lookup_inode w (join_path dir JSON) = None → history dir [] w
| history_life log w w1 context cs answers w2 :
    history dir log w → apart dir w w1 → float_free context = true →
    life dir context cs w1 = (answers, w2) →
    history dir (log ++ acknowledged context answers) w2.

(** ** The abstract queue *)

(** Later rows: none is lost or replaced, a decision stays. *)
Definition grown (l l' : list Row) : Prop :=
  ∀ i r, l !! i = Some r → ∃ r', l' !! i = Some r' ∧ ro_id r' = ro_id r ∧ ro_proposal r' = ro_proposal r
    ∧ (ro_review r ≠ Pending → ro_review r' = ro_review r).
#[export] Instance grown_refl : Reflexive grown.
Proof. intros l i r Hr. by exists r. Qed.
#[export] Instance grown_trans : Transitive grown.
Proof.
  intros a b c H1 H2 i r Hr. destruct (H1 i r Hr) as (r1 & Hr1 & ? & ? & E1).
  destruct (H2 i r1 Hr1) as (r2 & Hr2 & ? & ? & E2). exists r2. split_and!; try congruence.
  intros Hn. rewrite <-(E1 Hn). apply E2. by rewrite (E1 Hn).
Qed.
Lemma grown_push l r : grown l (l ++ [r]).
Proof. intros i x Hx. exists x. by rewrite lookup_app_l by (by eapply lookup_lt_Some). Qed.
Lemma grown_decide l i d row : l !! i = Some row → ro_review row = Pending → grown l (alter (decide_row d) i l).
Proof.
  intros Hi Hp j r Hr. destruct (decide (i = j)) as [<-|Hne].
  - exists (decide_row d r). rewrite list_lookup_alter_eq, Hr. simplify_eq. split_and!; try done; congruence.
  - exists r. by rewrite list_lookup_alter_ne.
Qed.

(** What an acknowledgement says of the rows. *)
Definition honoured (rows : list Row) (c : command) (v : value) : Prop :=
  match c with
  | CSubmit p => ∃ i row, rows !! i = Some row ∧ ro_proposal row = p ∧ v = row_value (decide_row Pending row)
  | CReview id d => ∃ i row, rows !! i = Some row ∧ ro_id row = id ∧ ro_review row = d ∧ d ≠ Pending ∧ v = row_value row
  | CList => ∃ old, grown old rows ∧ v = json_obj [("proposals"%string, Array (row_value <$> old))]
  end.
Lemma honoured_grown l l' c v : grown l l' → honoured l c v → honoured l' c v.
Proof.
  intros Hg. destruct c as [p|id d|]; simpl.
  - intros (i & row & Hi & <- & ->). destruct (Hg i row Hi) as (r' & ? & Ei & Ep & _).
    exists i, r'. split_and!; try done. unfold decide_row. by rewrite Ei, Ep.
  - intros (i & row & Hi & <- & <- & Hn & ->). destruct (Hg i row Hi) as (r' & ? & Ei & Ep & Er).
    specialize (Er Hn). exists i, r'. split_and!; try done.
    destruct row, r'; simpl in *; congruence.
  - intros (old & ? & ->). exists old. split; [by etrans|done].
Qed.

(** ** The file system *)

Lemma join_path_inj dir a b : join_path dir a = join_path dir b → a = b.
Proof. unfold join_path. intros E1%(inj _). by apply (inj (String.append "/")) in E1. Qed.

Section files.
Variable dir : string.
Abbreviation json := (join_path dir JSON).
Abbreviation next := (join_path dir NEXT).

(** The published file is another inode than the one being prepared. *)
Record keeps (w w' : world) : Prop := {
  kp_wf : wf w → wf w';
  kp_json i n : wf w → lookup_inode w json = Some (i, n) → w_names w !! next ≠ Some i →
    lookup_inode w' json = Some (i, n) ∧ w_names w' !! next ≠ Some i;
  kp_none : lookup_inode w json = None → wf w → lookup_inode w' json = None;
}.
#[export] Instance keeps_refl : Reflexive keeps.
Proof. by split. Qed.
#[export] Instance keeps_trans : Transitive keeps.
Proof.
  intros a b c [W1 J1 N1] [W2 J2 N2]. split; eauto.
  intros i n Hw Hl Hn. destruct (J1 i n Hw Hl Hn). eauto.
Qed.
Lemma same_fs_kept w w' : same_fs w w' → keeps w w'.
Proof.
  intros S1. pose proof (lookup_inode_same w w' json S1) as E1. destruct S1. split.
  - intros Hw p i. rewrite sf_names, sf_next. apply Hw.
  - intros i n _ Hl Hn. by rewrite E1, sf_names.
  - by rewrite E1.
Qed.
Lemma keeps_fd n w : keeps w (set_next_fd n w).
Proof. apply same_fs_kept, same_fs_fd. Qed.
Lemma keeps_locks f w : keeps w (set_locks f w).
Proof. by split. Qed.
Lemma lookup_inode_Some w p i n : lookup_inode w p = Some (i, n) ↔ w_names w !! p = Some i ∧ w_inodes w !! i = Some n.
Proof.
  unfold lookup_inode. destruct (w_names w !! p) as [j|]; simpl; [|naive_solver].
  destruct (w_inodes w !! j) eqn:E1; naive_solver.
Qed.
(** A new file under another name than the published one. *)
Lemma keeps_created p mode w : p ≠ json → keeps w (created p mode w).
Proof.
  intros Hp. split; [apply created_wf| |].
  - intros i n Hw (Hj & Hi)%lookup_inode_Some Hn. pose proof (Hw _ _ Hj). split.
    + apply lookup_inode_Some. simpl. rewrite !lookup_insert_ne; (done || lia || congruence).
    + simpl. rewrite lookup_insert. case_decide; [intros [=]; lia|done].
  - intros Hl Hw. unfold lookup_inode in *. simpl. rewrite lookup_insert_ne by done.
    destruct (w_names w !! json) as [i|] eqn:Ej; [|done]. simpl in *. pose proof (Hw _ _ Ej).
    by rewrite lookup_insert_ne by lia.
Qed.
(** Changing the inode behind the name being prepared. *)
Lemma keeps_upd g w i : w_names w !! next = Some i → keeps w (upd_data i g w).
Proof.
  intros Hi. split; [done| |].
  - intros j n _ (Hj & Hn)%lookup_inode_Some Hne. split; [|done]. apply lookup_inode_Some. split; [done|].
    simpl. by rewrite lookup_alter_ne by congruence.
  - intros Hl _. unfold lookup_inode in *. simpl. destruct (w_names w !! json) as [j|]; [|done]. simpl in *.
    destruct (decide (i = j)) as [->|]; [|by rewrite lookup_alter_ne].
    rewrite lookup_alter_eq. by destruct (w_inodes w !! j).
Qed.

(** The descriptor of the file being prepared, with its content. *)
Definition preparing (w : world) (f : fd) (d : bytes) : Prop :=
  ∃ n, lookup_inode w next = Some (fd_ino f, n) ∧ i_data n = d ∧ i_kind n ≠ Symlink.
Definition landed (b : bytes) (w : world) : Prop :=
  ∃ i n, lookup_inode w json = Some (i, n) ∧ i_data n = b ∧ i_kind n ≠ Symlink ∧ w_names w !! next ≠ Some i.
#[export] Instance landed_proper : Proper (eq ==> same_fs ==> impl) landed.
Proof.
  intros b ? <- w w' S1 (i & n & Hl & ? & ? & ?). exists i, n. rewrite (lookup_inode_same _ _ _ S1).
  destruct S1. by rewrite sf_names.
Qed.

Lemma json_next : json ≠ next.
Proof. by intros E1%join_path_inj. Qed.

Lemma create_spec mode w :
  wp (sys_create next mode) (λ f w', keeps w w' ∧ preparing w' f []) (λ _ w', keeps w w') w.
Proof.
  apply wp_simple; intros fs; [apply same_fs_kept, same_fs_faults|]. set (v := set_faults fs w).
  assert (keeps w v) as Hk by apply same_fs_kept, same_fs_faults. clearbody v. unfold wp.
  destruct (lookup_inode v next) as [[i n]|] eqn:E1; simpl.
  - apply lookup_inode_Some in E1 as [Hn Hi].
    destruct (i_kind n) eqn:K; simpl; try done;
      (split; [etrans; [exact Hk|]; etrans; [by apply (keeps_upd (λ _, []) _ i)|apply keeps_fd]|];
       eexists; split; [apply lookup_inode_Some; simpl; split; [exact Hn|]; by rewrite lookup_alter_eq, Hi|];
       simpl; by rewrite K).
  - split.
    + etrans; [exact Hk|]. etrans; [apply (keeps_created next mode v); by apply not_eq_sym, json_next|].
      apply (keeps_fd _ (created next mode v)).
    + eexists. split; [apply lookup_inode_Some; simpl; by rewrite !lookup_insert_eq|done].
Qed.
Lemma write_spec f b w :
  preparing w f [] →
  wp (sys_write f b) (λ _ w', keeps w w' ∧ preparing w' f b) (λ _ w', keeps w w') w.
Proof.
  intros (n & (Hn & Hi)%lookup_inode_Some & Hd & Hk).
  apply wp_syscall.
  - intros k fs. etrans; [apply same_fs_kept, same_fs_faults|]. by apply keeps_upd.
  - intros fs. unfold wp. split.
    + etrans; [apply same_fs_kept, same_fs_faults|]. by apply keeps_upd.
    + eexists. split; [apply lookup_inode_Some; simpl; split; [exact Hn|]; by rewrite lookup_alter_eq, Hi|].
      simpl. rewrite Hd. unfold overwrite. rewrite drop_nil, app_nil_r. done.
Qed.
Lemma sync_keeps w : wp sys_sync (λ _ w', same_fs w w') (λ _ w', same_fs w w') w.
Proof. eapply wp_mono; [apply reader_sync| |]; by intros ? ? H; try destruct H. Qed.
Lemma rename_spec f b w :
  wf w → preparing w f b →
  wp (sys_rename next json) (λ _ w', wf w' ∧ landed b w') (λ _ w', keeps w w') w.
Proof.
  intros Hw (n & (Hn & Hi)%lookup_inode_Some & Hd & Hk).
  apply wp_simple; intros fs; [apply same_fs_kept, same_fs_faults|]. unfold wp. simpl. rewrite Hn. split.
  - intros p i. simpl. rewrite lookup_insert. case_decide; [intros [= <-]; by apply (Hw next)|].
    intros [_ ?]%lookup_delete_Some. by eapply Hw.
  - exists (fd_ino f), n. split_and!; try done.
    + apply lookup_inode_Some. simpl. by rewrite lookup_insert_eq.
    + simpl. rewrite lookup_insert_ne by apply json_next. by rewrite lookup_delete_eq.
Qed.

Lemma snapshot_spec `{ReviewCodec} b w :
  wf w →
  wp (publish_snapshot dir b) (λ _ w', wf w' ∧ landed b w')
    (λ _ w', wf w' ∧ (keeps w w' ∨ landed b w')) w.
Proof.
  intros Hw. unfold publish_snapshot.
  wp_steps. wp_apply (create_spec 384 w); [|intros e w' Hk; split; [by apply Hk|by left]].
  intros f w1 [K1 P1].
  wp_steps. wp_apply (write_spec f b w1 P1);
    [|intros e w' Hk; assert (keeps w w') as Hk' by (by etrans); split; [by apply Hk'|by left]].
  intros ? w2 [K2 P2]. assert (keeps w w2) as K by (by etrans).
  wp_steps. wp_apply (sync_keeps w2);
    [|intros e w' S1; assert (keeps w w') as Hk' by (etrans; [exact K|by apply same_fs_kept]);
      split; [by apply Hk'|by left]].
  intros ? w3 S1. assert (keeps w w3) as K3 by (etrans; [exact K|by apply same_fs_kept]).
  assert (preparing w3 f b) as P3.
  { destruct P2 as (n & ? & ?). exists n. by rewrite (lookup_inode_same _ _ _ S1). }
  wp_steps. wp_apply (rename_spec f b w3); [by apply K3|exact P3| |
    intros e w' Hk; assert (keeps w w') as Hk' by (by etrans); split; [by apply Hk'|by left]].
  intros ? w4 [W4 L4].
  assert (∀ w', same_fs w4 w' → wf w' ∧ landed b w') as Hdone.
  { intros w' S2. split; [by eapply wf_proper|by eapply (landed_proper b b)]. }
  wp_steps. wp_apply (reader_open_follow dir w4);
    [|intros e w' S2; destruct (Hdone w' S2); split; [done|by right]].
  intros x w5 [S2 _].
  wp_steps. wp_apply (sync_keeps w5); intros ? w6 S3;
    destruct (Hdone w6) as [? ?]; [by etrans| |by etrans|]; [done|split; [done|by right]].
Qed.
End files.

(** ** What is on disk *)

Section shelf.
Context `{ReviewLaws} (dir : string).
Abbreviation json := (join_path dir JSON).
Abbreviation next := (join_path dir NEXT).

Record published (w : world) (c : value) (rows : list Row) : Prop := {
  pu_file : ∃ b, landed dir b w ∧ blen b ≤ STATE_LIMIT ∧ snapshot_from_slice b = Some (c, rows);
  pu_plain : float_free c = true;
  pu_rows : rows_ok rows = true;
}.
Definition shelf (w : world) (o : option (value * list Row)) : Prop :=
  wf w ∧ match o with
         | Some (c, rows) => published w c rows
         | None => lookup_inode w json = None
         end.
Lemma keeps_shelf w w' o : keeps dir w w' → shelf w o → shelf w' o.
Proof.
  intros [W J N] [Hw Ho]. split; [by apply W|]. destruct o as [[c rows]|]; [|by apply N].
  destruct Ho as [(b & (i & n & Hl & Hd & Hk & Hn) & Hb) Hp Hr]. split; try done.
  exists b. split; [|done]. exists i, n. destruct (J i n Hw Hl Hn). done.
Qed.
Lemma landed_shelf w b c rows :
  wf w → landed dir b w → blen b ≤ STATE_LIMIT → float_free c = true → rows_ok rows = true →
  snapshot_to_vec c rows = Some b → shelf w (Some (c, rows)).
Proof.
  intros Hw Hl Hb Hc Hr Hs. split; [done|]. split; try done. exists b. split_and!; try done.
  by apply snapshot_codec.
Qed.

(** [save] writes the rows it was given, or leaves what was there. *)
Lemma save_spec s w o :
  so_directory s = dir → float_free (so_context s) = true → rows_ok (so_rows s) = true → shelf w o →
  wp save
    (λ _ d, dk_store d = set_poisoned false s ∧ shelf (dk_world d) (Some (so_context s, so_rows s)))
    (λ _ d, dk_store d = set_poisoned true s
       ∧ (shelf (dk_world d) o ∨ shelf (dk_world d) (Some (so_context s, so_rows s))))
    (mkDesk w s).
Proof.
  intros Hdir Hc Hr Ho. unfold save. apply wp_bind, wp_modify, wp_bind, wp_gets. simpl.
  wp_try as b Hb; [|by split; [|left]]. apply ok_or_Ok in Hb.
  wp_check as Hlen; [by split; [|left]|]. reflect.
  apply wp_bind, wp_zoom. simpl. rewrite Hdir.
  wp_apply (snapshot_spec dir b w); [apply Ho| |].
  - intros [] w' [Hw' Hl]. apply wp_modify. simpl. split; [done|].
    by eapply landed_shelf.
  - intros e w' [Hw' [Hk|Hl]]; (split; [done|]); [left; by eapply keeps_shelf|].
    right. by eapply landed_shelf.
Qed.

(** A store in use agrees with the disk, or is poisoned. *)
Record tied (d : desk) (o : option (value * list Row)) : Prop := {
  ti_dir : so_directory (dk_store d) = dir;
  ti_plain : float_free (so_context (dk_store d)) = true;
  ti_shelf : shelf (dk_world d) o;
  ti_agree : so_poisoned (dk_store d) = false →
    ∃ c, o = Some (c, so_rows (dk_store d)) ∧ c ≡ so_context (dk_store d);
}.
(** Later states of the disk. *)
Definition later (o o' : option (value * list Row)) : Prop :=
  ∀ c rows, o = Some (c, rows) → ∃ c' rows', o' = Some (c', rows') ∧ c' ≡ c ∧ grown rows rows'.
#[export] Instance later_refl : Reflexive later.
Proof. intros o c rows ->. by exists c, rows. Qed.
#[export] Instance later_trans : Transitive later.
Proof.
  intros a b o H1 H2 c rows ->. destruct (H1 c rows eq_refl) as (c1 & r1 & -> & E1 & G1).
  destruct (H2 c1 r1 eq_refl) as (c2 & r2 & -> & E2 & G2). exists c2, r2. split_and!; [done|by etrans|by etrans].
Qed.
Definition holds (o : option (value * list Row)) (context : value) (c : command) (v : value) : Prop :=
  ∃ bound rows, o = Some (bound, rows) ∧ bound ≡ context ∧ honoured rows c v.
Lemma holds_later o o' context c v : later o o' → holds o context c v → holds o' context c v.
Proof.
  intros Hl (b & rows & -> & Eb & Hh). destruct (Hl b rows eq_refl) as (b' & rows' & -> & E1 & G1).
  exists b', rows'. split_and!; [done|by etrans|by eapply honoured_grown].
Qed.

Lemma rows_ok_iff rows : rows_ok rows = true ↔ blen rows ≤ 100 ∧ ∀ i r, rows !! i = Some r → ro_id r = row_id i.
Proof.
  unfold rows_ok. rewrite andb_true_iff, Z.leb_le, forallb_forall. apply and_iff_compat_l. split.
  - intros Hf i r Hi. apply String.eqb_eq. apply (Hf (i, r)). apply list_elem_of_In, list_elem_of_lookup.
    exists i. by rewrite list_lookup_imap, Hi.
  - intros Hf [i r] Hin. apply list_elem_of_In, list_elem_of_lookup in Hin as (j & Hj).
    rewrite list_lookup_imap in Hj. destruct (rows !! j) eqn:E1; simplify_eq/=. by apply String.eqb_eq, Hf.
Qed.
Lemma rows_ok_push rows p :
  rows_ok rows = true → blen rows < 100 → rows_ok (rows ++ [mkRow (row_id (length rows)) p Pending]) = true.
Proof.
  rewrite !rows_ok_iff. intros [Hl Hi] Hlt. split; [unfold blen in *; rewrite length_app; simpl; lia|].
  intros i r [Hr|[Hge Hr]]%lookup_app_Some; [by apply Hi|].
  destruct (i - length rows)%nat eqn:E1; simpl in Hr; simplify_eq/=. f_equal. lia.
Qed.
Lemma rows_ok_decide rows i d : rows_ok rows = true → rows_ok (alter (decide_row d) i rows) = true.
Proof.
  rewrite !rows_ok_iff. intros [Hl Hi]. split; [unfold blen in *; by rewrite length_alter|].
  intros j r Hr. destruct (decide (i = j)) as [->|Hne].
  - rewrite list_lookup_alter_eq in Hr. destruct (rows !! j) eqn:E1; simplify_eq/=. by apply Hi.
  - rewrite list_lookup_alter_ne in Hr by done. by apply Hi.
Qed.

(** The operations, from a store tied to the disk. *)
Definition acts (m : M desk string value) (good : list Row → value → Prop) : Prop := ∀ d o,
  tied d o →
  wp m (λ v d', ∃ o', tied d' o' ∧ so_context (dk_store d') = so_context (dk_store d) ∧ later o o'
          ∧ ∃ c rows, o' = Some (c, rows) ∧ c ≡ so_context (dk_store d) ∧ good rows v)
    (λ _ d', ∃ o', tied d' o' ∧ so_context (dk_store d') = so_context (dk_store d) ∧ later o o') d.

Lemma save_rows s w c rows :
  tied (mkDesk w s) (Some (c, so_rows s)) → c ≡ so_context s → grown (so_rows s) rows → rows_ok rows = true →
  wp save
    (λ _ d', dk_store d' = set_poisoned false (set_rows rows s)
       ∧ tied d' (Some (so_context s, rows)) ∧ later (Some (c, so_rows s)) (Some (so_context s, rows)))
    (λ _ d', ∃ o', tied d' o' ∧ so_context (dk_store d') = so_context s ∧ later (Some (c, so_rows s)) o')
    (mkDesk w (set_rows rows s)).
Proof.
  intros [Hdir Hp Hsh _] Ec Hg Hr.
  assert (later (Some (c, so_rows s)) (Some (so_context s, rows))) as Hl.
  { intros c0 r0 [= <- <-]. exists (so_context s), rows. by rewrite Ec. }
  wp_apply (save_spec (set_rows rows s) w (Some (c, so_rows s))); try done; simpl.
  - intros ? d [Es Hs]. split_and!; try done. split; rewrite ?Es; try done. intros _. by exists (so_context s).
  - intros e d [Es [Hs|Hs]]; eexists; (split; [|split]); try (by rewrite Es);
      [split; rewrite ?Es; simpl; try done; exact Hs|done|split; rewrite ?Es; simpl; try done; exact Hs|done].
Qed.

Lemma submit_acts p : acts (submit p) (λ rows v, honoured rows (CSubmit p) v).
Proof.
  intros [w s] o Ht. unfold submit. apply wp_bind, wp_gets.
  wp_check as Hc; [by exists o|]. reflect. destruct (ti_agree _ _ Ht) as (c & -> & Ec); [done|]. simpl in *.
  set (row := mkRow (row_id (length (so_rows s))) p Pending).
  apply wp_bind, wp_modify. change (set_store _ _) with (mkDesk w (set_rows (so_rows s ++ [row]) s)).
  apply wp_bind. wp_apply (save_rows s w c (so_rows s ++ [row])); try done; [apply grown_push| |].
  - apply rows_ok_push; [|lia]. apply Ht.
  - intros ? d (Es & Ht' & Hl). apply wp_bind, wp_gets, wp_ret. eexists. split_and!; [exact Ht'|by rewrite Es|done|].
    eexists _, _. split_and!; [done..|]. rewrite Es. simpl. unfold last_row. rewrite last_snoc.
    exists (length (so_rows s)), row. split_and!; try done. by rewrite lookup_app_r, Nat.sub_diag.
Qed.
Lemma review_acts id dec : acts (review id dec) (λ rows v, honoured rows (CReview id dec) v).
Proof.
  intros [w s] o Ht. unfold review. apply wp_bind, wp_gets.
  wp_check as Hc; [by exists o|]. reflect. destruct (ti_agree _ _ Ht) as (c & -> & Ec); [done|]. simpl in *.
  wp_try as index Hi; [|by eexists]. wp_try as row Hrow; [|by eexists].
  apply ok_or_Ok in Hi, Hrow. unfold position in Hi.
  apply fmap_Some in Hi as ([index' row'] & (Hf & Hid & _)%list_find_Some & ->). simpl in *.
  assert (row' = row) as -> by congruence.
  wp_check as Hrev; [by eexists|]. apply wp_bind. case_decide as Hp.
  - apply wp_bind, wp_modify. change (set_store _ _) with (mkDesk w (set_rows (alter (decide_row dec) index' (so_rows s)) s)).
    wp_apply (save_rows s w c (alter (decide_row dec) index' (so_rows s))); try done;
      [by eapply grown_decide|apply rows_ok_decide, Ht|].
    + intros ? d (Es & Ht' & Hl). apply wp_bind, wp_gets, wp_ret. eexists. split_and!; [exact Ht'|by rewrite Es|done|].
      eexists _, _. split_and!; [done..|]. rewrite Es. simpl. rewrite list_lookup_alter_eq, Hrow.
      eexists index', _. split_and!; [by rewrite list_lookup_alter_eq, Hrow|done..].
  - apply wp_ret, wp_bind, wp_gets, wp_ret. eexists. split_and!; [exact Ht|done|done|].
    eexists _, _. split_and!; [done..|]. simpl. rewrite Hrow. exists index', row. split_and!; try done.
    apply andb_false_iff in Hrev as [Hrev|Hrev]; reflect; [done|by simpl in *].
Qed.
Lemma list_acts : acts list_rows (λ rows v, honoured rows CList v).
Proof.
  intros [w s] o Ht. unfold list_rows. apply wp_bind, wp_gets.
  wp_check as Hc; [by exists o|]. destruct (ti_agree _ _ Ht Hc) as (c & -> & Ec). simpl in *.
  apply wp_ret. eexists. split_and!; [exact Ht|done|done|]. eexists _, _. split_and!; [done..|]. by eexists.
Qed.
Lemma perform_acts c : acts (perform c) (λ rows v, honoured rows c v).
Proof. destruct c; [apply submit_acts|apply review_acts|apply list_acts]. Qed.

Lemma serve_spec cs d o :
  tied d o →
  ∃ o', tied (snd (serve cs d)) o' ∧ later o o'
    ∧ so_context (dk_store (snd (serve cs d))) = so_context (dk_store d)
    ∧ ∀ x, x ∈ acknowledged (so_context (dk_store d)) (fst (serve cs d)) →
        holds o' x.1.1 x.1.2 x.2.
Proof.
  revert d o. induction cs as [|c cs IH]; intros d o Ht; simpl; [by exists o; set_solver|].
  pose proof (perform_acts c d o Ht) as Hp. unfold wp in Hp.
  destruct (perform c d) as [r d1] eqn:E1.
  assert (∃ o1, tied d1 o1 ∧ so_context (dk_store d1) = so_context (dk_store d) ∧ later o o1
    ∧ ∀ v, r = Ok v → holds o1 (so_context (dk_store d)) c v) as (o1 & Ht1 & Ec & Hl1 & Hv).
  { destruct r as [v|e]; [destruct Hp as (o1 & ? & ? & ? & b & rows & -> & ? & ?)|destruct Hp as (o1 & ? & ? & ?)];
      eexists; split_and!; try done. intros v' [= <-]. by exists b, rows. }
  destruct (IH d1 o1 Ht1) as (o2 & Ht2 & Hl2 & Ec2 & Hall).
  destruct (serve cs d1) as [answers d2]. simpl in *.
  exists o2. split_and!; [done|by etrans|congruence|]. rewrite Ec in Hall.
  destruct r as [v|e]; simpl; [|done].
  intros x [->|Hx]%elem_of_cons; [|by apply Hall]. simpl. eapply holds_later; [exact Hl2|by apply Hv].
Qed.

(** ** Opening *)

Lemma open_read_exact p w :
  wp (sys_open_read p)
    (λ f w', same_fs w w' ∧ ∃ n, lookup_inode w p = Some (fd_ino f, n))
    (λ e w', same_fs w w' ∧ (e = NotFound → lookup_inode w p = None)) w.
Proof.
  apply wp_simple; intros fs; [by split; [apply same_fs_faults|]|].
  unfold wp. change (lookup_inode (set_faults fs w) p) with (lookup_inode w p).
  destruct (lookup_inode w p) as [[i n]|] eqn:E1; simpl; [|by split; [apply same_fs_faults|]].
  destruct (i_kind n) eqn:K; simpl;
    first [by split; [apply same_fs_faults|]
          |split; [etrans; [apply same_fs_faults|apply same_fs_fd]|by exists n]].
Qed.
Lemma read_state_spec w o :
  shelf w o → wp (read_state dir) (λ st w', same_fs w w' ∧ st = o) (λ _ w', same_fs w w') w.
Proof.
  intros [Hw Ho]. unfold read_state. apply wp_bind, wp_attempt.
  wp_apply (open_read_exact json w).
  - intros f w1 [S1 (n & Hl)].
    destruct o as [[c rows]|]; [|congruence]. destruct Ho as [(b & (i & n' & Hl' & Hd & _) & Hb & Hs) _ _].
    assert (i = fd_ino f ∧ n' = n) as [-> ->] by (split; congruence).
    apply wp_bind, wp_map_err. wp_apply (reader_read_take (STATE_LIMIT + 1) f w1); [|intros e w2 S2; by etrans].
    intros data w2 [S2 (x & Hx & ->)].
    apply lookup_inode_Some in Hl as [_ Hi].
    assert (x = n) as -> by (destruct S1 as [_ E1 _ _ _ _]; congruence).
    rewrite take_ge by (rewrite Hd; unfold blen, STATE_LIMIT in *; lia). rewrite Hd.
    wp_check as Hc; [by etrans|]. wp_try as st Hst; [|by etrans]. apply ok_or_Ok in Hst.
    apply wp_ret. split; [by etrans|congruence].
  - intros e w1 [S1 Hn]. destruct e; wp_go; try done. split; [done|].
    specialize (Hn eq_refl). destruct o as [[c rows]|]; [|done].
    destruct Ho as [(b & (i & n & Hl & _) & _) _ _]. congruence.
Qed.
Lemma shelf_same w w' o : same_fs w w' → shelf w o → shelf w' o.
Proof. intros S1. apply keeps_shelf, same_fs_kept, S1. Qed.
Lemma check_fresh_keeps w :
  wp (check_fresh dir) (λ _ w', same_fs w w') (λ _ w', same_fs w w') w.
Proof.
  unfold check_fresh. apply wp_bind, wp_attempt.
  wp_apply (reader_symlink_metadata next w); [intros x w1 [S1 _]|intros e w1 S1]; [by wp_go|].
  destruct e; by wp_go.
Qed.
Lemma open_locked_spec context lock w o :
  shelf w o →
  wp (open_locked dir context lock)
    (λ r w', same_fs w w'
       ∧ ∃ rows, r = (is_none o, mkStore dir context rows lock false) ∧ rows_ok rows = true
         ∧ match o with Some (c, rows') => rows' = rows ∧ c ≡ context | None => rows = [] end)
    (λ _ w', same_fs w w') w.
Proof.
  intros Hs. unfold open_locked. apply wp_bind. wp_apply (read_state_spec w o Hs); [|done].
  intros st w1 [S1 ->]. apply wp_bind.
  eapply (wp_mono _ (λ _ w2, same_fs w w2) _ (λ _ w2, same_fs w w2)).
  { destruct (is_none o); [|by apply wp_ret].
    wp_apply (check_fresh_keeps w1); intros ? w2 S2; by etrans. }
  - intros ? w2 S2. wp_try as rows Hr; [|done]. wp_check as Hok; [done|]. reflect.
    apply wp_ret. split; [done|]. exists rows. split_and!; try done.
    destruct o as [[c rows']|]; simpl in Hr; [|by injection Hr].
    destruct (value_eqb c context) eqn:E1; simplify_eq/=. by split.
  - done.
Qed.
Lemma keeps_open_create p mode w :
  p ≠ json → wp (sys_open_create p mode) (λ _ w', keeps dir w w') (λ _ w', keeps dir w w') w.
Proof.
  intros Hp. apply wp_simple; intros fs; [apply same_fs_kept, same_fs_faults|].
  set (v := set_faults fs w). assert (keeps dir w v) as Hk by apply same_fs_kept, same_fs_faults. clearbody v.
  unfold wp. destruct (lookup_inode v p) as [[i n]|].
  - destruct (i_kind n); simpl; try done; (etrans; [exact Hk|apply keeps_fd]).
  - simpl. etrans; [exact Hk|]. etrans; [by apply (keeps_created dir p mode v)|].
    apply (keeps_fd dir _ (created p mode v)).
Qed.
Lemma flock_keeps f w : wp (sys_flock f true) (λ _ w', keeps dir w w') (λ _ w', keeps dir w w') w.
Proof.
  apply wp_simple; intros fs; [apply same_fs_kept, same_fs_faults|]. unfold wp.
  destruct (existsb _ _); simpl; etrans; try apply same_fs_kept, same_fs_faults; [reflexivity|apply keeps_locks].
Qed.

(** After a successful [open] the store agrees with the disk; a failed one has at
    most bound an empty store. *)
Lemma open_spec context w o :
  float_free context = true → shelf w o →
  wp (open dir context)
    (λ s w', ∃ o', tied (mkDesk w' s) o' ∧ later o o' ∧ so_context s = context)
    (λ _ w', ∃ o', shelf w' o' ∧ later o o') w.
Proof.
  intros Hc Hs. unfold open. apply wp_bind, wp_map_err.
  wp_apply (reader_symlink_metadata dir w);
    [intros m w1 [S1 _]|intros e w1 S1; exists o; split; [exact (shelf_same _ _ _ S1 Hs)|done]].
  pose proof (shelf_same _ _ _ S1 Hs) as Hs1. apply wp_bind, wp_gets.
  wp_check as Hm; [by exists o|]. apply wp_bind, wp_map_err.
  wp_apply (keeps_open_create (join_path dir "lock") 384 w1); [by intros E1%join_path_inj| |
    intros e w2 K2; exists o; split; [exact (keeps_shelf _ _ _ K2 Hs1)|done]].
  intros f w2 K2. pose proof (keeps_shelf _ _ _ K2 Hs1) as Hs2.
  apply wp_bind, wp_attempt. unfold open_with. apply wp_bind, wp_map_err.
  assert (∀ (e : string) w3 o3, shelf w3 o3 → later o o3 →
    wp ((_ ← modify (close f); fail e) : M world string Store) (λ (s : Store) w', ∃ o', tied (mkDesk w' s) o' ∧ later o o' ∧ so_context s = context)
      (λ _ w', ∃ o', shelf w' o' ∧ later o o') w3) as Hfail.
  { intros e w3 o3 Hs3 Hl3. apply wp_bind, wp_modify, wp_fail. exists o3.
    split; [eapply keeps_shelf; [apply keeps_locks|done]|done]. }
  wp_apply (flock_keeps f w2); [|intros e w3 K3; by apply (Hfail _ _ o (keeps_shelf _ _ _ K3 Hs2))].
  intros ? w3 K3. pose proof (keeps_shelf _ _ _ K3 Hs2) as Hs3. apply wp_bind.
  wp_apply (open_locked_spec context f w3 o Hs3); [|intros e w4 S4; by apply (Hfail _ _ o (shelf_same _ _ _ S4 Hs3))].
  intros st w4 (S4 & rows & -> & Hrows & Ho). pose proof (shelf_same _ _ _ S4 Hs3) as Hs4. simpl.
  destruct o as [[c rows']|]; simpl.
  - destruct Ho as [-> Ec]. apply wp_ret, wp_ret. exists (Some (c, rows)). split_and!; try done.
    split; try done. intros _. by exists c.
  - subst rows. pose proof (save_spec (mkStore dir context [] f false) w4 None eq_refl Hc Hrows Hs4) as Hsave.
    unfold wp in Hsave. unfold wp at 1, saved.
    destruct (save (mkDesk w4 (mkStore dir context [] f false))) as [[[]|e] [w5 s5]]; simpl in *.
    + destruct Hsave as [-> Hs5]. apply wp_ret. eexists. split_and!; [|by intros ? ? [=]|done].
      split; try done. intros _. by exists context.
    + destruct Hsave as [-> [Hs5|Hs5]]; (eapply Hfail; [exact Hs5|by intros ? ? [=]]).
Qed.

Lemma life_spec context cs w o :
  float_free context = true → shelf w o →
  ∃ o', shelf (snd (life dir context cs w)) o' ∧ later o o'
    ∧ ∀ x, x ∈ acknowledged context (fst (life dir context cs w)) → holds o' x.1.1 x.1.2 x.2.
Proof.
  intros Hc Hs. unfold life. pose proof (open_spec context w o Hc Hs) as Ho. unfold wp in Ho.
  destruct (open dir context w) as [[s|e] w1].
  - destruct Ho as (o1 & Ht & Hl1 & <-). destruct (serve_spec cs _ _ Ht) as (o2 & Ht2 & Hl2 & Hx & Hall).
    destruct (serve cs (mkDesk w1 s)) as [answers d]. simpl in *. exists o2. split_and!; [|by etrans|done].
    eapply keeps_shelf; [apply keeps_locks|apply Ht2].
  - destruct Ho as (o1 & Ho1 & Hl1). exists o1. simpl. split_and!; try done. set_solver.
Qed.
Lemma apart_shelf w w' o : apart dir w w' → shelf w o → shelf w' o.
Proof.
  intros [W J N] [Hw Ho]. split; [done|]. destruct o as [[c rows]|]; [|by rewrite J].
  destruct Ho as [(b & (i & n & Hl & Hd & Hk & Hn) & Hb) Hp Hr]. split; try done.
  exists b. split; [|done]. exists i, n. by rewrite J, N.
Qed.
End shelf.

(** What is on disk honours everything acknowledged so far. *)
Lemma reviews_shelf `{ReviewLaws} dir log w :
  history dir log w → ∃ o, shelf dir w o ∧ ∀ x, x ∈ log → holds o x.1.1 x.1.2 x.2.
Proof.
  induction 1 as [w Hw Hn|log w w1 context cs answers w2 Hh (o & Hs & Hall) Ha Hc Hlife].
  - exists None. split; [by split|set_solver].
  - destruct (life_spec dir context cs w1 o Hc) as (o' & Hs' & Hl & Hall'); [by eapply apart_shelf|].
    rewrite Hlife in *. simpl in *. exists o'. split; [done|].
    intros x [Hx|Hx]%elem_of_app; [eapply holds_later; [exact Hl|by apply Hall]|by apply Hall'].
Qed.

(** C26. Over any number of processes, with any call failing and a process
    ending anywhere, the published file holds every acknowledged proposal and
    decision: a submitted proposal is a row, an acknowledged decision is that row's
    decision and stays, a list that was given is extended only, the identifiers
    are consecutive, and every acknowledgement was made under the configuration
    the file is bound to.  Before the first binding nothing is acknowledged. *)
Theorem reviews_are_durable `{ReviewLaws} dir log w :
  history dir log w →
  (log = [] ∧ lookup_inode w (join_path dir JSON) = None)
  ∨ ∃ bound rows, published dir w bound rows
      ∧ ∀ context c v, (context, c, v) ∈ log → value_eqb bound context = true ∧ honoured rows c v.
Proof.
  intros Hh. destruct (reviews_shelf dir log w Hh) as (o & [_ Ho] & Hall).
  destruct o as [[bound rows]|]; [right|left].
  - exists bound, rows. split; [done|]. intros context c v Hx.
    destruct (Hall _ Hx) as (b & r & [= <- <-] & E1 & Hh'). by split.
  - split; [|done]. destruct log as [|x log]; [done|]. destruct (Hall x) as (? & ? & ? & _); [set_solver|done].
Qed.
