(* ===== verification/Connector.v ===== *)
(** * The read-only connector: [crates/tentaflake-integrations/src/lib.rs]

    [Gateway] with its grant, the route of a request, and the HTTPS transport.
    Several connections share the gateway and the credential lease, so the state
    carries a schedule of what the other threads do: before every access to
    shared state, and before every write to the caller, the next batch of their
    actions happens.  The [url] crate's builder is the class [UrlBuilder]. *)

From S2P Require Import Prelude RustStr Json Posix Net Activity Policy.

(** ** Data *)

Inductive Provider : Type := Drive | Gmail | HubSpot.
#[export] Instance Provider_eq_dec : EqDecision Provider.
Proof. solve_decision. Defined.
Inductive ReadMethod : Type := DriveMetadata | DriveFile | GmailMessage | HubSpotContact.
#[export] Instance ReadMethod_eq_dec : EqDecision ReadMethod.
Proof. solve_decision. Defined.
Definition provider_of (m : ReadMethod) : Provider :=
  match m with
  | DriveMetadata | DriveFile => Drive
  | GmailMessage => Gmail
  | HubSpotContact => HubSpot
  end.
Record ReadRequest : Type := mkRead {
  rd_tenant : string; rd_account : string; rd_resource : string; rd_method : ReadMethod; rd_generation : Z }.
(** A [BTreeSet] is the sorted list of its elements; a [Duration] is in nanoseconds. *)
Record Grant : Type := mkGrant {
  gr_agent : string; gr_tenant : string; gr_account : string; gr_provider : Provider;
  gr_resources : list string; gr_methods : list ReadMethod; gr_credential_reference : string;
  gr_generation : Z; gr_expires_unix : Z; gr_max_body_bytes : Z; gr_max_concurrency : Z; gr_deadline : Z }.
Inductive Error : Type :=
| Denied | Expired | Revoked | Busy | InvalidPolicy | InvalidRequest | CredentialUnavailable | Network
| Redirect | ProviderFailure | TooLarge | Malformed | Deadline.
#[export] Instance Error_eq_dec : EqDecision Error.
Proof. solve_decision. Defined.
Record Credential : Type := mkCredential { cr_token : string; cr_epoch : Z }.
Definition is_ascii_graphic (b : Z) : bool := in_range 33 126 b.
Definition Credential_new (value : string) : result Error Credential :=
  if str_is_empty value || (8192 <? str_len value) || negb (all_bytes is_ascii_graphic value)
  then Err CredentialUnavailable else Ok (mkCredential value 0).
Record Response : Type := mkResponse { re_status : Z; re_body : bytes }.
Inductive Content : Type := CJson (v : value) | CFile (b : bytes).
Record Audit : Type := mkAudit {
  au_generation : Z; au_method : ReadMethod; au_outcome : result Error unit; au_duration_ms : Z }.

Definition label (s : string) : bool :=
  negb (str_is_empty s) && (str_len s <=? 256) && negb (existsb is_control (chars s)).
Definition origin (p : Provider) : string :=
  match p with
  | Drive => "www.googleapis.com"
  | Gmail => "gmail.googleapis.com"
  | HubSpot => "api.hubapi.com"
  end.

(** [Ipv4Addr] and [Ipv6Addr] as in [Policy]. *)
Definition public_address (a : IpAddr) : bool :=
  match a with
  | V4 a b c _ =>
      negb ((a =? 0) || (a =? 10) || (a =? 127) || (224 <=? a)
            || ((a =? 100) && in_range 64 127 b)
            || ((a =? 169) && (b =? 254))
            || ((a =? 172) && in_range 16 31 b)
            || ((a =? 192) && ((b =? 168) || (b =? 0) || ((b =? 88) && (c =? 99))))
            || ((a =? 198) && ((b =? 18) || (b =? 19) || ((b =? 51) && (c =? 100))))
            || ((a =? 203) && (b =? 0) && (c =? 113)))
  | V6 s0 s1 _ _ _ _ _ _ =>
      (Z.land s0 57344 (* 0xe000 *) =? 8192 (* 0x2000 *))
      && negb (s0 =? 8193 (* 0x2001 *)) && negb (s0 =? 8194 (* 0x2002 *))
      && negb ((s0 =? 16383 (* 0x3fff *)) && (s1 <=? 4095 (* 0x0fff *)))
  end.

(** ** Routes *)

(** [path_segments_mut] followed by [clear] and [extend], and [append_pair]. *)
Class UrlBuilder `{UrlLib} : Type := {
  url_set_segments : list string → url → option url;
  url_append_pair : string → string → url → url;
}.
Definition segments (r : ReadRequest) : list string :=
  match rd_method r with
  | DriveMetadata | DriveFile => ["drive"; "v3"; "files"; rd_resource r]
  | GmailMessage => ["gmail"; "v1"; "users"; rd_account r; "messages"; rd_resource r]
  | HubSpotContact => ["crm"; "v3"; "objects"; "contacts"; rd_resource r]
  end%string.
Definition query (m : ReadMethod) : list (string * string) :=
  match m with
  | DriveMetadata => [("fields", "id,name,mimeType,size,modifiedTime")]
  | DriveFile => [("alt", "media")]
  | GmailMessage => [("format", "full")]
  | HubSpotContact => [("properties", "email,firstname,lastname"); ("archived", "false")]
  end%string.
Definition dots (s : string) : bool := (s =? ".")%string || (s =? "..")%string.
Definition route `{UrlBuilder} (r : ReadRequest) : result Error url :=
  _ ← bail_if (negb (label (rd_resource r)) || negb (label (rd_account r))
               || dots (rd_resource r) || dots (rd_account r)) InvalidRequest;
  u ← ok_or InvalidRequest (url_parse ("https://" ++ origin (provider_of (rd_method r)) ++ "/"));
  u ← ok_or InvalidRequest (url_set_segments (segments r) u);
  Ok (foldl (λ u kv, url_append_pair (fst kv) (snd kv) u) u (query (rd_method r))).

(** ** Shared state *)

Record Lease : Type := mkLease { le_token : string; le_epoch : Z; le_expires : Z }.
Record shared : Type := mkShared {
  sh_generation : Z;                    (* [Gateway::generation] *)
  sh_active : Z;                        (* [Gateway::active] *)
  sh_others : Z;                        (* how many of these slots other threads hold *)
  sh_limit : Z;                         (* [max_concurrency], for the other threads *)
  sh_lease : option Lease;              (* [RuntimeCredentials::lease] *)
  sh_epoch : Z;                         (* [RuntimeCredentials::epoch] *)
  sh_pending : option (option Lease);   (* another thread holds the lease's lock and stores this *)
  sh_sequence : Z;                      (* [Journal::sequence] *)
}.
Definition set_generation x (s : shared) : shared :=
  mkShared x (sh_active s) (sh_others s) (sh_limit s) (sh_lease s) (sh_epoch s) (sh_pending s) (sh_sequence s).
Definition set_active x o (s : shared) : shared :=
  mkShared (sh_generation s) x o (sh_limit s) (sh_lease s) (sh_epoch s) (sh_pending s) (sh_sequence s).
Definition set_lease x (s : shared) : shared :=
  mkShared (sh_generation s) (sh_active s) (sh_others s) (sh_limit s) x (sh_epoch s) (sh_pending s)
    (sh_sequence s).
Definition set_epoch x (s : shared) : shared :=
  mkShared (sh_generation s) (sh_active s) (sh_others s) (sh_limit s) (sh_lease s) x (sh_pending s)
    (sh_sequence s).
Definition set_pending x (s : shared) : shared :=
  mkShared (sh_generation s) (sh_active s) (sh_others s) (sh_limit s) (sh_lease s) (sh_epoch s) x
    (sh_sequence s).
Definition set_sequence x (s : shared) : shared :=
  mkShared (sh_generation s) (sh_active s) (sh_others s) (sh_limit s) (sh_lease s) (sh_epoch s)
    (sh_pending s) x.

(** [fetch_add] and [fetch_sub] wrap. *)
Definition wrap64 (x : Z) : Z := x mod 18446744073709551616.

(** The critical section of [rotate] ([Some]) and [revoke] ([None]), in two
    steps: the epoch moves first, the slot is stored afterwards.  A rotation whose
    epoch has no successor gives up in between. *)
Definition begin_change (l : option (string * Z)) (s : shared) : shared :=
  let e := sh_epoch s in
  let s' := set_epoch (wrap64 (e + 1)) s in
  match l with
  | None => set_pending (Some None) s'
  | Some (token, expires) =>
      if e =? u64_max then s' else set_pending (Some (Some (mkLease token (e + 1) expires))) s'
  end.
Definition finish_change (s : shared) : shared :=
  match sh_pending s with
  | Some l => set_pending None (set_lease l s)
  | None => s
  end.

(** What another thread does in one step: take or give back a slot, revoke the
    gateway, begin or finish a change of the lease under its lock, or take a
    sequence number. *)
Inductive action : Type :=
| OEnter | OLeave | ORevokeGateway | OBegin (l : option (string * Z)) | OFinish | OSequence.
Definition act (a : action) (s : shared) : shared :=
  match a with
  | OEnter => if sh_active s <? sh_limit s then set_active (sh_active s + 1) (sh_others s + 1) s else s
  | OLeave => if 0 <? sh_others s then set_active (sh_active s - 1) (sh_others s - 1) s else s
  | ORevokeGateway => set_generation 0 s
  | OBegin l => match sh_pending s with Some _ => s | None => begin_change l s end
  | OFinish => finish_change s
  | OSequence => set_sequence (wrap64 (sh_sequence s + 1)) s
  end.

(** What is observed from outside, latest first. *)
Section thread.
Context `{UrlLib}.
Inductive event : Type :=
| Sent (u : url) (token : string) (cap deadline : Z)   (* to the provider *)
| Recorded (a : Audit)                                 (* in the journal *)
| Began                                                (* a change of the lease *)
| Finished (token : option string)                     (* its end: the new token *)
| Wrote (b : bytes).                                   (* to the caller *)
Definition event_of (a : action) (s : shared) : list event :=
  match a, sh_pending s with
  | OBegin _, None => [Began]
  | OFinish, Some l => [Finished (le_token <$> l)]
  | _, _ => []
  end.

(** The outcome of one [send] of the HTTP client: the status, the announced
    length, and the body ([None]: reading it fails). *)
Record reply : Type := mkReply { rp_status : Z; rp_length : option Z; rp_body : option bytes }.
(** One thread's view: the shared state, what the other threads do next, and what
    the clocks, the provider and the activity collector will answer. *)
Record front : Type := mkFront {
  fr_shared : shared;
  fr_schedule : list (list action);
  fr_wall : list (option Z);        (* [SystemTime::now] in milliseconds; [None]: before the epoch *)
  fr_ticks : list Z;                (* [Instant::now] in nanoseconds *)
  fr_sends : list (option reply);
  fr_env : Activity.env;            (* the journal's connections *)
  fr_trace : list event;
}.
Definition set_shared x (f : front) : front :=
  mkFront x (fr_schedule f) (fr_wall f) (fr_ticks f) (fr_sends f) (fr_env f) (fr_trace f).
Definition set_schedule x (f : front) : front :=
  mkFront (fr_shared f) x (fr_wall f) (fr_ticks f) (fr_sends f) (fr_env f) (fr_trace f).
Definition set_fwall x (f : front) : front :=
  mkFront (fr_shared f) (fr_schedule f) x (fr_ticks f) (fr_sends f) (fr_env f) (fr_trace f).
Definition set_fticks x (f : front) : front :=
  mkFront (fr_shared f) (fr_schedule f) (fr_wall f) x (fr_sends f) (fr_env f) (fr_trace f).
Definition set_sends x (f : front) : front :=
  mkFront (fr_shared f) (fr_schedule f) (fr_wall f) (fr_ticks f) x (fr_env f) (fr_trace f).
Definition set_fenv x (f : front) : front :=
  mkFront (fr_shared f) (fr_schedule f) (fr_wall f) (fr_ticks f) (fr_sends f) x (fr_trace f).
Definition add_trace l (f : front) : front :=
  mkFront (fr_shared f) (fr_schedule f) (fr_wall f) (fr_ticks f) (fr_sends f) (fr_env f) (l ++ fr_trace f).

Definition apply_action (f : front) (a : action) : front :=
  set_shared (act a (fr_shared f)) (add_trace (event_of a (fr_shared f)) f).
(** The other threads run. *)
Definition interfere {E} : M front E unit := λ f,
  match fr_schedule f with
  | [] => (Ok tt, f)
  | batch :: rest => (Ok tt, foldl apply_action (set_schedule rest f) batch)
  end.
(** One access to an atomic. *)
Definition atomic {E A} (g : shared → A * shared) : M front E A :=
  _ ← interfere;
  (λ f, match g (fr_shared f) with (a, s) => (Ok a, set_shared s f) end) : M front E A.
Definition load_atomic {E A} (g : shared → A) : M front E A := atomic (λ s, (g s, s)).
(** [lock()] waits for the thread that is changing the lease. *)
Definition lock_lease {E} : M front E unit :=
  _ ← interfere; modify (λ f, apply_action f OFinish).

(** [Instant::now] and [elapsed]; a clock without readings left is later than
    every deadline. *)
Definition read_tick {E} : M front E instant := λ f,
  match fr_ticks f with
  | [] => (Ok None, f)
  | t :: ts => (Ok (Some t), set_fticks ts f)
  end.
Definition FAR : Z := 10 ^ 30.
Definition since (start now : instant) : Z :=
  match start, now with
  | Some s, Some t => Z.max 0 (t - s)
  | _, _ => FAR
  end.
Definition elapsed {E} (start : instant) : M front E Z :=
  now ← read_tick; mret (since start now).
(** [SystemTime::now().duration_since(UNIX_EPOCH)]. *)
Definition wall_clock {E} : M front E (option Z) := λ f,
  match fr_wall f with
  | [] => (Ok None, f)
  | t :: ts => (Ok t, set_fwall ts f)
  end.
(** [front::now], and the same expression in [Gateway::authorize]: seconds. *)
Definition now : M front Error Z :=
  t ← wall_clock; lift (ok_or Expired ((λ t, t / 1000) <$> t)).

(** ** The traits *)

Class CredentialSource (C : Type) : Type := {
  load : C → string → Provider → string → string → M front Error Credential;
  validate : C → Credential → M front Error unit;
}.
Class Transport (T : Type) : Type := {
  get : T → url → Credential → Z → Z → M front Error Response;
}.
Class AuditSink (A : Type) : Type := {
  record : A → Audit → M front Error unit;
}.
End thread.

(** ** [Gateway] *)

Record Gateway (T C A : Type) : Type := mkGateway {
  gw_grant : Grant; gw_transport : T; gw_credentials : C; gw_audit : A }.
Arguments mkGateway {T C A} _ _ _ _.
Arguments gw_grant {T C A} _.
Arguments gw_transport {T C A} _.
Arguments gw_credentials {T C A} _.
Arguments gw_audit {T C A} _.

Definition NANOS : Z := 1000000000.
Definition invalid_grant (g : Grant) : bool :=
  negb (label (gr_agent g)) || negb (label (gr_tenant g)) || negb (label (gr_account g))
  || negb (label (gr_credential_reference g))
  || (gr_generation g =? 0)
  || (blen (gr_resources g) =? 0) || (4096 <? blen (gr_resources g))
  || negb (forallb label (gr_resources g))
  || (blen (gr_methods g) =? 0)
  || existsb (λ m, negb (bool_decide (provider_of m = gr_provider g))) (gr_methods g)
  || negb (in_range 1 (4 * 1024 * 1024) (gr_max_body_bytes g))
  || negb (in_range 1 16 (gr_max_concurrency g))
  || (gr_deadline g =? 0)
  || (60 * NANOS <? gr_deadline g).
(** The atomics start as [initial_shared]. *)
Definition Gateway_new {T C A} (grant : Grant) (transport : T) (credentials : C) (audit : A) :
    result Error (Gateway T C A) :=
  _ ← bail_if (invalid_grant grant) InvalidPolicy;
  Ok (mkGateway grant transport credentials audit).
Definition initial_shared (g : Grant) : shared :=
  mkShared (gr_generation g) 0 0 (gr_max_concurrency g) None 0 None 0.

Class ReadCodec : Type := {
  read_request_from_slice : bytes → option ReadRequest;   (* derived [Deserialize] *)
}.

Section gateway.
Context `{UrlBuilder} `{SerdeJson} {T C A : Type} `{!Transport T} `{!CredentialSource C} `{!AuditSink A}.
Implicit Types g : Gateway T C A.

Definition revoke_gateway : M front Error unit := atomic (λ s, (tt, set_generation 0 s)).

Definition matches_grant (g : Grant) (r : ReadRequest) : bool :=
  (rd_generation r =? gr_generation g) && (rd_tenant r =? gr_tenant g)%string
  && (rd_account r =? gr_account g)%string && str_in (rd_resource r) (gr_resources g)
  && bool_decide (rd_method r ∈ gr_methods g).
Definition authorize g (r : ReadRequest) : M front Error unit :=
  generation ← load_atomic sh_generation;
  _ ← throw_if (generation =? 0) Revoked;
  t ← now;
  _ ← throw_if (gr_expires_unix (gw_grant g) <=? t) Expired;
  throw_if (negb (matches_grant (gw_grant g) r)) Denied.

(** [try_update] on [active], and [Slot]'s destructor. *)
Definition enter (limit : Z) : M front Error unit :=
  entered ← atomic (λ s, if sh_active s <? limit
                         then (true, set_active (sh_active s + 1) (sh_others s) s) else (false, s));
  throw_if (negb entered) Busy.
Definition leave {E} : M front E unit :=
  atomic (λ s, (tt, set_active (wrap64 (sh_active s - 1)) (sh_others s) s)).
(** The slot is given back on every exit. *)
Definition slotted {X} (m : M front Error X) : M front Error X :=
  r ← attempt m; _ ← leave; lift r.

Definition content_of (r : ReadRequest) (body : bytes) : result Error Content :=
  if decide (rd_method r = DriveFile) then Ok (CFile body)
  else
    v ← ok_or Malformed (from_slice body);
    _ ← bail_if (negb (is_object v)
                 || negb (opt_str_eq (vget "id" v ≫= as_str) (rd_resource r))) Malformed;
    Ok (CJson v).
(** [read_inner] with a slot: up to the request, ... *)
Definition prepare g (r : ReadRequest) (started : instant) : M front Error (url * Credential * Z) :=
  let grant := gw_grant g in
  u ← lift (route r);
  credential ← map_err (λ _, CredentialUnavailable)
    (load (gw_credentials g) (gr_credential_reference grant) (gr_provider grant) (gr_tenant grant)
       (gr_account grant));
  _ ← authorize g r;
  e ← elapsed started;
  _ ← throw_if (gr_deadline grant <? e) Deadline;
  mret (u, credential, gr_deadline grant - e).
(** ... and after the response. *)
Definition check_response g (r : ReadRequest) (started : instant) (credential : Credential)
    (response : Response) : M front Error Content :=
  let grant := gw_grant g in
  _ ← authorize g r;
  _ ← validate (gw_credentials g) credential;
  e ← elapsed started;
  _ ← throw_if (gr_deadline grant <? e) Deadline;
  _ ← throw_if (in_range 300 399 (re_status response)) Redirect;
  _ ← throw_if (negb (re_status response =? 200)) ProviderFailure;
  _ ← throw_if (gr_max_body_bytes grant <? blen (re_body response)) TooLarge;
  lift (content_of r (re_body response)).
Definition read_slot g (r : ReadRequest) : M front Error Content :=
  started ← read_tick;
  p ← prepare g r started;
  let '(u, credential, remaining) := p in
  response ← get (gw_transport g) u credential (gr_max_body_bytes (gw_grant g)) remaining;
  check_response g r started credential response.
Definition read_inner g (r : ReadRequest) : M front Error Content :=
  _ ← authorize g r;
  _ ← enter (gr_max_concurrency (gw_grant g));
  slotted (read_slot g r).

Definition outcome_of {X} (r : result Error X) : result Error unit :=
  match r with Ok _ => Ok tt | Err e => Err e end.
Definition read g (r : ReadRequest) : M front Error Content :=
  started ← read_tick;
  res ← attempt (read_inner g r);
  e ← elapsed started;
  _ ← record (gw_audit g)
        (mkAudit (gr_generation (gw_grant g)) (rd_method r) (outcome_of res)
           (Z.min (as_millis e) 86400000));
  lift res.
Definition read_json `{ReadCodec} g (b : bytes) : M front Error Content :=
  _ ← throw_if (4096 <? blen b) TooLarge;
  r ← lift (ok_or InvalidRequest (read_request_from_slice b));
  read g r.
End gateway.

(** ** [HttpsTransport] *)

(** The provider and the pinned addresses of the client. *)
Record HttpsTransport : Type := mkHttps { ht_provider : Provider; ht_sockets : list (IpAddr * Z) }.
(** [built]: the client's builder succeeds. *)
Definition HttpsTransport_new (built : bool) (p : Provider) (addresses : list IpAddr) :
    result Error HttpsTransport :=
  _ ← bail_if ((blen addresses =? 0) || (16 <? blen addresses)
               || existsb (λ a, negb (public_address a)) addresses) InvalidPolicy;
  let sockets := (λ ip, (ip, 443)) <$> addresses in
  _ ← bail_if (negb built) Network;
  Ok (mkHttps p sockets).

Section https.
Context `{UrlLib}.
Definition send_request (u : url) (token : string) (cap deadline : Z) : M front Error reply := λ f,
  let f := add_trace [Sent u token cap deadline] f in
  match fr_sends f with
  | Some r :: l => (Ok r, set_sends l f)
  | None :: l => (Err Network, set_sends l f)
  | [] => (Err Network, f)
  end.
Definition allowed_url (p : Provider) (u : url) : bool :=
  (url_scheme u =? "https")%string && opt_str_eq (url_host_str u) (origin p)
  && is_some_and (Z.eqb 443) (url_port_or_known_default u) && str_is_empty (url_username u)
  && is_none (url_password u) && is_none (url_fragment u).
Definition https_get (t : HttpsTransport) (u : url) (c : Credential) (cap deadline : Z) :
    M front Error Response :=
  _ ← throw_if (negb (allowed_url (ht_provider t) u)) Denied;
  r ← send_request u (cr_token c) cap deadline;
  _ ← throw_if (in_range 300 399 (rp_status r)) Redirect;
  _ ← throw_if (negb (rp_status r =? 200)) ProviderFailure;
  _ ← throw_if (is_some_and (λ n, cap <? n) (rp_length r)) TooLarge;
  b ← lift (ok_or Network (rp_body r));
  let body := take_bytes (cap + 1) b in
  _ ← throw_if (cap <? blen body) TooLarge;
  mret (mkResponse (rp_status r) body).
#[export] Instance https_transport : Transport HttpsTransport := { get := https_get }.
End https.
