(* ===== verification/ConnectorSpec.v ===== *)
(** * What a read through the gateway does

    The invariant of the shared state, what other threads can do to it, the
    contracts of the three traits ([LawfulSource], [LawfulTransport],
    [LawfulSink]), and the specification of [Gateway::read] against them. *)

From S2P Require Import Prelude RustStr Json Posix Net Activity Policy Connector.

Section spec.
Context `{UrlLib}.
Implicit Types (f : front) (l : list event) (s : shared).

(** ** The shared state *)

Definition is_began (e : event) : bool := match e with Began => true | _ => false end.
Definition is_change (e : event) : bool := match e with Began | Finished _ => true | _ => false end.
Definition is_sent (e : event) : bool := match e with Sent _ _ _ _ => true | _ => false end.
Definition is_recorded (e : event) : bool := match e with Recorded _ => true | _ => false end.
Definition is_wrote (e : event) : bool := match e with Wrote _ => true | _ => false end.
Definition count (p : event → bool) l : Z := blen (List.filter p l).
Lemma count_app p l l' : count p (l ++ l') = count p l + count p l'.
Proof. unfold count, blen. rewrite List.filter_app, length_app. lia. Qed.
Lemma count_nonneg p l : 0 ≤ count p l.
Proof. unfold count, blen. lia. Qed.
Lemma count_cons p e l : count p (e :: l) = (if p e then 1 else 0) + count p l.
Proof. unfold count, blen. simpl. destruct (p e); simpl; lia. Qed.

(** Only changes of the lease. *)
Definition quiet l : Prop := Forall (λ e, is_change e = true) l.
Lemma quiet_app l l' : quiet l → quiet l' → quiet (l ++ l').
Proof. apply Forall_app_2. Qed.
Lemma quiet_count p l : (∀ e, is_change e = true → p e = false) → quiet l → count p l = 0.
Proof.
  intros Hp. induction 1 as [|e l He Hl IH]; [done|]. rewrite count_cons, IH, (Hp e He). done.
Qed.

Definition scheduled (b : list (list action)) : Z :=
  blen (List.filter (λ a, match a with OBegin _ => true | _ => false end) (concat b)).
(** The lease in the slot is the current one, unless it is being replaced. *)
Record good s : Prop := {
  go_epoch : 0 ≤ sh_epoch s;
  go_others : 0 ≤ sh_others s;
  go_own : sh_others s ≤ sh_active s ≤ sh_limit s;
  go_lease le : sh_lease s = Some le →
    match sh_pending s with None => le_epoch le = sh_epoch s | Some _ => le_epoch le < sh_epoch s end;
  go_pending le : sh_pending s = Some (Some le) → le_epoch le = sh_epoch s;
}.
(** The token of the lease in the slot, from the history. *)
Fixpoint token_of l : option string :=
  match l with
  | [] => None
  | Finished t :: _ => t
  | _ :: l => token_of l
  end.
Record sound f : Prop := {
  so_good : good (fr_shared f);
  so_token : le_token <$> sh_lease (fr_shared f) = token_of (fr_trace f);
}.
(** [n] more changes of the lease fit the epoch. *)
Record fit (n : Z) f : Prop := {
  fi_sound : sound f;
  fi_count : 0 ≤ n;
  fi_room : sh_epoch (fr_shared f) + scheduled (fr_schedule f) + n ≤ u64_max;
  fi_limit : sh_limit (fr_shared f) ≤ u64_max;
}.
(** From [f] to [f'] with the events [l] and [m] changes of our own; our slots
    change by [k]. *)
Record moved (k m : Z) l f f' : Prop := {
  mv_trace : fr_trace f' = l ++ fr_trace f;
  mv_epoch : sh_epoch (fr_shared f') = sh_epoch (fr_shared f) + count is_began l;
  mv_own : sh_active (fr_shared f') - sh_others (fr_shared f') = sh_active (fr_shared f) - sh_others (fr_shared f) + k;
  mv_room : sh_epoch (fr_shared f') + scheduled (fr_schedule f')
            ≤ sh_epoch (fr_shared f) + scheduled (fr_schedule f) + m;
  mv_limit : sh_limit (fr_shared f') = sh_limit (fr_shared f);
  mv_idle : sh_pending (fr_shared f) = None → count is_began l = 0 →
    sh_pending (fr_shared f') = None ∧ token_of (fr_trace f') = token_of (fr_trace f);
  mv_sound : sound f';
}.
Lemma moved_fit n k m l f f' : 0 ≤ n → fit (n + m) f → moved k m l f f' → fit n f'.
Proof. intros ? [? ? ? ?] []. split; [done|done|lia|congruence]. Qed.
Lemma moved_fit0 n k l f f' : fit n f → moved k 0 l f f' → fit n f'.
Proof. intros Hf. eapply (moved_fit n k 0); [apply Hf|by rewrite Z.add_0_r]. Qed.
Lemma moved_refl f : sound f → moved 0 0 [] f f.
Proof. intros. split; try done; unfold count, blen; simpl; lia. Qed.
Lemma moved_trans k k' m m' l l' f f1 f2 :
  moved k m l f f1 → moved k' m' l' f1 f2 → moved (k + k') (m + m') (l' ++ l) f f2.
Proof.
  intros [T1 E1 O1 R1 L1 I1 G1] [T2 E2 O2 R2 L2 I2 G2]. split; rewrite ?count_app; try done; try lia; try congruence.
  - by rewrite T2, T1, app_assoc.
  - intros Hp Hc. pose proof (count_nonneg is_began l). pose proof (count_nonneg is_began l').
    destruct I1 as [Hp1 ET1]; [done|lia|]. destruct I2 as [? ?]; [done|lia|]. split; congruence.
Qed.
Lemma moved_trans0 k k' l l' f f1 f2 :
  moved k 0 l f f1 → moved k' 0 l' f1 f2 → moved (k + k') 0 (l' ++ l) f f2.
Proof. apply (moved_trans k k' 0 0). Qed.

(** ** What the other threads do *)

Lemma wrap64_small x : 0 ≤ x ≤ u64_max → wrap64 x = x.
Proof. intros. apply Z.mod_small. unfold u64_max in *. lia. Qed.

Lemma good_begin c s :
  good s → sh_pending s = None → sh_epoch s < u64_max →
  good (begin_change c s) ∧ sh_epoch (begin_change c s) = sh_epoch s + 1 ∧ is_Some (sh_pending (begin_change c s)).
Proof.
  intros [E1 E2 E3 E4 E5] Hp Hm. rewrite Hp in *.
  assert (wrap64 (sh_epoch s + 1) = sh_epoch s + 1) as Ew by (apply wrap64_small; lia).
  unfold begin_change. rewrite Ew. destruct c as [[tok ex]|].
  - destruct (Z.eqb_spec (sh_epoch s) u64_max); [lia|]. split; [|done].
    split; simpl; try done; [lia|intros le Hle; rewrite (E4 le Hle); lia|by intros le [= <-]].
  - split; [|done]. split; simpl; try done; [lia|intros le Hle; rewrite (E4 le Hle); lia].
Qed.
Lemma good_finish s : good s → good (finish_change s).
Proof.
  intros [E1 E2 E3 E4 E5]. unfold finish_change. destruct (sh_pending s) as [p|] eqn:Ep; [|by split; rewrite ?Ep].
  split; simpl; try done. intros le ->. by apply E5.
Qed.
Lemma finish_pending s : sh_pending (finish_change s) = None.
Proof. unfold finish_change. by destruct (sh_pending s) eqn:E. Qed.
Lemma finish_same s :
  sh_epoch (finish_change s) = sh_epoch s ∧ sh_active (finish_change s) = sh_active s
  ∧ sh_others (finish_change s) = sh_others s ∧ sh_limit (finish_change s) = sh_limit s
  ∧ sh_generation (finish_change s) = sh_generation s.
Proof. unfold finish_change. by destruct (sh_pending s). Qed.

(** One action of another thread: what it does to the counters, ... *)
Lemma act_counters a s :
  good s → sh_epoch s < u64_max ∨ (∀ c, a ≠ OBegin c) →
  sh_epoch (act a s) = sh_epoch s + count is_began (event_of a s)
  ∧ sh_active (act a s) - sh_others (act a s) = sh_active s - sh_others s
  ∧ sh_epoch (act a s) ≤ sh_epoch s + (match a with OBegin _ => 1 | _ => 0 end)
  ∧ sh_limit (act a s) = sh_limit s.
Proof.
  intros Hg Hm. destruct a as [| | |c| |]; simpl; unfold count, blen; simpl; try lia.
  - destruct (Z.ltb_spec (sh_active s) (sh_limit s)); simpl; lia.
  - destruct (Z.ltb_spec 0 (sh_others s)); simpl; lia.
  - destruct (sh_pending s) as [p|] eqn:Ep; simpl; [lia|].
    destruct (good_begin c s Hg Ep) as (_ & EE & _); [destruct Hm as [?|Hm]; [done|by destruct (Hm c)]|].
    assert (sh_active (begin_change c s) = sh_active s ∧ sh_others (begin_change c s) = sh_others s
      ∧ sh_limit (begin_change c s) = sh_limit s) as (-> & -> & ->).
    { unfold begin_change. destruct c as [[]|]; [destruct (_ =? _)|]; done. }
    lia.
  - destruct (finish_same s) as (-> & -> & -> & -> & _). destruct (sh_pending s); simpl; lia.
Qed.
(** ... to the invariant, ... *)
Lemma act_good a s : good s → sh_epoch s < u64_max ∨ (∀ c, a ≠ OBegin c) → good (act a s).
Proof.
  intros Hg Hm. pose proof Hg as [E1 E2 E3 E4 E5]. destruct a as [| | |c| |]; simpl.
  - destruct (Z.ltb_spec (sh_active s) (sh_limit s)); [|done]. split; simpl; try done; lia.
  - destruct (Z.ltb_spec 0 (sh_others s)); [|done]. split; simpl; try done; lia.
  - by split.
  - destruct (sh_pending s) as [p|] eqn:Ep; [done|].
    apply good_begin; [done..|]. destruct Hm as [?|Hm]; [done|by destruct (Hm c)].
  - by apply good_finish.
  - by split.
Qed.
(** ... and to the slot. *)
Lemma act_token a s l :
  le_token <$> sh_lease s = token_of l → le_token <$> sh_lease (act a s) = token_of (event_of a s ++ l).
Proof.
  intros Ht. destruct a as [| | |c| |]; simpl; try done.
  - by destruct (_ <? _).
  - by destruct (_ <? _).
  - destruct (sh_pending s) as [p|]; simpl; [done|]. unfold begin_change.
    destruct c as [[]|]; [destruct (_ =? _)|]; done.
  - unfold finish_change. by destruct (sh_pending s) as [p|].
Qed.
Lemma act_idle a s l :
  sh_pending s = None → count is_began (event_of a s) = 0 →
  sh_pending (act a s) = None ∧ token_of (event_of a s ++ l) = token_of l.
Proof.
  intros Hp. destruct a; simpl; rewrite ?Hp; unfold count, blen; simpl; try done.
  - by destruct (_ <? _).
  - by destruct (_ <? _).
  - intros _. unfold finish_change. by rewrite Hp.
Qed.
Lemma event_of_quiet a s : quiet (event_of a s).
Proof. unfold quiet. destruct a; simpl; destruct (sh_pending s); repeat constructor. Qed.
Lemma moved_action a f :
  sound f → sh_epoch (fr_shared f) < u64_max ∨ (∀ c, a ≠ OBegin c) →
  moved 0 (match a with OBegin _ => 1 | _ => 0 end) (event_of a (fr_shared f)) f (apply_action f a).
Proof.
  intros [Hg Ht] Hm. destruct (act_counters a _ Hg Hm) as (EE & EO & ER & EL).
  split; simpl; try done; try lia; [by apply act_idle|].
  split; simpl; [by apply act_good|by apply act_token].
Qed.
Definition begin_count (b : list action) : Z :=
  blen (List.filter (λ a, match a with OBegin _ => true | _ => false end) b).
Lemma moved_batch b f :
  sound f → sh_epoch (fr_shared f) + begin_count b ≤ u64_max →
  ∃ l, quiet l ∧ moved 0 (begin_count b) l f (foldl apply_action f b).
Proof.
  revert f. induction b as [|a b IH]; intros f Hs Hr; simpl.
  - exists []. split; [constructor|]. by apply moved_refl.
  - set (k := match a with OBegin _ => 1 | _ => 0 end).
    assert (begin_count (a :: b) = k + begin_count b) as Ek.
    { subst k. unfold begin_count, blen. simpl. destruct a; simpl; lia. }
    assert (0 ≤ begin_count b) by (unfold begin_count, blen; lia).
    assert (moved 0 k (event_of a (fr_shared f)) f (apply_action f a)) as M1.
    { apply moved_action; [done|]. subst k. destruct a; try (right; congruence). left. lia. }
    destruct (IH (apply_action f a)) as (l & Hq & M2); [apply M1| |].
    { assert (sh_epoch (fr_shared (apply_action f a)) ≤ sh_epoch (fr_shared f) + k); [|lia].
      destruct (act_counters a (fr_shared f)) as (_ & _ & ? & _); [apply Hs| |done].
      subst k. destruct a; try (right; congruence). left. lia. }
    exists (l ++ event_of a (fr_shared f)). split; [apply quiet_app; [done|apply event_of_quiet]|].
    rewrite Ek. exact (moved_trans _ _ _ _ _ _ _ _ _ M1 M2).
Qed.

(** ** Accesses *)

Section accesses.
Context {E : Type}.
Implicit Types X : E → front → Prop.

Lemma interfere_spec n X f :
  fit n f → wp interfere (λ _ f', ∃ l, quiet l ∧ moved 0 0 l f f') X f.
Proof.
  intros [Hs Hn Hr Hl]. unfold wp, interfere. destruct (fr_schedule f) as [|b bs] eqn:E1.
  - exists []. split; [constructor|]. by apply moved_refl.
  - assert (scheduled (b :: bs) = begin_count b + scheduled bs) as Eb.
    { unfold scheduled, begin_count, blen. simpl. rewrite List.filter_app, length_app. lia. }
    assert (0 ≤ scheduled bs) by (unfold scheduled, blen; lia).
    destruct (moved_batch b (set_schedule bs f)) as (l & Hq & [T1 E1' O1 R1 L1 I1 S1]).
    + destruct Hs. by split.
    + simpl. lia.
    + exists l. split; [done|]. split; try done. simpl in *. rewrite E1. lia.
Qed.
(** Nothing but quiet moves. *)
Definition drifts f f' : Prop := ∃ l, quiet l ∧ moved 0 0 l f f'.
Lemma drifts_refl f : sound f → drifts f f.
Proof. intros. exists []. split; [constructor|by apply moved_refl]. Qed.
Lemma drifts_trans f f1 f2 : drifts f f1 → drifts f1 f2 → drifts f f2.
Proof. intros (l & Q & M1) (l' & Q' & M2). exists (l' ++ l). split; [by apply quiet_app|exact (moved_trans0 0 0 _ _ _ _ _ M1 M2)]. Qed.
Lemma drifts_fit n f f' : fit n f → drifts f f' → fit n f'.
Proof. intros Hf (l & _ & M1). by eapply moved_fit0. Qed.

(** Steps that touch neither the shared state nor the trace. *)
Record calm f f' : Prop := {
  ca_shared : fr_shared f' = fr_shared f;
  ca_schedule : fr_schedule f' = fr_schedule f;
  ca_trace : fr_trace f' = fr_trace f;
}.
Lemma calm_moved f f' : sound f → calm f f' → moved 0 0 [] f f'.
Proof.
  intros [Hg Ht] [E1 E2 E3]. split; rewrite ?E1, ?E2, ?E3; unfold count, blen; simpl; try done; try lia.
  split; by rewrite ?E1, ?E3.
Qed.
Lemma calm_drifts f f' : sound f → calm f f' → drifts f f'.
Proof. intros Hs Hc. exists []. split; [constructor|by apply calm_moved]. Qed.
Lemma tick_calm X f : wp read_tick (λ _ f', calm f f') X f.
Proof. unfold wp, read_tick. by destruct (fr_ticks f). Qed.
Lemma elapse_calm start X f : wp (elapsed start) (λ e f', calm f f' ∧ 0 ≤ e) X f.
Proof.
  unfold elapsed. apply wp_bind. wp_apply (tick_calm X f); [|done]. intros t f' Hc. apply wp_ret. split; [done|].
  unfold since, FAR. destruct start, t; lia.
Qed.
Lemma wall_calm X f : wp wall_clock (λ _ f', calm f f') X f.
Proof. unfold wp, wall_clock. by destruct (fr_wall f). Qed.

Lemma access_spec {A} n (g : shared → A * shared) (Q : A → front → Prop) X f :
  fit n f →
  (∀ f1, drifts f f1 → fit n f1 → Q (fst (g (fr_shared f1))) (set_shared (snd (g (fr_shared f1))) f1)) →
  wp (atomic g) Q X f.
Proof.
  intros Hf HQ. unfold atomic. apply wp_bind. wp_apply (interfere_spec n X f Hf); [|done].
  intros ? f1 Hd. specialize (HQ f1 Hd (drifts_fit _ _ _ Hf Hd)). unfold wp. by destruct (g (fr_shared f1)).
Qed.
Lemma set_shared_same f : set_shared (fr_shared f) f = f.
Proof. by destruct f. Qed.
Lemma load_atomic_spec {A} n (g : shared → A) X f :
  fit n f → wp (load_atomic g) (λ a f', drifts f f' ∧ a = g (fr_shared f')) X f.
Proof.
  intros Hf. apply (access_spec n); [done|]. intros f1 Hd _. simpl. by rewrite set_shared_same.
Qed.
Lemma lease_lock_spec n X f :
  fit n f → wp lock_lease (λ _ f', drifts f f' ∧ sh_pending (fr_shared f') = None) X f.
Proof.
  intros Hf. unfold lock_lease. apply wp_bind. wp_apply (interfere_spec n X f Hf); [|done].
  intros ? f1 Hd. apply wp_modify. split; [|apply finish_pending].
  eapply drifts_trans; [exact Hd|]. eexists. split; [|apply (moved_action OFinish); [|by right]].
  - apply event_of_quiet.
  - destruct Hd as (l & _ & M1). apply M1.
Qed.
End accesses.

Lemma now_calm f : wp now (λ _ f', calm f f') (λ _ f', calm f f') f.
Proof.
  unfold now. apply wp_bind. wp_apply (wall_calm (λ _ f', calm f f') f); [|done].
  intros t f' Hc. by wp_go.
Qed.

(** ** The contracts of the traits *)

Class LawfulSource (C : Type) `{!CredentialSource C} : Prop := {
  load_law (c : C) reference p tenant account n f : fit n f →
    wp (load c reference p tenant account)
      (λ cr f', drifts f f' ∧ sh_pending (fr_shared f') = None ∧ token_of (fr_trace f') = Some (cr_token cr))
      (λ _ f', drifts f f') f;
  validate_law (c : C) cr n f : fit n f →
    wp (validate c cr) (λ _ f', drifts f f' ∧ cr_epoch cr = sh_epoch (fr_shared f')) (λ _ f', drifts f f') f;
}.
Class LawfulTransport (T : Type) `{!Transport T} (aims : T → url → Prop) : Prop := {
  get_law (t : T) u cr cap deadline f : sound f →
    wp (get t u cr cap deadline)
      (λ _ f', aims t u ∧ moved 0 0 [Sent u (cr_token cr) cap deadline] f f')
      (λ _ f', moved 0 0 [] f f' ∨ aims t u ∧ moved 0 0 [Sent u (cr_token cr) cap deadline] f f') f;
}.
Class LawfulSink (A : Type) `{!AuditSink A} : Prop := {
  record_law (a : A) e n f : fit n f →
    wp (record a e) (λ _ f', ∃ l, quiet l ∧ moved 0 0 (l ++ [Recorded e]) f f') (λ _ _, False) f;
}.
End spec.

Section gateway.
Context `{UrlBuilder} `{SerdeJson} {T C A : Type} `{!Transport T} `{!CredentialSource C} `{!AuditSink A}.
Context {aims : T → url → Prop} `{!LawfulTransport T aims} `{!LawfulSource C} `{!LawfulSink A}.
Implicit Types (g : Gateway T C A) (f : front) (r : ReadRequest).

Lemma authorize_spec g r n f :
  fit n f →
  wp (authorize g r) (λ _ f', drifts f f' ∧ matches_grant (gw_grant g) r = true) (λ _ f', drifts f f') f.
Proof.
  intros Hf. unfold authorize. apply wp_bind. wp_apply (load_atomic_spec n _ (λ _ f', drifts f f') f Hf); [|done].
  intros x f1 [D1 _]. wp_check as Hg; [done|]. apply wp_bind.
  assert (sound f1) as S1 by (by apply (drifts_fit n f f1)).
  assert (∀ f2, calm f1 f2 → drifts f f2) as Hc.
  { intros f2 Hc. eapply drifts_trans; [exact D1|by apply calm_drifts]. }
  wp_apply (now_calm f1); [intros t f2 C2|intros e f2 C2]; [|by apply Hc].
  wp_check as He; [by apply Hc|]. apply wp_throw_if; intros E1; [by apply Hc|].
  split; [by apply Hc|]. by apply negb_false_iff.
Qed.

(** The one request that may leave: the granted one, to the granted place, with
    the token of the lease at some moment [l0b] of this read. *)
Record sent_event (g : Gateway T C A) (r : ReadRequest) (old l0 : list event) (e : event) : Prop := {
  se_granted : matches_grant (gw_grant g) r = true;
  se_event : ∃ u token deadline l0a l0b,
    e = Sent u token (gr_max_body_bytes (gw_grant g)) deadline
    ∧ route r = Ok u ∧ aims (gw_transport g) u ∧ 0 ≤ deadline ≤ gr_deadline (gw_grant g)
    ∧ l0 = l0a ++ l0b ∧ token_of (l0b ++ old) = Some token
    ∧ (count is_began l0a = 0 → token_of (l0a ++ l0b ++ old) = Some token);
}.
Definition sends g r (old l : list event) : Prop :=
  ∃ l1 l0 e, l = l1 ++ e :: l0 ∧ quiet l1 ∧ quiet l0 ∧ sent_event g r old l0 e.
Definition shown g r (old l : list event) : Prop := quiet l ∨ sends g r old l.
Definition bounded_content g (c : Content) : Prop :=
  match c with CFile b => blen b ≤ gr_max_body_bytes (gw_grant g) | CJson _ => True end.

(** Ready to send: [lb] are the events up to the load of the credential. *)
Record prepared g r (f f' : front) (x : url * Credential * Z) : Prop := {
  pp_route : route r = Ok x.1.1;
  pp_granted : matches_grant (gw_grant g) r = true;
  pp_deadline : 0 ≤ x.2 ≤ gr_deadline (gw_grant g);
  pp_token : ∃ la lb, quiet la ∧ quiet lb ∧ moved 0 0 (la ++ lb) f f'
    ∧ token_of (lb ++ fr_trace f) = Some (cr_token x.1.2)
    ∧ (count is_began la = 0 → token_of (la ++ lb ++ fr_trace f) = Some (cr_token x.1.2));
}.
Lemma prepare_spec g r started n f :
  fit n f → wp (prepare g r started) (λ x f', prepared g r f f' x) (λ _ f', drifts f f') f.
Proof.
  intros Hf. unfold prepare. wp_try as u Hu; [|by apply drifts_refl, Hf].
  apply wp_bind, wp_map_err. wp_apply (load_law (gw_credentials g) _ _ _ _ n f Hf); [|done].
  intros cr f1 (D1 & Hp1 & Ht1). assert (fit n f1) as F1 by (by eapply drifts_fit).
  apply wp_bind. wp_apply (authorize_spec g r n f1 F1); [|intros e f2 D2; by eapply drifts_trans].
  intros ? f2 [D2 Hgr]. assert (sound f2) as S2 by (eapply fi_sound, drifts_fit; [exact F1|exact D2]).
  apply wp_bind. wp_apply (elapse_calm started (λ _ _, False) f2); [|done].
  intros el f3 [C3 Hel]. assert (drifts f1 f3) as D3 by (eapply drifts_trans; [exact D2|by apply calm_drifts]).
  wp_check as Hd; [by eapply drifts_trans|]. reflect. apply wp_ret. split; simpl; [done|done|lia|].
  destruct D1 as (lb & Qb & Mb). destruct D3 as (la & Qa & Ma). exists la, lb.
  split_and!; [done|done|exact (moved_trans0 0 0 _ _ _ _ _ Mb Ma)|by rewrite <-(mv_trace _ _ _ _ _ Mb)|].
  intros Hc. rewrite <-(mv_trace _ _ _ _ _ Mb), <-(mv_trace _ _ _ _ _ Ma), <-Ht1.
  by apply (mv_idle _ _ _ _ _ Ma).
Qed.
Lemma check_response_spec g r started cr resp n f :
  fit n f →
  wp (check_response g r started cr resp) (λ c f', drifts f f' ∧ bounded_content g c) (λ _ f', drifts f f') f.
Proof.
  intros Hf. unfold check_response.
  apply wp_bind. wp_apply (authorize_spec g r n f Hf); [|done]. intros ? f1 [D1 _].
  apply wp_bind. wp_apply (validate_law (gw_credentials g) cr n f1); [by eapply drifts_fit| |
    intros e f2 D2; by eapply drifts_trans].
  intros ? f2 [D2 _]. assert (drifts f f2) as D by (by eapply drifts_trans).
  assert (sound f2) as S2 by (eapply fi_sound, drifts_fit; [exact Hf|exact D]).
  apply wp_bind. wp_apply (elapse_calm started (λ _ _, False) f2); [|done].
  intros el f3 [C3 _]. assert (drifts f f3) as D3 by (eapply drifts_trans; [exact D|by apply calm_drifts]).
  wp_check as Hd; [done|]. wp_check as Hr; [done|]. wp_check as Hs; [done|]. wp_check as Hl; [done|].
  apply wp_lift; [|done]. intros c Hc. split; [done|].
  unfold content_of in Hc. case_decide; [injection Hc as <-; reflect; done|]. inv_ok. by injection Hc as <-.
Qed.
Lemma read_slot_spec g r n f :
  fit n f →
  wp (read_slot g r)
    (λ c f', ∃ l, moved 0 0 l f f' ∧ sends g r (fr_trace f) l ∧ bounded_content g c)
    (λ _ f', ∃ l, moved 0 0 l f f' ∧ shown g r (fr_trace f) l) f.
Proof.
  intros Hf. unfold read_slot.
  apply wp_bind. wp_apply (tick_calm (λ _ _, False) f); [|done]. intros started f0 C0.
  assert (moved 0 0 [] f f0) as M0 by (by apply calm_moved; [apply Hf|]).
  assert (fit n f0) as F0 by (by eapply moved_fit0). destruct C0 as [_ _ ET].
  apply wp_bind. wp_apply (prepare_spec g r started n f0 F0).
  2:{ intros e f1 (l & Q & M1). exists (l ++ []). split; [exact (moved_trans0 0 0 _ _ _ _ _ M0 M1)|].
      left. by rewrite app_nil_r. }
  intros [[u cr] rem] f1 [Hu Hg Hd (la & lb & Qa & Qb & M1 & T1 & T2)]. simpl in *. rewrite ET in *.
  assert (moved 0 0 (la ++ lb) f f1) as M01.
  { pose proof (moved_trans0 0 0 _ _ _ _ _ M0 M1) as M01. by rewrite app_nil_r in M01. }
  set (ev := Sent u (cr_token cr) (gr_max_body_bytes (gw_grant g)) rem).
  assert (∀ l f', quiet l → aims (gw_transport g) u → moved 0 0 (l ++ ev :: la ++ lb) f f' →
    sends g r (fr_trace f) (l ++ ev :: la ++ lb)) as Hsends.
  { intros l f' Q Haim _. exists l, (la ++ lb), ev. split_and!; [done..|by apply quiet_app|]. split; [done|].
    by eexists u, (cr_token cr), rem, la, lb. }
  apply wp_bind. wp_apply (get_law (gw_transport g) u cr _ _ f1); [apply M01| |].
  - intros resp f2 [Haim M2]. pose proof (moved_trans0 0 0 _ _ _ _ _ M01 M2) as M02.
    wp_apply (check_response_spec g r started cr resp n f2 (moved_fit0 _ _ _ _ _ Hf M02)).
    + intros c f3 [(l & Q & M3) Hb]. exists (l ++ ev :: la ++ lb).
      pose proof (moved_trans0 0 0 _ _ _ _ _ M02 M3). split_and!; [done|by eapply Hsends|done].
    + intros e f3 (l & Q & M3). exists (l ++ ev :: la ++ lb).
      pose proof (moved_trans0 0 0 _ _ _ _ _ M02 M3). split; [done|]. right. by eapply Hsends.
  - intros e f2 [M2|[Haim M2]]; pose proof (moved_trans0 0 0 _ _ _ _ _ M01 M2) as M02.
    + exists (la ++ lb). split; [done|]. left. by apply quiet_app.
    + exists (ev :: la ++ lb). split; [done|]. right. by apply (Hsends [] f2); [constructor| |].
Qed.

(** ** The slot *)

Lemma moved_enter n f :
  fit n f → sh_active (fr_shared f) < sh_limit (fr_shared f) →
  moved 1 0 [] f (set_shared (set_active (sh_active (fr_shared f) + 1) (sh_others (fr_shared f)) (fr_shared f)) f).
Proof.
  intros [[[E1 E2 E3 E4 E5] Ht] _ _ _] Hlt. split; simpl; unfold count, blen; simpl; try done; try lia.
  split; [|done]. split; simpl; try done; lia.
Qed.
Lemma moved_leave n f :
  fit n f → sh_others (fr_shared f) < sh_active (fr_shared f) →
  moved (-1) 0 [] f (set_shared (set_active (wrap64 (sh_active (fr_shared f) - 1)) (sh_others (fr_shared f)) (fr_shared f)) f).
Proof.
  intros [[[E1 E2 E3 E4 E5] Ht] _ _ Hm] Hlt.
  assert (wrap64 (sh_active (fr_shared f) - 1) = sh_active (fr_shared f) - 1) as Ew by (apply wrap64_small; lia).
  rewrite Ew. split; simpl; unfold count, blen; simpl; try done; try lia.
  split; [|done]. split; simpl; try done; lia.
Qed.
Lemma leave_spec {E} n (X : E → front → Prop) f :
  fit n f → sh_others (fr_shared f) < sh_active (fr_shared f) →
  wp leave (λ _ f', ∃ q, quiet q ∧ moved (-1) 0 q f f') X f.
Proof.
  intros Hf Hown. apply (access_spec n); [done|]. intros f1 (q & Q & M1) F1. simpl.
  assert (sh_others (fr_shared f1) < sh_active (fr_shared f1)) by (pose proof (mv_own _ _ _ _ _ M1); lia).
  exists q. split; [done|]. exact (moved_trans0 _ _ _ _ _ _ _ M1 (moved_leave n f1 F1 ltac:(done))).
Qed.
Lemma slotted_spec {X} (m : M front Error X) n f (P : X → list event → Prop) (R : list event → Prop) :
  fit n f → sh_others (fr_shared f) < sh_active (fr_shared f) →
  wp m (λ a f', ∃ l, moved 0 0 l f f' ∧ P a l) (λ _ f', ∃ l, moved 0 0 l f f' ∧ R l) f →
  wp (slotted m) (λ a f', ∃ q l, quiet q ∧ moved (-1) 0 (q ++ l) f f' ∧ P a l)
    (λ _ f', ∃ q l, quiet q ∧ moved (-1) 0 (q ++ l) f f' ∧ R l) f.
Proof.
  intros Hf Hown Hm. unfold slotted. apply wp_bind, wp_attempt. eapply wp_mono; [exact Hm| |].
  all: intros x f1 (l & M1 & HP); apply wp_bind;
    (wp_apply (leave_spec n (λ _ _, False) f1 (moved_fit0 _ _ _ _ _ Hf M1)); [| |done]);
    [pose proof (mv_own _ _ _ _ _ M1); lia|].
  all: intros ? f2 (q & Q & M2); apply wp_lift; [intros y Hy|intros y Hy]; try discriminate.
  all: injection Hy as <-; exists q, l; (split_and!; [done| |done]);
    exact (moved_trans0 _ _ _ _ _ _ _ M1 M2).
Qed.

(** Other threads' changes before and after. *)
Lemma sends_more g r old q l p : quiet q → quiet p → sends g r (p ++ old) l → sends g r old (q ++ l ++ p).
Proof.
  intros Q P (l1 & l0 & e & -> & Q1 & Q0 & [Hg (u & tok & dl & la & lb & -> & Hu & Ha & Hd & -> & T1 & T2)]).
  exists (q ++ l1), ((la ++ lb) ++ p), (Sent u tok (gr_max_body_bytes (gw_grant g)) dl). split_and!;
    [rewrite <-!app_assoc; simpl; by rewrite <-!app_assoc|by apply quiet_app|by apply quiet_app|]. split; [done|].
  exists u, tok, dl, la, (lb ++ p). rewrite <-!app_assoc. done.
Qed.
Lemma shown_more g r old q l p : quiet q → quiet p → shown g r (p ++ old) l → shown g r old (q ++ l ++ p).
Proof. intros Q P [Hl|Hl]; [left; by repeat apply quiet_app|right; by apply sends_more]. Qed.

Lemma enter_spec limit n f :
  fit n f → sh_limit (fr_shared f) = limit →
  wp (enter limit) (λ _ f', ∃ l, quiet l ∧ moved 1 0 l f f') (λ _ f', drifts f f') f.
Proof.
  intros Hf Hlim. unfold enter. apply wp_bind. apply (access_spec n); [done|]. intros f1 D1 F1.
  pose proof D1 as (l & Q & M1). rewrite <-Hlim, <-(mv_limit _ _ _ _ _ M1).
  destruct (Z.ltb_spec (sh_active (fr_shared f1)) (sh_limit (fr_shared f1))) as [Hlt|Hge]; simpl.
  - apply wp_throw_if; [done|intros _]. exists l. split; [done|].
    exact (moved_trans0 _ _ _ _ _ _ _ M1 (moved_enter n f1 F1 Hlt)).
  - apply wp_throw_if; [intros _|done]. by rewrite set_shared_same.
Qed.
Lemma read_inner_spec g r n f :
  fit n f → sh_limit (fr_shared f) = gr_max_concurrency (gw_grant g) →
  wp (read_inner g r)
    (λ c f', ∃ l, moved 0 0 l f f' ∧ sends g r (fr_trace f) l ∧ bounded_content g c)
    (λ _ f', ∃ l, moved 0 0 l f f' ∧ shown g r (fr_trace f) l) f.
Proof.
  intros Hf Hlim. unfold read_inner.
  assert (∀ f', drifts f f' → ∃ l, moved 0 0 l f f' ∧ shown g r (fr_trace f) l) as Hquiet.
  { intros f' (l & Q & M1). exists l. split; [done|by left]. }
  apply wp_bind. wp_apply (authorize_spec g r n f Hf); [|intros e f1 D1; by apply Hquiet].
  intros ? f1 [D1 _]. apply wp_bind. pose proof D1 as (l1 & Q1 & M1).
  wp_apply (enter_spec (gr_max_concurrency (gw_grant g)) n f1); [by eapply drifts_fit| | |
    intros e f2 D2; apply Hquiet; by eapply drifts_trans].
  { by rewrite (mv_limit _ _ _ _ _ M1). }
  intros ? f2 (l2 & Q2 & M2). pose proof (moved_trans0 _ _ _ _ _ _ _ M1 M2) as M02. simpl in M02.
  assert (fit n f2) as F2 by exact (moved_fit0 _ _ _ _ _ Hf M02).
  assert (quiet (l2 ++ l1)) as Q by (by apply quiet_app).
  wp_apply (slotted_spec (read_slot g r) n f2 (λ c l, sends g r (fr_trace f2) l ∧ bounded_content g c)
    (λ l, shown g r (fr_trace f2) l) F2).
  - pose proof (mv_own _ _ _ _ _ M02). pose proof (go_own _ (so_good _ (fi_sound _ _ Hf))). lia.
  - apply (read_slot_spec g r n f2 F2).
  - intros c f3 (q & l & Qq & M3 & Hs & Hb). exists ((q ++ l) ++ l2 ++ l1). rewrite <-app_assoc.
    split_and!; [|apply sends_more; [done..|]; by rewrite <-(mv_trace _ _ _ _ _ M02)|done].
    rewrite app_assoc. exact (moved_trans0 _ _ _ _ _ _ _ M02 M3).
  - intros e f3 (q & l & Qq & M3 & Hs). exists ((q ++ l) ++ l2 ++ l1). rewrite <-app_assoc.
    split; [|apply shown_more; [done..|]; by rewrite <-(mv_trace _ _ _ _ _ M02)].
    rewrite app_assoc. exact (moved_trans0 _ _ _ _ _ _ _ M02 M3).
Qed.

(** A read: what was shown, one audit record of its outcome, and a lease that
    other threads may change at any time. *)
Lemma read_spec g r n f :
  fit n f → sh_limit (fr_shared f) = gr_max_concurrency (gw_grant g) →
  wp (read g r)
    (λ c f', ∃ q a l, moved 0 0 (q ++ Recorded a :: l) f f' ∧ quiet q ∧ sends g r (fr_trace f) l
       ∧ au_outcome a = Ok tt ∧ bounded_content g c)
    (λ e f', ∃ q a l, moved 0 0 (q ++ Recorded a :: l) f f' ∧ quiet q ∧ shown g r (fr_trace f) l
       ∧ au_outcome a = Err e) f.
Proof.
  intros Hf Hlim. unfold read. apply wp_bind. wp_apply (tick_calm (λ _ _, False) f); [|done]. intros started f0 C0.
  assert (moved 0 0 [] f f0) as M0 by (by apply calm_moved; [apply Hf|]).
  assert (fit n f0) as F0 by exact (moved_fit0 _ _ _ _ _ Hf M0). destruct C0 as [ES _ ET].
  assert (∀ l f1 res, moved 0 0 l f0 f1 →
    wp (e ← elapsed started;
        _ ← record (gw_audit g) (mkAudit (gr_generation (gw_grant g)) (rd_method r) (outcome_of res)
               (Z.min (as_millis e) 86400000)); lift (A := Content) res)
      (λ c f', ∃ q a, res = Ok c ∧ moved 0 0 (q ++ Recorded a :: l) f f' ∧ quiet q ∧ au_outcome a = Ok tt)
      (λ e f', ∃ q a, res = Err e ∧ moved 0 0 (q ++ Recorded a :: l) f f' ∧ quiet q ∧ au_outcome a = Err e) f1) as Hend.
  { intros l f1 res M1. pose proof (moved_trans0 _ _ _ _ _ _ _ M0 M1) as M01. rewrite app_nil_r in M01.
    apply wp_bind. wp_apply (elapse_calm started (λ _ _, False) f1); [|done]. intros el f2 [C2 _].
    pose proof (moved_trans0 _ _ _ _ _ _ _ M01 (calm_moved _ _ (mv_sound _ _ _ _ _ M01) C2)) as M02. simpl in M02.
    apply wp_bind. wp_apply (record_law (gw_audit g) _ n f2 (moved_fit0 _ _ _ _ _ Hf M02)); [|done].
    intros ? f3 (q & Q & M3). pose proof (moved_trans0 _ _ _ _ _ _ _ M02 M3) as M03. rewrite <-app_assoc in M03.
    apply wp_lift; intros x ->; by eexists q, _. }
  apply wp_bind, wp_attempt. wp_apply (read_inner_spec g r n f0 F0); [by rewrite ES| |].
  - intros c f1 (l & M1 & Hs & Hb). rewrite ET in Hs. wp_apply (Hend l f1 (Ok c) M1).
    + intros c' f2 (q & a & [= <-] & ? & ? & ?). by exists q, a, l.
    + by intros e f2 (q & a & [=] & _).
  - intros e f1 (l & M1 & Hs). rewrite ET in Hs. wp_apply (Hend l f1 (Err e) M1).
    + by intros c' f2 (q & a & [=] & _).
    + intros e' f2 (q & a & [= <-] & ? & ? & ?). by exists q, a, l.
Qed.
End gateway.
