(* ===== verification/Front.v ===== *)
(** * The front door of the integrations: [crates/tentaflake-integrations/src/front.rs]

    The runtime credentials, the journal with its activity feed
    ([front/activity.rs]), the server's construction, the dispatch of a request by
    the caller's identity, and the connection loop.  Derived decoders of whole
    documents are the class [FrontCodec]; parameters of a request are decoded here
    field by field. *)

From S2P Require Import Prelude RustStr Json Posix Net Activity PrivateStore ControlData Policy Advisory Proposals ProposalsRun Connector.

(** ** Configuration *)

Record AdvisoryConfig : Type := mkAdvisoryConfig {
  ac_observer_uid : Z; ac_policy : Advisory.Policy; ac_state_directory : string }.
Record ActivityConfig : Type := mkActivityConfig {
  av_socket : string; av_server_uid : Z; av_producer_id : string; av_run_id : string;
  av_workload_id : string; av_policy_revision : string }.
Record Config : Type := mkFrontConfig {
  fc_socket : string; fc_caller_uid : Z; fc_reviewer_uid : Z; fc_agent : string; fc_tenant : string;
  fc_account : string; fc_provider : Provider; fc_resources : list string; fc_methods : list ReadMethod;
  fc_generation : Z; fc_expires_unix : Z; fc_addresses : list IpAddr; fc_max_body_bytes : Z;
  fc_deadline_seconds : Z; fc_advisory : option AdvisoryConfig; fc_activity : option ActivityConfig }.
(** [config.activity.take()] and [config.advisory.take()]. *)
Definition take_options (c : Config) : Config :=
  mkFrontConfig (fc_socket c) (fc_caller_uid c) (fc_reviewer_uid c) (fc_agent c) (fc_tenant c)
    (fc_account c) (fc_provider c) (fc_resources c) (fc_methods c) (fc_generation c) (fc_expires_unix c)
    (fc_addresses c) (fc_max_body_bytes c) (fc_deadline_seconds c) None None.

Record Rpc : Type := mkRpc { rc_jsonrpc : string; rc_id : option value; rc_method : string; rc_params : value }.
Definition object : value := json_obj [].
Class FrontCodec : Type := {
  front_config_from_slice : bytes → option Config;
  rpc_reader : value → bytes → option Rpc;     (* the value of a missing [params] *)
}.
Definition rpc_from_slice `{FrontCodec} : bytes → option Rpc := rpc_reader object.

(** ** [RuntimeCredentials] *)

Record RuntimeCredentials : Type := mkRuntime {
  rt_provider : Provider; rt_tenant : string; rt_account : string; rt_generation : Z }.
Definition RuntimeCredentials_new (c : Config) : RuntimeCredentials :=
  mkRuntime (fc_provider c) (fc_tenant c) (fc_account c) (fc_generation c).

Section credentials.
Context `{UrlLib}.
(** The critical section, with the lock held. *)
Definition swap_lease (l : option (string * Z)) (f : front) : front :=
  apply_action (apply_action f (OBegin l)) OFinish.
Definition rotate (c : RuntimeCredentials) (token : string) (generation expires : Z) (consent : bool) :
    M front Error unit :=
  credential ← lift (Credential_new token);
  _ ← throw_if (negb consent || negb (generation =? rt_generation c)) Denied;
  t ← now;
  _ ← throw_if (expires <=? t) Denied;
  t ← now;
  _ ← throw_if (saturating_add t 86400 <? expires) Denied;
  _ ← lock_lease;
  e ← gets (sh_epoch ∘ fr_shared);
  _ ← modify (swap_lease (Some (cr_token credential, expires)));
  throw_if (e =? u64_max) Revoked.
Definition revoke : M front Error unit :=
  _ ← lock_lease;
  modify (swap_lease None).
Definition runtime_load (c : RuntimeCredentials) (reference : string) (p : Provider)
    (tenant account : string) : M front Error Credential :=
  _ ← throw_if (negb (reference =? "runtime")%string || negb (bool_decide (p = rt_provider c))
                || negb (tenant =? rt_tenant c)%string || negb (account =? rt_account c)%string) Denied;
  _ ← lock_lease;
  lease ← gets (sh_lease ∘ fr_shared);
  l ← lift (ok_or CredentialUnavailable lease);
  t ← now;
  _ ← throw_if (le_expires l <=? t) Expired;
  mret (mkCredential (le_token l) (le_epoch l)).
Definition runtime_validate (c : Credential) : M front Error unit :=
  _ ← lock_lease;
  lease ← gets (sh_lease ∘ fr_shared);
  l ← lift (ok_or Revoked lease);
  _ ← throw_if (negb (le_epoch l =? cr_epoch c)) Revoked;
  t ← now;
  throw_if (le_expires l <=? t) Expired.
#[export] Instance runtime_source : CredentialSource RuntimeCredentials :=
  { load := runtime_load; validate := λ _, runtime_validate }.
End credentials.

(** ** The activity feed: [front/activity.rs] *)

(** [ready] is the loop of the activity library, with the same outcomes. *)
Definition feed_ready (deadline : instant) : M conn string unit := Activity.ready deadline.
Definition late (deadline t : instant) : bool :=
  match deadline, t with Some d, Some t => d <=? t | _, _ => true end.
Definition feed_connect (path : string) (deadline : instant) : M env string conn :=
  _ ← throw_if (negb (starts_with "/" path) || contains_byte 0 path || (108 <=? str_len path))
        "activity path";
  c ← dial_next deadline;
  match instant_now (E := string) c with
  | (Ok t, c) => if late deadline t then fail "activity deadline" else mret c
  | (Err e, _) => fail e
  end.
Definition send_step (deadline : instant) (rest : bytes) : M conn string (bytes + unit) :=
  if (length rest =? 0)%nat then mret (inr tt)
  else
    _ ← feed_ready deadline;
    r ← net_write rest;
    match r with
    | Ok O => fail "activity closed"
    | Ok n => mret (inl (drop n rest))
    | Err OtherNet => fail "activity unavailable"
    | Err _ => mret (inl rest)
    end.
Definition feed_send (b : bytes) (deadline : instant) : M conn string unit := λ c,
  loop (S (S (length (c_clock c)))) "activity deadline"%string (send_step deadline) b c.
(** The bytes received so far, of the [n] wanted. *)
Definition receive_step (n : nat) (deadline : instant) (got : bytes) : M conn string (bytes + bytes) :=
  if (n <=? length got)%nat then mret (inr got)
  else
    _ ← feed_ready deadline;
    r ← net_read (n - length got);
    match r with
    | Ok [] => fail "activity closed"
    | Ok d => mret (inl (got ++ d))
    | Err OtherNet => fail "activity unavailable"
    | Err _ => mret (inl got)
    end.
Definition feed_receive (n : nat) (deadline : instant) : M conn string bytes := λ c,
  loop (S (S (length (c_clock c)))) "activity deadline"%string (receive_step n deadline) [] c.

Section feed.
Context `{SerdeJson}.
Definition feed_talk (uid : Z) (payload : bytes) (deadline : instant) : M conn string unit :=
  peer ← gets c_peer_uid;
  _ ← throw_if (is_none peer) "peer unavailable";
  _ ← throw_if (negb (is_some_and (Z.eqb uid) peer)) "activity peer denied";
  _ ← feed_send (be_bytes 4 (blen payload)) deadline;
  _ ← feed_send payload deadline;
  header ← feed_receive 4 deadline;
  let length := be_value header 0 in
  _ ← throw_if (65536 <? length) "activity bounds";
  answer ← feed_receive (Z.to_nat length) deadline;
  response ← lift (ok_or "activity unavailable" (from_slice answer));
  throw_if (negb (is_some_and (Z.eqb 1) (as_u64 (index "version" response)))
            || negb (opt_str_eq (as_str (index "status" response)) "ok")) "activity rejected".
Definition feed_publish (c : ActivityConfig) (message : value) (budget : Z) : M env string unit :=
  t ← env_now;
  let deadline := Some (t + budget) in
  let payload := to_vec message in
  _ ← throw_if (65536 <? blen payload) "activity bounds";
  k ← feed_connect (av_socket c) deadline;
  logged (av_socket c) (feed_talk (av_server_uid c) payload deadline) k.
End feed.

(** ** [Journal] *)

Record Journal : Type := mkJournal {
  jo_activity : option ActivityConfig; jo_tenant : string; jo_agent : string; jo_session : string }.
Definition is_denial (o : result Error unit) : bool :=
  match o with Err (Denied | Expired | Revoked | CredentialUnavailable) => true | _ => false end.
Definition journal_message (j : Journal) (c : ActivityConfig) (id : string) (timestamp : Z) (a : Audit) : value :=
  let denied := is_denial (au_outcome a) in
  json_obj [("version"%string, num 1); ("operation"%string, Str "publish_activity");
    ("event"%string, json_obj
      [("version"%string, num 1); ("producer_id"%string, Str (av_producer_id c));
       ("event_id"%string, Str id); ("operation_id"%string, Str id);
       ("tenant_id"%string, Str (jo_tenant j)); ("agent_id"%string, Str (jo_agent j));
       ("run_id"%string, Str (av_run_id c)); ("workload_id"%string, Str (av_workload_id c));
       ("generation"%string, num (au_generation a)); ("policy_revision"%string, Str (av_policy_revision c));
       ("operation"%string, Str "connector_read"); ("decision"%string, Str (if denied then "deny" else "allow"));
       ("outcome"%string, Str (if is_ok (au_outcome a) then "succeeded" else if denied then "denied" else "failed"));
       ("occurred_at_ms"%string, num timestamp); ("duration_ms"%string, num (au_duration_ms a));
       ("usage"%string, num 0)])].
Section journal.
Context `{UrlLib} `{SerdeJson}.
Definition journal_record (j : Journal) (a : Audit) : M front Error unit :=
  _ ← modify (add_trace [Recorded a]);
  match jo_activity j with
  | None => mret tt
  | Some c =>
      n ← atomic (λ s, (sh_sequence s, set_sequence (wrap64 (sh_sequence s + 1)) s));
      let id := (jo_session j ++ "-" ++ pretty (Z.to_N n))%string in
      t ← wall_clock;
      _ ← attempt (E := string) (zoom fr_env set_fenv
            (feed_publish c (journal_message j c id (default 0 t) a) NANOS));
      mret tt
  end.
#[export] Instance journal_sink : AuditSink Journal := { record := journal_record }.
End journal.

(** ** [Server] *)

(** The observer's identity, name and policy; the store is the server's state. *)
Record Observer : Type := mkObserver { ob_uid : Z; ob_name : string; ob_policy : Advisory.Policy }.
Record Server : Type := mkServer {
  sv_config : Config; sv_gateway : Gateway HttpsTransport RuntimeCredentials Journal;
  sv_credentials : RuntimeCredentials; sv_advisory : option Observer }.

Definition provider_name (p : Provider) : string :=
  match p with Drive => "drive" | Gmail => "gmail" | HubSpot => "hub_spot" end.
Definition method_name (m : ReadMethod) : string :=
  match m with
  | DriveMetadata => "drive_metadata" | DriveFile => "drive_file"
  | GmailMessage => "gmail_message" | HubSpotContact => "hub_spot_contact"
  end.
Definition config_grant (c : Config) : Grant :=
  mkGrant (fc_agent c) (fc_tenant c) (fc_account c) (fc_provider c) (fc_resources c) (fc_methods c)
    "runtime" (fc_generation c) (fc_expires_unix c) (fc_max_body_bytes c) 8
    (fc_deadline_seconds c * NANOS).
Definition review_context (c : Config) (a : AdvisoryConfig) : value :=
  let p := ac_policy a in
  json_obj
    [("tenant"%string, Str (fc_tenant c)); ("account"%string, Str (fc_account c));
     ("agent"%string, Str (fc_agent c)); ("provider"%string, Str (provider_name (fc_provider c)));
     ("resources"%string, Array (Str <$> fc_resources c));
     ("methods"%string, Array ((Str ∘ method_name) <$> fc_methods c));
     ("caller_uid"%string, num (fc_caller_uid c)); ("generation"%string, num (fc_generation c));
     ("reviewer_uid"%string, num (fc_reviewer_uid c)); ("observer_uid"%string, num (ac_observer_uid a));
     ("system"%string, Str (po_system p)); ("observer"%string, Str (po_observer p));
     ("admitted"%string, Bool (po_admitted p)); ("advisory_resources"%string, Array (Str <$> po_resources p));
     ("max_evidence"%string, num (po_max_evidence p));
     ("max_content_bytes"%string, num (po_max_content_bytes p))].

Section server.
Context `{ReviewCodec}.
Definition open_advisory (c : Config) (enable : bool) : M world string (option (Observer * Store)) :=
  match enable, fc_advisory c with
  | true, Some a =>
      _ ← throw_if ((ac_observer_uid a =? 0) || (ac_observer_uid a =? fc_caller_uid c)
                    || (ac_observer_uid a =? fc_reviewer_uid c)) "invalid observer identity";
      p ← lift (match Advisory_new (ac_policy a) with
                | Ok p => Ok p
                | Err _ => Err "invalid advisory policy"%string
                end);
      store ← open (ac_state_directory a) (review_context c a);
      mret (Some (mkObserver (ac_observer_uid a) (po_observer (ac_policy a)) p, store))
  | false, None => mret None
  | _, _ => fail "advisory requires explicit serve-advisory command and policy"
  end.
(** [random]: the 16 bytes of [/dev/urandom]; [built]: the HTTP client's builder
    succeeds.  The observer's store is returned beside the server. *)
Definition Server_new (built : bool) (random : option bytes) (c : Config) (enable : bool) :
    M world string (Server * option Store) :=
  _ ← throw_if ((fc_caller_uid c =? 0) || (fc_reviewer_uid c =? 0) || (fc_caller_uid c =? fc_reviewer_uid c)
                || negb (starts_with "/" (fc_socket c))) "invalid identity policy";
  let credentials := RuntimeCredentials_new c in
  transport ← lift (match HttpsTransport_new built (fc_provider c) (fc_addresses c) with
                    | Ok t => Ok t
                    | Err _ => Err "invalid transport policy"%string
                    end);
  r ← lift (ok_or "random unavailable"%string random);
  let journal := mkJournal (fc_activity c) (fc_tenant c) (fc_agent c) (hex r) in
  gateway ← lift (match Gateway_new (config_grant c) transport credentials journal with
                  | Ok g => Ok g
                  | Err _ => Err "invalid grant"%string
                  end);
  a ← open_advisory c enable;
  mret (mkServer (take_options c) gateway credentials (fst <$> a), snd <$> a).
End server.

Definition allowed (s : Server) (uid : Z) : bool :=
  (uid =? 0) || (uid =? fc_caller_uid (sv_config s)) || (uid =? fc_reviewer_uid (sv_config s))
  || is_some_and (λ a, ob_uid a =? uid) (sv_advisory s).

(** ** Parameters *)

Definition u64_of (v : value) : option Z := as_u64 v.
Definition bool_of (v : value) : option bool := match v with Bool b => Some b | _ => None end.
(** A unit variant: its name, or an object with its name and [null]. *)
Definition variant_of (v : value) : option string :=
  match v with
  | Str s => Some s
  | Object [(s, Null)] => Some s
  | _ => None
  end.
Definition method_of (v : value) : option ReadMethod :=
  s ← variant_of v;
  find_first (λ m, (method_name m =? s)%string) [DriveMetadata; DriveFile; GmailMessage; HubSpotContact].
Definition decision_of (v : value) : option Decision :=
  s ← variant_of v; find_first (λ d, (decision_name d =? s)%string) [Pending; Acknowledged; Dismissed].
Definition category_of (v : value) : option Category :=
  s ← variant_of v; find_first (λ c, (category_name c =? s)%string) [Security; Optimization].

Record Initialize : Type := mkInitialize { iz_protocol_version : string; iz_capabilities : value; iz_client_info : value }.
Definition decode_initialize (v : value) : option Initialize :=
  fields ← struct_fields ["protocolVersion"%string; "capabilities"%string; "clientInfo"%string] v;
  match fields with
  | [Str p; c; i] => Some (mkInitialize p c i)
  | _ => None
  end.
Record Rotation : Type := mkRotation {
  ro_token : string; ro_generation : Z; ro_expires_unix : Z; ro_read_only_consent : bool }.
Definition decode_rotation (v : value) : option Rotation :=
  fields ← struct_fields ["token"%string; "generation"%string; "expires_unix"%string; "read_only_consent"%string] v;
  match fields with
  | [Str t; g; e; c] =>
      g ← u64_of g; e ← u64_of e; c ← bool_of c; Some (mkRotation t g e c)
  | _ => None
  end.
Record Arguments : Type := mkArguments { ar_resource : string; ar_method : ReadMethod }.
Definition decode_arguments (v : value) : option Arguments :=
  fields ← struct_fields ["resource"%string; "method"%string] v;
  match fields with
  | [Str r; m] => m ← method_of m; Some (mkArguments r m)
  | _ => None
  end.
Record ToolCall : Type := mkToolCall { tc_name : string; tc_arguments : Arguments }.
Definition decode_tool_call (v : value) : option ToolCall :=
  fields ← struct_fields ["name"%string; "arguments"%string] v;
  match fields with
  | [Str n; a] => a ← decode_arguments a; Some (mkToolCall n a)
  | _ => None
  end.
Record Review : Type := mkReview { rw_id : string; rw_decision : Decision }.
Definition decode_review (v : value) : option Review :=
  fields ← struct_fields ["id"%string; "decision"%string] v;
  match fields with
  | [Str i; d] => d ← decision_of d; Some (mkReview i d)
  | _ => None
  end.
Definition decode_telemetry (v : value) : option Telemetry :=
  fields ← struct_fields ["resource"%string; "evidence_reference"%string; "summary"%string] v;
  match fields with
  | [Str r; Str e; Str s] => Some (mkTelemetry r e s)
  | _ => None
  end.
Definition decode_finding (v : value) : option Finding :=
  fields ← struct_fields ["title"%string; "explanation"%string; "evidence_references"%string; "category"%string] v;
  match fields with
  | [Str t; Str e; Array l; c] =>
      refs ← mapM as_str l; c ← category_of c; Some (mkFinding t e refs c)
  | _ => None
  end.
Record Submission : Type := mkSubmission { su_telemetry : list Telemetry; su_finding : Finding }.
Definition decode_submission (v : value) : option Submission :=
  fields ← struct_fields ["telemetry"%string; "finding"%string] v;
  match fields with
  | [Array l; f] => l ← mapM decode_telemetry l; f ← decode_finding f; Some (mkSubmission l f)
  | _ => None
  end.
Definition decode {A} (d : value → option A) (v : value) : result string A :=
  ok_or "invalid parameters"%string (d v).
Definition empty_params (v : value) : result string unit :=
  bail_if (negb (value_eqb v object)) "invalid parameters"%string.

(** ** A connection's thread *)

Section session.
Context `{UrlBuilder} `{SerdeJson} `{ReviewCodec} `{FrontCodec}.

(** The thread's view of the gateway and the lease, its stream, and the review
    store with what other threads ask of it before each lock. *)
Record session : Type := mkSession {
  ss_front : front; ss_conn : conn; ss_desk : option desk; ss_reviews : list (list command) }.
Definition set_front x (s : session) : session := mkSession x (ss_conn s) (ss_desk s) (ss_reviews s).
Definition set_conn x (s : session) : session := mkSession (ss_front s) x (ss_desk s) (ss_reviews s).
Definition set_desk x l (s : session) : session := mkSession (ss_front s) (ss_conn s) x l.
Definition on_front {E A} (m : M front E A) : M session E A := zoom ss_front set_front m.
Definition on_conn {E A} (m : M conn E A) : M session E A := zoom ss_conn set_conn m.
(** [map_err(|_| message)]. *)
Definition saying {S E A} (message : string) (m : M S E A) : M S string A := map_err (λ _, message) m.

(** [self.advisory..3.lock()]: the other threads' turns are over. *)
Definition with_store {A} (m : M desk string A) : M session string A := λ s,
  match ss_desk s with
  | None => (Err "advisory unavailable"%string, s)
  | Some d =>
      let d := snd (serve (hd [] (ss_reviews s)) d) in
      let '(r, d) := m d in (r, set_desk (Some d) (tail (ss_reviews s)) s)
  end.

(** ** [Server::dispatch] *)

Definition connection_info (c : Config) (available : bool) : value :=
  json_obj [("tenant"%string, Str (fc_tenant c)); ("agent"%string, Str (fc_agent c));
            ("provider"%string, Str (provider_name (fc_provider c)));
            ("generation"%string, num (fc_generation c)); ("expires_unix"%string, num (fc_expires_unix c));
            ("credential_available"%string, Bool available); ("read_only"%string, Bool true)].
Definition tool_list (c : Config) : value :=
  json_obj [("tools"%string, Array [json_obj
    [("name"%string, Str "connector_read");
     ("description"%string, Str "Read one explicitly granted resource; provider content is untrusted");
     ("inputSchema"%string, json_obj
        [("type"%string, Str "object"); ("additionalProperties"%string, Bool false);
         ("required"%string, Array [Str "resource"; Str "method"]);
         ("properties"%string, json_obj
            [("resource"%string, json_obj [("type"%string, Str "string"); ("maxLength"%string, num 256)]);
             ("method"%string, json_obj [("enum"%string, Array ((Str ∘ method_name) <$> fc_methods c))])])])]])].
Definition content_text (c : Content) : string :=
  match c with
  | CJson v => bytes_str (to_vec v)
  | CFile b => bytes_str (to_vec (json_obj [("encoding"%string, Str "hex"); ("data"%string, Str (hex b))]))
  end.
Definition tool_result (text : string) : value :=
  json_obj [("content"%string, Array [json_obj [("type"%string, Str "text"); ("text"%string, Str text)]]);
            ("isError"%string, Bool false)].
Definition tool_request (c : Config) (a : Arguments) : ReadRequest :=
  mkRead (fc_tenant c) (fc_account c) (ar_resource a) (ar_method a) (fc_generation c).

Definition list_connections (s : Server) (params : value) : M session string value :=
  let c := sv_config s in
  _ ← lift (empty_params params);
  r ← attempt (on_front (load (sv_credentials s) "runtime" (fc_provider c) (fc_tenant c) (fc_account c)));
  mret (connection_info c (is_ok r)).
Definition rotate_credentials (s : Server) (params : value) : M session string value :=
  p ← lift (decode decode_rotation params);
  _ ← saying "credential rejected" (on_front (rotate (sv_credentials s) (ro_token p) (ro_generation p)
        (ro_expires_unix p) (ro_read_only_consent p)));
  mret (json_obj [("rotated"%string, Bool true)]).
Definition revoke_credentials (params : value) : M session string value :=
  _ ← lift (empty_params params);
  _ ← saying "credential unavailable" (on_front revoke);
  mret (json_obj [("revoked"%string, Bool true)]).
Definition call_tool (s : Server) (params : value) : M session string value :=
  p ← lift (decode decode_tool_call params);
  _ ← throw_if (negb (tc_name p =? "connector_read")%string) "unknown tool";
  let request := tool_request (sv_config s) (tc_arguments p) in
  epoch ← on_front (load_atomic sh_epoch);
  content ← saying "connector read refused" (on_front (read (sv_gateway s) request));
  _ ← saying "credential revoked or expired"
        (on_front (validate (sv_credentials s) (mkCredential EmptyString epoch)));
  _ ← saying "connector grant revoked or expired" (on_front (authorize (sv_gateway s) request));
  mret (tool_result (content_text content)).
Definition submit_proposal (s : Server) (uid : Z) (params : value) : M session string value :=
  a ← lift (ok_or "advisory unavailable" (sv_advisory s));
  _ ← throw_if (negb (uid =? ob_uid a)) "denied";
  p ← lift (decode decode_submission params);
  proposal ← lift (match propose (ob_policy a) (ob_name a) (su_telemetry p) (Some (su_finding p)) with
                   | Ok x => Ok x
                   | Err _ => Err "proposal refused"%string
                   end);
  with_store (submit proposal).
Definition dispatch (s : Server) (uid : Z) (method : string) (params : value) : M session string value :=
  let reviewer := uid =? fc_reviewer_uid (sv_config s) in
  let caller := uid =? fc_caller_uid (sv_config s) in
  if (method =? "connections/list")%string && reviewer then list_connections s params
  else if (method =? "credentials/rotate")%string && (uid =? 0) then rotate_credentials s params
  else if (method =? "credentials/revoke")%string && (uid =? 0) then revoke_credentials params
  else if (method =? "tools/list")%string && caller then
    _ ← lift (empty_params params); mret (tool_list (sv_config s))
  else if (method =? "tools/call")%string && caller then call_tool s params
  else if (method =? "proposals/list")%string && reviewer then
    _ ← lift (empty_params params); with_store list_rows
  else if (method =? "proposals/review")%string && reviewer then
    p ← lift (decode decode_review params); with_store (review (rw_id p) (rw_decision p))
  else if (method =? "proposals/submit")%string then submit_proposal s uid params
  else fail "denied or unknown operation".

(** ** [frame] *)

Definition FRAME_LIMIT : Z := 65536.
Definition FIVE_SECONDS : Z := 5 * NANOS.
Definition frame_step (start : instant) (b : bytes) : M conn string (bytes + bytes) :=
  t ← instant_now;
  _ ← throw_if ((FRAME_LIMIT <=? blen b) || (FIVE_SECONDS <=? since start t)) "frame bounds";
  r ← net_read 1;
  match r with
  | Ok [x] => if x =? 10 then mret (inr b) else mret (inl (b ++ [x]))
  | Ok _ => fail "closed"
  | Err OtherNet => fail "read failed"
  | Err _ => mret (inl b)
  end.
Definition frame : M conn string bytes :=
  start ← instant_now;
  (λ c, loop (S (S (length (c_clock c)))) "frame bounds"%string (frame_step start) [] c) : M conn string bytes.

(** ** [Server::connection] *)

(** Before a write to the caller the other threads have run. *)
Definition write_out (rest : bytes) : M session string (result net_error nat) :=
  _ ← on_front interfere;
  r ← on_conn (net_write rest);
  _ ← (match r with Ok n => on_front (modify (add_trace [Wrote (take n rest)])) | Err _ => mret tt end);
  mret r.
Definition write_round (s : Server) (provider_output : bool) (lease_epoch : Z) (start : instant)
    (rest : bytes) : M session string (bytes + unit) :=
  if (length rest =? 0)%nat then mret (inr tt)
  else
    t ← on_conn instant_now;
    _ ← throw_if (FIVE_SECONDS <=? since start t) "output deadline";
    _ ← (if provider_output : bool then
           _ ← saying "credential revoked or expired"
                 (on_front (validate (sv_credentials s) (mkCredential EmptyString lease_epoch)));
           t ← saying "clock unavailable" (on_front now);
           throw_if (fc_expires_unix (sv_config s) <=? t) "grant expired"
         else mret tt);
    r ← write_out rest;
    match r with
    | Ok O => fail "output closed"
    | Ok n => mret (inl (drop n rest))
    | Err OtherNet => fail "output unavailable"
    | Err _ => mret (inl rest)
    end.
Definition write_reply (s : Server) (provider_output : bool) (lease_epoch : Z) (output : bytes) :
    M session string unit :=
  start ← on_conn instant_now;
  (λ ss, loop (S (S (length (c_clock (ss_conn ss))))) "output deadline"%string
           (write_round s provider_output lease_epoch start) output ss) : M session string unit.

Definition reply_value (id : value) (r : result string value) : value :=
  match r with
  | Ok v => json_obj [("jsonrpc"%string, Str "2.0"); ("id"%string, id); ("result"%string, v)]
  | Err m => json_obj [("jsonrpc"%string, Str "2.0"); ("id"%string, id);
               ("error"%string, json_obj [("code"%string, Number (NegInt (-32600))); ("message"%string, Str m)])]
  end.
Definition OUTPUT_LIMIT : Z := 32 * 1024 * 1024.
Definition valid_id (id : value) : bool :=
  is_some (as_u64 id) || is_some_and (λ s, negb (str_is_empty s) && (str_len s <=? 128)) (as_str id).
Definition PROTOCOL : string := "2024-11-05".
Definition server_info (version : string) : value :=
  json_obj [("protocolVersion"%string, Str PROTOCOL);
            ("capabilities"%string, json_obj [("tools"%string, json_obj [("listChanged"%string, Bool false)])]);
            ("serverInfo"%string, json_obj [("name"%string, Str "tentaflake-integrations");
                                            ("version"%string, Str version)])].
Definition initialize (version : string) (params : value) : result string value :=
  p ← decode decode_initialize params;
  _ ← bail_if (negb (iz_protocol_version p =? PROTOCOL)%string || negb (is_object (iz_capabilities p))
               || negb (is_object (iz_client_info p))) "unsupported initialization"%string;
  Ok (server_info version).

(** The result of a request and the next phase. *)
Definition answer_request (version : string) (s : Server) (uid phase : Z) (r : Rpc) :
    M session string (result string value * Z) :=
  if (rc_method r =? "initialize")%string && (phase =? 0) then
    v ← lift (initialize version (rc_params r)); mret (Ok v, 1)
  else if phase =? 2 then
    res ← attempt (dispatch s uid (rc_method r) (rc_params r)); mret (res, phase)
  else mret (Err "not initialized"%string, phase).
Definition deliver (s : Server) (method : string) (id : value) (res : result string value)
    (lease_epoch : Z) : M session string unit :=
  let provider_output := (method =? "tools/call")%string && is_ok res in
  let output := to_vec (reply_value id res) in
  _ ← throw_if (OUTPUT_LIMIT <? blen output) "output bounds";
  write_reply s provider_output lease_epoch (output ++ [10]).
(** A request after the epoch was read. *)
Definition respond (version : string) (s : Server) (uid phase : Z) (id : value) (r : Rpc)
    (lease_epoch : Z) : M session string Z :=
  res_phase ← answer_request version s uid phase r;
  _ ← deliver s (rc_method r) id (fst res_phase) lease_epoch;
  mret (snd res_phase).
(** One round: the phase and the identifiers seen so far. *)
Definition round (version : string) (s : Server) (uid : Z) (phase : Z) (ids : list bytes) :
    M session string (Z * list bytes) :=
  b ← on_conn frame;
  r ← lift (ok_or "malformed request"%string (rpc_from_slice b));
  _ ← throw_if (negb (rc_jsonrpc r =? "2.0")%string) "invalid protocol";
  if (rc_method r =? "notifications/initialized")%string && is_none (rc_id r) && (phase =? 1) then
    _ ← lift (empty_params (rc_params r));
    mret (2, ids)
  else
    id ← lift (ok_or "missing id"%string (rc_id r));
    _ ← throw_if (negb (valid_id id) || existsb (λ x, bool_decide (x = to_vec id)) ids)
          "invalid or duplicate id";
    epoch ← on_front (load_atomic sh_epoch);
    phase ← respond version s uid phase id r epoch;
    mret (phase, to_vec id :: ids).
Fixpoint rounds (n : nat) (version : string) (s : Server) (uid phase : Z) (ids : list bytes) :
    M session string unit :=
  match n with
  | O => mret tt
  | S n => pi ← round version s uid phase ids; rounds n version s uid (fst pi) (snd pi)
  end.
(** [timeouts]: the two socket options could be set. *)
Definition connection (version : string) (timeouts : bool) (s : Server) (uid : Z) : M session string unit :=
  _ ← throw_if (negb timeouts) "socket unavailable";
  rounds 64 version s uid 0 [].
End session.

(** ** [Server::serve] *)

(** The accept loop: a new connection with its peer, or the end of one. *)
Inductive arrival : Type := Arrives (uid : option Z) | Ends.
Definition limit_for (uid : Z) : Z := if uid =? 0 then 18 else 16.
Definition place_for (s : Server) (active : Z) (uid : option Z) : option Z :=
  uid ← uid; if allowed s uid && (active <? limit_for uid) then Some uid else None.
(** The number of connections, and whose connections were started. *)
Definition accept_step (s : Server) (st : Z * list Z) (a : arrival) : Z * list Z :=
  match a with
  | Ends => (if 0 <? fst st then fst st - 1 else fst st, snd st)
  | Arrives uid =>
      match place_for s (fst st) uid with
      | Some uid => (fst st + 1, uid :: snd st)
      | None => st
      end
  end.
Definition accept_loop (s : Server) (l : list arrival) : Z * list Z := foldl (accept_step s) (0, []) l.

(** ** [load_config] *)

Definition dir_name (parts : list string) : string :=
  match parts with [] => "/" | _ => canonical parts end.
(** [path.ancestors().skip(1)] of an absolute path. *)
Definition ancestors (path : string) : list string :=
  let parts := components path in
  (λ n, dir_name (take n parts)) <$> rev (seq 0 (length parts)).
Definition under_store (path : string) : bool :=
  match components path with
  | a :: b :: _ => (a =? "nix")%string && (b =? "store")%string
  | _ => false
  end.
Fixpoint check_parents (l : list string) : M world string unit :=
  match l with
  | [] => mret tt
  | dir :: l =>
      m ← map_err (λ _, "configuration unavailable"%string) (sys_symlink_metadata dir);
      _ ← throw_if (negb (bool_decide (i_kind m.2 = Directory)) || negb (i_uid m.2 =? 0)
                    || negb (mode_and (i_mode m.2) 18 (* 0o022 *) =? 0)) "unsafe configuration parent";
      check_parents l
  end.
Definition load_config `{FrontCodec} (path : string) : M world string Config :=
  _ ← throw_if (negb (starts_with "/" path) || under_store path) "configuration must be runtime-only";
  _ ← check_parents (ancestors path);
  f ← map_err (λ _, "configuration unavailable"%string) (sys_open_read path);
  m ← map_err (λ _, "configuration unavailable"%string) (sys_fstat f);
  _ ← throw_if (negb (bool_decide (i_kind m = Regular)) || negb (i_uid m =? 0)
                || negb (mode_and (i_mode m) 18 =? 0)) "unsafe configuration";
  b ← map_err (λ _, "configuration unavailable"%string) (sys_read_take 65537 f);
  _ ← throw_if (65536 <? blen b) "configuration bounds";
  lift (ok_or "invalid configuration"%string (front_config_from_slice b)).

(** ** [main], up to [serve] *)

Definition USAGE : string := "usage: tentaflake-integrations serve|serve-advisory /absolute/runtime-config.json".
Definition front_main `{ReviewCodec} `{FrontCodec} (built : bool) (random : option bytes) (args : list string) :
    M world string (Server * option Store) :=
  match args with
  | [_; command; path] =>
      if (command =? "serve")%string || (command =? "serve-advisory")%string then
        c ← load_config path; Server_new built random c (command =? "serve-advisory")%string
      else fail USAGE
  | _ => fail USAGE
  end.
