(* ===== verification/FrontSpec.v ===== *)
(** * The parts of the front keep their contracts

    The runtime credentials, the HTTPS transport and the journal satisfy the
    contracts of [ConnectorSpec]; the handlers of [Server::dispatch] and the
    delivery of a reply, in terms of the events they show. *)

From S2P Require Import Prelude RustStr Json Posix Net Activity Policy ControlData Advisory Proposals ProposalsRun Connector ConnectorSpec Front.

Section parts.
Context `{UrlLib}.

(** An event of our own that is no change of the lease. *)
Lemma moved_event e f :
  sound f → is_change e = false → moved 0 0 [e] f (add_trace [e] f).
Proof.
  intros [Hg Ht] He. split; simpl; unfold count, blen; simpl; try done; try lia.
  - destruct e; simpl in *; (done || lia).
  - intros Hp _. by destruct e.
  - split; [done|]. simpl. rewrite Ht. by destruct e.
Qed.
Lemma calm_fit n f f' : fit n f → calm f f' → fit n f'.
Proof. intros Hf Hc. eapply moved_fit0; [exact Hf|apply calm_moved; [apply Hf|done]]. Qed.

(** ** [HttpsTransport] *)

Lemma https_law (t : HttpsTransport) u cr cap deadline f :
  sound f →
  wp (https_get t u cr cap deadline)
    (λ _ f', allowed_url (ht_provider t) u = true ∧ moved 0 0 [Sent u (cr_token cr) cap deadline] f f')
    (λ _ f', moved 0 0 [] f f'
       ∨ allowed_url (ht_provider t) u = true ∧ moved 0 0 [Sent u (cr_token cr) cap deadline] f f') f.
Proof.
  intros Hs. unfold https_get. wp_check as Hu; [left; by apply moved_refl|]. apply negb_false_iff in Hu.
  assert (∀ l, moved 0 0 [Sent u (cr_token cr) cap deadline] f
    (set_sends l (add_trace [Sent u (cr_token cr) cap deadline] f))) as HM.
  { intros l. assert (sound (add_trace [Sent u (cr_token cr) cap deadline] f)) as Hs' by by apply (moved_event (Sent u (cr_token cr) cap deadline) f).
    exact (moved_trans0 0 0 _ _ _ _ _ (moved_event (Sent u (cr_token cr) cap deadline) f Hs eq_refl)
      (calm_moved _ (set_sends l (add_trace _ f)) Hs' ltac:(done))). }
  apply wp_bind. unfold send_request, wp at 1. simpl.
  destruct (fr_sends f) as [|[r|] l]; [right; split; [done|by apply moved_event]| |by right].
  wp_check as H1; [by right|]. wp_check as H2; [by right|]. wp_check as H3; [by right|].
  wp_try as b Hb; [|by right]. wp_check as H4; [by right|]. apply wp_ret. done.
Qed.
(** A request over this transport goes to the provider's origin. *)
Definition https_aims (t : HttpsTransport) (u : url) : Prop := allowed_url (ht_provider t) u = true.
#[export] Instance https_lawful : LawfulTransport HttpsTransport https_aims.
Proof. split. apply https_law. Qed.

(** ** [RuntimeCredentials] *)

(** With the lock held, the lease in the slot is the current one. *)
Lemma held_lease f le :
  sound f → sh_pending (fr_shared f) = None → sh_lease (fr_shared f) = Some le →
  le_epoch le = sh_epoch (fr_shared f) ∧ token_of (fr_trace f) = Some (le_token le).
Proof.
  intros [Hg Ht] Hp Hl. pose proof (go_lease _ Hg le Hl) as E1. rewrite Hp in E1.
  rewrite Hl in Ht. split; [done|by rewrite <-Ht].
Qed.
Lemma runtime_load_law (c : RuntimeCredentials) reference p tenant account n f :
  fit n f →
  wp (runtime_load c reference p tenant account)
    (λ cr f', drifts f f' ∧ sh_pending (fr_shared f') = None ∧ token_of (fr_trace f') = Some (cr_token cr))
    (λ _ f', drifts f f') f.
Proof.
  intros Hf. unfold runtime_load. wp_check as Hc; [by apply drifts_refl, Hf|].
  apply wp_bind. wp_apply (lease_lock_spec n (λ _ f', drifts f f') f Hf); [|done].
  intros ? f1 [D1 Hp1]. assert (sound f1) as S1 by (eapply fi_sound, drifts_fit; [exact Hf|exact D1]).
  apply wp_bind, wp_gets. wp_try as le Hle; [|done]. apply ok_or_Ok in Hle. simpl in Hle.
  destruct (held_lease f1 le S1 Hp1 Hle) as [_ Ht].
  assert (∀ f2, calm f1 f2 → drifts f f2) as Hdr by
    (intros f2 C2; eapply drifts_trans; [exact D1|by apply calm_drifts]).
  apply wp_bind. wp_apply (now_calm f1); [|intros e f2 C2; by apply Hdr].
  intros t f2 C2. wp_check as He; [by apply Hdr|]. apply wp_ret.
  pose proof (Hdr f2 C2). destruct C2 as [-> _ ->]. done.
Qed.
Lemma runtime_validate_law cr n f :
  fit n f →
  wp (runtime_validate cr)
    (λ _ f', drifts f f' ∧ cr_epoch cr = sh_epoch (fr_shared f')) (λ _ f', drifts f f') f.
Proof.
  intros Hf. unfold runtime_validate.
  apply wp_bind. wp_apply (lease_lock_spec n (λ _ f', drifts f f') f Hf); [|done].
  intros ? f1 [D1 Hp1]. assert (sound f1) as S1 by (eapply fi_sound, drifts_fit; [exact Hf|exact D1]).
  apply wp_bind, wp_gets. wp_try as le Hle; [|done]. apply ok_or_Ok in Hle. simpl in Hle.
  destruct (held_lease f1 le S1 Hp1 Hle) as [He _]. wp_check as Hc; [done|]. reflect.
  assert (∀ f2, calm f1 f2 → drifts f f2) as Hdr by
    (intros f2 C2; eapply drifts_trans; [exact D1|by apply calm_drifts]).
  apply wp_bind. wp_apply (now_calm f1); [|intros e f2 C2; by apply Hdr].
  intros t f2 C2. apply wp_throw_if; intros _; [by apply Hdr|]. split; [by apply Hdr|].
  destruct C2 as [-> _ _]. congruence.
Qed.
#[export] Instance runtime_lawful : LawfulSource RuntimeCredentials.
Proof. split; [apply runtime_load_law|intros c; apply runtime_validate_law]. Qed.

(** Our own change of the lease: one that nobody else scheduled. *)
Lemma swap_moved c n f :
  0 ≤ n → fit (n + 1) f → sh_pending (fr_shared f) = None →
  ∃ l, quiet l ∧ moved 0 1 l f (swap_lease c f).
Proof.
  intros Hn0 [Hs Hn Hr Hl] Hp. unfold swap_lease.
  assert (0 ≤ scheduled (fr_schedule f)) by (unfold scheduled, blen; lia).
  assert (sh_epoch (fr_shared f) < u64_max) as Hlt by lia.
  pose proof (moved_action (OBegin c) f Hs (or_introl Hlt)) as M1.
  assert (∀ c', OFinish ≠ OBegin c') as Hne by done.
  pose proof (moved_action OFinish _ (mv_sound _ _ _ _ _ M1) (or_intror Hne)) as M2.
  eexists. split; [|exact (moved_trans 0 0 1 0 _ _ _ _ _ M1 M2)].
  apply quiet_app; apply event_of_quiet.
Qed.

(** At most [m] changes of our own, and quiet ones of the others. *)
Definition owns (m : Z) f f' : Prop := ∃ l, quiet l ∧ moved 0 m l f f'.
Lemma drifts_owns f f' : drifts f f' → owns 1 f f'.
Proof. intros (l & Q & []). exists l. split; [done|]. split; try done. lia. Qed.
Lemma owns_trans m f f1 f2 : drifts f f1 → owns m f1 f2 → owns m f f2.
Proof.
  intros (l & Q & M1) (l' & Q' & M2). exists (l' ++ l). split; [by apply quiet_app|].
  exact (moved_trans 0 0 0 m _ _ _ _ _ M1 M2).
Qed.
Lemma swap_spec c n f :
  0 ≤ n → fit (n + 1) f → wp (_ ← lock_lease; modify (swap_lease c)) (λ _ f', owns 1 f f') (λ (_ : Error) _, False) f.
Proof.
  intros Hn Hf. apply wp_bind. wp_apply (lease_lock_spec (n + 1) (λ _ _, False) f Hf); [|done].
  intros ? f1 [D1 Hp]. apply wp_modify. eapply owns_trans; [exact D1|].
  eapply swap_moved; [exact Hn|by eapply drifts_fit|done].
Qed.
Lemma revoke_spec n f : 0 ≤ n → fit (n + 1) f → wp revoke (λ _ f', owns 1 f f') (λ _ f', owns 1 f f') f.
Proof. intros Hn Hf. unfold revoke. wp_apply (swap_spec None n f Hn Hf); [done|]. intros ? ? []. Qed.
Lemma rotation_spec c token g ex consent n f :
  0 ≤ n → fit (n + 1) f →
  wp (rotate c token g ex consent) (λ _ f', owns 1 f f') (λ _ f', owns 1 f f') f.
Proof.
  intros Hn Hf. unfold rotate. assert (∀ f', drifts f f' → owns 1 f f') as Hd by apply drifts_owns.
  assert (drifts f f) as D0 by (apply drifts_refl; apply Hf).
  wp_try as cr Hcr; [|by apply Hd]. wp_check as H1; [by apply Hd|].
  apply wp_bind. wp_apply (now_calm f); [intros t f1 C1|intros e f1 C1; apply Hd, calm_drifts; [apply Hf|done]].
  assert (drifts f f1) as D1 by (apply calm_drifts; [apply Hf|done]).
  wp_check as H2; [by apply Hd|]. assert (fit (n + 1) f1) as F1 by (by eapply drifts_fit).
  apply wp_bind. wp_apply (now_calm f1); [intros t' f2 C2|intros e f2 C2; apply Hd; eapply drifts_trans;
    [exact D1|apply calm_drifts; [apply F1|done]]].
  assert (drifts f f2) as D2 by (eapply drifts_trans; [exact D1|apply calm_drifts; [apply F1|done]]).
  wp_check as H3; [by apply Hd|]. pose proof (drifts_fit _ _ _ Hf D2) as F2.
  apply wp_bind. wp_apply (lease_lock_spec (n + 1) (λ _ _, False) f2 F2); [|by intros ? ? []].
  intros ? f3 [D3 Hp]. apply wp_bind, wp_gets, wp_bind, wp_modify.
  assert (owns 1 f (swap_lease (Some (cr_token cr, ex)) f3)) as Ho.
  { pose proof (drifts_trans _ _ _ D2 D3) as D4. eapply owns_trans; [exact D4|].
    eapply swap_moved; [exact Hn|exact (drifts_fit _ _ _ Hf D4)|done]. }
  apply wp_throw_if; by intros _.
Qed.

(** ** [Journal] *)

Lemma journal_record_spec `{SerdeJson} j a n f :
  fit n f →
  wp (journal_record j a) (λ _ f', ∃ l, quiet l ∧ moved 0 0 (l ++ [Recorded a]) f f') (λ _ _, False) f.
Proof.
  intros Hf. unfold journal_record. apply wp_bind, wp_modify.
  pose proof (moved_event (Recorded a) f (fi_sound _ _ Hf) eq_refl) as M1.
  destruct (jo_activity j) as [c|]; [|apply wp_ret; exists []; split; [constructor|done]].
  apply wp_bind, (access_spec n); [by eapply moved_fit0|]. intros f2 (l & Q & M2) F2. simpl.
  assert (∀ f3, calm (set_shared (set_sequence (wrap64 (sh_sequence (fr_shared f2) + 1)) (fr_shared f2)) f2) f3 →
    ∃ l, quiet l ∧ moved 0 0 (l ++ [Recorded a]) f f3) as Hdone.
  { intros f3 C3. exists l. split; [done|].
    pose proof (moved_trans0 0 0 _ _ _ _ _ M1 M2) as M12.
    set (f2' := set_shared _ f2) in *.
    assert (moved 0 0 [] f2 f2') as MS.
    { destruct F2 as [[[] ?] _ _ _]. split; simpl; unfold count, blen; simpl; try done; try lia. }
    pose proof (moved_trans0 0 0 _ _ _ _ _ M12 MS) as M3.
    exact (moved_trans0 0 0 _ _ _ _ _ M3 (calm_moved _ _ (mv_sound _ _ _ _ _ M3) C3)). }
  apply wp_bind. wp_apply (wall_calm (λ _ _, False)); [|done]. intros t f3 C3.
  apply wp_bind, wp_attempt, wp_zoom. unfold wp.
  destruct (feed_publish _ _ _ _) as [[?|?] env']; simpl; apply Hdone; by destruct C3.
Qed.
#[export] Instance journal_lawful `{SerdeJson} : LawfulSink Journal.
Proof. split. apply journal_record_spec. Qed.
End parts.

(** ** Delivery *)

Section delivery.
Context `{UrlBuilder} `{SerdeJson} `{ReviewCodec} `{FrontCodec}.
Implicit Types (l : list event) (s : Server).

(** The bytes written, in order, and the writes after a change of the lease began. *)
Fixpoint written l : bytes :=
  match l with
  | [] => []
  | Wrote b :: l => written l ++ b
  | _ :: l => written l
  end.
Fixpoint late_writes l : Z :=
  match l with
  | [] => 0
  | e :: l => late_writes l + (if is_wrote e && (0 <? count is_began l) then 1 else 0)
  end.
Definition delivering l : Prop := Forall (λ e, is_change e || is_wrote e = true) l.
Lemma quiet_delivering l : quiet l → delivering l.
Proof. intros Q. eapply Forall_impl; [exact Q|]. by intros e ->. Qed.
Lemma quiet_written q l : quiet q → written (q ++ l) = written l.
Proof. by induction 1 as [|[] q He Hq IH]. Qed.
Lemma quiet_late q l : quiet q → late_writes (q ++ l) = late_writes l.
Proof. induction 1 as [|[] q He Hq IH]; simpl in *; try done; rewrite IH; lia. Qed.
Lemma silent_late l : count is_wrote l = 0 → late_writes l = 0.
Proof.
  induction l as [|e l IH]; [done|]. rewrite count_cons. pose proof (count_nonneg is_wrote l).
  simpl. destruct (is_wrote e); simpl; intros; [lia|]. rewrite IH; lia.
Qed.
Lemma late_nonneg l : 0 ≤ late_writes l.
Proof. induction l as [|e l IH]; simpl; [lia|]. destruct (_ && _); lia. Qed.
(** What [late_writes] counts. *)
Lemma late_writes_bound a b : count is_wrote a ≤ late_writes (a ++ Began :: b).
Proof.
  induction a as [|e a IH]; simpl.
  - pose proof (late_nonneg b). unfold count, blen. simpl. lia.
  - rewrite count_cons. assert (0 < count is_began (a ++ Began :: b)) as Hb.
    { rewrite count_app, count_cons. simpl. pose proof (count_nonneg is_began a). pose proof (count_nonneg is_began b). lia. }
    apply Z.ltb_lt in Hb. rewrite Hb. destruct (is_wrote e); simpl; lia.
Qed.

Lemma write_out_spec n rest ss :
  fit n (ss_front ss) →
  wp (write_out rest)
    (λ r ss', c_clock (ss_conn ss') = c_clock (ss_conn ss) ∧ ss_desk ss' = ss_desk ss ∧ ss_reviews ss' = ss_reviews ss
       ∧ ∃ q, quiet q ∧ match r with
           | Ok k => moved 0 0 (Wrote (take k rest) :: q) (ss_front ss) (ss_front ss')
           | Err _ => moved 0 0 q (ss_front ss) (ss_front ss')
           end) (λ _ _, False) ss.
Proof.
  intros Hf. unfold write_out. apply wp_bind, wp_zoom. wp_apply (interfere_spec n (λ _ _, False) (ss_front ss) Hf); [|done].
  intros ? f1 (q & Q & M1). apply wp_bind, wp_zoom. simpl.
  wp_apply (wp_net_write rest (λ _ _, False) (ss_conn ss)); [|done].
  intros r c1 (_ & Hc & _ & _). apply wp_bind. destruct r as [k|e].
  - apply wp_zoom, wp_modify, wp_ret. simpl. split_and!; try done. exists q. split; [done|].
    exact (moved_trans0 0 0 _ _ _ _ _ M1 (moved_event (Wrote (take k rest)) f1 (mv_sound _ _ _ _ _ M1) eq_refl)).
  - apply wp_ret, wp_ret. simpl. split_and!; try done. by exists q.
Qed.

(** The state of a delivery: [ld] happened between the reading of the epoch and
    its start at [f1], [lw] since. *)
Record delivery (provider : bool) (out : bytes) (ld : list event) (f1 : front) (ss1 : session)
    (rest : bytes) (ss : session) (lw : list event) : Prop := {
  de_moved : moved 0 0 lw f1 (ss_front ss);
  de_events : delivering lw;
  de_bytes : written lw ++ rest = out;
  de_desk : ss_desk ss = ss_desk ss1 ∧ ss_reviews ss = ss_reviews ss1;
  de_late : provider = true → late_writes (lw ++ ld) ≤ 1;
  de_stop : provider = true → 0 < late_writes (lw ++ ld) → 0 < count is_began (lw ++ ld);
  de_fresh : provider = true → 0 < count is_wrote lw → count is_began ld = 0;
}.
Lemma delivery_quiet provider out ld f1 ss1 rest ss ss' lw q :
  delivery provider out ld f1 ss1 rest ss lw → quiet q → moved 0 0 q (ss_front ss) (ss_front ss') →
  ss_desk ss' = ss_desk ss ∧ ss_reviews ss' = ss_reviews ss →
  delivery provider out ld f1 ss1 rest ss' (q ++ lw).
Proof.
  intros [M1 E1 B1 D1 L1 S1 F1] Q M2 [Ed Er]. split.
  - exact (moved_trans0 0 0 _ _ _ _ _ M1 M2).
  - apply Forall_app_2; [by apply quiet_delivering|done].
  - by rewrite quiet_written.
  - destruct D1. split; congruence.
  - intros Hp. rewrite <-app_assoc, quiet_late by done. by apply L1.
  - intros Hp. rewrite <-app_assoc, quiet_late by done. intros Hl. specialize (S1 Hp Hl).
    rewrite count_app. pose proof (count_nonneg is_began q). lia.
  - intros Hp. rewrite count_app, (quiet_count is_wrote q); [intros; apply F1; [done|lia]|by intros []|done].
Qed.
(** A write after a successful check. *)
Lemma delivery_wrote provider out ld f1 ss1 rest ss ss' lw q k :
  delivery provider out ld f1 ss1 rest ss lw → (provider = true → count is_began (lw ++ ld) = 0) →
  quiet q → moved 0 0 (Wrote (take k rest) :: q) (ss_front ss) (ss_front ss') →
  ss_desk ss' = ss_desk ss ∧ ss_reviews ss' = ss_reviews ss →
  delivery provider out ld f1 ss1 (drop k rest) ss' (Wrote (take k rest) :: q ++ lw).
Proof.
  intros [M1 E1 B1 D1 L1 S1 F1] Hc Q M2 [Ed Er]. split.
  - exact (moved_trans0 0 0 _ _ _ _ _ M1 M2).
  - constructor; [done|]. apply Forall_app_2; [by apply quiet_delivering|done].
  - simpl. rewrite quiet_written, <-app_assoc, take_drop by done. done.
  - destruct D1. split; congruence.
  - intros Hp. simpl. rewrite <-app_assoc, quiet_late by done. specialize (Hc Hp).
    assert (late_writes (lw ++ ld) = 0).
    { specialize (L1 Hp). specialize (S1 Hp). pose proof (late_nonneg (lw ++ ld)).
      destruct (decide (0 < late_writes (lw ++ ld))); [specialize (S1 ltac:(done)); lia|lia]. }
    destruct (0 <? _); lia.
  - intros Hp. cbn [app late_writes]. rewrite <-!app_assoc, quiet_late, count_cons by done. cbn [is_began].
    specialize (S1 Hp). destruct (Z.ltb_spec 0 (count is_began (q ++ lw ++ ld))) as [Hb|Hb]; intros Hl; [lia|].
    simpl in Hl. specialize (S1 ltac:(lia)). rewrite count_app in Hb. pose proof (count_nonneg is_began q). lia.
  - intros Hp _. specialize (Hc Hp). rewrite count_app in Hc.
    pose proof (count_nonneg is_began lw). pose proof (count_nonneg is_began ld). lia.
Qed.

(** The checks before a write of provider output. *)
Lemma check_spec s (provider : bool) epoch n ss :
  fit n (ss_front ss) →
  wp (if provider then
        _ ← saying "credential revoked or expired"
              (on_front (validate (sv_credentials s) (mkCredential EmptyString epoch)));
        t ← saying "clock unavailable" (on_front now);
        throw_if (fc_expires_unix (sv_config s) <=? t) "grant expired"
      else mret tt)
    (λ _ ss', drifts (ss_front ss) (ss_front ss') ∧ ss' = set_front (ss_front ss') ss
       ∧ (provider = true → sh_epoch (fr_shared (ss_front ss')) = epoch))
    (λ _ ss', drifts (ss_front ss) (ss_front ss') ∧ ss' = set_front (ss_front ss') ss) ss.
Proof.
  intros Hf. destruct provider.
  2:{ apply wp_ret. split_and!; [by apply drifts_refl, Hf|by destruct ss|done]. }
  apply wp_bind, wp_map_err, wp_zoom.
  wp_apply (runtime_validate_law (mkCredential EmptyString epoch) n (ss_front ss) Hf); [|by intros e f1 D1].
  intros ? f1 [D1 He]. apply wp_bind, wp_map_err, wp_zoom. simpl in *.
  assert (∀ f2, calm f1 f2 → drifts (ss_front ss) f2 ∧ sh_epoch (fr_shared f2) = epoch) as Hd.
  { intros f2 C2. split; [|by destruct C2 as [-> _ _]]. eapply drifts_trans; [exact D1|].
    apply calm_drifts; [|done]. by eapply fi_sound, drifts_fit. }
  wp_apply (now_calm f1); intros x f2 C2; destruct (Hd f2 C2); [|done]. apply wp_throw_if; by intros _.
Qed.
Lemma write_round_spec s provider epoch start out ld n f1 ss1 rest ss lw :
  fit n f1 → sh_epoch (fr_shared f1) = epoch + count is_began ld →
  delivery provider out ld f1 ss1 rest ss lw →
  wp (write_round s provider epoch start rest)
    (λ r ss', match r with
       | inl rest' => (∃ lw', delivery provider out ld f1 ss1 rest' ss' lw')
                      ∧ (length (c_clock (ss_conn ss')) < length (c_clock (ss_conn ss)))%nat
       | inr _ => rest = [] ∧ ∃ lw', delivery provider out ld f1 ss1 rest ss' lw'
       end)
    (λ _ ss', ∃ rest' lw', delivery provider out ld f1 ss1 rest' ss' lw') ss.
Proof.
  intros Hf He Hd. unfold write_round. destruct (Nat.eqb_spec (length rest) 0) as [Hz|Hz].
  { apply wp_ret. split; [by apply nil_length_inv|by exists lw]. }
  pose proof (moved_fit0 _ _ _ _ _ Hf (de_moved _ _ _ _ _ _ _ _ Hd)) as Fs.
  apply wp_bind, wp_zoom. wp_apply (wp_instant_now (λ _ _, False) (ss_conn ss)); [|done].
  intros t c1 [_ Hticks]. set (ss' := set_conn c1 ss).
  assert (delivery provider out ld f1 ss1 rest ss' lw) as Hd' by (by destruct Hd).
  wp_check as Ht; [by exists rest, lw|]. apply Z.leb_gt in Ht.
  assert (length (c_clock c1) < length (c_clock (ss_conn ss)))%nat as Hlt.
  { apply Hticks. destruct t; [by eexists|]. unfold since, FAR, FIVE_SECONDS, NANOS in Ht. destruct start; lia. }
  apply wp_bind. wp_apply (check_spec s provider epoch n ss' Fs).
  2:{ intros e ss2 [(q & Q & M2) Hs]. exists rest, (q ++ lw). rewrite Hs. by eapply (delivery_quiet _ _ _ _ _ _ ss'). }
  intros ? ss2 ((q & Q & M2) & Hs & Hep).
  assert (delivery provider out ld f1 ss1 rest ss2 (q ++ lw)) as Hd2.
  { eapply (delivery_quiet _ _ _ _ _ _ ss'); [done|done|done|by rewrite Hs]. }
  assert (provider = true → count is_began ((q ++ lw) ++ ld) = 0) as Hb.
  { intros Hp. specialize (Hep Hp). pose proof (mv_epoch _ _ _ _ _ (de_moved _ _ _ _ _ _ _ _ Hd2)) as EE.
    rewrite count_app. lia. }
  pose proof (moved_fit0 _ _ _ _ _ Hf (de_moved _ _ _ _ _ _ _ _ Hd2)) as F2.
  apply wp_bind. wp_apply (write_out_spec n rest ss2 F2); [|done].
  intros r ss3 (Hc & Ed & Erv & q' & Q' & M3).
  assert (length (c_clock (ss_conn ss3)) < length (c_clock (ss_conn ss)))%nat as Hlt3.
  { rewrite Hc, Hs. exact Hlt. }
  destruct r as [k|e].
  - pose proof (delivery_wrote _ _ _ _ _ _ _ ss3 _ _ _ Hd2 Hb Q' M3 (conj Ed Erv)) as Hd3.
    destruct k as [|k]; [apply wp_fail; by eexists _, _|apply wp_ret; split; [by eexists|done]].
  - pose proof (delivery_quiet _ _ _ _ _ _ _ ss3 _ _ Hd2 Q' M3 (conj Ed Erv)) as Hd3.
    destruct e; [apply wp_ret; split; [by eexists|done]..|apply wp_fail; by eexists _, _].
Qed.
(** The whole delivery: everything, or a prefix. *)
Lemma write_reply_spec s provider epoch out ld n ss :
  fit n (ss_front ss) → sh_epoch (fr_shared (ss_front ss)) = epoch + count is_began ld → count is_wrote ld = 0 →
  wp (write_reply s provider epoch out)
    (λ _ ss', ∃ lw, delivery provider out ld (ss_front ss) ss [] ss' lw)
    (λ _ ss', ∃ rest lw, delivery provider out ld (ss_front ss) ss rest ss' lw) ss.
Proof.
  intros Hf He Hw. unfold write_reply. apply wp_bind, wp_zoom.
  wp_apply (wp_instant_now (λ _ _, False) (ss_conn ss)); [|done]. intros start c1 _.
  apply (wp_loop (λ rest ss', ∃ lw, delivery provider out ld (ss_front ss) ss rest ss' lw)
    (λ _ ss', length (c_clock (ss_conn ss')))); [|exists []|lia].
  - intros rest ss' (lw & Hd). wp_apply (write_round_spec s provider epoch start out ld n _ ss rest ss' lw Hf He Hd).
    + intros [rest'|[]] ss2; [done|]. by intros [-> ?].
    + done.
  - split; try done.
    + by apply moved_refl, Hf.
    + constructor.
    + intros _. rewrite app_nil_l, silent_late by done. lia.
    + intros _. rewrite app_nil_l, silent_late by done. lia.
Qed.

(** ** Dispatch *)

(** What a request of [uid] may do: its own changes of the lease are root's, what
    leaves is the caller's, the review queue is the reviewer's and the observer's. *)
Definition budget (uid : Z) : Z := if uid =? 0 then 1 else 0.
Definition asked s (r : ReadRequest) : Prop := ∃ a, r = tool_request (sv_config s) a.
Definition reading s old l (P : result Error unit → Prop) : Prop :=
  ∃ q a l1 r, l = q ++ Recorded a :: l1 ∧ quiet q ∧ asked s r ∧ shown (aims := https_aims) (sv_gateway s) r old l1
    ∧ P (au_outcome a)
    ∧ (au_outcome a = Ok tt → sends (aims := https_aims) (sv_gateway s) r old l1).
Record footprint s (uid : Z) (ss ss' : session) l : Prop := {
  fo_moved : moved 0 (budget uid) l (ss_front ss) (ss_front ss');
  fo_conn : ss_conn ss' = ss_conn ss;
  fo_events : quiet l ∨ uid = fc_caller_uid (sv_config s) ∧ reading s (fr_trace (ss_front ss)) l (λ _, True);
  fo_desk : uid ≠ fc_reviewer_uid (sv_config s) →
    (∀ a, sv_advisory s = Some a → ob_uid a ≠ uid) → ss_desk ss' = ss_desk ss ∧ ss_reviews ss' = ss_reviews ss;
}.
Lemma moved_more k m l f f' : 0 ≤ m → moved k 0 l f f' → moved k m l f f'.
Proof. intros Hm []. split; try done. lia. Qed.
Lemma budget_nonneg uid : 0 ≤ budget uid.
Proof. unfold budget. destruct (uid =? 0); lia. Qed.
Lemma footprint_quiet s uid ss f :
  drifts (ss_front ss) f → ∃ l, footprint s uid ss (set_front f ss) l.
Proof.
  intros (l & Q & M1). exists l. split; try done; [by apply moved_more; [apply budget_nonneg|]|by left].
Qed.
Lemma footprint_refl s uid ss : sound (ss_front ss) → ∃ l, footprint s uid ss ss l.
Proof. intros Hs. pose proof (footprint_quiet s uid ss (ss_front ss) (drifts_refl _ Hs)) as Hx. by destruct ss. Qed.

Lemma call_tool_spec s uid params n ss :
  fit n (ss_front ss) → sh_limit (fr_shared (ss_front ss)) = gr_max_concurrency (gw_grant (sv_gateway s)) →
  uid = fc_caller_uid (sv_config s) →
  wp (call_tool s params)
    (λ _ ss', ∃ l, footprint s uid ss ss' l ∧ reading s (fr_trace (ss_front ss)) l (λ o, o = Ok tt))
    (λ _ ss', ∃ l, footprint s uid ss ss' l) ss.
Proof.
  intros Hf Hlim Huid. unfold call_tool. wp_try as p Hp; [|apply footprint_refl, Hf].
  wp_check as Hn; [apply footprint_refl, Hf|]. set (r := tool_request _ _).
  apply wp_bind, wp_zoom. wp_apply (load_atomic_spec n sh_epoch (λ _ _, False) (ss_front ss) Hf); [|done].
  intros epoch f1 [D1 _]. pose proof D1 as (lq & Qq & M1). pose proof (drifts_fit _ _ _ Hf D1) as F1.
  apply wp_bind, wp_map_err, wp_zoom. simpl.
  wp_apply (read_spec (aims := https_aims) (sv_gateway s) r n f1 F1);
    [by rewrite (mv_limit _ _ _ _ _ M1)| |].
  - intros c f2 (q & a & l & M2 & Q & Hs & Ha & _). simpl in *.
    assert (∀ f3, drifts f2 f3 → ∃ l', footprint s uid ss (set_front f3 ss) l'
      ∧ reading s (fr_trace (ss_front ss)) l' (λ o, o = Ok tt)) as Hdone.
    { intros f3 (q' & Q' & M3).
      pose proof (moved_trans0 0 0 _ _ _ _ _ (moved_trans0 0 0 _ _ _ _ _ M1 M2) M3) as M13. simpl in M13.
      rewrite (mv_trace _ _ _ _ _ M1) in Hs.
      assert (sends (aims := https_aims) (sv_gateway s) r (fr_trace (ss_front ss)) (l ++ lq)) as Hs'
        by (by apply (sends_more _ _ _ [] _ _ ltac:(constructor) Qq)).
      assert (reading s (fr_trace (ss_front ss)) (q' ++ (q ++ Recorded a :: l) ++ lq) (λ o, o = Ok tt)) as Hr.
      { exists (q' ++ q), a, (l ++ lq), r. split_and!; [|by apply quiet_app|by eexists|by right|done|done].
        by rewrite <-!app_assoc. }
      eexists. split; [|exact Hr]. split; try done; [by apply moved_more; [apply budget_nonneg|]|].
      right. split; [done|]. destruct Hr as (q0 & a0 & l0 & r0 & ? & ? & ? & ? & ? & ?). by exists q0, a0, l0, r0. }
    assert (fit n f2) as F2 by (by eapply (moved_fit0 n 0); [exact F1|]).
    apply wp_bind, wp_map_err, wp_zoom. simpl.
    wp_apply (runtime_validate_law (mkCredential EmptyString epoch) n f2 F2);
      [|intros e f3 D3; destruct (Hdone f3 D3) as (l' & ? & _); by exists l'].
    intros ? f3 [D3 _]. apply wp_bind, wp_map_err, wp_zoom. simpl.
    wp_apply (authorize_spec (sv_gateway s) r n f3 (drifts_fit _ _ _ F2 D3));
      [intros ? f4 [D4 _]; apply wp_ret|intros e f4 D4];
      destruct (Hdone f4) as (l' & ? & ?); [by eapply drifts_trans| |by eapply drifts_trans|]; [by exists l'|by exists l'].
  - intros e f2 (q & a & l & M2 & Q & Hs & Ha). simpl in *.
    pose proof (moved_trans0 0 0 _ _ _ _ _ M1 M2) as M12. simpl in M12.
    exists ((q ++ Recorded a :: l) ++ lq). split; try done; [by apply moved_more; [apply budget_nonneg|]|].
    right. split; [done|]. exists q, a, (l ++ lq), r. rewrite (mv_trace _ _ _ _ _ M1) in Hs.
    split_and!; [by rewrite <-!app_assoc|done|by eexists|by apply (shown_more _ _ _ [] _ _ ltac:(constructor) Qq)|done|].
    rewrite Ha. done.
Qed.

Abbreviation prints s uid ss := (λ ss', ∃ l, footprint s uid ss ss' l).
Lemma with_store_spec {A} (m : M desk string A) s uid ss :
  sound (ss_front ss) →
  uid = fc_reviewer_uid (sv_config s) ∨ (∃ a, sv_advisory s = Some a ∧ ob_uid a = uid) →
  wp (with_store m) (λ _ ss', prints s uid ss ss') (λ _ ss', prints s uid ss ss') ss.
Proof.
  intros Hs Hr. unfold wp, with_store. destruct (ss_desk ss) as [d|] eqn:Ed; [|by apply footprint_refl].
  destruct (m _) as [[a|e] d']; exists []; (split; [| done|left; constructor|]); simpl;
    try (apply moved_more; [apply budget_nonneg|by apply moved_refl]);
    intros Hnr Hno; (destruct Hr as [?|(a' & Ha & ?)]; [done|by destruct (Hno a' Ha)]).
Qed.
Lemma owned_front (m : M front Error unit) message s ss n :
  fit (n + 1) (ss_front ss) → wp m (λ _ f', owns 1 (ss_front ss) f') (λ _ f', owns 1 (ss_front ss) f') (ss_front ss) →
  wp (saying message (on_front m)) (λ _ ss', prints s 0 ss ss') (λ _ ss', prints s 0 ss ss') ss.
Proof.
  intros Hf Hm. apply wp_map_err, wp_zoom. eapply wp_mono; [exact Hm| |];
    intros ? f' (l & Q & M1); exists l; (split; [done|done|by left|done]).
Qed.
Lemma dispatch_spec s uid method params n ss :
  0 ≤ n → fit (n + 1) (ss_front ss) →
  sh_limit (fr_shared (ss_front ss)) = gr_max_concurrency (gw_grant (sv_gateway s)) →
  wp (dispatch s uid method params)
    (λ _ ss', ∃ l, footprint s uid ss ss' l
       ∧ (method = "tools/call"%string → reading s (fr_trace (ss_front ss)) l (λ o, o = Ok tt)))
    (λ _ ss', prints s uid ss ss') ss.
Proof.
  intros Hn Hf Hlim. pose proof (fi_sound _ _ Hf) as Hs.
  assert (∀ (m : M session string value), method ≠ "tools/call"%string →
    wp m (λ _ ss', prints s uid ss ss') (λ _ ss', prints s uid ss ss') ss →
    wp m (λ _ ss', ∃ l, footprint s uid ss ss' l
       ∧ (method = "tools/call"%string → reading s (fr_trace (ss_front ss)) l (λ o, o = Ok tt)))
      (λ _ ss', prints s uid ss ss') ss) as Hother.
  { intros m Hne Hm. eapply wp_mono; [exact Hm| |done]. intros v ss' (l & Hl). by exists l. }
  unfold dispatch.
  destruct (_ && _) eqn:E1; [reflect; subst; apply Hother; [done|]|].
  { unfold list_connections. wp_try as x Hx; [|by apply footprint_refl].
    apply wp_bind, wp_attempt, wp_zoom.
    wp_apply (runtime_load_law (sv_credentials s) "runtime" (fc_provider (sv_config s)) (fc_tenant (sv_config s))
      (fc_account (sv_config s)) (n + 1) (ss_front ss) Hf); [intros c f1 [D1 _]|intros e f1 D1];
      apply wp_ret; by apply footprint_quiet. }
  clear E1. destruct (_ && _) eqn:E1; [reflect; subst; apply Hother; [done|]|].
  { unfold rotate_credentials. wp_try as p Hp; [|by apply footprint_refl]. apply wp_bind.
    wp_apply (owned_front (rotate _ _ _ _ _) _ s ss n Hf (rotation_spec _ _ _ _ _ n _ Hn Hf)); [|done].
    intros ? ss' Hx. by apply wp_ret. }
  clear E1. destruct (_ && _) eqn:E1; [reflect; subst; apply Hother; [done|]|].
  { unfold revoke_credentials. wp_try as p Hp; [|by apply footprint_refl]. apply wp_bind.
    wp_apply (owned_front revoke _ s ss n Hf (revoke_spec n _ Hn Hf)); [|done].
    intros ? ss' Hx. by apply wp_ret. }
  clear E1. destruct (_ && _) eqn:E1; [reflect; subst; apply Hother; [done|]|].
  { wp_try as p Hp; [|by apply footprint_refl]. apply wp_ret. by apply footprint_refl. }
  clear E1. destruct (_ && _) eqn:E1; [reflect|].
  { wp_apply (call_tool_spec s uid params (n + 1) ss Hf Hlim); [done| |done].
    intros v ss' (l & ? & ?). by exists l. }
  clear E1. destruct (_ && _) eqn:E1; [reflect; subst; apply Hother; [done|]|].
  { wp_try as p Hp; [|by apply footprint_refl]. apply with_store_spec; [done|by left]. }
  clear E1. destruct (_ && _) eqn:E1; [reflect; subst; apply Hother; [done|]|].
  { wp_try as p Hp; [|by apply footprint_refl]. apply with_store_spec; [done|by left]. }
  clear E1. destruct (_ =? _)%string eqn:E1; [reflect; subst; apply Hother; [done|]|apply wp_fail; by apply footprint_refl].
  unfold submit_proposal. wp_try as a Ha; [|by apply footprint_refl]. apply ok_or_Ok in Ha.
  wp_check as Hu; [by apply footprint_refl|]. reflect. wp_try as p Hp; [|by apply footprint_refl].
  wp_try as q Hq; [|by apply footprint_refl]. apply with_store_spec; [done|right; by exists a].
Qed.
End delivery.
