(* ===== verification/FrontFacts.v ===== *)
(** * What the integrations guarantee

    A read reaches only the granted resource of the pinned provider, once, with
    the lease's token, and is recorded once; a change of the lease stops the
    delivery of content; the four identities have separate duties; connections
    are bounded. *)

From S2P Require Import Prelude RustStr Json Posix Net Activity Policy ControlData Advisory Proposals ProposalsRun Connector ConnectorSpec Front FrontSpec.

Section reads.
Context `{UrlBuilder} `{SerdeJson}.
Implicit Types (g : Gateway HttpsTransport RuntimeCredentials Journal) (r : ReadRequest) (f : front) (l : list event).
Abbreviation sends := (sends (aims := https_aims)).
Abbreviation shown := (shown (aims := https_aims)).

Lemma quiet_elem l e : quiet l → e ∈ l → is_change e = true.
Proof. unfold quiet. rewrite Forall_forall. auto. Qed.
Lemma no_sent_elem u token cap dl l : quiet l → Sent u token cap dl ∉ l.
Proof. intros Q Hin. by pose proof (quiet_elem _ _ Q Hin). Qed.
Lemma no_recorded_elem a l : quiet l → Recorded a ∉ l.
Proof. intros Q Hin. by pose proof (quiet_elem _ _ Q Hin). Qed.
Lemma quiet_sent l : quiet l → count is_sent l = 0.
Proof. apply quiet_count. by intros []. Qed.
Lemma quiet_recorded l : quiet l → count is_recorded l = 0.
Proof. apply quiet_count. by intros []. Qed.

Lemma matches_grant_iff (p : Grant) r :
  matches_grant p r = true ↔
  rd_generation r = gr_generation p ∧ rd_tenant r = gr_tenant p ∧ rd_account r = gr_account p
  ∧ rd_resource r ∈ gr_resources p ∧ rd_method r ∈ gr_methods p.
Proof.
  unfold matches_grant. rewrite !andb_true_iff, Z.eqb_eq, !String.eqb_eq, str_in_elem, bool_decide_eq_true. naive_solver.
Qed.

(** What was sent by a read that sends. *)
Record lawful_request g r (old : list event) (l : list event) (u : url) (token : string) (cap deadline : Z) : Prop := {
  lr_granted : matches_grant (gw_grant g) r = true;
  lr_route : route r = Ok u;
  lr_origin : url_scheme u = "https"%string ∧ url_host_str u = Some (origin (ht_provider (gw_transport g)))
              ∧ url_port_or_known_default u = Some 443;
  lr_bounds : cap = gr_max_body_bytes (gw_grant g) ∧ 0 ≤ deadline ≤ gr_deadline (gw_grant g);
  lr_token : ∃ l' l0, l = l' ++ l0 ∧ token_of (l0 ++ old) = Some token;
}.
Lemma allowed_url_iff p u :
  allowed_url p u = true →
  url_scheme u = "https"%string ∧ url_host_str u = Some (origin p) ∧ url_port_or_known_default u = Some 443.
Proof.
  unfold allowed_url. rewrite !andb_true_iff, String.eqb_eq, opt_str_eq_Some, is_some_and_eqb. naive_solver.
Qed.
Lemma sends_lawful g r old l u token cap dl :
  sends g r old l → Sent u token cap dl ∈ l → lawful_request g r old l u token cap dl.
Proof.
  intros (l1 & l0 & e & -> & Q1 & Q0 & [Hg (u' & tok & d & la & lb & -> & Hu & Ha & Hd & -> & T1 & T2)]) Hin.
  apply elem_of_app in Hin as [Hin|[Heq|Hin]%elem_of_cons]; [by apply no_sent_elem in Hin| |by apply no_sent_elem in Hin].
  injection Heq as -> -> -> ->. split; try done; [by apply allowed_url_iff|].
  exists (l1 ++ Sent u' tok (gr_max_body_bytes (gw_grant g)) d :: la), lb. by rewrite <-app_assoc.
Qed.
Lemma sends_count g r old l : sends g r old l → count is_sent l = 1 ∧ count is_recorded l = 0.
Proof.
  intros (l1 & l0 & e & -> & Q1 & Q0 & [_ (u & tok & d & la & lb & -> & _)]).
  rewrite !count_app, !count_cons, !quiet_sent, !quiet_recorded by done. done.
Qed.

(** One read: [q] after the record, [l1] before it. *)
Lemma read_facts g r n f res f' :
  fit n f → sh_limit (fr_shared f) = gr_max_concurrency (gw_grant g) → read g r f = (res, f') →
  ∃ q a l1, moved 0 0 (q ++ Recorded a :: l1) f f' ∧ quiet q ∧ shown g r (fr_trace f) l1
    ∧ au_outcome a = outcome_of res ∧ (is_ok res = true → sends g r (fr_trace f) l1).
Proof.
  intros Hf Hlim Hr. pose proof (wp_run _ _ _ _ _ _ (read_spec (aims := https_aims) g r n f Hf Hlim) Hr) as Hx.
  destruct res as [c|e]; simpl in Hx.
  - destruct Hx as (q & a & l & M1 & Q & Hs & Ha & _). exists q, a, l. split_and!; try done. by right.
  - destruct Hx as (q & a & l & M1 & Q & Hs & Ha). by exists q, a, l.
Qed.

End reads.

Section connections.
Context `{UrlBuilder} `{SerdeJson} `{ReviewCodec} `{FrontCodec}.
Implicit Types (s : Server) (l : list event).

(** A read that was made under one lease: nothing changed before its record, and
    the token is that of the lease when it was sent. *)
Definition read_under_lease s (old l : list event) : Prop :=
  ∃ x a y1 y0 u token cap deadline r,
    l = x ++ Recorded a :: y1 ++ Sent u token cap deadline :: y0
    ∧ count is_began (y1 ++ y0) = 0 ∧ asked s r ∧ matches_grant (gw_grant (sv_gateway s)) r = true ∧ route r = Ok u
    ∧ url_host_str u = Some (origin (ht_provider (gw_transport (sv_gateway s))))
    ∧ token_of (y0 ++ old) = Some token.
Lemma reading_under_lease s old l lw :
  reading s old l (λ o, o = Ok tt) → count is_began l = 0 → read_under_lease s old (lw ++ l).
Proof.
  intros (q & a & l1 & r & -> & Q & Hr & _ & Ha & Hs) Hc.
  destruct (Hs Ha) as (y1 & y0 & e & -> & Q1 & Q0 & [Hg (u & tok & d & la & lb & -> & Hu & Haim & _ & -> & T1 & T2)]).
  apply allowed_url_iff in Haim as (_ & Hhost & _).
  rewrite count_app, count_cons, count_app, count_cons, count_app in Hc. simpl in Hc.
  pose proof (count_nonneg is_began q). pose proof (count_nonneg is_began y1).
  pose proof (count_nonneg is_began la). pose proof (count_nonneg is_began lb).
  eexists (lw ++ q), a, y1, (la ++ lb), u, tok, _, d, r. split_and!; try done.
  - by rewrite <-app_assoc.
  - rewrite !count_app. lia.
  - rewrite <-app_assoc. apply T2. lia.
Qed.

(** Dispatch writes nothing. *)
Lemma written_app l l' : written (l ++ l') = written l' ++ written l.
Proof. induction l as [|[] l IH]; simpl; try done; [by rewrite app_nil_r|]. by rewrite IH, app_assoc. Qed.
Lemma silent_written l : count is_wrote l = 0 → written l = [].
Proof.
  induction l as [|e l IH]; [done|]. rewrite count_cons. pose proof (count_nonneg is_wrote l).
  destruct e; simpl; intros; first [lia|apply IH; lia].
Qed.
Lemma shown_silent (g : Gateway HttpsTransport RuntimeCredentials Journal) r old l : shown (aims := https_aims) g r old l → count is_wrote l = 0.
Proof.
  assert (∀ l', quiet l' → count is_wrote l' = 0) as Hq by (intros l'; apply quiet_count; by intros []).
  intros [Q|(l1 & l0 & e & -> & Q1 & Q0 & [_ (u & tok & d & la & lb & -> & _)])]; [by apply Hq|].
  rewrite count_app, count_cons, !Hq by done. done.
Qed.
Lemma footprint_silent s uid ss ss' l : footprint s uid ss ss' l → count is_wrote l = 0.
Proof.
  assert (∀ l', quiet l' → count is_wrote l' = 0) as Hq by (intros l'; apply quiet_count; by intros []).
  intros [_ _ [Q|[_ (q & a & l1 & r & -> & Q & _ & Hs & _)]] _]; [by apply Hq|].
  rewrite count_app, count_cons, (shown_silent _ _ _ _ Hs), Hq by done. done.
Qed.

(** The answer to a tool call, delivered after the events [ld]. *)
Definition delivered s (old : list event) (id : value) (res : result string value) l : Prop :=
  written l `prefix_of` to_vec (reply_value id res) ++ [10]
  ∧ (is_ok res = true → (∀ a b, l = a ++ Began :: b → count is_wrote a ≤ 1)
       ∧ (0 < count is_wrote l → read_under_lease s old l)).
Lemma deliver_spec s uid id res epoch n ss0 ss1 ld :
  fit n (ss_front ss1) → footprint s uid ss0 ss1 ld → sh_epoch (fr_shared (ss_front ss0)) = epoch →
  (is_ok res = true → reading s (fr_trace (ss_front ss0)) ld (λ o, o = Ok tt)) →
  let post ss2 := ∃ lw, fr_trace (ss_front ss2) = (lw ++ ld) ++ fr_trace (ss_front ss0)
                        ∧ delivered s (fr_trace (ss_front ss0)) id res (lw ++ ld) in
  wp (deliver s "tools/call" id res epoch) (λ _ ss2, post ss2) (λ _ ss2, post ss2) ss1.
Proof.
  intros Hf Hfo He Hread post. pose proof (fo_moved _ _ _ _ _ Hfo) as M1.
  pose proof (footprint_silent _ _ _ _ _ Hfo) as Hsil.
  assert (∀ rest ss2 lw, delivery (is_ok res) (to_vec (reply_value id res) ++ [10]) ld (ss_front ss1) ss1 rest ss2 lw →
    post ss2) as Hpost.
  { intros rest ss2 lw [M2 _ Hb _ Hl _ Hfr]. exists lw. split.
    - by rewrite (mv_trace _ _ _ _ _ M2), (mv_trace _ _ _ _ _ M1), app_assoc.
    - split; [rewrite written_app, (silent_written ld Hsil); by exists rest|].
      intros Hok. split.
      + intros a b E1. etrans; [apply (late_writes_bound a b)|]. rewrite <-E1. by apply Hl.
      + rewrite count_app, Hsil. intros Hw. apply reading_under_lease; [by apply Hread|]. apply Hfr; [done|lia]. }
  unfold deliver. rewrite String.eqb_refl. simpl andb. wp_check as Hlen.
  { exists []. split; [apply M1|]. split; [simpl; rewrite (silent_written ld Hsil); by eexists|].
    intros Hok. split.
    - intros a b E1. simpl in E1. rewrite E1, count_app in Hsil.
      pose proof (count_nonneg is_wrote a). pose proof (count_nonneg is_wrote (Began :: b)). lia.
    - simpl. lia. }
  wp_apply (write_reply_spec s (is_ok res) epoch _ ld n ss1 Hf);
    [by rewrite (mv_epoch _ _ _ _ _ M1), He|done|intros ? ss2 (lw & Hd)|intros e ss2 (rest & lw & Hd)]; by eapply Hpost.
Qed.
Definition answered s (id : value) (ss ss' : session) : Prop :=
  ∃ l res, fr_trace (ss_front ss') = l ++ fr_trace (ss_front ss) ∧ delivered s (fr_trace (ss_front ss)) id res l.
Lemma answer_spec version s uid phase r n ss :
  0 ≤ n → fit (n + 1) (ss_front ss) →
  sh_limit (fr_shared (ss_front ss)) = gr_max_concurrency (gw_grant (sv_gateway s)) →
  rc_method r = "tools/call"%string →
  wp (answer_request version s uid phase r)
    (λ rp ss', ∃ ld, footprint s uid ss ss' ld
       ∧ (is_ok (fst rp) = true → reading s (fr_trace (ss_front ss)) ld (λ o, o = Ok tt)))
    (λ _ _, False) ss.
Proof.
  intros Hn Hf Hlim Hm. unfold answer_request. rewrite Hm. simpl.
  destruct (phase =? 2).
  - apply wp_bind, wp_attempt. wp_apply (dispatch_spec s uid "tools/call" (rc_params r) n ss Hn Hf Hlim).
    + intros v ss' (l & Hfo & Hr). apply wp_ret. exists l. split; [done|]. intros _. by apply Hr.
    + intros e ss' (l & Hfo). apply wp_ret. by exists l.
  - apply wp_ret. destruct (footprint_refl s uid ss (fi_sound _ _ Hf)) as (l & Hl). by exists l.
Qed.
(** C13. When another thread begins to rotate or revoke the lease while a
    tool call is answered, at most one more write of provider content reaches the
    caller, and what it gets is a prefix of the reply.  If any of it was written,
    the read was sent with the token of the lease in the slot, and no change of
    the lease had begun between the reading of the epoch and the audit record of
    that read.  Otherwise the reply is an error. *)
Theorem revoked_content_is_withheld version s uid phase id r epoch n ss out ss' :
  0 ≤ n → fit (n + 1) (ss_front ss) →
  sh_limit (fr_shared (ss_front ss)) = gr_max_concurrency (gw_grant (sv_gateway s)) →
  sh_epoch (fr_shared (ss_front ss)) = epoch → rc_method r = "tools/call"%string →
  respond version s uid phase id r epoch ss = (out, ss') →
  ∃ l, fr_trace (ss_front ss') = l ++ fr_trace (ss_front ss)
    ∧ ((∃ e, written l `prefix_of` to_vec (reply_value id (Err e)) ++ [10])
       ∨ ∃ v, written l `prefix_of` to_vec (reply_value id (Ok v)) ++ [10]
           ∧ (∀ a b, l = a ++ Began :: b → count is_wrote a ≤ 1)
           ∧ (0 < count is_wrote l → read_under_lease s (fr_trace (ss_front ss)) l)).
Proof.
  intros Hn Hf Hlim He Hm Hr.
  enough (wp (respond version s uid phase id r epoch)
    (λ _ ss', answered s id ss ss') (λ _ ss', answered s id ss ss') ss) as Hw.
  { pose proof (wp_run _ _ _ _ _ _ Hw Hr) as Hx.
    assert (answered s id ss ss') as (l & [v|e] & Ht & Hp & Hd) by (by destruct out); exists l; (split; [done|]).
    - right. exists v. by destruct Hd.
    - left. by exists e. }
  unfold respond. apply wp_bind. wp_apply (answer_spec version s uid phase r n ss Hn Hf Hlim Hm); [|done].
  intros [res ph] ss1 (ld & Hfo & Hread). apply wp_bind. rewrite Hm.
  assert (fit n (ss_front ss1)) as F1.
  { eapply (moved_fit n); [exact Hn| |apply Hfo]. destruct Hf. unfold budget. destruct (uid =? 0); split; (done || lia). }
  wp_apply (deliver_spec s uid id res epoch n ss ss1 ld F1 Hfo He Hread);
    [intros ? ss2 (lw & ? & ?); apply wp_ret|intros e ss2 (lw & ? & ?)]; by exists (lw ++ ld), res.
Qed.

(** ** Identities *)

Definition observers s : list Z := match sv_advisory s with Some a => [ob_uid a] | None => [] end.
Lemma wp_any {S E A} (m : M S E A) (x : S) : wp m (λ _ _, True) (λ _ _, True) x.
Proof. unfold wp. by destruct (m x) as [[a|e] y]. Qed.
Lemma open_advisory_spec c enable w :
  wp (open_advisory c enable)
    (λ a _, ∀ o, fst <$> a = Some o → ob_uid o ≠ 0 ∧ ob_uid o ≠ fc_caller_uid c ∧ ob_uid o ≠ fc_reviewer_uid c)
    (λ _ _, True) w.
Proof.
  unfold open_advisory. destruct enable, (fc_advisory c) as [a|]; try (by apply wp_fail); [|by apply wp_ret].
  wp_check as Hid; [done|]. reflect. wp_try as p Hp; [|done]. apply wp_bind.
  wp_apply (wp_any (open (ac_state_directory a) (review_context c a)) w); [|done].
  intros st w1 _. apply wp_ret. intros o [= <-]. simpl. done.
Qed.
Lemma Server_new_spec built random c enable w :
  wp (Server_new built random c enable)
    (λ x _, NoDup (0 :: fc_caller_uid c :: fc_reviewer_uid c :: observers (fst x))
       ∧ sv_config (fst x) = take_options c ∧ gw_grant (sv_gateway (fst x)) = config_grant c
       ∧ ht_provider (gw_transport (sv_gateway (fst x))) = fc_provider c)
    (λ _ _, True) w.
Proof.
  unfold Server_new. wp_check as Hid; [done|]. reflect. wp_try as t Ht; [|done]. wp_try as rd Hrd; [|done].
  wp_try as g Hg; [|done]. apply wp_bind. wp_apply (open_advisory_spec c enable w); [|done].
  intros a w1 Ha. apply wp_ret. simpl. split_and!.
  - unfold observers. simpl. destruct (fst <$> a) as [o|] eqn:Eo.
    + destruct (Ha o Eo) as (? & ? & ?). rewrite !NoDup_cons, !not_elem_of_cons.
      split_and!; first [apply not_elem_of_nil|apply NoDup_nil_2|congruence].
    + rewrite !NoDup_cons, !not_elem_of_cons. split_and!; first [apply not_elem_of_nil|apply NoDup_nil_2|congruence].
  - done.
  - destruct (Gateway_new _ _ _ _) eqn:Eg; simplify_eq/=. unfold Gateway_new in Eg. inv_ok. by injection Eg as <-.
  - destruct (Gateway_new _ _ _ _) eqn:Eg; simplify_eq/=. unfold Gateway_new in Eg. inv_ok. injection Eg as <-. simpl.
    destruct (HttpsTransport_new _ _ _) eqn:Et; simplify_eq/=. unfold HttpsTransport_new in Et. inv_ok. by injection Et as <-.
Qed.

Lemma outsider_refused s uid method params ss :
  uid ∉ 0 :: fc_caller_uid (sv_config s) :: fc_reviewer_uid (sv_config s) :: observers s →
  is_ok (fst (dispatch s uid method params ss)) = false.
Proof.
  rewrite !not_elem_of_cons. intros (H0' & Hcaller & Hreviewer & Hobs). unfold dispatch.
  apply Z.eqb_neq in H0', Hcaller, Hreviewer. rewrite H0', Hcaller, Hreviewer, !andb_false_r. simpl.
  destruct (_ =? _)%string; [|done]. unfold submit_proposal, observers in *.
  destruct (sv_advisory s) as [a|]; [|done]. rewrite not_elem_of_cons in Hobs.
  unfold mbind, M_bind, lift, throw_if, bail_if. simpl. by destruct (Z.eqb_spec uid (ob_uid a)); [tauto|].
Qed.

(** C31. On a server that was constructed, root, the caller, the reviewer and
    the observer are four different identities, and a request changes the lease
    only for root, contacts the provider or records a read only for the caller,
    and touches the review queue only for the reviewer and the observer (changes
    of the lease by other threads are those their schedule holds).  Anyone else
    gets an error. *)
Theorem duties_are_separate built random c enable w s store w' uid method params n ss res ss' :
  Server_new built random c enable w = (Ok (s, store), w') →
  0 ≤ n → fit (n + 1) (ss_front ss) → sh_limit (fr_shared (ss_front ss)) = 8 →
  dispatch s uid method params ss = (res, ss') →
  NoDup (0 :: fc_caller_uid c :: fc_reviewer_uid c :: observers s)
  ∧ ∃ l, fr_trace (ss_front ss') = l ++ fr_trace (ss_front ss)
    ∧ (uid ≠ 0 → count is_began l ≤ scheduled (fr_schedule (ss_front ss)) - scheduled (fr_schedule (ss_front ss')))
    ∧ (uid ≠ fc_caller_uid c → count is_sent l = 0 ∧ count is_recorded l = 0)
    ∧ (uid ≠ fc_reviewer_uid c → uid ∉ observers s → ss_desk ss' = ss_desk ss ∧ ss_reviews ss' = ss_reviews ss)
    ∧ (uid ∉ 0 :: fc_caller_uid c :: fc_reviewer_uid c :: observers s → is_ok res = false).
Proof.
  intros Hnew Hn Hf Hlim Hd.
  destruct (wp_run _ _ _ _ _ _ (Server_new_spec built random c enable w) Hnew) as (Hdup & Hc & Hg & _). simpl in *.
  split; [done|].
  assert (sh_limit (fr_shared (ss_front ss)) = gr_max_concurrency (gw_grant (sv_gateway s))) as Hlim' by (by rewrite Hg).
  pose proof (wp_run _ _ _ _ _ _ (dispatch_spec s uid method params n ss Hn Hf Hlim') Hd) as Hx.
  assert (∃ l, footprint s uid ss ss' l) as (l & [M1 _ Hev Hdesk]) by (destruct res; naive_solver).
  rewrite Hc in *. simpl in *. exists l. split_and!.
  - apply M1.
  - intros Hu. pose proof (mv_room _ _ _ _ _ M1) as Hr. pose proof (mv_epoch _ _ _ _ _ M1).
    unfold budget in Hr. destruct (Z.eqb_spec uid 0); [done|lia].
  - intros Hu. destruct Hev as [Q|[? _]]; [|done]. by rewrite quiet_sent, quiet_recorded.
  - intros Hr Ho. apply Hdesk; [done|]. unfold observers in Ho. intros a Ha. rewrite Ha in Ho. set_solver.
  - intros Hno. pose proof (outsider_refused s uid method params ss) as Ho. rewrite Hd, Hc in Ho. by apply Ho.
Qed.
End connections.

(** ** Connections and addresses *)

(** At most 18 connections run, each for a known peer; the last two places are
    root's. *)
Lemma accepted_connections_are_bounded s l :
  0 ≤ fst (accept_loop s l) ≤ 18 ∧ Forall (λ uid, allowed s uid = true) (snd (accept_loop s l)).
Proof.
  unfold accept_loop. assert (∀ st, 0 ≤ fst st ≤ 18 ∧ Forall (λ uid, allowed s uid = true) (snd st) →
    0 ≤ fst (foldl (accept_step s) st l) ≤ 18 ∧ Forall (λ uid, allowed s uid = true) (snd (foldl (accept_step s) st l))) as Hl.
  { induction l as [|a l IH]; intros st Hst; [done|]. apply IH. destruct Hst as [Hb Hf], a as [[uid|]|]; simpl.
    - destruct (allowed s uid) eqn:Ea; [|done]. unfold limit_for.
      destruct (fst st <? (if uid =? 0 then 18 else 16)) eqn:E1; [|done]. simpl. reflect.
      split; [destruct (uid =? 0); lia|by constructor].
    - done.
    - destruct (Z.ltb_spec 0 (fst st)); simpl; (split; [lia|done]). }
  apply Hl. split; [simpl; lia|constructor].
Qed.
Lemma root_is_admitted s active : 0 ≤ active < 18 → place_for s active (Some 0) = Some 0.
Proof. intros Ha. unfold place_for, allowed, limit_for. simpl. by destruct (Z.ltb_spec active 18); [|lia]. Qed.
Lemma others_leave_room s active uid : uid ≠ 0 → place_for s active (Some uid) = Some uid → active < 16.
Proof.
  intros Hu. unfold place_for, limit_for. simpl. destruct (Z.eqb_spec uid 0); [done|].
  destruct (allowed s uid); simpl; [|done]. destruct (Z.ltb_spec active 16); done.
Qed.

(** The pinned addresses pass the broker's filter too. *)
Lemma pinned_addresses_are_public a : public_address a = true → is_public_ip a = true.
Proof.
  destruct a as [a b c d|s0 s1 s2 s3 s4 s5 s6 s7]; simpl.
  - unfold is_public_v4. rewrite !negb_true_iff, !orb_false_iff. intros Ha.
    destruct_and! Ha. split_and!; try assumption.
    + destruct (a =? 192), (b =? 0), (b =? 168); done.
    + destruct (a =? 192), (b =? 0), (b =? 168); done.
    + destruct (a =? 192), (b =? 168); done.
    + destruct (a =? 198), (b =? 18), (b =? 19); done.
    + destruct (a =? 198), (b =? 18), (b =? 19), (b =? 51), (c =? 100); done.
  - intros Ha. apply andb_true_iff in Ha as [Ha _]. apply andb_true_iff in Ha as [Ha _].
    apply andb_true_iff in Ha as [Hu H2001]. apply negb_true_iff in H2001.
    assert (s0 ≠ 0) as Hz by (intros ->; by vm_compute in Hu). apply Z.eqb_neq in Hz.
    unfold is_public_v6, to_ipv4_mapped. by rewrite Hz, Hu, H2001.
Qed.
