(* ===== verification/Services.v ===== *)
(** * The activity relay and the integrations' front door, as processes

    [serve_relay] and the relay's executable ([crates/tentaflake-activity]), and
    [Server::serve] with its executable ([crates/tentaflake-integrations]): from the
    command line to the listener and its loop. *)

From S2P Require Import Prelude RustStr Json Posix Budget Net PrivateStore Template Sockets ControlData Policy Advisory Proposals Connector Front Activity.

(** ** [serve_relay] *)

Section relay.
Context `{SerdeJson} (decode_relay : bytes → option RelayEvent) (decode_config : bytes → option activity_config).

(** The files, and what the relay reads and publishes. *)
Definition relay_host : Type := world * env.
Definition on_files {A} (m : M world string A) : M relay_host string A := zoom fst (λ w '(_, e), (w, e)) m.
Definition on_events {A} (m : M env string A) : M relay_host string A := zoom snd (λ e '(w, _), (w, e)) m.
(** The accept loop over what [accept] returns; the end of the list is where the
    relay is stopped. *)
Fixpoint relay_loop (c : activity_config) (l : list (result net_error conn)) : M env string unit :=
  match l with
  | [] => mret tt
  | accepted :: l => _ ← serve_step decode_relay c accepted; relay_loop c l
  end.
(** [config.relay_socket.take()]: the relay itself publishes to the collector. *)
Definition without_relay (c : activity_config) : activity_config :=
  mkActivity (socket c) (server_uid c) None (producer_uid c) (producer_id c) (tenant_id c) (agent_id c)
    (run_id c) (workload_id c) (generation c) (policy_revision c).
Definition relay_directory {A} (_ : A) : string := "activity relay directory".
Definition open_relay (umask : Z) (c : activity_config) : M world string unit :=
  _ ← throw_if (negb (starts_with "agent-" (agent_id c))) "activity agent";
  _ ← lift (validate c (agent_id c));
  euid ← gets w_euid;
  _ ← throw_if (negb (euid =? producer_uid c)) "activity relay identity";
  sock ← lift (ok_or "activity relay missing" (relay_socket c));
  parent ← lift (ok_or (relay_directory tt) (path_parent sock));
  meta ← map_err relay_directory (sys_symlink_metadata parent);
  _ ← throw_if (negb (bool_decide (i_kind meta.2 = Directory)) || negb (i_uid meta.2 =? producer_uid c)
                || negb (mode_and (i_mode meta.2) 511 (* 0o777 *) =? 457 (* 0o711 *)))
        (relay_directory tt);
  bind_socket "activity relay bind" "activity relay permissions" umask sock sock 402 (* 0o622 *).
Definition serve_relay (umask : Z) (c : activity_config) (l : list (result net_error conn)) : M relay_host string unit :=
  _ ← on_files (open_relay umask c);
  on_events (relay_loop (without_relay c) l).

(** The relay's executable: the file is opened once; its content and its metadata
    are of that file. *)
Definition read_opened (x : inode) : Sys bytes := simple (λ w,
  (match i_kind x with Regular => Ok (i_data x) | _ => Err OtherIo end, w)).
Definition opened_metadata (x : inode) : Sys inode := simple (λ w, (Ok x, w)).
Definition load_relay (args : list string) : M world string activity_config :=
  path ← lift (ok_or "activity config required" (head (drop 1 args)));
  _ ← throw_if (1 <? length (drop 1 args))%nat "activity arguments";
  file ← map_err (λ _, "activity config unavailable"%string) (sys_open_follow path);
  b ← map_err (λ _, "activity config invalid"%string) (read_opened file);
  c ← lift (ok_or "activity config invalid" (decode_config b));
  meta ← map_err (λ _, "activity config metadata"%string) (opened_metadata file);
  _ ← lift (require_root_config meta);
  mret c.
Definition relay_main (umask : Z) (args : list string) (l : list (result net_error conn)) : M relay_host string unit :=
  c ← on_files (load_relay args);
  serve_relay umask c l.
End relay.

(** ** [Server::serve] *)

Section front_door.
Context `{ReviewCodec} `{FrontCodec}.
(** The number of open connections, and whose were started, when the service is
    stopped. *)
Definition front_serve (umask : Z) (s : Server) (l : list arrival) : M world string (Z * list Z) :=
  let path := fc_socket (sv_config s) in
  _ ← bind_socket "socket unavailable" "socket permissions unavailable" umask path path 438 (* 0o666 *);
  mret (accept_loop s l).
Definition front_process (umask : Z) (built : bool) (random : option bytes) (args : list string) (l : list arrival) :
    M world string (Z * list Z) :=
  '(server, _) ← front_main built random args;
  front_serve umask server l.
End front_door.

(** * Facts *)

Section relay_facts.
Context `{SerdeJson} (decode_relay : bytes → option RelayEvent) (decode_config : bytes → option activity_config).

(** The deployment a relay runs in: a valid configuration of the process' user,
    and the socket's directory, which others may only search. *)
Record relay_ready (w : world) (c : activity_config) (sock : string) : Prop := {
  ry_valid : validate c (agent_id c) = Ok tt;
  ry_user : w_euid w = producer_uid c;
  ry_socket : relay_socket c = Some sock;
  ry_directory : ∃ parent i m, path_parent sock = Some parent ∧ lookup_inode w parent = Some (i, m)
    ∧ i_kind m = Directory ∧ i_uid m = producer_uid c ∧ mode_and (i_mode m) 511 = 457;
  ry_fresh : w_names w !! sock = None;
}.
Lemma open_relay_spec umask c w : wf w →
  wp (open_relay umask c)
    (λ _ w', ∃ sock, relay_ready w c sock ∧ listening w' sock 402 ∧ others_kept sock w w')
    (λ _ w', ∀ q, relay_socket c ≠ Some q → keeps q w w') w.
Proof.
  intros Hwf. assert (∀ w' q, same_fs w w' → keeps q w w') as K by (intros; by apply same_fs_keeps).
  unfold open_relay. wp_step. wp_step; [by intros; apply K|].
  wp_step. apply wp_lift; intros u Hv; [|by intros; apply K].
  destruct u. wp_step. wp_step. wp_step. wp_step; [by intros; apply K|]. reflect.
  wp_step. apply wp_lift; intros sock Hsock; [|by intros; apply K]. apply ok_or_Ok in Hsock.
  wp_step. apply wp_lift; intros parent Hparent; [|by intros; apply K]. apply ok_or_Ok in Hparent.
  wp_step. wp_step. wp_reader (reader_symlink_metadata parent) as x w1 S1 Hx; [|by intros; apply K].
  wp_step. wp_step; [by intros; apply K|]. apply orb_false_iff in H2 as [[Hk Hu]%orb_false_iff Hm].
  assert (wf w1) as Hwf1 by (by rewrite <-S1). destruct x as [i m]. cbn [snd] in *. reflect.
  eapply wp_mono; [by apply wp_bind_socket| |].
  - intros _ w2 (Hn & Hl & W2 & K2). exists sock. split_and!; [|done|].
    + split; try done; [|by rewrite <-(sf_names _ _ S1)]. exists parent, i, m. done.
    + split; [done|]. intros q Hq. eapply keeps_trans; [by apply K|by apply K2].
  - intros _ w2 [[W2 K2] _] q Hq. eapply keeps_trans; [by apply K|]. apply K2. congruence.
Qed.

(** What reaches the collector: at most one frame for each event, bounded and not of
    the broker's own kind, in the context of the configuration. *)
Definition forwarded (c : activity_config) (x : string * bytes) : Prop :=
  ∃ ev event_id occurred k, relayed ev
    ∧ x = (socket c, take k (wire c event_id (r_operation_id ev) (r_operation ev) (r_outcome ev) occurred
                              (ms (r_duration_ms ev)) (r_usage ev))).
Definition forwards (c : activity_config) (e e' : env) : Prop :=
  ∃ new, e_log e' = e_log e ++ new ∧ Forall (forwarded c) new.
#[local] Instance forwards_refl c : Reflexive (forwards c).
Proof. intros e. exists []. by rewrite app_nil_r. Qed.
#[local] Instance forwards_trans c : Transitive (forwards c).
Proof.
  intros a b d (l & Hl & Fl) (k & Hk & Fk). exists (l ++ k). rewrite Hk, Hl, app_assoc.
  split; [done|]. by apply Forall_app.
Qed.
Lemma forwards_log c e e' : e_log e' = e_log e → forwards c e e'.
Proof. intros Hl. exists []. by rewrite app_nil_r. Qed.
Lemma forwards_one c ev e e' : relayed ev →
  partly_published c (r_operation_id ev) (r_operation ev) (r_outcome ev) (ms (r_duration_ms ev)) (r_usage ev) e e' →
  forwards c e e'.
Proof.
  intros Hev [Hl|(event_id & occurred & k & Hl)]; [by apply forwards_log|].
  exists [(socket c, take k (wire c event_id (r_operation_id ev) (r_operation ev) (r_outcome ev) occurred
             (ms (r_duration_ms ev)) (r_usage ev)))]. split; [done|]. apply Forall_singleton.
  by exists ev, event_id, occurred, k.
Qed.
Lemma published_partly c id op out d u e e' : published c id op out d u e e' → partly_published c id op out d u e e'.
Proof.
  intros (event_id & occurred & Hl). right. exists event_id, occurred, (length (wire c event_id id op out occurred d u)).
  by rewrite firstn_all.
Qed.
(** A step on the stream leaves the events alone. *)
Lemma wp_on_stream {A} (m : M conn string A) (Q : A → relay_state → Prop) (X : string → relay_state → Prop) k e :
  (∀ a k', Q a (k', e)) → (∀ x k', X x (k', e)) → wp (on_stream m) Q X (k, e).
Proof. intros HQ HX. unfold wp, on_stream, zoom. simpl. destruct (m k) as [[a|x] k']; simpl; auto. Qed.
Lemma relay_one_forwards c k e : relay_socket c = None →
  wp (relay_one decode_relay c) (λ _ s, forwards c e (snd s)) (λ _ s, forwards c e (snd s)) (k, e).
Proof.
  intros Hr. unfold relay_one. wp_step. unfold on_env at 1. wp_step.
  wp_apply (env_now_log (λ _ _, False) e); [|done]. intros now e1 L1. cbv zeta.
  assert (∀ k' : conn, forwards c e (snd (k', e1))) as Hf by (intros; by apply forwards_log).
  wp_step; wp_step. wp_step. apply wp_throw_if; intros _; [done|].
  wp_step. apply wp_on_stream; [|done]. intros header k1. wp_step. apply wp_throw_if; intros _; [done|].
  wp_step. apply wp_on_stream; [|done]. intros request k2. wp_step. apply wp_lift; intros ev _; [|done].
  wp_step. apply wp_throw_if; intros Hev; [done|]. apply relay_event_ok in Hev.
  wp_step. unfold on_env. wp_step. cbn [snd].
  assert (∀ e2, forwards c e1 e2 → forwards c e e2) as Ht by (intros e2 H2; transitivity e1; [by apply forwards_log|done]).
  wp_apply (emit_until_spec c _ _ _ _ _ _ e1 Hr).
  - intros _ e2 [Hp _]. assert (∀ k' : conn, forwards c e (snd (k', e2))) as Hf2.
    { intros. apply Ht. eapply forwards_one; [done|]. by apply published_partly. }
    wp_step. apply wp_on_stream; [|done]. intros u k3. wp_step. apply wp_on_stream; [|done].
    intros v k4. by wp_step.
  - intros x e2 Hp. apply Ht. by eapply forwards_one.
Qed.
Lemma serve_step_forwards c a e : relay_socket c = None →
  wp (serve_step decode_relay c a) (λ _ e', forwards c e e') (λ _ e', forwards c e e') e.
Proof.
  intros Hr. unfold wp, serve_step. destruct a as [k|[]]; [|done..].
  pose proof (relay_one_forwards c k e Hr) as Hf. unfold wp in Hf.
  by destruct (relay_one decode_relay c (k, e)) as [[] [k' e']].
Qed.
Lemma relay_loop_forwards c l : relay_socket c = None → ∀ e,
  wp (relay_loop decode_relay c l) (λ _ e', forwards c e e') (λ _ e', forwards c e e') e.
Proof.
  intros Hr. induction l as [|a l IH]; intros e; cbn [relay_loop]; [by wp_step|].
  wp_step. eapply wp_mono; [by apply serve_step_forwards| |done]. intros u e1 F1.
  eapply wp_mono; [apply IH| |]; intros x e2 F2; by transitivity e1.
Qed.

(** The file a relay was configured by: root's, and writable by nobody else. *)
Record root_file (w : world) (path : string) (b : bytes) : Prop := {
  rf_file : ∃ x, follow 40 w path = Ok x ∧ i_kind x = Regular ∧ i_uid x = 0 ∧ mode_and (i_mode x) 18 = 0 ∧ i_data x = b;
}.
Lemma reader_answer {A} (r : result io_error A) : reader (simple (λ w, (r, w))) (λ _ a, r = Ok a).
Proof.
  intros w. apply wp_simple; intros fs; [apply same_fs_faults|]. apply run_wp.
  destruct r; [split; [apply same_fs_faults|done]|apply same_fs_faults].
Qed.
Lemma load_relay_reader args :
  reader (load_relay decode_config args) (λ w c, ∃ program path b, args = [program; path] ∧ root_file w path b ∧ decode_config b = Some c).
Proof.
  intros w. unfold load_relay. wp_step. apply wp_lift; intros path Hpath; [|done]. apply ok_or_Ok in Hpath.
  wp_step. wp_step; [done|]. wp_step. wp_step.
  wp_reader (reader_open_follow path) as x w1 S1 Hx; [|done].
  wp_step. wp_step. wp_reader (reader_answer (match i_kind x with Regular => Ok (i_data x) | _ => Err OtherIo end))
    as b w2 S2 Hb; [|by chain].
  wp_step. apply wp_lift; intros c Hc; [|by chain]. apply ok_or_Ok in Hc.
  wp_step. wp_step. wp_reader (reader_answer (Ok x)) as m w3 S3 Hm; [|by chain]. injection Hm as <-.
  wp_step. apply wp_lift; intros u Hu; [|by chain]. wp_step. split; [by chain|].
  apply bail_if_Ok in Hu. reflect. destruct args as [|program [|p [|]]]; try done. simplify_eq/=.
  exists program, path, b. split_and!; [done| |done]. split. exists x.
  destruct (i_kind x); by simplify_eq/=.
Qed.

(** What the relay's process did: nothing was published; or it was configured by a
    file of root's that nobody else may write, put a fresh socket in a directory of
    its own, and published bounded events in the context of that configuration. *)
Definition relay_outcome (args : list string) (w : world) (e : env) (s : relay_host) : Prop :=
  snd s = e ∨ ∃ program path b c sock, args = [program; path] ∧ root_file w path b ∧ decode_config b = Some c
    ∧ relay_ready w c sock ∧ listening (fst s) sock 402 ∧ others_kept sock w (fst s)
    ∧ forwards (without_relay c) e (snd s).
Lemma relay_ready_same w w' c sock : same_fs w w' → relay_ready w' c sock → relay_ready w c sock.
Proof.
  intros S [? Hu ? (parent & i & m & ? & Hl & ?) Hn]. split; [done|by rewrite <-(sf_euid _ _ S)|done| |by rewrite <-(sf_names _ _ S)].
  exists parent, i, m. by rewrite <-(lookup_inode_same w w').
Qed.
Theorem relay_process_is_bound umask args l w e r s : wf w →
  relay_main decode_relay decode_config umask args l (w, e) = (r, s) → relay_outcome args w e s.
Proof.
  intros Hwf Hrun.
  assert (wp (relay_main decode_relay decode_config umask args l) (λ _ s, relay_outcome args w e s)
            (λ _ s, relay_outcome args w e s) (w, e)) as Hwp.
  { unfold relay_main. wp_step. unfold on_files. wp_step. cbn [fst snd].
    wp_reader (load_relay_reader args) as c w1 S1 (program & path & b & -> & Hfile & Hdec); [|by left].
    unfold serve_relay, on_files, on_events. wp_step. wp_step. cbn [fst snd].
    assert (wf w1) as Hwf1 by (by rewrite <-S1).
    eapply wp_mono; [by apply open_relay_spec| |by left]. intros u w2 (sock & Hready & Hlis & K2).
    wp_step. cbn [fst snd].
    assert (∀ e2, forwards (without_relay c) e e2 → relay_outcome [program; path] w e (w2, e2)) as Hdone.
    { intros e2 F. right. exists program, path, b, c, sock. split_and!; try done.
      - by eapply relay_ready_same.
      - eapply others_kept_trans; [by apply others_kept_same|done]. }
    eapply wp_mono; [by apply relay_loop_forwards|..]; intros x e2 F; by apply Hdone. }
  unfold wp in Hwp. rewrite Hrun in Hwp. by destruct r.
Qed.
End relay_facts.

(** The front door never replaces an endpoint: its socket is new, or nothing of that
    name changes. *)
Lemma front_serve_spec umask s l w : wf w →
  let path := fc_socket (sv_config s) in
  wp (front_serve umask s l)
    (λ r w', r = accept_loop s l ∧ w_names w !! path = None ∧ listening w' path 438 ∧ others_kept path w w')
    (λ _ w', others_kept path w w' ∧ (is_Some (w_names w !! path) → same_fs w w')) w.
Proof.
  intros Hwf path. unfold front_serve. wp_step. eapply wp_mono; [by apply wp_bind_socket| |done].
  intros u w' (Hn & Hl & K). by wp_step.
Qed.
