(* ===== verification/Manifest.v ===== *)
(** * Configuration, inventory and security manifest of the command line

    The parsers of [cli.conf], [agents.tsv] and [security.tsv] in
    [crates/tentaflake-cli/src/main.rs], the choice of an agent, and the findings
    that the declared state alone justifies. *)

From stdpp Require Import sorting.
From S2P Require Import Prelude RustStr Json Policy WorkerFs.

(** ** [Config] *)

Record Config : Type := mkConfig {
  cf_backend : string;
  cf_flake_dir : string;
  cf_host_name : string;
  cf_configuration_name : string;
  cf_agents_file : string;
  cf_security_profile : string;
  cf_security_file : string;
}.
Definition DEFAULT_CONFIG : string := "/etc/tentaflake/cli.conf".
Definition DEFAULT_AGENTS : string := "/etc/tentaflake/agents.tsv".

(** The variables of [parse_config]. *)
Record partial : Type := mkPartial {
  p_backend : option string;
  p_flake_dir : option string;
  p_host_name : option string;
  p_configuration_name : option string;
  p_agents_file : option string;
  p_security_profile : option string;
  p_security_file : option string;
}.
Definition set_key (key v : string) (p : partial) : result string partial :=
  let '(mkPartial b f h c a sp sf) := p in
  if (key =? "backend")%string then Ok (mkPartial (Some v) f h c a sp sf)
  else if (key =? "flake_dir")%string then Ok (mkPartial b (Some v) h c a sp sf)
  else if (key =? "host_name")%string then Ok (mkPartial b f (Some v) c a sp sf)
  else if (key =? "configuration_name")%string then Ok (mkPartial b f h (Some v) a sp sf)
  else if (key =? "agents_file")%string then Ok (mkPartial b f h c (Some v) sp sf)
  else if (key =? "security_profile")%string then Ok (mkPartial b f h c a (Some v) sf)
  else if (key =? "security_file")%string then Ok (mkPartial b f h c a sp (Some v))
  else Err ("unknown config key `" ++ key ++ "`")%string.
Fixpoint config_lines (ls : list string) (p : partial) : result string partial :=
  match ls with
  | [] => Ok p
  | raw :: ls =>
      let line := trim raw in
      if str_is_empty line || starts_with "#" line then config_lines ls p
      else
        kv ← ok_or ("invalid config line: " ++ line)%string (split_once "=" line);
        p ← set_key (trim kv.1) (trim kv.2) p;
        config_lines ls p
  end.
Definition missing_key (key : string) : string := ("missing config key `" ++ key ++ "`")%string.
Definition PROFILES : list string := ["dev"; "balanced"; "strict"]%string.
Definition parse_config (text : string) : result string Config :=
  p ← config_lines (lines text) (mkPartial None None None None None None None);
  backend ← ok_or (missing_key "backend") (p_backend p);
  _ ← bail_if (negb (str_in backend ["docker"; "podman"]%string))
        ("unsupported container backend `" ++ backend ++ "`")%string;
  let security_profile := default "dev"%string (p_security_profile p) in
  _ ← bail_if (negb (str_in security_profile PROFILES))
        ("unsupported security profile `" ++ security_profile ++ "`")%string;
  flake_dir ← ok_or (missing_key "flake_dir") (p_flake_dir p);
  host_name ← ok_or (missing_key "host_name") (p_host_name p);
  configuration_name ← ok_or (missing_key "configuration_name") (p_configuration_name p);
  Ok (mkConfig backend flake_dir host_name configuration_name
        (default DEFAULT_AGENTS (p_agents_file p)) security_profile
        (default "/etc/tentaflake/security.tsv"%string (p_security_file p))).

(** ** Agents *)

Record Agent : Type := mkAgent {
  ag_runtime : string;
  ag_name : string;
  ag_container : string;
  ag_unit : string;
  ag_state_dir : string;
  ag_runnable : bool;
}.
Definition line_number (n : nat) : string := pretty (N.of_nat n).
Definition tab : ascii := "009".
Definition field (fields : list string) (i : nat) : string := nth i fields EmptyString.
Definition runnable_field (fields : list string) : option bool :=
  match fields !! 5%nat with
  | Some f => if (f =? "true")%string then Some true else if (f =? "false")%string then Some false else None
  | None => None
  end.
Definition parse_agent (index : nat) (line : string) : result string Agent :=
  let fields := split_char tab line in
  match runnable_field fields with
  | Some runnable =>
      if negb (length fields =? 6)%nat then
        Err ("invalid agent record on line " ++ line_number (S index)
             ++ ": expected six tab-separated fields ending in runnable true/false")%string
      else
        _ ← bail_if (existsb str_is_empty fields)
              ("invalid agent record on line " ++ line_number (S index) ++ ": fields must be non-empty")%string;
        Ok (mkAgent (field fields 0) (field fields 1) (field fields 2) (field fields 3) (field fields 4) runnable)
  | None => Err ("invalid agent record on line " ++ line_number (S index)
                 ++ ": expected six tab-separated fields ending in runnable true/false")%string
  end.
Fixpoint collect_agents (index : nat) (ls : list string) : result string (list Agent) :=
  match ls with
  | [] => Ok []
  | line :: ls => a ← parse_agent index line; rest ← collect_agents (S index) ls; Ok (a :: rest)
  end.
(** A blank line or a comment. *)
Definition skipped (line : string) : bool := str_is_empty (trim line) || starts_with "#" line.
Definition parse_agents (text : string) : result string (list Agent) :=
  collect_agents 0 (List.filter (λ l, negb (skipped l)) (lines text)).

(** A display name must never shadow another instance's canonical identity. *)
Definition find_agent (agents : list Agent) (query : option string) : result string Agent :=
  query ← ok_or ("missing agent name; available: " ++ join " " (ag_name <$> agents))%string query;
  match find_first (λ a, (ag_container a =? query)%string) agents with
  | Some agent => Ok agent
  | None =>
      match List.filter (λ a, (ag_name a =? query)%string) agents with
      | [] => Err ("unknown agent `" ++ query ++ "`")%string
      | [agent] => Ok agent
      | _ => Err ("ambiguous agent name `" ++ query
                  ++ "`; use an exact container ID from `tentaflake status --json`")%string
      end
  end.

(** ** The security manifest *)

Record DeclaredMount : Type := mkMount { m_source : string; m_destination : string; m_writable : bool }.
#[export] Instance DeclaredMount_eq_dec : EqDecision DeclaredMount.
Proof. solve_decision. Defined.
Record DeclaredLiveResources : Type := mkResources {
  memory_bytes : Z;
  memory_swap_bytes : Z;
  nano_cpus : Z;
  pids_limit : Z;
  nofile : Z;
  nproc : Z;
}.
Record DeclaredRuntime : Type := mkRuntime { rt_name : string }.
Inductive ManagementTransport : Type := Tailscale.
Inductive ManagementSshPolicy : Type := TailnetPolicy | SshDisabled.
Record ManagementState : Type := mkManagement {
  mg_transport : ManagementTransport;
  mg_enabled : bool;
  mg_private_connectivity : bool;
  mg_ssh_policy : ManagementSshPolicy;
}.
Record SecurityAgent : Type := mkSecurityAgent {
  sa_name : string;
  sa_profile : string;
  sa_network_isolated : bool;
  sa_ports_private : bool;
  sa_unprivileged : bool;
  sa_non_root : bool;
  sa_capabilities_empty : bool;
  sa_no_new_privileges : bool;
  sa_read_only_root : bool;
  sa_mounts_safe : bool;
  sa_runsc : bool;
  sa_resources_limited : bool;
  sa_image_pinned : bool;
  sa_env_files_absent : bool;
  sa_disposable_worker : bool;
  sa_workspace_quota : bool;
  sa_seccomp_confined : bool;
  sa_apparmor_confined : bool;
  sa_provenance_gate_configured : bool;
  sa_brokered_egress : bool;
  sa_llm_broker_enabled : bool;
  sa_llm_broker_endpoint : option SocketAddr;
  sa_fetch_broker_enabled : bool;
  sa_fetch_broker_endpoint : option SocketAddr;
  sa_broker_network : option string;
  sa_declared_mounts : option (list DeclaredMount);
  sa_declared_tmpfs : option (list (string * Z));   (* a [BTreeMap], by key *)
  sa_declared_ports_absent : option bool;
  sa_declared_live_resources : option DeclaredLiveResources;
  sa_declared_runtime : option DeclaredRuntime;
}.
Record SecurityState : Type := mkSecurity {
  ss_profile : string;
  ss_openssh_enabled : bool;
  ss_broker_configured : bool;
  ss_management : option ManagementState;
  ss_apparmor_enabled : bool;
  ss_docker_group_absent : bool;
  ss_backup_enabled : bool;
  ss_backup_max_age_hours : Z;
  ss_agents : list SecurityAgent;
}.

Definition on_line (message : string) (line : nat) : string :=
  (message ++ " on security manifest line " ++ line_number line)%string.
Definition parse_bool (v : string) (line : nat) : result string bool :=
  if (v =? "true")%string then Ok true
  else if (v =? "false")%string then Ok false
  else Err (on_line "invalid boolean" line).
(** [-] stands for an absent value. *)
Definition optional {A} (parse : string → nat → result string A) (v : string) (line : nat) :
    result string (option A) :=
  if (v =? "-")%string then Ok None else a ← parse v line; Ok (Some a).
Definition parse_optional_bool : string → nat → result string (option bool) := optional parse_bool.
(** [str::parse::<SocketAddr>]; the scope of an IPv6 address is dropped. *)
Definition read_port : parser Z := λ l,
  '(_, l) ← read_char 58 l; read_number 10 65535 (blen l) true l.
Definition read_scope : parser unit := λ l,
  match read_char 37 l with
  | Some (_, l') => '(_, l'') ← read_number 10 u32_max (blen l') true l'; Some (tt, l'')
  | None => Some (tt, l)
  end.
Definition parse_socket (s : string) : option SocketAddr :=
  let l := str_bytes s in
  match ('((a, b, c, d), l) ← read_ipv4 l; '(p, l) ← read_port l; Some (mkSocket (V4 a b c d) p, l)) with
  | Some (a, []) => Some a
  | Some _ => None
  | None =>
      match ('(_, l) ← read_char 91 l; '(a, l) ← read_ipv6 l; '(_, l) ← read_scope l;
             '(_, l) ← read_char 93 l; '(p, l) ← read_port l; Some (mkSocket a p, l)) with
      | Some (a, []) => Some a
      | _ => None
      end
  end.
Definition parse_optional_socket : string → nat → result string (option SocketAddr) :=
  optional (λ v line, ok_or (on_line "invalid broker endpoint" line) (parse_socket v)).
Definition network_byte (b : Z) : bool := is_ascii_lowercase b || is_ascii_digit b.
Definition network_name (v : string) : bool :=
  negb (str_is_empty v) && (str_len v <=? 63)
  && match str_bytes v with
     | b :: l => network_byte b && forallb (λ b, network_byte b || (b =? 45)) l
     | [] => true
     end.
Definition parse_optional_network : string → nat → result string (option string) :=
  optional (λ v line, if network_name v then Ok v else Err (on_line "invalid broker network" line)).

(** The order of [DeclaredMount]: source, destination, then [false < true]. *)
Definition mount_leb (x y : DeclaredMount) : bool :=
  match String.compare (m_source x) (m_source y) with
  | Lt => true
  | Gt => false
  | Eq => match String.compare (m_destination x) (m_destination y) with
          | Lt => true
          | Gt => false
          | Eq => implb (m_writable x) (m_writable y)
          end
  end.
Definition mount_le (x y : DeclaredMount) : Prop := mount_leb x y = true.
#[export] Instance mount_le_dec : RelDecision mount_le.
Proof. intros x y. unfold mount_le. apply _. Defined.
Definition sort_mounts : list DeclaredMount → list DeclaredMount := merge_sort mount_le.
(** [windows(2).any(|pair| pair[0] == pair[1])]. *)
Fixpoint adjacent_equal (l : list DeclaredMount) : bool :=
  match l with
  | x :: (y :: _) as l' => bool_decide (x = y) || adjacent_equal l'
  | _ => false
  end.
Definition parse_mount (line : nat) (volume : string) : result string DeclaredMount :=
  let fields := split_char ":" volume in
  _ ← bail_if (negb ((2 <=? length fields)%nat && (length fields <=? 3)%nat)
               || negb (starts_with "/" (field fields 0)) || negb (starts_with "/" (field fields 1)))
        (on_line "invalid declared mount" line);
  writable ← match fields !! 2%nat with
             | None => Ok true
             | Some mode =>
                 if (mode =? "rw")%string then Ok true
                 else if (mode =? "ro")%string then Ok false
                 else Err (on_line "unsupported declared mount mode" line)
             end;
  Ok (mkMount (field fields 0) (field fields 1) writable).
Fixpoint parse_mounts (line : nat) (volumes : list string) : result string (list DeclaredMount) :=
  match volumes with
  | [] => Ok []
  | v :: volumes => m ← parse_mount line v; rest ← parse_mounts line volumes; Ok (m :: rest)
  end.

(** [serde_json::from_str] for [Vec<String>] and [BTreeMap<String, u64>]. *)
Fixpoint strings (l : list value) : option (list string) :=
  match l with
  | [] => Some []
  | Str s :: l => rest ← strings l; Some (s :: rest)
  | _ => None
  end.
Fixpoint sizes (m : list (string * value)) : option (list (string * Z)) :=
  match m with
  | [] => Some []
  | (k, v) :: m => n ← as_u64 v; rest ← sizes m; Some ((k, n) :: rest)
  end.

Definition MAX_CONTROLLER_MEMORY_BYTES : Z := 1024 * 1024 * 1024 * 1024.
Definition MAX_CONTROLLER_NANO_CPUS : Z := 1024 * 1000000000.
Definition TMPFS : list string := ["/run"; "/tmp"; "/var/tmp"]%string.
Definition RESOURCE_FIELDS : list string :=
  ["memoryBytes"; "memorySwapBytes"; "nanoCpus"; "pidsLimit"; "nofile"; "nproc"]%string.
Definition positive (fields : list (string * value)) (line : nat) (key : string) : result string Z :=
  ok_or (on_line ("declared live resource `" ++ key ++ "` must be a positive integer") line)
    (ofilter (λ n, 0 <? n) (obj_get key fields ≫= as_u64)).
Definition bounded_resources (r : DeclaredLiveResources) : bool :=
  (memory_bytes r <=? MAX_CONTROLLER_MEMORY_BYTES)
  && (memory_swap_bytes r <=? MAX_CONTROLLER_MEMORY_BYTES)
  && (memory_bytes r <=? memory_swap_bytes r)
  && (nano_cpus r <=? MAX_CONTROLLER_NANO_CPUS)
  && (nano_cpus r mod 10000 =? 0)
  && (nproc r =? pids_limit r)
  && (pids_limit r <=? 9223372036854775807) && (nofile r <=? 9223372036854775807).
Definition store_byte (b : Z) : bool := is_ascii_alphanumeric b || byte_in "+._-" b.
(** [rsplit_once] with a string: the last occurrence. *)
Fixpoint rsplit_once_str (p s : string) : option (string * string) :=
  match s with
  | EmptyString => if str_is_empty p then Some (EmptyString, EmptyString) else None
  | String a s' =>
      match rsplit_once_str p s' with
      | Some (x, y) => Some (String a x, y)
      | None => match strip_prefix p s with Some y => Some (EmptyString, y) | None => None end
      end
  end.
Definition runtime_executable (name path : string) : bool :=
  is_some_and (λ rb : string * string,
    (rb.2 =? name)%string
    && is_some_and (λ item, negb (str_is_empty item) && all_bytes store_byte item
                            && negb (item =? ".")%string && negb (item =? "..")%string)
         (strip_prefix "/nix/store/" rb.1))
    (rsplit_once_str "/bin/" path).
Definition RUNTIMES : list string := ["runsc"; "runsc-research"; "runsc-pi-durable"]%string.

Section manifest.
Context `{SerdeJson}.

Definition from_str (v : string) : option value := from_slice (str_bytes v).

Definition parse_declared_mounts : string → nat → result string (option (list DeclaredMount)) :=
  optional (λ v line,
    volumes ← ok_or (on_line "invalid declared-mount JSON" line) (j ← from_str v; l ← as_array j; strings l);
    mounts ← parse_mounts line volumes;
    let mounts := sort_mounts mounts in
    _ ← bail_if (adjacent_equal mounts) (on_line "duplicate declared mount" line);
    Ok mounts).
Definition parse_declared_tmpfs : string → nat → result string (option (list (string * Z))) :=
  optional (λ v line,
    tmpfs ← ok_or (on_line "invalid declared-tmpfs JSON" line) (j ← from_str v; m ← as_object j; sizes m);
    _ ← bail_if (negb (length tmpfs =? length TMPFS)%nat
                 || existsb (λ d, negb (str_in d (fst <$> tmpfs))) TMPFS
                 || existsb (λ kv : string * Z, kv.2 =? 0) tmpfs)
          (on_line "declared tmpfs set must contain positive sizes for /run, /tmp, and /var/tmp" line);
    Ok tmpfs).
Definition parse_declared_live_resources : string → nat → result string (option DeclaredLiveResources) :=
  optional (λ v line,
    parsed ← ok_or (on_line "invalid declared-live-resource JSON" line) (from_str v);
    fields ← ok_or (on_line "declared live resources must be a JSON object" line) (as_object parsed);
    _ ← bail_if (negb (length fields =? length RESOURCE_FIELDS)%nat
                 || existsb (λ f, negb (obj_contains f fields)) RESOURCE_FIELDS)
          (on_line "declared live resources have an invalid field set" line);
    memory ← positive fields line "memoryBytes";
    swap ← positive fields line "memorySwapBytes";
    cpus ← positive fields line "nanoCpus";
    pids ← positive fields line "pidsLimit";
    files ← positive fields line "nofile";
    procs ← positive fields line "nproc";
    let r := mkResources memory swap cpus pids files procs in
    _ ← bail_if (negb (bounded_resources r))
          (on_line "declared live resources violate controller bounds" line);
    Ok r).
Definition parse_declared_runtime : string → nat → result string (option DeclaredRuntime) :=
  optional (λ v line,
    let invalid := on_line "invalid declared runtime" line in
    parsed ← ok_or invalid (from_str v);
    fields ← ok_or invalid (as_object parsed);
    name ← ok_or invalid (obj_get "name" fields ≫= as_str);
    path ← ok_or invalid (obj_get "path" fields ≫= as_str);
    _ ← bail_if (negb (length fields =? 2)%nat || negb (str_in name RUNTIMES)
                 || negb (runtime_executable name path)) invalid;
    Ok (mkRuntime name)).

(** [fields.get(i).map(parse).transpose()?.flatten()]. *)
Definition late {A} (parse : string → nat → result string (option A)) (fields : list string)
    (i line : nat) : result string (option A) :=
  match fields !! i with Some v => parse v line | None => Ok None end.
Definition bool_at (fields : list string) (i line : nat) : result string bool :=
  parse_bool (field fields i) line.

Definition parse_host (versioned : bool) (fields : list string) (line : nat) : result string SecurityState :=
  i ← (if versioned then Ok 4%nat else _ ← bool_at fields 4 line; Ok 5%nat);
  openssh ← bool_at fields 2 line;
  broker ← bool_at fields 3 line;
  apparmor ← bool_at fields i line;
  docker ← bool_at fields (i + 1) line;
  backup ← bool_at fields (i + 2) line;
  age ← ok_or (on_line "invalid backup age" line) (parse_u64 (field fields (i + 3)));
  Ok (mkSecurity (field fields 1) openssh broker None apparmor docker backup age []).
Definition parse_management (fields : list string) (line : nat) : result string ManagementState :=
  transport ← (if (field fields 1 =? "tailscale")%string then Ok Tailscale
               else Err "unsupported security manifest management transport"%string);
  policy ← (if (field fields 4 =? "tailnet-policy")%string then Ok TailnetPolicy
            else if (field fields 4 =? "disabled")%string then Ok SshDisabled
            else Err "unsupported security manifest management SSH policy"%string);
  enabled ← bool_at fields 2 line;
  private ← bool_at fields 3 line;
  Ok (mkManagement transport enabled private policy).
Definition parse_security_agent (fields : list string) (line : nat) : result string SecurityAgent :=
  let b i := bool_at fields i line in
  network_isolated ← b 3%nat; ports_private ← b 4%nat; unprivileged ← b 5%nat; non_root ← b 6%nat;
  capabilities_empty ← b 7%nat; no_new_privileges ← b 8%nat; read_only_root ← b 9%nat;
  mounts_safe ← b 10%nat; runsc ← b 11%nat; resources_limited ← b 12%nat; image_pinned ← b 13%nat;
  env_files_absent ← b 14%nat; disposable_worker ← b 15%nat; workspace_quota ← b 16%nat;
  seccomp_confined ← b 17%nat; apparmor_confined ← b 18%nat; provenance ← b 19%nat;
  brokered_egress ← b 20%nat;
  llm_enabled ← b 21%nat; llm_endpoint ← parse_optional_socket (field fields 22) line;
  fetch_enabled ← b 23%nat; fetch_endpoint ← parse_optional_socket (field fields 24) line;
  network ← late parse_optional_network fields 25 line;
  mounts ← late parse_declared_mounts fields 26 line;
  tmpfs ← late parse_declared_tmpfs fields 27 line;
  ports_absent ← late parse_optional_bool fields 28 line;
  resources ← late parse_declared_live_resources fields 29 line;
  runtime ← late parse_declared_runtime fields 30 line;
  Ok (mkSecurityAgent (field fields 1) (field fields 2) network_isolated ports_private unprivileged
        non_root capabilities_empty no_new_privileges read_only_root mounts_safe runsc resources_limited
        image_pinned env_files_absent disposable_worker workspace_quota seccomp_confined
        apparmor_confined provenance brokered_egress llm_enabled llm_endpoint fetch_enabled
        fetch_endpoint network mounts tmpfs ports_absent resources runtime).

(** The variables of [parse_security_state]. *)
Record manifest : Type := mkManifest {
  mf_state : option SecurityState;
  mf_agents : list SecurityAgent;
  mf_versioned : bool;
  mf_record_seen : bool;
  mf_management : option ManagementState;
}.
Definition manifest_record (fields : list string) (line : nat) (m : manifest) : result string manifest :=
  let kind := field fields 0 in
  let n := length fields in
  let '(mkManifest st agents versioned seen mg) := m in
  if (kind =? "manifest")%string then
    _ ← bail_if seen "security manifest header must be first and unique"%string;
    _ ← bail_if (negb (n =? 2)%nat || negb (field fields 1 =? "2")%string)
          "unsupported security manifest version"%string;
    Ok (mkManifest st agents true true mg)
  else if (kind =? "host")%string && (n =? (if versioned then 8 else 9))%nat then
    _ ← bail_if (is_some st) "security manifest contains multiple host records"%string;
    host ← parse_host versioned fields line;
    Ok (mkManifest (Some host) agents versioned true mg)
  else if (kind =? "management")%string && versioned && (n =? 5)%nat then
    _ ← bail_if (is_some mg) "security manifest contains multiple management records"%string;
    management ← parse_management fields line;
    Ok (mkManifest st agents versioned true (Some management))
  else if (kind =? "agent")%string && (25 <=? n)%nat && (n <=? 31)%nat then
    agent ← parse_security_agent fields line;
    Ok (mkManifest st (agents ++ [agent]) versioned true mg)
  else Err ("invalid security manifest record on line " ++ line_number line)%string.
Fixpoint manifest_lines (index : nat) (ls : list string) (m : manifest) : result string manifest :=
  match ls with
  | [] => Ok m
  | line :: ls =>
      if skipped line then manifest_lines (S index) ls m
      else
        m ← manifest_record (split_char tab line) (S index) m;
        manifest_lines (S index) ls m
  end.
Definition parse_security_state (text : string) : result string SecurityState :=
  m ← manifest_lines 0 (lines text) (mkManifest None [] false false None);
  st ← ok_or "security manifest has no host record"%string (mf_state m);
  Ok (mkSecurity (ss_profile st) (ss_openssh_enabled st) (ss_broker_configured st) (mf_management m)
        (ss_apparmor_enabled st) (ss_docker_group_absent st) (ss_backup_enabled st)
        (ss_backup_max_age_hours st) (mf_agents m)).
End manifest.

(** ** Declared findings *)

Record Finding : Type := mkFinding {
  fi_id : string;
  fi_severity : string;
  fi_agent : option string;
  fi_explanation : string;
  fi_remediation : string;
}.
Definition host_finding (id severity explanation remediation : string) : Finding :=
  mkFinding id severity None explanation remediation.
Definition agent_finding (id severity : string) (agent : SecurityAgent) (explanation remediation : string) : Finding :=
  mkFinding id severity (Some (sa_name agent)) explanation remediation.
Definition check_agent (condition : bool) (id severity : string) (agent : SecurityAgent)
    (explanation remediation : string) : list Finding :=
  if condition then [] else [agent_finding id severity agent explanation remediation].
Definition when_ (condition : bool) (f : Finding) : list Finding := if condition then [f] else [].

Definition host_findings (st : SecurityState) : list Finding :=
  let dev := (ss_profile st =? "dev")%string in
  when_ dev (host_finding "TFSEC-001" "high"
      "the dev profile is not a security boundary for untrusted 24/7 agents"
      "migrate to balanced and satisfy its fail-closed assertions")
  ++ when_ (ss_openssh_enabled st) (host_finding "TFSEC-015" "high"
      "OpenSSH is enabled; the secure management baseline requires its reviewed private SSH policy"
      "disable tentaflake.ssh or document and restrict the exceptional SSH path")
  ++ when_ (negb (ss_broker_configured st) && negb dev) (host_finding "TFSEC-013" "warning"
      "brokered egress is not configured; agents remain fail-closed with network=none"
      "configure the Phase B broker network before granting external connectivity")
  ++ match ss_management st with
     | None => [host_finding "TFSEC-038" "warning"
         "the declared private management contract is unknown"
         "rebuild the host with the versioned management manifest; enrollment and effective remote policy require separate evidence"]
     | Some mg =>
         when_ (negb dev && (negb (mg_enabled mg) || negb (mg_private_connectivity mg)))
           (host_finding "TFSEC-019" "critical"
             "the declared private management transport is disabled or lacks private connectivity"
             "enable the reviewed private management transport and verify its enrollment and access policy separately")
         ++ when_ (negb dev && match mg_ssh_policy mg with SshDisabled => true | TailnetPolicy => false end)
              (host_finding "TFSEC-039" "critical"
                "the declared private management SSH policy is disabled"
                "enable the reviewed private SSH policy and verify the operator's effective access separately")
     end
  ++ when_ (negb (ss_apparmor_enabled st) && negb dev) (host_finding "TFSEC-017" "critical"
      "AppArmor is disabled on a secure-profile host"
      "enable tentaflake hardening and AppArmor before running agents")
  ++ when_ (negb (ss_docker_group_absent st) && negb dev) (host_finding "TFSEC-018" "critical"
      "the administrative user belongs to the root-equivalent Docker group"
      "remove Docker-group membership and use the narrow sudo-backed CLI path")
  ++ when_ (negb (ss_backup_enabled st) && negb dev) (host_finding "TFSEC-026" "warning"
      "encrypted state/audit backups are not configured"
      "configure tentaflake.backup with explicit state and broker paths plus runtime-only Restic credentials").
(** The network label, the enabled modes and the endpoints agree. *)
Definition broker_consistent (agent : SecurityAgent) : bool :=
  Bool.eqb (sa_brokered_egress agent) (sa_llm_broker_enabled agent || sa_fetch_broker_enabled agent)
  && Bool.eqb (sa_llm_broker_enabled agent) (is_some (sa_llm_broker_endpoint agent))
  && Bool.eqb (sa_fetch_broker_enabled agent) (is_some (sa_fetch_broker_endpoint agent)).
Definition agent_findings (profile : string) (agent : SecurityAgent) : list Finding :=
  check_agent (broker_consistent agent) "TFSEC-037" "critical" agent
       "broker network label, enabled modes, and declared health endpoints are inconsistent"
       "rebuild the agent and broker from one exact tentaflake.broker.agents policy"
    ++ check_agent (sa_profile agent =? profile)%string "TFSEC-016" "critical" agent
       "agent and host security profiles differ"
       "rebuild the agent from the selected host security profile"
    ++ check_agent (sa_network_isolated agent) "TFSEC-002" "critical" agent
       "agent has direct or unreviewed network access"
       "use network=none or exactly one isolated internal broker network"
    ++ check_agent (sa_ports_private agent) "TFSEC-003" "critical" agent
       "agent publishes a non-loopback port"
       "remove the publication or bind an authenticated operator service to loopback"
    ++ check_agent (sa_unprivileged agent) "TFSEC-004" "critical" agent
       "agent container is privileged"
       "remove privileged mode"
    ++ check_agent (sa_non_root agent) "TFSEC-005" "critical" agent
       "agent container user is root or unspecified"
       "set an explicit non-root UID and GID"
    ++ check_agent (sa_capabilities_empty agent) "TFSEC-006" "critical" agent
       "agent has added Linux capabilities"
       "drop all capabilities and justify any future exception separately"
    ++ check_agent (sa_no_new_privileges agent) "TFSEC-007" "high" agent
       "no-new-privileges is missing"
       "enable the OCI no-new-privileges security option"
    ++ check_agent (sa_read_only_root agent) "TFSEC-008" "high" agent
       "container root filesystem is writable"
       "enable read-only root and use bounded tmpfs/state mounts"
    ++ check_agent (sa_mounts_safe agent) "TFSEC-009" "critical" agent
       "agent has a sensitive host or runtime-socket mount"
       "remove the mount and expose only explicit state/workspace paths"
    ++ check_agent (sa_resources_limited agent) "TFSEC-010" "high" agent
       "one or more CPU, memory, swap, PID, or ulimit controls are missing"
       "restore the balanced resource controls"
    ++ check_agent (sa_runsc agent) "TFSEC-011" "critical" agent
       "the gVisor runsc runtime is missing"
       "install the declarative gVisor runtime; never fall back silently to runc"
    ++ check_agent (sa_image_pinned agent) "TFSEC-012" "high" agent
       "container image is not pinned to a SHA-256 digest"
       "pin the reviewed image digest"
    ++ check_agent (sa_env_files_absent agent) "TFSEC-014" "critical" agent
       "agent receives an environment file that may contain real credentials"
       "move provider and infrastructure credentials to the broker"
    ++ if (profile =? "dev")%string then [] else
      check_agent (sa_disposable_worker agent) "TFSEC-020" "high" agent
       "agent has no disposable tool-worker boundary for untrusted code"
       "enable tentaflake.worker.agents.<container> and route shell, build, and foreign-code jobs through its inbox"
      ++ check_agent (sa_workspace_quota agent) "TFSEC-021" "high" agent
       "agent persistent workspace has no managed hard size ceiling"
       "enable tentaflake.workspaceQuota.agents.<container> after explicitly migrating any existing workspace"
      ++ check_agent (sa_seccomp_confined agent) "TFSEC-022" "critical" agent
       "container seccomp policy is unconfined or missing"
       "restore the runtime default seccomp profile and remove every unconfined override"
      ++ check_agent (sa_apparmor_confined agent) "TFSEC-023" "critical" agent
       "container has no enforced AppArmor profile"
       "enable host AppArmor and the runtime default container profile"
      ++ check_agent (sa_provenance_gate_configured agent) "TFSEC-024" "warning" agent
       "the pinned image has no configured publisher-signature verification gate"
       "record the upstream Cosign identity or public key and configure tentaflake.imageProvenance.agents.<container>".
Definition security_findings (st : SecurityState) : list Finding :=
  host_findings st ++ concat (agent_findings (ss_profile st) <$> ss_agents st).
