(* ===== verification/Live.v ===== *)
(** * Observed container state: the live checks of the security doctor

    [live_*] of [crates/tentaflake-cli/src/main.rs]: what the JSON that the
    container runtime reports for a container and for its network says about the
    declared capsule.  Every check answers [Secure], [Unsafe] or [Unknown]. *)

From S2P Require Import Prelude RustStr Json WorkerFs Manifest.

Inductive LiveContainerState : Type := Secure | Unsafe | Unknown.
#[export] Instance LiveContainerState_eq_dec : EqDecision LiveContainerState.
Proof. solve_decision. Defined.
Definition merge_live_state (current observed : LiveContainerState) : LiveContainerState :=
  match current, observed with
  | Unsafe, _ | _, Unsafe => Unsafe
  | Unknown, _ | _, Unknown => Unknown
  | Secure, Secure => Secure
  end.
Definition merge_all : list LiveContainerState → LiveContainerState := foldl merge_live_state Secure.

(** ** Small checks *)

Abbreviation map_of := (list (string * value)).
Definition as_bool (v : value) : option bool := match v with Bool b => Some b | _ => None end.
Definition get (key : string) (m : option map_of) : option value := m ≫= obj_get key.
Definition live_expected_bool_security (v : option value) (expected : bool) : LiveContainerState :=
  match v ≫= as_bool with
  | Some b => if Bool.eqb b expected then Secure else Unsafe
  | None => Unknown
  end.
Definition secure_if (b : bool) : LiveContainerState := if b then Secure else Unsafe.

Definition live_network_attachment_security (network_settings : option map_of) (backend expected_network : string) :
    LiveContainerState :=
  match network_settings with
  | None => Unknown
  | Some settings =>
      match obj_get "Networks" settings with
      | Some (Object networks) =>
          if (expected_network =? "none")%string then
            secure_if ((length networks =? 0)%nat || ((length networks =? 1)%nat && obj_contains "none" networks))
          else secure_if ((length networks =? 1)%nat && obj_contains expected_network networks)
      | None | Some Null =>
          if (backend =? "podman")%string && (expected_network =? "none")%string then Secure else Unknown
      | _ => Unknown
      end
  end.

(** ** Security options *)

Definition ENABLING : list string :=
  ["no-new-privileges"; "no-new-privileges=true"; "no-new-privileges:true"]%string.
Definition DISABLING : list string :=
  ["no-new-privileges=false"; "no-new-privileges:false"; "seccomp=unconfined"; "seccomp:unconfined";
   "apparmor=unconfined"; "apparmor:unconfined"]%string.
Fixpoint scan_options (options : list value) (st : LiveContainerState) (no_new_privileges : bool) :
    LiveContainerState * bool :=
  match options with
  | [] => (st, no_new_privileges)
  | o :: options =>
      match as_str o with
      | None => scan_options options (merge_live_state st Unknown) no_new_privileges
      | Some s =>
          if str_in s ENABLING then scan_options options st true
          else if str_in s DISABLING then scan_options options (merge_live_state st Unsafe) no_new_privileges
          else scan_options options st no_new_privileges
      end
  end.
Definition live_security_options_security (host : option map_of) : LiveContainerState :=
  match host with
  | None => Unknown
  | Some host =>
      let explicit := obj_get "NoNewPrivileges" host ≫= as_bool in
      let checked options :=
        let initial := match obj_get "NoNewPrivileges" host with
                       | Some (Bool false) => Unsafe
                       | Some (Bool true) | None => Secure
                       | Some _ => Unknown
                       end in
        let '(st, no_new_privileges) := scan_options options initial (bool_decide (explicit = Some true)) in
        if no_new_privileges then st else merge_live_state st Unsafe in
      match obj_get "SecurityOpt" host with
      | Some (Array options) => checked options
      | Some Null => checked []
      | _ => if bool_decide (explicit = Some false) then Unsafe else Unknown
      end
  end.

(** ** Mounts *)

Definition research_byte (b : Z) : bool := is_ascii_lowercase b || is_ascii_digit b || (b =? 45).
Definition live_research_mount_is_safe (source destination : option string) (writable : option bool) : bool :=
  is_some_and (λ name, negb (str_is_empty name) && (str_len name <=? 63) && all_bytes research_byte name)
    (source ≫= strip_prefix "/run/tentaflake-research/")
  && opt_str_eq destination "/run/tentaflake-research" && bool_decide (writable = Some false).
Definition SENSITIVE : list string :=
  ["/"; "/dev"; "/etc"; "/home"; "/proc"; "/root"; "/run"; "/sys"; "/var/lib/containers"; "/var/lib/docker";
   "/var/lib/tentaflake-worker-state-volumes"; "/var/lib/tentaflake-workspace-volumes"; "/var/run"]%string.
Definition live_mount_source_is_sensitive (source : string) : bool :=
  existsb (λ root, (source =? root)%string || starts_with (root ++ "/") source) SENSITIVE
  || ends_with ".sock" source.
Record mount_scan : Type := mkMounts {
  mn_state : LiveContainerState;
  mn_complete : bool;
  mn_observed : list DeclaredMount;
}.
Definition scan_mount (s : mount_scan) (v : value) : mount_scan :=
  match as_object v with
  | None => mkMounts (merge_live_state (mn_state s) Unknown) false (mn_observed s)
  | Some mount =>
      if opt_str_eq (obj_get "Type" mount ≫= as_str) "tmpfs" then s
      else
        let source := obj_get "Source" mount ≫= as_str in
        let destination := obj_get "Destination" mount ≫= as_str in
        let writable := obj_get "RW" mount ≫= as_bool in
        let st := if is_some_and live_mount_source_is_sensitive source
                     && negb (live_research_mount_is_safe source destination writable)
                  then merge_live_state (mn_state s) Unsafe else mn_state s in
        match source, destination, writable with
        | Some source, Some destination, Some writable =>
            mkMounts st (mn_complete s) (mn_observed s ++ [mkMount source destination writable])
        | _, _, _ => mkMounts (merge_live_state st Unknown) false (mn_observed s)
        end
  end.
Definition live_mounts_security (v : option value) (declared_mounts : list DeclaredMount) : LiveContainerState :=
  match v ≫= as_array with
  | None => Unknown
  | Some mounts =>
      let s := foldl scan_mount (mkMounts Secure true []) mounts in
      let set_state :=
        if mn_complete s then secure_if (bool_decide (sort_mounts (mn_observed s) = sort_mounts declared_mounts))
        else if existsb (λ m, negb (bool_decide (m ∈ declared_mounts))) (mn_observed s) then Unsafe
        else Unknown in
      merge_live_state (mn_state s) set_state
  end.

(** ** Capabilities and AppArmor *)

Definition empty_list (v : option value) : LiveContainerState :=
  match v ≫= as_array with
  | Some [] => Secure
  | Some _ => Unsafe
  | None => Unknown
  end.
Fixpoint scan_drops (values : list value) (st : LiveContainerState) (has_all : bool) : LiveContainerState * bool :=
  match values with
  | [] => (st, has_all)
  | v :: values =>
      match as_str v with
      | Some s => scan_drops values st (has_all || eq_ignore_ascii_case s "all")
      | None => scan_drops values (merge_live_state st Unknown) has_all
      end
  end.
Definition live_capabilities_security (container : map_of) (host : option map_of) (backend : string) :
    LiveContainerState :=
  if (backend =? "podman")%string then
    merge_all ((λ f, empty_list (obj_get f container)) <$> ["EffectiveCaps"; "BoundingCaps"]%string)
  else
    match host with
    | None => Unknown
    | Some host =>
        let cap_add := match obj_get "CapAdd" host with
                       | Some Null | Some (Array []) => Secure
                       | Some (Array _) => Unsafe
                       | _ => Unknown
                       end in
        let cap_drop := match obj_get "CapDrop" host ≫= as_array with
                        | Some values =>
                            let '(st, has_all) := scan_drops values Secure false in
                            if has_all then st else merge_live_state st Unsafe
                        | None => Unknown
                        end in
        merge_live_state cap_add cap_drop
    end.
Definition live_apparmor_security (container : map_of) (backend : string) : LiveContainerState :=
  match obj_get "AppArmorProfile" container ≫= as_str with
  | Some profile =>
      if (backend =? "docker")%string then secure_if (profile =? "docker-default")%string
      else if (backend =? "podman")%string then
        secure_if (negb (str_is_empty profile) && negb (profile =? "unconfined")%string)
      else Unknown
  | None => Unknown
  end.

(** ** Ports *)

Definition port_binding (v : value) : LiveContainerState :=
  match v with
  | Null | Array [] => Secure
  | Array _ => Unsafe
  | _ => Unknown
  end.
Definition live_port_map_security (v : option value) : LiveContainerState :=
  match v with
  | Some Null => Secure
  | Some (Object bindings) => merge_all (port_binding ∘ snd <$> bindings)
  | _ => Unknown
  end.
Definition live_port_bindings_security (host network_settings : option map_of) : LiveContainerState :=
  merge_all [live_expected_bool_security (get "PublishAllPorts" host) false;
             live_port_map_security (get "PortBindings" host);
             live_port_map_security (get "Ports" network_settings)].

(** ** Resources *)

Definition live_u64_field (object : map_of) (key : string) : result LiveContainerState Z :=
  match obj_get key object with
  | Some (Number (PosInt n)) => Ok n
  | Some (Number (NegInt _)) => Err Unsafe
  | _ => Err Unknown
  end.
Definition live_exact_u64_security (object : map_of) (key : string) (expected : Z) : LiveContainerState :=
  if is_some_and is_null (obj_get key object) then Unsafe
  else match live_u64_field object key with
       | Ok n => secure_if (n =? expected)
       | Err st => st
       end.
Record ulimit_scan : Type := mkUlimits {
  ul_state : LiveContainerState;
  ul_complete : bool;
  ul_nofile : nat;
  ul_nproc : nat;
}.
Definition limit_names (backend : string) : string * string :=
  if (backend =? "podman")%string then ("RLIMIT_NOFILE", "RLIMIT_NPROC")%string else ("nofile", "nproc")%string.
Definition well_formed_limit (ulimit : map_of) (key : string) : LiveContainerState :=
  match live_u64_field ulimit key with Ok _ => Secure | Err st => st end.
Definition scan_ulimit (backend : string) (declared : DeclaredLiveResources) (s : ulimit_scan) (v : value) :
    ulimit_scan :=
  let unreadable := mkUlimits (merge_live_state (ul_state s) Unknown) false (ul_nofile s) (ul_nproc s) in
  match as_object v with
  | None => unreadable
  | Some ulimit =>
      match obj_get "Name" ulimit ≫= as_str with
      | None => unreadable
      | Some name =>
          let '(nofile_name, nproc_name) := limit_names backend in
          let both check := merge_live_state (merge_live_state (ul_state s) (check "Soft"%string)) (check "Hard"%string) in
          if (name =? nofile_name)%string then
            mkUlimits (both (λ f, live_exact_u64_security ulimit f (nofile declared)))
              (ul_complete s) (S (ul_nofile s)) (ul_nproc s)
          else if (name =? nproc_name)%string then
            mkUlimits (both (λ f, live_exact_u64_security ulimit f (nproc declared)))
              (ul_complete s) (ul_nofile s) (S (ul_nproc s))
          else mkUlimits (both (well_formed_limit ulimit)) (ul_complete s) (ul_nofile s) (ul_nproc s)
      end
  end.
Definition limit_count (complete : bool) (count : nat) : LiveContainerState :=
  match count with
  | O => if complete then Unsafe else Unknown
  | 1%nat => Secure
  | _ => Unknown
  end.
Definition live_ulimits_security (v : option value) (backend : string) (declared : DeclaredLiveResources) :
    LiveContainerState :=
  match v with
  | Some Null => Unsafe
  | Some (Array ulimits) =>
      let s := foldl (scan_ulimit backend declared) (mkUlimits Secure true 0 0) ulimits in
      merge_live_state (merge_live_state (ul_state s) (limit_count (ul_complete s) (ul_nofile s)))
        (limit_count (ul_complete s) (ul_nproc s))
  | _ => Unknown
  end.
Definition live_resource_limits_security (host : map_of) (backend : string) (declared : DeclaredLiveResources) :
    LiveContainerState :=
  let st := merge_all ((λ fe : string * Z, live_exact_u64_security host fe.1 fe.2) <$>
    [("Memory", memory_bytes declared); ("MemorySwap", memory_swap_bytes declared);
     ("PidsLimit", pids_limit declared); ("NanoCpus", nano_cpus declared)]%string) in
  let st := if (backend =? "podman")%string then
              merge_live_state (merge_live_state st (live_exact_u64_security host "CpuPeriod" 100000))
                (live_exact_u64_security host "CpuQuota" (nano_cpus declared / 10000))
            else st in
  merge_live_state st (live_ulimits_security (obj_get "Ulimits" host) backend declared).

(** ** Temporary file systems *)

Definition unit_factor (b : Z) : option Z :=
  if b =? 107 then Some 1024 else if b =? 109 then Some (1024 ^ 2)
  else if b =? 103 then Some (1024 ^ 3) else if b =? 116 then Some (1024 ^ 4) else None.
Definition checked_mul (a b : Z) : option Z := if a * b <=? u64_max then Some (a * b) else None.
Definition parse_live_size (v : string) : option Z :=
  let lower := to_ascii_lowercase v in
  let normalized := default lower (strip_suffix "b" lower) in
  let bytes := str_bytes normalized in
  let '(digits, factor) := match last bytes ≫= unit_factor with
                           | Some factor => (removelast bytes, factor)
                           | None => (bytes, 1)
                           end in
  if (length digits =? 0)%nat || negb (forallb is_ascii_digit digits) then None
  else n ← parse_u64 (bytes_str digits); checked_mul n factor.

Record tmpfs_scan : Type := mkTmpfs {
  tm_state : LiveContainerState;
  tm_rw : bool;
  tm_nosuid : bool;
  tm_nodev : bool;
  tm_noexec : bool;
  tm_rprivate : bool;
  tm_copyup : bool;
  tm_size : bool;
}.
Definition WEAKENING : list string :=
  ["ro"; "suid"; "dev"; "exec"; "private"; "shared"; "rshared"; "slave"; "rslave"; "unbindable"; "runbindable";
   "notmpcopyup"]%string.
Definition seen_twice (already : bool) (st : LiveContainerState) : LiveContainerState :=
  if already then merge_live_state st Unknown else st.
Definition size_option (text : string) (expected : Z) : LiveContainerState :=
  match parse_live_size text with
  | Some size => secure_if (size =? expected)
  | None => Unknown
  end.
Definition scan_tmpfs (expected : Z) (s : tmpfs_scan) (option : string) : tmpfs_scan :=
  let '(mkTmpfs st rw ns nd nx rp cu sz) := s in
  if (option =? "rw")%string then mkTmpfs (seen_twice rw st) true ns nd nx rp cu sz
  else if (option =? "nosuid")%string then mkTmpfs (seen_twice ns st) rw true nd nx rp cu sz
  else if (option =? "nodev")%string then mkTmpfs (seen_twice nd st) rw ns true nx rp cu sz
  else if (option =? "noexec")%string then mkTmpfs (seen_twice nx st) rw ns nd true rp cu sz
  else if (option =? "rprivate")%string then mkTmpfs (seen_twice rp st) rw ns nd nx true cu sz
  else if (option =? "tmpcopyup")%string then mkTmpfs (seen_twice cu st) rw ns nd nx rp true sz
  else if str_in option WEAKENING then mkTmpfs (merge_live_state st Unsafe) rw ns nd nx rp cu sz
  else match strip_prefix "size=" option with
       | Some text => mkTmpfs (seen_twice sz (merge_live_state st (size_option text expected))) rw ns nd nx rp cu true
       | None => mkTmpfs (merge_live_state st Unknown) rw ns nd nx rp cu sz
       end.
Definition required_options (backend : string) (s : tmpfs_scan) : bool :=
  tm_rw s && tm_nosuid s && tm_nodev s && tm_noexec s && tm_size s
  && if (backend =? "podman")%string then tm_rprivate s && tm_copyup s
     else negb (tm_rprivate s) && negb (tm_copyup s).
Definition live_tmpfs_options_security (options : string) (expected_size : Z) (backend : string) :
    LiveContainerState :=
  let s := foldl (scan_tmpfs expected_size) (mkTmpfs Secure false false false false false false false)
             (split_char "," options) in
  merge_live_state (tm_state s) (secure_if (required_options backend s)).
Definition live_tmpfs_set_security (observed : map_of) (declared : list (string * Z)) (backend : string) :
    LiveContainerState :=
  if negb (length observed =? length declared)%nat
     || existsb (λ d : string * Z, negb (obj_contains d.1 observed)) declared
  then Unsafe
  else merge_all ((λ d : string * Z,
         match obj_get d.1 observed ≫= as_str with
         | Some options => live_tmpfs_options_security options d.2 backend
         | None => Unknown
         end) <$> declared).

(** ** Identity, network mode and runtime *)

Definition positive_id (s : string) : bool := is_some_and (λ n, 0 <? n) (parse_u64 s).
Definition live_user_is_non_root (user : string) : bool :=
  match split_char ":" user with
  | [uid; gid] => positive_id uid && positive_id gid
  | [uid] => positive_id uid && positive_id EmptyString
  | _ => false
  end.
Definition live_runtime_security (observed : option string) (backend : string) (declared : DeclaredRuntime) :
    LiveContainerState :=
  match observed with
  | None => Unknown
  | Some runtime =>
      if (backend =? "docker")%string then secure_if (runtime =? rt_name declared)%string
      else if (backend =? "podman")%string then
        if (runtime =? rt_name declared)%string || contains_byte 47 runtime then Unknown else Unsafe
      else Unknown
  end.
Definition network_mode (mode : option string) (backend expected_network : string) : LiveContainerState :=
  match mode with
  | None => Unknown
  | Some mode =>
      let none := (expected_network =? "none")%string in
      secure_if (((mode =? "none")%string && none)
                 || ((mode =? "bridge")%string && negb none && (backend =? "podman")%string)
                 || (negb none && (mode =? expected_network)%string))
  end.
Definition live_tmpfs_security (host : map_of) (declared_tmpfs : list (string * Z)) (backend : string) :
    LiveContainerState :=
  match obj_get "Tmpfs" host with
  | Some (Object tmpfs) => live_tmpfs_set_security tmpfs declared_tmpfs backend
  | None | Some Null => Unsafe
  | Some _ => Unknown
  end.

Definition live_observed_security_drift (container : map_of) (backend expected_network : string)
    (declared_mounts : list DeclaredMount) (declared_tmpfs : list (string * Z))
    (declared_live_resources : DeclaredLiveResources) (declared_runtime : option DeclaredRuntime) :
    LiveContainerState :=
  let network_settings := obj_get "NetworkSettings" container ≫= as_object in
  let host := obj_get "HostConfig" container ≫= as_object in
  let st := live_network_attachment_security network_settings backend expected_network in
  let st := merge_live_state st (live_port_bindings_security host network_settings) in
  let st := match host with
            | Some host =>
                merge_live_state (merge_live_state st (live_tmpfs_security host declared_tmpfs backend))
                  (live_resource_limits_security host backend declared_live_resources)
            | None => merge_live_state st Unknown
            end in
  let st := merge_live_state st (live_expected_bool_security (get "Privileged" host) false) in
  let st := merge_live_state st (live_expected_bool_security (get "ReadonlyRootfs" host) true) in
  let st := merge_live_state st (network_mode (get "NetworkMode" host ≫= as_str) backend expected_network) in
  let user := match get "User" (obj_get "Config" container ≫= as_object) ≫= as_str with
              | Some user => secure_if (live_user_is_non_root user)
              | None => Unknown
              end in
  let st := merge_live_state st user in
  let runtime := if (backend =? "podman")%string then obj_get "OCIRuntime" container ≫= as_str
                 else get "Runtime" host ≫= as_str in
  let st := merge_live_state st (match declared_runtime with
                                 | Some declared => live_runtime_security runtime backend declared
                                 | None => Unknown
                                 end) in
  let st := merge_live_state st (live_security_options_security host) in
  let st := merge_live_state st (live_mounts_security (obj_get "Mounts" container) declared_mounts) in
  let st := merge_live_state st (live_capabilities_security container host backend) in
  merge_live_state st (live_apparmor_security container backend).

Definition live_container_security (v : value) (backend expected_network : string)
    (declared_mounts : list DeclaredMount) (declared_tmpfs : list (string * Z))
    (declared_live_resources : DeclaredLiveResources) (declared_runtime : option DeclaredRuntime) :
    LiveContainerState :=
  match v with
  | Array [Object container] =>
      if bool_decide (get "Running" (obj_get "State" container ≫= as_object) ≫= as_bool = Some true) then
        live_observed_security_drift container backend expected_network declared_mounts declared_tmpfs
          declared_live_resources declared_runtime
      else Unknown
  | _ => Unknown
  end.
Definition live_container_security_from_manifest (agent : SecurityAgent) (v : option value) (backend : string)
    (expected_network : option string) : LiveContainerState :=
  match sa_declared_ports_absent agent with
  | Some false => Unsafe
  | Some true =>
      match sa_declared_mounts agent, sa_declared_tmpfs agent, sa_declared_live_resources agent, v, expected_network with
      | Some mounts, Some tmpfs, Some resources, Some v, Some network =>
          live_container_security v backend network mounts tmpfs resources (sa_declared_runtime agent)
      | _, _, _, _, _ => Unknown
      end
  | None => Unknown
  end.

(** ** The broker's network *)

Definition network_keys (backend : string) : string * string * string :=
  if (backend =? "podman")%string then ("name", "internal", "driver")%string
  else ("Name", "Internal", "Driver")%string.
Definition expected_text (v : option value) (expected : string) : LiveContainerState :=
  match v ≫= as_str with
  | Some s => secure_if (s =? expected)%string
  | None => Unknown
  end.
Definition live_broker_network_security (network_value : value) (backend expected_network : string) :
    LiveContainerState :=
  match network_value with
  | Array networks =>
      if (1 <? length networks)%nat then Unsafe
      else match head networks ≫= as_object with
           | None => Unknown
           | Some network =>
               let '(name_key, internal_key, driver_key) := network_keys backend in
               merge_all [expected_text (obj_get name_key network) expected_network;
                          live_expected_bool_security (obj_get internal_key network) true;
                          expected_text (obj_get driver_key network) "bridge"]
           end
  | _ => Unknown
  end.

(** ** Served JSON *)

Fixpoint json_is_nonempty (v : value) : bool :=
  match v with
  | Null => false
  | Bool b => b
  | Number n => match n with PosInt n => negb (n =? 0) | _ => false end
  | Str s => negb (str_is_empty s)
  | Array l => existsb json_is_nonempty l
  | Object m => existsb (λ kv, json_is_nonempty (snd kv)) m
  end.
Fixpoint json_has_truthy_key (needle : string) (v : value) : bool :=
  match v with
  | Array l => existsb (json_has_truthy_key needle) l
  | Object m =>
      existsb (λ kv, (contains_str needle (to_ascii_lowercase (fst kv)) && json_is_nonempty (snd kv))
                     || json_has_truthy_key needle (snd kv)) m
  | _ => false
  end.
(** [split_whitespace]. *)
Definition words (s : string) : list string :=
  of_chars <$> List.filter (λ w, negb (bool_decide (w = [])))
    (foldr (λ c acc, if is_whitespace c then [] :: acc
                     else match acc with w :: acc => (c :: w) :: acc | [] => [[c]] end) [[]] (chars s)).
(** [trim_end_matches('%').parse::<u8>()]. *)
Definition parse_percent (s : string) : option Z :=
  ofilter (λ n, n <=? 255) (parse_u64 (bytes_str (rev (drop_while (Z.eqb 37) (rev (str_bytes s)))))).
Definition parse_disk_percent (text : string) : option Z :=
  line ← lines text !! 1%nat; w ← words line !! 4%nat; parse_percent w.
