(* ===== verification/Descriptor.v ===== *)
(** * The two documents compiled into the command line

    [schema/system-v1.json], which the command line, the Nix compiler and the
    documentation share, and [adapters/catalog.json], as the values that
    [serde_json::from_str] gives for the embedded texts (objects in key order). *)

From S2P Require Import Prelude RustStr Json.
Local Open Scope string_scope.

(** [schema/system-v1.json]: a section per top-level table, and the agent. *)
Definition board_section : value := Object [("enable", Object [("type", Str "disabled")])].
Definition connectors_section : value := Object [
    ("advisory", Object [
      ("path", Array [Str "tentaflake"; Str "integrations"; Str "advisory"; Str "enable"]);
      ("type", Str "bool")]);
    ("configFile", Object [
      ("path", Array [Str "tentaflake"; Str "integrations"; Str "configFile"]);
      ("type", Str "runtimePath")]);
    ("enable", Object [
      ("path", Array [Str "tentaflake"; Str "integrations"; Str "enable"]);
      ("type", Str "bool")])].
Definition container_section : value := Object [
    ("backend", Object [
      ("path", Array [Str "tentaflake"; Str "containerBackend"]);
      ("type", Str "enum");
      ("values", Array [Str "docker"; Str "podman"])])].
Definition hostApi_section : value := Object [
    ("allowActions", Object [
      ("path", Array [Str "tentaflake"; Str "hostApi"; Str "allowActions"]);
      ("type", Str "bool")]);
    ("allowLogs", Object [
      ("path", Array [Str "tentaflake"; Str "hostApi"; Str "allowLogs"]);
      ("type", Str "bool")]);
    ("allowToolDecisions", Object [
      ("path", Array [Str "tentaflake"; Str "hostApi"; Str "allowToolDecisions"]);
      ("type", Str "bool")]);
    ("allowToolRequests", Object [
      ("path", Array [Str "tentaflake"; Str "hostApi"; Str "allowToolRequests"]);
      ("type", Str "bool")]);
    ("enable", Object [("path", Array [Str "tentaflake"; Str "hostApi"; Str "enable"]); ("type", Str "bool")]);
    ("peers", Object [
      ("items", Object [
        ("fields", Object [
          ("agents", Object [
            ("items", Object [("type", Str "agentId")]);
            ("max", Number (PosInt 128));
            ("type", Str "list");
            ("unique", Bool true)]);
          ("permissions", Object [
            ("items", Object [
              ("type", Str "enum");
              ("values", Array [Str "read"; Str "actions"; Str "logs"; Str "propose"; Str "tool_requests"; Str "tool_decisions"; Str "host_health"; Str "run_read"; Str "run_submit"; Str "run_stop"])]);
            ("max", Number (PosInt 10));
            ("type", Str "list");
            ("unique", Bool true)]);
          ("uid", Object [("type", Str "owner")])]);
        ("required", Array [Str "uid"; Str "agents"; Str "permissions"]);
        ("type", Str "object")]);
      ("max", Number (PosInt 64));
      ("path", Array [Str "tentaflake"; Str "hostApi"; Str "peers"]);
      ("type", Str "list");
      ("uniqueBy", Str "uid")])].
Definition llm_section : value := Object [("enable", Object [("type", Str "disabled")])].
Definition monitoring_section : value := Object [("enable", Object [("type", Str "disabled")])].
Definition network_section : value := Object [
    ("managementEnable", Object [
      ("path", Array [Str "tentaflake"; Str "management"; Str "enable"]);
      ("type", Str "bool")]);
    ("sshPolicy", Object [
      ("path", Array [Str "tentaflake"; Str "management"; Str "ssh"; Str "policy"]);
      ("type", Str "enum");
      ("values", Array [Str "tailnet-policy"; Str "disabled"])]);
    ("transport", Object [
      ("path", Array [Str "tentaflake"; Str "management"; Str "transport"]);
      ("type", Str "enum");
      ("values", Array [Str "tailscale"])])].
Definition research_section : value := Object [
    ("agents", Object [
      ("items", Object [
        ("fields", Object [("uid", Object [("type", Str "owner")])]);
        ("required", Array [Str "uid"]);
        ("type", Str "object")]);
      ("keys", Object [("type", Str "agentId")]);
      ("max", Number (PosInt 128));
      ("path", Array [Str "tentaflake"; Str "research"; Str "agents"]);
      ("type", Str "map")]);
    ("enable", Object [
      ("enabledPath", Array [Str "services"; Str "secureResearch"; Str "enable"]);
      ("type", Str "bool")])].
Definition sandbox_section : value := Object [
    ("profile", Object [
      ("path", Array [Str "tentaflake"; Str "security"; Str "profile"]);
      ("type", Str "enum");
      ("values", Array [Str "dev"; Str "balanced"; Str "strict"])])].
Definition securityObserver_section : value := Object [("enable", Object [("type", Str "disabled")])].
Definition shell_section : value := Object [
    ("enable", Object [("path", Array [Str "tentaflake"; Str "shell"; Str "enable"]); ("type", Str "bool")]);
    ("motd", Object [
      ("path", Array [Str "tentaflake"; Str "shell"; Str "motd"; Str "enable"]);
      ("type", Str "bool")]);
    ("starship", Object [
      ("path", Array [Str "tentaflake"; Str "shell"; Str "starship"; Str "enable"]);
      ("type", Str "bool")]);
    ("tools", Object [
      ("path", Array [Str "tentaflake"; Str "shell"; Str "tools"; Str "enable"]);
      ("type", Str "bool")])].
Definition storage_section : value := Object [
    ("enable", Object [
      ("enabledPath", Array [Str "tentaflake"; Str "backup"; Str "enable"]);
      ("type", Str "bool")]);
    ("environmentFile", Object [
      ("path", Array [Str "tentaflake"; Str "backup"; Str "environmentFile"]);
      ("type", Str "runtimePath")]);
    ("passwordFile", Object [
      ("path", Array [Str "tentaflake"; Str "backup"; Str "passwordFile"]);
      ("type", Str "runtimePath")]);
    ("paths", Object [
      ("items", Object [
        ("excludedRoots", Array [Str "/var/lib/docker"; Str "/var/lib/containers"]);
        ("type", Str "backupPath")]);
      ("max", Number (PosInt 128));
      ("path", Array [Str "tentaflake"; Str "backup"; Str "paths"]);
      ("type", Str "list");
      ("unique", Bool true)]);
    ("repositoryFile", Object [
      ("path", Array [Str "tentaflake"; Str "backup"; Str "repositoryFile"]);
      ("type", Str "runtimePath")])].
Definition system_section : value := Object [
    ("consoleKeyMap", Object [("path", Array [Str "tentaflake"; Str "consoleKeyMap"]); ("type", Str "token")]);
    ("defaultLocale", Object [("path", Array [Str "tentaflake"; Str "defaultLocale"]); ("type", Str "token")]);
    ("hostName", Object [("path", Array [Str "tentaflake"; Str "hostName"]); ("type", Str "hostName")]);
    ("stateVersion", Object [("path", Array [Str "tentaflake"; Str "stateVersion"]); ("type", Str "token")]);
    ("timeZone", Object [("path", Array [Str "tentaflake"; Str "timeZone"]); ("type", Str "token")])].
Definition ui_section : value := Object [("enable", Object [("type", Str "disabled")])].
Definition workloadMapping_section : value := Object [
    ("bindings", Object [
      ("items", Object [
        ("fields", Object [
          ("policy_revision", Object [("type", Str "exactId")]);
          ("tenant_id", Object [("type", Str "exactId")]);
          ("workload_id", Object [("type", Str "exactId")])]);
        ("required", Array [Str "tenant_id"; Str "workload_id"; Str "policy_revision"]);
        ("type", Str "object")]);
      ("keys", Object [("type", Str "agentId")]);
      ("max", Number (PosInt 64));
      ("path", Array [Str "tentaflake"; Str "workloadMapping"; Str "bindings"]);
      ("type", Str "map")]);
    ("enable", Object [
      ("path", Array [Str "tentaflake"; Str "workloadMapping"; Str "enable"]);
      ("type", Str "bool")])].
Definition agent_fields : value := Object [
    ("adapter", Object [
      ("type", Str "enum");
      ("values", Array [Str "hermes"; Str "zeroclaw"; Str "pi-durable"; Str "openclaw"; Str "generic"])]);
    ("autoStart", Object [
      ("adapters", Array [Str "hermes"; Str "zeroclaw"; Str "pi-durable"; Str "openclaw"]);
      ("type", Str "bool")]);
    ("containerGid", Object [("adapters", Array [Str "hermes"]); ("type", Str "uint")]);
    ("containerUid", Object [("adapters", Array [Str "hermes"]); ("type", Str "uint")]);
    ("definition", Object [
      ("adapters", Array [Str "generic"]);
      ("fields", Object [
        ("capabilities", Object [
          ("type", Str "capabilities");
          ("values", Array [Str "files"; Str "shell"; Str "terminal"; Str "worker"])]);
        ("command", Object [("type", Str "command")]);
        ("image", Object [("type", Str "pinnedImage")]);
        ("lifecycle", Object [("type", Str "enum"); ("values", Array [Str "stopped"; Str "service"])]);
        ("ownership", Object [
          ("fields", Object [("gid", Object [("type", Str "owner")]); ("uid", Object [("type", Str "owner")])]);
          ("required", Array [Str "uid"; Str "gid"]);
          ("type", Str "object")]);
        ("resources", Object [
          ("fields", Object [
            ("cpus", Object [("type", Str "cpus")]);
            ("memory", Object [("type", Str "size")]);
            ("memorySwap", Object [("type", Str "size")]);
            ("nofile", Object [("type", Str "owner")]);
            ("pidsLimit", Object [("type", Str "owner")]);
            ("runTmpfsSize", Object [("type", Str "size")]);
            ("tmpfsSize", Object [("type", Str "size")])]);
          ("type", Str "object")]);
        ("schemaVersion", Object [("type", Str "version")]);
        ("workspace", Object [("type", Str "workspacePath")])]);
      ("required", Array [Str "schemaVersion"; Str "image"; Str "command"]);
      ("type", Str "runtimeDefinition")]);
    ("gid", Object [("adapters", Array [Str "hermes"]); ("type", Str "uint")]);
    ("group", Object [("adapters", Array [Str "hermes"]); ("type", Str "name")]);
    ("name", Object [("type", Str "name")]);
    ("stateDir", Object [
      ("adapters", Array [Str "hermes"; Str "zeroclaw"; Str "pi-durable"; Str "openclaw"]);
      ("excludedRoots", Array [Str "/var/lib/docker"; Str "/var/lib/containers"]);
      ("type", Str "statePath")]);
    ("uid", Object [("adapters", Array [Str "hermes"]); ("type", Str "uint")]);
    ("user", Object [("adapters", Array [Str "hermes"]); ("type", Str "name")])].
Definition DESCRIPTOR : value := Object [
  ("agent", agent_fields);
  ("schemaVersion", Number (PosInt 1));
  ("sections", Object [
    ("board", board_section);
    ("connectors", connectors_section);
    ("container", container_section);
    ("hostApi", hostApi_section);
    ("llm", llm_section);
    ("monitoring", monitoring_section);
    ("network", network_section);
    ("research", research_section);
    ("sandbox", sandbox_section);
    ("securityObserver", securityObserver_section);
    ("shell", shell_section);
    ("storage", storage_section);
    ("system", system_section);
    ("ui", ui_section);
    ("workloadMapping", workloadMapping_section)]);
  ("stoppedAdapters", Array [Str "pi-durable"; Str "openclaw"])].

(** [adapters/catalog.json]. *)
Definition generic_preset : value := Object [
    ("artifact", Object [("kind", Str "instance"); ("reference", Null); ("reviewed", Bool false)]);
    ("capabilities", Array [Str "files"; Str "shell"; Str "terminal"; Str "worker"]);
    ("command", Array []);
    ("configuration", Object [("format", Str "none"); ("readOnly", Bool true)]);
    ("evidence", Object [("fixture", Str "source-regression"); ("vendorAcceptance", Str "operator-owned")]);
    ("execution", Object [("automatic", Bool false); ("interface", Str "worker-queue-v1")]);
    ("identity", Object [("id", Str "generic"); ("status", Str "definition"); ("version", Str "1")]);
    ("layout", Object [
      ("directories", Array []);
      ("state", Str "/var/lib/tentaflake/agents/<name>");
      ("workspace", Str "workspace");
      ("writable", Array [Str "state"; Str "workspace"])]);
    ("lifecycle", Str "service");
    ("model", Object [("protocols", Array []); ("streaming", Str "unknown")]);
    ("ownership", Object [("gid", Number (PosInt 10000)); ("uid", Number (PosInt 10000))]);
    ("research", Object [("supported", Bool false)]);
    ("schemaVersion", Number (PosInt 1))].
Definition hermes_preset : value := Object [
    ("artifact", Object [
      ("kind", Str "oci");
      ("reference", Str "docker.io/nousresearch/hermes-agent@sha256:4a2f23bd3ffaa6ee7b3be8a302a38be43ab0321a2988cd3fb16b7dd472dde812");
      ("reviewed", Bool true);
      ("source", Str "docker.io/nousresearch/hermes-agent:latest")]);
    ("capabilities", Array [Str "files"; Str "shell"; Str "terminal"; Str "worker"; Str "model"; Str "research"]);
    ("command", Array [Str "gateway"; Str "run"; Str "--replace"]);
    ("configuration", Object [("format", Str "yaml"); ("readOnly", Bool true)]);
    ("evidence", Object [("fixture", Str "source-regression"); ("vendorAcceptance", Str "pending")]);
    ("execution", Object [("automatic", Bool false); ("interface", Str "worker-queue-v1")]);
    ("identity", Object [
      ("id", Str "hermes");
      ("status", Str "compatibility");
      ("version", Str "image-snapshot-2026-07-18")]);
    ("layout", Object [
      ("directories", Array [Str "workspace"; Str "skills"; Str "cron"]);
      ("state", Str "/var/lib/tentaflake/agents/<name>");
      ("workspace", Str "workspace");
      ("writable", Array [Str "state"; Str "workspace"])]);
    ("lifecycle", Str "service");
    ("model", Object [("protocols", Array [Str "openai-chat-completions"]); ("streaming", Str "unknown")]);
    ("ownership", Object [("gid", Number (PosInt 10000)); ("uid", Number (PosInt 10000))]);
    ("research", Object [("supported", Bool true)]);
    ("schemaVersion", Number (PosInt 1))].
Definition openclaw_preset : value := Object [
    ("artifact", Object [("kind", Str "unselected"); ("reference", Null); ("reviewed", Bool false)]);
    ("capabilities", Array [Str "files"; Str "shell"; Str "terminal"; Str "worker"]);
    ("command", Array [Str "node"; Str "openclaw.mjs"; Str "gateway"]);
    ("configuration", Object [("format", Str "json"); ("readOnly", Bool true)]);
    ("evidence", Object [("fixture", Str "refusal-regression"); ("vendorAcceptance", Str "pending")]);
    ("execution", Object [("automatic", Bool false); ("interface", Str "unverified")]);
    ("identity", Object [("id", Str "openclaw"); ("status", Str "scaffold"); ("version", Str "2026.9.7")]);
    ("layout", Object [
      ("directories", Array [Str "workspace"]);
      ("state", Str "/var/lib/tentaflake/agents/<name>");
      ("workspace", Str "workspace");
      ("writable", Array [Str "state"; Str "workspace"])]);
    ("lifecycle", Str "stopped-scaffold");
    ("model", Object [
      ("protocols", Array [Str "openai-chat-completions"; Str "openai-responses"]);
      ("streaming", Str "required")]);
    ("ownership", Object [("gid", Number (PosInt 1000)); ("uid", Number (PosInt 1000))]);
    ("research", Object [("supported", Bool false)]);
    ("schemaVersion", Number (PosInt 1))].
Definition pi_durable_preset : value := Object [
    ("artifact", Object [("kind", Str "unselected"); ("reference", Null); ("reviewed", Bool false)]);
    ("capabilities", Array []);
    ("command", Array []);
    ("configuration", Object [("format", Str "none"); ("readOnly", Bool true)]);
    ("evidence", Object [("fixture", Str "refusal-regression"); ("vendorAcceptance", Str "pending")]);
    ("execution", Object [("automatic", Bool false); ("interface", Str "unverified")]);
    ("identity", Object [("id", Str "pi-durable"); ("status", Str "scaffold"); ("version", Str "1.4.0")]);
    ("layout", Object [
      ("directories", Array []);
      ("state", Str "/var/lib/tentaflake/agents/<name>");
      ("workspace", Str "workspace");
      ("writable", Array [])]);
    ("lifecycle", Str "stopped-scaffold");
    ("model", Object [("protocols", Array []); ("streaming", Str "unknown")]);
    ("ownership", Object [("gid", Number (PosInt 10100)); ("uid", Number (PosInt 10100))]);
    ("research", Object [("supported", Bool true)]);
    ("schemaVersion", Number (PosInt 1))].
Definition zeroclaw_preset : value := Object [
    ("artifact", Object [
      ("kind", Str "oci");
      ("reference", Str "ghcr.io/zeroclaw-labs/zeroclaw@sha256:eae321dac2d314bc282bdfb28b5378c9d527998f7e2fe0dee8315bfdcdf13a0c");
      ("reviewed", Bool true);
      ("source", Str "ghcr.io/zeroclaw-labs/zeroclaw:v0.8.2")]);
    ("capabilities", Array [Str "files"; Str "shell"; Str "terminal"; Str "worker"; Str "model"; Str "research"]);
    ("command", Array [Str "daemon"]);
    ("configuration", Object [("format", Str "toml"); ("readOnly", Bool true)]);
    ("evidence", Object [("fixture", Str "source-regression"); ("vendorAcceptance", Str "pending")]);
    ("execution", Object [("automatic", Bool false); ("interface", Str "worker-queue-v1")]);
    ("identity", Object [("id", Str "zeroclaw"); ("status", Str "compatibility"); ("version", Str "0.8.2")]);
    ("layout", Object [
      ("directories", Array [Str ".zeroclaw"; Str ".zeroclaw/data"; Str "data"]);
      ("state", Str "/var/lib/tentaflake/agents/<name>");
      ("workspace", Str "data");
      ("writable", Array [Str "state"; Str "workspace"])]);
    ("lifecycle", Str "service");
    ("model", Object [("protocols", Array [Str "openai-chat-completions"]); ("streaming", Str "unknown")]);
    ("ownership", Object [("gid", Number (PosInt 65534)); ("uid", Number (PosInt 65534))]);
    ("research", Object [("supported", Bool true)]);
    ("schemaVersion", Number (PosInt 1))].
Definition CATALOG : value := Object [
  ("presets", Object [
    ("generic", generic_preset);
    ("hermes", hermes_preset);
    ("openclaw", openclaw_preset);
    ("pi-durable", pi_durable_preset);
    ("zeroclaw", zeroclaw_preset)]);
  ("schemaVersion", Number (PosInt 1))].
