(* ===== verification/CliHost.v ===== *)
(** * What the command line runs on: [crates/tentaflake-cli]

    Outcomes of its functions ([fault]: an error message, a panic, or the process
    image that replaces it), and its state [cli]: the file system, what it has
    printed, the programs it has started, and the script of what they deliver. *)

From S2P Require Import Prelude RustStr Posix Budget PrivateStore Policy.

(** ** Outcomes *)

Inductive fault : Type :=
| Fail (message : string)
| Panic
| Replaced (argv : list string).          (* [Command::exec] succeeded *)
Definition unwrap {A} (o : option A) : result fault A := ok_or Panic o.
Definition refuse_if (b : bool) (message : string) : result fault unit := bail_if b (Fail message).
(** [v[1..]]. *)
Definition slice_from_1 {A} (l : list A) : result fault (list A) :=
  match l with [] => Err Panic | _ :: l => Ok l end.

(** A boolean expression whose evaluation may panic ([None]). *)
Definition check : Type := option bool.
Definition both (a b : check) : check :=
  match a with Some true => b | _ => a end.
Definition either (a b : check) : check :=
  match a with Some false => b | _ => a end.
Fixpoint all_checks (l : list check) : check :=
  match l with [] => Some true | c :: l => both c (all_checks l) end.
Fixpoint any_checks (l : list check) : check :=
  match l with [] => Some false | c :: l => either c (any_checks l) end.
Definition not_check (c : check) : check := negb <$> c.
Definition unless (c : check) (message : string) : result fault unit :=
  match c with Some true => Ok tt | Some false => Err (Fail message) | None => Err Panic end.
Definition refuse_when (c : check) (message : string) : result fault unit :=
  unless (not_check c) message.

Lemma both_true a b : both a b = Some true ↔ a = Some true ∧ b = Some true.
Proof. destruct a as [[]|]; naive_solver. Qed.
Lemma both_defined a b : a ≠ None → (a = Some true → b ≠ None) → both a b ≠ None.
Proof. destruct a as [[]|]; naive_solver. Qed.
Lemma either_false a b : either a b = Some false ↔ a = Some false ∧ b = Some false.
Proof. destruct a as [[]|]; naive_solver. Qed.
Lemma either_defined a b : a ≠ None → (a = Some false → b ≠ None) → either a b ≠ None.
Proof. destruct a as [[]|]; naive_solver. Qed.
Lemma all_checks_true l : all_checks l = Some true ↔ Forall (λ c, c = Some true) l.
Proof.
  induction l as [|c l IH]; simpl; [split; constructor|].
  by rewrite both_true, IH, Forall_cons.
Qed.
Lemma all_checks_defined l : Forall (λ c, c ≠ None) l → all_checks l ≠ None.
Proof. induction 1; simpl; [done|]. by apply both_defined. Qed.
Lemma any_checks_false l : any_checks l = Some false ↔ Forall (λ c, c = Some false) l.
Proof.
  induction l as [|c l IH]; simpl; [split; constructor|].
  by rewrite either_false, IH, Forall_cons.
Qed.
Lemma any_checks_defined l : Forall (λ c, c ≠ None) l → any_checks l ≠ None.
Proof. induction 1; simpl; [done|]. by apply either_defined. Qed.
Lemma unless_Ok c e u : unless c e = Ok u ↔ c = Some true.
Proof. destruct c as [[]|], u; naive_solver. Qed.
Lemma refuse_when_Ok c e u : refuse_when c e = Ok u ↔ c = Some false.
Proof. unfold refuse_when. rewrite unless_Ok. destruct c as [[]|]; naive_solver. Qed.

(** ** Programs *)

(** [Output] of a finished child: [status.code()] ([None]: killed by a signal). *)
Record outcome : Type := mkOutcome { o_code : option Z; o_stdout : bytes; o_stderr : bytes }.
Definition o_success (o : outcome) : bool :=
  match o_code o with Some c => c =? 0 | None => false end.

(** One turn of the loop of [output_with_timeout]: the clock, what the reads of
    each stream return (at most eight per turn are made), and [try_wait]. *)
Inductive stream_read : Type := SData (b : bytes) | SWouldBlock | SInterrupted | SError (e : string).
Record turn : Type := mkTurn {
  t_now : Z;                                (* [Instant::now()], in milliseconds *)
  t_out : list stream_read;
  t_err : list stream_read;
  t_wait : result string (option (option Z)); (* the error, or [Some status] when it exited *)
}.
Record inspection : Type := mkInspection {
  n_start : Z;
  n_pipes : result string unit;             (* [inspection_stream], twice; an error names its stream *)
  n_spawn : result string unit;
  n_turns : list turn;
}.

(** The health probe of one endpoint: whether [connect_timeout] succeeds, the
    timeouts are set and the request is written, and what is read to the end. *)
Record probe : Type := mkProbe {
  pb_connects : bool;
  pb_timeouts : bool;
  pb_writes : bool;
  pb_response : option bytes;
}.

Inductive printed : Type := Out (s : string) | ErrOut (s : string).
Record environment : Type := mkEnvironment {
  e_config : option string;                 (* [TENTAFLAKE_CONFIG] *)
  e_color : bool;                           (* a terminal, and no [NO_COLOR] *)
  e_cwd : string;
  e_temp : string;                          (* [env::temp_dir()] *)
  e_pid : Z;
  e_backup_age : option Z;                  (* seconds since the backup stamp was modified *)
}.
Record cli : Type := mkCli {
  c_world : world;
  c_env : environment;
  c_printed : list printed;                 (* in order *)
  c_ran : list (list string);               (* programs started, with their arguments, in order *)
  c_outcomes : list (result string outcome);  (* what the next [output] or [status] returns *)
  c_inspections : list inspection;          (* what the next [output_with_timeout] meets *)
  c_probes : list probe;                    (* what the next health probe meets *)
  c_sent : list (SocketAddr * string);      (* requests of the probes *)
  c_exec : option string;                   (* why [exec] fails, if it does *)
  c_answers : list (result string string);  (* lines of standard input *)
}.
Definition set_world f (c : cli) : cli :=
  mkCli (f (c_world c)) (c_env c) (c_printed c) (c_ran c) (c_outcomes c) (c_inspections c) (c_probes c) (c_sent c) (c_exec c) (c_answers c).
Definition set_printed f (c : cli) : cli :=
  mkCli (c_world c) (c_env c) (f (c_printed c)) (c_ran c) (c_outcomes c) (c_inspections c) (c_probes c) (c_sent c) (c_exec c) (c_answers c).
Definition set_ran f (c : cli) : cli :=
  mkCli (c_world c) (c_env c) (c_printed c) (f (c_ran c)) (c_outcomes c) (c_inspections c) (c_probes c) (c_sent c) (c_exec c) (c_answers c).
Definition set_outcomes f (c : cli) : cli :=
  mkCli (c_world c) (c_env c) (c_printed c) (c_ran c) (f (c_outcomes c)) (c_inspections c) (c_probes c) (c_sent c) (c_exec c) (c_answers c).
Definition set_inspections f (c : cli) : cli :=
  mkCli (c_world c) (c_env c) (c_printed c) (c_ran c) (c_outcomes c) (f (c_inspections c)) (c_probes c) (c_sent c) (c_exec c) (c_answers c).
Definition set_probes f (c : cli) : cli :=
  mkCli (c_world c) (c_env c) (c_printed c) (c_ran c) (c_outcomes c) (c_inspections c) (f (c_probes c)) (c_sent c) (c_exec c) (c_answers c).
Definition set_sent f (c : cli) : cli :=
  mkCli (c_world c) (c_env c) (c_printed c) (c_ran c) (c_outcomes c) (c_inspections c) (c_probes c) (f (c_sent c)) (c_exec c) (c_answers c).
Definition set_answers f (c : cli) : cli :=
  mkCli (c_world c) (c_env c) (c_printed c) (c_ran c) (c_outcomes c) (c_inspections c) (c_probes c) (c_sent c) (c_exec c) (f (c_answers c)).

Abbreviation Cli := (M cli fault).

(** ** Paths

    The name space holds absolute paths without [.] and repeated slashes. *)
Definition resolve (cwd p : string) : string :=
  canonical (components (if starts_with "/" p then p else cwd ++ "/" ++ p)%string).
(** [Path::join] with one component. *)
Definition path_join (dir name : string) : string :=
  if str_is_empty dir then name else (dir ++ "/" ++ name)%string.
(** [Path::parent], [file_name] and [extension] of a path that ends in a name. *)
Definition path_parent_dir (p : string) : option string :=
  let d := removelast (components p) in
  if bool_decide (components p = []) then None
  else Some (if starts_with "/" p then ("/" ++ join "/" d)%string else join "/" d).
Definition path_file_name (p : string) : option string :=
  match last (components p) with
  | Some n => if (n =? "..")%string then None else Some n
  | None => None
  end.
Definition path_extension (p : string) : option string :=
  n ← path_file_name p;
  match rsplit_once "." n with
  | Some (stem, e) => if str_is_empty stem then None else Some e
  | None => None
  end.

(** A system call whose error becomes a message. *)
Definition fs {A} (message : io_error → string) (m : Sys A) : Cli A :=
  zoom c_world (λ w, set_world (λ _, w)) (map_err (λ e, Fail (message e)) m).
(** The same, for a function of the file system that has messages of its own. *)
Definition in_world {A} (m : M world fault A) : Cli A := zoom c_world (λ w, set_world (λ _, w)) m.
Definition print (s : string) : Cli unit := modify (set_printed (λ l, l ++ [Out s])).
Definition newline : string := bytes_str [10].
Definition println (s : string) : Cli unit := print (s ++ newline)%string.
Definition eprintln (s : string) : Cli unit := modify (set_printed (λ l, l ++ [ErrOut (s ++ newline)%string])).
Definition started (argv : list string) : Cli unit := modify (set_ran (λ l, l ++ [argv])).

(** [Command::output], [Command::status]: an exhausted script cannot start a program. *)
Definition command_output (argv : list string) : Cli (result string outcome) := λ c,
  match c_outcomes c with
  | [] => (Ok (Err EmptyString), set_ran (λ l, l ++ [argv]) c)
  | r :: rest => (Ok r, set_outcomes (λ _, rest) (set_ran (λ l, l ++ [argv]) c))
  end.
(** [Command::exec]: only an error returns. *)
Definition command_exec (argv : list string) : Cli string := λ c,
  match c_exec c with
  | Some e => (Ok e, set_ran (λ l, l ++ [argv]) c)
  | None => (Err (Replaced argv), set_ran (λ l, l ++ [argv]) c)
  end.
Definition read_line : Cli (result string string) := λ c,
  match c_answers c with
  | [] => (Ok (Ok EmptyString), c)
  | r :: rest => (Ok r, set_answers (λ _, rest) c)
  end.

(** The command line's display of an I/O error. *)
Class Display : Type := { io_display : io_error → string; utf8_display : string }.

(** * Facts: what a step leaves alone *)

(** The same files and environment; what was printed and started may differ. *)
Record same_cli (c c' : cli) : Prop := {
  sc_fs : same_fs (c_world c) (c_world c');
  sc_env : c_env c' = c_env c;
}.
#[export] Instance same_cli_refl : Reflexive same_cli.
Proof. intros c. by split. Qed.
#[export] Instance same_cli_trans : Transitive same_cli.
Proof. intros a b c [] []. split; [by etrans|congruence]. Qed.
Lemma same_cli_world c w : same_fs (c_world c) w → same_cli c (set_world (λ _, w) c).
Proof. by split. Qed.

(** A step that only reads, prints or starts programs. *)
Definition reads {A} (m : Cli A) (Q : cli → A → Prop) : Prop :=
  ∀ c, wp m (λ a c', same_cli c c' ∧ Q c a) (λ _ c', same_cli c c') c.

Lemma reads_mono {A} (m : Cli A) (Q Q' : cli → A → Prop) :
  reads m Q → (∀ c a, Q c a → Q' c a) → reads m Q'.
Proof. intros Hm HQ c. eapply wp_mono; [apply Hm| |]; naive_solver. Qed.
Lemma reads_any {A} (m : Cli A) Q : reads m Q → reads m (λ _ _, True).
Proof. intros Hm. by eapply reads_mono. Qed.
Lemma reads_ret {A} (a : A) : reads (mret a) (λ _ x, x = a).
Proof. intros c. by apply wp_ret. Qed.
Lemma reads_fail {A} e : reads (A := A) (fail e) (λ _ _, True).
Proof. intros c. by apply wp_fail. Qed.
Lemma reads_lift {A} (r : result fault A) : reads (lift r) (λ _ a, r = Ok a).
Proof. intros c. apply wp_lift; by intros. Qed.
Lemma reads_throw_if b e : reads (throw_if b e) (λ _ _, b = false).
Proof. intros c. apply wp_throw_if; by intros. Qed.
Lemma reads_gets {A} (f : cli → A) : reads (gets f) (λ c a, a = f c).
Proof. intros c. by apply wp_gets. Qed.
Lemma reads_print s : reads (print s) (λ _ _, True).
Proof. intros c. by apply wp_modify. Qed.
Lemma reads_println s : reads (println s) (λ _ _, True).
Proof. apply reads_print. Qed.
Lemma reads_eprintln s : reads (eprintln s) (λ _ _, True).
Proof. intros c. by apply wp_modify. Qed.
Lemma reads_fs {A} message (m : Sys A) Q : reader m Q → reads (fs message m) (λ c a, Q (c_world c) a).
Proof.
  intros Hm c. apply wp_zoom, wp_map_err. eapply wp_mono; [apply Hm| |].
  - intros a w [S HQ]. split; [by apply same_cli_world|done].
  - intros e w S. by apply same_cli_world.
Qed.
Lemma reads_bind {A B} (m : Cli A) (k : A → Cli B) Q Q' :
  reads m Q → (∀ a, reads (k a) Q') → reads (m ≫= k) (λ _ _, True).
Proof.
  intros Hm Hk c. apply wp_bind. eapply wp_mono; [apply Hm| |done].
  intros a c' [S _]. eapply wp_mono; [apply Hk| |].
  - intros b c'' [S' _]. split; [by etrans|done].
  - intros e c'' S'. by etrans.
Qed.
(** [reads] through a statement whose result is used. *)
Lemma wp_reads {A B} (m : Cli A) (k : A → Cli B) Q R X c :
  reads m Q → (∀ c', same_cli c c' → ∀ e, X e c') →
  (∀ a c', same_cli c c' → Q c a → wp (k a) R X c') → wp (m ≫= k) R X c.
Proof.
  intros Hm HX Hk. apply wp_bind. eapply wp_mono; [apply Hm| |]; [|auto].
  intros a c' [S HQ]. by apply Hk.
Qed.
Lemma reads_command argv : reads (command_output argv) (λ _ _, True).
Proof. intros c. unfold command_output. apply run_wp. by destruct (c_outcomes c). Qed.
Lemma reads_exec argv : reads (command_exec argv) (λ _ _, True).
Proof. intros c. unfold command_exec. apply run_wp. by destruct (c_exec c). Qed.
Lemma reads_line : reads read_line (λ _ _, True).
Proof. intros c. unfold read_line. apply run_wp. by destruct (c_answers c). Qed.

(** Keeping one file, over the command line's state. *)
Definition spares (p : string) (c c' : cli) : Prop := keeps p (c_world c) (c_world c') ∧ c_env c' = c_env c.
Lemma spares_trans p a b c : spares p a b → spares p b c → spares p a c.
Proof. intros [? ?] [? ?]. split; [by eapply keeps_trans|congruence]. Qed.
Lemma same_cli_spares p c c' : wf (c_world c) → same_cli c c' → spares p c c'.
Proof. intros Hwf []. split; [by apply same_fs_keeps|done]. Qed.
Lemma spares_same p a b c : spares p a b → same_cli b c → spares p a c.
Proof. intros S H. eapply spares_trans; [exact S|]. apply same_cli_spares; [apply S|done]. Qed.
Lemma same_cli_wf c c' : same_cli c c' → wf (c_world c) → wf (c_world c').
Proof. intros [S _] Hwf. by rewrite <-S. Qed.
Lemma keeps_close p f w : wf w → keeps p w (close f w).
Proof. by split. Qed.
Lemma placed_close m f w p d : placed m w p d → placed m (close f w) p d.
Proof. done. Qed.
