(* ===== verification/Desired.v ===== *)
(** * The desired system: [crates/tentaflake-cli/src/desired_system.rs]

    The validator of a configuration against the descriptor of [Descriptor], the
    TOML and JSON readers around it, and the [config] command.  A Rust [unwrap]
    that fails is [None] in a [check] and [Panic] in a function; [DesiredFacts]
    shows that none happens.  The TOML library is the class [TomlEdit]. *)

From S2P Require Import Prelude RustStr Json Posix Activity ControlData CliHost Descriptor.

(** ** Words *)

Definition MAX_INPUT : Z := 1024 * 1024.
Definition first_byte (p : Z → bool) (s : string) : bool :=
  match str_bytes s with b :: _ => p b | [] => false end.
Definition name_byte (c : Z) : bool := is_ascii_lowercase c || is_ascii_digit c || (c =? 45).
Definition name (value : string) : bool :=
  negb (str_is_empty value) && first_byte is_ascii_alphanumeric value && all_bytes name_byte value.
Definition agent_id (value : string) : bool :=
  is_some_and (λ id, name id && (str_len id <=? 57)) (strip_prefix "agent-" value).
Definition unwrap_or_self (o : option string) (s : string) : string := default s o.
Definition canonical_backup_path (value : string) : bool :=
  match strip_prefix "/var/lib/tentaflake/agents/" value with
  | Some suffix =>
      let suffix := unwrap_or_self (strip_suffix "/workspace" suffix) suffix in
      name suffix && (str_len suffix <=? 57)
  | None =>
      match strip_prefix "/var/lib/tentaflake-broker-llm-agent-" value with
      | Some suffix => name suffix && (str_len suffix <=? 57)
      | None => false
      end
  end.
Definition positive_decimal (value : string) : bool :=
  first_byte (in_range 49 57) value && all_bytes is_ascii_digit value.
(** [split_once] with a string. *)
Fixpoint split_once_str (p s : string) : option (string * string) :=
  match strip_prefix p s with
  | Some rest => Some (EmptyString, rest)
  | None => match s with
            | EmptyString => None
            | String a s => (λ '(x, y), (String a x, y)) <$> split_once_str p s
            end
  end.
Definition hex_lower (c : Z) : bool := is_ascii_digit c || in_range 97 102 c.
Definition pinned_image (value : string) : bool :=
  match split_once_str "@sha256:" value with
  | None => false
  | Some (repository, digest) =>
      first_byte is_ascii_alphanumeric repository
      && all_bytes (λ c, is_ascii_alphanumeric c || byte_in "._/:-" c) repository
      && negb (contains_byte 58 (List.last (split_char "/" repository) EmptyString))
      && (str_len digest =? 64) && all_bytes hex_lower digest
  end.

(** ** [matches_type] *)

Definition i64_max : Z := 9223372036854775807.
Definition word_byte (c : Z) : bool := is_ascii_alphanumeric c || byte_in "_-" c.
Definition word_dot_byte (c : Z) : bool := is_ascii_alphanumeric c || byte_in "_.-" c.
Definition exact_id (s : string) : bool :=
  negb (str_is_empty s) && (str_len s <=? 64) && first_byte word_byte s && all_bytes word_dot_byte s.
Definition runtime_path (s : string) : bool :=
  (str_len s <=? 256)
  && is_some_and (λ suffix, forallb (λ part, first_byte word_byte part && all_bytes word_dot_byte part)
       (split_char "/" suffix)) (strip_prefix "/run/" s).
Definition workspace_path (s : string) : bool :=
  (s =? "/workspace")%string
  || is_some_and (λ suffix, forallb (λ part, negb (str_is_empty part) && all_bytes word_byte part)
       (split_char "/" suffix)) (strip_prefix "/workspace/" s).
(** [strip_suffix] of one character of a set. *)
Definition strip_last (p : Z → bool) (s : string) : option string :=
  match rev (str_bytes s) with
  | b :: l => if p b then Some (bytes_str (rev l)) else None
  | [] => None
  end.
Definition size_text (s : string) : bool :=
  positive_decimal (unwrap_or_self (strip_last (byte_in "bkmgBKMG") s) s).
Definition cpus_text (s : string) : bool :=
  match split_once "." s with
  | Some (whole, fraction) =>
      negb (str_is_empty fraction) && all_bytes is_ascii_digit fraction
      && (positive_decimal whole
          || ((whole =? "0")%string && existsb (λ c, negb (c =? 48)) (str_bytes fraction)))
  | None => positive_decimal s
  end.
Definition token_text (s : string) : bool :=
  negb (str_is_empty s) && (str_len s <=? 128)
  && all_bytes (λ c, is_ascii_alphanumeric c || byte_in "_-./+" c) s
  && negb (existsb (λ p, (p =? "..")%string) (split_char "/" s)).
Definition within (root s : string) : bool :=
  is_some_and (starts_with "/") (strip_prefix root s).
Definition state_path (roots : value) (s : string) : bool :=
  starts_with "/var/lib/" s
  && forallb (λ p, negb (str_is_empty p) && negb (p =? ".")%string && negb (p =? "..")%string
                   && all_bytes (λ c, is_ascii_alphanumeric c || byte_in "-_" c) p)
       (drop 1 (split_char "/" s))
  && is_some_and (λ roots, forallb (λ root, is_some_and (λ root, negb (s =? root)%string && negb (within root s))
                                              (as_str root)) roots) (as_array roots).
Definition str_and (v : value) (p : string → bool) : check := Some (is_some_and p (as_str v)).
(** [value == "text"]. *)
Definition str_is (s : string) (v : value) : bool := opt_str_eq (as_str v) s.
Definition is_true (v : value) : bool := match v with Bool b => b | _ => false end.
Definition contains_value (v : value) (l : list value) : bool := existsb (λ w, value_eqb w v) l.
(** [items[..i]] for every [i]. *)
Fixpoint with_prior {A} (prior : list A) (l : list A) : list (list A * A) :=
  match l with [] => [] | x :: l => (prior, x) :: with_prior (prior ++ [x]) l end.
Definition distinct_items (spec : value) (items : list value) : bool :=
  forallb (λ pi : list value * value,
    (negb (is_true (index "unique" spec)) || negb (contains_value pi.2 pi.1))
    && is_none_or (λ key, negb (existsb (λ prior, value_eqb (index key prior) (index key pi.2)) pi.1))
         (as_str (index "uniqueBy" spec))) (with_prior [] items).
Definition fits (spec : value) (n : nat) : check :=
  (λ max, Z.of_nat n <=? max) <$> as_u64 (index "max" spec).
Definition has_required (value spec : value) : check :=
  match as_array (index "required" spec) with
  | None => Some true
  | Some required => all_checks ((λ key, (λ k, is_some (vget k value)) <$> as_str key) <$> required)
  end.
Definition command_ok (v : value) : bool :=
  is_some_and (λ argv,
    is_some_and (λ arg, negb (str_is_empty arg)) (head argv ≫= as_str)
    && forallb (λ arg, is_some_and (λ s, negb (existsb (λ b, (b =? 0) || (b =? 13) || (b =? 10)) (str_bytes s)))
                         (as_str arg)) argv) (as_array v).
Definition capabilities_ok (v spec : value) : check :=
  match as_array v with
  | None => Some false
  | Some values =>
      all_checks ((λ pi : list value * value,
        allowed ← as_array (index "values" spec);
        Some (contains_value pi.2 allowed && negb (contains_value pi.2 pi.1))) <$> with_prior [] values)
  end.

(** The cases that do not descend into the value. *)
Definition matches_leaf (v spec : value) : check :=
  let type := default EmptyString (as_str (index "type" spec)) in
  if (type =? "bool")%string then Some (is_boolean v)
  else if (type =? "disabled")%string then Some (value_eqb v (Bool false))
  else if (type =? "enum")%string then Some (is_some_and (contains_value v) (as_array (index "values" spec)))
  else if (type =? "name")%string then str_and v (λ s, name s && (str_len s <=? 57))
  else if (type =? "hostName")%string then
    str_and v (λ s, name s && (str_len s <=? 63) && negb (ends_with "-" s))
  else if (type =? "uint")%string then Some (is_some_and (λ n, n <=? i64_max) (as_u64 v))
  else if (type =? "agentId")%string then str_and v agent_id
  else if (type =? "exactId")%string then str_and v exact_id
  else if (type =? "runtimePath")%string then str_and v runtime_path
  else if (type =? "version")%string then Some (is_some_and (Z.eqb 1) (as_u64 v))
  else if (type =? "owner")%string then Some (is_some_and (in_range 1 4294967294) (as_u64 v))
  else if (type =? "pinnedImage")%string then str_and v pinned_image
  else if (type =? "command")%string then Some (command_ok v)
  else if (type =? "workspacePath")%string then str_and v workspace_path
  else if (type =? "size")%string then str_and v size_text
  else if (type =? "cpus")%string then str_and v cpus_text
  else if (type =? "capabilities")%string then capabilities_ok v spec
  else if (type =? "statePath")%string then str_and v (state_path (index "excludedRoots" spec))
  else if (type =? "backupPath")%string then
    str_and v (λ s, (str_len s <=? 256) && state_path (index "excludedRoots" spec) s)
  else if (type =? "token")%string then str_and v token_text
  else Some false.
Fixpoint matches_type (v : value) (spec : value) : check :=
  let type := default EmptyString (as_str (index "type" spec)) in
  if (type =? "list")%string then
    match v with
    | Array items =>
        both (fits spec (length items))
          (both (all_checks (map (λ item, matches_type item (index "items" spec)) items))
             (Some (distinct_items spec items)))
    | _ => Some false
    end
  else if (type =? "map")%string then
    match v with
    | Object items =>
        both (fits spec (length items))
          (all_checks (map (λ kv,
             both (Some (str_is "agentId" (index "type" (index "keys" spec)) && agent_id (fst kv)))
               (matches_type (snd kv) (index "items" spec))) items))
    | _ => Some false
    end
  else if ((type =? "object")%string || (type =? "runtimeDefinition")%string) then
    match v with
    | Object fields =>
        both (all_checks (map (λ kv, match vget (fst kv) (index "fields" spec) with
                                     | Some spec => matches_type (snd kv) spec
                                     | None => Some false
                                     end) fields))
          (has_required v spec)
    | _ => Some false
    end
  else matches_leaf v spec.

Fixpoint object_fields (fields : value) (m : list (string * value)) : result fault unit :=
  match m with
  | [] => Ok tt
  | (key, v) :: m =>
      spec ← ok_or (Fail "unknown or unsafe configuration field") (vget key fields);
      _ ← unless (matches_type v spec) "unsupported configuration value or invalid field type";
      object_fields fields m
  end.
Definition object (v fields : value) : result fault unit :=
  m ← ok_or (Fail "configuration section must be an object") (as_object v);
  object_fields fields m.

(** ** [validate] *)

Fixpoint validate_sections (root : list (string * value)) : result fault unit :=
  match root with
  | [] => Ok tt
  | (key, section) :: root =>
      _ ← (if (key =? "schemaVersion")%string || (key =? "agents")%string then Ok tt
           else if (key =? "_securityNote")%string then
             refuse_if (negb (is_string section)) "_securityNote must be a string"
           else
             fields ← ok_or (Fail "unknown desired-system section") (vget key (index "sections" DESCRIPTOR));
             object section fields);
      validate_sections root
  end.
(** Every field of an agent is one its adapter supports. *)
Definition adapter_supports (adapter : value) (key : string) : bool :=
  is_none_or (contains_value adapter) (as_array (index "adapters" (index key (index "agent" DESCRIPTOR)))).
Definition stopped_adapter (agent : value) : check :=
  contains_value (index "adapter" agent) <$> as_array (index "stoppedAdapters" DESCRIPTOR).
Fixpoint validate_agents (agents : list value) (identities : list string) : result fault unit :=
  match agents with
  | [] => Ok tt
  | agent :: agents =>
      _ ← object agent (index "agent" DESCRIPTOR);
      identity ← ok_or (Fail "agent name is required") (as_str (index "name" agent));
      _ ← refuse_if (is_none (vget "adapter" agent)) "agent adapter is required";
      _ ← refuse_if (str_is "generic" (index "adapter" agent) && is_none (vget "definition" agent))
            "generic adapter requires a runtime definition";
      _ ← refuse_when (both (stopped_adapter agent) (Some (is_true (index "autoStart" agent))))
            "adapter has no admitted runnable implementation";
      fields ← unwrap (as_object agent);
      _ ← refuse_if (negb (forallb (adapter_supports (index "adapter" agent)) (obj_keys fields)))
            "field is unsupported by the selected adapter";
      _ ← refuse_if (str_in identity identities) "duplicate global agent identity";
      validate_agents agents (identity :: identities)
  end.

(** [agents.iter().find(|agent| id.strip_prefix("agent-").is_some_and(..))]. *)
Definition declared (agents : list value) (id : string) : option value :=
  match strip_prefix "agent-" id with
  | Some name => find_first (λ agent, str_is name (index "name" agent)) agents
  | None => None
  end.
Definition explicit_enable (section : value) : bool :=
  is_true (index "enable" section)
  || negb (is_some_and (λ fields, existsb (λ key, negb (key =? "enable")%string) (obj_keys fields))
             (as_object section)).
Definition has_key (key : string) (section : value) : bool := is_some (vget key section).
(** A service is enabled without what it needs. *)
Definition lacks_grants (host connectors storage : value) : bool :=
  (is_true (index "enable" host) && negb (has_key "peers" host))
  || (is_true (index "allowToolDecisions" host) && negb (is_true (index "allowToolRequests" host)))
  || (is_true (index "enable" connectors) && negb (has_key "configFile" connectors))
  || (is_true (index "enable" storage)
      && (is_none_or (λ l, bool_decide (l = [])) (as_array (index "paths" storage))
          || negb (has_key "repositoryFile" storage) || negb (has_key "passwordFile" storage))).
Definition unknown_path (agents : list value) (path : value) : check :=
  s ← as_str path;
  Some (negb (canonical_backup_path s)
        && negb (existsb (λ agent, is_some_and (λ d, value_eqb d path) (vget "stateDir" agent)) agents)).
Definition backup_paths (storage : value) (agents : list value) : check :=
  match as_array (index "paths" storage) with
  | Some paths => any_checks (unknown_path agents <$> paths)
  | None => Some false
  end.
Definition GATES : list (string * string) :=
  [("actions", "allowActions"); ("logs", "allowLogs"); ("tool_requests", "allowToolRequests");
   ("tool_decisions", "allowToolDecisions")]%string.
Definition peer_refused (host : value) (agents : list value) (peer : value) : check :=
  ids ← as_array (index "agents" peer);
  permissions ← as_array (index "permissions" peer);
  let has p := existsb (str_is p) permissions in
  Some (existsb (λ id, is_none (as_str id ≫= declared agents)) ids
        || (bool_decide (ids = []) && existsb (λ p, negb (str_is "host_health" p)) permissions)
        || (has "tool_decisions"%string && negb (has "tool_requests"%string))
        || existsb has ["run_read"; "run_submit"; "run_stop"]%string
        || existsb (λ pg : string * string, has pg.1 && negb (is_true (index pg.2 host))) GATES).
Fixpoint validate_peers (host : value) (agents peers : list value) : result fault unit :=
  match peers with
  | [] => Ok tt
  | peer :: peers =>
      _ ← refuse_when (peer_refused host agents peer) "invalid or unsupported exact peer grant";
      validate_peers host agents peers
  end.

Definition scope_eqb (x y : string * string) : bool := (x.1 =? y.1)%string && (x.2 =? y.2)%string.
Definition stopped_binding (agent : value) : bool :=
  str_is "pi-durable" (index "adapter" agent) || str_is "openclaw" (index "adapter" agent).
(** The set of scopes grows only where [insert] is reached. *)
Fixpoint validate_bindings (agents : list value) (bindings : list (string * value))
    (scopes : list (string * string)) : result fault unit :=
  match bindings with
  | [] => Ok tt
  | (id, binding) :: bindings =>
      let message := "workload binding requires an unambiguous declared runnable agent"%string in
      _ ← refuse_if (is_none_or stopped_binding (declared agents id)) message;
      tenant ← unwrap (as_str (index "tenant_id" binding));
      workload ← unwrap (as_str (index "workload_id" binding));
      _ ← refuse_if (existsb (scope_eqb (tenant, workload)) scopes) message;
      validate_bindings agents bindings ((tenant, workload) :: scopes)
  end.
Definition validate_mapping (v mapping : value) (agents : list value) : result fault unit :=
  if is_true (index "enable" mapping) then
    _ ← refuse_if (is_some_and (λ b, negb (str_is "docker" b)) (vget "backend" (index "container" v))
                   || negb (has_key "bindings" mapping))
          "workload mapping requires Docker and explicit bindings";
    bindings ← unwrap (as_object (index "bindings" mapping));
    validate_bindings agents bindings []
  else Ok tt.

Definition research_capable (agent : value) : check :=
  adapter ← as_str (index "adapter" agent);
  Some (is_true (index "supported" (index "research" (index adapter (index "presets" CATALOG))))).
Definition research_refused (agents : list value) (id : string) : check :=
  match declared agents id with
  | None => Some true
  | Some agent => either (stopped_adapter agent) (not_check (research_capable agent))
  end.
Fixpoint validate_clients (agents : list value) (clients : list (string * value)) (uids : list Z) :
    result fault unit :=
  match clients with
  | [] => Ok tt
  | (id, client) :: clients =>
      let message :=
        "Research requires declared runnable capable agents and distinct relay UIDs"%string in
      _ ← refuse_when (research_refused agents id) message;
      uid ← unwrap (as_u64 (index "uid" client));
      _ ← refuse_if (existsb (Z.eqb uid) uids) message;
      validate_clients agents clients (uid :: uids)
  end.
Definition validate_research (v research : value) (agents : list value) : result fault unit :=
  if is_true (index "enable" research) then
    clients ← ok_or (Fail "Research requires explicit per-agent relay grants")
                (ofilter (λ clients, negb (bool_decide (clients = []))) (as_object (index "agents" research)));
    _ ← refuse_if (str_is "dev" (index "profile" (index "sandbox" v))) "Research requires a secure profile";
    validate_clients agents clients []
  else Ok tt.

Definition validate_services (v : value) (agents : list value) : result fault unit :=
  let host := index "hostApi" v in
  let connectors := index "connectors" v in
  let mapping := index "workloadMapping" v in
  let storage := index "storage" v in
  let research := index "research" v in
  _ ← refuse_if (negb (forallb explicit_enable [host; connectors; mapping; storage; research]))
        "service configuration requires explicit enable";
  _ ← refuse_if (lacks_grants host connectors storage)
        "service requires explicit grants or runtime configuration";
  _ ← refuse_when (backup_paths storage agents)
        "backup paths require a canonical state tree or exact declared stateDir";
  _ ← match as_array (index "peers" host) with
      | Some peers => validate_peers host agents peers
      | None => Ok tt
      end;
  _ ← validate_mapping v mapping agents;
  validate_research v research agents.

Definition validate (v : value) : result fault unit :=
  root ← ok_or (Fail "desired system must be an object") (as_object v);
  _ ← refuse_if (negb (is_some_and (Z.eqb 1) (as_u64 (index "schemaVersion" v))))
        "schemaVersion must be integer 1";
  _ ← validate_sections root;
  agents ← ok_or (Fail "agents array is required") (as_array (index "agents" v));
  _ ← refuse_if (128 <? blen agents) "at most 128 agents are supported";
  _ ← validate_agents agents [];
  validate_services v agents.

(** ** TOML *)

(** [toml_edit::Value] and [Item]; a float is its IEEE bits. *)
Inductive toml_value : Type :=
| TString (s : string)
| TInteger (n : Z)
| TFloat (bits : Z)
| TBoolean (b : bool)
| TDatetime
| TArray (l : list toml_value)
| TInlineTable (m : list (string * toml_value)).
Inductive item : Type :=
| INone
| IValue (v : toml_value)
| ITable (m : list (string * item))
| IArrayOfTables (l : list (list (string * item))).

(** The [toml_edit] crate: a document keeps its text's layout, so it is opaque. *)
Class TomlEdit : Type := {
  document : Type;
  document_parse : string → option document;
  document_items : document → list (string * item);
  document_text : document → string;
  de_from_document : document → option value;
  ser_to_document : value → option document;
  push_table : document → document → document;   (* [document["agents"]]: [ArrayOfTables::push] *)
  push_inline : document → document → document;  (* [document["agents"]]: [Array::push(into_inline_table)] *)
}.

(** [f64::is_finite]. *)
Definition is_finite (bits : Z) : bool := negb (Z.land (Z.shiftr bits 52) 2047 =? 2047).
Fixpoint scalar (v : toml_value) : bool :=
  match v with
  | TDatetime => false
  | TFloat bits => is_finite bits
  | TArray l => forallb scalar l
  | TInlineTable m => forallb (λ kv, scalar (snd kv)) m
  | _ => true
  end.
Fixpoint compatible (i : item) : bool :=
  match i with
  | INone => true
  | IValue v => scalar v
  | ITable m => forallb (λ kv, compatible (snd kv)) m
  | IArrayOfTables l => forallb (λ m, forallb (λ kv, compatible (snd kv)) m) l
  end.

Section desired.
Context `{SerdeJson} `{TomlEdit}.

Definition parse (b : bytes) : result fault value :=
  _ ← refuse_if (MAX_INPUT <? blen b) "desired system exceeds 1 MiB";
  text ← ok_or (Fail "desired system must be UTF-8") (from_utf8 b);
  d ← ok_or (Fail "invalid desired-system TOML") (document_parse text);
  _ ← refuse_if (negb (forallb (λ kv, compatible (snd kv)) (document_items d)))
        "dates, times and non-finite numbers are unsupported";
  v ← ok_or (Fail "invalid desired-system data") (de_from_document d);
  _ ← validate v;
  mret v.

Definition normalize (v : value) : result fault string :=
  _ ← validate v;
  d ← ok_or (Fail "cannot serialize desired system") (ser_to_document v);
  let text := document_text d in
  parsed ← parse (str_bytes text);
  _ ← refuse_if (negb (value_eqb parsed v)) "normalization would change configuration semantics";
  mret text.

(** ** Migration *)

(** [UniqueJson]: no duplicate field, no float ([visit_f64] is not there). *)
Fixpoint unique_json (r : raw) : option value :=
  match r with
  | RNull => Some Null
  | RBool b => Some (Bool b)
  | RNumber (Float _) => None
  | RNumber n => Some (Number n)
  | RStr s => Some (Str s)
  | RSeq l => Array <$> sequence (map unique_json l)
  | RMap m => Object <$> unique_entries (map (λ kv, (fst kv, unique_json (snd kv))) m) []
  end.

(** [tokens]: serde_json's tokenizer. *)
Definition migrate (tokens : bytes → option raw) (b : bytes) (json : bool) : result fault string :=
  v ← (if json then
         _ ← refuse_if (MAX_INPUT <? blen b) "migration input exceeds 1 MiB";
         ok_or (Fail "invalid or ambiguous legacy JSON") (tokens b ≫= unique_json)
       else parse b);
  normalize v.

(** ** Files *)

Definition cwd : Cli string := gets (λ c, e_cwd (c_env c)).
Definition at_path {A} (message : string) (call : string → Sys A) (p : string) : Cli A :=
  dir ← cwd; fs (λ _, message) (call (resolve dir p)).
(** [File::open(..)], then [take(MAX_INPUT + 1)] read to its end. *)
Definition read_bounded (message : string) (p : string) : Cli bytes :=
  data ← at_path message sys_read_file p;
  mret (take_bytes (MAX_INPUT + 1) data).
Definition regular_input (m : Z * inode) : bool :=
  bool_decide (i_kind m.2 = Regular) && (blen (i_data m.2) <=? MAX_INPUT).
Definition read_file (p : string) : Cli bytes :=
  m ← at_path "configuration file is missing or unreadable" sys_symlink_metadata p;
  _ ← throw_if (negb (regular_input m))
        (Fail "configuration requires a regular file of at most 1 MiB; symlinks refused");
  b ← read_bounded "cannot read configuration" p;
  _ ← throw_if (MAX_INPUT <? blen b) (Fail "configuration exceeds 1 MiB");
  mret b.

(** Nothing of that name exists: the call must answer [NotFound]. *)
Definition absent (p : string) : Cli (result io_error unit) :=
  dir ← cwd;
  r ← in_world (attempt (sys_symlink_metadata (resolve dir p)));
  mret match r with Err NotFound => Ok tt | Err e => Err e | Ok _ => Err AlreadyExists end.
Fixpoint refuse_names (message : string) (directory : string) (names : list string) : Cli unit :=
  match names with
  | [] => mret tt
  | name :: names =>
      r ← absent (path_join directory name);
      _ ← throw_if (negb (is_ok r)) (Fail message);
      refuse_names message directory names
  end.
Definition legacy_message : string :=
  "legacy inventory exists; explicitly migrate and archive it before loading".
Definition refuse_legacy (p : string) : Cli unit :=
  refuse_names legacy_message (default "."%string (path_parent_dir p))
    ["agents.toml"; "agents.json"; "my-agents.nix"]%string.

(** ** The command *)

Record OutputMode : Type := mkMode { m_hide : bool; m_json : bool }.
(** A literal of the source whose double quotes are written ['] here. *)
Definition quoted (s : string) : string := replace_char "'" (bytes_str [34]) s.

Definition run_check (action input : string) (mode : OutputMode) : Cli Z :=
  _ ← throw_if (negb (opt_str_eq (path_file_name input) "tentaflake.toml"))
        (Fail "desired-system file must be named tentaflake.toml");
  _ ← refuse_legacy input;
  b ← read_file input;
  v ← lift (parse b);
  _ ← (if (action =? "normalize")%string then
         if m_json mode then println (bytes_str (to_vec v))
         else text ← lift (normalize v); print text
       else if m_json mode then println (quoted "{'schemaVersion':1,'valid':true}")
       else println "Valid desired system; no files changed");
  mret 0.

(** Write the new file, or remove what was written of it. *)
Definition persist (output text : string) : Cli unit :=
  dir ← cwd;
  f ← at_path "migration destination already exists or cannot be created; no overwrite"
        (λ p, sys_create_new p 384 (* 0o600 *)) output;
  zoom c_world (λ w, set_world (λ _, w)) (closing f (
    r ← attempt (_ ← sys_write f (str_bytes text); sys_sync);
    match r with
    | Ok _ => mret tt
    | Err _ =>
        _ ← attempt (sys_remove (resolve dir output));
        fail (Fail "cannot persist migration output")
    end)).
Definition run_migrate (tokens : bytes → option raw) (input output : string) (mode : OutputMode) : Cli Z :=
  _ ← throw_if (negb (is_some_and (λ n, str_in n ["agents.toml"; "agents.json"]%string) (path_file_name input)))
        (Fail "migration input must be an explicit agents.toml or agents.json file");
  _ ← throw_if (negb (opt_str_eq (path_file_name output) "tentaflake.toml"))
        (Fail "migration output must be named tentaflake.toml");
  b ← read_file input;
  text ← lift (migrate tokens b (opt_str_eq (path_extension input) "json"));
  _ ← persist output text;
  _ ← (if m_json mode then
         println (quoted "{'schemaVersion':1,'valid':true,'migrated':true,'sourceRetained':true}")
       else println ("Migration preserved all supported data; source retained. "
                     ++ "Review and archive legacy files before loading."));
  mret 0.

Definition config_usage : string :=
  "usage: config validate <tentaflake.toml> | normalize <tentaflake.toml> [--json] | migrate <agents.toml|agents.json> <tentaflake.toml>".
Definition run_inner (tokens : bytes → option raw) (args : list string) (mode : OutputMode) : Cli Z :=
  _ ← throw_if (m_hide mode) (Fail "--hide is unavailable for desired-system data");
  match args with
  | [action; input] =>
      if str_in action ["validate"; "normalize"]%string then run_check action input mode
      else fail (Fail config_usage)
  | [action; input; output] =>
      if (action =? "migrate")%string then run_migrate tokens input output mode
      else fail (Fail config_usage)
  | _ => fail (Fail config_usage)
  end.

Definition run (tokens : bytes → option raw) (args : list string) (mode : OutputMode) : Cli Z := λ c,
  match run_inner tokens args mode c with
  | (Err (Fail error), c) =>
      if m_json mode then
        (_ ← println (quoted "{'schemaVersion':1,'valid':false,'error':'invalid_configuration'}"); mret 2) c
      else if opt_str_eq (head args) "migrate" then
        (Err (Fail ("migration refused; legacy source retained; no activation: " ++ error)), c)
      else (Err (Fail error), c)
  | r => r
  end.
End desired.
