(* ===== verification/DesiredFacts.v ===== *)
(** * What the desired-system validator guarantees

    No [unwrap] of the validator fails on any input; what an accepted system
    satisfies; and that migration publishes a new file or changes nothing. *)

From S2P Require Import Prelude RustStr Json Posix Activity ControlData CliHost Descriptor Desired.

Arguments DESCRIPTOR : simpl never.
Arguments CATALOG : simpl never.

(** ** No panic *)

(** A descriptor whose [unwrap]s are defined, to a depth of [n]. *)
Definition type_of (spec : value) : string := default EmptyString (as_str (index "type" spec)).
Definition has_max (spec : value) : bool := is_some (as_u64 (index "max" spec)).
Definition required_strings (spec : value) : bool :=
  is_none_or (forallb is_string) (as_array (index "required" spec)).
Fixpoint spec_ok (n : nat) (spec : value) : bool :=
  match n with
  | O => false
  | S n =>
      let type := type_of spec in
      if (type =? "list")%string then has_max spec && spec_ok n (index "items" spec)
      else if (type =? "map")%string then has_max spec && spec_ok n (index "items" spec)
      else if (type =? "object")%string || (type =? "runtimeDefinition")%string then
        required_strings spec
        && is_none_or (forallb (λ kv, spec_ok n (snd kv))) (as_object (index "fields" spec))
      else if (type =? "capabilities")%string then is_some (as_array (index "values" spec))
      else true
  end.

Lemma fits_defined spec k : has_max spec = true → fits spec k ≠ None.
Proof. unfold has_max, fits. by destruct (as_u64 _). Qed.
Lemma has_required_defined v spec : required_strings spec = true → has_required v spec ≠ None.
Proof.
  unfold required_strings, has_required. destruct (as_array _) as [l|]; [|done]. simpl. intros Hl.
  apply all_checks_defined, Forall_fmap, Forall_forall. intros x Hx.
  rewrite forallb_forall in Hl. rewrite list_elem_of_In in Hx. specialize (Hl x Hx). by destruct x.
Qed.
Lemma capabilities_defined v spec :
  is_some (as_array (index "values" spec)) = true → capabilities_ok v spec ≠ None.
Proof.
  intros Hs. unfold capabilities_ok. destruct (as_array v); [|done].
  apply all_checks_defined, Forall_fmap, Forall_forall. intros x _. simpl.
  by destruct (as_array (index "values" spec)).
Qed.
Lemma matches_leaf_defined v spec :
  ((type_of spec =? "capabilities")%string = true → is_some (as_array (index "values" spec)) = true) →
  matches_leaf v spec ≠ None.
Proof.
  intros Hc. unfold matches_leaf. fold (type_of spec).
  repeat match goal with |- context [if ?b then _ else _] => destruct b eqn:? end; try done.
  by apply capabilities_defined, Hc.
Qed.
Lemma obj_get_In k m v : obj_get k m = Some v → In (k, v) m.
Proof.
  induction m as [|[k' v'] m IH]; simpl; [done|].
  destruct (k =? k')%string eqn:E; [|auto]. apply String.eqb_eq in E as ->. intros [= ->]. auto.
Qed.
Lemma field_ok n spec key field :
  is_none_or (forallb (λ kv : string * value, spec_ok n (snd kv))) (as_object (index "fields" spec)) = true →
  vget key (index "fields" spec) = Some field → spec_ok n field = true.
Proof.
  destruct (index "fields" spec) as [| | | | |m]; simpl; try done.
  rewrite forallb_forall. intros Hm Hk. apply (Hm (key, field)). by apply obj_get_In.
Qed.

(** [matches_type] by the type first, the value second. *)
Definition list_matches (v spec : value) : check :=
  match v with
  | Array items =>
      both (fits spec (length items))
        (both (all_checks (map (λ item, matches_type item (index "items" spec)) items))
           (Some (distinct_items spec items)))
  | _ => Some false
  end.
Definition entry_matches (spec : value) (kv : string * value) : check :=
  both (Some (str_is "agentId" (index "type" (index "keys" spec)) && agent_id (fst kv)))
    (matches_type (snd kv) (index "items" spec)).
Definition map_matches (v spec : value) : check :=
  match v with
  | Object items => both (fits spec (length items)) (all_checks (map (entry_matches spec) items))
  | _ => Some false
  end.
Definition field_matches (fields : value) (kv : string * value) : check :=
  match vget (fst kv) fields with
  | Some spec => matches_type (snd kv) spec
  | None => Some false
  end.
Definition record_matches (v spec : value) : check :=
  match v with
  | Object fields =>
      both (all_checks (map (field_matches (index "fields" spec)) fields)) (has_required v spec)
  | _ => Some false
  end.
Definition is_record (type : string) : bool :=
  (type =? "object")%string || (type =? "runtimeDefinition")%string.
Lemma matches_type_eq v spec :
  matches_type v spec =
  if (type_of spec =? "list")%string then list_matches v spec
  else if (type_of spec =? "map")%string then map_matches v spec
  else if is_record (type_of spec) then record_matches v spec
  else matches_leaf v spec.
Proof. by destruct v. Qed.

Lemma all_matches_defined {A} (f : A → check) l : (∀ x, f x ≠ None) → all_checks (map f l) ≠ None.
Proof. intros Hf. apply all_checks_defined, Forall_fmap, Forall_forall. intros x _. apply Hf. Qed.
Create HintDb defined.
#[local] Hint Resolve both_defined fits_defined has_required_defined all_matches_defined : defined.

Lemma matches_type_defined n : ∀ v spec, spec_ok n spec = true → matches_type v spec ≠ None.
Proof.
  induction n as [|n IH]; intros v spec; [done|]. rewrite matches_type_eq. cbn [spec_ok]. fold (is_record (type_of spec)).
  destruct (type_of spec =? "list")%string.
  { intros [Hmax Hi]%andb_true_iff. destruct v; try done. simpl. auto 6 with defined. }
  destruct (type_of spec =? "map")%string.
  { intros [Hmax Hi]%andb_true_iff. destruct v; try done. simpl.
    apply both_defined; [auto with defined|intros _]. apply all_matches_defined. intros x.
    apply both_defined; auto. }
  destruct (is_record (type_of spec)).
  { intros [Hr Hf]%andb_true_iff. destruct v; try done. simpl.
    apply both_defined; [|auto with defined]. apply all_matches_defined. intros x. unfold field_matches.
    destruct (vget _ _) eqn:E; [|done]. apply IH. by eapply field_ok. }
  intros Hs. apply matches_leaf_defined. intros Hc. by rewrite Hc in Hs.
Qed.

Lemma field_defined n fields key v field :
  forallb (λ kv : string * value, spec_ok n (snd kv)) fields = true →
  obj_get key fields = Some field → matches_type v field ≠ None.
Proof.
  rewrite forallb_forall. intros Hf Hk. apply (matches_type_defined n). apply (Hf (key, field)). by apply obj_get_In.
Qed.

(** ** The shape of what matches *)

Lemma list_inv v spec :
  matches_type v spec = Some true → (type_of spec =? "list")%string = true →
  ∃ items, v = Array items ∧ Forall (λ x, matches_type x (index "items" spec) = Some true) items
           ∧ fits spec (length items) = Some true ∧ distinct_items spec items = true.
Proof.
  rewrite matches_type_eq. intros Hm Ht. rewrite Ht in Hm. destruct v as [| | | |items|]; try done. simpl in Hm.
  rewrite !both_true, all_checks_true, Forall_map in Hm. naive_solver.
Qed.
Lemma map_inv v spec :
  matches_type v spec = Some true → (type_of spec =? "map")%string = true →
  ∃ m, v = Object m ∧ fits spec (length m) = Some true ∧
    Forall (λ kv, agent_id (fst kv) = true ∧ matches_type (snd kv) (index "items" spec) = Some true) m.
Proof.
  rewrite matches_type_eq. intros Hm Ht. rewrite Ht in Hm. apply String.eqb_eq in Ht. rewrite Ht in Hm.
  destruct v as [| | | | |m]; try done. simpl in Hm.
  rewrite both_true, all_checks_true, Forall_map in Hm. destruct Hm as [? Hm]. exists m. split_and!; try done.
  eapply Forall_impl; [exact Hm|]. intros [k x] Hx.
  unfold entry_matches in Hx. apply both_true in Hx as [Hk Hx]. injection Hk as [_ ?]%andb_true_iff. done.
Qed.
Lemma record_inv v spec :
  matches_type v spec = Some true → is_record (type_of spec) = true →
  ∃ m, v = Object m ∧ Forall (λ kv, field_matches (index "fields" spec) kv = Some true) m
       ∧ has_required v spec = Some true.
Proof.
  rewrite matches_type_eq. intros Hm Ht.
  assert (type_of spec = "object"%string ∨ type_of spec = "runtimeDefinition"%string) as [E|E].
  { unfold is_record in Ht. apply orb_true_iff in Ht as [?|?]; [left|right]; by apply String.eqb_eq. }
  all: rewrite E in Hm; destruct v as [| | | | |m]; try done; simpl in Hm;
    rewrite both_true, all_checks_true, Forall_map in Hm; naive_solver.
Qed.
Lemma leaf_inv v spec t :
  type_of spec = t → negb ((t =? "list")%string || (t =? "map")%string || is_record t) = true →
  matches_type v spec = matches_leaf v spec.
Proof.
  intros Ht Hn. rewrite matches_type_eq, Ht. rewrite negb_true_iff, !orb_false_iff in Hn.
  by destruct Hn as [[-> ->] ->].
Qed.

(** A field of an object that was checked matches its descriptor. *)
Lemma object_fields_inv fields m :
  object_fields fields m = Ok tt → Forall (λ kv, field_matches fields kv = Some true) m.
Proof.
  induction m as [|[k v] m IH]; simpl; [done|]. intros Ho. inv_ok.
  match goal with Hu : unless _ _ = Ok _ |- _ => apply unless_Ok in Hu end.
  constructor; [|auto]. unfold field_matches. simpl. by match goal with Hv : vget _ _ = _ |- _ => rewrite Hv end.
Qed.
Lemma fields_get fields m key v :
  Forall (λ kv, field_matches fields kv = Some true) m → obj_get key m = Some v →
  ∃ spec, vget key fields = Some spec ∧ matches_type v spec = Some true.
Proof.
  rewrite Forall_forall. intros Hf Hk%obj_get_In%list_elem_of_In. specialize (Hf _ Hk).
  unfold field_matches in Hf. simpl in Hf. destruct (vget key fields); naive_solver.
Qed.
Lemma object_inv v fields :
  object v fields = Ok tt → ∃ m, v = Object m ∧ Forall (λ kv, field_matches fields kv = Some true) m.
Proof.
  unfold object. intros Ho. inv_ok. destruct v; simplify_eq/=. eexists. split; [done|]. by apply object_fields_inv.
Qed.

(** ** The embedded descriptor *)

Definition SECTIONS : value := index "sections" DESCRIPTOR.
Definition AGENT : value := index "agent" DESCRIPTOR.
Definition fields_ok (v : value) : bool :=
  match v with Object m => forallb (λ kv : string * value, spec_ok 8 (snd kv)) m | _ => false end.
Lemma sections_ok :
  match SECTIONS with Object m => forallb (λ kv : string * value, fields_ok (snd kv)) m | _ => false end = true.
Proof. by vm_compute. Qed.
Lemma agent_ok : fields_ok AGENT = true.
Proof. by vm_compute. Qed.
Lemma section_fields_ok key fields : vget key SECTIONS = Some fields → fields_ok fields = true.
Proof.
  pose proof sections_ok as Hs. destruct SECTIONS as [| | | | |m]; try done. simpl.
  rewrite forallb_forall in Hs. intros Hk. apply (Hs (key, fields)). by apply obj_get_In.
Qed.

(** Every outcome is a value or an error message. *)
Definition polite {A} (r : result fault A) : Prop :=
  match r with Ok _ | Err (Fail _) => True | Err _ => False end.
Lemma polite_bind {A B} (r : result fault A) (k : A → result fault B) :
  polite r → (∀ a, r = Ok a → polite (k a)) → polite (r ≫= k).
Proof. destruct r; simpl; auto. Qed.
Lemma polite_ok_or {A} e (o : option A) : polite (ok_or (Fail e) o).
Proof. by destruct o. Qed.
Lemma polite_refuse b e : polite (refuse_if b e).
Proof. by destruct b. Qed.
Lemma polite_unless c e : c ≠ None → polite (unless c e).
Proof. by destruct c as [[]|]. Qed.
Lemma polite_refuse_when c e : c ≠ None → polite (refuse_when c e).
Proof. by destruct c as [[]|]. Qed.
Lemma polite_unwrap {A} (o : option A) : o ≠ None → polite (unwrap o).
Proof. by destruct o. Qed.
Lemma polite_Ok {A} (a : A) : polite (Ok a).
Proof. done. Qed.
#[export] Hint Resolve polite_ok_or polite_refuse polite_unless polite_refuse_when polite_unwrap polite_Ok : defined.
(** The next statement of a body cannot panic; what it returned is in the context. *)
Ltac polite_step := apply polite_bind; [auto with defined|].

Lemma object_fields_polite fields m : fields_ok fields = true → polite (object_fields fields m).
Proof.
  intros Hf. induction m as [|[k v] m IH]; simpl; [done|].
  polite_step. intros spec Hs%ok_or_Ok. polite_step; [|done].
  apply polite_unless. destruct fields as [| | | | |l]; try done. by eapply field_defined.
Qed.
Lemma object_polite v fields : fields_ok fields = true → polite (object v fields).
Proof. intros Hf. unfold object. polite_step. intros m _. by apply object_fields_polite. Qed.

Lemma validate_sections_polite root : polite (validate_sections root).
Proof.
  induction root as [|[k v] root IH]; simpl; [done|].
  apply polite_bind; [|done]. destruct (_ || _); [done|]. destruct (_ =? _)%string; [auto with defined|].
  polite_step. intros fields Hf%ok_or_Ok. apply object_polite. exact (section_fields_ok _ _ Hf).
Qed.
Lemma stopped_adapter_defined agent : stopped_adapter agent ≠ None.
Proof. done. Qed.
Lemma validate_agents_polite agents : ∀ seen, polite (validate_agents agents seen).
Proof.
  induction agents as [|agent agents IH]; intros seen; [done|]. cbn [validate_agents].
  apply polite_bind; [by apply object_polite, agent_ok|]. intros [] Ho%object_inv.
  destruct Ho as (m & -> & _).
  do 3 (polite_step; intros ? _). polite_step; intros _ _. polite_step; intros ? _.
  do 2 (polite_step; intros _ _). apply IH.
Qed.

(** ** What was checked of a section *)

Definition plain_section (key : string) : bool :=
  negb ((key =? "schemaVersion")%string || (key =? "agents")%string || (key =? "_securityNote")%string).
Lemma validate_sections_inv root key section :
  validate_sections root = Ok tt → obj_get key root = Some section → plain_section key = true →
  ∃ fields, vget key SECTIONS = Some fields ∧ object section fields = Ok tt.
Proof.
  induction root as [|[k v] root IH]; simpl; [done|]. intros Hv Hk Hp. inv_ok.
  destruct (key =? k)%string eqn:E; [|auto]. apply String.eqb_eq in E as ->. simplify_eq.
  unfold plain_section in Hp. rewrite negb_true_iff, !orb_false_iff in Hp. destruct Hp as [[E1 E2] E3].
  rewrite E1, E2, E3 in *. simpl in *. inv_ok. eauto.
Qed.
(** A field of a section has the type the descriptor gives it. *)
Lemma section_field root key field fields spec x :
  validate_sections root = Ok tt → plain_section key = true →
  vget key SECTIONS = Some fields → vget field fields = Some spec →
  vget field (index key (Object root)) = Some x → matches_type x spec = Some true.
Proof.
  intros Hv Hp Hk Hf. unfold index. simpl. destruct (obj_get key root) as [section|] eqn:E; [|done]. simpl.
  intros Hx. destruct (validate_sections_inv _ _ _ Hv E Hp) as (fields' & Hk' & Ho).
  assert (fields' = fields) as -> by congruence.
  apply object_inv in Ho as (m & -> & Hm). destruct (fields_get _ _ _ _ Hm Hx) as (spec' & ? & ?).
  by assert (spec' = spec) as -> by congruence.
Qed.
Lemma required_field v spec key names :
  has_required v spec = Some true → as_array (index "required" spec) = Some names → In (Str key) names →
  ∃ x, vget key v = Some x.
Proof.
  unfold has_required. intros Hr Hn. rewrite Hn in Hr. rewrite all_checks_true, Forall_fmap, Forall_forall in Hr.
  intros Hk. specialize (Hr (Str key)). simpl in Hr. rewrite list_elem_of_In in Hr. specialize (Hr Hk).
  destruct (vget key v); naive_solver.
Qed.
(** The same for a field of a checked object. *)
Lemma record_field v spec key fspec x :
  matches_type v spec = Some true → is_record (type_of spec) = true →
  vget key (index "fields" spec) = Some fspec → vget key v = Some x → matches_type x fspec = Some true.
Proof.
  intros Hm Ht Hf Hx. destruct (record_inv _ _ Hm Ht) as (m & -> & Hall & _).
  destruct (fields_get _ _ _ _ Hall Hx) as (s & ? & ?). by assert (s = fspec) as -> by congruence.
Qed.
Lemma record_required v spec key fspec names :
  matches_type v spec = Some true → is_record (type_of spec) = true →
  as_array (index "required" spec) = Some names → In (Str key) names →
  vget key (index "fields" spec) = Some fspec →
  ∃ x, vget key v = Some x ∧ index key v = x ∧ matches_type x fspec = Some true.
Proof.
  intros Hm Ht Hn Hk Hf. destruct (record_inv _ _ Hm Ht) as (m & E & Hall & Hr).
  destruct (required_field _ _ _ _ Hr Hn Hk) as [x Hx]. exists x. split_and!; [done| |by eapply record_field].
  unfold index. by rewrite Hx.
Qed.
Lemma str_and_inv v p : str_and v p = Some true → ∃ s, v = Str s ∧ p s = true.
Proof. unfold str_and. destruct v; naive_solver. Qed.

(** ** The agents *)

Lemma value_eqb_Str_l s v : value_eqb (Str s) v = true → v = Str s.
Proof. destruct v; simpl; try done. by intros ->%String.eqb_eq. Qed.
Lemma value_eqb_Str_r s v : value_eqb v (Str s) = true → v = Str s.
Proof. destruct v; simpl; try done. by intros ->%String.eqb_eq. Qed.
Lemma str_is_true s v : str_is s v = true ↔ v = Str s.
Proof. unfold str_is. rewrite opt_str_eq_Some. destruct v; naive_solver. Qed.
Lemma is_true_true v : is_true v = true ↔ v = Bool true.
Proof. destruct v as [|[]| | | |]; naive_solver. Qed.
Lemma Some_true (b : bool) : Some b = Some true → b = true.
Proof. congruence. Qed.
(** A text that an enumeration of texts contains. *)
Lemma contains_texts v names : contains_value v (Str <$> names) = true → ∃ s, v = Str s ∧ s ∈ names.
Proof.
  unfold contains_value. rewrite existsb_exists. intros (w & Hw & Heq).
  rewrite <- list_elem_of_In in Hw. apply list_elem_of_fmap in Hw as (s & -> & Hs).
  exists s. split; [|done]. by apply value_eqb_Str_l.
Qed.

Definition ADAPTERS : list string := ["hermes"; "zeroclaw"; "pi-durable"; "openclaw"; "generic"]%string.
Definition STOPPED : list string := ["pi-durable"; "openclaw"]%string.
(** An agent's identity, adapter, definition and lifecycle. *)
Record valid_agent (agent : value) (n adapter : string) : Prop := {
  va_name : index "name" agent = Str n;
  va_name_ok : name n = true ∧ str_len n <= 57;
  va_adapter : index "adapter" agent = Str adapter;
  va_known : adapter ∈ ADAPTERS;
  va_generic : adapter = "generic"%string →
    ∃ image, index "image" (index "definition" agent) = Str image ∧ pinned_image image = true;
  va_stopped : adapter ∈ STOPPED → index "autoStart" agent ≠ Bool true;
}.
Definition agent_valid (agent : value) : Prop := ∃ n adapter, valid_agent agent n adapter.

Lemma vget_index key v x : vget key v = Some x → index key v = x.
Proof. unfold index. by intros ->. Qed.
Lemma is_none_false {A} (o : option A) : is_none o = false → is_Some o.
Proof. destruct o; [eauto|done]. Qed.

Definition agent_spec (key : string) : value := index key AGENT.
Lemma agent_field agent key x :
  object agent AGENT = Ok tt → vget key agent = Some x → vget key AGENT = Some (agent_spec key) →
  matches_type x (agent_spec key) = Some true.
Proof.
  intros Ho Hx Hk. apply object_inv in Ho as (m & -> & Hm).
  destruct (fields_get _ _ _ _ Hm Hx) as (s & Hs & ?). by assert (s = agent_spec key) as -> by congruence.
Qed.
Lemma name_field agent x :
  object agent AGENT = Ok tt → vget "name" agent = Some x → ∃ n, x = Str n ∧ name n = true ∧ str_len n <= 57.
Proof.
  intros Ho Hx. pose proof (agent_field _ _ _ Ho Hx eq_refl) as Hm.
  rewrite (leaf_inv _ _ "name") in Hm by (by vm_compute).
  apply (str_and_inv x (λ s, name s && (str_len s <=? 57))) in Hm as (n & -> & Hn). exists n. reflect. auto.
Qed.
Lemma adapter_field agent x :
  object agent AGENT = Ok tt → vget "adapter" agent = Some x → ∃ a, x = Str a ∧ a ∈ ADAPTERS.
Proof.
  intros Ho Hx. pose proof (agent_field _ _ _ Ho Hx eq_refl) as Hm.
  rewrite (leaf_inv _ _ "enum") in Hm by (by vm_compute).
  change (Some (contains_value x (Str <$> ADAPTERS)) = Some true) in Hm.
  exact (contains_texts _ _ (Some_true _ Hm)).
Qed.
Lemma definition_field agent x :
  object agent AGENT = Ok tt → vget "definition" agent = Some x →
  ∃ image, index "image" x = Str image ∧ pinned_image image = true.
Proof.
  intros Ho Hx. pose proof (agent_field _ _ _ Ho Hx eq_refl) as Hm.
  destruct (record_required x (agent_spec "definition") "image" _ _ Hm eq_refl eq_refl
    ltac:(simpl; auto) eq_refl) as (y & _ & Hy & Hmy).
  rewrite (leaf_inv _ _ "pinnedImage") in Hmy by (by vm_compute).
  apply (str_and_inv y pinned_image) in Hmy as (image & -> & ?). eauto.
Qed.
Lemma validate_agents_inv agents : ∀ seen,
  validate_agents agents seen = Ok tt →
  Forall agent_valid agents ∧ NoDup (index "name" <$> agents) ∧
  ∀ s, Str s ∈ index "name" <$> agents → s ∉ seen.
Proof.
  induction agents as [|agent agents IH]; intros seen; cbn [validate_agents].
  { intros _. split_and!; [constructor|constructor|]. intros s. simpl. set_solver. }
  fold AGENT. intros Hv. inv_ok.
  repeat match goal with
  | H : refuse_if _ _ = Ok _ |- _ => apply bail_if_Ok in H
  | H : refuse_when _ _ = Ok _ |- _ => apply refuse_when_Ok in H
  end.
  match goal with Ho : object agent AGENT = Ok _, Ha : is_none (vget "adapter" agent) = false,
    Hn : as_str (index "name" agent) = Some _, Hg : (_ && is_none _) = false, Hst : both _ _ = Some false,
    Hd : str_in _ seen = false |- _ =>
      rename Ho into HO; rename Ha into HA; rename Hn into HN; rename Hg into HG; rename Hst into HS; rename Hd into HD end.
  destruct (is_none_false _ HA) as [xa Hxa]. destruct (adapter_field _ _ HO Hxa) as (a & -> & Ha).
  destruct (vget "name" agent) as [xn|] eqn:Hxn; [|by unfold index in HN; rewrite Hxn in HN].
  destruct (name_field _ _ HO Hxn) as (n & -> & Hok). pose proof (vget_index _ _ _ Hxn) as En.
  rewrite En in HN. injection HN as <-. pose proof (vget_index _ _ _ Hxa) as Ea.
  destruct (IH _ Hv) as (Hall & Hnd & Hfresh). split_and!.
  - constructor; [|done]. exists n, a. split; try done.
    + intros ->. rewrite Ea in HG. simpl in HG. destruct (is_none_false _ HG) as [d Hd].
      rewrite (vget_index _ _ _ Hd). by eapply definition_field.
    + intros Hst Hauto. unfold stopped_adapter in HS. rewrite Ea, Hauto in HS.
      unfold STOPPED in Hst. rewrite !elem_of_cons in Hst. by destruct Hst as [->|[->|?%elem_of_nil]].
  - simpl. rewrite En. constructor; [|done]. intros Hin. by apply (Hfresh n), list_elem_of_here.
  - intros s. simpl. rewrite En, elem_of_cons. intros [[= ->]|Hin].
    + intros Hs. apply str_in_elem in Hs. congruence.
    + specialize (Hfresh s Hin). set_solver.
Qed.
