(* ===== verification/DesiredSpec.v ===== *)
(** * What an accepted desired system satisfies

    The specification [accepted], and that [validate] refuses with a message or
    accepts a system that satisfies it: agents with distinct identities and known
    adapters, backup paths that are declared, grants to declared agents only, and
    scopes and user ids that are not shared. *)

From S2P Require Import Prelude RustStr Json Activity ControlData CliHost Descriptor Desired DesiredFacts.

(** ** The specification *)

Definition identity_of (id : string) (agents : list value) (agent : value) : Prop :=
  agent ∈ agents ∧ ∃ n, id = ("agent-" ++ n)%string ∧ index "name" agent = Str n.
Definition declared_path (agents : list value) (path : value) : Prop :=
  ∃ s, path = Str s ∧
    (canonical_backup_path s = true ∨ ∃ agent, agent ∈ agents ∧ vget "stateDir" agent = Some (Str s)).
Definition run_permissions : list string := ["run_read"; "run_submit"; "run_stop"]%string.
Record granted (host : value) (agents : list value) (peer : value) : Prop := {
  gr_uid : ∃ uid, index "uid" peer = num uid ∧ 1 <= uid <= 4294967294;
  gr_agents ids id : index "agents" peer = Array ids → id ∈ ids →
    ∃ s agent, id = Str s ∧ identity_of s agents agent;
  gr_run ps p : index "permissions" peer = Array ps → p ∈ run_permissions → Str p ∉ ps;
  gr_gate ps p gate : index "permissions" peer = Array ps → (p, gate) ∈ GATES → Str p ∈ ps →
    index gate host = Bool true;
  gr_decisions ps : index "permissions" peer = Array ps →
    Str "tool_decisions" ∈ ps → Str "tool_requests" ∈ ps;
}.
Definition scope (binding : value) : value * value :=
  (index "tenant_id" binding, index "workload_id" binding).
Record accepted (v : value) (agents : list value) : Prop := {
  ac_array : index "agents" v = Array agents;
  ac_bound : blen agents <= 128;
  ac_valid : Forall agent_valid agents;
  ac_identities : NoDup (index "name" <$> agents);
  ac_backups paths : index "paths" (index "storage" v) = Array paths → Forall (declared_path agents) paths;
  ac_peers peers : index "peers" (index "hostApi" v) = Array peers →
    Forall (granted (index "hostApi" v) agents) peers ∧ NoDup (index "uid" <$> peers);
  ac_bindings : index "enable" (index "workloadMapping" v) = Bool true →
    ∃ bindings, index "bindings" (index "workloadMapping" v) = Object bindings ∧
      NoDup ((scope ∘ snd) <$> bindings) ∧
      Forall (λ kv, ∃ agent adapter, identity_of (fst kv) agents agent ∧
        index "adapter" agent = Str adapter ∧ adapter ∉ STOPPED) bindings;
  ac_research : index "enable" (index "research" v) = Bool true →
    index "profile" (index "sandbox" v) ≠ Str "dev" ∧
    ∃ clients, index "agents" (index "research" v) = Object clients ∧ clients ≠ [] ∧
      NoDup ((index "uid" ∘ snd) <$> clients) ∧
      Forall (λ kv, ∃ agent, identity_of (fst kv) agents agent ∧
        stopped_adapter agent = Some false ∧ research_capable agent = Some true) clients;
}.

(** ** Declared agents *)

Lemma declared_inv agents id agent : declared agents id = Some agent → identity_of id agents agent.
Proof.
  unfold declared. destruct (strip_prefix "agent-" id) as [n|] eqn:E; [|done].
  apply strip_prefix_Some in E. intros [Hin Hn]%find_first_Some. split; [done|]. exists n.
  split; [done|]. by apply str_is_true.
Qed.
Lemma agent_adapter agents agent :
  Forall agent_valid agents → agent ∈ agents → ∃ adapter, index "adapter" agent = Str adapter.
Proof.
  rewrite Forall_forall. intros Hall Hin. destruct (Hall _ Hin) as (n & a & []). eauto.
Qed.

(** ** Backup paths *)

Lemma backup_path_field spec x :
  type_of spec = "backupPath"%string → matches_type x spec = Some true → ∃ s, x = Str s.
Proof.
  intros Ht. rewrite (leaf_inv _ _ _ Ht) by done. unfold matches_leaf. fold (type_of spec). rewrite Ht. simpl.
  intros (s & ? & _)%str_and_inv. eauto.
Qed.
Lemma index_vget key v : index key v ≠ Null → vget key v = Some (index key v).
Proof. unfold index. by destruct (vget key v). Qed.
Definition section_spec (key field : string) : value := index field (index key SECTIONS).
Lemma checked_field root key field x :
  validate_sections root = Ok tt → plain_section key = true →
  vget key SECTIONS = Some (index key SECTIONS) →
  vget field (index key SECTIONS) = Some (section_spec key field) →
  index field (index key (Object root)) = x → x ≠ Null →
  matches_type x (section_spec key field) = Some true.
Proof.
  intros Hv Hp Hk Hf Hx Hn. eapply section_field; [exact Hv|exact Hp|exact Hk|exact Hf|].
  subst x. by apply index_vget.
Qed.
Lemma storage_paths root paths :
  validate_sections root = Ok tt → index "paths" (index "storage" (Object root)) = Array paths →
  Forall (λ x, ∃ s, x = Str s) paths.
Proof.
  intros Hv Hp.
  pose proof (checked_field _ "storage" "paths" _ Hv eq_refl eq_refl eq_refl Hp ltac:(done)) as Hm.
  apply list_inv in Hm as (items & [= ->] & Hall & _); [|done].
  eapply Forall_impl; [exact Hall|]. intros x Hx.
  exact (backup_path_field _ _ (eq_refl : type_of (index "items" (section_spec "storage" "paths")) = "backupPath"%string) Hx).
Qed.
Lemma unknown_path_inv agents s :
  unknown_path agents (Str s) = Some false → declared_path agents (Str s).
Proof.
  unfold unknown_path. simpl. intros [= Hu]. exists s. split; [done|].
  apply andb_false_iff in Hu as [Hu|Hu]; apply negb_false_iff in Hu; [by left|right].
  apply existsb_exists in Hu as (agent & Hin & Hs). exists agent. rewrite list_elem_of_In. split; [done|].
  destruct (vget "stateDir" agent) as [d|]; [|done]. simpl in Hs. by apply value_eqb_Str_r in Hs as ->.
Qed.
Lemma backup_paths_defined root agents :
  validate_sections root = Ok tt → backup_paths (index "storage" (Object root)) agents ≠ None.
Proof.
  intros Hv. unfold backup_paths. destruct (as_array _) as [paths|] eqn:E; [|done].
  destruct (index "paths" _) as [| | | |l|] eqn:Ep; simplify_eq/=.
  apply any_checks_defined, Forall_fmap. eapply Forall_impl; [by eapply storage_paths|].
  by intros x [s ->].
Qed.
Lemma backup_paths_inv root agents paths :
  validate_sections root = Ok tt → backup_paths (index "storage" (Object root)) agents = Some false →
  index "paths" (index "storage" (Object root)) = Array paths → Forall (declared_path agents) paths.
Proof.
  intros Hv Hb Hp. unfold backup_paths in Hb. rewrite Hp in Hb. simpl in Hb.
  rewrite any_checks_false, Forall_fmap in Hb. pose proof (storage_paths _ _ Hv Hp) as Hs.
  rewrite Forall_forall in *. intros x Hx. destruct (Hs _ Hx) as [s ->]. apply unknown_path_inv. by apply Hb.
Qed.

(** ** Peers *)

Definition PEER : value := index "items" (section_spec "hostApi" "peers").
Lemma owner_field x spec :
  type_of spec = "owner"%string → matches_type x spec = Some true → ∃ n, x = num n ∧ 1 <= n <= 4294967294.
Proof.
  intros Ht. rewrite (leaf_inv _ _ _ Ht) by done. unfold matches_leaf. fold (type_of spec). rewrite Ht.
  cbn -[is_some_and in_range]. intros Hs%Some_true. destruct x as [| |[n|n|n]| | |]; try done.
  simpl in Hs. apply in_range_spec in Hs. by exists n.
Qed.
Lemma array_field x spec :
  type_of spec = "list"%string → matches_type x spec = Some true → ∃ items, x = Array items.
Proof. intros Ht Hm. apply list_inv in Hm as (items & -> & _); [eauto|by rewrite Ht]. Qed.
Lemma peer_typed peer :
  matches_type peer PEER = Some true →
  ∃ uid ids ps, index "uid" peer = num uid ∧ 1 <= uid <= 4294967294
    ∧ index "agents" peer = Array ids ∧ index "permissions" peer = Array ps.
Proof.
  intros Hm.
  destruct (record_required _ PEER "uid" _ _ Hm eq_refl eq_refl ltac:(simpl; auto) eq_refl) as (u & _ & Eu & Hu).
  destruct (record_required _ PEER "agents" _ _ Hm eq_refl eq_refl ltac:(simpl; auto) eq_refl) as (a & _ & Ea & Ha).
  destruct (record_required _ PEER "permissions" _ _ Hm eq_refl eq_refl ltac:(simpl; auto) eq_refl)
    as (p & _ & Ep & Hp).
  apply owner_field in Hu as (uid & -> & ?); [|done]. apply array_field in Ha as [ids ->]; [|done].
  apply array_field in Hp as [ps ->]; [|done]. by exists uid, ids, ps.
Qed.
Lemma peers_typed root peers :
  validate_sections root = Ok tt → index "peers" (index "hostApi" (Object root)) = Array peers →
  Forall (λ p, matches_type p PEER = Some true) peers
  ∧ distinct_items (section_spec "hostApi" "peers") peers = true.
Proof.
  intros Hv Hp.
  pose proof (checked_field _ "hostApi" "peers" _ Hv eq_refl eq_refl eq_refl Hp ltac:(done)) as Hm.
  apply list_inv in Hm as (items & [= ->] & ? & _ & ?); done.
Qed.

(** No item has the key of an earlier one. *)
Lemma with_prior_NoDup {A} (f : A → value) (P : list A * A → bool) l :
  (∀ pi, P pi = true → existsb (λ prior, value_eqb (f prior) (f pi.2)) pi.1 = false) →
  ∀ acc, forallb P (with_prior acc l) = true →
  NoDup (f <$> l) ∧ ∀ x y, x ∈ l → y ∈ acc → f x ≠ f y.
Proof.
  intros HP. induction l as [|x l IH]; intros acc; simpl; [intros _; split; [constructor|set_solver]|].
  rewrite andb_true_iff. intros [Hx Hl]. apply HP in Hx. simpl in Hx.
  destruct (IH _ Hl) as [Hnd Hfresh]. split.
  - constructor; [|done]. intros (y & Hy & Hin)%list_elem_of_fmap.
    apply (Hfresh y x Hin); [set_solver|done].
  - intros z y [->|Hz]%elem_of_cons Hy; [|apply Hfresh; set_solver]. intros Heq.
    apply not_true_iff_false in Hx. apply Hx, existsb_exists. exists y. rewrite <- list_elem_of_In.
    split; [done|]. rewrite Heq. apply value_eqb_refl.
Qed.
Lemma distinct_keys spec key items :
  distinct_items spec items = true → as_str (index "uniqueBy" spec) = Some key → NoDup (index key <$> items).
Proof.
  unfold distinct_items. intros Hd Hk. rewrite Hk in Hd.
  eapply (with_prior_NoDup (index key)) in Hd as [? _]; [done|].
  intros [acc x]. simpl. rewrite andb_true_iff, negb_true_iff. naive_solver.
Qed.

Lemma peer_refused_defined host agents peer :
  matches_type peer PEER = Some true → peer_refused host agents peer ≠ None.
Proof.
  intros (uid & ids & ps & _ & _ & Ea & Ep)%peer_typed. unfold peer_refused. by rewrite Ea, Ep.
Qed.
Lemma existsb_str_is p ps : existsb (str_is p) ps = true ↔ Str p ∈ ps.
Proof.
  rewrite existsb_exists. split.
  - intros (x & Hx & Hs). apply str_is_true in Hs as ->. by apply list_elem_of_In.
  - intros Hin. exists (Str p). rewrite <- list_elem_of_In. split; [done|]. by apply str_is_true.
Qed.
Lemma existsb_false_elem {A} (f : A → bool) l x : existsb f l = false → x ∈ l → f x = false.
Proof.
  intros Hf Hx. destruct (f x) eqn:E; [|done]. apply not_true_iff_false in Hf. exfalso. apply Hf, existsb_exists.
  exists x. rewrite <- list_elem_of_In. done.
Qed.
Lemma peer_granted host agents peer :
  matches_type peer PEER = Some true → peer_refused host agents peer = Some false → granted host agents peer.
Proof.
  intros (uid & ids & ps & Eu & ? & Ea & Ep)%peer_typed. unfold peer_refused. rewrite Ea, Ep.
  cbn [as_array mbind option_bind]. intros [= Hr]. apply orb_false_iff in Hr as [Hr Hgate].
  apply orb_false_iff in Hr as [Hr Hrun]. apply orb_false_iff in Hr as [Hr Hdec].
  apply orb_false_iff in Hr as [Hids _]. split.
  - eauto.
  - intros ids' id. rewrite Ea. intros [= <-] Hid. pose proof (existsb_false_elem _ _ _ Hids Hid) as Hn.
    destruct (is_none_false _ Hn) as [agent Hagent]. destruct id as [| | |s| |]; try done. simpl in Hagent.
    exists s, agent. split; [done|]. by apply declared_inv.
  - intros ps' p. rewrite Ep. intros [= <-] Hp Hin. pose proof (existsb_false_elem (λ p, existsb (str_is p) ps) run_permissions _ Hrun Hp) as Hn.
    cbv beta in Hn. by rewrite (proj2 (existsb_str_is p ps) Hin) in Hn.
  - intros ps' p gate. rewrite Ep. intros [= <-] Hp Hin. 
    pose proof (existsb_false_elem (λ pg : string * string, existsb (str_is pg.1) ps && negb (is_true (index pg.2 host)))
      GATES _ Hgate Hp) as Hn.
    cbn [fst snd] in Hn. rewrite (proj2 (existsb_str_is p ps) Hin), andb_true_l, negb_false_iff in Hn. by apply is_true_true.
  - intros ps'. rewrite Ep. intros [= <-] Hin. apply existsb_str_is in Hin. rewrite Hin, andb_true_l, negb_false_iff in Hdec.
    by apply existsb_str_is.
Qed.
Lemma validate_peers_spec host agents peers :
  Forall (λ p, matches_type p PEER = Some true) peers →
  polite (validate_peers host agents peers)
  ∧ (validate_peers host agents peers = Ok tt → Forall (granted host agents) peers).
Proof.
  induction 1 as [|peer peers Hp _ [IH1 IH2]]; simpl; [done|]. split.
  - apply polite_bind; [|done]. apply polite_refuse_when. by apply peer_refused_defined.
  - intros Hv. inv_ok. match goal with Hr : refuse_when _ _ = _ |- _ => apply refuse_when_Ok in Hr end.
    constructor; [by apply peer_granted|auto].
Qed.

(** ** Workload bindings *)

Definition BINDING : value := index "items" (section_spec "workloadMapping" "bindings").
Lemma exact_id_field x spec :
  type_of spec = "exactId"%string → matches_type x spec = Some true → ∃ s, x = Str s.
Proof.
  intros Ht. rewrite (leaf_inv _ _ _ Ht) by done. unfold matches_leaf. fold (type_of spec). rewrite Ht.
  cbn -[str_and]. intros (s & ? & _)%str_and_inv. eauto.
Qed.
Lemma binding_typed b :
  matches_type b BINDING = Some true →
  ∃ t w, index "tenant_id" b = Str t ∧ index "workload_id" b = Str w.
Proof.
  intros Hm.
  destruct (record_required _ BINDING "tenant_id" _ _ Hm eq_refl eq_refl ltac:(simpl; auto) eq_refl)
    as (t & _ & Et & Ht).
  destruct (record_required _ BINDING "workload_id" _ _ Hm eq_refl eq_refl ltac:(simpl; auto) eq_refl)
    as (w & _ & Ew & Hw).
  apply exact_id_field in Ht as [? ->]; [|done]. apply exact_id_field in Hw as [? ->]; [|done]. eauto.
Qed.
Lemma scope_eqb_true x y : scope_eqb x y = true ↔ x = y.
Proof. destruct x, y. unfold scope_eqb. simpl. rewrite andb_true_iff, !String.eqb_eq. naive_solver. Qed.
Definition bound_to (agents : list value) (kv : string * value) : Prop :=
  ∃ agent adapter, identity_of (fst kv) agents agent ∧ index "adapter" agent = Str adapter ∧ adapter ∉ STOPPED.
Lemma not_stopped agent adapter :
  stopped_binding agent = false → index "adapter" agent = Str adapter → adapter ∉ STOPPED.
Proof.
  unfold stopped_binding. intros [H1 H2]%orb_false_iff Ha Hin. rewrite Ha in *.
  unfold STOPPED in Hin. rewrite !elem_of_cons in Hin. by destruct Hin as [->|[->|?%elem_of_nil]].
Qed.
Lemma validate_bindings_spec agents bindings :
  Forall agent_valid agents → Forall (λ kv, matches_type (snd kv) BINDING = Some true) bindings →
  ∀ seen, polite (validate_bindings agents bindings seen) ∧
  (validate_bindings agents bindings seen = Ok tt →
   Forall (bound_to agents) bindings ∧ NoDup ((scope ∘ snd) <$> bindings) ∧
   ∀ t w, (Str t, Str w) ∈ (scope ∘ snd) <$> bindings → (t, w) ∉ seen).
Proof.
  intros Hagents. induction 1 as [|[id b] bindings Hb _ IH]; intros seen; cbn [validate_bindings].
  { split; [done|]. intros _. split_and!; [constructor|constructor|set_solver]. }
  cbn [snd] in Hb. destruct (binding_typed _ Hb) as (t & w & Et & Ew). rewrite Et, Ew. cbn [as_str unwrap ok_or].
  assert (scope b = (Str t, Str w)) as Es by (unfold scope; congruence).
  destruct (IH ((t, w) :: seen)) as [IH1 IH2]. split.
  { apply polite_bind; [apply polite_refuse|intros _ _]. cbn [mbind result_bind].
    by apply polite_bind; [apply polite_refuse|]. }
  intros Hv. inv_ok. repeat match goal with Hx : Ok _ = Ok _ |- _ => injection Hx as <- end.
  repeat match goal with Hr : refuse_if _ _ = _ |- _ => apply bail_if_Ok in Hr end.
  match goal with Hs : is_none_or _ _ = false, Hd : existsb _ seen = false |- _ => rename Hs into HS; rename Hd into HD end.
  destruct (declared agents id) as [agent|] eqn:Ed; [|done]. apply declared_inv in Ed.
  destruct (IH2 Hv) as (Hall & Hnd & Hfresh). split_and!.
  - constructor; [|done]. destruct (agent_adapter agents agent) as [adapter Ha]; [done|by destruct Ed|].
    exists agent, adapter. split_and!; [done|done|]. by eapply not_stopped.
  - rewrite fmap_cons. change ((scope ∘ snd) (id, b)) with (scope b). rewrite Es. constructor; [|done]. intros Hin.
    by apply (Hfresh t w Hin), list_elem_of_here.
  - intros t' w'. rewrite fmap_cons. change ((scope ∘ snd) (id, b)) with (scope b). rewrite Es. intros [[= -> ->]|Hin]%elem_of_cons.
    + intros Hs. pose proof (existsb_false_elem _ _ _ HD Hs) as Hn.
      by rewrite (proj2 (scope_eqb_true (t, w) (t, w)) eq_refl) in Hn.
    + specialize (Hfresh t' w' Hin). set_solver.
Qed.
Definition shared_fields (root : list (string * value)) (key field : string) : Prop :=
  ∀ m, index field (index key (Object root)) = Object m →
  Forall (λ kv, matches_type (snd kv) (index "items" (section_spec key field)) = Some true) m.
Lemma map_fields root key field :
  validate_sections root = Ok tt → plain_section key = true →
  vget key SECTIONS = Some (index key SECTIONS) →
  vget field (index key SECTIONS) = Some (section_spec key field) →
  (type_of (section_spec key field) =? "map")%string = true → shared_fields root key field.
Proof.
  intros Hv Hp Hk Hf Ht m Hm.
  pose proof (checked_field _ _ _ _ Hv Hp Hk Hf Hm ltac:(done)) as Hx.
  apply map_inv in Hx as (m' & [= <-] & _ & Hall); [|done]. eapply Forall_impl; [exact Hall|]. naive_solver.
Qed.

Lemma validate_mapping_spec root agents :
  validate_sections root = Ok tt → Forall agent_valid agents →
  let mapping := index "workloadMapping" (Object root) in
  polite (validate_mapping (Object root) mapping agents) ∧
  (validate_mapping (Object root) mapping agents = Ok tt → index "enable" mapping = Bool true →
   ∃ bindings, index "bindings" mapping = Object bindings ∧
     NoDup ((scope ∘ snd) <$> bindings) ∧ Forall (bound_to agents) bindings).
Proof.
  intros Hv Hagents mapping. unfold validate_mapping.
  pose proof (map_fields root "workloadMapping" "bindings" Hv eq_refl eq_refl eq_refl eq_refl) as Hf.
  destruct (is_true (index "enable" mapping)) eqn:E; [|split; [done|]; intros _ He; by rewrite He in E].
  destruct (has_key "bindings" mapping) eqn:Hb.
  2:{ rewrite orb_true_r. by split; [|intros ? ?]. }
  assert (∃ m, index "bindings" mapping = Object m) as [m Hm].
  { unfold has_key in Hb. destruct (vget "bindings" mapping) as [x|] eqn:Hx; [|done].
    apply vget_index in Hx as Hi. fold mapping in Hi.
    assert (matches_type x (section_spec "workloadMapping" "bindings") = Some true) as Hm.
    { eapply section_field; [exact Hv| | | |exact Hx]; reflexivity. }
    apply map_inv in Hm as (m & -> & _); [eauto|done]. }
  rewrite Hm. destruct (validate_bindings_spec agents m Hagents (Hf m Hm) []) as [Hpol Hspec].
  split; [by apply polite_bind; [apply polite_refuse|]|].
  intros Hok _. inv_ok. match goal with Hx : unwrap _ = _ |- _ => injection Hx as <- end.
  destruct (Hspec Hok) as (? & ? & _). eauto.
Qed.

(** ** Research clients *)

Definition CLIENT : value := index "items" (section_spec "research" "agents").
Lemma client_typed c : matches_type c CLIENT = Some true → ∃ uid, index "uid" c = num uid.
Proof.
  intros Hm.
  destruct (record_required _ CLIENT "uid" _ _ Hm eq_refl eq_refl ltac:(simpl; auto) eq_refl) as (u & _ & Eu & Hu).
  apply owner_field in Hu as (uid & -> & _); [eauto|done].
Qed.
Lemma research_refused_defined agents id : Forall agent_valid agents → research_refused agents id ≠ None.
Proof.
  intros Hagents. unfold research_refused. destruct (declared agents id) as [agent|] eqn:E; [|done].
  apply declared_inv in E as [Hin _]. destruct (agent_adapter _ _ Hagents Hin) as [a Ha].
  apply either_defined; [done|intros _]. unfold not_check, research_capable. by rewrite Ha.
Qed.
Definition served_by (agents : list value) (kv : string * value) : Prop :=
  ∃ agent, identity_of (fst kv) agents agent ∧ stopped_adapter agent = Some false ∧ research_capable agent = Some true.
Lemma research_served agents id c : research_refused agents id = Some false → served_by agents (id, c).
Proof.
  unfold research_refused. destruct (declared agents id) as [agent|] eqn:E; [|done].
  intros [Hs Hr]%either_false. exists agent. apply declared_inv in E. split_and!; [done|done|].
  unfold not_check in Hr. by destruct (research_capable agent) as [[]|].
Qed.
Lemma validate_clients_spec agents clients :
  Forall agent_valid agents → Forall (λ kv, matches_type (snd kv) CLIENT = Some true) clients →
  ∀ seen, polite (validate_clients agents clients seen) ∧
  (validate_clients agents clients seen = Ok tt →
   Forall (served_by agents) clients ∧ NoDup ((index "uid" ∘ snd) <$> clients) ∧
   ∀ u, num u ∈ (index "uid" ∘ snd) <$> clients → u ∉ seen).
Proof.
  intros Hagents. induction 1 as [|[id c] clients Hc _ IH]; intros seen; cbn [validate_clients].
  { split; [done|]. intros _. split_and!; [constructor|constructor|set_solver]. }
  cbn [snd] in Hc. destruct (client_typed _ Hc) as [u Eu]. rewrite Eu. cbn [as_u64 num unwrap ok_or].
  destruct (IH (u :: seen)) as [IH1 IH2]. split.
  { apply polite_bind; [by apply polite_refuse_when, research_refused_defined|intros _ _].
    cbn [mbind result_bind]. by apply polite_bind; [apply polite_refuse|]. }
  intros Hv. inv_ok. repeat match goal with Hx : Ok _ = Ok _ |- _ => injection Hx as <- end.
  match goal with Hs : refuse_when _ _ = _, Hd : refuse_if _ _ = _ |- _ =>
    apply refuse_when_Ok in Hs; apply bail_if_Ok in Hd; rename Hs into HS; rename Hd into HD end.
  destruct (IH2 Hv) as (Hall & Hnd & Hfresh). rewrite !fmap_cons.
  change ((index "uid" ∘ snd) (id, c)) with (index "uid" c). rewrite Eu. split_and!.
  - constructor; [by apply research_served|done].
  - constructor; [|done]. intros Hin. by apply (Hfresh u Hin), list_elem_of_here.
  - intros u' [[= ->]|Hin]%elem_of_cons.
    + intros Hs. pose proof (existsb_false_elem _ _ _ HD Hs) as Hn. by rewrite Z.eqb_refl in Hn.
    + specialize (Hfresh u' Hin). set_solver.
Qed.
Lemma validate_research_spec root agents :
  validate_sections root = Ok tt → Forall agent_valid agents →
  let research := index "research" (Object root) in
  polite (validate_research (Object root) research agents) ∧
  (validate_research (Object root) research agents = Ok tt → index "enable" research = Bool true →
   index "profile" (index "sandbox" (Object root)) ≠ Str "dev" ∧
   ∃ clients, index "agents" research = Object clients ∧ clients ≠ [] ∧
     NoDup ((index "uid" ∘ snd) <$> clients) ∧ Forall (served_by agents) clients).
Proof.
  intros Hv Hagents research. unfold validate_research.
  pose proof (map_fields root "research" "agents" Hv eq_refl eq_refl eq_refl eq_refl) as Hf.
  destruct (is_true (index "enable" research)) eqn:E; [|split; [done|]; intros _ He; by rewrite He in E].
  destruct (index "agents" research) as [| | | | |m] eqn:Hm; try by split; [|intros ? ?].
  destruct (validate_clients_spec agents m Hagents (Hf m Hm) []) as [Hpol Hspec]. split.
  { apply polite_bind; [apply polite_ok_or|]. intros clients Hc%ok_or_Ok. simpl in Hc.
    destruct (bool_decide (m = [])); [done|]. simpl in Hc. injection Hc as <-.
    by apply polite_bind; [apply polite_refuse|]. }
  intros Hok _. inv_ok. match goal with Hx : ofilter _ _ = Some _ |- _ => simpl in Hx; rename Hx into HF end.
  case_bool_decide as Hne; [done|]. simpl in HF. injection HF as <-.
  match goal with Hr : refuse_if _ _ = _ |- _ => apply bail_if_Ok in Hr; rename Hr into HR end.
  destruct (Hspec Hok) as (? & ? & _). split; [|eauto]. intros Hdev. by rewrite Hdev in HR.
Qed.

(** ** [validate] *)

Lemma validate_services_spec root agents :
  validate_sections root = Ok tt → Forall agent_valid agents →
  polite (validate_services (Object root) agents).
Proof.
  intros Hv Hagents. unfold validate_services.
  do 2 (apply polite_bind; [apply polite_refuse|intros _ _]).
  apply polite_bind; [by apply polite_refuse_when, backup_paths_defined|intros _ _].
  apply polite_bind.
  { destruct (index "peers" (index "hostApi" (Object root))) as [| | | |peers|] eqn:Hp; try done.
    apply validate_peers_spec. by eapply peers_typed. }
  intros _ _. apply polite_bind; [by apply validate_mapping_spec|intros _ _]. by apply validate_research_spec.
Qed.

(** The validator never panics: whatever the document holds - missing sections,
    wrong types, empty names, absent fields - none of its [unwrap]s, slices and
    indexings fails.  This includes that the embedded descriptor is well formed. *)
Lemma validate_polite v : polite (validate v).
Proof.
  unfold validate. apply polite_bind; [apply polite_ok_or|]. intros root Hroot%ok_or_Ok.
  destruct v as [| | | | |m]; try done. injection Hroot as ->.
  apply polite_bind; [apply polite_refuse|intros _ _].
  apply polite_bind; [apply validate_sections_polite|intros [] Hs].
  apply polite_bind; [apply polite_ok_or|intros agents _]. apply polite_bind; [apply polite_refuse|intros _ _].
  apply polite_bind; [apply validate_agents_polite|intros [] Ha]. apply validate_services_spec; [done|].
  by destruct (validate_agents_inv _ _ Ha).
Qed.

Lemma index_array key v l : as_array (index key v) = Some l → index key v = Array l.
Proof. destruct (index key v); naive_solver. Qed.
Lemma services_peers root agents peers :
  validate_sections root = Ok tt → validate_services (Object root) agents = Ok tt →
  index "peers" (index "hostApi" (Object root)) = Array peers →
  Forall (granted (index "hostApi" (Object root)) agents) peers ∧ NoDup (index "uid" <$> peers).
Proof.
  intros Hv Hs Hp. unfold validate_services in Hs. inv_ok. rewrite Hp in *.
  destruct (peers_typed _ _ Hv Hp) as [Ht Hd]. split; [|by eapply distinct_keys].
  eapply validate_peers_spec; [exact Ht|]. by match goal with H : _ = Ok () |- _ => exact H end.
Qed.

