(* ===== verification/DesiredRun.v ===== *)
(** * The [config] command over the file system

    Migration publishes one new private file, whose text parses back to the
    migrated value, or changes nothing; the other commands only read. *)

From S2P Require Import Prelude RustStr Json Posix PrivateStore Activity ControlData CliHost Descriptor Desired.

(** ** Readers *)

(** The path a name of the command line stands for. *)
Definition located (c : cli) (p : string) : string := resolve (e_cwd (c_env c)) p.
Lemma located_same c c' p : same_cli c c' → located c' p = located c p.
Proof. unfold located. by intros [_ ->]. Qed.

Lemma reads_at_path {A} message (call : string → Sys A) (p : string) (Q : string → world → A → Prop) :
  (∀ p, reader (call p) (Q p)) →
  reads (at_path message call p) (λ c a, Q (located c p) (c_world c) a).
Proof. intros Hc c. exact (reads_fs (λ _, message) _ _ (Hc (located c p)) c). Qed.
Lemma command_reads_file p : reader (sys_read_file p) (λ w b, ∃ x, follow 40 w p = Ok x ∧ b = i_data x).
Proof.
  intros w. unfold sys_read_file. apply wp_simple; intros fs; [apply same_fs_faults|].
  apply run_wp. rewrite follow_faults. destruct (follow 40 w p) as [x|]; [|auto with broker].
  destruct (i_kind x) eqn:K; auto with broker. split; [auto with broker|eauto].
Qed.
Lemma follow_same n w w' p : same_fs w w' → follow n w' p = follow n w p.
Proof.
  intros S. revert p. induction n as [|n IH]; intros p; cbn [follow]; rewrite (lookup_inode_same _ _ p S); [done|].
  destruct (lookup_inode w p) as [[i x]|]; [|done]. by destruct (i_kind x).
Qed.
Lemma follow_plain n w p i x : lookup_inode w p = Some (i, x) → i_kind x = Regular → follow n w p = Ok x.
Proof. intros Hl Hk. destruct n; cbn [follow]; by rewrite Hl, Hk. Qed.

(** A bounded regular file of that name, and its content. *)
Definition plain_file (limit : Z) (w : world) (p : string) (b : bytes) : Prop :=
  ∃ i x, lookup_inode w p = Some (i, x) ∧ i_kind x = Regular ∧ blen (i_data x) <= limit ∧ b = i_data x.
Lemma regular_input_inv m : negb (regular_input m) = false → i_kind m.2 = Regular ∧ blen (i_data m.2) <= MAX_INPUT.
Proof. unfold regular_input. intros ?. by reflect. Qed.
Lemma reads_bounded message p i x c :
  lookup_inode (c_world c) (located c p) = Some (i, x) → i_kind x = Regular → blen (i_data x) <= MAX_INPUT →
  wp (read_bounded message p) (λ b c', same_cli c c' ∧ b = i_data x) (λ _ c', same_cli c c') c.
Proof.
  intros Hl Hk Hb. unfold read_bounded.
  eapply wp_reads; [apply (reads_at_path message sys_read_file p _ command_reads_file)|done|].
  intros b c' S (y & Hy & ->). apply wp_ret. split; [done|].
  rewrite (follow_plain _ _ _ _ _ Hl Hk) in Hy. injection Hy as <-. apply take_bytes_all. lia.
Qed.
Lemma reads_read_file p : reads (read_file p) (λ c b, plain_file MAX_INPUT (c_world c) (located c p) b).
Proof.
  intros c. unfold read_file.
  eapply wp_reads; [apply (reads_at_path _ sys_symlink_metadata p _ reader_symlink_metadata)|done|].
  intros [i x] c1 S1 Hl. apply wp_bind, wp_throw_if; [done|]. intros [Hk Hb]%regular_input_inv.
  assert (lookup_inode (c_world c1) (located c1 p) = Some (i, x)) as Hl1.
  { rewrite (located_same _ _ _ S1), (lookup_inode_same _ _ _ (sc_fs _ _ S1)). exact Hl. }
  apply wp_bind. eapply wp_mono; [exact (reads_bounded _ p i x c1 Hl1 Hk Hb)| |].
  - intros b c2 [S2 ->]. apply wp_bind, wp_throw_if; [intros _; by etrans|]. intros _. apply wp_ret.
    split; [by etrans|]. by exists i, x.
  - intros e c2 S2. by etrans.
Qed.
Lemma reads_absent p : reads (absent p) (λ _ _, True).
Proof.
  intros c. unfold absent. apply wp_bind, wp_gets, wp_bind. apply wp_zoom, wp_attempt.
  eapply wp_mono; [apply reader_symlink_metadata| |].
  - intros a w [S _]. apply wp_ret. split; [by apply same_cli_world|done].
  - intros e w S. apply wp_ret. split; [by apply same_cli_world|done].
Qed.
Lemma reads_refuse_names message d names : reads (refuse_names message d names) (λ _ _, True).
Proof.
  induction names as [|n names IH]; simpl; [by eapply reads_any, reads_ret|].
  eapply reads_bind; [apply reads_absent|]. intros r. by eapply reads_bind; [apply reads_throw_if|].
Qed.

Section facts.
Context `{SerdeJson} `{TomlEdit}.

Lemma reads_check action input mode : reads (run_check action input mode) (λ _ _, True).
Proof.
  unfold run_check. eapply reads_bind; [apply reads_throw_if|]. intros _.
  eapply reads_bind; [apply reads_refuse_names|]. intros _.
  eapply reads_bind; [apply reads_read_file|]. intros b. eapply reads_bind; [apply reads_lift|]. intros v.
  eapply reads_bind; [|intros _; by eapply reads_any, reads_ret].
  destruct (action =? "normalize")%string; destruct (m_json mode); try apply reads_println.
  eapply reads_bind; [apply reads_lift|]. intros text. apply reads_print.
Qed.

(** ** Publication *)

(** What was written is removed; every other file is as it was. *)
Lemma discard_spec p w0 w :
  (∀ q, q ≠ p → keeps q w0 w) →
  wp (_ ← attempt (sys_remove p); fail (A := unit) (Fail "cannot persist migration output"))
    (λ _ _, False)
    (λ e w', e = Fail "cannot persist migration output" ∧ ∀ q, q ≠ p → keeps q w0 w') w.
Proof.
  intros K. assert (wf w) as W by (apply (K (p ++ "x")%string); by apply append_ne).
  apply wp_bind, wp_attempt. apply wp_simple; intros fs.
  { apply wp_fail. split; [done|]. intros q Hq. eapply keeps_same; [by apply K|apply same_fs_faults]. }
  apply run_wp. simpl. destruct (w_names w !! p); (split; [done|]); intros q Hq.
  - eapply keeps_trans; [eapply keeps_same; [by apply K|apply (same_fs_faults fs)]|]. by apply keeps_delete.
  - eapply keeps_same; [by apply K|apply same_fs_faults].
Qed.
Lemma persist_new output text c :
  wf (c_world c) →
  let p := located c output in
  wp (persist output text)
    (λ _ c', lookup_inode (c_world c) p = None ∧ placed 384 (c_world c') p (str_bytes text)
             ∧ ∀ q, q ≠ p → spares q c c')
    (λ e c', (∃ m, e = Fail m) ∧ (∀ q, q ≠ p → spares q c c')
             ∧ (is_Some (lookup_inode (c_world c) p) → same_cli c c')) c.
Proof.
  intros Hwf p. unfold persist. apply wp_bind, wp_gets. apply wp_bind. unfold at_path. apply wp_bind, wp_gets.
  fold (located c output). fold p. apply wp_zoom, wp_map_err.
  eapply wp_mono; [apply (wp_conj _ _ _ _ _ _ (wp_create_pending p 384 (c_world c) Hwf) (wp_create_new p 384 (c_world c) Hwf))| |].
  2:{ intros e w [S _]. split_and!; [eauto| |].
      - intros q _. by apply same_cli_spares, same_cli_world.
      - intros _. by apply same_cli_world. }
  intros f w [[P K] (Hfree & _ & _)]. apply wp_zoom. apply wp_closing.
  assert (∀ q w', q ≠ p → keeps q w w' → spares q c (set_world (λ _, w') (set_world (λ _, w) c))) as Kq.
  { intros q w' Hq K'. split; [|done]. simpl. eapply keeps_trans; [by apply K|done]. }
  pose proof (discard_spec p (c_world c)) as Hdiscard.
  apply wp_bind, wp_attempt, wp_bind. simpl c_world.
  wp_apply (wp_write_pending 384 p f (str_bytes text) w P).
  - intros _ w2 [P2 K2]. wp_apply reader_sync.
    + intros _ w3 [S3 _]. apply wp_ret. split_and!; [done| |].
      * eapply placed_close. destruct (pending_same _ _ _ _ _ _ P2 S3) as [_ ? ? ?]. by exists (fd_ino f).
      * intros q Hq. apply Kq; [done|]. eapply keeps_trans; [eapply keeps_same; [by apply K2|done]|].
        apply keeps_close. rewrite <-S3. apply P2.
    + intros e w3 S3. change (same_fs w2 w3) in S3. wp_apply Hdiscard.
      * intros q Hq. eapply keeps_same; [|exact S3]. eapply keeps_trans; [by apply K|by apply K2].
      * done.
      * intros e' w4 [-> K4]. split_and!; [eauto| |by intros [? ?]; congruence]. intros q Hq.
        split; [|done]. eapply keeps_trans; [by apply K4|]. apply keeps_close. by apply (K4 q Hq).
  - intros e w2 K2. wp_apply Hdiscard.
    + intros q Hq. eapply keeps_trans; [by apply K|by apply K2].
    + done.
    + intros e' w4 [-> K4]. split_and!; [eauto| |by intros [? ?]; congruence]. intros q Hq.
      split; [|done]. eapply keeps_trans; [by apply K4|]. apply keeps_close. by apply (K4 q Hq).
Qed.

(** ** The command *)

(** The value a source file holds, as migration reads it. *)
Definition source_value (tokens : bytes → option raw) (input : string) (b : bytes) (v : value) : Prop :=
  if opt_str_eq (path_extension input) "json" then tokens b ≫= unique_json = Some v else parse b = Ok v.
(** The text is the value's: it parses back to an equal, valid system. *)
Definition text_of (text : string) (v : value) : Prop :=
  validate v = Ok tt ∧ ∃ v', parse (str_bytes text) = Ok v' ∧ value_eqb v' v = true.
Lemma normalize_text v text : normalize v = Ok text → text_of text v.
Proof.
  unfold normalize. intros Hn. inv_ok.
  repeat match goal with Hr : refuse_if _ _ = _ |- _ => apply bail_if_Ok in Hr end. reflect.
  injection Hn as <-. split; [done|]. eauto.
Qed.
Lemma migrate_text tokens input b text :
  migrate tokens b (opt_str_eq (path_extension input) "json") = Ok text →
  ∃ v, source_value tokens input b v ∧ text_of text v.
Proof.
  unfold migrate, source_value. intros Hm. apply result_bind_Ok in Hm as (v & Hv & Hn). exists v.
  split; [|by apply normalize_text]. destruct (opt_str_eq _ _); [|done]. by inv_ok.
Qed.

Definition untouched (p : string) (c c' : cli) : Prop :=
  (∀ q, q ≠ p → spares q c c') ∧ (is_Some (lookup_inode (c_world c) p) → same_cli c c').
Lemma same_untouched p c c' : wf (c_world c) → same_cli c c' → untouched p c c'.
Proof. intros Hwf S. split; [|done]. intros q _. by apply same_cli_spares. Qed.
Lemma run_migrate_spec tokens input output mode c :
  wf (c_world c) →
  wp (run_migrate tokens input output mode)
    (λ r c', r = 0 ∧ untouched (located c output) c c' ∧ ∃ b v text,
       plain_file MAX_INPUT (c_world c) (located c input) b ∧ source_value tokens input b v ∧
       text_of text v ∧ placed 384 (c_world c') (located c output) (str_bytes text))
    (λ _ c', untouched (located c output) c c') c.
Proof.
  intros Hwf. unfold run_migrate.
  do 2 (apply wp_bind, wp_throw_if; [by intros; apply same_untouched|]; intros _).
  eapply wp_reads; [apply reads_read_file|by intros; apply same_untouched|]. intros b c1 S1 Hb.
  apply wp_bind, wp_lift; [|by intros; apply same_untouched].
  intros text (v & Hv & Ht)%migrate_text.
  assert (wf (c_world c1)) as Hwf1 by by eapply same_cli_wf.
  assert (∀ c2, untouched (located c output) c1 c2 → untouched (located c output) c c2) as Hun.
  { intros c2 [U1 U2]. split.
    - intros q Hq. eapply spares_trans; [by apply same_cli_spares|by apply U1].
    - intros Hl. etrans; [exact S1|]. apply U2. by rewrite (lookup_inode_same _ _ _ (sc_fs _ _ S1)). }
  rewrite <-(located_same _ _ output S1) in *. apply wp_bind. wp_apply (persist_new output text c1 Hwf1).
  - intros _ c2 (Hfree & Hp & K).
    assert (untouched (located c1 output) c1 c2) as U2 by (split; [done|]; rewrite Hfree; by intros [? ?]).
    eapply wp_reads.
    + assert (reads (if m_json mode then println (quoted
          "{'schemaVersion':1,'valid':true,'migrated':true,'sourceRetained':true}")
        else println ("Migration preserved all supported data; source retained. "
                      ++ "Review and archive legacy files before loading.")) (λ _ _, True)) as Hr
        by (destruct (m_json mode); apply reads_println). exact Hr.
    + intros c3 S3 _. apply Hun. destruct U2 as [U2 U3].
      split; [intros q Hq; eapply spares_same; [by apply U2|done]|intros Hl; etrans; [by apply U3|done]].
    + intros _ c3 S3 _. apply wp_ret. split; [done|]. split.
      * apply Hun. destruct U2 as [U2 U3].
        split; [intros q Hq; eapply spares_same; [by apply U2|done]|intros Hl; etrans; [by apply U3|done]].
      * exists b, v, text. split_and!; try done.
        eapply placed_keeps; [|exact Hp]. apply same_fs_keeps; [|apply S3].
        destruct (K (located c1 output ++ "x")%string) as [K' _]; [by apply append_ne|apply K'].
  - intros e c2 (_ & K & Hs). by apply Hun.
Qed.

Lemma run_inner_migrate tokens input output mode c :
  run_inner tokens ["migrate"%string; input; output] mode c =
  if m_hide mode then (Err (Fail "--hide is unavailable for desired-system data"), c)
  else run_migrate tokens input output mode c.
Proof. unfold run_inner. by destruct (m_hide mode). Qed.
End facts.
