(* ===== verification/CliCommands.v ===== *)
(** * The commands of the command line: [crates/tentaflake-cli/src/main.rs]

    Child processes and their bounded inspection, the security doctor with its
    live findings, and the operator's commands. *)

From S2P Require Import Prelude RustStr Json Posix Policy WorkerFs Manifest Live Activity CliHost Descriptor Desired.

Section commands.
Context `{SerdeJson} `{Display}.

(** ** Child processes *)

Definition LIVE_INSPECTION_TIMEOUT : Z := 5000.
Definition MAX_LIVE_INSPECTION_OUTPUT_BYTES : Z := 8 * 1024 * 1024.

Definition output (argv : list string) : Cli (result string outcome) :=
  r ← command_output argv;
  mret match r with
       | Ok o => Ok o
       | Err e => Err ("cannot execute " ++ default EmptyString (head argv) ++ ": " ++ e)%string
       end.
Definition status_text (code : option Z) : string :=
  match code with Some c => ("exit status: " ++ pretty c)%string | None => "signal"%string end.
Definition checked_output (argv : list string) : Cli outcome :=
  r ← output argv;
  o ← lift (match r with Ok o => Ok o | Err e => Err (Fail e) end);
  _ ← throw_if (negb (o_success o))
        (Fail (default EmptyString (head argv) ++ " exited with " ++ status_text (o_code o)));
  mret o.
Definition exec (argv : list string) : Cli Z :=
  e ← command_exec argv;
  fail (Fail ("cannot execute " ++ default EmptyString (head argv) ++ ": " ++ e)).

(** At most [n] reads of a stream: end of file reached, output, bytes left. *)
Fixpoint read_inspection_stream (n : nat) (reads : list stream_read) (captured : bytes) (remaining : Z) :
    result string (bool * bytes * Z) :=
  match n, reads with
  | S n, SData b :: reads =>
      if (length b =? 0)%nat then Ok (true, captured, remaining)
      else if remaining <? blen b then Err "inspection output limit exceeded"%string
      else read_inspection_stream n reads (captured ++ b) (remaining - blen b)
  | S n, SInterrupted :: reads => read_inspection_stream n reads captured remaining
  | S _, SError e :: _ => Err e
  | S _, SWouldBlock :: _ | S _, [] | O, _ => Ok (false, captured, remaining)
  end.
(** A stream is read until its end was seen. *)
Definition read_unless (eof : bool) (reads : list stream_read) (captured : bytes) (remaining : Z) :
    result string (bool * bytes * Z) :=
  if eof then Ok (true, captured, remaining) else read_inspection_stream 8 reads captured remaining.
Definition seconds (ms : Z) : string := (pretty (ms / 1000) ++ "s")%string.
Definition named (what program : string) (r : result string (bool * bytes * Z)) : result string (bool * bytes * Z) :=
  match r with
  | Ok x => Ok x
  | Err e => Err ("cannot collect " ++ program ++ " " ++ what ++ ": " ++ e)%string
  end.
(** The loop of [output_with_timeout]; no script outlives the deadline. *)
Fixpoint inspect_loop (program : string) (deadline timeout : Z) (turns : list turn)
    (out err : bytes) (out_eof err_eof : bool) (remaining : Z) : result string outcome :=
  let late := Err (program ++ " exceeded the " ++ seconds timeout ++ " inspection timeout")%string in
  match turns with
  | [] => late
  | t :: turns =>
      if deadline <=? t_now t then late
      else
        '(out_eof, out, remaining) ← named "stdout" program (read_unless out_eof (t_out t) out remaining);
        '(err_eof, err, remaining) ← named "stderr" program (read_unless err_eof (t_err t) err remaining);
        match t_wait t with
        | Err e => Err ("cannot wait for " ++ program ++ ": " ++ e)%string
        | Ok (Some code) =>
            if out_eof && err_eof then Ok (mkOutcome code out err)
            else inspect_loop program deadline timeout turns out err out_eof err_eof remaining
        | Ok None => inspect_loop program deadline timeout turns out err out_eof err_eof remaining
        end
  end.
(** The outcome, and whether a child was killed and reaped. *)
Definition inspect (program : string) (timeout : Z) (n : inspection) : result string outcome * bool :=
  match n_pipes n, n_spawn n with
  | Err e, _ => (Err ("cannot capture " ++ program ++ " " ++ e)%string, false)
  | Ok _, Err e => (Err ("cannot execute " ++ program ++ ": " ++ e)%string, false)
  | Ok _, Ok _ =>
      let r := inspect_loop program (n_start n + timeout) timeout (n_turns n) [] [] false false
                 MAX_LIVE_INSPECTION_OUTPUT_BYTES in
      (r, negb (is_ok r))
  end.
Definition output_with_timeout (argv : list string) (timeout : Z) : Cli (result string outcome) := λ c,
  let program := default EmptyString (head argv) in
  match c_inspections c with
  | [] => (Ok (Err ("cannot execute " ++ program ++ ": ")%string), set_ran (λ l, l ++ [argv]) c)
  | n :: rest =>
      (Ok (fst (inspect program timeout n)), set_inspections (λ _, rest) (set_ran (λ l, l ++ [argv]) c))
  end.

(** ** Broker health *)

Inductive BrokerHealth : Type := Ready | Unavailable | Unhealthy.
(** [Display] of an [IpAddr]. *)
Definition hex_group (n : Z) : string :=
  let d x := if x <? 10 then x + 48 else x + 87 in
  let l := [n / 4096 mod 16; n / 256 mod 16; n / 16 mod 16; n mod 16] in
  bytes_str (d <$> match drop_while (Z.eqb 0) l with [] => [0] | l => l end).
(** The longest run of zeros, the first of the longest: its start and length. *)
Fixpoint zero_run (l : list Z) : nat :=
  match l with 0 :: l => S (zero_run l) | _ => O end.
Fixpoint longest_zeros (i : nat) (l : list Z) (best : nat * nat) : nat * nat :=
  match l with
  | [] => best
  | _ :: l' => longest_zeros (S i) l' (if (snd best <? zero_run l)%nat then (i, zero_run l) else best)
  end.
Definition ip_text (a : IpAddr) : string :=
  match a with
  | V4 a b c d => join "." (pretty <$> [a; b; c; d])
  | V6 0 0 0 0 0 65535 g h =>
      ("::ffff:" ++ join "." (pretty <$> [g / 256; g mod 256; h / 256; h mod 256]))%string
  | V6 s0 s1 s2 s3 s4 s5 s6 s7 =>
      let l := [s0; s1; s2; s3; s4; s5; s6; s7] in
      let '(i, n) := longest_zeros 0 l (O, O) in
      if (1 <? n)%nat then (join ":" (hex_group <$> take i l) ++ "::" ++ join ":" (hex_group <$> drop (i + n) l))%string
      else join ":" (hex_group <$> l)
  end.
Definition crlf : string := bytes_str [13; 10].
Definition health_request (endpoint : SocketAddr) : string :=
  ("GET /healthz HTTP/1.1" ++ crlf ++ "Host: " ++ ip_text (ip endpoint) ++ crlf
   ++ "Connection: close" ++ crlf ++ crlf)%string.
Definition health_of (response : bytes) : BrokerHealth :=
  if 8192 <? blen response then Unavailable
  else
    let response := from_utf8_lossy response in
    if (starts_with "HTTP/1.1 200 " response || starts_with "HTTP/1.0 200 " response)
       && contains_str (quoted "'status':'ready'") response
    then Ready else Unhealthy.
Definition probe_broker_health (endpoint : SocketAddr) : Cli BrokerHealth := λ c,
  match c_probes c with
  | [] => (Ok Unavailable, c)
  | p :: rest =>
      let c := set_probes (λ _, rest) c in
      if negb (pb_connects p) || negb (pb_timeouts p) then (Ok Unavailable, c)
      else
        let c := set_sent (λ l, l ++ [(endpoint, health_request endpoint)]) c in
        if negb (pb_writes p) then (Ok Unavailable, c)
        else (Ok match pb_response p with
                 | Some b => health_of (take_bytes 8193 b)
                 | None => Unavailable
                 end, c)
  end.
Definition MAX_PARALLEL_BROKER_HEALTH_PROBES : nat := 16.
(** [chunks]. *)
Fixpoint chunks {A} (fuel n : nat) (l : list A) : list (list A) :=
  match fuel, l with
  | O, _ | _, [] => []
  | S fuel, _ => take n l :: chunks fuel n (drop n l)
  end.
Fixpoint for_each {A B} (f : A → Cli B) (l : list A) : Cli (list B) :=
  match l with
  | [] => mret []
  | x :: l => y ← f x; ys ← for_each f l; mret (y :: ys)
  end.
(** The threads of a batch are independent, and joined in order. *)
Definition probe_broker_health_bounded (endpoints : list SocketAddr) : Cli (list BrokerHealth) :=
  batches ← for_each (for_each probe_broker_health)
              (chunks (length endpoints) MAX_PARALLEL_BROKER_HEALTH_PROBES endpoints);
  mret (concat batches).

(** ** Live findings *)

Definition inspect_arguments (backend container : string) : list string :=
  ["-n"; backend; "inspect"; container]%string.
Definition inspect_arguments_for_agent (backend : string) (agent : SecurityAgent) : list string :=
  inspect_arguments backend (sa_name agent).
Definition network_inspect_arguments (backend network : string) : list string :=
  ["-n"; backend; "network"; "inspect"; network]%string.
(** [Ok(result) if result.status.success()]. *)
Definition succeeded (r : result string outcome) : option outcome :=
  match r with Ok o => if o_success o then Some o else None | Err _ => None end.

Definition disk_findings : Cli (list Finding) :=
  r ← output ["df"; "-P"; "/"]%string;
  mret match succeeded r with
  | Some o =>
      match parse_disk_percent (from_utf8_lossy (o_stdout o)) with
      | Some percent =>
          when_ (90 <=? percent) (host_finding "TFSEC-031" "critical"
            "root filesystem usage is at or above 90 percent"
            "stop affected agents if needed, preserve evidence, and free or extend reviewed storage before resuming")
      | None => [host_finding "TFSEC-032" "warning"
            "root filesystem pressure could not be parsed"
            "run df -P / from the operator path and verify capacity monitoring"]
      end
  | None => [host_finding "TFSEC-032" "warning"
        "root filesystem pressure could not be inspected"
        "run df -P / from the operator path and verify capacity monitoring"]
  end.
(** Unknown legacy declarations do not suppress the exposure check. *)
Definition exposure_checked (st : SecurityState) : bool :=
  is_none_or (λ mg, mg_enabled mg && match mg_transport mg with Tailscale => true end) (ss_management st).
Definition exposure_findings (st : SecurityState) : Cli (list Finding) :=
  if exposure_checked st then
    r ← output ["tailscale"; "serve"; "status"; "--json"]%string;
    mret match succeeded r with
    | Some o =>
        match from_slice (o_stdout o) with
        | Some v =>
            if json_has_truthy_key "funnel" v then
              [host_finding "TFSEC-029" "critical"
                "Tailscale Funnel is active on the secure management host"
                "disable Funnel and keep management services private to a restrictive tailnet policy"]
            else when_ (json_is_nonempty v) (host_finding "TFSEC-030" "warning"
                "Tailscale Serve has an active local configuration"
                "verify every served handler is intentional, authenticated, and covered by restrictive grants")
        | None => [host_finding "TFSEC-028" "warning"
            "active Tailscale Serve/Funnel state returned invalid JSON"
            "run tailscale serve status --json from the operator path and inspect the exact state"]
        end
    | None => [host_finding "TFSEC-028" "warning"
        "active Tailscale Serve/Funnel state could not be inspected"
        "run tailscale serve status --json from the operator path; blocked or unknown evidence is not green"]
    end
  else mret [].
Definition backup_findings (st : SecurityState) : Cli (list Finding) :=
  age ← gets (λ c, e_backup_age (c_env c));
  mret (when_ (ss_backup_enabled st
               && negb (is_some_and (λ age, age <=? saturating_mul (ss_backup_max_age_hours st) 3600) age))
          (host_finding "TFSEC-027" "warning"
            "the last successful Restic backup is missing or stale"
            "inspect restic-backups-tentaflake.service, run the approved backup/check flow, and perform a restore drill")).
Definition option_list {A} (o : option A) : list A := match o with Some a => [a] | None => [] end.
Definition endpoints_of (agent : SecurityAgent) : list SocketAddr :=
  option_list (sa_llm_broker_endpoint agent) ++ option_list (sa_fetch_broker_endpoint agent).
Definition health_finding (agent : SecurityAgent) (h : BrokerHealth) : list Finding :=
  match h with
  | Ready => []
  | Unavailable => [agent_finding "TFSEC-035" "warning" agent
      "a configured broker health endpoint could not be reached"
      "inspect the exact broker unit and /healthz from the host; unavailable runtime evidence is not green"]
  | Unhealthy => [agent_finding "TFSEC-036" "high" agent
      "a configured broker answered but did not report credential, policy, and audit readiness"
      "stop the affected controller and repair its broker credentials, policy, state, or audit path before restart"]
  end.
(** [broker_health.next()] once per endpoint: the findings and what is left. *)
Fixpoint health_findings (agent : SecurityAgent) (n : nat) (health : list BrokerHealth) :
    list Finding * list BrokerHealth :=
  match n with
  | O => ([], health)
  | S n =>
      let '(fs, rest) := health_findings agent n (drop 1 health) in
      (health_finding agent (default Unavailable (head health)) ++ fs, rest)
  end.
Definition network_state (backend : string) (network : option string) : Cli LiveContainerState :=
  match network with
  | None => mret Unknown
  | Some network =>
      r ← output_with_timeout ("sudo"%string :: network_inspect_arguments backend network) LIVE_INSPECTION_TIMEOUT;
      mret match succeeded r with
           | Some o => match from_slice (o_stdout o) with
                       | Some v => live_broker_network_security v backend network
                       | None => Unknown
                       end
           | None => Unknown
           end
  end.
Definition expected_network (agent : SecurityAgent) : option string :=
  if sa_brokered_egress agent then sa_broker_network agent else Some "none"%string.
(** What the container's and its network's JSON say, [None] when inspection failed. *)
Definition observe_agent (config : Config) (agent : SecurityAgent) : Cli (option LiveContainerState) :=
  let backend := cf_backend config in
  r ← output_with_timeout ("sudo"%string :: inspect_arguments_for_agent backend agent) LIVE_INSPECTION_TIMEOUT;
  match succeeded r with
  | None => mret None
  | Some o =>
      let live := live_container_security_from_manifest agent (from_slice (o_stdout o)) backend
                    (expected_network agent) in
      if negb (bool_decide (live = Unsafe)) && sa_brokered_egress agent then
        network ← network_state backend (sa_broker_network agent);
        mret (Some (merge_live_state live network))
      else mret (Some live)
  end.
Definition live_finding (agent : SecurityAgent) (st : option LiveContainerState) : list Finding :=
  match st with
  | Some Secure => []
  | Some Unsafe => [agent_finding "TFSEC-034" "critical" agent
      "live OCI state differs from one or more secure capsule invariants"
      "stop the exact agent, inspect the backend JSON, and rebuild the declared capsule before restart"]
  | Some Unknown => [agent_finding "TFSEC-033" "warning" agent
      "live OCI state was returned but its security fields were incomplete or unrecognized"
      "inspect the exact backend JSON and keep the live posture unknown until every invariant is accounted for"]
  | None => [agent_finding "TFSEC-033" "warning" agent
      "live OCI state could not be inspected without prompting"
      "run the security doctor through an approved root/operator path; unavailable live evidence is not green"]
  end.
Fixpoint live_agents (config : Config) (agents : list SecurityAgent) (health : list BrokerHealth) :
    Cli (list Finding) :=
  match agents with
  | [] => mret []
  | agent :: agents =>
      let '(fs, health) := health_findings agent (length (endpoints_of agent)) health in
      st ← observe_agent config agent;
      rest ← live_agents config agents health;
      mret (fs ++ live_finding agent st ++ rest)
  end.
Definition security_live_findings (config : Config) (st : SecurityState) : Cli (list Finding) :=
  if (ss_profile st =? "dev")%string then mret []
  else
    disk ← disk_findings;
    exposure ← exposure_findings st;
    backup ← backup_findings st;
    health ← probe_broker_health_bounded (concat (endpoints_of <$> ss_agents st));
    agents ← live_agents config (ss_agents st) health;
    mret (disk ++ exposure ++ backup ++ agents).

(** ** [security_doctor] *)

Definition hex4 (n : Z) : string :=
  let d x := if x <? 10 then x + 48 else x + 87 in
  bytes_str (d <$> [n / 4096 mod 16; n / 256 mod 16; n / 16 mod 16; n mod 16]).
Definition backslash : string := bytes_str [92].
Definition escape_char (c : Z) : string :=
  if c =? 34 then (backslash ++ bytes_str [34])%string
  else if c =? 92 then (backslash ++ backslash)%string
  else if c =? 10 then (backslash ++ "n")%string
  else if c =? 13 then (backslash ++ "r")%string
  else if c =? 9 then (backslash ++ "t")%string
  else if is_control c then (backslash ++ "u" ++ hex4 c)%string
  else bytes_str (utf8_encode_char c).
Definition concat_str (l : list string) : string := foldr String.append EmptyString l.
Definition json_escape (input : string) : string := concat_str (escape_char <$> chars input).

Definition mode_host (mode : OutputMode) (name : string) : string := if m_hide mode then "redacted" else name.
Definition mode_agent (mode : OutputMode) (index : nat) (name : string) : string :=
  if m_hide mode then ("agent-" ++ line_number (S index))%string else name.
Definition redacted (mode : OutputMode) (name : string) : string := if m_hide mode then "redacted" else name.
Fixpoint print_findings (mode : OutputMode) (first : bool) (fs : list Finding) : Cli unit :=
  match fs with
  | [] => mret tt
  | f :: fs =>
      _ ← (if first then mret tt else print ",");
      let agent := match fi_agent f with
                   | Some name => (quoted "'" ++ json_escape (redacted mode name) ++ quoted "'")%string
                   | None => "null"%string
                   end in
      _ ← print (quoted "{'id':'" ++ fi_id f ++ quoted "','severity':'" ++ fi_severity f
                 ++ quoted "','agent':" ++ agent ++ quoted ",'explanation':'" ++ json_escape (fi_explanation f)
                 ++ quoted "','remediation':'" ++ json_escape (fi_remediation f) ++ quoted "'}");
      print_findings mode false fs
  end.
Fixpoint show_findings (mode : OutputMode) (fs : list Finding) : Cli unit :=
  match fs with
  | [] => mret tt
  | f :: fs =>
      let agent := match fi_agent f with Some name => (" [" ++ redacted mode name ++ "]")%string | None => EmptyString end in
      _ ← println ("  " ++ fi_severity f ++ " " ++ fi_id f ++ agent ++ ": " ++ fi_explanation f);
      _ ← println ("    remediation: " ++ fi_remediation f);
      show_findings mode fs
  end.
Definition serious (f : Finding) : bool := str_in (fi_severity f) ["critical"; "high"]%string.
(** [fs::read_to_string]. *)
Definition read_to_string (p : string) : Cli string :=
  dir ← cwd;
  b ← fs (λ e, "cannot read " ++ p ++ ": " ++ io_display e)%string (sys_read_file (resolve dir p));
  lift (ok_or (Fail ("cannot read " ++ p ++ ": " ++ utf8_display)) (from_utf8 b)).
Definition message {A} (r : result string A) : result fault A :=
  match r with Ok a => Ok a | Err e => Err (Fail e) end.
Definition security_doctor (config : Config) (mode : OutputMode) : Cli Z :=
  text ← read_to_string (cf_security_file config);
  st ← lift (message (parse_security_state text));
  _ ← throw_if (negb (ss_profile st =? cf_security_profile config)%string)
        (Fail ("security profile mismatch: cli.conf=" ++ cf_security_profile config
               ++ ", manifest=" ++ ss_profile st));
  live ← security_live_findings config st;
  let findings := security_findings st ++ live in
  _ ← (if m_json mode then
         _ ← print (quoted "{'profile':'" ++ json_escape (ss_profile st) ++ quoted "','findings':[");
         _ ← print_findings mode true findings;
         println "]}"
       else
         _ ← println ("Tentaflake security doctor — " ++ ss_profile st);
         _ ← (if bool_decide (findings = []) then println "  ✓ no security findings" else mret tt);
         show_findings mode findings);
  mret (if existsb serious findings then 1 else 0).

(** ** Remotes *)

Definition remote_component_is_safe (v : string) : bool :=
  negb (v =? ".")%string && negb (v =? "..")%string
  && all_bytes (λ b, is_ascii_alphanumeric b || byte_in "._-" b) v.
Definition forbidden_byte (b : Z) : bool := byte_in "@?#%" b || (b =? 92).
Definition canonical_github_remote (v : string) : result string string :=
  rest ← ok_or ("remote must use canonical HTTPS: " ++ v)%string (strip_prefix "https://" v);
  _ ← bail_if (existsb forbidden_byte (str_bytes rest) || ends_with "/" rest)
        ("remote contains forbidden URL syntax: " ++ v)%string;
  let fields := split_char "/" rest in
  let host := field fields 0 in
  let owner := field fields 1 in
  let repository := field fields 2 in
  _ ← bail_if ((3 <? length fields)%nat || negb (eq_ignore_ascii_case host "github.com"))
        ("remote must target github.com/OWNER/REPO: " ++ v)%string;
  let repository := default repository (strip_suffix ".git" repository) in
  _ ← bail_if (str_is_empty owner || str_is_empty repository || ends_with ".git" repository
               || negb (remote_component_is_safe owner) || negb (remote_component_is_safe repository))
        ("remote owner or repository is invalid: " ++ v)%string;
  Ok ("https://github.com/" ++ to_ascii_lowercase owner ++ "/" ++ to_ascii_lowercase repository)%string.
Fixpoint allowed_remote (actual : string) (allowed : list string) : result fault bool :=
  match allowed with
  | [] => Ok false
  | a :: allowed =>
      c ← message (canonical_github_remote a);
      if (c =? actual)%string then Ok true else allowed_remote actual allowed
  end.
Definition remote_check (args : list string) : Cli Z :=
  remote ← lift (ok_or (Fail "remote-check requires an actual URL and at least one allowed URL") (head args));
  _ ← throw_if (length args <? 2)%nat (Fail "remote-check requires at least one allowed URL");
  actual ← lift (message (canonical_github_remote remote));
  allowed ← lift (rest ← slice_from_1 args; allowed_remote actual rest);
  if allowed : bool then mret 0
  else _ ← eprintln ("remote denied: " ++ remote); mret 1.

(** ** Runtimes *)

Definition text_at (message : string) (v : value) : Cli string := lift (ok_or (Fail message) (as_str v)).
Fixpoint print_presets (presets : list (string * value)) : Cli unit :=
  match presets with
  | [] => mret tt
  | (name, preset) :: presets =>
      status ← text_at "missing runtime status" (index "status" (index "identity" preset));
      version ← text_at "missing runtime version" (index "version" (index "identity" preset));
      acceptance ← text_at "missing acceptance evidence"
                     (index "vendorAcceptance" (index "evidence" preset));
      _ ← println (join (String tab EmptyString) [name; status; version; acceptance]);
      print_presets presets
  end.
Definition runtimes (args : list string) (mode : OutputMode) : Cli Z :=
  _ ← throw_if (negb (length args =? 0)%nat) (Fail "runtimes accepts only --json and --hide");
  _ ← (if m_json mode then println (bytes_str (to_vec CATALOG))
       else
         presets ← lift (ok_or (Fail "invalid runtime catalog") (as_object (index "presets" CATALOG)));
         _ ← println (join (String tab EmptyString) ["RUNTIME"; "STATUS"; "VERSION"; "VENDOR ACCEPTANCE"]%string);
         print_presets presets);
  mret 0.

(** ** Status and diagnostics *)

Definition UNIT_STATES : list string :=
  ["active"; "inactive"; "failed"; "activating"; "deactivating"; "reloading"; "maintenance"; "refreshing"]%string.
Definition unit_state (u : string) : Cli string :=
  r ← command_output ["systemctl"; "is-active"; u]%string;
  mret (default "unknown"%string (
    o ← match r with Ok o => Some o | Err _ => None end;
    _ ← (if existsb (λ c, bool_decide (o_code o = Some c)) [0; 3] then Some tt else None);
    text ← from_utf8 (o_stdout o);
    ofilter (λ s, str_in s UNIT_STATES) (Some (trim text)))).
Definition agent_rows (agents : list Agent) : Cli (list (Agent * string)) :=
  for_each (λ a, st ← unit_state (ag_unit a); mret (a, st)) agents.
Definition bool_text (b : bool) : string := if b then "true" else "false".
Fixpoint print_rows (mode : OutputMode) (index : nat) (rows : list (Agent * string)) : Cli unit :=
  match rows with
  | [] => mret tt
  | (agent, st) :: rows =>
      _ ← (if (index =? 0)%nat then mret tt else print ",");
      _ ← print (quoted "{'id':'" ++ json_escape (mode_agent mode index (ag_container agent))
                 ++ quoted "','name':'" ++ json_escape (mode_agent mode index (ag_name agent))
                 ++ quoted "','runtime':'" ++ json_escape (ag_runtime agent)
                 ++ quoted "','state':'" ++ json_escape st
                 ++ quoted "','runnable':" ++ bool_text (ag_runnable agent) ++ "}");
      print_rows mode (S index) rows
  end.
Definition colored (code mark : string) : string := (bytes_str [27] ++ "[" ++ code ++ "m" ++ mark ++ bytes_str [27] ++ "[0m")%string.
Definition marker (color : bool) (st : string) : string :=
  if (st =? "active")%string then if color then colored "32" "●" else "●"%string
  else if (st =? "failed")%string && color then colored "31" "●"
  else "○"%string.
(** [{:<n}]. *)
Definition pad (n : nat) (s : string) : string :=
  (s ++ bytes_str (replicate (n - length (chars s)) 32))%string.
Fixpoint show_rows (mode : OutputMode) (color : bool) (index : nat) (rows : list (Agent * string)) : Cli unit :=
  match rows with
  | [] => mret tt
  | (agent, st) :: rows =>
      _ ← println ("  " ++ marker color st ++ " " ++ pad 20 (mode_agent mode index (ag_name agent)) ++ " "
                   ++ pad 10 (ag_runtime agent) ++ " " ++ st);
      show_rows mode color (S index) rows
  end.
Definition status (config : Config) (agents : list Agent) (mode : OutputMode) : Cli Z :=
  rows ← agent_rows agents;
  _ ← (if m_json mode then
         _ ← print (quoted "{'host':'" ++ json_escape (mode_host mode (cf_host_name config))
                    ++ quoted "','backend':'" ++ json_escape (cf_backend config)
                    ++ quoted "','security_profile':'" ++ json_escape (cf_security_profile config)
                    ++ quoted "','agents':[");
         _ ← print_rows mode 0 rows;
         println "]}"
       else
         color ← gets (λ c, e_color (c_env c));
         _ ← println ("tentaflake " ++ mode_host mode (cf_host_name config) ++ " · " ++ cf_backend config
                      ++ " · security " ++ cf_security_profile config);
         _ ← (if (cf_security_profile config =? "dev")%string
              then println "  WARNING: dev is not a security boundary for untrusted 24/7 agents" else mret tt);
         _ ← (if (length rows =? 0)%nat then println "  no agents defined" else mret tt);
         show_rows mode color 0 rows);
  mret 0.

Definition finding (ok : bool) (text : string) : Cli unit :=
  println ("  " ++ (if ok then "✓" else "✗") ++ " " ++ text).
(** The shown names of the agents in a state. *)
Fixpoint in_state (mode : OutputMode) (st : string) (index : nat) (rows : list (Agent * string)) : list string :=
  match rows with
  | [] => []
  | (agent, observed) :: rows =>
      (if (observed =? st)%string then [mode_agent mode index (ag_name agent)] else [])
      ++ in_state mode st (S index) rows
  end.
Fixpoint show_states (mode : OutputMode) (index : nat) (rows : list (Agent * string)) : Cli unit :=
  match rows with
  | [] => mret tt
  | (agent, st) :: rows =>
      _ ← finding (negb (st =? "failed")%string && negb (st =? "unknown")%string)
            ("agent " ++ mode_agent mode index (ag_name agent) ++ " is " ++ st);
      show_states mode (S index) rows
  end.
(** [u8::is_ascii_whitespace]. *)
Definition is_ascii_whitespace (b : Z) : bool := (b =? 32) || in_range 9 10 b || in_range 12 13 b.
Definition show_load : Cli unit :=
  r ← in_world (attempt (sys_read_file "/proc/loadavg"));
  match r with
  | Ok b => match from_utf8 b with
            | Some load => println ("  load: " ++ join " " (take 3 (words load)))
            | None => mret tt
            end
  | Err _ => mret tt
  end.
Definition diagnostics (config : Config) (agents : list Agent) (mode : OutputMode) (command : string) : Cli Z :=
  failed_units ← checked_output ["systemctl"; "--failed"; "--no-legend"; "--plain"]%string;
  let failed_units_absent := forallb is_ascii_whitespace (o_stdout failed_units) in
  disk ← checked_output ["df"; "-P"; "/"]%string;
  disk_pct ← lift (ok_or (Fail "cannot determine root disk usage from df output")
                     (parse_disk_percent (from_utf8_lossy (o_stdout disk))));
  rows ← agent_rows agents;
  let failed_agents := in_state mode "failed" 0 rows in
  let unknown_agents := in_state mode "unknown" 0 rows in
  let problems := (if failed_units_absent then 0 else 1) + (if 90 <=? disk_pct then 1 else 0)
                  + blen failed_agents + blen unknown_agents in
  _ ← (if m_json mode then
         println (bytes_str (to_vec (json_obj [
           ("host"%string, Str (mode_host mode (cf_host_name config))); ("problems"%string, num problems);
           ("failed_systemd_units"%string, Bool (negb failed_units_absent)); ("disk_percent"%string, num disk_pct);
           ("failed_agents"%string, Array (Str <$> failed_agents));
           ("unknown_agents"%string, Array (Str <$> unknown_agents))])))
       else
         _ ← println ("tentaflake " ++ command ++ " — " ++ mode_host mode (cf_host_name config));
         _ ← (if (command =? "health")%string then show_load else mret tt);
         _ ← finding failed_units_absent "no failed systemd units";
         _ ← finding (disk_pct <? 90) ("root disk usage: " ++ pretty disk_pct ++ "%");
         _ ← show_states mode 0 rows;
         println (pretty problems ++ " problem(s) found"));
  mret (if problems =? 0 then 0 else 1).

(** ** Containers *)

Definition require_container (agent : Agent) : result fault unit :=
  refuse_if (negb (ag_runnable agent)) "stopped scaffold has no accepted container".
Definition backend_command (config : Config) : list string :=
  if (cf_security_profile config =? "dev")%string then [cf_backend config]
  else ["sudo"%string; cf_backend config].
Definition agent_of (agents : list Agent) (args : list string) : Cli Agent :=
  lift (message (find_agent agents (head args))).
Definition stats (config : Config) (agents : list Agent) : Cli Z :=
  if (length agents =? 0)%nat then _ ← println "no agents defined"; mret 0
  else
    let runnable := List.filter ag_runnable agents in
    if (length runnable =? 0)%nat then _ ← println "no runnable agents defined"; mret 0
    else exec (backend_command config ++ ["stats"; "--no-stream"]%string ++ (ag_container <$> runnable)).
Definition logs (agents : list Agent) (args : list string) : Cli Z :=
  agent ← agent_of agents args;
  rest ← lift (slice_from_1 args);
  exec (["journalctl"; "-u"; ag_unit agent; "-f"]%string ++ rest).
Definition systemd_unit_exists (u : string) : Cli bool :=
  r ← command_output ["systemctl"; "show"; "--property=LoadState"; "--value"; u]%string;
  mret match succeeded r with
       | Some o => negb (bool_decide (o_stdout o = str_bytes ("not-found" ++ newline)))
       | None => false
       end.
Definition broker_unit (mode container : string) : string :=
  ("tentaflake-broker-" ++ mode ++ "-" ++ container ++ ".service")%string.
Definition lifecycle (action : string) (agents : list Agent) (args : list string) : Cli Z :=
  agent ← agent_of agents args;
  brokers ← (if (action =? "stop")%string then
               us ← for_each (λ mode, let u := broker_unit mode (ag_container agent) in
                                      e ← systemd_unit_exists u; mret (if e : bool then [u] else []))
                      ["llm"; "fetch"]%string;
               mret (concat us)
             else mret []);
  exec (["sudo"; "systemctl"; action; ag_unit agent]%string ++ brokers).
Definition container_shell (config : Config) (agents : list Agent) (args : list string) : Cli Z :=
  agent ← agent_of agents args;
  _ ← lift (require_container agent);
  exec (backend_command config ++ ["exec"; "-it"; ag_container agent; "sh"]%string).
Definition after_separator (args : list string) : list string :=
  match args with a :: rest => if (a =? "--")%string then rest else args | [] => [] end.
Definition container_exec (config : Config) (agents : list Agent) (args : list string) : Cli Z :=
  agent ← agent_of agents args;
  _ ← lift (require_container agent);
  rest ← lift (slice_from_1 args);
  let command_args := after_separator rest in
  _ ← throw_if (length command_args =? 0)%nat (Fail "missing command after agent name");
  exec (backend_command config ++ ["exec"%string; ag_container agent] ++ command_args).
Definition backend_passthrough (config : Config) (args : list string) : Cli Z :=
  exec (backend_command config ++ args).

(** ** Backup, rebuild and update *)

(** [status.code().unwrap_or(1) as u8]. *)
Definition exit_byte (code : option Z) : Z := default 1 code mod 256.
(** [Command::status] with the standard output going to an open file. *)
Definition status_into (f : fd) (argv : list string) : Cli (result string outcome) :=
  r ← command_output argv;
  _ ← modify (set_world (upd_data (fd_ino f) (λ d, d ++ match r with Ok o => o_stdout o | Err _ => [] end)));
  mret r.
Definition is_dir (p : string) : Cli bool :=
  dir ← cwd;
  r ← in_world (attempt (sys_open_follow (resolve dir p)));
  mret match r with Ok x => bool_decide (i_kind x = Directory) | Err _ => false end.
Definition backup (agents : list Agent) (args : list string) : Cli Z :=
  agent ← agent_of agents args;
  d ← is_dir (ag_state_dir agent);
  _ ← throw_if (negb d) (Fail ("state directory does not exist: " ++ ag_state_dir agent));
  parent ← lift (ok_or (Fail "state directory has no parent") (path_parent_dir (ag_state_dir agent)));
  base ← lift (ok_or (Fail "state directory has no basename") (path_file_name (ag_state_dir agent)));
  r ← output ["date"; "-u"; "+%Y%m%dT%H%M%SZ"]%string;
  o ← lift (message r);
  let stamp := trim (from_utf8_lossy (o_stdout o)) in
  let archive := ("tentaflake-" ++ ag_name agent ++ "-" ++ stamp ++ ".tar.gz")%string in
  dir ← cwd;
  f ← fs (λ e, "cannot create private backup " ++ archive ++ ": " ++ io_display e)%string
        (sys_create_new (resolve dir archive) 384 (* 0o600 *));
  r ← status_into f ["sudo"; "tar"; "czf"; "-"; "-C"; parent; base]%string;
  _ ← modify (set_world (close f));
  o ← lift (match r with
            | Ok o => Ok o
            | Err e => Err (Fail ("cannot execute backup: " ++ e ++ "; private output retained: " ++ archive))
            end);
  if o_success o then _ ← println ("backup written: " ++ archive); mret 0
  else
    _ ← eprintln ("backup failed; private partial output retained: " ++ archive);
    mret (exit_byte (o_code o)).

Definition rebuild (config : Config) : Cli Z :=
  exec ["sudo"; "nixos-rebuild"; "switch"; "--flake";
        cf_flake_dir config ++ "#" ++ cf_configuration_name config]%string.
Definition update (config : Config) : Cli Z :=
  r ← command_output ["sudo"; "nix"; "flake"; "update"; "--flake"; cf_flake_dir config]%string;
  o ← lift (match r with Ok o => Ok o | Err e => Err (Fail ("cannot execute nix flake update: " ++ e)) end);
  if negb (o_success o) then mret (exit_byte (o_code o))
  else
    _ ← print "Rebuild now to apply the update? [y/N] ";
    answer ← read_line;
    answer ← lift (message answer);
    if str_in (trim answer) ["y"; "Y"; "yes"; "YES"]%string then rebuild config
    else _ ← println "not rebuilding; apply later with `tentaflake rebuild`"; mret 0.
End commands.
