(* ===== verification/Onboarding.v ===== *)
(** * Onboarding of agents: [crates/tentaflake-cli/src/onboarding.rs]

    [agent template], and [agent validate | plan | import]: the fragment's checks,
    the bounded Nix evaluation of a private copy, and the publication of the
    extended [tentaflake.toml] under the import lock. *)

From S2P Require Import Prelude RustStr Json Posix Budget Activity WorkerFs Manifest Live ControlData CliHost Descriptor Desired CliCommands.

Section onboarding.
Context `{SerdeJson} `{Display} `{TomlEdit}.

Definition MAX_AGENTS : Z := 128.

(** ** [template] *)

Definition template_usage : string :=
  "usage: agent template <preset> <name> [--image <digest-reference> -- <command>...]".
Definition generic_usage : string :=
  "generic template requires --image <digest-reference> -- <command>...".
Definition template_definition (image : string) (command : list string) : value :=
  json_obj [("schemaVersion"%string, num 1); ("image"%string, Str image); ("command"%string, Array (Str <$> command));
            ("lifecycle"%string, Str "stopped");
            ("capabilities"%string, Array (Str <$> ["files"; "shell"; "terminal"]%string))].
Definition template_entry (preset nm : string) (rest : list string) : result fault value :=
  let entry := [("adapter"%string, Str preset); ("name"%string, Str nm)] in
  if (preset =? "generic")%string then
    match rest with
    | image_flag :: image :: separator :: command =>
        _ ← refuse_if (negb (image_flag =? "--image")%string || negb (separator =? "--")%string
                       || (length command =? 0)%nat) generic_usage;
        Ok (json_obj (entry ++ [("definition"%string, template_definition image command)]))
    | _ => Err (Fail generic_usage)
    end
  else
    _ ← refuse_if (negb (length rest =? 0)%nat) "preset template accepts only preset and name";
    Ok (json_obj (entry ++ [("autoStart"%string, Bool false)])).
Definition template (args : list string) (mode : OutputMode) : Cli Z :=
  _ ← throw_if (m_hide mode) (Fail "--hide is unavailable for importable definitions; use agent plan --hide");
  match args with
  | preset :: nm :: rest =>
      _ ← throw_if (negb (name nm)) (Fail "agent names require lowercase ASCII letters, digits and hyphens");
      _ ← throw_if (is_none (vget preset (index "presets" CATALOG))) (Fail "unknown preset; run tentaflake runtimes");
      entry ← lift (template_entry preset nm rest);
      d ← lift (ok_or (Fail "cannot serialize onboarding TOML")
                  (ser_to_document (json_obj [("schemaVersion"%string, num 1); ("agents"%string, Array [entry])])));
      _ ← println (document_text d);
      mret 0
  | _ => fail (Fail template_usage)
  end.

(** ** Input *)

Definition read_optional (p : string) : Cli (option bytes) :=
  dir ← cwd;
  r ← in_world (attempt (sys_symlink_metadata (resolve dir p)));
  match r with
  | Err NotFound => mret None
  | Err _ => fail (Fail "cannot inspect onboarding configuration file")
  | Ok m =>
      _ ← throw_if (negb (regular_input m))
            (Fail "onboarding requires regular files of at most 1 MiB; symlinks are refused");
      b ← read_bounded "cannot read onboarding configuration file" p;
      _ ← throw_if (MAX_INPUT <? blen b) (Fail "onboarding input exceeds 1 MiB");
      mret (Some b)
  end.
Definition read_document (b : bytes) : result fault document :=
  text ← ok_or (Fail "onboarding TOML must be UTF-8") (from_utf8 b);
  ok_or (Fail "invalid onboarding TOML; JSON input requires explicit migration") (document_parse text).
(** [json_compatible] and [compatible_item] repeat [scalar] and [compatible]. *)
Fixpoint json_compatible (v : toml_value) : bool :=
  match v with
  | TDatetime => false
  | TFloat bits => is_finite bits
  | TArray l => forallb json_compatible l
  | TInlineTable m => forallb (λ kv, json_compatible (snd kv)) m
  | _ => true
  end.
Fixpoint compatible_item (i : item) : bool :=
  match i with
  | INone => true
  | IValue v => json_compatible v
  | ITable m => forallb (λ kv, compatible_item (snd kv)) m
  | IArrayOfTables l => forallb (λ m, forallb (λ kv, compatible_item (snd kv)) m) l
  end.
Definition parse_fragment (b : bytes) : result fault value :=
  d ← read_document b;
  _ ← refuse_if (negb (forallb (λ kv, compatible_item (snd kv)) (document_items d)))
        "onboarding TOML does not support dates, times or non-finite numbers";
  ok_or (Fail "invalid onboarding TOML data") (de_from_document d).

Definition schema_entries (v : value) : result fault (list value) :=
  _ ← validate v;
  ok_or (Fail "agents must be an array") (as_array (index "agents" v)).
Definition FRAGMENT_KEYS : list string := ["schemaVersion"; "agents"; "_securityNote"]%string.
Definition additions (v : value) : result fault (list value) :=
  _ ← refuse_if (is_some_and (λ m, existsb (λ key, negb (str_in key FRAGMENT_KEYS)) (obj_keys m)) (as_object v))
        "onboarding fragments may contain only schemaVersion, agents and optional _securityNote metadata; edit the desired system separately";
  entries ← schema_entries v;
  _ ← refuse_if ((length entries =? 0)%nat || (MAX_AGENTS <? blen entries))
        "onboarding requires between 1 and 128 agent additions";
  Ok entries.
Fixpoint entry_identities (entries : list value) : result fault (list string) :=
  match entries with
  | [] => Ok []
  | entry :: entries =>
      nm ← ok_or (Fail "missing agent identity") (as_str (index "name" entry));
      rest ← entry_identities entries;
      Ok (("agent-" ++ nm)%string :: rest)
  end.
Definition identities (v : value) : result fault (list string) :=
  entries ← schema_entries v; entry_identities entries.
Fixpoint no_conflict (known incoming : list string) : result fault unit :=
  match incoming with
  | [] => Ok tt
  | identity :: incoming =>
      _ ← refuse_if (str_in identity known)
            "agent identity conflicts with existing configuration or active inventory; no files changed";
      no_conflict (known ++ [identity]) incoming
  end.
Definition check_conflicts (existing : option bytes) (incoming : value) (agents : list Agent) : result fault unit :=
  combined ← match existing with
             | Some b => parse_fragment b
             | None => Ok (json_obj [("schemaVersion"%string, num 1); ("agents"%string, Array [])])
             end;
  known ← identities combined;
  added ← identities incoming;
  _ ← no_conflict (known ++ (ag_container <$> agents)) added;
  _ ← additions incoming;
  Ok tt.

(** ** The merged document *)

Definition EMPTY_SYSTEM : bytes := str_bytes ("schemaVersion = 1" ++ newline ++ "agents = []" ++ newline).
Fixpoint push_entries (d : document) (entries : list value) : result fault document :=
  match entries with
  | [] => Ok d
  | entry :: entries =>
      table ← ok_or (Fail "cannot serialize onboarding TOML") (ser_to_document entry);
      match assoc "agents" (document_items d) with
      | Some (IArrayOfTables _) => push_entries (push_table d table) entries
      | Some (IValue (TArray _)) => push_entries (push_inline d table) entries
      | _ => Err (Fail "existing agents must be an array")
      end
  end.
Definition serialize_import (existing : option bytes) (incoming : value) : result fault bytes :=
  d ← read_document (default EMPTY_SYSTEM existing);
  entries ← additions incoming;
  d ← push_entries d entries;
  Ok (str_bytes (document_text d)).

Definition onboarding_legacy (found : string) (unreadable : string) (p : string) : Cli unit :=
  r ← absent p;
  match r with
  | Ok _ => mret tt
  | Err AlreadyExists => fail (Fail found)
  | Err _ => fail (Fail unreadable)
  end.
Definition onboarding_refuse_legacy (directory : string) : Cli unit :=
  let found := "legacy inventory exists; explicitly migrate and archive it before onboarding; no files changed"%string in
  let unreadable := "cannot inspect legacy inventory; no files changed"%string in
  _ ← onboarding_legacy found unreadable (path_join directory "agents.toml");
  onboarding_legacy found unreadable (path_join directory "agents.json").

(** ** The private copy and the Nix evaluation *)

(** [fs::remove_dir_all]. *)
Definition inside (dir p : string) : bool := (p =? dir)%string || starts_with (dir ++ "/") p.
Definition sys_remove_dir_all (dir : string) : Sys unit := simple (λ w,
  (Ok tt, set_names (filter (λ kv : string * Z, inside dir kv.1 = false)) w)).
(** The clock's reading, in nanoseconds here. *)
Definition nonce : Cli Z := in_world unix_seconds.
Definition private_file_of (dir : string) : string := (dir ++ "/input.json")%string.
(** The destructor of [PrivateInput] runs on every exit. *)
Definition discarding {A} (dir : string) (m : Cli A) : Cli A := λ c,
  match m c with
  | (r, c) => match sys_remove_dir_all dir (c_world c) with (_, w) => (r, set_world (λ _, w) c) end
  end.
(** Run [m], then drop the file [f] and its lock. *)
Definition dropping {A} (f : fd) (m : Cli A) : Cli A := λ c,
  match m c with (r, c) => (r, set_world (close f) c) end.
(** [PrivateInput]: the directory exists only while [k] runs. *)
Definition with_private_input {A} (b : bytes) (k : string → Cli A) : Cli A :=
  n ← nonce;
  env ← gets c_env;
  let dir := resolve (e_cwd env) (path_join (e_temp env) ("tentaflake-onboarding-" ++ pretty (e_pid env) ++ "-" ++ pretty n)) in
  _ ← fs (λ _, "cannot create private validation directory"%string) (sys_mkdir dir 448 (* 0o700 *));
  discarding dir (
    f ← fs (λ _, "cannot create private validation input"%string)
          (sys_create_new (private_file_of dir) 384 (* 0o600 *));
    _ ← dropping f (fs (λ _, "cannot write private validation input"%string) (sys_write f b));
    k (private_file_of dir)).
Definition nix_command (config : Config) (input : string) : list string :=
  ["nix"; "eval"; "--offline"; "--impure"; "--json"; "--no-write-lock-file"; "--file";
   path_join (cf_flake_dir config) "lib/agentPlanEntry.nix"; "result"; "--argstr"; "file"; input;
   "--argstr"; "flakeDir"; cf_flake_dir config; "--argstr"; "backend"; cf_backend config;
   "--argstr"; "configurationName"; cf_configuration_name config]%string.
Definition nix_rejected : string :=
  "Nix rejected the definition or installed inputs are unavailable. Check version, options, image, ownership and capabilities; no files changed.".
Definition plan_shape (plan : value) : bool :=
  is_some_and (Z.eqb 1) (as_u64 (index "schemaVersion" plan)) && is_boolean (index "valid" plan)
  && is_array (index "instances" plan) && is_array (index "errors" plan).
Definition validate_with_nix (config : Config) (b : bytes) : Cli value :=
  with_private_input b (λ input,
    r ← output_with_timeout (nix_command config input) 60000;
    o ← lift (match r with Ok o => Ok o | Err _ => Err (Fail "bounded Nix validation failed; no files changed") end);
    _ ← throw_if (negb (o_success o)) (Fail nix_rejected);
    plan ← lift (ok_or (Fail "invalid Nix validation response") (from_slice (o_stdout o)));
    _ ← throw_if (negb (plan_shape plan)) (Fail "invalid Nix validation response");
    mret plan).

(** ** Publication *)

Definition file_mode (p : string) : Cli Z :=
  r ← in_world (attempt (sys_open_follow p));
  mret match r with Ok m => mode_and (i_mode m) 511 (* 0o777 *) | Err _ => 384 (* 0o600 *) end.
(** The checks and the rename, after the staged file is complete. *)
Definition publish_staged (f : fd) (path staged : string) (b : bytes) (expected : option bytes) : Cli unit :=
  dir ← cwd;
  _ ← fs (λ _, "cannot persist staged import"%string) (_ ← sys_write f b; sys_sync);
  now ← read_optional path;
  _ ← throw_if (negb (bool_decide (now = expected)))
        (Fail "tentaflake.toml changed during validation; retry after reviewing the conflict");
  parent ← lift (ok_or (Fail "inventory requires a parent directory") (path_parent_dir path));
  _ ← onboarding_refuse_legacy parent;
  fs (λ _, "cannot atomically publish agent additions"%string) (sys_rename (resolve dir staged) (resolve dir path)).
Definition publish (path : string) (b : bytes) (expected : option bytes) : Cli unit :=
  dir ← cwd;
  let staged := with_extension "toml.pending" path in
  mode ← file_mode (resolve dir path);
  f ← fs (λ _, "cannot stage import; a pending file already exists or configuration is not writable"%string)
        (sys_create_new (resolve dir staged) mode);
  dropping f (
    r ← attempt (publish_staged f path staged b expected);
    _ ← match r with
        | Ok _ => mret (Ok tt)
        | Err _ => in_world (attempt (sys_remove (resolve dir staged)))
        end;
    lift r).

(** ** [run] *)

(** [plan[key] = v]: a value that is neither an object nor null panics. *)
Definition set_index (key : string) (v plan : value) : result fault value :=
  match plan with
  | Object m => Ok (Object (obj_insert key v m))
  | Null => Ok (Object [(key, v)])
  | _ => Err Panic
  end.
Fixpoint set_all (entries : list (string * value)) (plan : value) : result fault value :=
  match entries with
  | [] => Ok plan
  | (k, v) :: entries => plan ← set_index k v plan; set_all entries plan
  end.
Definition REDACTED : list string := ["container"; "unit"; "stateDir"; "workspace"; "image"]%string.
Fixpoint hide_instances (mode : OutputMode) (i : nat) (instances : list value) : result fault (list value) :=
  match instances with
  | [] => Ok []
  | instance :: instances =>
      instance ← set_all (("name"%string, Str (mode_agent mode i EmptyString))
                          :: ((λ k, (k, Str "redacted")) <$> REDACTED)) instance;
      rest ← hide_instances mode (S i) instances;
      Ok (instance :: rest)
  end.
Definition hide_plan (mode : OutputMode) (valid : bool) (plan : value) : result fault value :=
  instances ← unwrap (as_array (index "instances" plan));
  hidden ← hide_instances mode 0 instances;
  plan ← set_index "instances" (Array hidden) plan;
  if valid then Ok plan
  else set_index "errors" (Array [Str "validation failed; details redacted"]) plan.
Definition text_or_unknown (key : string) (v : value) : string := default "unknown"%string (as_str (index key v)).
Fixpoint show_instances (instances : list value) : Cli unit :=
  match instances with
  | [] => mret tt
  | i :: instances =>
      _ ← println ("  " ++ text_or_unknown "adapter" i ++ ": " ++ text_or_unknown "container" i ++ " → "
                   ++ text_or_unknown "workspace" i ++ " (vendor acceptance: "
                   ++ text_or_unknown "vendorAcceptance" i ++ ")");
      show_instances instances
  end.
Fixpoint show_errors (errors : list value) : Cli unit :=
  match errors with
  | [] => mret tt
  | e :: errors => _ ← println ("  " ++ default "validation error"%string (as_str e)); show_errors errors
  end.
Definition report (plan : value) (valid imported : bool) (mode : OutputMode) : Cli unit :=
  if m_json mode then println (bytes_str (to_vec plan))
  else
    _ ← println ((if valid then "Valid stopped additions" else "Validation failed") ++ "; "
                 ++ (if imported then "imported; running host unchanged" else "no configuration changed")
                 ++ ". Host update: tentaflake rebuild");
    instances ← lift (unwrap (as_array (index "instances" plan)));
    _ ← show_instances instances;
    errors ← lift (unwrap (as_array (index "errors" plan)));
    show_errors errors.
(** What is published: the merged document, checked as a desired system. *)
Definition import_bytes (existing : option bytes) (incoming : value) : result fault bytes :=
  merged ← serialize_import existing incoming;
  _ ← refuse_if (MAX_INPUT <? blen merged) "combined tentaflake.toml exceeds 1 MiB; no files changed";
  _ ← parse merged;
  Ok merged.
(** The part of [run] under the import lock. *)
Definition run_locked (config : Config) (agents : list Agent) (import : bool) (incoming : value)
    (mode : OutputMode) : Cli Z :=
  let destination := path_join (cf_flake_dir config) "tentaflake.toml" in
  existing ← read_optional destination;
  _ ← throw_if (is_none existing)
        (Fail "tentaflake.toml is missing; explicitly initialize the desired system before onboarding");
  _ ← lift (check_conflicts existing incoming agents);
  plan ← validate_with_nix config (to_vec incoming);
  let valid := is_true (index "valid" plan) in
  let imported := import && valid in
  _ ← (if imported then
         merged ← lift (import_bytes existing incoming);
         publish destination merged existing
       else mret tt);
  plan ← lift (set_all [("imported"%string, Bool imported);
                        ("activation"%string, Str "explicit-host-update-required");
                        ("host"%string, Str (mode_host mode (cf_host_name config)))] plan);
  plan ← lift (if m_hide mode then hide_plan mode valid plan else Ok plan);
  _ ← report plan valid imported mode;
  mret (if valid then 0 else 1).
Definition import_lock (config : Config) : Cli fd :=
  dir ← cwd;
  let lock_path := resolve dir (path_join (cf_flake_dir config) ".tentaflake.toml.lock") in
  r ← in_world (attempt (sys_symlink_metadata lock_path));
  _ ← throw_if (match r with Ok m => negb (bool_decide (i_kind m.2 = Regular)) | Err _ => false end)
        (Fail "onboarding lock must be a regular file");
  f ← fs (λ _, "cannot open onboarding lock; configuration must be writable"%string)
        (sys_open_create lock_path 384 (* 0o600 *));
  taken ← attempt (fs (λ _, "another agent import is running; retry when it finishes"%string) (sys_flock f true));
  match taken with
  | Ok _ => mret f
  | Err e => _ ← modify (set_world (close f)); fail e
  end.
Definition onboarding_usage : string :=
  "usage: agent validate|plan|import <file>; use agent template to create a stopped definition".
Definition onboarding_run (config : Config) (agents : list Agent) (args : list string) (mode : OutputMode) : Cli Z :=
  match args with
  | [action; filename] =>
      _ ← throw_if (negb (str_in action ["validate"; "plan"; "import"]%string))
            (Fail "unknown agent command; use template, validate, plan or import");
      b ← read_optional filename;
      b ← lift (ok_or (Fail "onboarding input file does not exist") b);
      incoming ← lift (parse_fragment b);
      _ ← lift (additions incoming);
      _ ← onboarding_refuse_legacy (cf_flake_dir config);
      if (action =? "import")%string then
        f ← import_lock config;
        dropping f (run_locked config agents true incoming mode)
      else run_locked config agents false incoming mode
  | _ => fail (Fail onboarding_usage)
  end.
End onboarding.
