(* ===== verification/Cli.v ===== *)
(** * Entry point of the command line: [crates/tentaflake-cli/src/main.rs]

    Output flags, dispatch, configuration loading, and the exit status. *)

From S2P Require Import Prelude RustStr Json Posix WorkerFs Manifest Live ControlData CliHost Desired CliCommands Onboarding.

Section cli.
Context `{SerdeJson} `{Display} `{TomlEdit}.

(** Flags are taken anywhere before a [--]. *)
Fixpoint take_output_flags (args : list string) (mode : OutputMode) : list string * OutputMode :=
  match args with
  | [] => ([], mode)
  | arg :: rest =>
      if (arg =? "--")%string then (args, mode)
      else if str_in arg ["--hide"; "-H"]%string then take_output_flags rest (mkMode true (m_json mode))
      else if (arg =? "--json")%string then take_output_flags rest (mkMode (m_hide mode) true)
      else match take_output_flags rest mode with (kept, mode) => (arg :: kept, mode) end
  end.
Definition load_config : Cli Config :=
  env ← gets c_env;
  text ← read_to_string (default DEFAULT_CONFIG (e_config env));
  lift (message (parse_config text)).
Definition load_agents (p : string) : Cli (list Agent) :=
  text ← read_to_string p;
  lift (message (parse_agents text)).

Definition HELP : list string := [
   "Tentaflake — manage declarative agent containers with Docker or Podman";
   EmptyString;
   "USAGE";
   "tentaflake help|--help|-h";
   "tentaflake runtimes [--json]";
   "tentaflake agent template <preset> <name> [--image <digest-reference> -- <command>...]";
   "tentaflake agent validate|plan|import <file> [--json] [--hide]";
   "tentaflake [status] [--hide] [--json]";
   "tentaflake logs <name> [journalctl args]";
   "tentaflake restart|start|stop <name>";
   "tentaflake shell <name>";
   "tentaflake exec <name> -- <command>";
   "tentaflake ps|stats|health|doctor";
   "tentaflake doctor --security [--json]";
   "tentaflake backup <name>";
   "tentaflake rebuild|update";
   EmptyString;
   "Desired system: edit tentaflake.toml, then rebuild.";
   "Offline: tentaflake config validate|normalize <file> [--json]";
   "Migration: tentaflake config migrate <agents.toml|agents.json> <tentaflake.toml>"]%string.
Definition print_help : Cli unit := println (join newline HELP).

Definition is_security (args : list string) : bool := existsb (String.eqb "--security") args.
(** The commands that need the configuration and the inventory. *)
Definition run_configured (command : string) (config : Config) (agents : list Agent) (args : list string)
    (mode : OutputMode) : Cli Z :=
  if (command =? "status")%string then status config agents mode
  else
    rest ← lift (slice_from_1 args);
    if (command =? "doctor")%string && is_security rest then security_doctor config mode
    else if str_in command ["health"; "doctor"]%string then diagnostics config agents mode command
    else if (command =? "stats")%string then stats config agents
    else if (command =? "logs")%string then logs agents rest
    else if str_in command ["restart"; "start"; "stop"]%string then lifecycle command agents rest
    else if (command =? "shell")%string then container_shell config agents rest
    else if (command =? "exec")%string then container_exec config agents rest
    else if (command =? "ps")%string then backend_passthrough config ["ps"]%string
    else if (command =? "backup")%string then backup agents rest
    else if (command =? "rebuild")%string then rebuild config
    else if (command =? "update")%string then update config
    else if (command =? "agent")%string then onboarding_run config agents rest mode
    else fail (Fail ("unknown command `" ++ command ++ "`; run `tentaflake help`")).
Definition cli_run (tokens : bytes → option raw) (args : list string) : Cli Z :=
  match take_output_flags args (mkMode false false) with
  | (args, mode) =>
      let command := default "status"%string (head args) in
      if (command =? "config")%string then rest ← lift (slice_from_1 args); run tokens rest mode
      else if (command =? "remote-check")%string then rest ← lift (slice_from_1 args); remote_check rest
      else if (command =? "runtimes")%string then rest ← lift (slice_from_1 args); runtimes rest mode
      else if (command =? "agent")%string && opt_str_eq (args !! 1%nat) "template" then template (drop 2 args) mode
      else if str_in command ["help"; "--help"; "-h"]%string then _ ← print_help; mret 0
      else
        config ← load_config;
        agents ← load_agents (cf_agents_file config);
        run_configured command config agents args mode
  end.

(** The exit status, or the program that took over. *)
Inductive exit : Type := Exited (code : Z) | Became (argv : list string).
Definition main_args (argv : list string) : list string :=
  let invoked_as := default "tentaflake"%string
    (a ← head argv; n ← path_file_name a; from_utf8 (str_bytes n)) in
  let args := (λ a, from_utf8_lossy (str_bytes a)) <$> drop 1 argv in
  if (invoked_as =? "tentaflake-status")%string then "status"%string :: args else args.
Definition main (tokens : bytes → option raw) (argv : list string) (c : cli) : exit * cli :=
  match cli_run tokens (main_args argv) c with
  | (Ok code, c) => (Exited code, c)
  | (Err (Fail text), c) =>
      (Exited 2, set_printed (λ l, l ++ [ErrOut ("tentaflake: " ++ text ++ newline)%string]) c)
  | (Err Panic, c) => (Exited 101, c)
  | (Err (Replaced argv), c) => (Became argv, c)
  end.
End cli.
