(* ===== verification/LiveFacts.v ===== *)
(** * What the live checks establish

    A container is [Secure] only if every observed fact agrees with the declared
    capsule; the merge of observations is the join of [Secure < Unknown < Unsafe]. *)

From stdpp Require Import sorting.
From S2P Require Import Prelude RustStr Json WorkerFs Manifest Live.

(** ** The order of states *)

Definition rank (s : LiveContainerState) : Z := match s with Secure => 0 | Unknown => 1 | Unsafe => 2 end.
Lemma rank_merge a b : rank (merge_live_state a b) = Z.max (rank a) (rank b).
Proof. by destruct a, b. Qed.
Lemma merge_secure a b : merge_live_state a b = Secure ↔ a = Secure ∧ b = Secure.
Proof. destruct a, b; naive_solver. Qed.
Lemma merge_unsafe a b : merge_live_state a b = Unsafe ↔ a = Unsafe ∨ b = Unsafe.
Proof. destruct a, b; naive_solver. Qed.
Lemma merge_comm a b : merge_live_state a b = merge_live_state b a.
Proof. by destruct a, b. Qed.
Lemma merge_assoc a b c : merge_live_state a (merge_live_state b c) = merge_live_state (merge_live_state a b) c.
Proof. by destruct a, b, c. Qed.
Lemma merge_foldl l : ∀ s, foldl merge_live_state s l = Secure ↔ s = Secure ∧ Forall (λ x, x = Secure) l.
Proof.
  induction l as [|x l IH]; intros s; simpl; [split; [by split; [|constructor]|tauto]|].
  rewrite IH, merge_secure, Forall_cons. tauto.
Qed.
Lemma merge_all_secure l : merge_all l = Secure ↔ Forall (λ x, x = Secure) l.
Proof. unfold merge_all. rewrite merge_foldl. tauto. Qed.
Lemma secure_if_secure b : secure_if b = Secure ↔ b = true.
Proof. by destruct b. Qed.
Lemma expected_bool_secure v b : live_expected_bool_security v b = Secure → v = Some (Bool b).
Proof.
  unfold live_expected_bool_security. destruct v as [[]|]; simpl; try done.
  destruct (Bool.eqb b0 b) eqn:E; [|done]. by apply eqb_prop in E as ->.
Qed.

(** ** Networks and ports *)

Lemma network_secure settings backend net :
  live_network_attachment_security settings backend net = Secure →
  ∀ networks key v, get "Networks" settings = Some (Object networks) → In (key, v) networks → key = net.
Proof.
  unfold live_network_attachment_security, get. destruct settings as [s|]; [|done]. simpl.
  intros Hs networks key v Hn Hin. rewrite Hn in Hs.
  assert (length networks = 1%nat → obj_contains net networks = true → key = net) as Hone.
  { destruct networks as [|[k x] [|]]; try done. intros _. destruct Hin as [[= -> ->]|[]].
    unfold obj_contains. simpl. destruct (net =? key)%string eqn:E; [|done]. by apply String.eqb_eq in E. }
  destruct (net =? "none")%string eqn:E; apply secure_if_secure in Hs.
  - apply String.eqb_eq in E as ->. apply orb_true_iff in Hs as [Hs|Hs].
    + apply Nat.eqb_eq in Hs. by destruct networks.
    + apply andb_true_iff in Hs as [H1%Nat.eqb_eq H2]. auto.
  - apply andb_true_iff in Hs as [H1%Nat.eqb_eq H2]. auto.
Qed.
Lemma port_map_secure v :
  live_port_map_security v = Secure →
  v = Some Null ∨ ∃ m, v = Some (Object m) ∧ Forall (λ kv, snd kv = Null ∨ snd kv = Array []) m.
Proof.
  unfold live_port_map_security. destruct v as [[| | | | |m]|]; try done; [by left|].
  rewrite merge_all_secure, Forall_fmap. intros Hm. right. exists m. split; [done|].
  eapply Forall_impl; [exact Hm|]. intros [k x]. simpl. destruct x as [| | | |[|]|]; naive_solver.
Qed.

(** ** Security options *)

Lemma scan_options_secure options : ∀ st b,
  fst (scan_options options st b) = Secure →
  st = Secure ∧ (∀ s, s ∈ DISABLING → Str s ∉ options) ∧
  (snd (scan_options options st b) = true → b = true ∨ ∃ s, s ∈ ENABLING ∧ Str s ∈ options).
Proof.
  induction options as [|o options IH]; intros st b; cbn [scan_options].
  { cbn [fst snd]. intros ->. split_and!; [done|set_solver|by left]. }
  destruct o as [| | |s| |]; cbn [as_str]; try (intros [Hst _]%IH; by destruct st).
  destruct (str_in s ENABLING) eqn:E1.
  - intros (-> & Hd & Hb)%IH. apply str_in_elem in E1. split_and!; [done| |].
    + intros s' Hs'. specialize (Hd s' Hs'). intros [[= ->]|?]%elem_of_cons; [|done].
      revert Hs' E1. vm_compute. set_solver.
    + intros _. right. exists s. split; [done|]. apply list_elem_of_here.
  - destruct (str_in s DISABLING) eqn:E2; [intros [Hst _]%IH; by destruct st|].
    intros (-> & Hd & Hb)%IH. split_and!; [done| |].
    + intros s' Hs' [[= ->]|?]%elem_of_cons; [|by eapply Hd]. apply str_in_elem in Hs'. congruence.
    + intros Hs. destruct (Hb Hs) as [?|(s' & ? & ?)]; [by left|]. right. exists s'. split; [done|]. set_solver.
Qed.
(** No privileges can be gained, and no confinement is lifted. *)
Definition confined (host : map_of) : Prop :=
  obj_get "NoNewPrivileges" host ≠ Some (Bool false) ∧
  (obj_get "NoNewPrivileges" host = Some (Bool true)
   ∨ ∃ l s, obj_get "SecurityOpt" host = Some (Array l) ∧ s ∈ ENABLING ∧ Str s ∈ l) ∧
  (∀ l s, obj_get "SecurityOpt" host = Some (Array l) → s ∈ DISABLING → Str s ∉ l).
Lemma options_secure host : live_security_options_security (Some host) = Secure → confined host.
Proof.
  unfold live_security_options_security, confined.
  assert (∀ l, (let '(st, b) := scan_options l
      match obj_get "NoNewPrivileges" host with
      | Some (Bool false) => Unsafe | Some (Bool true) | None => Secure | Some _ => Unknown end
      (bool_decide (obj_get "NoNewPrivileges" host ≫= as_bool = Some true)) in
      if b then st else merge_live_state st Unsafe) = Secure →
    obj_get "NoNewPrivileges" host ≠ Some (Bool false) ∧
    (obj_get "NoNewPrivileges" host = Some (Bool true) ∨ ∃ s, s ∈ ENABLING ∧ Str s ∈ l) ∧
    (∀ s, s ∈ DISABLING → Str s ∉ l)) as Hl.
  { intros l. pose proof (scan_options_secure l
      match obj_get "NoNewPrivileges" host with
      | Some (Bool false) => Unsafe | Some (Bool true) | None => Secure | Some _ => Unknown end
      (bool_decide (obj_get "NoNewPrivileges" host ≫= as_bool = Some true))) as Hs.
    destruct (scan_options _ _ _) as [st b]. cbn [fst snd] in Hs. destruct b; [|by destruct st].
    intros ->. destruct (Hs eq_refl) as (Hst & Hd & Hb). split_and!; [by intros E; rewrite E in Hst| |done].
    destruct (Hb eq_refl) as [Hn|?]; [left|by right]. apply bool_decide_eq_true in Hn.
    destruct (obj_get "NoNewPrivileges" host) as [[]|]; try done. simpl in Hn. by injection Hn as ->. }
  destruct (obj_get "SecurityOpt" host) as [[| | | |l|]|] eqn:Ho; try (intros ?; by case_match).
  - intros (H1 & H2 & H3)%Hl. split_and!; [done| |by intros].
    destruct H2 as [?|(s & _ & []%not_elem_of_nil)]. by left.
  - intros (H1 & H2 & H3)%Hl. split_and!; [done| |].
    + destruct H2 as [?|(s & ? & ?)]; [by left|right; eauto].
    + intros l' s [= <-]. apply H3.
Qed.

(** ** Mounts *)

Definition is_tmpfs (v : value) : bool := opt_str_eq (get "Type" (as_object v) ≫= as_str) "tmpfs".
(** The mount an entry describes, in full. *)
Definition read_mount (v : value) : option DeclaredMount :=
  m ← as_object v;
  source ← obj_get "Source" m ≫= as_str;
  destination ← obj_get "Destination" m ≫= as_str;
  writable ← obj_get "RW" m ≫= as_bool;
  Some (mkMount source destination writable).
Definition bind_mount (v : value) : option DeclaredMount := if is_tmpfs v then None else read_mount v.
Definition acceptable_mount (m : DeclaredMount) : Prop :=
  live_mount_source_is_sensitive (m_source m) = false
  ∨ live_research_mount_is_safe (Some (m_source m)) (Some (m_destination m)) (Some (m_writable m)) = true.
Definition read_or_tmpfs (v : value) : Prop :=
  is_tmpfs v = true ∨ ∃ m, read_mount v = Some m ∧ acceptable_mount m.
Lemma scan_mount_secure s v :
  mn_state (scan_mount s v) = Secure →
  mn_state s = Secure ∧ mn_complete (scan_mount s v) = mn_complete s ∧ read_or_tmpfs v
  ∧ mn_observed (scan_mount s v) = mn_observed s ++ match bind_mount v with Some m => [m] | None => [] end.
Proof.
  unfold scan_mount, read_or_tmpfs, bind_mount, is_tmpfs, read_mount, get.
  destruct (as_object v) as [m|]; [|by destruct (mn_state s)]. cbn [mbind option_bind].
  destruct (opt_str_eq _ _); [rewrite app_nil_r; auto|].
  destruct (obj_get "Source" m ≫= as_str) as [src|]; [|by cbn; destruct (mn_state s)]. cbn [mbind option_bind].
  destruct (obj_get "Destination" m ≫= as_str) as [dst|];
    [|cbn; by destruct (_ && _), (mn_state s)]. cbn [mbind option_bind].
  destruct (obj_get "RW" m ≫= as_bool) as [rw|]; [|cbn; by destruct (_ && _), (mn_state s)].
  cbn [mbind option_bind mn_state mn_complete mn_observed is_some_and].
  destruct (live_mount_source_is_sensitive src && _) eqn:E; [by destruct (mn_state s)|]. intros Hs.
  split_and!; try done. right. eexists. split; [done|]. unfold acceptable_mount. simpl.
  apply andb_false_iff in E as [?|E]; [by left|right]. by apply negb_false_iff in E.
Qed.
Lemma scan_mounts_secure l : ∀ s,
  mn_state (foldl scan_mount s l) = Secure →
  mn_state s = Secure ∧ Forall read_or_tmpfs l
  ∧ mn_complete (foldl scan_mount s l) = mn_complete s
  ∧ mn_observed (foldl scan_mount s l) = mn_observed s ++ omap bind_mount l.
Proof.
  induction l as [|v l IH]; intros s; simpl; [intros; rewrite app_nil_r; auto|].
  intros (Hs & Hl & Hc & Ho)%IH. apply scan_mount_secure in Hs as (Hs & Hc' & Hv & Ho').
  split_and!; [done|by constructor|congruence|]. rewrite Ho, Ho', <-app_assoc. f_equal.
  by destruct (bind_mount v).
Qed.
(** The bind mounts are exactly the declared ones, none of a sensitive source. *)
Definition mounts_declared (v : option value) (declared : list DeclaredMount) : Prop :=
  ∃ l, v = Some (Array l) ∧ Forall read_or_tmpfs l ∧ omap bind_mount l ≡ₚ declared.
Lemma sort_mounts_perm l : sort_mounts l ≡ₚ l.
Proof. apply merge_sort_Permutation. Qed.
Lemma mounts_secure v declared : live_mounts_security v declared = Secure → mounts_declared v declared.
Proof.
  unfold live_mounts_security. destruct v as [[| | | |l|]|]; try done. simpl.
  intros [Hs Hset]%merge_secure. apply scan_mounts_secure in Hs as (_ & Hl & Hc & Ho). simpl in Hc, Ho.
  rewrite Hc, secure_if_secure, bool_decide_eq_true, Ho in Hset. exists l. split_and!; try done.
  rewrite <-(sort_mounts_perm (omap bind_mount l)), Hset. apply sort_mounts_perm.
Qed.

(** ** Capabilities, resources and limits *)

Lemma scan_drops_secure l : ∀ st b,
  fst (scan_drops l st b) = Secure →
  st = Secure ∧ (snd (scan_drops l st b) = true → b = true ∨ ∃ s, Str s ∈ l ∧ eq_ignore_ascii_case s "all" = true).
Proof.
  induction l as [|v l IH]; intros st b; cbn [scan_drops]; [cbn [fst snd]; auto|].
  destruct v as [| | |s| |]; cbn [as_str]; try (intros [Hst _]%IH; by destruct st).
  intros [-> Hb]%IH. split; [done|]. intros [Hor|(s' & ? & ?)]%Hb.
  - apply orb_true_iff in Hor as [?|?]; [by left|right]. exists s. split; [apply list_elem_of_here|done].
  - right. exists s'. split; [|done]. by apply list_elem_of_further.
Qed.
Definition no_capabilities (host : map_of) : Prop :=
  (obj_get "CapAdd" host = Some Null ∨ obj_get "CapAdd" host = Some (Array [])) ∧
  ∃ l s, obj_get "CapDrop" host = Some (Array l) ∧ Str s ∈ l ∧ eq_ignore_ascii_case s "all" = true.
Lemma capabilities_secure container host :
  live_capabilities_security container (Some host) "docker" = Secure → no_capabilities host.
Proof.
  unfold live_capabilities_security, no_capabilities. simpl. intros [Ha Hd]%merge_secure. split.
  - destruct (obj_get "CapAdd" host) as [[| | | |[|]|]|]; naive_solver.
  - destruct (obj_get "CapDrop" host) as [[| | | |l|]|]; try done. simpl in Hd.
    pose proof (scan_drops_secure l Secure false) as Hs. destruct (scan_drops l Secure false) as [st b].
    cbn [fst snd] in Hs. destruct b; [|by destruct st]. subst st. destruct (Hs eq_refl) as [_ Hb].
    destruct (Hb eq_refl) as [?|(s & ? & ?)]; [done|]. exists l, s. done.
Qed.
Lemma exact_secure m key n : live_exact_u64_security m key n = Secure → obj_get key m = Some (num n).
Proof.
  unfold live_exact_u64_security, live_u64_field. destruct (obj_get key m) as [[| |[k|k|k]| | |]|]; try done.
  simpl. rewrite secure_if_secure, Z.eqb_eq. by intros ->.
Qed.
Definition limit_name (v : value) : option string := get "Name" (as_object v) ≫= as_str.
(** An entry of a checked name has the declared value, soft and hard. *)
Definition limit_exact (declared : DeclaredLiveResources) (v : value) : Prop :=
  (limit_name v = Some "nofile"%string →
     get "Soft" (as_object v) = Some (num (nofile declared)) ∧ get "Hard" (as_object v) = Some (num (nofile declared))) ∧
  (limit_name v = Some "nproc"%string →
     get "Soft" (as_object v) = Some (num (nproc declared)) ∧ get "Hard" (as_object v) = Some (num (nproc declared))).
Lemma scan_ulimit_secure declared s v :
  ul_state (scan_ulimit "docker" declared s v) = Secure →
  ul_state s = Secure ∧ limit_exact declared v
  ∧ ul_nofile (scan_ulimit "docker" declared s v)
    = (ul_nofile s + if bool_decide (limit_name v = Some "nofile"%string) then 1 else 0)%nat
  ∧ ul_nproc (scan_ulimit "docker" declared s v)
    = (ul_nproc s + if bool_decide (limit_name v = Some "nproc"%string) then 1 else 0)%nat.
Proof.
  unfold scan_ulimit, limit_exact, limit_name, get, limit_names. simpl.
  destruct (as_object v) as [m|]; [|by destruct (ul_state s)]. simpl.
  destruct (obj_get "Name" m ≫= as_str) as [nm|]; [|by destruct (ul_state s)].
  destruct (nm =? "nofile")%string eqn:E1; [apply String.eqb_eq in E1 as ->|].
  - cbn [ul_state ul_nofile ul_nproc]. intros [[Hs H1]%merge_secure H2]%merge_secure.
    apply exact_secure in H1, H2.
    split_and!; [done|done|by intros [=]|simpl; lia|simpl; lia].
  - destruct (nm =? "nproc")%string eqn:E2; [apply String.eqb_eq in E2 as ->|].
    + cbn [ul_state ul_nofile ul_nproc]. intros [[Hs H1]%merge_secure H2]%merge_secure.
      apply exact_secure in H1, H2.
      split_and!; [done|by intros [=]|done|simpl; lia|simpl; lia].
    + cbn [ul_state ul_nofile ul_nproc]. intros [[Hs _]%merge_secure _]%merge_secure.
      apply String.eqb_neq in E1, E2. rewrite !bool_decide_eq_false_2 by congruence.
      split_and!; [done|by intros [= ?]|by intros [= ?]|lia|lia].
Qed.
Definition count_limits (name : string) (l : list value) : nat :=
  length (List.filter (λ v, bool_decide (limit_name v = Some name)) l).
Lemma scan_ulimits_secure declared l : ∀ s,
  ul_state (foldl (scan_ulimit "docker" declared) s l) = Secure →
  ul_state s = Secure ∧ Forall (limit_exact declared) l
  ∧ ul_nofile (foldl (scan_ulimit "docker" declared) s l) = (ul_nofile s + count_limits "nofile" l)%nat
  ∧ ul_nproc (foldl (scan_ulimit "docker" declared) s l) = (ul_nproc s + count_limits "nproc" l)%nat.
Proof.
  induction l as [|v l IH]; intros s; cbn [foldl]; [unfold count_limits; simpl; intros; split_and!; [done|constructor|lia|lia]|].
  intros (Hs & Hl & Hf & Hp)%IH. apply scan_ulimit_secure in Hs as (Hs & Hv & Hf' & Hp').
  split_and!; [done|by constructor| |]; rewrite ?Hf, ?Hp, ?Hf', ?Hp'; unfold count_limits; cbn [List.filter];
    repeat case_bool_decide; cbn [length]; lia.
Qed.
Lemma limit_count_secure b n : limit_count b n = Secure → n = 1%nat.
Proof. destruct n as [|[|n]]; simpl; [by destruct b|done|done]. Qed.
(** One limit of each name, with the declared value. *)
Definition limits_exact (host : map_of) (declared : DeclaredLiveResources) : Prop :=
  ∃ l, obj_get "Ulimits" host = Some (Array l) ∧ Forall (limit_exact declared) l
    ∧ count_limits "nofile" l = 1%nat ∧ count_limits "nproc" l = 1%nat.
Lemma ulimits_secure host declared :
  live_ulimits_security (obj_get "Ulimits" host) "docker" declared = Secure → limits_exact host declared.
Proof.
  unfold live_ulimits_security, limits_exact. destruct (obj_get "Ulimits" host) as [[| | | |l|]|]; try done.
  intros [[Hs Hf]%merge_secure Hp]%merge_secure. apply scan_ulimits_secure in Hs as (_ & Hl & Ef & Ep).
  apply limit_count_secure in Hf, Hp. exists l. rewrite Ef in Hf. rewrite Ep in Hp. done.
Qed.
Definition resources_exact (host : map_of) (declared : DeclaredLiveResources) : Prop :=
  obj_get "Memory" host = Some (num (memory_bytes declared))
  ∧ obj_get "MemorySwap" host = Some (num (memory_swap_bytes declared))
  ∧ obj_get "PidsLimit" host = Some (num (pids_limit declared))
  ∧ obj_get "NanoCpus" host = Some (num (nano_cpus declared))
  ∧ limits_exact host declared.
Lemma resources_secure host declared :
  live_resource_limits_security host "docker" declared = Secure → resources_exact host declared.
Proof.
  unfold live_resource_limits_security. cbn [String.eqb Ascii.eqb Bool.eqb]. intros [Hr Hu]%merge_secure.
  rewrite merge_all_secure, !fmap_cons, !Forall_cons in Hr. cbn [fst snd] in Hr.
  destruct Hr as (H1 & H2 & H3 & H4 & _). apply exact_secure in H1, H2, H3, H4.
  split_and!; try done. by apply ulimits_secure.
Qed.

(** ** Temporary file systems *)

(** The options of a hardened file system of the declared size. *)
Definition tmpfs_options (options : string) (size : Z) : Prop :=
  let l := split_char "," options in
  (∀ o, o ∈ ["rw"; "nosuid"; "nodev"; "noexec"]%string → o ∈ l) ∧
  (∀ o, o ∈ WEAKENING → o ∉ l) ∧
  (∃ t, ("size=" ++ t)%string ∈ l) ∧
  (∀ t, ("size=" ++ t)%string ∈ l → parse_live_size t = Some size).
(** What a scan that is still secure has seen of the options in [l]. *)
Record scanned (size : Z) (l : list string) (s : tmpfs_scan) : Prop := {
  sn_rw : tm_rw s = true → "rw"%string ∈ l;
  sn_nosuid : tm_nosuid s = true → "nosuid"%string ∈ l;
  sn_nodev : tm_nodev s = true → "nodev"%string ∈ l;
  sn_noexec : tm_noexec s = true → "noexec"%string ∈ l;
  sn_size : tm_size s = true → ∃ t, ("size=" ++ t)%string ∈ l;
  sn_weak o : o ∈ WEAKENING → o ∉ l;
  sn_exact t : ("size=" ++ t)%string ∈ l → parse_live_size t = Some size;
}.
Lemma seen_twice_secure b st : seen_twice b st = Secure → st = Secure.
Proof. destruct b; [by destruct st|done]. Qed.
Definition PLAIN : list string := ["rw"; "nosuid"; "nodev"; "noexec"; "rprivate"; "tmpcopyup"]%string.
Lemma plain_option o :
  o ∈ PLAIN → (o ∉ WEAKENING) ∧ ∀ t, (("size=" ++ t) ≠ o)%string.
Proof.
  intros Ho. assert (bool_decide (o ∉ WEAKENING) = true ∧ strip_prefix "size=" o = None) as [Hw Hp].
  { unfold PLAIN in Ho. rewrite !elem_of_cons in Ho. by destruct Ho as [->|[->|[->|[->|[->|[->|[]%elem_of_nil]]]]]]. }
  split; [exact (bool_decide_eq_true_1 _ Hw)|]. intros t Ht.
  by rewrite (proj2 (strip_prefix_Some "size=" o t) (eq_sym Ht)) in Hp.
Qed.
Lemma scanned_plain size l s s' o :
  scanned size l s → o ∈ PLAIN →
  (tm_rw s' = true → tm_rw s = true ∨ o = "rw"%string) →
  (tm_nosuid s' = true → tm_nosuid s = true ∨ o = "nosuid"%string) →
  (tm_nodev s' = true → tm_nodev s = true ∨ o = "nodev"%string) →
  (tm_noexec s' = true → tm_noexec s = true ∨ o = "noexec"%string) →
  (tm_size s' = true → tm_size s = true) →
  scanned size (l ++ [o]) s'.
Proof.
  intros [R1 R2 R3 R4 R5 R6 R7] Ho H1 H2 H3 H4 H5. destruct (plain_option o Ho) as [Hw Hs].
  split.
  - intros [?| ->]%H1; set_solver.
  - intros [?| ->]%H2; set_solver.
  - intros [?| ->]%H3; set_solver.
  - intros [?| ->]%H4; set_solver.
  - intros [t ?]%H5%R5. exists t. set_solver.
  - intros w Hw' [?|<-%list_elem_of_singleton]%elem_of_app; [by eapply R6|done].
  - intros t [?|Ht%list_elem_of_singleton]%elem_of_app; [by apply R7|]. by destruct (Hs t).
Qed.
Lemma scan_tmpfs_secure size l s o :
  (tm_state s = Secure → scanned size l s) → tm_state (scan_tmpfs size s o) = Secure →
  scanned size (l ++ [o]) (scan_tmpfs size s o).
Proof.
  destruct s as [st rw ns nd nx rp cu sz]. unfold scan_tmpfs. cbn [tm_state].
  intros Hscan.
  repeat match goal with
  | |- context [(o =? ?lit)%string] =>
      destruct (o =? lit)%string eqn:?; [match goal with E : (o =? lit)%string = true |- _ => apply String.eqb_eq in E as -> end;
        cbn [tm_state]; intros Hs%seen_twice_secure; apply Hscan in Hs;
        eapply scanned_plain; [exact Hs|vm_compute; set_solver|cbn; auto..]|]
  end.
  destruct (str_in o WEAKENING) eqn:Ew; [cbn; by destruct st|].
  destruct (strip_prefix "size=" o) as [t|] eqn:Et; [|cbn; by destruct st].
  apply strip_prefix_Some in Et as ->.
  assert (("size=" ++ t)%string ∉ WEAKENING) as Hnw by (intros Hin%str_in_elem; congruence). clear Ew.
  cbn [tm_state]. intros [Hst Hsz]%seen_twice_secure%merge_secure.
  destruct (Hscan Hst) as [R1 R2 R3 R4 R5 R6 R7]. split; cbn in *.
  - intros ?%R1. set_solver.
  - intros ?%R2. set_solver.
  - intros ?%R3. set_solver.
  - intros ?%R4. set_solver.
  - intros _. exists t. set_solver.
  - intros w Hw [?|E%list_elem_of_singleton]%elem_of_app; [by eapply R6|]. by subst w.
  - intros t' [?|E%list_elem_of_singleton]%elem_of_app; [by apply R7|].
    assert (t' = t) as -> by exact (append_inj_r _ _ _ E).
    unfold size_option in Hsz. destruct (parse_live_size t) as [n|]; [|done].
    apply secure_if_secure, Z.eqb_eq in Hsz as ->. done.
Qed.
Lemma scan_all_tmpfs size o : ∀ l s,
  (tm_state s = Secure → scanned size l s) →
  tm_state (foldl (scan_tmpfs size) s o) = Secure → scanned size (l ++ o) (foldl (scan_tmpfs size) s o).
Proof.
  induction o as [|x o IH]; intros l s Hs; cbn [foldl]; [rewrite app_nil_r; auto|].
  intros Hend. replace (l ++ x :: o) with ((l ++ [x]) ++ o) by by rewrite <-app_assoc.
  apply IH; [|done]. intros Hx. by apply scan_tmpfs_secure.
Qed.
Lemma tmpfs_options_secure options size backend :
  live_tmpfs_options_security options size backend = Secure → tmpfs_options options size.
Proof.
  unfold live_tmpfs_options_security, tmpfs_options. intros [Hs Hr]%merge_secure.
  apply secure_if_secure in Hr. unfold required_options in Hr. rewrite !andb_true_iff in Hr.
  apply (scan_all_tmpfs size _ []) in Hs as [R1 R2 R3 R4 R5 R6 R7];
    [|intros _; split; cbn; (done || intros; set_solver)].
  destruct Hr as [[[[[? ?] ?] ?] ?] _]. split_and!; auto.
  intros o Ho. rewrite !elem_of_cons in Ho. destruct Ho as [->|[->|[->|[->|[]%elem_of_nil]]]]; auto.
Qed.
(** Exactly the declared destinations, each hardened and of the declared size. *)
Definition tmpfs_exact (host : map_of) (declared : list (string * Z)) : Prop :=
  ∃ observed, obj_get "Tmpfs" host = Some (Object observed) ∧ length observed = length declared ∧
    Forall (λ d, ∃ options, obj_get d.1 observed = Some (Str options) ∧ tmpfs_options options d.2) declared.
Lemma tmpfs_secure host declared backend :
  live_tmpfs_security host declared backend = Secure → tmpfs_exact host declared.
Proof.
  unfold live_tmpfs_security, tmpfs_exact. destruct (obj_get "Tmpfs" host) as [[| | | | |observed]|]; try done.
  unfold live_tmpfs_set_security. destruct (_ || _) eqn:E; [done|].
  apply orb_false_iff in E as [Hlen%negb_false_iff%Nat.eqb_eq _].
  rewrite merge_all_secure, Forall_fmap. intros Hall. exists observed. split_and!; [done|done|].
  eapply Forall_impl; [exact Hall|]. intros [d size]. simpl.
  destruct (obj_get d observed) as [[| | |o| |]|]; try done. simpl. intros Ho.
  exists o. split; [done|]. by eapply tmpfs_options_secure.
Qed.

(** ** The capsule *)

(** A user and a group, both numeric and positive. *)
Definition non_root (user : string) : Prop :=
  ∃ uid gid n m, split_char ":" user = [uid; gid] ∧ parse_u64 uid = Some n ∧ parse_u64 gid = Some m ∧ 0 < n ∧ 0 < m.
Lemma positive_id_inv s : positive_id s = true → ∃ n, parse_u64 s = Some n ∧ 0 < n.
Proof. unfold positive_id. destruct (parse_u64 s) as [n|]; [|done]. simpl. intros ?. exists n. split; [done|lia]. Qed.
Lemma user_secure user : live_user_is_non_root user = true → non_root user.
Proof.
  unfold live_user_is_non_root, non_root. destruct (split_char ":" user) as [|uid [|gid [|]]]; try done.
  - by rewrite andb_false_r.
  - intros [(n & ? & ?)%positive_id_inv (m & ? & ?)%positive_id_inv]%andb_true_iff. exists uid, gid, n, m. done.
Qed.
(** What a running container that is [Secure] is known to be. *)
Record capsule (container : map_of) (net : string) (mounts : list DeclaredMount) (tmpfs : list (string * Z))
    (resources : DeclaredLiveResources) (runtime : string) : Prop := {
  cp_running : get "Running" (obj_get "State" container ≫= as_object) = Some (Bool true);
  cp_host : ∃ host, obj_get "HostConfig" container = Some (Object host)
    ∧ obj_get "Privileged" host = Some (Bool false)
    ∧ obj_get "ReadonlyRootfs" host = Some (Bool true)
    ∧ obj_get "NetworkMode" host = Some (Str net)
    ∧ obj_get "PublishAllPorts" host = Some (Bool false)
    ∧ live_port_map_security (obj_get "PortBindings" host) = Secure
    ∧ obj_get "Runtime" host = Some (Str runtime)
    ∧ confined host ∧ no_capabilities host
    ∧ resources_exact host resources ∧ tmpfs_exact host tmpfs;
  cp_networks networks key v :
    get "Networks" (obj_get "NetworkSettings" container ≫= as_object) = Some (Object networks) →
    In (key, v) networks → key = net;
  cp_ports : live_port_map_security (get "Ports" (obj_get "NetworkSettings" container ≫= as_object)) = Secure;
  cp_user : ∃ user, get "User" (obj_get "Config" container ≫= as_object) = Some (Str user) ∧ non_root user;
  cp_mounts : mounts_declared (obj_get "Mounts" container) mounts;
  cp_apparmor : obj_get "AppArmorProfile" container = Some (Str "docker-default");
}.
Lemma as_str_Some v s : v ≫= as_str = Some s → v = Some (Str s).
Proof. destruct v as [[]|]; naive_solver. Qed.
Lemma podman_runtime observed declared : live_runtime_security observed "podman" declared ≠ Secure.
Proof. destruct observed as [r|]; simpl; [|done]. by destruct (_ || _). Qed.
Lemma apparmor_backend container backend :
  live_apparmor_security container backend = Secure → backend = "docker"%string ∨ backend = "podman"%string.
Proof.
  unfold live_apparmor_security. destruct (_ ≫= as_str); [|done].
  destruct (backend =? "docker")%string eqn:E; [left; by apply String.eqb_eq|].
  destruct (backend =? "podman")%string eqn:E'; [right; by apply String.eqb_eq|done].
Qed.
Lemma docker_mode mode net :
  network_mode mode "docker" net = Secure → mode = Some net.
Proof.
  unfold network_mode. destruct mode as [m|]; [|done]. rewrite secure_if_secure, !orb_true_iff, !andb_true_iff.
  intros [[[Hm%String.eqb_eq Hn%String.eqb_eq]|[_ [=]]]|[_ Hm%String.eqb_eq]]; congruence.
Qed.
Lemma get_host key host : get key (Some host) = obj_get key host.
Proof. done. Qed.
Lemma drift_secure container backend net mounts tmpfs resources runtime :
  live_observed_security_drift container backend net mounts tmpfs resources runtime = Secure →
  get "Running" (obj_get "State" container ≫= as_object) = Some (Bool true) →
  backend = "docker"%string ∧ ∃ declared, runtime = Some declared ∧ capsule container net mounts tmpfs resources (rt_name declared).
Proof.
  unfold live_observed_security_drift. intros Hs Hrun.
  apply merge_secure in Hs as [Hs Happ]. apply merge_secure in Hs as [Hs Hcaps].
  apply merge_secure in Hs as [Hs Hmnt]. apply merge_secure in Hs as [Hs Hopt].
  apply merge_secure in Hs as [Hs Hrt]. apply merge_secure in Hs as [Hs Huser].
  apply merge_secure in Hs as [Hs Hmode]. apply merge_secure in Hs as [Hs Hro].
  apply merge_secure in Hs as [Hs Hpriv].
  destruct (obj_get "HostConfig" container ≫= as_object) as [host|] eqn:Hhost; [|by destruct (merge_live_state _ _)].
  apply merge_secure in Hs as [Hs Hres]. apply merge_secure in Hs as [Hs Htmp].
  apply merge_secure in Hs as [Hnet Hports]. destruct runtime as [declared|]; [|done].
  destruct (apparmor_backend _ _ Happ) as [->| ->]; [|by apply podman_runtime in Hrt].
  split; [done|]. exists declared. split; [done|].
  unfold live_port_bindings_security in Hports. rewrite merge_all_secure, !Forall_cons in Hports.
  destruct Hports as (Hpub%expected_bool_secure & Hpb & Hpp & _).
  apply expected_bool_secure in Hpriv, Hro. apply docker_mode, as_str_Some in Hmode.
  cbn [String.eqb Ascii.eqb Bool.eqb] in Hrt.
  destruct (get "Runtime" (Some host) ≫= as_str) as [r|] eqn:Er; [|done]. apply as_str_Some in Er.
  simpl in Hrt. apply secure_if_secure, String.eqb_eq in Hrt as ->.
  split.
  - done.
  - assert (obj_get "HostConfig" container = Some (Object host)) as Hobj.
    { by destruct (obj_get "HostConfig" container) as [[]|]; simplify_eq/=. }
    exists host. do 7 (split; [assumption|]). split; [by apply options_secure|].
    split; [by eapply capabilities_secure|]. split; [by apply resources_secure|by eapply tmpfs_secure].
  - intros networks key v. by eapply network_secure.
  - done.
  - destruct (get "User" _ ≫= as_str) as [user|] eqn:Eu; [|done]. apply as_str_Some in Eu.
    exists user. split; [done|]. apply user_secure. by apply secure_if_secure.
  - by apply mounts_secure.
  - unfold live_apparmor_security in Happ. destruct (obj_get "AppArmorProfile" container ≫= as_str) as [p|] eqn:Ep; [|done].
    apply as_str_Some in Ep. simpl in Happ. apply secure_if_secure, String.eqb_eq in Happ as ->. done.
Qed.

Lemma container_secure v backend net mounts tmpfs resources runtime :
  live_container_security v backend net mounts tmpfs resources runtime = Secure →
  backend = "docker"%string ∧ ∃ container declared,
    v = Array [Object container] ∧ runtime = Some declared
    ∧ capsule container net mounts tmpfs resources (rt_name declared).
Proof.
  unfold live_container_security. destruct v as [| | | |[|[| | | | |container] [|]]|]; try done.
  destruct (bool_decide _) eqn:Hrun; [|done]. apply bool_decide_eq_true in Hrun.
  intros Hd. destruct (drift_secure _ _ _ _ _ _ _ Hd) as (-> & declared & -> & Hc).
  { destruct (get "Running" _) as [[]|]; simplify_eq/=; congruence. }
  split; [done|]. by exists container, declared.
Qed.
