(* ===== verification/OnboardingRun.v ===== *)
(** * Onboarding over the file system

    Every command of [onboarding.rs] leaves the desired system as it was, or
    [import] replaces it, in one rename, by a text that was checked. *)

From S2P Require Import Prelude RustStr Json Posix Budget PrivateStore Activity WorkerFs Manifest Live ControlData CliHost Descriptor Desired DesiredFacts DesiredRun CliCommands Onboarding.

(** ** The names of an import *)

Lemma append_nested s t u : (s +:+ t) +:+ u = s +:+ (t +:+ u).
Proof. apply str_bytes_inj. by rewrite !str_bytes_app, app_assoc. Qed.
Lemma split_once_sep c s t : contains_byte (byte_of c) s = false → split_once c (s +:+ String c t) = Some (s, t).
Proof.
  unfold contains_byte. induction s as [|a s IH].
  { intros _. change (split_once c (String c t) = Some (EmptyString, t)). simpl. by rewrite Ascii.eqb_refl. }
  cbn [str_bytes existsb]. rewrite orb_false_iff. intros [Ha Hs].
  change (split_once c (String a (s +:+ String c t)) = Some (String a s, t)). cbn [split_once].
  rewrite (IH Hs). destruct (Ascii.eqb_spec a c) as [->|]; [by rewrite Z.eqb_refl in Ha|done].
Qed.
Lemma contains_byte_rev b s : contains_byte b (rev_str s) = contains_byte b s.
Proof.
  unfold contains_byte. rewrite str_bytes_rev. induction (str_bytes s) as [|x l IH]; [done|].
  simpl. rewrite existsb_app, IH. simpl. rewrite orb_false_r. apply orb_comm.
Qed.
Lemma rsplit_once_sep c s t : contains_byte (byte_of c) t = false → rsplit_once c (s +:+ String c t) = Some (s, t).
Proof.
  intros Ht. unfold rsplit_once. rewrite rev_str_app.
  assert (rev_str (String c t) = rev_str t +:+ String c EmptyString) as ->.
  { change (String c t) with (String c EmptyString +:+ t).
    rewrite rev_str_app. f_equal. apply str_bytes_inj. by rewrite str_bytes_rev. }
  rewrite append_nested. change (String c EmptyString +:+ rev_str s) with (String c (rev_str s)).
  rewrite split_once_sep by (by rewrite contains_byte_rev). simpl. by rewrite !rev_str_involutive.
Qed.

Definition plain_name (n : string) : Prop :=
  contains_byte 47 n = false ∧ n ≠ EmptyString ∧ n ≠ "."%string.
Lemma components_join p n : plain_name n → components (p +:+ "/" +:+ n) = components p ++ [n].
Proof.
  intros (Hn & He & Hd). unfold components. change ("/" +:+ n) with (String "/" n).
  rewrite split_char_sep, (split_char_none "/" n Hn). rewrite List.filter_app. f_equal. cbn [List.filter].
  assert (str_is_empty n = false) as -> by (by apply String.eqb_neq).
  assert ((n =? ".")%string = false) as -> by (by apply String.eqb_neq). done.
Qed.
Lemma canonical_below l n : canonical (l ++ [n]) = below (canonical l) n.
Proof. unfold canonical. by rewrite foldl_app. Qed.

(** The configuration directory as a path of the name space. *)
Definition base_of (cwd dir : string) : string :=
  if str_is_empty dir then canonical (components cwd)
  else if starts_with "/" dir then canonical (components dir) else canonical (components (cwd ++ "/" ++ dir)).
Lemma starts_with_append p s t : starts_with p s = true → starts_with p (s +:+ t) = true.
Proof.
  unfold starts_with. destruct (strip_prefix p s) as [r|] eqn:E; [|done]. apply strip_prefix_Some in E as ->.
  destruct (strip_prefix p _) as [r'|] eqn:E'; [done|].
  assert (strip_prefix p ((p +:+ r) +:+ t) = Some (r +:+ t)) as H; [|congruence].
  apply strip_prefix_Some. change ((p +:+ r) +:+ t = p +:+ (r +:+ t)). by rewrite append_nested.
Qed.
Lemma starts_with_slash s t : s ≠ EmptyString → starts_with "/" (s +:+ t) = starts_with "/" s.
Proof.
  destruct s as [|a s]; [done|]. intros _.
  change (starts_with "/" (String a (s +:+ t)) = starts_with "/" (String a s)).
  unfold starts_with. cbn [strip_prefix]. by destruct (Ascii.eqb _ a).
Qed.
Lemma resolve_join cwd dir n : plain_name n → resolve cwd (path_join dir n) = below (base_of cwd dir) n.
Proof.
  intros Hn. unfold resolve, path_join, base_of. destruct (str_is_empty dir) eqn:Hd.
  - assert (starts_with "/" n = false) as ->.
    { destruct Hn as (Hn & He & _). destruct n as [|a n]; [done|]. unfold starts_with. cbn [strip_prefix].
      destruct (Ascii.eqb_spec "/"%char a) as [<-|]; [done|done]. }
    change (cwd ++ "/" ++ n)%string with (cwd +:+ "/" +:+ n). by rewrite components_join, canonical_below.
  - assert (dir ≠ EmptyString) by (by apply String.eqb_neq).
    change (dir ++ "/" ++ n)%string with (dir +:+ "/" +:+ n). rewrite starts_with_slash by done.
    destruct (starts_with "/" dir); [by rewrite components_join, canonical_below|].
    change (cwd ++ "/" ++ dir +:+ "/" +:+ n)%string with (cwd +:+ "/" +:+ (dir +:+ "/" +:+ n)).
    assert (cwd +:+ "/" +:+ (dir +:+ "/" +:+ n) = (cwd +:+ "/" +:+ dir) +:+ "/" +:+ n) as -> by (by rewrite !append_nested).
    by rewrite components_join, canonical_below.
Qed.
Lemma below_ne d a b : a ≠ b → below d a ≠ below d b.
Proof. intros Hne E. by apply Hne, (append_inj_r "/"), (append_inj_r d). Qed.

Definition DESIRED : string := "tentaflake.toml".
Definition STAGED : string := "tentaflake.toml.pending".
Definition LOCK : string := ".tentaflake.toml.lock".
Lemma import_names : plain_name DESIRED ∧ plain_name STAGED ∧ plain_name LOCK.
Proof. by split_and!. Qed.
Lemma staged_name dir : with_extension "toml.pending" (path_join dir DESIRED) = path_join dir STAGED.
Proof.
  unfold with_extension, path_join. destruct (str_is_empty dir); [done|].
  change (dir ++ "/" ++ DESIRED)%string with (dir +:+ String "/" DESIRED).
  rewrite rsplit_once_sep by done.
  assert (rsplit_once "." DESIRED = Some ("tentaflake", "toml")%string) as -> by (by vm_compute). cbv beta iota.
  change (str_is_empty "tentaflake") with false. cbv beta iota.
  change ((dir ++ "/") ++ "tentaflake" ++ "." ++ "toml.pending")%string with ((dir +:+ "/") +:+ STAGED). by rewrite append_nested.
Qed.

(** ** Readers *)

Lemma reads_attempt {A} (m : Sys A) Q :
  reader m Q → reads (in_world (attempt m)) (λ c r, ∀ a, r = Ok a → Q (c_world c) a).
Proof.
  intros Hm c. unfold in_world. apply wp_zoom, wp_attempt. eapply wp_mono; [apply Hm| |].
  - intros a w [S HQ]. split; [by apply same_cli_world|]. by intros ? [= <-].
  - intros e w S. split; [by apply same_cli_world|done].
Qed.
Lemma reads_timeout argv t : reads (output_with_timeout argv t) (λ _ _, True).
Proof. intros c. unfold output_with_timeout. apply run_wp. by destruct (c_inspections c). Qed.
Lemma reads_optional p :
  reads (read_optional p) (λ c o, ∀ b, o = Some b → plain_file MAX_INPUT (c_world c) (located c p) b).
Proof.
  intros c. unfold read_optional, cwd. apply wp_bind, wp_gets. fold (located c p).
  eapply wp_reads; [apply (reads_attempt _ _ (reader_symlink_metadata (located c p)))|done|].
  intros [[i x]|[]] c1 S1 Hl; try by apply wp_fail. 2:{ by apply wp_ret. }
  specialize (Hl _ eq_refl). apply wp_bind, wp_throw_if; [done|]. intros [Hk Hb]%regular_input_inv.
  assert (lookup_inode (c_world c1) (located c1 p) = Some (i, x)) as Hl1.
  { rewrite (located_same _ _ _ S1), (lookup_inode_same _ _ _ (sc_fs _ _ S1)). exact Hl. }
  apply wp_bind. eapply wp_mono; [exact (reads_bounded _ p i x c1 Hl1 Hk Hb)| |].
  - intros b c2 [S2 ->]. apply wp_bind, wp_throw_if; [intros _; by etrans|]. intros _. apply wp_ret.
    split; [by etrans|]. intros ? [= <-]. by exists i, x.
  - intros e c2 S2. by etrans.
Qed.
Lemma reads_legacy_name found unreadable p : reads (onboarding_legacy found unreadable p) (λ _ _, True).
Proof.
  unfold onboarding_legacy. eapply reads_bind; [apply reads_absent|].
  intros [?|[]]; [by eapply reads_any, reads_ret|apply reads_fail..].
Qed.
Lemma reads_legacy dir : reads (onboarding_refuse_legacy dir) (λ _ _, True).
Proof. eapply reads_bind; [apply reads_legacy_name|]. intros _. apply reads_legacy_name. Qed.

(** ** The private copy *)

Definition private_dir (c : cli) (n : Z) : string :=
  resolve (e_cwd (c_env c)) (path_join (e_temp (c_env c)) ("tentaflake-onboarding-" ++ pretty (e_pid (c_env c)) ++ "-" ++ pretty n)).
(** A name no private copy can have. *)
Definition outside (c : cli) (q : string) : Prop := ∀ n, inside (private_dir c n) q = false.
Lemma outside_same c c' q : c_env c' = c_env c → outside c q → outside c' q.
Proof. unfold outside, private_dir. by intros ->. Qed.

Lemma keeps_discard q dir w : wf w → inside dir q = false →
  keeps q w (set_names (filter (λ kv : string * Z, inside dir kv.1 = false)) w).
Proof.
  intros Hwf Hq. split; simpl; [|done| |].
  - intros p i Hi. apply map_lookup_filter_Some in Hi as [Hi _]. by apply (Hwf p i).
  - intros Hn. apply map_lookup_filter_None. by left.
  - intros i n Hi Hn Hl. assert (filter (λ kv : string * Z, inside dir kv.1 = false) (w_names w) !! q = Some i) as Hf
      by (by apply map_lookup_filter_Some).
    split_and!; [done|done|]. unfold nlink in *. simpl.
    match goal with |- Z.of_nat (size ?m) = 1 => assert (size m ≠ 0%nat ∧ (size m ≤ 1)%nat) end.
    { split.
      - rewrite map_size_non_empty_iff. intros He.
        assert (filter (λ kv : string * Z, kv.2 = i) (filter (λ kv : string * Z, inside dir kv.1 = false) (w_names w)) !! q = Some i) as E
          by (by apply map_lookup_filter_Some). by rewrite He in E.
      - assert (size (filter (λ kv : string * Z, kv.2 = i) (w_names w)) = 1%nat) as <- by lia.
        apply map_subseteq_size.
        apply map_subseteq_spec. intros p j. rewrite !map_lookup_filter_Some. naive_solver. }
    lia.
Qed.

(** A step that keeps [q], whatever its outcome. *)
Definition holds {A} (q : string) (m : Cli A) (Q : A → Prop) (c : cli) : Prop :=
  wp m (λ a c', spares q c c' ∧ Q a) (λ _ c', spares q c c') c.
Lemma spares_wf q c c' : spares q c c' → wf (c_world c').
Proof. intros [[] _]. done. Qed.
Lemma spares_refl q c : wf (c_world c) → spares q c c.
Proof. intros Hwf. by apply same_cli_spares. Qed.
Lemma holds_bind {A B} q (m : Cli A) (k : A → Cli B) Q R c :
  holds q m Q c → (∀ a c1, spares q c c1 → Q a → holds q (k a) R c1) → holds q (m ≫= k) R c.
Proof.
  intros Hm Hk. apply wp_bind. eapply wp_mono; [exact Hm| |done].
  intros a c1 [S HQ]. eapply wp_mono; [by apply Hk| |].
  - intros b c2 [S2 HR]. split; [by eapply spares_trans|done].
  - intros e c2 S2. by eapply spares_trans.
Qed.
Lemma holds_mono {A} q (m : Cli A) (Q Q' : A → Prop) c : holds q m Q c → (∀ a, Q a → Q' a) → holds q m Q' c.
Proof. intros Hm H. eapply wp_mono; [exact Hm|naive_solver|done]. Qed.
Lemma holds_reads {A} q (m : Cli A) Q c : wf (c_world c) → reads m Q → holds q m (Q c) c.
Proof.
  intros Hwf Hm. eapply wp_mono; [exact (Hm c)| |].
  - intros a c' [S HQ]. split; [by apply same_cli_spares|done].
  - intros e c' S. by apply same_cli_spares.
Qed.
Lemma holds_fs {A} q message (m : Sys A) c :
  wf (c_world c) →
  wp m (λ _ w, keeps q (c_world c) w) (λ _ w, keeps q (c_world c) w) (c_world c) →
  holds q (fs message m) (λ _, True) c.
Proof.
  intros Hwf Hm. apply wp_zoom, wp_map_err. eapply wp_mono; [exact Hm|by intros a w|by intros e w].
Qed.
Lemma holds_dropping {A} q f (m : Cli A) Q c : holds q m Q c → holds q (dropping f m) Q c.
Proof.
  unfold holds, wp, dropping. destruct (m c) as [[a|e] c'].
  - intros [S HQ]. split; [|done]. eapply spares_trans; [exact S|]. split; [|done]. apply keeps_close. by eapply spares_wf.
  - intros S. eapply spares_trans; [exact S|]. split; [|done]. apply keeps_close. by eapply spares_wf.
Qed.
Lemma keeps_remove_dir q dir w : wf w → inside dir q = false → keeps q w (snd (sys_remove_dir_all dir w)).
Proof.
  intros Hwf Hq. unfold sys_remove_dir_all, simple, syscall.
  assert (∀ fs, keeps q w (set_faults fs w)) as K by (intros; by apply same_fs_keeps, same_fs_faults).
  destruct (w_faults w) as [|[k|] l]; [by apply keeps_discard|apply K|].
  eapply keeps_trans; [apply (K l)|]. by apply keeps_discard.
Qed.
Lemma holds_discarding {A} q dir (m : Cli A) Q c :
  inside dir q = false → holds q m Q c → holds q (discarding dir m) Q c.
Proof.
  intros Hq. unfold holds, wp, discarding.
  assert (∀ c', spares q c c' → spares q c (set_world (λ _, snd (sys_remove_dir_all dir (c_world c'))) c')) as Hd.
  { intros c' S. eapply spares_trans; [exact S|]. split; [|done]. apply keeps_remove_dir; [by eapply spares_wf|done]. }
  destruct (m c) as [[a|e] c'].
  - intros [S HQ]. pose proof (Hd _ S) as S'. destruct (sys_remove_dir_all dir (c_world c')). by split.
  - intros S. pose proof (Hd _ S) as S'. by destruct (sys_remove_dir_all dir (c_world c')).
Qed.
Lemma wp_mkdir_keeps q p mode w : wf w → q ≠ p →
  wp (sys_mkdir p mode) (λ _ w', keeps q w w') (λ _ w', keeps q w w') w.
Proof.
  intros Hwf Hq. assert (∀ fs, keeps q w (set_faults fs w)) as K by (intros; by apply same_fs_keeps, same_fs_faults).
  apply wp_simple; intros fs; [apply K|]. unfold wp. destruct (lookup_inode (set_faults fs w) p); [apply K|].
  eapply keeps_trans; [apply (K fs)|]. by apply (keeps_alloc q p (set_faults fs w) (mk_inode Directory mode (w_euid w) [])).
Qed.
Lemma starts_with_self p s : starts_with p (p +:+ s) = true.
Proof.
  unfold starts_with. assert (strip_prefix p (p +:+ s) = Some s) as -> by (by apply strip_prefix_Some). done.
Qed.
Lemma inside_ne dir q : inside dir q = false → q ≠ dir ∧ q ≠ private_file_of dir.
Proof.
  unfold inside. rewrite orb_false_iff. intros [Hd%String.eqb_neq Hs]. split; [done|]. intros ->.
  unfold private_file_of in Hs. change (dir ++ "/input.json")%string with (dir +:+ "/" +:+ "input.json") in Hs.
  rewrite <-append_nested in Hs. change (dir ++ "/")%string with (dir +:+ "/") in Hs. by rewrite starts_with_self in Hs.
Qed.
Lemma private_input_holds {A} q b (k : string → Cli A) Q c :
  wf (c_world c) → outside c q → (∀ p c1, spares q c c1 → holds q (k p) Q c1) →
  holds q (with_private_input b k) Q c.
Proof.
  intros Hwf Ho Hk. unfold with_private_input. eapply holds_bind.
  { apply (holds_reads q nonce (λ _ _, True)); [done|]. intros c0. apply wp_zoom. eapply wp_mono; [apply reader_unix_seconds| |].
    - intros a w [S _]. split; [by apply same_cli_world|done].
    - intros e w S. by apply same_cli_world. }
  intros n c1 S1 _. eapply holds_bind; [apply (holds_reads q _ (λ c a, a = c_env c)); [by eapply spares_wf|apply reads_gets]|].
  intros env c2 S2 ->. specialize (Ho n). rewrite (proj2 S1). change (resolve _ _) with (private_dir c n).
  destruct (inside_ne _ _ Ho) as [Hne Hne']. pose proof (spares_wf _ _ _ S2) as Hwf2.
  eapply holds_bind; [apply holds_fs; [done|by apply wp_mkdir_keeps]|]. intros _ c3 S3 _.
  apply holds_discarding; [done|]. pose proof (spares_wf _ _ _ S3) as Hwf3.
  set (f0 := private_file_of (private_dir c n)) in *.
  unfold holds. apply wp_bind. unfold fs at 1. apply wp_zoom, wp_map_err.
  eapply wp_mono; [exact (wp_create_pending f0 384 (c_world c3) Hwf3)| |].
  2:{ intros e w S. by apply same_cli_spares, same_cli_world. }
  intros f w [P K]. set (c4 := set_world (λ _, w) c3).
  assert (spares q c3 c4) as S4 by (split; [by apply K|done]).
  eapply wp_mono; [apply (holds_bind q _ _ (λ _, True) Q c4)| |].
  - apply holds_dropping, holds_fs; [apply P|]. wp_apply (wp_write_pending 384 f0 f b w P).
    + intros _ w' [_ K']. by apply K'.
    + intros e w' K'. by apply K'.
  - intros _ c5 S5 _. apply Hk. eauto 6 using spares_trans.
  - intros a c5 [S5 HQ]. split; [by eapply spares_trans|done].
  - intros e c5 S5. by eapply spares_trans.
Qed.
(** ** Publication *)

(** A file with one name. *)
Definition sole (w : world) (p : string) (n : inode) : Prop :=
  ∃ i, w_names w !! p = Some i ∧ w_inodes w !! i = Some n ∧ nlink w i = 1.
Lemma sole_keeps p w w' n : keeps p w w' → sole w p n → sole w' p n.
Proof. intros K (i & Hi & Hn & Hl). exists i. by apply (kp_some _ _ _ K). Qed.
Lemma sole_lookup w p n : sole w p n → ∃ i, lookup_inode w p = Some (i, n).
Proof. intros (i & Hi & Hn & _). exists i. unfold lookup_inode. rewrite Hi. simpl. by rewrite Hn. Qed.
Lemma sole_plain w p n b limit : sole w p n → plain_file limit w p b → i_kind n = Regular ∧ b = i_data n ∧ blen b <= limit.
Proof. intros (i & Hl)%sole_lookup (j & x & Hl' & Hk & Hb & ->). rewrite Hl in Hl'. by simplify_eq. Qed.

Definition modes (n : inode) (m : Z) : Prop := m = mode_and (i_mode n) 511 ∨ m = 384.
Lemma reads_file_mode p n c :
  sole (c_world c) p n → i_kind n = Regular →
  wp (file_mode p) (λ m c', same_cli c c' ∧ modes n m) (λ _ c', same_cli c c') c.
Proof.
  intros Hs Hk. unfold file_mode.
  eapply wp_reads; [apply (reads_attempt _ _ (reader_open_follow p))|done|]. intros r c1 S1 Hr. apply wp_ret.
  split; [done|]. destruct r as [x|]; [|by right]. left. specialize (Hr x eq_refl).
  apply sole_lookup in Hs as (i & Hl). rewrite (follow_plain _ _ _ _ _ Hl Hk) in Hr. by injection Hr as <-.
Qed.
(** Through the staged file: either it replaced [p], or [p] is kept. *)
Definition staging (t p : string) (c : cli) {A} (m : Cli A) (R : cli → Prop) (c0 : cli) : Prop :=
  wp m (λ _ c', R c' ∧ ∀ q, q ≠ t → q ≠ p → spares q c c') (λ _ c', ∀ q, q ≠ t → spares q c c') c0.
Lemma publish_staged_spec f dir b d m c0 c :
  let path := path_join dir DESIRED in
  let t := located c (path_join dir STAGED) in
  (∀ q, q ≠ t → spares q c0 c) → pending m t (fd_ino f) [] (c_world c) →
  staging t (located c path) c0 (publish_staged f path (path_join dir STAGED) b (Some d))
    (λ c', placed m (c_world c') (located c path) b) c.
Proof.
  intros path t K P. unfold publish_staged, cwd. apply wp_bind, wp_gets. apply wp_bind.
  fold (located c (path_join dir STAGED)) (located c path). fold t. set (p := located c path).
  assert (t ≠ p) as Hne.
  { unfold t, p, path, located. rewrite !resolve_join by apply import_names. by apply below_ne. }
  apply wp_zoom, wp_map_err, wp_bind. eapply wp_mono; [exact (wp_write_pending m t f b (c_world c) P)| |].
  2:{ intros e w Kw q Hq. eapply spares_trans; [by apply K|]. split; [by apply Kw|done]. }
  intros _ w [P1 K1]. eapply wp_mono; [apply reader_sync| |].
  2:{ intros e w1 S q Hq. eapply spares_trans; [by apply K|]. split; [|done]. eapply keeps_same; [by apply K1|exact S]. }
  intros _ w1 [S1 _]. set (c1 := set_world (λ _, w1) c).
  assert (∀ q, q ≠ t → spares q c0 c1) as Kc1.
  { intros q Hq. eapply spares_trans; [by apply K|]. split; [|done]. eapply keeps_same; [by apply K1|exact S1]. }
  assert (∀ c2, same_cli c1 c2 → ∀ q, q ≠ t → spares q c0 c2) as Kq.
  { intros c2 S2 q Hq. eapply spares_same; [by apply Kc1|done]. }
  eapply wp_reads; [apply reads_optional|by intros; apply Kq|]. intros now c2 S2 _.
  apply wp_bind, wp_throw_if; [by intros; apply Kq|]. intros _.
  apply wp_bind, wp_lift; [|by intros; apply Kq]. intros parent _.
  eapply wp_reads; [apply reads_legacy|by intros c3 S3 e; apply Kq; etrans|]. intros _ c3 S3 _.
  assert (same_cli c1 c3) as S13 by (by etrans).
  apply wp_zoom, wp_map_err. fold p.
  assert (pending m t (fd_ino f) b (c_world c3)) as P3.
  { eapply pending_same; [exact P1|]. etrans; [exact S1|]. apply (sc_fs _ _ S13). }
  eapply wp_mono; [exact (wp_rename_pending m t p _ b (c_world c3) P3 Hne)| |].
  - intros _ w4 (W4 & Hp & K4). split; [done|]. intros q Ht Hq. eapply spares_trans; [by apply (Kq c3)|].
    split; [by apply K4|done].
  - intros e w4 S4. apply Kq. etrans; [exact S13|]. by apply same_cli_world.
Qed.
Lemma wp_dropping {A} f (m : Cli A) Q X c :
  wp m (λ a c', Q a (set_world (close f) c')) (λ e c', X e (set_world (close f) c')) c → wp (dropping f m) Q X c.
Proof. unfold wp, dropping. by destruct (m c) as [[a|e] c']. Qed.
Lemma publish_import dir b d n c :
  let path := path_join dir DESIRED in
  let t := located c (path_join dir STAGED) in
  wf (c_world c) → sole (c_world c) (located c path) n → i_kind n = Regular →
  staging t (located c path) c (publish path b (Some d))
    (λ c', ∃ m, modes n m ∧ placed m (c_world c') (located c path) b) c.
Proof.
  intros path t Hwf Hs Hk. unfold publish, cwd. cbv zeta. rewrite (staged_name dir : with_extension _ path = _).
  apply wp_bind, wp_gets. fold (located c path) (located c (path_join dir STAGED)). fold t. apply wp_bind.
  eapply wp_mono; [exact (reads_file_mode _ n c Hs Hk)| |].
  2:{ intros e c1 S1 q _. by apply same_cli_spares. }
  intros m c1 [S1 Hm]. apply same_cli_wf in S1 as Hwf1; [|done]. apply wp_bind, wp_zoom, wp_map_err.
  eapply wp_mono; [exact (wp_create_pending t m (c_world c1) Hwf1)| |].
  2:{ intros e w S q _. apply same_cli_spares; [done|]. etrans; [exact S1|]. by apply same_cli_world. }
  intros f w [P K]. set (c2 := set_world (λ _, w) c1).
  assert (∀ q, q ≠ t → spares q c c2) as K2.
  { intros q Hq. eapply spares_trans; [by apply same_cli_spares|]. split; [by apply K|done]. }
  pose proof (publish_staged_spec f dir b d m c c2) as Hps. cbv zeta in Hps. fold path in Hps.
  assert (located c2 (path_join dir STAGED) = t ∧ located c2 path = located c path) as [Et Ep]
    by (unfold t; split; exact (located_same _ _ _ S1)).
  rewrite Et, Ep in Hps. specialize (Hps K2 P).
  assert (∀ q a, spares q c a → spares q c (set_world (close f) a)) as Kd.
  { intros q a Sa. eapply spares_trans; [exact Sa|]. split; [|done]. apply keeps_close. by eapply spares_wf. }
  apply wp_dropping, wp_bind, wp_attempt. eapply wp_mono; [exact Hps| |].
  - intros u c3 [Hp Hq]. apply wp_bind, wp_ret, wp_ret. split; [|by intros; apply Kd, Hq].
    exists m. split; [done|]. by apply placed_close.
  - intros e c3 Hq. assert (wf (c_world c3)) as Hwf3 by (eapply spares_wf, (Hq (t ++ "x")%string); by apply append_ne).
    apply wp_bind, wp_zoom. eapply wp_mono; [exact (wp_remove_any t (c_world c3) Hwf3)| |done].
    intros r w4 [W4 K4]. apply wp_fail. intros q Ht. apply Kd. eapply spares_trans; [by apply Hq|]. split; [by apply K4|done].
Qed.
Section facts.
Context `{SerdeJson} `{Display} `{TomlEdit}.

Lemma validate_with_nix_holds q config b c :
  wf (c_world c) → outside c q → holds q (validate_with_nix config b) (λ plan, plan_shape plan = true) c.
Proof.
  intros Hwf Ho. apply private_input_holds; [done|done|]. intros p c1 S1. apply spares_wf in S1 as Hwf1.
  eapply holds_bind; [by apply holds_reads, reads_timeout|]. intros r c2 S2 _. apply spares_wf in S2.
  eapply holds_bind; [by apply holds_reads, reads_lift|]. intros o c3 S3 _. apply spares_wf in S3.
  eapply holds_bind; [by apply holds_reads, reads_throw_if|]. intros u4 c4 S4 _. apply spares_wf in S4.
  eapply holds_bind; [by apply holds_reads, reads_lift|]. intros plan c5 S5 _. apply spares_wf in S5.
  eapply holds_bind; [by apply holds_reads, reads_throw_if|]. intros u c6 S6 Hp. apply spares_wf in S6.
  apply wp_ret. split; [by apply spares_refl|]. simpl in Hp. by apply negb_false_iff.
Qed.
End facts.

(** ** The conflicts *)

Section spec.
Context `{SerdeJson} `{Display} `{TomlEdit}.

(** No added identity is declared already, active on the host, or repeated. *)
Definition conflict_free (current incoming : value) (agents : list Agent) : Prop :=
  ∃ known added, identities current = Ok known ∧ identities incoming = Ok added ∧
    NoDup added ∧ Forall (λ id, (id ∉ known) ∧ (id ∉ (ag_container <$> agents))) added.
Lemma no_conflict_inv incoming : ∀ known,
  no_conflict known incoming = Ok tt → NoDup incoming ∧ Forall (λ id, id ∉ known) incoming.
Proof.
  induction incoming as [|id incoming IH]; intros known; simpl; [by repeat constructor|].
  intros Hok. inv_ok. match goal with Hr : refuse_if _ _ = _ |- _ => apply bail_if_Ok in Hr; rename Hr into Hs end.
  match goal with Hn : no_conflict _ _ = _ |- _ => apply IH in Hn as [Hnd Hall] end.
  assert (id ∉ known) as Hid by (rewrite <-str_in_elem; congruence).
  rewrite Forall_forall in Hall. split.
  - constructor; [|done]. intros Hin. apply (Hall _ Hin). set_solver.
  - constructor; [done|]. apply Forall_forall. intros x Hx Hk. apply (Hall _ Hx). set_solver.
Qed.
Lemma check_conflicts_inv d incoming agents :
  check_conflicts (Some d) incoming agents = Ok tt →
  ∃ current, parse_fragment d = Ok current ∧ conflict_free current incoming agents.
Proof.
  unfold check_conflicts. intros Hok. inv_ok.
  match goal with Hn : no_conflict _ _ = _ |- _ => destruct (no_conflict_inv _ _ Hn) as [Hnd Hall] end.
  eexists. split; [done|]. do 2 eexists. split_and!; [done|done|done|].
  eapply Forall_impl; [exact Hall|]. intros id Hid. simpl in Hid. set_solver.
Qed.

(** ** The report *)

Lemma set_all_object entries : ∀ m, ∃ m', set_all entries (Object m) = Ok (Object m') ∧
  ∀ key, key ∉ entries.*1 → obj_get key m' = obj_get key m.
Proof.
  induction entries as [|[k v] entries IH]; intros m; simpl; [by exists m|].
  destruct (IH (obj_insert k v m)) as (m' & Hm & Hk). exists m'. split; [done|].
  intros key Hkey. apply not_elem_of_cons in Hkey as [Hne Hkey]. rewrite Hk by done. by apply obj_get_insert_ne.
Qed.
Lemma plan_shape_inv plan : plan_shape plan = true →
  ∃ m instances errors, plan = Object m ∧ obj_get "instances" m = Some (Array instances)
    ∧ obj_get "errors" m = Some (Array errors).
Proof.
  unfold plan_shape. rewrite !andb_true_iff. intros [[[Hs _] Hi] He].
  destruct plan as [| | | | |m]; try done. exists m. unfold index in *. simpl in *.
  destruct (obj_get "instances" m) as [[]|], (obj_get "errors" m) as [[]|]; naive_solver.
Qed.
(** A step that reads, and whose only error is a panic, if [loud] allows it. *)
Definition only_panics {A} (loud : bool) (m : Cli A) (Q : A → Prop) : Prop :=
  ∀ c, wp m (λ a c', same_cli c c' ∧ Q a) (λ e c', same_cli c c' ∧ e = Panic ∧ loud = true) c.
Lemma panics_bind {A B} loud (m : Cli A) (k : A → Cli B) Q R :
  only_panics loud m Q → (∀ a, Q a → only_panics loud (k a) R) → only_panics loud (m ≫= k) R.
Proof.
  intros Hm Hk c. apply wp_bind. eapply wp_mono; [apply Hm| |done]. intros a c1 [S1 HQ].
  eapply wp_mono; [by apply Hk| |]; [intros b c2 [S2 HR]|intros e c2 [S2 He]]; (split; [by etrans|done]).
Qed.
Lemma panics_ret {A} loud (a : A) (Q : A → Prop) : Q a → only_panics loud (mret a) Q.
Proof. intros HQ c. by apply wp_ret. Qed.
Lemma panics_println loud s : only_panics loud (println s) (λ _, True).
Proof. intros c. by apply wp_modify. Qed.
Lemma panics_lift {A} loud (r : result fault A) :
  (∀ e, r = Err e → e = Panic ∧ loud = true) → only_panics loud (lift r) (λ a, r = Ok a).
Proof. intros Hr c. apply wp_lift; [done|]. intros e He. split; [done|by apply Hr]. Qed.
Lemma panics_instances loud l : only_panics loud (show_instances l) (λ _, True).
Proof. induction l as [|i l IH]; simpl; [by apply panics_ret|]. eapply panics_bind; [apply panics_println|done]. Qed.
Lemma panics_errors loud l : only_panics loud (show_errors l) (λ _, True).
Proof. induction l as [|i l IH]; simpl; [by apply panics_ret|]. eapply panics_bind; [apply panics_println|done]. Qed.
Lemma panics_report loud plan valid imported mode :
  (loud = false → is_Some (as_array (index "instances" plan)) ∧ is_Some (as_array (index "errors" plan))) →
  only_panics loud (report plan valid imported mode) (λ _, True).
Proof.
  intros Hp. unfold report. destruct (m_json mode); [apply panics_println|].
  assert (∀ o : option (list value), (loud = false → is_Some o) → ∀ e, unwrap o = Err e → e = Panic ∧ loud = true) as Hu.
  { intros [l|] Ho e; [done|]. intros [= <-]. split; [done|]. destruct loud; [done|]. by destruct (Ho eq_refl). }
  eapply panics_bind; [apply panics_println|]. intros _ _.
  eapply panics_bind; [apply panics_lift; exact (Hu _ (λ Hl, proj1 (Hp Hl)))|]. intros instances _.
  eapply panics_bind; [apply panics_instances|]. intros _ _.
  eapply panics_bind; [apply panics_lift; exact (Hu _ (λ Hl, proj2 (Hp Hl)))|]. intros errors _. apply panics_errors.
Qed.
Lemma set_all_err entries : ∀ plan e, set_all entries plan = Err e → e = Panic.
Proof.
  induction entries as [|[k v] entries IH]; intros plan e; simpl; [done|].
  destruct (set_index k v plan) as [p|x] eqn:E; simpl; [apply IH|]. intros [= <-].
  destruct plan; simpl in E; congruence.
Qed.
Lemma hide_instances_err mode l : ∀ i e, hide_instances mode i l = Err e → e = Panic.
Proof.
  induction l as [|x l IH]; intros i e; cbn [hide_instances]; [done|].
  destruct (set_all _ x) as [y|f] eqn:E; simpl; [|intros [= <-]; by eapply set_all_err].
  destruct (hide_instances mode (S i) l) as [r|f] eqn:E'; simpl; [done|]. intros [= <-]. by eapply IH.
Qed.
Lemma hide_plan_err mode valid plan e : hide_plan mode valid plan = Err e → e = Panic.
Proof.
  unfold hide_plan. destruct (as_array _) as [l|]; simpl; [|by intros [= <-]].
  destruct (hide_instances mode 0 l) as [h|f] eqn:E; simpl; [|intros [= <-]; by eapply hide_instances_err].
  destruct (set_index "instances" _ plan) as [p|f] eqn:E'; simpl.
  - destruct valid; [done|]. destruct p; simpl; congruence.
  - intros [= <-]. destruct plan; simpl in E'; congruence.
Qed.
(** What follows the publication, named to follow [run_locked]. *)
Definition closing_report (config : Config) (mode : OutputMode) (valid imported : bool) (plan : value) : Cli Z :=
  plan ← lift (set_all [("imported"%string, Bool imported);
                        ("activation"%string, Str "explicit-host-update-required");
                        ("host"%string, Str (mode_host mode (cf_host_name config)))] plan);
  plan ← lift (if m_hide mode then hide_plan mode valid plan else Ok plan);
  _ ← report plan valid imported mode;
  mret (if valid then 0 else 1).
Lemma closing_report_panics config mode valid imported plan :
  plan_shape plan = true →
  only_panics (m_hide mode) (closing_report config mode valid imported plan) (λ r, r = if valid then 0 else 1).
Proof.
  intros (m & instances & errors & -> & Hi & He)%plan_shape_inv. unfold closing_report.
  match goal with |- only_panics _ (lift (set_all ?l _) ≫= _) _ => destruct (set_all_object l m) as (m' & Hm & Hk) end.
  eapply panics_bind; [apply (panics_lift (m_hide mode)); intros e; rewrite Hm; done|]. intros plan1 Hp1.
  rewrite Hm in Hp1. injection Hp1 as <-.
  assert (obj_get "instances" m' = Some (Array instances) ∧ obj_get "errors" m' = Some (Array errors)) as [Hi' He'].
  { rewrite !Hk by (simpl; set_solver). done. }
  eapply panics_bind.
  { apply (panics_lift (m_hide mode)). intros e. destruct (m_hide mode); [|done]. intros ?%hide_plan_err. done. }
  intros plan2 Hp2. eapply panics_bind; [|intros _ _; by apply panics_ret].
  apply panics_report. intros Hide. rewrite Hide in Hp2. injection Hp2 as <-.
  unfold index. simpl. rewrite Hi', He'. simpl. eauto.
Qed.

(** ** The commands *)

Definition desired_path (c : cli) (config : Config) : string := located c (path_join (cf_flake_dir config) DESIRED).
Definition staged_path (c : cli) (config : Config) : string := located c (path_join (cf_flake_dir config) STAGED).
Definition lock_file (c : cli) (config : Config) : string := located c (path_join (cf_flake_dir config) LOCK).
Lemma paths_differ c config :
  staged_path c config ≠ desired_path c config ∧ lock_file c config ≠ desired_path c config.
Proof.
  unfold staged_path, desired_path, lock_file, located. rewrite !resolve_join by apply import_names.
  split; by apply below_ne.
Qed.
Lemma located_env c c' p : c_env c' = c_env c → located c' p = located c p.
Proof. unfold located. by intros ->. Qed.

(** The import of [incoming] into the system [n] holds. *)
Definition imported (config : Config) (agents : list Agent) (incoming : value) (n : inode) (c c' : cli) : Prop :=
  i_kind n = Regular ∧ (∃ current, parse_fragment (i_data n) = Ok current ∧ conflict_free current incoming agents) ∧
  ∃ merged v m, import_bytes (Some (i_data n)) incoming = Ok merged ∧ parse merged = Ok v ∧
    modes n m ∧ placed m (c_world c') (desired_path c config) merged.
Definition locked_outcome (config : Config) (agents : list Agent) (import : bool) (incoming : value) (mode : OutputMode)
    (n : inode) (c c' : cli) (r : result fault Z) : Prop :=
  wf (c_world c') ∧
  (∀ q, outside c q → q ≠ staged_path c config → q ≠ desired_path c config → spares q c c') ∧
  ((spares (desired_path c config) c c' ∧ (import = true → r ≠ Ok 0))
   ∨ (import = true ∧ (r = Ok 0 ∨ r = Err Panic ∧ m_hide mode = true) ∧ imported config agents incoming n c c')).

Lemma other_name (a b : string) : ∃ q, q ≠ a ∧ q ≠ b.
Proof.
  exists ((a +:+ b) +:+ "x"). split; intros E; apply (f_equal String.length) in E;
    rewrite !length_append in E; simpl in E; lia.
Qed.
Lemma holds_all {A} (ok : string → Prop) p (m : Cli A) Q c :
  ok p → (∀ q, ok q → holds q m Q c) →
  wp m (λ a c', (∀ q, ok q → spares q c c') ∧ Q a) (λ _ c', ∀ q, ok q → spares q c c') c.
Proof.
  intros Hp Hm. unfold holds, wp in *. destruct (m c) as [[a|e] c']; [|exact Hm].
  split; [intros q Hq; by apply Hm|]. by destruct (Hm p Hp).
Qed.
Lemma import_bytes_parsed d incoming merged : import_bytes (Some d) incoming = Ok merged → ∃ v, parse merged = Ok v.
Proof.
  unfold import_bytes. intros Hok. inv_ok.
  match goal with Hn : Ok _ = Ok merged |- _ => injection Hn as -> end. eauto.
Qed.
Lemma run_locked_spec config agents import incoming mode n c :
  wf (c_world c) → sole (c_world c) (desired_path c config) n → outside c (desired_path c config) →
  wp (run_locked config agents import incoming mode)
    (λ r c', locked_outcome config agents import incoming mode n c c' (Ok r))
    (λ e c', locked_outcome config agents import incoming mode n c c' (Err e)) c.
Proof.
  intros Hwf Hs Hout. set (dest := desired_path c config) in *.
  assert (∀ c' e, (∀ q, outside c q → spares q c c') → locked_outcome config agents import incoming mode n c c' (Err e)) as Kept.
  { intros c' e K. split; [by eapply spares_wf, (K dest)|]. split; [intros q Hq _ _; by apply K|]. left. split; [by apply K|done]. }
  assert (∀ c', same_cli c c' → ∀ q, outside c q → spares q c c') as Same.
  { intros c' S q _. by apply same_cli_spares. }
  unfold run_locked. cbv zeta.
  eapply wp_reads; [apply reads_optional|intros c1 S1 e; by apply Kept, Same|]. intros existing c1 S1 He.
  apply wp_bind, wp_throw_if; [intros _; by apply Kept, Same|]. intros Hsome.
  destruct existing as [d|]; [|done]. specialize (He d eq_refl).
  change (located c _) with dest in He. destruct (sole_plain _ _ _ _ _ Hs He) as (Hk & -> & _).
  apply wp_bind, wp_lift; [|by intros; apply Kept, Same]. intros [] (current & Hcur & Hfree)%check_conflicts_inv.
  apply same_cli_wf in S1 as Hwf1; [|done].
  assert (outside c1 dest) as Hout1 by (by eapply outside_same; [apply S1|]).
  apply wp_bind. eapply wp_mono; [apply (holds_all (outside c1) dest); [done|intros q Hq; by apply validate_with_nix_holds]| |].
  2:{ intros e c2 K2. apply Kept. intros q Hq. eapply spares_trans; [by apply same_cli_spares|].
      apply K2. by eapply outside_same; [apply S1|]. }
  intros plan c2 [K2 Hplan].
  assert (∀ q, outside c q → spares q c c2) as K.
  { intros q Hq. eapply spares_trans; [by apply same_cli_spares|]. apply K2. by eapply outside_same; [apply S1|]. }
  assert (spares dest c c2) as Kd by (by apply K). set (valid := is_true (index "valid" plan)).
  fold (closing_report config mode valid (import && valid) plan).
  pose proof (closing_report_panics config mode valid (import && valid) plan Hplan) as Hreport.
  destruct (import && valid) eqn:Hi; cycle 1.
  { apply wp_bind, wp_ret. eapply wp_mono; [apply Hreport| |].
    - intros r c3 [S3 ->]. split; [by eapply (spares_wf dest), spares_same|]. split; [intros q Hq _ _; eapply spares_same; [by apply K|done]|]. left.
      split; [by eapply spares_same|]. intros ->. simpl in Hi. by rewrite Hi.
    - intros e c3 [S3 _]. apply Kept. intros q Hq. eapply spares_same; [by apply K|done]. }
  apply andb_true_iff in Hi as [-> Hv]. rewrite Hv in *.
  apply wp_bind, wp_bind, wp_lift; [|by intros; apply Kept]. intros merged Hm.
  destruct (import_bytes_parsed _ _ _ Hm) as (v & Hparsed).
  pose proof (publish_import (cf_flake_dir config) merged (i_data n) n c2) as Hpub. cbv zeta in Hpub.
  change (path_join (cf_flake_dir config) DESIRED) with (path_join (cf_flake_dir config) "tentaflake.toml") in Hpub.
  rewrite !(located_env c c2) in Hpub by apply Kd.
  eapply wp_mono; [apply Hpub; [by eapply spares_wf|eapply sole_keeps; [apply Kd|done]|done]| |].
  - intros _ c3 [(m & Hmode & Hp) K3].
    assert (∀ q, outside c q → q ≠ staged_path c config → q ≠ dest → spares q c c3) as K3'.
    { intros q Hq Ht Hd. eapply spares_trans; [by apply K|]. by apply K3. }
    assert (wf (c_world c3)) as Hwf3.
    { destruct (other_name (staged_path c config) dest) as (q & Hq1 & Hq2). by eapply spares_wf, (K3 q). }
    assert (∀ c4, same_cli c3 c4 → imported config agents incoming n c c4) as Himp.
    { intros c4 S4. split; [done|]. split; [eauto|]. exists merged, v, m. split_and!; try done.
      eapply placed_keeps; [|exact Hp]. apply same_fs_keeps; [done|apply S4]. }
    eapply wp_mono; [apply Hreport| |].
    + intros r c4 [S4 ->]. split; [by eapply same_cli_wf|]. split; [intros; eapply spares_same; [by apply K3'|done]|]. right. auto.
    + intros e c4 [S4 [-> Hh]]. split; [by eapply same_cli_wf|]. split; [intros; eapply spares_same; [by apply K3'|done]|]. right. auto.
  - intros e c3 K3. assert (spares dest c2 c3) as Kd3 by (apply K3, not_eq_sym, paths_differ).
    split; [by eapply spares_wf|]. split.
    + intros q Hq Ht Hd. eapply spares_trans; [by apply K|]. by apply K3.
    + left. split; [|done]. by eapply spares_trans.
Qed.
Lemma import_lock_spec config c :
  wf (c_world c) →
  wp (import_lock config) (λ _ c', ∀ q, q ≠ lock_file c config → spares q c c')
    (λ _ c', ∀ q, q ≠ lock_file c config → spares q c c') c.
Proof.
  intros Hwf. unfold import_lock, cwd. cbv zeta. apply wp_bind, wp_gets.
  change (resolve _ _) with (lock_file c config). set (l := lock_file c config).
  assert (∀ c1, same_cli c c1 → ∀ q, q ≠ l → spares q c c1) as Same by (intros; by apply same_cli_spares).
  eapply wp_reads; [apply (reads_attempt _ _ (reader_symlink_metadata l))|intros c1 S1 _; by apply Same|].
  intros r c1 S1 _. apply wp_bind, wp_throw_if; [intros _; by apply Same|]. intros _.
  apply same_cli_wf in S1 as Hwf1; [|done]. apply wp_bind, wp_zoom, wp_map_err.
  eapply wp_mono; [exact (wp_open_create_keeps l 384 (c_world c1) Hwf1)| |].
  2:{ intros e w S. apply Same. etrans; [exact S1|]. by apply same_cli_world. }
  intros f w [Wf Kf]. set (c2 := set_world (λ _, w) c1).
  assert (∀ q, q ≠ l → spares q c c2) as K2.
  { intros q Hq. eapply spares_trans; [by apply same_cli_spares|]. split; [by apply Kf|done]. }
  apply wp_bind, wp_attempt, wp_zoom, wp_map_err. eapply wp_mono; [exact (wp_flock_keeps f true w Wf)| |].
  - intros _ w3 [W3 K3]. apply wp_ret. intros q Hq. eapply spares_trans; [by apply K2|]. by split.
  - intros e w3 S3. apply wp_bind, wp_modify, wp_fail. intros q Hq.
    eapply spares_trans; [by apply K2|]. split; [|done]. simpl.
    eapply keeps_trans; [apply same_fs_keeps; [exact Wf|exact S3]|]. apply keeps_close. by rewrite <-S3.
Qed.

(** The outcome of a command of [agent] over the desired system [n]. *)
Definition onboarding_outcome (config : Config) (agents : list Agent) (action filename : string) (mode : OutputMode)
    (n : inode) (c c' : cli) (r : result fault Z) : Prop :=
  (∀ q, outside c q → q ∉ [staged_path c config; desired_path c config; lock_file c config] → spares q c c') ∧
  ((spares (desired_path c config) c c' ∧ (action = "import"%string → r ≠ Ok 0))
   ∨ (action = "import"%string ∧ (r = Ok 0 ∨ r = Err Panic ∧ m_hide mode = true) ∧
      ∃ b incoming, plain_file MAX_INPUT (c_world c) (located c filename) b ∧ parse_fragment b = Ok incoming ∧
        is_ok (additions incoming) = true ∧ imported config agents incoming n c c')).
Lemma outcome_of_locked config agents action filename mode n b incoming c c2 c3 c4 r :
  (∀ q, q ≠ lock_file c config → spares q c c2) → (wf (c_world c3) → ∀ q, spares q c3 c4) →
  plain_file MAX_INPUT (c_world c) (located c filename) b → parse_fragment b = Ok incoming →
  is_ok (additions incoming) = true →
  locked_outcome config agents (action =? "import")%string incoming mode n c2 c3 r →
  onboarding_outcome config agents action filename mode n c c4 r.
Proof.
  intros K K' Hb Hp Ha (W3 & Hq & Hd). specialize (K' W3). destruct (paths_differ c config) as [Hst Hlk].
  destruct (other_name (lock_file c config) EmptyString) as (x & Hx & _). pose proof (proj2 (K x Hx)) as Henv.
  unfold staged_path, desired_path in Hq, Hd.
  rewrite (located_env c c2 (path_join (cf_flake_dir config) STAGED) Henv) in Hq.
  rewrite (located_env c c2 (path_join (cf_flake_dir config) DESIRED) Henv) in Hq, Hd. split.
  - intros q Ho Hn. rewrite !not_elem_of_cons in Hn. destruct Hn as (Hn1 & Hn2 & Hn3 & _).
    eapply spares_trans; [by apply K|]. eapply spares_trans; [|by apply K'].
    apply Hq; [by eapply outside_same|exact Hn1|exact Hn2].
  - destruct Hd as [[Kd Hr]|(Hi & Hr & Him)]; [left|right].
    + split; [|intros ->; by apply Hr]. eapply spares_trans; [by apply K, not_eq_sym|].
      eapply spares_trans; [exact Kd|apply K'].
    + apply String.eqb_eq in Hi as ->. split_and!; [done|done|]. exists b, incoming. split_and!; try done.
      destruct Him as (Hk & Hcur & merged & v & m & Hm & Hv & Hmode & Hpl). split; [done|]. split; [done|].
      exists merged, v, m. split_and!; try done. unfold desired_path in Hpl. rewrite (located_env c c2) in Hpl by done.
      eapply placed_keeps; [|exact Hpl]. apply K'.
Qed.
Lemma onboarding_spec config agents action filename mode n c :
  wf (c_world c) → sole (c_world c) (desired_path c config) n → outside c (desired_path c config) →
  wp (onboarding_run config agents [action; filename] mode)
    (λ r c', onboarding_outcome config agents action filename mode n c c' (Ok r))
    (λ e c', onboarding_outcome config agents action filename mode n c c' (Err e)) c.
Proof.
  intros Hwf Hs Hout. destruct (paths_differ c config) as [Hst Hlk].
  assert (∀ c' e, same_cli c c' → onboarding_outcome config agents action filename mode n c c' (Err e)) as Kept.
  { intros c' e S. split; [intros q _ _; by apply same_cli_spares|]. left. split; [by apply same_cli_spares|done]. }
  unfold onboarding_run. apply wp_bind, wp_throw_if; [intros _; by apply Kept|]. intros _.
  eapply wp_reads; [apply reads_optional|by intros; apply Kept|]. intros o c1 S1 Ho.
  apply wp_bind, wp_lift; [|by intros; apply Kept]. intros b ->%ok_or_Ok. specialize (Ho b eq_refl).
  apply wp_bind, wp_lift; [|by intros; apply Kept]. intros incoming Hin.
  apply wp_bind, wp_lift; [|by intros; apply Kept]. intros entries Hadd.
  eapply wp_reads; [apply reads_legacy|by intros c2 S2 e; apply Kept; etrans|]. intros _ c2 S2 _.
  assert (same_cli c c2) as S by (by etrans). clear S1 S2 c1.
  apply same_cli_wf in S as Hwf2; [|done]. pose proof (sc_env _ _ S) as Henv.
  assert (∀ q, spares q c c2) as Kq by (intros; by apply same_cli_spares).
  assert (∀ c2', (∀ q, q ≠ lock_file c config → spares q c c2') →
    wf (c_world c2') ∧ sole (c_world c2') (desired_path c2' config) n ∧ outside c2' (desired_path c2' config)) as Ready.
  { intros c2' K. assert (spares (desired_path c config) c c2') as Kd by (by apply K, not_eq_sym).
    unfold desired_path in *. rewrite (located_env c c2') by apply Kd. split; [by eapply spares_wf|].
    split; [by eapply sole_keeps; [apply Kd|]|by eapply outside_same; [apply Kd|]]. }
  assert (is_ok (additions incoming) = true) as Hadds by (by rewrite Hadd).
  pose proof (λ c2' c3 c4 r, outcome_of_locked config agents action filename mode n b incoming c c2' c3 c4 r) as Lift.
  destruct (action =? "import")%string eqn:Ea.
  - apply wp_bind. eapply wp_mono; [exact (import_lock_spec config c2 Hwf2)| |].
    + unfold lock_file. rewrite (located_env c c2) by done. fold (lock_file c config).
      intros f c3 K3. assert (∀ q, q ≠ lock_file c config → spares q c c3) as K13.
      { intros q Hq. eapply spares_trans; [by apply Kq|by apply K3]. }
      destruct (Ready c3 K13) as (W3 & Hs3 & Ho3). apply wp_dropping.
      eapply wp_mono; [exact (run_locked_spec config agents true incoming mode n c3 W3 Hs3 Ho3)| |].
      * intros r c4 Hl. eapply Lift; [exact K13| |done|done|done|exact Hl].
        intros W4 q. split; [by apply keeps_close|done].
      * intros e c4 Hl. eapply Lift; [exact K13| |done|done|done|exact Hl].
        intros W4 q. split; [by apply keeps_close|done].
    + unfold lock_file. rewrite (located_env c c2) by done. fold (lock_file c config).
      intros e c3 K3. assert (∀ q, q ≠ lock_file c config → spares q c c3) as K13.
      { intros q Hq. eapply spares_trans; [by apply Kq|by apply K3]. }
      split; [|left; split; [by apply K13, not_eq_sym|done]].
      intros q _ Hn. apply K13. rewrite !not_elem_of_cons in Hn. apply Hn.
  - destruct (Ready c2 (λ q _, Kq q)) as (W2 & Hs2 & Ho2).
    assert (∀ c3, wf (c_world c3) → ∀ q, spares q c3 c3) as Refl by (intros; by apply spares_refl).
    eapply wp_mono; [exact (run_locked_spec config agents false incoming mode n c2 W2 Hs2 Ho2)| |];
      intros r c3 Hl; by eapply (Lift c2 c3 c3); [intros q _; apply Kq|apply Refl|..].
Qed.

End spec.
