(* ===== verification/Doctor.v ===== *)
(** * The security doctor's verdict

    What exit status 0 means, and what the report without findings means: every
    declared agent was observed as its declared capsule; and that an inspection answers
    before its deadline, captures at most 8 MiB and leaves no child behind. *)

From S2P Require Import Prelude RustStr Json Posix Policy Activity ControlData CliHost Descriptor Desired DesiredFacts Manifest Live CliCommands LiveFacts.

(** ** The declared posture *)

Record sound_host (st : SecurityState) : Prop := {
  sh_profile : ss_profile st ≠ "dev"%string;
  sh_openssh : ss_openssh_enabled st = false;
  sh_apparmor : ss_apparmor_enabled st = true;
  sh_docker_group : ss_docker_group_absent st = true;
  sh_management mg : ss_management st = Some mg →
    mg_enabled mg = true ∧ mg_private_connectivity mg = true ∧ mg_ssh_policy mg = TailnetPolicy;
}.
Record sound_agent (profile : string) (a : SecurityAgent) : Prop := {
  sd_broker : broker_consistent a = true;
  sd_profile : sa_profile a = profile;
  sd_network : sa_network_isolated a = true;
  sd_ports : sa_ports_private a = true;
  sd_unprivileged : sa_unprivileged a = true;
  sd_non_root : sa_non_root a = true;
  sd_capabilities : sa_capabilities_empty a = true;
  sd_no_new_privileges : sa_no_new_privileges a = true;
  sd_read_only : sa_read_only_root a = true;
  sd_mounts : sa_mounts_safe a = true;
  sd_resources : sa_resources_limited a = true;
  sd_runsc : sa_runsc a = true;
  sd_image : sa_image_pinned a = true;
  sd_env : sa_env_files_absent a = true;
  sd_worker : sa_disposable_worker a = true;
  sd_quota : sa_workspace_quota a = true;
  sd_seccomp : sa_seccomp_confined a = true;
  sd_apparmor : sa_apparmor_confined a = true;
}.
(** Nothing of severity critical or high. *)
Definition mild (fs : list Finding) : Prop := existsb serious fs = false.
Lemma mild_app a b : mild (a ++ b) ↔ mild a ∧ mild b.
Proof. unfold mild. by rewrite existsb_app, orb_false_iff. Qed.
Lemma mild_split a b : mild (a ++ b) → mild a ∧ mild b.
Proof. apply mild_app. Qed.
Lemma mild_when b f : serious f = true → mild (when_ b f) → b = false.
Proof. unfold mild, when_. destruct b; [|done]. simpl. by intros ->. Qed.
Lemma mild_check b id severity agent explanation remediation :
  str_in severity ["critical"; "high"]%string = true →
  mild (check_agent b id severity agent explanation remediation) → b = true.
Proof. unfold mild, check_agent. destruct b; [done|]. simpl. unfold serious. simpl. by intros ->. Qed.
Lemma mild_concat {A} (f : A → list Finding) l : mild (concat (f <$> l)) → Forall (λ x, mild (f x)) l.
Proof. induction l as [|x l IH]; simpl; [constructor|]. rewrite mild_app. intros []. constructor; auto. Qed.

Lemma host_findings_mild st : mild (host_findings st) → sound_host st.
Proof.
  unfold host_findings. intros H.
  apply mild_split in H as [Hdev H]. apply mild_split in H as [Hssh H]. apply mild_split in H as [_ H].
  apply mild_split in H as [Hm H]. apply mild_split in H as [Haa H]. apply mild_split in H as [Hdg _].
  apply mild_when in Hdev; [|done]. rewrite Hdev in *. apply mild_when in Hssh; [|done].
  apply mild_when in Haa, Hdg; [|done..]. rewrite !andb_true_r, negb_false_iff in *.
  split; try done; [by apply String.eqb_neq|]. intros mg Hmg. rewrite Hmg in Hm. apply mild_app in Hm as [H1 H2].
  apply mild_when in H1, H2; [|done..]. simpl in H1, H2. apply orb_false_iff in H1 as [H1 H3].
  rewrite !negb_false_iff in *. by destruct (mg_ssh_policy mg).
Qed.
Lemma agent_findings_mild profile a : profile ≠ "dev"%string → mild (agent_findings profile a) → sound_agent profile a.
Proof.
  intros Hp. unfold agent_findings. apply String.eqb_neq in Hp as ->. intros H.
  repeat match goal with H : mild (_ ++ _) |- _ => apply mild_split in H as [? H] end.
  repeat match goal with H : mild (check_agent _ _ ?s _ _ _) |- _ =>
    first [apply mild_check in H; [|done] | clear H] end.
  split; try done. by apply String.eqb_eq.
Qed.
Lemma findings_mild st : mild (security_findings st) →
  sound_host st ∧ Forall (sound_agent (ss_profile st)) (ss_agents st).
Proof.
  unfold security_findings. rewrite mild_app. intros [Hh Ha]. apply host_findings_mild in Hh. split; [done|].
  eapply Forall_impl; [by apply mild_concat|]. intros a Hm. apply agent_findings_mild; [apply Hh|done].
Qed.

(** ** The script's evidence *)

(** Later in the same run: the scripts were consumed, programs were started. *)
Record follows (c c' : cli) : Prop := {
  fo_inspections : c_inspections c' `suffix_of` c_inspections c;
  fo_probes : c_probes c' `suffix_of` c_probes c;
  fo_ran : c_ran c `prefix_of` c_ran c';
  fo_sent : c_sent c `prefix_of` c_sent c';
  fo_printed : c_printed c' = c_printed c;
}.
#[export] Instance follows_refl : Reflexive follows.
Proof. by split. Qed.
#[export] Instance follows_trans : Transitive follows.
Proof. intros a b c [] []. split; [by etrans..|congruence]. Qed.
Definition traced {A} (m : Cli A) (Q : cli → cli → A → Prop) : Prop :=
  ∀ c, wp m (λ a c', follows c c' ∧ Q c c' a) (λ _ _, True) c.
Lemma traced_bind {A B} (m : Cli A) (k : A → Cli B) Q R :
  traced m Q → (∀ a, traced (k a) (R a)) →
  traced (m ≫= k) (λ c c' b, ∃ a c1, follows c c1 ∧ follows c1 c' ∧ Q c c1 a ∧ R a c1 c' b).
Proof.
  intros Hm Hk c. apply wp_bind. eapply wp_mono; [apply Hm| |done]. intros a c1 [F1 HQ].
  eapply wp_mono; [apply Hk| |done]. intros b c2 [F2 HR]. split; [by etrans|]. by exists a, c1.
Qed.
Lemma traced_weaken {A} (m : Cli A) Q R : traced m Q → (∀ c c' a, Q c c' a → R c c' a) → traced m R.
Proof. intros Hm H c. eapply wp_mono; [apply Hm|naive_solver|done]. Qed.
Lemma traced_ret {A} (a : A) : traced (mret a) (λ _ _ b, b = a).
Proof. intros c. by apply wp_ret. Qed.
Lemma traced_output argv : traced (output argv) (λ _ _ _, True).
Proof.
  unfold output. intros c. apply wp_bind, run_wp. unfold command_output. destruct (c_outcomes c) as [|r rest].
  - apply wp_ret. split; [|done]. split; simpl; try done. by eexists.
  - apply wp_ret. split; [|done]. split; simpl; try done. by eexists.
Qed.
Lemma traced_timeout program args t :
  traced (output_with_timeout (program :: args) t) (λ c c' r, (program :: args) ∈ c_ran c' ∧
    ∀ o, r = Ok o → ∃ n, n ∈ c_inspections c ∧ fst (inspect program t n) = Ok o).
Proof.
  intros c. unfold output_with_timeout. apply run_wp. destruct (c_inspections c) as [|n rest] eqn:E; simpl.
  - split; [split; simpl; try done; by eexists|]. split; [set_solver|done].
  - split; [split; simpl; rewrite ?E; try done; [by eexists [n]|by eexists]|].
    split; [set_solver|]. intros o Ho. exists n. split; [set_solver|done].
Qed.

Section doctor.
Context `{SerdeJson} `{Display}.

(** What an inspection of the script printed, as JSON. *)
Definition inspected (c : cli) (v : value) : Prop :=
  ∃ n o, n ∈ c_inspections c ∧ fst (inspect "sudo" LIVE_INSPECTION_TIMEOUT n) = Ok o ∧ o_success o = true
    ∧ from_slice (o_stdout o) = Some v.
Definition network_seen (c c' : cli) (network : string) : Prop :=
  "sudo"%string :: network_inspect_arguments "docker" network ∈ c_ran c' ∧
  ∃ m, inspected c (Array [Object m]) ∧ obj_get "Name" m = Some (Str network)
    ∧ obj_get "Internal" m = Some (Bool true) ∧ obj_get "Driver" m = Some (Str "bridge").
(** The agent's container was inspected, and is the declared capsule. *)
Definition capsule_seen (config : Config) (c c' : cli) (a : SecurityAgent) : Prop :=
  cf_backend config = "docker"%string ∧ "sudo"%string :: inspect_arguments_for_agent "docker" a ∈ c_ran c' ∧
  ∃ container network mounts tmpfs resources declared,
    inspected c (Array [Object container]) ∧ expected_network a = Some network ∧
    sa_declared_ports_absent a = Some true ∧ sa_declared_mounts a = Some mounts ∧ sa_declared_tmpfs a = Some tmpfs ∧
    sa_declared_live_resources a = Some resources ∧ sa_declared_runtime a = Some declared ∧
    capsule container network mounts tmpfs resources (rt_name declared) ∧
    (sa_brokered_egress a = true → network_seen c c' network).

Lemma succeeded_inv r o : succeeded r = Some o → r = Ok o ∧ o_success o = true.
Proof. destruct r as [x|]; simpl; [|done]. destruct (o_success x) eqn:E; naive_solver. Qed.
Lemma expected_text_secure v s : expected_text v s = Secure → v = Some (Str s).
Proof.
  unfold expected_text. destruct (v ≫= as_str) as [t|] eqn:E; [|done].
  rewrite secure_if_secure, String.eqb_eq. intros ->. by apply as_str_Some.
Qed.
Lemma broker_network_secure v network : live_broker_network_security v "docker" network = Secure →
  ∃ m, v = Array [Object m] ∧ obj_get "Name" m = Some (Str network)
    ∧ obj_get "Internal" m = Some (Bool true) ∧ obj_get "Driver" m = Some (Str "bridge").
Proof.
  unfold live_broker_network_security. destruct v as [| | | |[|[| | | | |m] [|y l]]|]; try done.
  cbn [length Nat.ltb Nat.leb head mbind option_bind as_object network_keys String.eqb Ascii.eqb Bool.eqb].
  rewrite merge_all_secure, !Forall_cons. intros (Hn%expected_text_secure & Hi%expected_bool_secure & Hd%expected_text_secure & _).
  by exists m.
Qed.
(** What [Some Secure] is evidence of. *)
Lemma traced_network backend network :
  traced (network_state backend (Some network))
    (λ c c' st, st = Secure → backend = "docker"%string → network_seen c c' network).
Proof.
  unfold network_state. eapply traced_weaken; [eapply traced_bind; [apply traced_timeout|intros r; apply traced_ret]|].
  intros c c' st (r & c1 & F1 & F2 & (Hran & Hr) & ->). destruct (succeeded r) as [o|] eqn:Es; [|done].
  apply succeeded_inv in Es as [-> Ho]. destruct (from_slice (o_stdout o)) as [v|] eqn:Ev; [|done].
  intros Hst ->. apply broker_network_secure in Hst as (m & -> & ?). split; [destruct (fo_ran _ _ F2) as [x ->]; set_solver|].
  exists m. split; [|done]. destruct (Hr o eq_refl) as (n & Hn & Hi). by exists n, o.
Qed.
Lemma inspected_earlier c c1 v : follows c c1 → inspected c1 v → inspected c v.
Proof.
  intros F (n & o & Hn & Hr). exists n, o. split; [|done]. destruct (fo_inspections _ _ F) as [x ->]. set_solver.
Qed.
Lemma network_later c c1 c2 network : network_seen c c1 network → follows c1 c2 → network_seen c c2 network.
Proof. intros [Hr Hm] F. split; [|done]. destruct (fo_ran _ _ F) as [x ->]. set_solver. Qed.
Lemma network_earlier c c1 c2 network : follows c c1 → network_seen c1 c2 network → network_seen c c2 network.
Proof.
  intros F [Hr (m & Hi & Hm)]. split; [done|]. exists m. split; [|done]. by eapply inspected_earlier.
Qed.
Lemma from_manifest_secure a v backend network :
  live_container_security_from_manifest a v backend network = Secure →
  backend = "docker"%string ∧ ∃ container net mounts tmpfs resources declared,
    v = Some (Array [Object container]) ∧ network = Some net ∧ sa_declared_ports_absent a = Some true ∧
    sa_declared_mounts a = Some mounts ∧ sa_declared_tmpfs a = Some tmpfs ∧
    sa_declared_live_resources a = Some resources ∧ sa_declared_runtime a = Some declared ∧
    capsule container net mounts tmpfs resources (rt_name declared).
Proof.
  unfold live_container_security_from_manifest.
  destruct (sa_declared_ports_absent a) as [[]|], (sa_declared_mounts a) as [mounts|], (sa_declared_tmpfs a) as [tmpfs|],
    (sa_declared_live_resources a) as [resources|], v as [v|], network as [net|]; try done.
  intros Hs. destruct (container_secure _ _ _ _ _ _ _ Hs) as (-> & container & declared & -> & -> & Hc).
  split; [done|]. by exists container, net, mounts, tmpfs, resources, declared.
Qed.
Lemma traced_observe config a :
  traced (observe_agent config a) (λ c c' st, st = Some Secure → capsule_seen config c c' a).
Proof.
  unfold observe_agent.
  eapply traced_weaken; [eapply traced_bind; [apply traced_timeout|intros r]|].
  - instantiate (1 := λ r c c' st, st = Some Secure → ∃ o, succeeded r = Some o ∧
      let live := live_container_security_from_manifest a (from_slice (o_stdout o)) (cf_backend config) (expected_network a) in
      live = Secure ∧ (sa_brokered_egress a = true → cf_backend config = "docker"%string →
        ∀ network, sa_broker_network a = Some network → network_seen c c' network)). simpl.
    destruct (succeeded r) as [o|]; [|by eapply traced_weaken; [apply traced_ret|naive_solver]]. cbv zeta.
    set (live := live_container_security_from_manifest _ _ _ _).
    destruct (negb (bool_decide (live = Unsafe)) && sa_brokered_egress a) eqn:E.
    + apply andb_true_iff in E as [_ Hb]. destruct (sa_broker_network a) as [network|] eqn:En.
      * eapply traced_weaken; [eapply traced_bind; [apply traced_network|intros st; apply traced_ret]|].
        intros c c' st (nst & c1 & F1 & F2 & Hn & ->) [= [Hl ->]%merge_secure]. exists o. split; [done|]. split; [done|].
        intros _ Hd network' [= <-]. eapply network_later; [|exact F2]. by apply Hn.
      * eapply traced_weaken; [eapply traced_bind; [apply traced_ret|intros st; apply traced_ret]|].
        intros c c' st (nst & c1 & F1 & F2 & -> & ->) [= [_ ?]%merge_secure]. done.
    + eapply traced_weaken; [apply traced_ret|]. intros c c' st -> [= Hl]. exists o. split_and!; [done|done|].
      intros Hb. rewrite Hb, andb_true_r, negb_false_iff, bool_decide_eq_true in E. congruence.
  - simpl. intros c c' st (r & c1 & F1 & F2 & (Hran & Hr) & Hst) ->. destruct (Hst eq_refl) as (o & Ho & Hl & Hn).
    apply succeeded_inv in Ho as [-> Hsucc]. destruct (Hr o eq_refl) as (n & Hn1 & Hn2).
    apply from_manifest_secure in Hl as (Hb & container & net & mounts & tmpfs & resources & declared & Hv & Hnet & Hl).
    split; [done|]. split; [rewrite <-Hb; destruct (fo_ran _ _ F2) as [x ->]; set_solver|].
    exists container, net, mounts, tmpfs, resources, declared. split; [by exists n, o|]. split; [done|].
    destruct Hl as (?&?&?&?&?&?). split_and!; try done. intros Hbr.
    apply (network_earlier c c1); [done|]. apply Hn; [done|done|]. by rewrite <-Hnet; unfold expected_network; rewrite Hbr.
Qed.

(** ** The agents *)

(** [f x] ran at some point and returned [y]. *)
Definition performed {A B} (f : A → Cli B) (c c' : cli) (x : A) (y : B) : Prop :=
  ∃ c1 c2, follows c c1 ∧ f x c1 = (Ok y, c2) ∧ follows c2 c'.
Lemma traced_run {A} (m : Cli A) Q c a c' : traced m Q → m c = (Ok a, c') → follows c c' ∧ Q c c' a.
Proof. intros Hm E. specialize (Hm c). unfold wp in Hm. by rewrite E in Hm. Qed.
Lemma traced_run_bind {A B} (m : Cli A) (k : A → Cli B) Q c b c' :
  traced m Q → (m ≫= k) c = (Ok b, c') → ∃ a c1, follows c c1 ∧ Q c c1 a ∧ k a c1 = (Ok b, c').
Proof.
  intros Hm E. unfold mbind, M_bind in E. destruct (m c) as [[a|e] c1] eqn:Em; [|done].
  destruct (traced_run _ _ _ _ _ Hm Em). by exists a, c1.
Qed.
Lemma traced_exact {A} (m : Cli A) Q : traced m Q → traced m (λ c c' a, m c = (Ok a, c')).
Proof.
  intros Hm c. specialize (Hm c). unfold wp in *. destruct (m c) as [[a|e] c'] eqn:E; [|done].
  destruct Hm. by split.
Qed.
Lemma performed_wider {A B} (f : A → Cli B) c0 c c' c3 x y :
  follows c0 c → follows c' c3 → performed f c c' x y → performed f c0 c3 x y.
Proof. intros F F' (c1 & c2 & ? & ? & ?). exists c1, c2. split_and!; [by etrans|done|by etrans]. Qed.
Lemma traced_for_each {A B} (f : A → Cli B) Q l :
  (∀ x, traced (f x) (Q x)) → traced (for_each f l) (λ c c' ys, Forall2 (performed f c c') l ys).
Proof.
  intros Hf. induction l as [|x l IH]; simpl; [eapply traced_weaken; [apply traced_ret|intros c c' ys ->; constructor]|].
  eapply traced_weaken.
  { eapply traced_bind; [eapply traced_exact, Hf|intros y]. eapply traced_bind; [exact IH|intros ys]. apply traced_ret. }
  intros c c' zs (y & c1 & F1 & F2 & Hy & ys & c2 & F3 & F4 & Hys & ->). constructor.
  - exists c, c1. by split_and!.
  - eapply Forall2_impl; [exact Hys|]. intros a b. by apply performed_wider.
Qed.
Lemma traced_probe e : traced (probe_broker_health e) (λ _ _ _, True).
Proof.
  intros c. unfold probe_broker_health. apply run_wp. destruct (c_probes c) as [|p rest] eqn:E; [done|].
  destruct (negb _ || negb _); [|destruct (negb (pb_writes p))]; (split; [|done]);
    split; simpl; rewrite ?E; try done; try (by eexists [p]); by eexists.
Qed.

(** A batch is what probing one endpoint after the other returns. *)
Lemma concat_chunks {A} n (l : list A) : ∀ fuel, (0 < n)%nat → (length l ≤ fuel)%nat → concat (chunks fuel n l) = l.
Proof.
  intros fuel Hn. revert l. induction fuel as [|fuel IH]; intros [|x l]; simpl; try done; [lia|]. intros Hl.
  destruct n as [|n]; [lia|]. simpl. rewrite IH by (rewrite length_drop; lia). by rewrite take_drop.
Qed.
Lemma Forall2_concat_lists {A B} (R : A → B → Prop) ls ks :
  Forall2 (Forall2 R) ls ks → Forall2 R (concat ls) (concat ks).
Proof. induction 1; simpl; [constructor|]. by apply Forall2_app. Qed.
Lemma performed_each {A B} (f : A → Cli B) Q c c' l ys :
  (∀ x, traced (f x) (Q x)) → performed (for_each f) c c' l ys → Forall2 (performed f c c') l ys.
Proof.
  intros Hf (c1 & c2 & F1 & E & F2). destruct (traced_run _ _ _ _ _ (traced_for_each f Q l Hf) E) as [_ HQ].
  eapply Forall2_impl; [exact HQ|]. intros a b. by apply performed_wider.
Qed.
Lemma traced_probes endpoints :
  traced (probe_broker_health_bounded endpoints)
    (λ c c' health, Forall2 (performed probe_broker_health c c') endpoints health).
Proof.
  unfold probe_broker_health_bounded. eapply traced_weaken.
  { eapply traced_bind; [|intros; apply traced_ret].
    apply (traced_for_each (for_each probe_broker_health) (λ _ _ _ _, True)).
    intros batch. eapply traced_weaken; [apply (traced_for_each _ _ _ traced_probe)|done]. }
  intros c c' health (batches & c1 & F1 & F2 & Hb & ->).
  rewrite <-(concat_chunks MAX_PARALLEL_BROKER_HEALTH_PROBES endpoints (length endpoints)) at 1 by (unfold MAX_PARALLEL_BROKER_HEALTH_PROBES; lia).
  apply Forall2_concat_lists. eapply Forall2_impl; [exact Hb|]. intros batch ys Hp.
  eapply Forall2_impl; [exact (performed_each _ (λ _ _ _ _, True) c c1 batch ys traced_probe Hp)|]. intros e h. by apply performed_wider.
Qed.

Lemma health_findings_inv a n : ∀ health fs rest, health_findings a n health = (fs, rest) →
  rest = drop n health ∧ (mild fs → Forall (λ h, h ≠ Unhealthy) (take n health))
  ∧ (fs = [] → Forall (λ h, h = Ready) (take n health)).
Proof.
  induction n as [|n IH]; intros health fs rest; simpl.
  { intros [= <- <-]. by rewrite drop_0. }
  destruct (health_findings a n (drop 1 health)) as [fs' rest'] eqn:E. intros [= <- <-].
  destruct (IH _ _ _ E) as (-> & Hm & Hg). destruct health as [|h health]; simpl in *.
  { split; [by rewrite drop_nil|]. done. }
  rewrite drop_0 in *. split; [done|]. rewrite mild_app. split.
  - intros [Hh Hf]. constructor; [by intros ->|by apply Hm].
  - intros [Hh Hf]%app_eq_nil. constructor; [by destruct h|by apply Hg].
Qed.
Lemma live_finding_mild a st : mild (live_finding a st) → st ≠ Some Unsafe.
Proof. by intros Hm ->. Qed.
Lemma live_finding_nil a st : live_finding a st = [] → st = Some Secure.
Proof. by destruct st as [[]|]. Qed.
Definition all_endpoints (agents : list SecurityAgent) : list SocketAddr := concat (endpoints_of <$> agents).
Lemma traced_live_agents config agents : ∀ health,
  traced (live_agents config agents health) (λ c c' fs, ∃ states,
    Forall2 (performed (observe_agent config) c c') agents states ∧
    (mild fs → Forall (λ s, s ≠ Some Unsafe) states
      ∧ Forall (λ h, h ≠ Unhealthy) (take (length (all_endpoints agents)) health)) ∧
    (fs = [] → Forall (λ s, s = Some Secure) states
      ∧ Forall (λ h, h = Ready) (take (length (all_endpoints agents)) health))).
Proof.
  induction agents as [|a agents IH]; intros health; cbn [live_agents].
  { eapply traced_weaken; [apply traced_ret|]. intros c c' fs ->. exists []. split_and!; [constructor|..]; intros _; by rewrite take_0. }
  destruct (health_findings a (length (endpoints_of a)) health) as [fs rest] eqn:Eh.
  destruct (health_findings_inv _ _ _ _ _ Eh) as (-> & Hm & Hg).
  eapply traced_weaken.
  { eapply traced_bind; [eapply traced_exact, traced_observe|intros st].
    eapply traced_bind; [apply IH|intros r]. apply traced_ret. }
  intros c c' all (st & c1 & F1 & F2 & Hst & r & c2 & F3 & F4 & (states & Hs & Hmild & Hnil) & ->).
  exists (st :: states). unfold all_endpoints in *. simpl. rewrite length_app, <-take_take_drop.
  split; [|split].
  - constructor; [exists c, c1; by split_and!|]. eapply Forall2_impl; [exact Hs|]. intros x y. by apply performed_wider.
  - rewrite !mild_app. intros (Hf & Hl & Hr). destruct (Hmild Hr) as [H1 H2].
    split; [constructor; [by eapply live_finding_mild|done]|]. apply Forall_app. auto.
  - intros [Hf [Hl Hr]%app_eq_nil]%app_eq_nil. destruct (Hnil Hr) as [H1 H2].
    split; [constructor; [by eapply live_finding_nil|done]|]. apply Forall_app. auto.
Qed.

(** ** The report *)

Lemma traced_disk : traced disk_findings (λ _ _ _, True).
Proof. eapply traced_weaken; [eapply traced_bind; [apply traced_output|intros; apply traced_ret]|done]. Qed.
Lemma traced_exposure st : traced (exposure_findings st) (λ _ _ _, True).
Proof.
  unfold exposure_findings. destruct (exposure_checked st); [|by eapply traced_weaken; [apply traced_ret|]].
  eapply traced_weaken; [eapply traced_bind; [apply traced_output|intros; apply traced_ret]|done].
Qed.
Lemma traced_gets {A} (f : cli → A) : traced (gets f) (λ _ _ _, True).
Proof. intros c. by apply wp_gets. Qed.
Lemma traced_backup st : traced (backup_findings st) (λ _ _ _, True).
Proof. eapply traced_weaken; [eapply traced_bind; [apply traced_gets|intros; apply traced_ret]|done]. Qed.

(** What was observed of the agents of [st] between [c] and [c']. *)
Definition judged (config : Config) (st : SecurityState) (c c' : cli) (live : list Finding)
    (health : list BrokerHealth) (states : list (option LiveContainerState)) : Prop :=
  Forall2 (performed probe_broker_health c c') (all_endpoints (ss_agents st)) health ∧
  Forall2 (performed (observe_agent config) c c') (ss_agents st) states ∧
  (mild live → Forall (λ h, h ≠ Unhealthy) health ∧ Forall (λ s, s ≠ Some Unsafe) states) ∧
  (live = [] → Forall (λ h, h = Ready) health ∧ Forall (λ s, s = Some Secure) states).
Lemma traced_live config st :
  ss_profile st ≠ "dev"%string →
  traced (security_live_findings config st) (λ c c' live, ∃ health states, judged config st c c' live health states).
Proof.
  intros Hp. unfold security_live_findings. apply String.eqb_neq in Hp as ->.
  eapply traced_weaken.
  { eapply traced_bind; [apply traced_disk|intros d]. eapply traced_bind; [apply traced_exposure|intros e].
    eapply traced_bind; [apply traced_backup|intros b]. eapply traced_bind; [apply traced_probes|intros h].
    eapply traced_bind; [apply traced_live_agents|intros fs]. apply traced_ret. }
  intros c c' live (d & c1 & F1 & F1' & _ & e & c2 & F2 & F2' & _ & b & c3 & F3 & F3' & _
    & health & c4 & F4 & F4' & Hh & fs & c5 & F5 & F5' & (states & Hs & Hmild & Hnil) & ->).
  exists health, states. fold (all_endpoints (ss_agents st)) in Hh.
  assert (take (length (all_endpoints (ss_agents st))) health = health) as Et.
  { apply take_ge. apply Forall2_length in Hh. lia. }
  rewrite Et in *. split_and!.
  - eapply Forall2_impl; [exact Hh|]. intros x y. apply performed_wider; [|done]. etrans; [exact F1|]. by etrans.
  - eapply Forall2_impl; [exact Hs|]. intros x y. apply performed_wider; [|done].
    etrans; [exact F1|]. etrans; [exact F2|]. by etrans.
  - rewrite !mild_app. intros (_ & _ & _ & Hf). by destruct (Hmild Hf).
  - intros (_ & (_ & (_ & Hf)%app_eq_nil)%app_eq_nil)%app_eq_nil. by destruct (Hnil Hf).
Qed.

(** A step that prints [n] pieces and does nothing else. *)
Definition says (m : Cli unit) (n : nat) : Prop :=
  ∀ c, ∃ out, m c = (Ok tt, set_printed (λ l, l ++ out) c) ∧ length out = n.
Lemma set_printed_app c a b :
  set_printed (λ l, l ++ b) (set_printed (λ l, l ++ a) c) = set_printed (λ l, l ++ (a ++ b)) c.
Proof. unfold set_printed. simpl. by rewrite app_assoc. Qed.
Lemma says_ret : says (mret tt) 0.
Proof. intros c. exists []. split; [|done]. destruct c. unfold set_printed. simpl. by rewrite app_nil_r. Qed.
Lemma says_print s : says (print s) 1.
Proof. intros c. by exists [Out s]. Qed.
Lemma says_bind m k a b : says m a → says k b → says (m ≫= λ _, k) (a + b).
Proof.
  intros Hm Hk c. destruct (Hm c) as (o1 & E1 & <-). destruct (Hk (set_printed (λ l, l ++ o1) c)) as (o2 & E2 & <-).
  exists (o1 ++ o2). rewrite length_app. split; [|done]. unfold mbind, M_bind. by rewrite E1, E2, set_printed_app.
Qed.
Lemma says_show mode fs : says (show_findings mode fs) (2 * length fs).
Proof.
  induction fs as [|f fs IH]; [apply says_ret|]. cbn [show_findings length]. cbv zeta.
  replace (2 * S (length fs))%nat with (1 + (1 + 2 * length fs))%nat by lia.
  apply says_bind; [apply says_print|]. by apply says_bind; [apply says_print|].
Qed.
Lemma says_json mode fs : ∀ first, ∃ n, says (print_findings mode first fs) n.
Proof.
  induction fs as [|f fs IH]; intros first; cbn [print_findings]; [exists O; apply says_ret|]. cbv zeta.
  destruct (IH false) as (n & Hn). exists ((if first then 0 else 1) + (1 + n))%nat.
  apply says_bind; [destruct first; [apply says_ret|apply says_print]|]. by apply says_bind; [apply says_print|].
Qed.

Lemma traced_lift {A} (r : result fault A) : traced (lift r) (λ _ _ a, r = Ok a).
Proof. intros c. apply wp_lift; [intros a E; by split|done]. Qed.
Lemma traced_throw_if b e : traced (throw_if b e) (λ _ _ _, b = false).
Proof. intros c. apply wp_throw_if; [done|]. intros E. by split. Qed.
(** The text of a file, through symbolic links. *)
Definition text_file (c : cli) (p text : string) : Prop :=
  ∃ x, follow 40 (c_world c) (resolve (e_cwd (c_env c)) p) = Ok x ∧ from_utf8 (i_data x) = Some text.
Lemma traced_read p : traced (read_to_string p) (λ c _ text, text_file c p text).
Proof.
  intros c. unfold read_to_string, cwd. apply wp_bind, wp_gets, wp_bind. apply wp_zoom, wp_map_err.
  apply wp_simple; [done|]. intros l. apply run_wp. rewrite follow_faults.
  destruct (follow 40 (c_world c) _) as [x|e] eqn:E; [|done]. destruct (i_kind x); try done.
  apply wp_lift; [|done]. intros text Ht%ok_or_Ok. split; [by split|]. by exists x.
Qed.

(** Nothing declared or observed is of critical or high severity. *)
Definition cleared (config : Config) (st : SecurityState) (c c' : cli) : Prop :=
  sound_host st ∧ Forall (sound_agent (ss_profile st)) (ss_agents st) ∧ ∃ health states,
    Forall2 (performed probe_broker_health c c') (all_endpoints (ss_agents st)) health ∧
    Forall2 (performed (observe_agent config) c c') (ss_agents st) states ∧
    Forall (λ h, h ≠ Unhealthy) health ∧ Forall (λ s, s ≠ Some Unsafe) states.
(** The broker was asked, and some reply was its readiness. *)
Definition broker_ready (c c' : cli) (e : SocketAddr) : Prop :=
  (e, health_request e) ∈ c_sent c' ∧
  ∃ p b, p ∈ c_probes c ∧ pb_response p = Some b ∧ health_of (take_bytes 8193 b) = Ready.
Definition GREEN : string := "  ✓ no security findings" ++ newline.
Definition report_header (st : SecurityState) : string := "Tentaflake security doctor — " ++ ss_profile st ++ newline.
Lemma traced_ready e :
  traced (probe_broker_health e) (λ c c' h, h = Ready → broker_ready c c' e).
Proof.
  intros c. pose proof (traced_probe e c) as Hf. unfold wp in *.
  destruct (probe_broker_health e c) as [[h|x] c'] eqn:E; [|done]. destruct Hf as [F _]. split; [done|]. intros ->.
  unfold probe_broker_health in E. destruct (c_probes c) as [|p rest] eqn:Ep; [done|].
  destruct (negb _ || negb _); [done|]. destruct (negb (pb_writes p)); [done|].
  destruct (pb_response p) as [b|] eqn:Eb; [|done]. injection E as E <-. split; [simpl; set_solver|].
  exists p, b. split; [rewrite Ep; set_solver|done].
Qed.
Lemma performed_ready c c' e : performed probe_broker_health c c' e Ready → broker_ready c c' e.
Proof.
  intros (c1 & c2 & F1 & E & F2). destruct (traced_run _ _ _ _ _ (traced_ready e) E) as [_ Hr].
  destruct (Hr eq_refl) as (Hs & p & b & Hp & Hb). split; [destruct (fo_sent _ _ F2) as [x ->]; set_solver|].
  exists p, b. split; [|done]. destruct (fo_probes _ _ F1) as [x ->]. set_solver.
Qed.
Lemma capsule_wider config a c0 c c' c3 :
  follows c0 c → follows c' c3 → capsule_seen config c c' a → capsule_seen config c0 c3 a.
Proof.
  intros F F' (Hb & Hr & container & net & mounts & tmpfs & resources & declared & Hi & Hrest).
  split; [done|]. split; [destruct (fo_ran _ _ F') as [x ->]; set_solver|].
  exists container, net, mounts, tmpfs, resources, declared. split; [by eapply inspected_earlier|].
  destruct Hrest as (?&?&?&?&?&?&?&Hn). split_and!; try done. intros Hbr.
  eapply network_earlier; [done|]. eapply network_later; [by apply Hn|done].
Qed.
Lemma performed_secure config c c' a :
  performed (observe_agent config) c c' a (Some Secure) → capsule_seen config c c' a.
Proof.
  intros (c1 & c2 & F1 & E & F2). destruct (traced_run _ _ _ _ _ (traced_observe config a) E) as [_ Hr].
  eapply capsule_wider; [done|done|]. by apply Hr.
Qed.
Lemma Forall2_all_r {A B} (R : A → B → Prop) (b : B) l ys :
  Forall2 R l ys → Forall (λ y, y = b) ys → Forall (λ x, R x b) l.
Proof. induction 1; intros Hall; [constructor|]. apply Forall_cons in Hall as [-> ?]. constructor; auto. Qed.

(** The report that follows the findings. *)
Definition doctor_report (mode : OutputMode) (st : SecurityState) (findings : list Finding) : Cli unit :=
  if m_json mode then
    _ ← print (quoted "{'profile':'" ++ json_escape (ss_profile st) ++ quoted "','findings':[");
    _ ← print_findings mode true findings;
    println "]}"
  else
    _ ← println ("Tentaflake security doctor — " ++ ss_profile st);
    _ ← (if bool_decide (findings = []) then println "  ✓ no security findings" else mret tt);
    show_findings mode findings.
Lemma doctor_report_says mode st findings c : ∃ out,
  doctor_report mode st findings c = (Ok tt, set_printed (λ l, l ++ out) c)
  ∧ (m_json mode = false → length out = 2%nat → findings = []).
Proof.
  unfold doctor_report. destruct (m_json mode).
  - destruct (says_json mode findings true) as (n & Hn).
    destruct (says_bind _ _ _ _ (says_print (quoted "{'profile':'" ++ json_escape (ss_profile st) ++ quoted "','findings':["))
      (says_bind _ _ _ _ Hn (says_print ("]}" ++ newline)%string)) c) as (out & E & _). by exists out.
  - destruct (bool_decide (findings = [])) eqn:B.
    + apply bool_decide_eq_true in B.
      destruct (says_bind _ _ _ _ (says_print (("Tentaflake security doctor — " ++ ss_profile st) ++ newline)%string)
        (says_bind _ _ _ _ (says_print ("  ✓ no security findings" ++ newline)%string) (says_show mode findings)) c) as (out & E & _).
      by exists out.
    + apply bool_decide_eq_false in B.
      destruct (says_bind _ _ _ _ (says_print (("Tentaflake security doctor — " ++ ss_profile st) ++ newline)%string)
        (says_bind _ _ _ _ says_ret (says_show mode findings)) c) as (out & E & Hl).
      exists out. split; [done|]. intros _ H2. rewrite Hl in H2. destruct findings; [done|]. simpl in H2. lia.
Qed.

Lemma traced_live_any config st :
  traced (security_live_findings config st) (λ c c' live,
    ss_profile st ≠ "dev"%string → ∃ health states, judged config st c c' live health states).
Proof.
  destruct (decide (ss_profile st = "dev"%string)) as [E|Hne]; [|by eapply traced_weaken; [by apply traced_live|]].
  unfold security_live_findings. rewrite E. eapply traced_weaken; [apply traced_ret|]. intros c c' live _. congruence.
Qed.
Lemma judged_wider config st c0 c c' live health states :
  follows c0 c → judged config st c c' live health states → judged config st c0 c' live health states.
Proof.
  intros F (Hh & Hs & ? & ?). split_and!; try done.
  - eapply Forall2_impl; [exact Hh|]. intros x y. by apply performed_wider.
  - eapply Forall2_impl; [exact Hs|]. intros x y. by apply performed_wider.
Qed.
(** No finding of weight, or none at all. *)
Lemma mild_cleared config st c c' live health states :
  mild (security_findings st ++ live) → judged config st c c' live health states → cleared config st c c'.
Proof.
  intros [Hd Hl]%mild_app (Hh & Hs & Hm & _). destruct (findings_mild _ Hd) as [Hhost Ha]. destruct (Hm Hl) as [H1 H2].
  split; [done|]. split; [done|]. by exists health, states.
Qed.

End doctor.

(** ** Bounded inspections *)

(** Bytes captured and bytes left always add up. *)
Lemma read_stream_bounded n : ∀ reads captured remaining eof out left,
  0 ≤ remaining → read_inspection_stream n reads captured remaining = Ok (eof, out, left) →
  0 ≤ left ∧ blen out + left = blen captured + remaining.
Proof.
  induction n as [|n IH]; intros reads captured remaining eof out left Hr; simpl.
  { intros [= _ <- <-]. lia. }
  destruct reads as [|[b| | |e] reads]; [intros [= _ <- <-]; lia| |intros [= _ <- <-]; lia| |done].
  - destruct (length b =? 0)%nat; [intros [= _ <- <-]; lia|]. destruct (Z.ltb_spec remaining (blen b)); [done|].
    intros Hread. apply IH in Hread as [? ?]; [|lia]. split; [done|]. unfold blen in *. rewrite length_app in *. lia.
  - intros Hread. by apply IH in Hread.
Qed.
Lemma read_unless_bounded seen reads captured remaining eof out left :
  0 ≤ remaining → read_unless seen reads captured remaining = Ok (eof, out, left) →
  0 ≤ left ∧ blen out + left = blen captured + remaining.
Proof. unfold read_unless. destruct seen; [intros Hr [= _ <- <-]; lia|apply read_stream_bounded]. Qed.
Lemma named_Ok what program r x : named what program r = Ok x → r = Ok x.
Proof. destruct r; simpl; naive_solver. Qed.

(** The turns before the deadline that ended with this outcome. *)
Definition finished_in_time (deadline : Z) (turns : list turn) (o : outcome) : Prop :=
  ∃ used t rest, turns = used ++ t :: rest ∧ Forall (λ t, t_now t < deadline) (used ++ [t])
    ∧ t_wait t = Ok (Some (o_code o)).
Lemma finished_later deadline t turns o :
  t_now t < deadline → finished_in_time deadline turns o → finished_in_time deadline (t :: turns) o.
Proof.
  intros Ht (used & t' & rest & -> & Hall & Hw). exists (t :: used), t', rest. split_and!; try done. by constructor.
Qed.
Lemma inspect_loop_bounded program deadline timeout turns : ∀ out err out_eof err_eof remaining o,
  0 ≤ remaining → inspect_loop program deadline timeout turns out err out_eof err_eof remaining = Ok o →
  blen (o_stdout o) + blen (o_stderr o) ≤ blen out + blen err + remaining ∧ finished_in_time deadline turns o.
Proof.
  induction turns as [|t turns IH]; intros out err out_eof err_eof remaining o Hr; cbn [inspect_loop]; [done|].
  destruct (Z.leb_spec deadline (t_now t)) as [|Hlt]; [done|]. intros Hok.
  apply result_bind_Ok in Hok as ([[oe out'] r1] & H1%named_Ok & Hok).
  apply read_unless_bounded in H1 as [Hr1 E1]; [|done].
  apply result_bind_Ok in Hok as ([[ee err'] r2] & H2%named_Ok & Hok).
  apply read_unless_bounded in H2 as [Hr2 E2]; [|done].
  assert (inspect_loop program deadline timeout turns out' err' oe ee r2 = Ok o →
    blen (o_stdout o) + blen (o_stderr o) ≤ blen out + blen err + remaining ∧ finished_in_time deadline (t :: turns) o) as Hnext.
  { intros Hl. apply IH in Hl as [? ?]; [|done]. split; [lia|by apply finished_later]. }
  destruct (t_wait t) as [[code|]|e] eqn:Ew; [|by apply Hnext|done].
  destruct (oe && ee); [|by apply Hnext]. injection Hok as <-. split; [simpl; lia|].
  exists [], t, turns. split_and!; [done|by repeat constructor|done].
Qed.

(** C39. A bounded inspection, for any script of its streams, clock and child:
    it succeeds only in a turn before the deadline in which the child had exited,
    with at most 8 MiB of output over both streams; and it fails, once a child was
    started, only after killing and reaping it. *)
Theorem inspection_is_bounded program timeout n :
  match inspect program timeout n with
  | (Ok o, killed) =>
      killed = false ∧ blen (o_stdout o) + blen (o_stderr o) ≤ MAX_LIVE_INSPECTION_OUTPUT_BYTES
      ∧ finished_in_time (n_start n + timeout) (n_turns n) o
  | (Err _, killed) => killed = is_ok (n_pipes n) && is_ok (n_spawn n)
  end.
Proof.
  unfold inspect. destruct (n_pipes n) as [u|e], (n_spawn n) as [v|e']; try done.
  destruct (inspect_loop _ _ _ _ _ _ _ _ _) as [o|x] eqn:E; [|done].
  apply inspect_loop_bounded in E as [Hb Hf]; [|by vm_compute]. by split_and!.
Qed.
