(* ===== verification/CliSafety.v ===== *)
(** * The command line never panics, and acts on the agents it was asked for *)

From S2P Require Import Prelude RustStr Json Posix Budget PrivateStore Policy Activity ControlData CliHost Descriptor Desired DesiredFacts DesiredSpec DesiredRun Manifest Live CliCommands Onboarding OnboardingRun Cli.

Definition any {A} (_ : A) : Prop := True.
Create HintDb calm.
Section outcomes.
(** The admitted ways to stop; a message always is. *)
Variable E : fault → Prop.
Hypothesis E_fail : ∀ m, E (Fail m).
#[local] Hint Resolve E_fail : core.
(** A step that stops in an admitted way, with what holds of its result. *)
Definition calm {A} (m : Cli A) (Q : A → Prop) : Prop := ∀ c, wp m (λ a _, Q a) (λ e _, E e) c.
Lemma calm_mono {A} (m : Cli A) (Q R : A → Prop) : calm m Q → (∀ a, Q a → R a) → calm m R.
Proof. intros Hm H c. eapply wp_mono; [apply Hm|naive_solver|done]. Qed.
Lemma calm_any {A} (m : Cli A) Q : calm m Q → calm m any.
Proof. intros Hm. by eapply calm_mono. Qed.
Lemma calm_bind {A B} (m : Cli A) (k : A → Cli B) Q R :
  calm m Q → (∀ a, Q a → calm (k a) R) → calm (m ≫= k) R.
Proof. intros Hm Hk c. apply wp_bind. eapply wp_mono; [apply Hm| |done]. intros a c' HQ. by apply Hk. Qed.
Lemma calm_ret {A} (a : A) : calm (mret a) (λ x, x = a).
Proof. intros c. by apply wp_ret. Qed.
Lemma calm_ret_any {A} (a : A) : calm (mret a) any.
Proof. intros c. by apply wp_ret. Qed.
Lemma calm_fail {A} m (Q : A → Prop) : calm (fail (Fail m)) Q.
Proof. intros c. by apply wp_fail. Qed.
Lemma calm_lift {A} (r : result fault A) : polite r → calm (lift r) (λ a, r = Ok a).
Proof. intros Hp c. apply wp_lift; [done|]. intros e ->. by destruct e as [m| |argv]. Qed.
Lemma calm_throw_if b m : calm (throw_if b (Fail m)) (λ _, b = false).
Proof. intros c. by apply wp_throw_if. Qed.
Lemma calm_gets {A} (f : cli → A) : calm (gets f) any.
Proof. intros c. by apply wp_gets. Qed.
Lemma calm_modify f : calm (modify f) any.
Proof. intros c. by apply wp_modify. Qed.
Lemma calm_fs {A} message (m : Sys A) : calm (fs message m) any.
Proof. intros c. apply wp_zoom, wp_map_err. unfold wp. by destruct (m (c_world c)) as [[a|e] w]. Qed.
Lemma calm_attempt {A} (m : Sys A) : calm (in_world (attempt m)) any.
Proof. intros c. unfold in_world. apply wp_zoom, wp_attempt. unfold wp. by destruct (m (c_world c)) as [[a|e] w]. Qed.
Lemma calm_try {A} (m : Cli A) Q : calm m Q → calm (attempt m) (λ r, ∀ a, r = Ok a → Q a).
Proof.
  intros Hm c. apply wp_attempt. specialize (Hm c). unfold wp in *. destruct (m c) as [[a|e] c']; [|done].
  by intros ? [= <-].
Qed.
Lemma calm_command argv : calm (command_output argv) any.
Proof. intros c. unfold command_output. apply run_wp. by destruct (c_outcomes c). Qed.
Lemma calm_command_exec argv : E (Replaced argv) → calm (command_exec argv) any.
Proof. intros He c. unfold command_exec. apply run_wp. by destruct (c_exec c). Qed.
Lemma calm_line : calm read_line any.
Proof. intros c. unfold read_line. apply run_wp. by destruct (c_answers c). Qed.
Lemma calm_timeout argv t : calm (output_with_timeout argv t) any.
Proof. intros c. unfold output_with_timeout. apply run_wp. by destruct (c_inspections c). Qed.
Lemma calm_probe e : calm (probe_broker_health e) any.
Proof.
  intros c. unfold probe_broker_health. apply run_wp. destruct (c_probes c); [done|].
  destruct (_ || _); [done|]. by destruct (negb _).
Qed.
Lemma calm_if {A} (b : bool) (m n : Cli A) Q : calm m Q → calm n Q → calm (if b then m else n) Q.
Proof. by destruct b. Qed.
Lemma calm_for_each {A B} (f : A → Cli B) l : (∀ x, calm (f x) any) → calm (for_each f l) any.
Proof.
  intros Hf. induction l as [|x l IH]; simpl; [apply calm_ret_any|].
  eapply calm_bind; [apply Hf|intros y _]. eapply calm_bind; [exact IH|intros ys _]. apply calm_ret_any.
Qed.
Hint Resolve calm_ret_any calm_fail calm_gets calm_modify calm_fs calm_attempt calm_command
  calm_line calm_timeout calm_probe : calm.
(** Statement by statement; what needs thought is left. *)
Ltac calm_go :=
  cbv zeta beta;
  lazymatch goal with
  | |- calm (_ ≫= _) _ => eapply calm_bind; [calm_go|intros ? ?; calm_go]
  | |- calm (throw_if _ (Fail _)) any => eapply calm_any, calm_throw_if
  | |- calm (throw_if _ (Fail _)) _ => apply calm_throw_if
  | |- calm (lift _) any => try (eapply calm_any, calm_lift; solve [auto with defined])
  | |- calm (lift _) _ => try (apply calm_lift; solve [auto with defined])
  | |- calm (if ?b then _ else _) _ => destruct b eqn:?; calm_go
  | |- calm (mret _) any => apply calm_ret_any
  | |- calm (mret _) _ => first [apply calm_ret_any | apply calm_ret]
  | |- calm ?m ?Q => try first [solve [auto with calm] | solve [eapply calm_any; auto with calm]]
  end.

Context `{SerdeJson} `{Display} `{TomlEdit}.

Lemma calm_print s : calm (print s) any. Proof. apply calm_modify. Qed.
Lemma calm_println s : calm (println s) any. Proof. apply calm_modify. Qed.
Lemma calm_eprintln s : calm (eprintln s) any. Proof. apply calm_modify. Qed.
Hint Resolve calm_print calm_println calm_eprintln : calm.
Lemma polite_message {A} (r : result string A) : polite (message r).
Proof. by destruct r. Qed.
Hint Resolve polite_message : defined.
Lemma polite_result {A} e (r : result string A) :
  polite (match r with Ok a => Ok a | Err x => Err (Fail (e x)) end).
Proof. by destruct r. Qed.
Hint Resolve polite_result : defined.

(** ** Desired systems *)

Lemma parse_polite b : polite (parse b).
Proof.
  unfold parse. do 5 (polite_step; intros ? _). apply polite_bind; [apply validate_polite|]. done.
Qed.
Lemma normalize_polite v : polite (normalize v).
Proof.
  unfold normalize. apply polite_bind; [apply validate_polite|intros _ _]. polite_step; intros d _.
  apply polite_bind; [apply parse_polite|intros p _]. polite_step; done.
Qed.
Lemma migrate_polite tokens b json : polite (migrate tokens b json).
Proof.
  unfold migrate. apply polite_bind; [|intros; apply normalize_polite]. destruct json; [|apply parse_polite].
  polite_step; intros _ _. auto with defined.
Qed.
Hint Resolve parse_polite normalize_polite migrate_polite : defined.
Lemma calm_cwd : calm cwd any. Proof. apply calm_gets. Qed.
Hint Resolve calm_cwd : calm.
Lemma calm_at_path {A} message (call : string → Sys A) p : calm (at_path message call p) any.
Proof. unfold at_path. calm_go. Qed.
Hint Resolve calm_at_path : calm.
Lemma calm_read_file p : calm (read_file p) any.
Proof. unfold read_file, read_bounded. calm_go. Qed.
Lemma calm_absent p : calm (absent p) any.
Proof. unfold absent. calm_go. Qed.
Hint Resolve calm_read_file calm_absent : calm.
Lemma calm_names message d names : calm (refuse_names message d names) any.
Proof. induction names as [|n names IH]; simpl; [apply calm_ret_any|]. calm_go. Qed.
Lemma calm_legacy p : calm (refuse_legacy p) any.
Proof. apply calm_names. Qed.
Hint Resolve calm_names calm_legacy : calm.
Lemma calm_check action input mode : calm (run_check action input mode) any.
Proof. unfold run_check. calm_go. Qed.
Hint Resolve calm_check : calm.
Lemma calm_persist output text : calm (persist output text) any.
Proof.
  unfold persist. eapply calm_bind; [apply calm_cwd|intros dir _]. eapply calm_bind; [apply calm_at_path|intros f _].
  intros c. apply wp_zoom, wp_closing, wp_bind, wp_attempt. unfold wp at 1.
  destruct ((_ ← sys_write f (str_bytes text); sys_sync) (c_world c)) as [[[]|e] w]; [by apply wp_ret|].
  apply wp_bind, wp_attempt. unfold wp at 1. destruct (sys_remove _ w) as [[[]|e'] w']; by apply wp_fail.
Qed.
Hint Resolve calm_persist : calm.
Lemma calm_migrate tokens input output mode : calm (run_migrate tokens input output mode) any.
Proof. unfold run_migrate. calm_go. Qed.
Hint Resolve calm_migrate : calm.
Lemma calm_inner tokens args mode : calm (run_inner tokens args mode) any.
Proof.
  unfold run_inner. eapply calm_bind; [apply calm_throw_if|intros _ _].
  destruct args as [|action [|input [|out [|]]]]; calm_go.
Qed.
Lemma calm_config tokens args mode : calm (Desired.run tokens args mode) any.
Proof.
  intros c. pose proof (calm_inner tokens args mode c) as Hi. unfold Desired.run, wp in *.
  destruct (run_inner tokens args mode c) as [[a|[m| |argv]] c']; try done.
  destruct (m_json mode); [done|]. by destruct (opt_str_eq _ _).
Qed.

(** ** The other commands *)

Lemma calm_output argv : calm (output argv) any.
Proof. unfold output. calm_go. Qed.
Hint Resolve calm_output : calm.
Lemma calm_checked argv : calm (checked_output argv) any.
Proof. unfold checked_output. calm_go. Qed.
Lemma calm_exec argv (Q : Z → Prop) : E (Replaced argv) → calm (exec argv) Q.
Proof. intros He. unfold exec. eapply calm_bind; [by apply calm_command_exec|intros e _]. apply calm_fail. Qed.
Hint Resolve calm_checked : calm.
Lemma polite_slice {A} (x : A) l : polite (slice_from_1 (x :: l)).
Proof. done. Qed.
Hint Resolve polite_slice : defined.
Lemma slice_polite {A} (l : list A) x : head l = Some x → polite (slice_from_1 l).
Proof. by destruct l. Qed.
Lemma allowed_remote_polite actual l : polite (allowed_remote actual l).
Proof.
  induction l as [|a l IH]; [done|]. simpl. apply polite_bind; [apply polite_message|intros x _]. by destruct (_ =? _)%string.
Qed.
Lemma calm_remote args : calm (remote_check args) any.
Proof.
  unfold remote_check. eapply calm_bind; [apply calm_lift; auto with defined|]. intros remote Hr%ok_or_Ok.
  eapply calm_bind; [apply calm_throw_if|intros _ _]. eapply calm_bind; [apply calm_lift, polite_message|intros actual _].
  eapply calm_bind; [|intros allowed _; calm_go]. apply calm_lift. apply polite_bind; [by eapply slice_polite|].
  intros rest _. apply allowed_remote_polite.
Qed.
Lemma calm_presets l : calm (print_presets l) any.
Proof. induction l as [|[n p] l IH]; cbn [print_presets]; [apply calm_ret_any|]. unfold text_at. calm_go. Qed.
Hint Resolve calm_presets : calm.
Lemma calm_runtimes args mode : calm (runtimes args mode) any.
Proof. unfold runtimes. calm_go. Qed.
Lemma calm_unit_state u : calm (unit_state u) any.
Proof. unfold unit_state. calm_go. Qed.
Hint Resolve calm_unit_state : calm.
Lemma calm_rows agents : calm (agent_rows agents) any.
Proof. apply calm_for_each. intros a. calm_go. Qed.
Lemma calm_print_rows mode rows : ∀ i, calm (print_rows mode i rows) any.
Proof. induction rows as [|[a st] rows IH]; intros i; cbn [print_rows]; [apply calm_ret_any|]. calm_go. Qed.
Lemma calm_show_rows mode color rows : ∀ i, calm (show_rows mode color i rows) any.
Proof. induction rows as [|[a st] rows IH]; intros i; cbn [show_rows]; [apply calm_ret_any|]. calm_go. Qed.
Hint Resolve calm_rows calm_print_rows calm_show_rows : calm.
Lemma calm_status config agents mode : calm (status config agents mode) any.
Proof. unfold status. calm_go. Qed.
Lemma calm_finding ok text : calm (finding ok text) any.
Proof. apply calm_println. Qed.
Hint Resolve calm_finding : calm.
Lemma calm_states mode rows : ∀ i, calm (show_states mode i rows) any.
Proof. induction rows as [|[a st] rows IH]; intros i; cbn [show_states]; [apply calm_ret_any|]. calm_go. Qed.
Lemma calm_load : calm show_load any.
Proof.
  unfold show_load. eapply calm_bind; [apply calm_attempt|]. intros [b|e] _; [|apply calm_ret_any].
  destruct (from_utf8 b); calm_go.
Qed.
Hint Resolve calm_states calm_load : calm.
Lemma calm_diagnostics config agents mode command : calm (diagnostics config agents mode command) any.
Proof. unfold diagnostics. calm_go. Qed.
Lemma calm_read_text p : calm (read_to_string p) any.
Proof. unfold read_to_string. calm_go. Qed.
Hint Resolve calm_read_text : calm.
Lemma calm_disk : calm disk_findings any.
Proof. unfold disk_findings. calm_go. Qed.
Lemma calm_exposure st : calm (exposure_findings st) any.
Proof. unfold exposure_findings. calm_go. Qed.
Lemma calm_backup_age st : calm (backup_findings st) any.
Proof. unfold backup_findings. calm_go. Qed.
Lemma calm_probes l : calm (probe_broker_health_bounded l) any.
Proof.
  unfold probe_broker_health_bounded. eapply calm_bind; [|intros ? _; apply calm_ret_any].
  apply calm_for_each. intros batch. apply calm_for_each. intros e. apply calm_probe.
Qed.
Lemma calm_network backend network : calm (network_state backend network) any.
Proof. unfold network_state. destruct network; calm_go. Qed.
Hint Resolve calm_disk calm_exposure calm_backup_age calm_probes calm_network : calm.
Lemma calm_observe config a : calm (observe_agent config a) any.
Proof.
  unfold observe_agent. eapply calm_bind; [apply calm_timeout|intros r _]. destruct (succeeded r); calm_go.
Qed.
Hint Resolve calm_observe : calm.
Lemma calm_live_agents config agents : ∀ health, calm (live_agents config agents health) any.
Proof.
  induction agents as [|a agents IH]; intros health; cbn [live_agents]; [apply calm_ret_any|].
  destruct (health_findings _ _ _) as [fs rest]. calm_go.
Qed.
Hint Resolve calm_live_agents : calm.
Lemma calm_live config st : calm (security_live_findings config st) any.
Proof. unfold security_live_findings. calm_go. Qed.
Lemma calm_print_findings mode fs : ∀ first, calm (print_findings mode first fs) any.
Proof. induction fs as [|f fs IH]; intros first; cbn [print_findings]; [apply calm_ret_any|]. calm_go. Qed.
Lemma calm_show_findings mode fs : calm (show_findings mode fs) any.
Proof. induction fs as [|f fs IH]; cbn [show_findings]; [apply calm_ret_any|]. calm_go. Qed.
Hint Resolve calm_live calm_print_findings calm_show_findings : calm.
Lemma calm_doctor config mode : calm (security_doctor config mode) any.
Proof. unfold security_doctor. calm_go. Qed.

Lemma calm_agent agents args : calm (agent_of agents args) (λ a, find_agent agents (head args) = Ok a).
Proof.
  unfold agent_of. eapply calm_mono; [apply calm_lift, polite_message|]. intros a.
  by destruct (find_agent agents (head args)); simpl; intros; simplify_eq.
Qed.
Lemma find_agent_head agents args a : find_agent agents (head args) = Ok a → ∃ query rest, args = query :: rest.
Proof. destruct args; [done|eauto]. Qed.
Lemma calm_stats config agents :
  E (Replaced (backend_command config ++ ["stats"; "--no-stream"]%string ++ (ag_container <$> List.filter ag_runnable agents))) →
  calm (stats config agents) any.
Proof. intros He. unfold stats. calm_go. by apply calm_exec. Qed.
Lemma calm_logs agents args :
  (∀ query rest a, args = query :: rest → find_agent agents (Some query) = Ok a →
     E (Replaced (["journalctl"; "-u"; ag_unit a; "-f"]%string ++ rest))) →
  calm (logs agents args) any.
Proof.
  intros He. unfold logs. eapply calm_bind; [apply calm_agent|intros a Ha].
  destruct (find_agent_head _ _ _ Ha) as (query & rest & ->).
  eapply calm_bind; [apply calm_lift, polite_slice|]. intros r [= <-]. by eapply calm_exec, He.
Qed.
Lemma calm_unit_exists u : calm (systemd_unit_exists u) any.
Proof. unfold systemd_unit_exists. calm_go. Qed.
Hint Resolve calm_unit_exists : calm.
(** The units of the agent's brokers that exist. *)
Definition broker_units (a : Agent) : list string :=
  (λ mode, broker_unit mode (ag_container a)) <$> ["llm"; "fetch"]%string.
Lemma calm_lifecycle action agents args :
  (∀ query rest a brokers, args = query :: rest → find_agent agents (Some query) = Ok a →
     brokers `sublist_of` (if (action =? "stop")%string then broker_units a else []) →
     E (Replaced (["sudo"; "systemctl"; action; ag_unit a]%string ++ brokers))) →
  calm (lifecycle action agents args) any.
Proof.
  intros He. unfold lifecycle. eapply calm_bind; [apply calm_agent|intros a Ha].
  destruct (find_agent_head _ _ _ Ha) as (query & rest & ->).
  eapply (calm_bind _ _ (λ us, us `sublist_of` (if (action =? "stop")%string then broker_units a else [])));
    [|intros brokers Hb; by eapply calm_exec, He].
  destruct (action =? "stop")%string; [|by eapply calm_mono; [apply calm_ret|intros ? ->]].
  cbn [for_each]. cbv zeta.
  assert (∀ u, calm (e ← systemd_unit_exists u; mret (if e : bool then [u] else [])) (λ us, us `sublist_of` [u])) as Hu.
  { intros u. eapply calm_bind; [apply calm_unit_exists|intros e _]. eapply calm_mono; [apply calm_ret|].
    intros ? ->. by destruct e; [|apply sublist_nil_l]. }
  eapply calm_bind; [|intros us Hus; eapply calm_mono; [apply calm_ret|intros ? ->; exact Hus]].
  eapply (calm_bind _ _ (λ us, us `sublist_of` _)); [apply Hu|intros l1 Hs1].
  eapply (calm_bind _ _ (λ uss, concat uss `sublist_of` _)).
  - eapply calm_bind; [apply Hu|intros l2 Hs2]. eapply calm_bind; [apply calm_ret|intros ? ->].
    eapply calm_mono; [apply calm_ret|]. intros ? ->. simpl. rewrite app_nil_r. exact Hs2.
  - intros uss Hs2. eapply calm_mono; [apply calm_ret|]. intros ? ->. simpl.
    exact (sublist_app _ _ _ _ Hs1 Hs2).
Qed.
Lemma require_runnable a u : require_container a = Ok u → ag_runnable a = true.
Proof. intros Hr%bail_if_Ok. by apply negb_false_iff. Qed.
Lemma calm_shell config agents args :
  (∀ query rest a, args = query :: rest → find_agent agents (Some query) = Ok a → ag_runnable a = true →
     E (Replaced (backend_command config ++ ["exec"; "-it"; ag_container a; "sh"]%string))) →
  calm (container_shell config agents args) any.
Proof.
  intros He. unfold container_shell. eapply calm_bind; [apply calm_agent|intros a Ha].
  destruct (find_agent_head _ _ _ Ha) as (query & rest & ->).
  eapply calm_bind; [apply calm_lift; unfold require_container; auto with defined|]. intros u Hr%require_runnable.
  by eapply calm_exec, He.
Qed.
Lemma calm_container_exec config agents args :
  (∀ query rest a, args = query :: rest → find_agent agents (Some query) = Ok a → ag_runnable a = true →
     after_separator rest ≠ [] →
     E (Replaced (backend_command config ++ ["exec"%string; ag_container a] ++ after_separator rest))) →
  calm (container_exec config agents args) any.
Proof.
  intros He. unfold container_exec. eapply calm_bind; [apply calm_agent|intros a Ha].
  destruct (find_agent_head _ _ _ Ha) as (query & rest & ->).
  eapply calm_bind; [apply calm_lift; unfold require_container; auto with defined|]. intros u Hr%require_runnable.
  eapply calm_bind; [apply calm_lift, polite_slice|]. intros r [= <-].
  eapply calm_bind; [apply calm_throw_if|]. intros v Hl. eapply calm_exec, He; [done|done|done|].
  intros En. rewrite En in Hl. done.
Qed.
Lemma calm_is_dir p : calm (is_dir p) any.
Proof. unfold is_dir. calm_go. Qed.
Lemma calm_status_into f argv : calm (status_into f argv) any.
Proof. unfold status_into. calm_go. Qed.
Hint Resolve calm_is_dir calm_status_into : calm.
Lemma calm_backup agents args : calm (backup agents args) any.
Proof. unfold backup. eapply calm_bind; [apply calm_agent|intros a _]. calm_go. Qed.
Definition rebuild_argv (config : Config) : list string :=
  ["sudo"; "nixos-rebuild"; "switch"; "--flake"; cf_flake_dir config ++ "#" ++ cf_configuration_name config]%string.
Lemma calm_rebuild config : E (Replaced (rebuild_argv config)) → calm (rebuild config) any.
Proof. apply calm_exec. Qed.
Lemma calm_update config : E (Replaced (rebuild_argv config)) → calm (update config) any.
Proof. intros He. unfold update. calm_go. by apply calm_rebuild. Qed.
Lemma calm_load_config : calm load_config any.
Proof. unfold load_config. calm_go. Qed.
Lemma calm_load_agents p : calm (load_agents p) any.
Proof. unfold load_agents. calm_go. Qed.

(** ** Onboarding *)

Lemma template_entry_polite preset nm rest : polite (template_entry preset nm rest).
Proof.
  unfold template_entry. destruct (preset =? "generic")%string; [|polite_step; done].
  destruct rest as [|flag [|image [|sep command]]]; try done. polite_step; done.
Qed.
Hint Resolve template_entry_polite : defined.
Lemma calm_template args mode : calm (template args mode) any.
Proof.
  unfold template. eapply calm_bind; [apply calm_throw_if|intros _ _]. destruct args as [|preset [|nm rest]]; calm_go.
Qed.
Lemma read_document_polite b : polite (read_document b).
Proof. unfold read_document. polite_step; intros ? _. auto with defined. Qed.
Lemma parse_fragment_polite b : polite (parse_fragment b).
Proof.
  unfold parse_fragment. apply polite_bind; [apply read_document_polite|intros d _]. polite_step; intros _ _. auto with defined.
Qed.
Lemma schema_entries_polite v : polite (schema_entries v).
Proof. unfold schema_entries. apply polite_bind; [apply validate_polite|]. auto with defined. Qed.
Lemma additions_polite v : polite (additions v).
Proof.
  unfold additions. polite_step; intros _ _. apply polite_bind; [apply schema_entries_polite|intros entries _].
  polite_step; done.
Qed.
Lemma entry_identities_polite l : polite (entry_identities l).
Proof. induction l as [|e l IH]; simpl; [done|]. polite_step; intros nm _. apply polite_bind; [exact IH|done]. Qed.
Lemma identities_polite v : polite (identities v).
Proof. apply polite_bind; [apply schema_entries_polite|intros l _; apply entry_identities_polite]. Qed.
Lemma no_conflict_polite incoming : ∀ known, polite (no_conflict known incoming).
Proof. induction incoming as [|i l IH]; intros known; simpl; [done|]. polite_step; intros _ _. apply IH. Qed.
Lemma check_conflicts_polite existing incoming agents : polite (check_conflicts existing incoming agents).
Proof.
  unfold check_conflicts. apply polite_bind; [destruct existing; [apply parse_fragment_polite|done]|intros v _].
  apply polite_bind; [apply identities_polite|intros known _]. apply polite_bind; [apply identities_polite|intros added _].
  apply polite_bind; [apply no_conflict_polite|intros _ _]. apply polite_bind; [apply additions_polite|done].
Qed.
Lemma push_entries_polite entries : ∀ d, polite (push_entries d entries).
Proof.
  induction entries as [|e l IH]; intros d; simpl; [done|]. polite_step; intros t _.
  destruct (assoc _ _) as [[|[]| |]|]; try done; apply IH.
Qed.
Lemma import_bytes_polite existing incoming : polite (import_bytes existing incoming).
Proof.
  unfold import_bytes, serialize_import. apply polite_bind.
  - apply polite_bind; [apply read_document_polite|intros d _]. apply polite_bind; [apply additions_polite|intros l _].
    apply polite_bind; [apply push_entries_polite|done].
  - intros merged _. polite_step; intros _ _. apply polite_bind; [apply parse_polite|done].
Qed.
Hint Resolve parse_fragment_polite additions_polite check_conflicts_polite import_bytes_polite : defined.
Lemma calm_optional p : calm (read_optional p) any.
Proof.
  unfold read_optional, read_bounded. eapply calm_bind; [apply calm_cwd|intros dir _].
  eapply calm_bind; [apply calm_attempt|intros r _]. destruct r as [m|[]]; calm_go.
Qed.
Lemma calm_legacy_name found unreadable p : calm (onboarding_legacy found unreadable p) any.
Proof.
  unfold onboarding_legacy. eapply calm_bind; [apply calm_absent|intros r _]. destruct r as [[]|[]]; calm_go.
Qed.
Hint Resolve calm_optional calm_legacy_name : calm.
Lemma calm_refuse dir : calm (onboarding_refuse_legacy dir) any.
Proof. unfold onboarding_refuse_legacy. calm_go. Qed.
Lemma calm_dropping {A} f (m : Cli A) Q : calm m Q → calm (dropping f m) Q.
Proof. intros Hm c. specialize (Hm c). unfold wp, dropping in *. by destruct (m c) as [[a|e] c']. Qed.
Lemma calm_discarding {A} dir (m : Cli A) Q : calm m Q → calm (discarding dir m) Q.
Proof.
  intros Hm c. specialize (Hm c). unfold wp, discarding in *.
  destruct (m c) as [[a|e] c']; by destruct (sys_remove_dir_all _ _).
Qed.
Lemma calm_nonce : calm nonce any.
Proof.
  intros c. apply wp_zoom. unfold wp, unix_seconds. by destruct (w_clock (c_world c)).
Qed.
Hint Resolve calm_refuse calm_nonce : calm.
Lemma calm_nix config b : calm (validate_with_nix config b) (λ plan, plan_shape plan = true).
Proof.
  unfold validate_with_nix, with_private_input. eapply calm_bind; [apply calm_nonce|intros n _].
  eapply calm_bind; [apply calm_gets|intros env _]. cbv zeta. eapply calm_bind; [apply calm_fs|intros _ _].
  apply calm_discarding. eapply calm_bind; [apply calm_fs|intros f _].
  eapply calm_bind; [apply calm_dropping, calm_fs|intros _ _]. eapply calm_bind; [apply calm_timeout|intros r _].
  eapply calm_bind; [apply calm_lift; by destruct r|intros o _]. eapply calm_bind; [apply calm_throw_if|intros _ _].
  eapply calm_bind; [apply calm_lift; auto with defined|intros plan _].
  eapply calm_bind; [apply calm_throw_if|intros u Hp]. eapply calm_mono; [apply calm_ret|].
  intros p ->. by apply negb_false_iff.
Qed.
Lemma calm_publish path b expected : calm (publish path b expected) any.
Proof.
  unfold publish, file_mode. eapply calm_bind; [apply calm_cwd|intros dir _]. cbv zeta.
  eapply calm_bind; [calm_go|intros mode _]. eapply calm_bind; [apply calm_fs|intros f _]. apply calm_dropping.
  assert (calm (publish_staged f path (with_extension "toml.pending" path) b expected) any) as Hs
    by (unfold publish_staged; calm_go).
  intros c. apply wp_bind, wp_attempt. specialize (Hs c). unfold wp at 1. unfold wp in Hs.
  destruct (publish_staged f path _ b expected c) as [[u|e] c'].
  - by apply wp_bind, wp_ret, wp_ret.
  - apply wp_bind. eapply wp_mono; [apply calm_attempt| |done]. intros r c2 _. by apply wp_fail.
Qed.
Lemma calm_closing_report config mode valid imported plan :
  (m_hide mode = true → E Panic) → plan_shape plan = true → calm (closing_report config mode valid imported plan) any.
Proof.
  intros Hide Hp c. eapply wp_mono; [by apply (closing_report_panics config mode valid imported plan Hp)|done|].
  intros e c' (_ & -> & Hl). by apply Hide.
Qed.
Lemma calm_locked config agents import incoming mode :
  (m_hide mode = true → E Panic) → calm (run_locked config agents import incoming mode) any.
Proof.
  intros Hide. unfold run_locked. cbv zeta. eapply calm_bind; [apply calm_optional|intros existing _].
  eapply calm_bind; [apply calm_throw_if|intros _ _]. eapply calm_bind; [apply calm_lift; auto with defined|intros _ _].
  eapply calm_bind; [apply calm_nix|intros plan Hp]. eapply calm_bind.
  - destruct (import && _); [|apply calm_ret_any]. eapply calm_bind; [apply calm_lift; auto with defined|].
    intros merged _. apply calm_publish.
  - intros _ _. by apply (calm_closing_report config mode _ _ plan).
Qed.
Lemma calm_lock config : calm (import_lock config) any.
Proof.
  unfold import_lock. cbv zeta. eapply calm_bind; [apply calm_cwd|intros dir _].
  eapply calm_bind; [apply calm_attempt|intros r _]. eapply calm_bind; [apply calm_throw_if|intros _ _].
  eapply calm_bind; [apply calm_fs|intros f _]. intros c. apply wp_bind, wp_attempt, wp_zoom, wp_map_err.
  unfold wp at 1. destruct (sys_flock f true (c_world c)) as [[[]|e] w]; [by apply wp_ret|].
  apply wp_bind, wp_modify. by apply wp_fail.
Qed.
Lemma calm_onboarding config agents args mode :
  (m_hide mode = true → ∀ action filename, args = [action; filename] → E Panic) → calm (onboarding_run config agents args mode) any.
Proof.
  intros Hargs. unfold onboarding_run. destruct args as [|action [|filename [|]]]; try apply calm_fail.
  assert (m_hide mode = true → E Panic) as Hide by (intros Hh; by eapply Hargs).
  eapply calm_bind; [apply calm_throw_if|intros _ _]. eapply calm_bind; [apply calm_optional|intros b _].
  eapply calm_bind; [apply calm_lift; auto with defined|intros data _].
  eapply calm_bind; [apply calm_lift; auto with defined|intros incoming _].
  eapply calm_bind; [apply calm_lift; auto with defined|intros entries _].
  eapply calm_bind; [apply calm_refuse|intros _ _]. destruct (_ =? _)%string; [|by apply calm_locked].
  eapply calm_bind; [apply calm_lock|intros f _]. by apply calm_dropping, calm_locked.
Qed.

End outcomes.
