(* ===== verification/CliRun.v ===== *)
(** * The dispatcher: what the command line can end in

    An exit code, a message, or one of the programs of [takes_over]; never a panic. *)

From S2P Require Import Prelude RustStr Json Posix Budget PrivateStore Policy Activity WorkerFs ControlData CliHost Descriptor Desired DesiredFacts DesiredSpec DesiredRun Manifest Live CliCommands LiveFacts Onboarding OnboardingRun Cli Doctor CliSafety.

(** ** The agent a query names *)

(** By its container, or else by a display name that is no container and no other
    agent's name. *)
Definition named (agents : list Agent) (query : string) (a : Agent) : Prop :=
  a ∈ agents ∧ (ag_container a = query
    ∨ ag_name a = query ∧ (∀ b, b ∈ agents → ag_container b ≠ query)
      ∧ (∀ b, b ∈ agents → ag_name b = query → b = a)).
Lemma find_first_misses {A} (f : A → bool) l : find_first f l = None → ∀ x, x ∈ l → f x = false.
Proof.
  induction l as [|y l IH]; simpl; [by intros _ x ?%elem_of_nil|]. destruct (f y) eqn:E; [done|].
  intros Hn x [->|Hx]%elem_of_cons; [done|by apply IH].
Qed.
Lemma find_agent_named agents query a : find_agent agents (Some query) = Ok a → named agents query a.
Proof.
  unfold find_agent. cbn [ok_or mbind result_bind].
  destruct (find_first _ agents) as [b|] eqn:Ef.
  - intros [= ->]. apply find_first_Some in Ef as [Hin Hc%String.eqb_eq]. split; [done|by left].
  - pose proof (find_first_misses _ _ Ef) as Hn.
    destruct (List.filter (λ a, (ag_name a =? query)%string) agents) as [|b [|b' l]] eqn:El; try done.
    intros [= ->]. assert (∀ x, In x agents ∧ (ag_name x =? query)%string = true ↔ In x [a]) as Hf
      by (intros x; rewrite <-El; symmetry; apply List.filter_In).
    destruct (proj2 (Hf a)) as [Hin Hq%String.eqb_eq]; [by left|]. split; [by apply list_elem_of_In|]. right.
    split; [done|]. split; [intros b Hb; by apply String.eqb_neq, (Hn b Hb)|]. intros b Hb Hbq.
    destruct (proj1 (Hf b)) as [->|[]]; [|done]. split; [by apply list_elem_of_In|by apply String.eqb_eq].
Qed.

(** ** The programs that take over *)

Inductive takes_over (config : Config) (agents : list Agent) : list string → list string → Prop :=
| over_stats rest :
    takes_over config agents ("stats"%string :: rest)
      (backend_command config ++ ["stats"; "--no-stream"]%string ++ (ag_container <$> List.filter ag_runnable agents))
| over_logs query rest a :
    named agents query a →
    takes_over config agents ("logs"%string :: query :: rest) (["journalctl"; "-u"; ag_unit a; "-f"]%string ++ rest)
| over_lifecycle action query rest a brokers :
    action ∈ ["restart"; "start"; "stop"]%string → named agents query a →
    brokers `sublist_of` (if (action =? "stop")%string then broker_units a else []) →
    takes_over config agents (action :: query :: rest) (["sudo"; "systemctl"; action; ag_unit a]%string ++ brokers)
| over_shell query rest a :
    named agents query a → ag_runnable a = true →
    takes_over config agents ("shell"%string :: query :: rest)
      (backend_command config ++ ["exec"; "-it"; ag_container a; "sh"]%string)
| over_exec query rest a :
    named agents query a → ag_runnable a = true → after_separator rest ≠ [] →
    takes_over config agents ("exec"%string :: query :: rest)
      (backend_command config ++ ["exec"%string; ag_container a] ++ after_separator rest)
| over_ps rest : takes_over config agents ("ps"%string :: rest) (backend_command config ++ ["ps"%string])
| over_rebuild command rest :
    command ∈ ["rebuild"; "update"]%string → takes_over config agents (command :: rest) (rebuild_argv config).

Section run.
Context `{SerdeJson} `{Display} `{TomlEdit}.

Lemma calm_configured (E : fault → Prop) command config agents args mode :
  (∀ m, E (Fail m)) → (∀ argv, takes_over config agents args argv → E (Replaced argv)) →
  (m_hide mode = true → ∀ action filename, args = ["agent"%string; action; filename] → E Panic) →
  head args = Some command ∨ command = "status"%string →
  calm E (run_configured command config agents args mode) any.
Proof.
  intros Hf Ho Hp Hargs. unfold run_configured. destruct (command =? "status")%string eqn:Es; [by apply calm_status|].
  apply String.eqb_neq in Es. destruct Hargs as [Hargs|]; [|done]. destruct args as [|x rest]; [done|].
  injection Hargs as ->. eapply calm_bind; [by apply calm_lift, polite_slice|]. intros r [= <-].
  apply calm_if; [by apply calm_doctor|]. apply calm_if; [by apply calm_diagnostics|].
  destruct (String.eqb_spec command "stats") as [->|_]; [apply calm_stats; [done|apply Ho; constructor]|].
  destruct (String.eqb_spec command "logs") as [->|_].
  { apply calm_logs; [done|]. intros query tl a -> Ha%find_agent_named. apply Ho. by constructor. }
  destruct (str_in command ["restart"; "start"; "stop"]%string) eqn:El.
  { apply str_in_elem in El. apply calm_lifecycle; [done|]. intros query tl a brokers -> Ha%find_agent_named Hb.
    apply Ho. by constructor. }
  destruct (String.eqb_spec command "shell") as [->|_].
  { apply calm_shell; [done|]. intros query tl a -> Ha%find_agent_named Hr. apply Ho. by constructor. }
  destruct (String.eqb_spec command "exec") as [->|_].
  { apply calm_container_exec; [done|]. intros query tl a -> Ha%find_agent_named Hr Hn. apply Ho. by constructor. }
  destruct (String.eqb_spec command "ps") as [->|_]; [apply calm_exec; [done|apply Ho; constructor]|].
  apply calm_if; [by apply calm_backup|].
  destruct (String.eqb_spec command "rebuild") as [->|_]; [apply calm_rebuild; [done|apply Ho; constructor; set_solver]|].
  destruct (String.eqb_spec command "update") as [->|_]; [apply calm_update; [done|apply Ho; constructor; set_solver]|].
  destruct (String.eqb_spec command "agent") as [->|_]; [|by apply calm_fail].
  apply calm_onboarding; [done|]. intros Hide action filename ->. by eapply Hp.
Qed.

(** ** The configuration and the inventory *)

Definition config_read (c : cli) (config : Config) : Prop :=
  ∃ text, text_file c (default DEFAULT_CONFIG (e_config (c_env c))) text ∧ parse_config text = Ok config.
Definition agents_read (c : cli) (config : Config) (agents : list Agent) : Prop :=
  ∃ text, text_file c (cf_agents_file config) text ∧ parse_agents text = Ok agents.
Lemma reads_text p : reads (read_to_string p) (λ c text, text_file c p text).
Proof.
  intros c. unfold read_to_string, cwd. apply wp_bind, wp_gets, wp_bind. apply wp_zoom, wp_map_err.
  eapply wp_mono; [apply command_reads_file| |].
  - intros b w [S (x & Hx & ->)]. apply wp_lift.
    + intros text Ht%ok_or_Ok. split; [by apply same_cli_world|]. by exists x.
    + intros e _. by apply same_cli_world.
  - intros e w S. by apply same_cli_world.
Qed.
Lemma text_file_same c c' p text : same_cli c c' → text_file c' p text → text_file c p text.
Proof.
  intros [Hf He] (x & Hx & Ht). exists x. split; [|done]. by rewrite He, (follow_same 40 _ _ _ Hf) in Hx.
Qed.
Lemma message_Ok {A} (r : result string A) a : message r = Ok a → r = Ok a.
Proof. destruct r; simpl; naive_solver. Qed.
Lemma reads_config : reads load_config config_read.
Proof.
  intros c. unfold load_config. apply wp_bind, wp_gets.
  eapply wp_reads; [apply reads_text|done|]. intros text c1 S1 Ht.
  apply wp_lift; [|done]. intros config Hc%message_Ok. split; [done|]. by exists text.
Qed.
Lemma reads_inventory config : reads (load_agents (cf_agents_file config)) (λ c, agents_read c config).
Proof.
  intros c. unfold load_agents. eapply wp_reads; [apply reads_text|done|]. intros text c1 S1 Ht.
  apply wp_lift; [|done]. intros agents Ha%message_Ok. split; [done|]. by exists text.
Qed.

(** ** The whole program *)

(** What the dispatcher looks at. *)
Definition command_line (args l : list string) (mode : OutputMode) : Prop :=
  take_output_flags args (mkMode false false) = (l, mode).
Definition hidden_plan (l : list string) (mode : OutputMode) : Prop :=
  m_hide mode = true ∧ ∃ action filename, l = ["agent"%string; action; filename].
(** How a run from [c] may stop without an exit code. *)
Definition stops (c : cli) (args : list string) (e : fault) : Prop :=
  ∃ l mode, command_line args l mode ∧
  match e with
  | Fail _ => True
  | Panic => hidden_plan l mode
  | Replaced argv => ∃ config agents, config_read c config ∧ agents_read c config agents ∧ takes_over config agents l argv
  end.
Lemma cli_spec tokens args c : wp (cli_run tokens args) (λ _ _, True) (λ e _, stops c args e) c.
Proof.
  unfold cli_run. destruct (take_output_flags args (mkMode false false)) as [l mode] eqn:Ef. cbv zeta.
  assert (∀ m, stops c args (Fail m)) as Hfail by (intros m; by exists l, mode).
  assert (∀ s, s ≠ "status"%string → (default "status"%string (head l) =? s)%string = true → ∃ rest, l = s :: rest) as Hhead.
  { intros s Hs Hd%String.eqb_eq. destruct l as [|a rest]; [done|]. simpl in Hd. subst. eauto. }
  assert (∀ m : Cli Z, calm (stops c args) m any → wp m (λ _ _, True) (λ e _, stops c args e) c) as Hcalm.
  { intros m Hm. eapply wp_mono; [apply Hm|done|done]. }
  destruct (default "status"%string (head l) =? "config")%string eqn:E1.
  { destruct (Hhead "config"%string ltac:(done) E1) as (rest & ->). apply Hcalm.
    eapply calm_bind; [by apply calm_lift, polite_slice|intros r _; by apply calm_config]. }
  destruct (default "status"%string (head l) =? "remote-check")%string eqn:E2.
  { destruct (Hhead "remote-check"%string ltac:(done) E2) as (rest & ->). apply Hcalm.
    eapply calm_bind; [by apply calm_lift, polite_slice|intros r _; by apply calm_remote]. }
  destruct (default "status"%string (head l) =? "runtimes")%string eqn:E3.
  { destruct (Hhead "runtimes"%string ltac:(done) E3) as (rest & ->). apply Hcalm.
    eapply calm_bind; [by apply calm_lift, polite_slice|intros r _; by apply calm_runtimes]. }
  destruct (_ && _); [by apply Hcalm, calm_template|].
  destruct (str_in _ _); [apply Hcalm; eapply calm_bind; [apply calm_println|intros; apply calm_ret_any]|].
  apply wp_bind. eapply wp_mono; [exact (wp_conj _ _ _ _ _ _ (reads_config c) (calm_load_config _ Hfail c))| |by intros e c1 []].
  intros config c1 [[S1 Hc] _]. apply wp_bind.
  eapply wp_mono; [exact (wp_conj _ _ _ _ _ _ (reads_inventory config c1) (calm_load_agents _ Hfail _ c1))| |by intros e c2 []].
  intros agents c2 [[S2 (text & Ht & Ha)] _].
  assert (agents_read c config agents) as Hagents by (exists text; split; [by eapply text_file_same|done]).
  eapply wp_mono; [apply (calm_configured (stops c args))|done|done]; try done.
  - intros argv Ho. exists l, mode. split; [done|]. by exists config, agents.
  - intros Hide action filename ->. exists ["agent"%string; action; filename], mode. split; [done|].
    split; [done|]. by exists action, filename.
  - destruct l; [by right|by left].
Qed.

End run.
