(* ===== verification/Scenarios.v ===== *)
(** * Scenarios: concrete instances of the external crates

    A fixed-width codec and a small digest instantiate [Crates] and satisfy
    [CratesLaws]; a reader that knows a few documents instantiates [SerdeJson]; a
    table of URLs instantiates [UrlLib].  The files [ScenarioLedger],
    [ScenarioParts] and [ScenarioBroker] run the model on them: each
    [..._witness] applies one property at a concrete input where its hypotheses
    hold.  Nothing outside these files depends on them. *)

From S2P Require Import Prelude RustStr Json Posix Budget Limits Ledger Policy Envelope.

(** Evaluate a closed goal. *)
Ltac by_eval := vm_compute; first [reflexivity | discriminate | done].

(** ** A budget codec *)

Definition put_opt (o : option Z) : bytes :=
  match o with Some x => 1 :: be_bytes 8 x | None => [0] end.
Definition toy_encode (b : BudgetState) : bytes :=
  be_bytes 8 (day b) ++ be_bytes 8 (requests b) ++ be_bytes 8 (tokens b) ++ be_bytes 8 (cost_microusd b)
  ++ put_opt (last_seen_seconds b) ++ put_opt (unsettled b) ++ put_opt (pending_usage b)
  ++ match checksum b with Some d => 1 :: d | None => [0] end.

Definition take_u64 (l : bytes) : option (Z * bytes) :=
  if (8 <=? length l)%nat then Some (be_value (take 8 l) 0, drop 8 l) else None.
Definition take_opt (l : bytes) : option (option Z * bytes) :=
  match l with
  | 0 :: l => Some (None, l)
  | 1 :: l => '(x, l) ← take_u64 l; Some (Some x, l)
  | _ => None
  end.
Definition toy_decode (l : bytes) : option BudgetState :=
  '(d, l) ← take_u64 l;
  '(r, l) ← take_u64 l;
  '(t, l) ← take_u64 l;
  '(c, l) ← take_u64 l;
  '(seen, l) ← take_opt l;
  '(u, l) ← take_opt l;
  '(p, l) ← take_opt l;
  match l with
  | [0] => Some (mkBudget d r t c seen u p None)
  | 1 :: ck => Some (mkBudget d r t c seen u p (Some ck))
  | _ => None
  end.
Definition MASK : Z := Eval cbv in 2 ^ 256 - 1.
Definition toy_sha256 (l : bytes) : bytes :=
  be_bytes 32 (foldl (λ h b, Z.land (h * 16777619 + b + 1) MASK) 2166136261 l).

#[export] Instance toy_crates : Crates := {|
  sha256 := toy_sha256; encode_budget := toy_encode; decode_budget := toy_decode |}.

Lemma take_u64_be x l : u64 x → take_u64 (be_bytes 8 x ++ l) = Some (x, l).
Proof.
  intros Hx. unfold take_u64. rewrite length_app, length_be_bytes. simpl (8 <=? _)%nat.
  rewrite take_app_length', drop_app_length' by by rewrite length_be_bytes. by rewrite be_roundtrip.
Qed.
Lemma take_opt_put o l : opt_u64_ok o → take_opt (put_opt o ++ l) = Some (o, l).
Proof. destruct o as [x|]; [|done]. intros Hx. cbn -[take_u64 be_bytes app]. unfold put_opt.
  cbn -[take_u64 be_bytes]. by rewrite take_u64_be. Qed.

#[export] Instance toy_laws : CratesLaws.
Proof.
  split.
  - intros l. split; [apply length_be_bytes|apply be_bytes_ok].
  - intros b [? ? ? ? ? ? ? Hc]. cbn [decode_budget encode_budget toy_crates]. unfold toy_decode, toy_encode.
    do 4 (rewrite take_u64_be by done; cbn [mbind option_bind]).
    do 3 (rewrite take_opt_put by done; cbn [mbind option_bind]).
    destruct b as [? ? ? ? ? ? ? [ck|]]; done.
  - intros b [? ? ? ? ? ? ? Hc]. cbn [encode_budget toy_crates]. unfold toy_encode.
    rewrite !length_app, !length_be_bytes.
    assert (∀ o, (length (put_opt o) ≤ 9)%nat) as Hp.
    { intros [x|]; unfold put_opt; [rewrite length_cons, length_be_bytes|simpl]; lia. }
    pose proof (Hp (last_seen_seconds b)). pose proof (Hp (unsettled b)). pose proof (Hp (pending_usage b)).
    destruct (checksum b) as [ck|]; simpl in *; lia.
Qed.

(** ** Deciding that a world holds a budget *)

Definition wfb (w : world) : bool :=
  bool_decide (map_Forall (λ (_ : string) i, i < w_next_ino w) (w_names w)).
Definition private_fileb (w : world) (p : string) (d : bytes) : bool :=
  match w_names w !! p with
  | Some i =>
      match w_inodes w !! i with
      | Some n => bool_decide (i_kind n = Regular) && (mode_and (i_mode n) 63 =? 0)
                  && (nlink w i =? 1) && bool_decide (i_data n = d)
      | None => false
      end
  | None => false
  end.
Lemma wfb_sound w : wfb w = true → wf w.
Proof. unfold wfb. rewrite bool_decide_eq_true. intros Hw p i Hp. exact (Hw p i Hp). Qed.
Lemma private_fileb_sound w p d : private_fileb w p d = true → private_file w p d.
Proof.
  unfold private_fileb. destruct (w_names w !! p) as [i|] eqn:Ei; [|done].
  destruct (w_inodes w !! i) as [n|] eqn:En; [|done].
  rewrite !andb_true_iff, !bool_decide_eq_true, !Z.eqb_eq. intros (((? & ?) & ?) & ?).
  by exists i, n.
Qed.

Definition u64b (x : Z) : bool := (0 <=? x) && (x <=? u64_max).
Definition budget_u64b (b : BudgetState) : bool :=
  u64b (day b) && u64b (requests b) && u64b (tokens b) && u64b (cost_microusd b)
  && is_none_or u64b (last_seen_seconds b) && is_none_or u64b (unsettled b)
  && is_none_or u64b (pending_usage b)
  && match checksum b with
     | Some d => (length d =? 32)%nat && forallb (λ x, (0 <=? x) && (x <? 256)) d
     | None => true
     end.
Definition diskb (p : string) (w : world) (b : BudgetState) : bool :=
  wfb w && private_fileb w p (encode_budget b) && budget_u64b b && forallb u64b (w_clock w).
Lemma u64b_sound x : u64b x = true → u64 x.
Proof. unfold u64b, u64. rewrite andb_true_iff, !Z.leb_le. done. Qed.
Lemma opt_u64b_sound o : is_none_or u64b o = true → opt_u64_ok o.
Proof. destruct o; [apply u64b_sound|done]. Qed.
Lemma diskb_sound p w b : diskb p w b = true → disk p w b.
Proof.
  unfold diskb, budget_u64b. rewrite !andb_true_iff.
  intros (((Hw & Hf) & (((((((? & ?) & ?) & ?) & ?) & ?) & ?) & Hc)) & Hk). split.
  - by apply wfb_sound.
  - by apply private_fileb_sound.
  - split; try by apply u64b_sound; try by apply opt_u64b_sound.
    all: try by apply opt_u64b_sound.
    destruct (checksum b) as [d|]; [|done]. apply andb_true_iff in Hc as [Hl Hb].
    apply Nat.eqb_eq in Hl. split; [done|]. apply Forall_forall. intros x Hx.
    rewrite forallb_elem in Hb. specialize (Hb x Hx). unfold byte_ok. apply andb_true_iff in Hb as [?%Z.leb_le ?%Z.ltb_lt]. lia.
  - apply Forall_forall. intros x Hx. rewrite forallb_elem in Hk. by apply u64b_sound, Hk.
Qed.

Definition from_ok {E A} (d : A) (r : result E A) : A := match r with Ok a => a | Err _ => d end.
Lemma computed {E A S} (d : A) (p : result E A * S) : is_ok (fst p) = true → p = (Ok (from_ok d (fst p)), snd p).
Proof. by destruct p as [[]]. Qed.
Lemma small_u64 x : 0 ≤ x ≤ 2000000 → u64 x.
Proof. unfold u64, u64_max. lia. Qed.

(** ** JSON documents *)

Fixpoint show (v : value) : bytes :=
  match v with
  | Null => str_bytes "null"
  | Bool b => str_bytes (if b then "true" else "false")
  | Number (PosInt n) => str_bytes (dec n)
  | Number (NegInt n) => str_bytes "-" ++ str_bytes (dec (- n))
  | Number (Float n) => str_bytes "0." ++ str_bytes (dec n)
  | Str s => str_bytes "'" ++ str_bytes s ++ str_bytes "'"
  | Array l => str_bytes "[" ++ concat (List.map (λ x, show x ++ str_bytes ",") l) ++ str_bytes "]"
  | Object m => str_bytes "{" ++ concat (List.map (λ '(k, x), str_bytes k ++ str_bytes ":" ++ show x ++ str_bytes ",") m)
                ++ str_bytes "}"
  end.

Definition doc_request : value :=
  json_obj [("model"%string, Str "m"); ("max_tokens"%string, num 4);
            ("messages"%string, Array [json_obj [("role"%string, Str "user"); ("content"%string, Str "hi")]])].
Definition doc_stream_request : value :=
  json_obj [("model"%string, Str "m"); ("max_tokens"%string, num 4); ("stream"%string, Bool true);
            ("messages"%string, Array [json_obj [("role"%string, Str "user"); ("content"%string, Str "hi")]])].
Definition doc_ack : value := json_obj [("version"%string, num 1); ("status"%string, Str "ok")].
Definition doc_answer : value :=
  json_obj [("object"%string, Str "chat.completion"); ("model"%string, Str "m"); ("id"%string, Str "c1");
            ("choices"%string, Array [json_obj [("index"%string, num 0); ("finish_reason"%string, Str "stop");
               ("message"%string, json_obj [("role"%string, Str "assistant"); ("content"%string, Str "hello")])]]);
            ("usage"%string, json_obj [("prompt_tokens"%string, num 5); ("completion_tokens"%string, num 2);
                                       ("total_tokens"%string, num 7)])].
Definition doc_chunk : value :=
  json_obj [("object"%string, Str "chat.completion.chunk"); ("model"%string, Str "m"); ("id"%string, Str "c1");
            ("choices"%string, Array [json_obj [("index"%string, num 0); ("finish_reason"%string, Str "stop");
               ("delta"%string, json_obj [("content"%string, Str "hello")])]])].
Definition documents : list (string * value) :=
  [("request"%string, doc_request); ("streaming"%string, doc_stream_request); ("ack"%string, doc_ack);
   ("answer"%string, doc_answer); ("chunk"%string, doc_chunk)].

#[export] Instance toy_json : SerdeJson := {|
  from_slice b := snd <$> find_first (λ '(n, _), bool_decide (str_bytes n = b)) documents;
  to_vec := show |}.

(** ** URLs *)

Record toy_url : Type := mkUrl { tu_text : string; tu_scheme : string; tu_host : string; tu_path : string }.
Definition toy_urls : list toy_url :=
  [mkUrl "https://api.test/v1/" "https" "api.test" "/v1/";
   mkUrl "https://api.test/v1/chat/completions" "https" "api.test" "/v1/chat/completions";
   mkUrl "https://docs.test/a" "https" "docs.test" "/a";
   mkUrl "https://docs.test/b" "https" "docs.test" "/b"].
Definition toy_parse (s : string) : option toy_url := find_first (λ u, (tu_text u =? s)%string) toy_urls.
#[export] Instance toy_urllib : UrlLib := {|
  url := toy_url;
  url_parse := toy_parse;
  url_scheme := tu_scheme;
  url_username _ := EmptyString;
  url_password _ := None;
  url_fragment _ := None;
  url_query _ := None;
  url_host_str u := Some (tu_host u);
  url_port_or_known_default _ := Some 443;
  url_path := tu_path;
  url_cannot_be_a_base _ := false;
  url_join u r := if starts_with "https://" r then toy_parse r else toy_parse (tu_text u ++ r);
  url_as_str := tu_text |}.
Definition toy_dns (h : string) (port : Z) : option (list SocketAddr) := Some [mkSocket (V4 93 184 216 34) port].
