(* ===== verification/ScenarioLedger.v ===== *)
(** * Scenarios: a strict budget from provisioning to the first overage *)

From S2P Require Import Prelude RustStr Json Posix Budget Limits Ledger CrashSafety Scenarios.

(** ** A strict budget from provisioning to the first overage *)

Definition T0 : Z := 1000000.
Definition empty_world : world := mk_world ∅ ∅ 1 [] 3 [] [] 1000.
Definition BUDGET : string := "/state/budget.json".
Definition demo_settings : settings := mkSettings BUDGET 60 10 5 1000 2000.

(** Provisioned by the operator command. *)
Definition provisioned : world := snd (initialize_strict_at BUDGET T0 empty_world).
Definition initial_budget : BudgetState :=
  let b := mkBudget (T0 / 86400) 0 0 0 (Some T0) (Some 0) None None in
  set_checksum (Some (strict_digest b)) b.

Definition no_ledger : Limits * ledger :=
  (mkLimits EmptyString 1 0 0 0 0 None None,
   mkLedger BudgetState_default (mkRate 0 0) 0 false false empty_world).

(** Started, one request admitted. *)
Definition started : result string (Limits * ledger) * world := start demo_settings T0 provisioned.
Definition demo_L : Limits := fst (from_ok no_ledger (fst started)).
Definition demo_l : ledger := snd (from_ok no_ledger (fst started)).
Definition tick (cl : list Z) (l : ledger) : ledger := set_world (retime [] cl (l_world l)) l.
Definition admitted_once : result string (option Reservation * option UsageGuard) * ledger :=
  reserve_llm demo_L 10 20 (tick [T0 + 5] demo_l).

Lemma provisioned_disk : disk BUDGET provisioned initial_budget.
Proof. apply diskb_sound. by_eval. Qed.
Lemma provisioned_valid : accepted initial_budget ∧ clock_sane initial_budget.
Proof.
  split.
  - unfold accepted. split_and!; [done|by eexists|by eexists|by_eval].
  - exists T0. by_eval.
Qed.

Lemma demo_started : start demo_settings T0 provisioned = (Ok (demo_L, demo_l), snd started).
Proof. by_eval. Qed.
Lemma demo_admitted :
  reserve_llm demo_L 10 20 (tick [T0 + 5] demo_l)
  = (Ok (Some (mkReservation false), Some (mkGuard 10 20 false)), snd admitted_once).
Proof. by_eval. Qed.

Lemma clock_u64 x : 0 ≤ x ≤ 2000000 → Forall u64 [x].
Proof. intros. constructor; [unfold u64, u64_max; lia|constructor]. Qed.

(** A run with one admitted request in flight. *)
Lemma demo_run :
  run demo_settings [mkAdmission (T0 + 5) 10 20]
    (Running demo_L (snd admitted_once) [mkReservation false] [mkGuard 10 20 false]).
Proof.
  apply (RunAdmit _ [] demo_L (tick [T0 + 5] demo_l) [] []).
  - apply (RunEnv _ [] (Running demo_L demo_l [] []) [] [T0 + 5]); [|by apply clock_u64].
    eapply (RunStart _ _ _ T0); [|unfold u64, u64_max, T0; lia|exact demo_started].
    destruct provisioned_valid. by eapply RunInit; [apply provisioned_disk|..].
  - unfold u64_max. lia.
  - unfold u64_max. lia.
  - exact demo_admitted.
Qed.

Lemma daily_ceilings_witness :
  total a_tokens (T0 / 86400) [mkAdmission (T0 + 5) 10 20] = 10
  ∧ total a_tokens (T0 / 86400) [mkAdmission (T0 + 5) 10 20] ≤ s_tokens demo_settings.
Proof.
  split; [by_eval|].
  apply (daily_ceilings_hold demo_settings _ _ (T0 / 86400) ltac:(done) ltac:(done) ltac:(done) demo_run).
Defined.

Lemma durable_holds_witness :
  ∃ b, disk BUDGET (l_world (snd admitted_once)) b ∧ 1 ≤ default 0 (unsettled b).
Proof.
  destruct (durable_state_backs_live_requests demo_settings _ _ ltac:(done) ltac:(done) ltac:(done) demo_run)
    as (b & Hd & _ & Hu & _).
  exists b. split; [exact Hd|exact Hu].
Defined.

Definition at_admission : ledger := tick [T0 + 5] demo_l.
Definition in_flight : ledger := tick [T0 + 6; T0 + 6; T0 + 6] (snd admitted_once).
Definition charged : BudgetState := l_budget in_flight.
Lemma at_admission_disk : disk (path demo_L) (l_world at_admission) initial_budget.
Proof. apply diskb_sound. by_eval. Qed.
Lemma in_flight_disk : disk (path demo_L) (l_world in_flight) charged.
Proof. apply diskb_sound. by_eval. Qed.
Lemma demo_strict : is_strict demo_L = true.
Proof. by_eval. Qed.

Lemma reserve_refines_witness :
  ∃ b', bstep demo_L initial_budget (AAdmit (T0 + 5) 10 20 true) b' ∧ l_budget (snd admitted_once) = b'.
Proof.
  pose proof (reservation_refines_admission demo_L 10 20 at_admission initial_budget demo_strict
    at_admission_disk (small_u64 10 ltac:(lia)) (small_u64 20 ltac:(lia))) as Hr.
  unfold at_admission in Hr. rewrite demo_admitted in Hr. destruct Hr as (_ & b' & Hb & _ & He).
  exists b'. split; [exact Hb|exact He].
Defined.

Lemma settle_refines_witness :
  ∃ b', bstep demo_L charged (ASettle (T0 + 6)) b'
        ∧ disk (path demo_L) (l_world (snd (settle demo_L (mkReservation true) in_flight))) b'.
Proof.
  pose proof (ledger_operations_refine demo_L in_flight charged (mkReservation true) (mkGuard 10 20 false)
    10 (Some 20) T0 demo_strict in_flight_disk (small_u64 T0 ltac:(unfold T0; lia))) as (Hs & _).
  assert (fst (settle demo_L (mkReservation true) in_flight) = Ok tt) as Ho by by_eval.
  destruct (settle demo_L (mkReservation true) in_flight) as [r s'] eqn:E. cbn [fst] in Ho. subst r.
  destruct Hs as (at_ & b' & Hb & Hd & _). exists b'. split; [|exact Hd].
  assert (at_ = T0 + 6) as <-; [|exact Hb].
  assert (last_seen_seconds b' = Some (T0 + 6)) as Hl.
  { assert (diskb (path demo_L) (l_world (snd (settle demo_L (mkReservation true) in_flight)))
      (l_budget (snd (settle demo_L (mkReservation true) in_flight))) = true) as Hd2 by by_eval.
    apply diskb_sound in Hd2. rewrite E in Hd2. cbn [snd] in Hd2.
    rewrite (disk_inj _ _ _ _ Hd Hd2).
    assert (last_seen_seconds (l_budget (snd (settle demo_L (mkReservation true) in_flight)))
      = Some (T0 + 6)) as Hl by by_eval. by rewrite E in Hl. }
  inversion Hb; subst. simpl in Hl. congruence.
Defined.

Lemma no_refund_witness :
  fst (reconcile_strict_at BUDGET (T0 + 9) (exit_world demo_L (l_world in_flight))) = Ok (1, 1)
  ∧ ∃ b', disk BUDGET (snd (reconcile_strict_at BUDGET (T0 + 9) (exit_world demo_L (l_world in_flight)))) b'
          ∧ tokens b' = 10 ∧ cost_microusd b' = 20.
Proof.
  split; [by_eval|].
  assert (disk BUDGET (exit_world demo_L (l_world in_flight)) charged) as Hd
    by (apply diskb_sound; by_eval).
  destruct (reconcile_never_refunds BUDGET (T0 + 9) _ _ _ _ Hd (small_u64 (T0 + 9) ltac:(unfold T0; lia))
    (surjective_pairing _)) as (b' & Hd' & _ & _ & Ht & Hc & _).
  exists b'. rewrite Ht, Hc. split; [exact Hd'|]. split; by_eval.
Defined.

(** The provider reports 11 tokens where 10 were reserved. *)
Definition overrun : result string unit * (ledger * UsageGuard) :=
  observe demo_L 11 (Some 20) (in_flight, mkGuard 10 20 false).
Lemma overage_witness :
  is_ok (fst overrun) = true
  ∧ is_ok (fst (reserve_llm demo_L 1 1 (tick [T0 + 30] (fst (snd overrun))))) = false.
Proof.
  split; [by_eval|].
  apply (overage_blocks_the_day demo_L in_flight (fst (snd overrun))
    (snd (reserve_llm demo_L 1 1 (tick [T0 + 30] (fst (snd overrun))))) (mkGuard 10 20 false)
    (snd (snd overrun)) charged 11 1 1 (Some 20) (fst overrun) [] [T0 + 30]
    (fst (reserve_llm demo_L 1 1 (tick [T0 + 30] (fst (snd overrun)))))
    demo_strict ltac:(by_eval) in_flight_disk ltac:(by_eval)).
  - unfold overrun. by destruct (observe _ _ _ _) as [? [? ?]].
  - unfold u64_max. lia.
  - apply small_u64. lia.
  - apply clock_u64. unfold T0. lia.
  - by_eval.
  - apply surjective_pairing.
Defined.

(** The process dies with the request in flight and is started again. *)
Definition crashed : world := exit_world demo_L (l_world in_flight).
Definition restarted : result string (Limits * ledger) * world := start demo_settings (T0 + 100) crashed.
Lemma orphans_witness :
  is_ok (fst restarted) = true
  ∧ is_ok (fst (reserve_llm (fst (from_ok no_ledger (fst restarted))) 1 1
                  (tick [T0 + 101] (snd (from_ok no_ledger (fst restarted)))))) = false.
Proof.
  split; [by_eval|].
  eapply (orphaned_usage_blocks_admission demo_settings (T0 + 100) crashed (snd restarted) charged
    (fst (from_ok no_ledger (fst restarted))) (snd (from_ok no_ledger (fst restarted))) _ 1 1 1 _ [] [T0 + 101]).
  - apply diskb_sound. by_eval.
  - apply small_u64. unfold T0. lia.
  - by_eval.
  - lia.
  - by_eval.
  - apply small_u64. lia.
  - apply small_u64. lia.
  - apply clock_u64. unfold T0. lia.
  - apply surjective_pairing.
Defined.

Definition no_owner : StrictState := mkStrict (mk_fd 0 0) EmptyString EmptyString.
Lemma exclusive_witness :
  is_ok (fst (acquire BUDGET provisioned)) = true
  ∧ ∃ e w3, acquire BUDGET (snd (acquire BUDGET provisioned)) = (Err e, w3).
Proof.
  split; [by_eval|].
  apply (strict_ownership_is_exclusive BUDGET provisioned (snd (acquire BUDGET provisioned)) _
    (from_ok no_owner (fst (acquire BUDGET provisioned)))); [by_eval|done|done|].
  apply Forall_forall. intros l Hl. vm_compute in Hl. apply list_elem_of_In in Hl.
  destruct Hl as [<-|[]]. by_eval.
Defined.

(** A replacement whose fourth call fails. *)
Definition interrupted : world := retime [None; None; None; Some 3%nat] [] provisioned.
Lemma atomic_witness :
  is_ok (fst (atomic_json BUDGET charged true interrupted)) = false
  ∧ (private_file (snd (atomic_json BUDGET charged true interrupted)) BUDGET (encode_budget initial_budget)
     ∨ private_file (snd (atomic_json BUDGET charged true interrupted)) BUDGET (encode_budget (sealed charged))).
Proof.
  split; [by_eval|].
  apply (budget_replacement_is_atomic BUDGET charged (encode_budget initial_budget) interrupted
    (snd (atomic_json BUDGET charged true interrupted)) (fst (atomic_json BUDGET charged true interrupted))).
  - apply wfb_sound. by_eval.
  - apply private_fileb_sound. by_eval.
  - apply surjective_pairing.
Defined.
