(* ===== verification/ScenarioParts.v ===== *)
(** * Scenarios: the broker's parts on concrete inputs *)

From S2P Require Import Prelude RustStr Json Posix Budget Limits Policy Net Activity Config Http Envelope Storage Streaming Scenarios.

(** ** Egress policy *)

Lemma egress_filter_witness : is_public_ip (V4 93 184 216 34) = true ∧ ip_allowed (V4 93 184 216 34).
Proof.
  split; [by_eval|]. apply egress_filter_exact; [|by_eval]. simpl. rewrite !Forall_cons. by split_and!.
Defined.

Definition docs_target : ResolvedTarget :=
  mkTarget (mkUrl "https://docs.test/a" "https" "docs.test" "/a") "docs.test" [mkSocket (V4 93 184 216 34) 443].
Lemma resolved_target_witness : admissible ["docs.test"%string] false false docs_target.
Proof. apply (resolved_target_is_safe "https://docs.test/a" _ _ toy_dns). by_eval. Defined.

(** ** Activity *)

Definition demo_activity : activity_config :=
  mkActivity "/run/activity/collector.sock" 990 None 991 "broker" "tenant" "agent-a" "run-1" "w" 1 "p1".
Definition zeros (n : nat) : list Z := replicate n 0.
Definition collector : conn :=
  mkConn [RdData (be_bytes 4 3 ++ str_bytes "ack")] [] [] [] (zeros 12) (Some 990).
Definition demo_env : env :=
  mkEnv 991 [Some (replicate 16 7); Some (replicate 16 8)] [Some 5; Some 6] [] [DialNow collector] [].
Definition demo_emission : result string unit * env :=
  emit_until demo_activity "op-1" Model Succeeded 1 0 (Some (ms 100)) demo_env.
Lemma activity_identity_witness :
  fst demo_emission = Ok tt
  ∧ published demo_activity "op-1" Model Succeeded 1 0 demo_env (snd demo_emission).
Proof.
  split; [by_eval|].
  apply (emission_is_bound_to_config demo_activity "op-1" Model Succeeded 1 0 (Some (ms 100)) demo_env
    (Ok tt) (snd demo_emission)); by_eval.
Defined.

Definition relay_caller : conn :=
  mkConn [RdData (be_bytes 4 1 ++ [0])] [] [] [] (zeros 12) (Some 0).
Definition demo_decode (_ : bytes) : option RelayEvent := Some (mkRelayEvent "op-2" Tool Succeeded 10 0).
Definition demo_relay : result string unit * (conn * env) :=
  relay_one demo_decode demo_activity (relay_caller, demo_env).
Lemma relay_ack_witness :
  is_ok (fst demo_relay) = true ∧ c_out (fst (snd demo_relay)) = frame_of relay_reply.
Proof.
  split; [by_eval|].
  apply (relay_acknowledges_only_published demo_decode demo_activity (relay_caller, demo_env)
    (fst demo_relay) (snd demo_relay)); [by_eval|apply surjective_pairing|by_eval].
Defined.

Lemma activity_paths_witness :
  connect (socket demo_activity) None demo_env = dial_next None demo_env.
Proof. refine (proj1 (validated_paths_connect demo_activity "a" None demo_env _)). by_eval. Defined.

(** ** Configuration *)

Definition demo_model : ModelPolicy := mkModel "m" 3000000 6000000.
Definition demo_policy : LlmPolicy :=
  mkLlm "https://api.test/v1/" "/run/provider" [demo_model] 100 true (mkStreaming true 200 30 30 120) false.
Definition demo_config : Config :=
  mkConfig "a" None (mkSocket (V4 127 0 0 1) 8080) "/run/token" "/log/audit.jsonl" "/state/budget.json"
    100 400 400 60 10 2 60 10 5 1000 2000 1000 (Some demo_policy) None.
Lemma config_sound_witness : sound demo_config.
Proof. apply (validated_config_is_sound demo_config 991). by_eval. Defined.

Lemma credential_path_witness :
  ∃ file, "/run/credentials/token"%string = path_join "/run/credentials" file ∧ file ≠ ".."%string.
Proof.
  destruct (expanded_credential_stays_inside "/run/credentials" "$CREDENTIALS_DIRECTORY/token"
    "/run/credentials/token" ltac:(by_eval) ltac:(by_eval) ltac:(by_eval)) as (file & Hf & _ & Hn & _).
  exists file. split; [exact Hf|exact Hn].
Defined.

(** ** HTTP *)

Definition demo_head : bytes :=
  str_bytes "POST /v1/chat/completions?x HTTP/1.1" ++ [13; 10] ++ str_bytes "Content-Length: 2" ++ [13; 10; 13; 10].
Definition demo_conn : conn :=
  mkConn [RdData (take 20 demo_head); RdData (drop 20 demo_head ++ str_bytes "h"); RdData (str_bytes "i")]
    [] [] [] (zeros 200) None.
Definition demo_read : result string Request * conn := read_request 400 100 (Some 1) demo_conn.
Definition no_request : Request := mkRequest EmptyString EmptyString ∅ [].
Definition demo_req : Request := from_ok no_request (fst demo_read).
Lemma demo_read_ok : read_request 400 100 (Some 1) demo_conn = (Ok demo_req, snd demo_read).
Proof. by_eval. Qed.
Lemma http_framing_witness :
  req_body demo_req = str_bytes "hi" ∧ declares demo_req (blen (req_body demo_req)).
Proof.
  split; [by_eval|].
  destruct (accepted_request_is_framed 400 100 (Some 1) demo_conn demo_req (snd demo_read) demo_read_ok)
    as (head & _ & _ & _ & Hd & _). exact Hd.
Defined.
Lemma http_refines_witness :
  parse_request 400 100 (incoming (c_in demo_conn)) = Ok (demo_req, incoming (c_in (snd demo_read))).
Proof. exact (ingress_refines_parser 400 100 (Some 1) demo_conn demo_req (snd demo_read) demo_read_ok). Defined.
Lemma http_complete_witness : ∃ c', read_request 400 100 (Some 1) demo_conn = (Ok demo_req, c').
Proof.
  apply complete_request_is_accepted; [|by_eval]. unfold healthy, demo_conn. cbn [c_in c_clock].
  split_and!.
  - repeat constructor; eexists; (split; [reflexivity|by_eval]).
  - apply Forall_forall. intros x Hx%elem_of_replicate. destruct Hx as [-> _]. lia.
  - apply Nat.leb_le. by_eval.
Defined.

(** ** Admission *)

Definition llm_request : Request :=
  mkRequest "POST" "/v1/chat/completions"
    (list_to_map [("authorization"%string, "Bearer s3cret"%string); ("content-type"%string, "application/json"%string)])
    (str_bytes "request").
Definition no_admission : LlmAdmission := mkLlmAdmission EmptyString None [] false demo_model EmptyString 0 0 0.
Definition demo_admission : LlmAdmission := from_ok no_admission (admit_llm demo_policy llm_request).
Lemma demo_admission_ok : admit_llm demo_policy llm_request = Ok demo_admission.
Proof. by_eval. Qed.

(** Every number of the toy documents is natural. *)
Lemma demo_naturals : parsed_naturals llm_request.
Proof.
  intros o k v x Hs Hk Hx. vm_compute in Hs. injection Hs as <-.
  cbn [obj_get] in Hk. repeat (destruct (_ =? _)%string; [injection Hk as <-; vm_compute in Hx; by simplify_eq|]).
  done.
Qed.
Lemma reservation_covers_witness :
  ad_estimated_tokens demo_admission = 11
  ∧ within_policy demo_policy llm_request demo_admission ∧ 5 + 2 ≤ ad_estimated_tokens demo_admission
  ∧ ∃ c, estimate_cost (ad_model demo_admission) 5 2 = Some c ∧ c ≤ ad_estimated_cost demo_admission.
Proof.
  split; [by_eval|].
  apply (reservation_covers_usage demo_policy llm_request demo_admission 5 2).
  - by_eval.
  - by_eval.
  - repeat constructor; by_eval.
  - exact demo_naturals.
  - exact demo_admission_ok.
  - by_eval.
  - by_eval.
Defined.

Definition demo_payload : object := match doc_request with Object m => m | _ => [] end.
Lemma strict_local_witness : require_local_tools demo_payload = Ok ().
Proof. apply strict_envelope_is_local. by_eval. Defined.

Definition small_response : upstream_response := mkUpstream 200 None None None (Some [1; 2; 3]).
Lemma read_bounded_witness : u_body small_response = Some [1; 2; 3] ∧ blen [1; 2; 3] ≤ 5.
Proof. apply (read_bounded_is_complete small_response 5 [1; 2; 3]); by_eval. Defined.

(** ** Files *)

Definition private (data : bytes) : inode := mk_inode Regular 384 1000 data.
Definition demo_files : world :=
  mk_world
    (list_to_map [("/run/token"%string, 1); ("/run/provider"%string, 2); ("/log/audit.jsonl"%string, 3); ("/q"%string, 4)])
    (list_to_map [(1, private (str_bytes "s3cret" ++ [10])); (2, private (str_bytes "key"));
                  (3, private (str_bytes "old" ++ [10])); (4, mk_inode Directory 448 1000 [])])
    10 [] 3 [] [1000005; 1000005; 1000005; 1000006; 1000006; 1000007] 1000.

Lemma credential_witness :
  ∃ i n t, lookup_inode demo_files "/run/token" = Some (i, n) ∧ i_data n = str_bytes "s3cret" ++ t.
Proof.
  destruct (secret_is_one_private_line "/run/token" None demo_files "s3cret"
    (snd (read_secret_from "/run/token" None demo_files)) ltac:(by_eval))
    as (_ & i & n & t & Hi & _ & _ & _ & Hd & _).
  exists i, n, t. split; [exact Hi|exact Hd].
Defined.

Definition demo_quarantine : Quarantine := mkQuarantine (mk_fd 9 4) "/q" 10 2.
Definition demo_store : result string unit * world := store demo_quarantine "1-2-3" [7; 8; 9] demo_files.
Lemma demo_files_solid : solid demo_files.
Proof.
  intros p i Hp. apply elem_of_list_to_map_2 in Hp. apply list_elem_of_In in Hp.
  destruct Hp as [[= <- <-]|[[= <- <-]|[[= <- <-]|[[= <- <-]|[]]]]]; eexists; by_eval.
Qed.
Lemma quarantine_witness :
  fst demo_store = Ok tt ∧ bounded_growth demo_quarantine demo_files (snd demo_store)
  ∧ file_data (snd demo_store) "/q/1-2-3" = Some [7; 8; 9].
Proof.
  split; [by_eval|].
  destruct (quarantine_store_is_bounded demo_quarantine "1-2-3" [7; 8; 9] demo_files (fst demo_store) (snd demo_store))
    as (Hb & _ & Hok).
  - apply wfb_sound. by_eval.
  - exact demo_files_solid.
  - by_eval.
  - by_eval.
  - apply surjective_pairing.
  - split; [exact Hb|]. apply Hok. by_eval.
Defined.

Definition demo_audit : Audit := mkAudit "/log/audit.jsonl" 1000.
Definition demo_record : result string unit * world :=
  record demo_audit "a" "llm" "authorized" Null demo_files.
Lemma audit_witness :
  fst demo_record = Ok tt ∧ kept demo_audit (str_bytes "old" ++ [10]) (snd demo_record).
Proof.
  split; [by_eval|].
  apply (audit_is_append_only demo_audit "a" "llm" "authorized" Null (str_bytes "old" ++ [10]) demo_files
    (fst demo_record) (snd demo_record)).
  - by_eval.
  - by_eval.
  - split; [apply wfb_sound; by_eval|]. exists 3, (private (str_bytes "old" ++ [10])). split_and!; by_eval.
  - apply surjective_pairing.
Defined.

(** ** Streams *)

Definition demo_frame : bytes := str_bytes "data: a" ++ [10; 10].
Lemma sse_exact_witness :
  push_all (str_bytes "data: a" ++ [13; 10; 10]) (sse_new 64) = Ok ([demo_frame], sse_new 64)
  ∧ concat [demo_frame] ++ [] = normalize false (str_bytes "data: a" ++ [13; 10; 10]).
Proof.
  assert (push_all (str_bytes "data: a" ++ [13; 10; 10]) (sse_new 64) = Ok ([demo_frame], sse_new 64)) as E by by_eval.
  split; [exact E|].
  pose proof (sse_parser_is_exact 64 (str_bytes "data: a" ++ [13; 10; 10]) ltac:(lia)) as Hs.
  rewrite E in Hs. exact (proj1 Hs).
Defined.
