(* ===== verification/ScenarioBroker.v ===== *)
(** * Scenarios: requests through the broker *)

From S2P Require Import Prelude RustStr Json Posix Budget Limits CrashSafety Policy Net Activity Config Http Envelope Storage Streaming Broker Server Scenarios ScenarioLedger ScenarioParts.

(** ** A strict stream *)

Definition provider_target_demo : ResolvedTarget :=
  mkTarget (mkUrl "https://api.test/v1/chat/completions" "https" "api.test" "/v1/chat/completions") "api.test"
    [mkSocket (V4 93 184 216 34) 443].
Definition demo_stream : StreamingResponse :=
  mkStreamingResponse provider_target_demo "key" None (str_bytes "streaming") (mkStreaming true 200 30 30 120)
    400 demo_audit demo_model "a" "/v1/chat/completions".
Definition stream_text : bytes := str_bytes "data: chunk" ++ [10; 10] ++ str_bytes "data: [DONE]" ++ [10; 10].
Definition demo_upstream : sent :=
  Answered (mkProvider 200 (Some "text/event-stream; charset=utf-8"%string) None
              [Chunk (take 5 stream_text); Chunk (drop 5 stream_text)]).

(** The strict ledger of [ScenarioLedger] with the broker's other files. *)
Definition merge_files (w w' : world) : world :=
  mk_world (w_names w ∪ ((Z.add 100) <$> w_names w')) (w_inodes w ∪ kmap (Z.add 100) (w_inodes w'))
    500 (w_locks w) (w_next_fd w) [] (replicate 20 (T0 + 6)) 1000.
Definition with_files (l : ledger) : ledger := set_world (merge_files (l_world l) demo_files) l.
Definition stream_state : rw :=
  mkRw (with_files in_flight) (Some (mkGuard 10 20 false)) (Some (mkReservation false)) [] [] false Uncertain.
Definition streamed : result string (bool * bool) * rw :=
  write_stream demo_L demo_stream 3 true true demo_upstream stream_state.

Definition settled : result string (result string unit * Outcome) * rw :=
  write_to demo_L demo_stream 3 true true demo_upstream stream_state.

(** ** A strict completion *)

Definition demo_broker : Broker := mkBroker demo_config demo_L demo_audit None.
Definition fresh_hs (l : ledger) (net : list exchange) : hs :=
  mkHs l demo_env net [toy_dns; toy_dns] [4] 77 0 [] None None None.
Definition llm_answer : upstream_response :=
  mkUpstream 200 (Some "application/json"%string) None None (Some (str_bytes "answer")).
Definition llm_state : hs := fresh_hs (with_files at_admission) [Answer llm_answer].
Definition completed : result Failure Response * hs := handle_llm None demo_broker demo_policy llm_request llm_state.
Definition no_response : Response := Response_json 0 Null.


Definition forged : Request :=
  mkRequest "POST" "/v1/chat/completions"
    (list_to_map [("authorization"%string, "Bearer wrong"%string); ("content-type"%string, "application/json"%string)])
    (str_bytes "request").
Definition no_fetch (_ : bytes) : option string := None.
Definition refused_forgery : Response * hs := handle None no_fetch demo_broker forged llm_state.
Lemma auth_witness :
  r_status (fst refused_forgery) = 401
  ∧ (untouched llm_state (snd refused_forgery) ∨ authentic demo_broker forged (l_world (h_ledger llm_state))).
Proof.
  split; [by_eval|].
  apply (only_authentic_requests_act None no_fetch demo_broker forged llm_state _ (fst refused_forgery));
    [by split_and!|apply surjective_pairing].
Defined.

(** ** A fetch with one redirect *)

Definition fetch_policy : FetchPolicy :=
  mkFetch ["docs.test"%string] ["text/plain"%string] "/q" 100 4 3.
Definition fetch_config : Config :=
  mkConfig "a" None (mkSocket (V4 127 0 0 1) 8080) "/run/token" "/log/audit.jsonl" "/state/legacy.json"
    100 400 400 60 10 2 60 10 5 1000 2000 1000 None (Some fetch_policy).
Definition legacy_L : Limits := mkLimits "/state/legacy.json" 60 10 5 1000 2000 None None.
Definition fetch_broker : Broker := mkBroker fetch_config legacy_L demo_audit (Some demo_quarantine).
Definition fetch_state : hs :=
  fresh_hs (mkLedger BudgetState_default (mkRate 0 0) 0 false false demo_files)
    [Answer (mkUpstream 302 None (Some "https://docs.test/b"%string) None (Some []));
     Answer (mkUpstream 200 (Some "Text/Plain; charset=utf-8"%string) None None (Some (str_bytes "hello")))].
Definition fetch_req : Request :=
  mkRequest "POST" "/v1/fetch"
    (list_to_map [("authorization"%string, "Bearer s3cret"%string); ("content-type"%string, "application/json"%string)])
    (str_bytes "fetch").
Definition demo_decode_fetch (b : bytes) : option string := Some "https://docs.test/a"%string.
Definition fetched_demo : result Failure Response * hs :=
  handle_fetch None demo_decode_fetch fetch_broker fetch_policy fetch_req fetch_state.

(** ** The server *)

Definition one_running : server := mkServer 1 None 1 0.
Lemma one_running_reachable : server_reachable 2 one_running.
Proof.
  eapply rtc_l; [by apply SAccept|]. eapply rtc_once.
  change one_running with (mkServer (active (fetch_add server_init)) None 1 0).
  by apply (SSpawn 2 (fetch_add server_init) 0).
Qed.
Lemma concurrency_witness :
  ∃ s', rtc (server_step 2) one_running s' ∧ running s' = 2%nat ∧ refused s' = 0%nat.
Proof.
  destruct (concurrency_limit_is_exact 2 one_running ltac:(unfold u64_max; lia) one_running_reachable)
    as (_ & _ & Hnext).
  apply Hnext; by_eval.
Defined.

Definition demo_response : Response := from_ok no_response (fst completed).
Definition no_script : stream_script := mkScript [] 0 true true ClientError.
Definition delivery : cs := mkCs (snd completed) (mkConn [] [WrSome 7] [] [] [] None) no_script.
Definition delivered : result string unit * cs := write_response demo_L demo_response delivery.
Lemma response_settle_witness :
  fst delivered = Ok tt ∧ unsettled (l_budget (h_ledger (c_hs (snd delivered)))) = Some 0
  ∧ ((c_out (c_conn (snd delivered)) = c_out (c_conn delivery) ++ full_response demo_response
      ∧ h_ledger (c_hs (snd delivered)) = snd (settle demo_L (mkReservation true) (h_ledger (c_hs delivery))))
     ∨ fst delivered ≠ Ok tt).
Proof.
  split; [by_eval|]. split; [by_eval|].
  destruct (settlement_follows_delivery demo_L demo_response delivery (snd delivered) (fst delivered))
    as [[Ho Hl]|[Hr _]].
  - by_eval.
  - intros x Hx. vm_compute in Hx. injection Hx as <-. reflexivity.
  - apply surjective_pairing.
  - left. split; [exact Ho|].
    assert (r_settlement demo_response = Some (mkReservation true)) as E by by_eval. rewrite E in Hl. exact Hl.
  - right. exact Hr.
Defined.

Definition connection : cs := mkCs llm_state demo_conn no_script.
Definition demo_conn_settings : ConnectionSettings := mkConnSettings 60 2 400 100.
Lemma connection_witness :
  (∃ req rest, parse_request 400 100 (incoming (c_in demo_conn)) = Ok (req, rest)
               ∧ authentic demo_broker req (l_world (h_ledger llm_state)))
  ∨ untouched llm_state (c_hs (handle_connection None no_fetch demo_broker demo_conn_settings (Some 1) connection)).
Proof.
  destruct (connection_acts_only_for_authentic_requests None no_fetch demo_broker demo_conn_settings (Some 1)
    connection ltac:(by split_and!)) as [Hu|Ha].
  - right. exact Hu.
  - left. exact Ha.
Defined.
