(* ===== verification/ScenarioCodec.v ===== *)
(** * Scenarios: a codec for the control plane and the workload registry

    A self-delimiting byte format for JSON values with its parser, and from it
    concrete instances of [SerdeJson], [ControlCrates] and [WorkloadCodec] that
    satisfy the laws assumed of those crates.  Only the scenarios use them. *)

From S2P Require Import Prelude RustStr Json Posix Budget PrivateStore Process Template ControlData Engine Receipts EngineSpec Workloads Generations Scenarios.

(** ** Values as bytes *)

Fixpoint put_pos (p : positive) : bytes :=
  match p with xH => [2] | xO p => 0 :: put_pos p | xI p => 1 :: put_pos p end.
Definition put_z (z : Z) : bytes :=
  match z with Z0 => [0] | Zpos p => 1 :: put_pos p | Zneg p => 2 :: put_pos p end.
Fixpoint put_str (s : string) : bytes :=
  match s with EmptyString => [0] | String a s => 1 :: byte_of a :: put_str s end.
Fixpoint put (v : value) : bytes :=
  match v with
  | Null => [0]
  | Bool b => [1; if b then 1 else 0]
  | Number (PosInt n) => 2 :: put_z n
  | Number (NegInt n) => 3 :: put_z n
  | Number (Float n) => 4 :: put_z n
  | Str s => 5 :: put_str s
  | Array l => 6 :: concat (map (λ x, 1 :: put x) l) ++ [0]
  | Object m => 7 :: concat (map (λ kx, 1 :: put_str (fst kx) ++ put (snd kx)) m) ++ [0]
  end.

Fixpoint get_pos (l : bytes) : option (positive * bytes) :=
  match l with
  | 2 :: l => Some (xH, l)
  | 0 :: l => '(p, l) ← get_pos l; Some (xO p, l)
  | 1 :: l => '(p, l) ← get_pos l; Some (xI p, l)
  | _ => None
  end.
Definition get_z (l : bytes) : option (Z * bytes) :=
  match l with
  | 0 :: l => Some (0, l)
  | 1 :: l => '(p, l) ← get_pos l; Some (Zpos p, l)
  | 2 :: l => '(p, l) ← get_pos l; Some (Zneg p, l)
  | _ => None
  end.
Fixpoint get_str (l : bytes) : option (string * bytes) :=
  match l with
  | 0 :: l => Some (EmptyString, l)
  | 1 :: b :: l => '(s, l) ← get_str l; Some (String (ascii_of b) s, l)
  | _ => None
  end.
Fixpoint get_value (n : nat) (l : bytes) : option (value * bytes) :=
  match n with
  | O => None
  | S n =>
      match l with
      | 0 :: l => Some (Null, l)
      | 1 :: b :: l => Some (Bool (b =? 1), l)
      | 2 :: l => '(z, l) ← get_z l; Some (Number (PosInt z), l)
      | 3 :: l => '(z, l) ← get_z l; Some (Number (NegInt z), l)
      | 4 :: l => '(z, l) ← get_z l; Some (Number (Float z), l)
      | 5 :: l => '(s, l) ← get_str l; Some (Str s, l)
      | 6 :: l => '(vs, l) ← get_items n l; Some (Array vs, l)
      | 7 :: l => '(es, l) ← get_entries n l; Some (Object es, l)
      | _ => None
      end
  end
with get_items (n : nat) (l : bytes) : option (list value * bytes) :=
  match n with
  | O => None
  | S n =>
      match l with
      | 0 :: l => Some ([], l)
      | 1 :: l => '(v, l) ← get_value n l; '(vs, l) ← get_items n l; Some (v :: vs, l)
      | _ => None
      end
  end
with get_entries (n : nat) (l : bytes) : option (object * bytes) :=
  match n with
  | O => None
  | S n =>
      match l with
      | 0 :: l => Some ([], l)
      | 1 :: l => '(k, l) ← get_str l; '(v, l) ← get_value n l; '(es, l) ← get_entries n l; Some ((k, v) :: es, l)
      | _ => None
      end
  end.
Definition get_doc (l : bytes) : option value :=
  match get_value (S (length l)) l with Some (v, []) => Some v | _ => None end.

Lemma get_pos_put p l : get_pos (put_pos p ++ l) = Some (p, l).
Proof. induction p as [p IH|p IH|]; simpl; rewrite ?IH; done. Qed.
Lemma get_z_put z l : get_z (put_z z ++ l) = Some (z, l).
Proof. destruct z as [|p|p]; simpl; rewrite ?get_pos_put; done. Qed.
Lemma get_str_put s l : get_str (put_str s ++ l) = Some (s, l).
Proof. induction s as [|a s IH]; simpl; [done|]. rewrite IH. simpl. by rewrite ascii_of_byte_of. Qed.

Definition reads_back (v : value) : Prop :=
  ∀ n l, (length (put v) ≤ n)%nat → get_value n (put v ++ l) = Some (v, l).
Lemma get_items_put vs : Forall reads_back vs → ∀ n l,
  (length (concat (map (λ x, 1%Z :: put x) vs)) < n)%nat →
  get_items n (concat (map (λ x, 1 :: put x) vs) ++ 0 :: l) = Some (vs, l).
Proof.
  induction 1 as [|v vs Hv _ IH]; intros [|n] l Hn; try lia; [done|].
  cbn [map concat] in *. rewrite length_app, length_cons in Hn. cbn [app get_items].
  rewrite <-app_assoc, (Hv n) by lia. cbn [mbind option_bind]. by rewrite IH by lia.
Qed.
Lemma get_entries_put es : Forall (λ kv, reads_back (snd kv)) es → ∀ n l,
  (length (concat (map (λ kx, 1%Z :: put_str (fst kx) ++ put (snd kx)) es)) < n)%nat →
  get_entries n (concat (map (λ kx, 1 :: put_str (fst kx) ++ put (snd kx)) es) ++ 0 :: l) = Some (es, l).
Proof.
  induction 1 as [|[k v] es Hv _ IH]; intros [|n] l Hn; try lia; [done|].
  cbn [map concat fst snd] in *. rewrite length_app, length_cons, length_app in Hn. cbn [app get_entries].
  rewrite <-!app_assoc, get_str_put. cbn [mbind option_bind]. rewrite (Hv n) by lia. cbn [mbind option_bind].
  by rewrite IH by lia.
Qed.
Lemma put_reads_back v : reads_back v.
Proof.
  induction v as [|b|x|s|vs IH|es IH] using value_rect'; intros [|n] l Hn;
    try (destruct x as [x|x|x]); cbn [put app get_value length] in *; try lia; try done.
  - by destruct b.
  - by rewrite get_z_put.
  - by rewrite get_z_put.
  - by rewrite get_z_put.
  - by rewrite get_str_put.
  - rewrite length_app in Hn. rewrite <-app_assoc. cbn [app length] in *. by rewrite get_items_put by (done || lia).
  - rewrite length_app in Hn. rewrite <-app_assoc. cbn [app length] in *. by rewrite get_entries_put by (done || lia).
Qed.
Lemma get_put v : get_doc (put v) = Some v.
Proof. unfold get_doc. rewrite <-(app_nil_r (put v)) at 2. by rewrite put_reads_back by lia. Qed.
Lemma put_inj v v' : put v = put v' → v = v'.
Proof. intros E. pose proof (get_put v) as H. rewrite E, get_put in H. by injection H. Qed.

Lemma put_pos_ok p : bytes_ok (put_pos p).
Proof. induction p; simpl; constructor; try done; unfold byte_ok; lia. Qed.
Lemma put_str_ok s : bytes_ok (put_str s).
Proof.
  induction s as [|a s IH]; simpl; repeat constructor; try (unfold byte_ok; lia); try done; apply byte_of_ok.
Qed.
Lemma put_z_ok z : bytes_ok (put_z z).
Proof. destruct z; simpl; constructor; try apply put_pos_ok; try constructor; unfold byte_ok; lia. Qed.
Lemma bytes_ok_cons b l : 0 ≤ b < 256 → bytes_ok l → bytes_ok (b :: l).
Proof. by constructor. Qed.
Lemma put_ok v : bytes_ok (put v).
Proof.
  induction v as [|b|x|s|vs IH|es IH] using value_rect'; try (destruct x as [x|x|x]); cbn [put];
    apply bytes_ok_cons; try lia; try apply put_z_ok; try apply put_str_ok.
  - constructor.
  - apply bytes_ok_cons; [destruct b; lia|constructor].
  - apply Forall_app. split; [|repeat constructor; unfold byte_ok; lia].
    induction IH; cbn [map concat]; [constructor|]. apply Forall_app. split; [|done]. by apply bytes_ok_cons.
  - apply Forall_app. split; [|repeat constructor; unfold byte_ok; lia].
    induction IH; cbn [map concat]; [constructor|]. apply Forall_app. split; [|done].
    apply bytes_ok_cons; [lia|]. apply Forall_app. split; [apply put_str_ok|done].
Qed.
(** The same as text. *)
Definition text (v : value) : string := bytes_str (put v).
Definition of_text (s : string) : option value := get_doc (str_bytes s).
Lemma of_text_text v : of_text (text v) = Some v.
Proof. unfold of_text, text. rewrite str_bytes_bytes_str by apply put_ok. apply get_put. Qed.
Lemma text_inj v v' : text v = text v' → v = v'.
Proof. intros E. pose proof (of_text_text v) as H. rewrite E, of_text_text in H. by injection H. Qed.

(** ** Data as values *)

Class Codec (A : Type) : Type := {
  enc : A → value;
  dec : value → option A;
  dec_enc a : dec (enc a) = Some a;
}.
#[export] Instance codec_value : Codec value.
Proof. by refine {| enc v := v; dec v := Some v |}. Defined.
#[export] Instance codec_string : Codec string.
Proof. by refine {| enc s := Str s; dec v := match v with Str s => Some s | _ => None end |}. Defined.
#[export] Instance codec_Z : Codec Z.
Proof. by refine {| enc z := num z; dec v := match v with Number (PosInt z) => Some z | _ => None end |}. Defined.
#[export] Instance codec_prod {A B} `{Codec A} `{Codec B} : Codec (A * B).
Proof.
  refine {| enc p := Array [enc (fst p); enc (snd p)];
            dec v := match v with Array [x; y] => a ← dec x; b ← dec y; Some (a, b) | _ => None end |}.
  intros [a b]. simpl. by rewrite !dec_enc.
Defined.
#[export] Instance codec_list {A} `{Codec A} : Codec (list A).
Proof.
  refine {| enc l := Array (map enc l); dec v := match v with Array l => sequence (map dec l) | _ => None end |}.
  induction a as [|a l IH]; simpl in *; [done|]. by rewrite dec_enc, IH.
Defined.
#[export] Instance codec_option {A} `{Codec A} : Codec (option A).
Proof.
  refine {| enc o := Array (match o with Some a => [enc a] | None => [] end);
            dec v := match v with Array [] => Some None | Array [x] => Some <$> dec x | _ => None end |}.
  intros [a|]; simpl; by rewrite ?dec_enc.
Defined.
(** A type that another one represents. *)
Definition codec_via {A B} `{Codec B} (f : A → B) (g : B → A) (gf : ∀ a, g (f a) = a) : Codec A.
Proof.
  refine {| enc a := enc (f a); dec v := g <$> dec v |}. intros a. rewrite dec_enc. simpl. by rewrite gf.
Defined.
#[export] Instance codec_map {A} `{Codec A} : Codec (gmap string A).
Proof. refine (codec_via (B := list (string * A)) map_to_list list_to_map _). intros m. apply list_to_map_to_list. Defined.

#[export] Instance codec_hashes : Codec Hashes.
Proof.
  by refine (codec_via (λ h, (h_policy h, h_compiler h, h_inputs h)) (λ '(p, c, i), mkHashes p c i) _); intros [].
Defined.
#[export] Instance codec_proposal : Codec Proposal.
Proof.
  by refine (codec_via (λ p, (pr_id p, pr_base_revision p, pr_revision p, pr_configuration p, pr_changes p, pr_hashes p, pr_state p))
    (λ '(i, b, r, c, ch, h, s), mkProposal i b r c ch h s) _); intros [].
Defined.
#[export] Instance codec_candidate : Codec Candidate.
Proof.
  by refine (codec_via (λ c, (cd_proposal c, cd_base_configuration c, cd_toml c)) (λ '(p, b, t), mkCandidate p b t) _); intros [].
Defined.
#[export] Instance codec_approval : Codec Approval.
Proof.
  by refine (codec_via (λ a, (ap_id a, ap_proposal_id a, ap_base_revision a, ap_revision a, ap_hashes a))
    (λ '(i, p, b, r, h), mkApproval i p b r h) _); intros [].
Defined.
#[export] Instance codec_build : Codec Build.
Proof.
  by refine (codec_via (λ b, (bu_id b, bu_proposal_id b, bu_revision b, bu_state b, bu_output_path b, bu_error b))
    (λ '(i, p, r, s, o, e), mkBuild i p r s o e) _); intros [].
Defined.
#[export] Instance codec_intent : Codec Intent.
Proof. by refine (codec_via (λ i, (in_build i, in_approval_id i, in_hashes i)) (λ '(b, a, h), mkIntent b a h) _); intros []. Defined.
#[export] Instance codec_record : Codec RequestRecord.
Proof. by refine (codec_via (λ r, (rr_fingerprint r, rr_kind r, rr_id r)) (λ '(f, k, i), mkRecord f k i) _); intros []. Defined.
#[export] Instance codec_state : Codec State.
Proof.
  by refine (codec_via (λ s, (st_schema_version s, st_proposals s, st_approvals s, st_builds s, st_requests s))
    (λ '(v, p, a, b, r), mkState v p a b r) _); intros [].
Defined.
#[export] Instance codec_binding : Codec Binding.
Proof.
  by refine (codec_via (λ b, (tenant_id b, agent_id b, workload_id b, policy_revision b, unit_name b))
    (λ '(t, a, w, p, u), mkBinding t a w p u) _); intros [].
Defined.
#[export] Instance codec_policy : Codec Policy.
Proof.
  by refine (codec_via (λ p, (po_version p, po_docker p, po_systemctl p, po_bindings p))
    (λ '(v, d, s, b), mkPolicy v d s b) _); intros [].
Defined.
#[export] Instance codec_identity : Codec Identity.
Proof.
  by refine (codec_via (λ i, (kernel_boot_id i, container_id i, pid i, start_ticks i, cgroup i, cgroup_inode i))
    (λ '(k, c, p, t, g, n), mkIdentity k c p t g n) _); intros [].
Defined.
#[export] Instance codec_entry : Codec Entry.
Proof. by refine (codec_via (λ e, (en_fingerprint e, en_generation e)) (λ '(f, g), mkEntry f g) _); intros []. Defined.
#[export] Instance codec_authority : Codec Authority.
Proof.
  by refine (codec_via (λ a, (au_version a, au_counter a, au_entries a)) (λ '(v, c, e), mkAuthority v c e) _); intros [].
Defined.
#[export] Instance codec_manifest : Codec Manifest.
Proof.
  by refine (codec_via (λ m, (mf_state m, mf_binding m, mf_generation m, mf_verified_at_ms m, mf_identity m))
    (λ '(s, b, g, t, i), mkManifest s b g t i) _); intros [].
Defined.

Definition pack {A} `{Codec A} (a : A) : bytes := put (enc a).
Definition unpack {A} `{Codec A} (b : bytes) : option A := get_doc b ≫= dec.
Lemma unpack_pack {A} `{Codec A} (a : A) : unpack (pack a) = Some a.
Proof. unfold unpack, pack. rewrite get_put. simpl. apply dec_enc. Qed.
Lemma enc_inj {A} `{Codec A} (a b : A) : enc a = enc b → a = b.
Proof. intros E. pose proof (dec_enc a) as H1. rewrite E, dec_enc in H1. by injection H1. Qed.

(** ** The crates *)

Fixpoint raw_of (v : value) : raw :=
  match v with
  | Null => RNull
  | Bool b => RBool b
  | Number n => RNumber n
  | Str s => RStr s
  | Array l => RSeq (map raw_of l)
  | Object m => RMap (map (λ kv, (fst kv, raw_of (snd kv))) m)
  end.
#[export] Instance codec_json : SerdeJson := {| from_slice := get_doc; to_vec := put |}.
(** A digest of the right shape: 31 zeros and a checksum. *)
Definition checksum32 (l : bytes) : bytes := replicate 31 0 ++ [foldl Z.add 0 l mod 256].
#[export] Instance codec_sha2 : Sha2 := {| sha2 := checksum32 |}.
#[export] Instance codec_sha2_laws : Sha2Laws.
Proof.
  split. intros l. split; [done|]. apply Forall_app. split.
  - apply Forall_replicate. unfold byte_ok. lia.
  - repeat constructor; apply Z.mod_pos_bound; lia.
Qed.

#[export] Instance control_crates : ControlCrates := {|
  parse_raw b := raw_of <$> get_doc b;
  config_from_slice _ := None;
  state_to_vec s := Some (pack s);
  state_from_slice := unpack;
  to_document v := Some (text v);
  toml_from_str := of_text |}.
#[export] Instance control_laws : ControlLaws.
Proof.
  split.
  - intros s b [= <-]. exists s. split; [apply unpack_pack|]. split; try done.
    intros id. destruct (st_proposals s !! id); constructor. by split.
  - intros s b [= <-] _. apply unpack_pack.
  - intros v t [= <-]. exists v. split; [apply of_text_text|]. apply value_eqb_refl.
Qed.

#[export] Instance workload_codec : WorkloadCodec := {|
  policy_from_slice := unpack;
  authority_to_vec a := Some (pack a);
  authority_from_slice := unpack;
  manifest_to_vec m := Some (pack m);
  fingerprint_of b i := Some (text (enc (b, i))) |}.
#[export] Instance workload_laws : WorkloadLaws.
Proof.
  split.
  - intros a b [= <-]. apply unpack_pack.
  - intros b i b' i' s. unfold fingerprint_of, workload_codec. intros Es Es'.
    assert (text (enc (b', i')) = text (enc (b, i))) as E%text_inj%enc_inj by congruence. by injection E.
Qed.
