(* ===== verification/ScenarioControl.v ===== *)
(** * Scenarios: the control plane from a proposal to a built system *)

From S2P Require Import Prelude RustStr Json Posix Budget PrivateStore Process Template ControlData Engine Receipts EngineSpec ControlRun ControlTransport ControlServe Sockets Scenarios ScenarioCodec.

(** ** A deployment *)

Definition root_dir : inode := mk_inode Directory 493 0 [].
Definition store_dir : inode := mk_inode Directory 365 0 [].
Definition store_file (mode : Z) (data : bytes) : inode := mk_inode Regular mode 0 data.
Definition template_files : list tfile :=
  [mkFile "flake.lock" (str_bytes "locked") 0; mkFile "flake.nix" (str_bytes "outputs") 0;
   mkFile "tentaflake.toml" (str_bytes "template") 0].
Definition schema : bytes := put (json_obj []).
Definition disk_image : list (string * inode) :=
  [("/"%string, root_dir); ("/nix"%string, root_dir); ("/nix/store"%string, root_dir);
   ("/nix/store/normalizer"%string, store_file 365 (str_bytes "normalizer"));
   ("/nix/store/schema"%string, store_file 292 schema);
   ("/nix/store/nix"%string, store_file 365 (str_bytes "nix"));
   ("/nix/store/template"%string, store_dir);
   ("/nix/store/template/flake.lock"%string, store_file 292 (str_bytes "locked"));
   ("/nix/store/template/flake.nix"%string, store_file 292 (str_bytes "outputs"));
   ("/nix/store/template/tentaflake.toml"%string, store_file 292 (str_bytes "template"));
   ("/etc"%string, root_dir); ("/etc/tentaflake.toml"%string, store_file 292 (str_bytes "base"));
   ("/var"%string, root_dir); ("/var/control"%string, mk_inode Directory 448 1000 []);
   ("/run"%string, root_dir); ("/run/control"%string, mk_inode Directory 493 1000 []);
   ("/run/control/control.sock"%string, mk_inode Socket 438 1000 [])].
Definition numbered_image : list (Z * (string * inode)) := imap (λ i x, (Z.of_nat i, x)) disk_image.
Definition disk0 : world :=
  mk_world (list_to_map ((λ '(i, (p, _)), (p, i)) <$> numbered_image))
    (list_to_map ((λ '(i, (_, n)), (i, n)) <$> numbered_image)) 100 [] 3 [] [] 1000.

Definition demo_builder : Builder :=
  mkBuilder "/nix/store/template" (hash_inventory template_files) "/nix/store/nix" "host" 60.
Definition control_config : ControlConfig :=
  mkControl "/etc/tentaflake.toml" "/nix/store/normalizer" "/nix/store/schema" "/var/control" "/run/control/control.sock"
    1000 [mkPeer 1 [RRead; RPropose]; mkPeer 2 [RApprove]; mkPeer 3 [RBuild]]
    (mkHashes (digest []) (digest (str_bytes "normalizer")) (digest (str_bytes "locked"))) Balanced (Some demo_builder).
Definition reviewed : Hashes :=
  mkHashes (revision (policy_value control_config schema)) (h_compiler (c_hashes control_config))
    (h_inputs (c_hashes control_config)).

(** What the normalizer and the builder print. *)
Definition prints (v : value) : child :=
  mkChild true true
    [mkRound (PData (put v)) PAgain false (Ok None); mkRound (PData []) (PData []) false (Ok (Some true))] [].
Definition base_value : value := json_obj [("sandbox"%string, json_obj [("profile"%string, Str "balanced")])].
Definition wanted_value : value := json_obj [("sandbox"%string, json_obj [("profile"%string, Str "strict")])].
Definition system_path : string := "/nix/store/0123456789abcdfghijklmnpqrsvwxyz-system".
Definition nix_output : value :=
  Array [json_obj [("outputs"%string, json_obj [("out"%string, Str system_path)])]].
Definition host0 : host :=
  mkHost disk0 [prints base_value; prints wanted_value; prints base_value; prints base_value; prints base_value;
                prints nix_output] [].

(** ** The requests *)

Definition propose_body : bytes := put (draft_value (mkDraft "r1" (revision base_value) wanted_value)).
Definition approve_body : bytes :=
  put (approve_value (mkApprove "r2" (revision base_value) (revision wanted_value) reviewed)).
Definition build_body : bytes :=
  put (build_request_value (mkBuildRequest "r3" "p_r1" "a_r2" (revision wanted_value) reviewed)).
Definition PROPOSE : string := "/v1/system/proposals".
Definition APPROVE : string := "/v1/system/proposals/p_r1/approve".
Definition BUILD : string := "/v1/system/builds".

Definition no_deployment : deployment * State :=
  (mkDeployment control_config (mkPrivateDir EmptyString (mk_fd 0 0)) (mkPrivateDir EmptyString (mk_fd 0 0)), State_default).
Definition opened := engine_open control_config host0.
Definition D : deployment := fst (from_ok no_deployment (fst opened)).
Definition e0 : Engine := mkEngine (snd opened) (snd (from_ok no_deployment (fst opened))) false.
Definition proposed := handle D 1 "POST" PROPOSE propose_body e0.
Definition approved := handle D 2 "POST" APPROVE approve_body (snd proposed).
Definition requested_build := handle D 3 "POST" BUILD build_body (snd approved).
Definition e3 : Engine := snd requested_build.
Definition claimed_build := claim D e3.


(** ** Runs *)

#[local] Strategy 1000 [engine_open handle claim execute finish worker_iteration read_message serve_connection].

Lemma opened_ok : engine_open control_config host0 = (Ok (D, en_state e0), en_host e0).
Proof.
  rewrite (computed no_deployment (engine_open control_config host0)) by by_eval. unfold e0, D, opened. cbn [en_state en_host].
  by rewrite <-surjective_pairing.
Qed.
Lemma run0 : run "/var/control" (Running control_config D e0 Idle) [].
Proof.
  apply (run_start _ control_config host0 D (en_state e0) (en_host e0)); [|done|exact opened_ok].
  apply run_init; [apply wfb_sound; by_eval|by_eval].
Qed.
Definition call1 : event := Called (mkCall control_config 1 "POST" PROPOSE propose_body).
Definition call2 : event := Called (mkCall control_config 2 "POST" APPROVE approve_body).
Definition call3 : event := Called (mkCall control_config 3 "POST" BUILD build_body).
Lemma run1 : run "/var/control" (Running control_config D (snd proposed) Idle) [call1].
Proof. exact (run_handle _ _ _ _ _ _ 1 "POST" PROPOSE propose_body _ _ run0 (surjective_pairing proposed)). Qed.
Lemma run2 : run "/var/control" (Running control_config D (snd approved) Idle) [call2; call1].
Proof. exact (run_handle _ _ _ _ _ _ 2 "POST" APPROVE approve_body _ _ run1 (surjective_pairing approved)). Qed.
Lemma run3 : run "/var/control" (Running control_config D e3 Idle) [call3; call2; call1].
Proof. exact (run_handle _ _ _ _ _ _ 3 "POST" BUILD build_body _ _ run2 (surjective_pairing requested_build)). Qed.

Definition no_work : Work := mkWork EmptyString EmptyString EmptyString demo_builder EmptyString EmptyString EmptyString.
Definition work : Work := default no_work (from_ok None (fst claimed_build)).
Lemma claimed_ok : claim D e3 = (Ok (Some work), snd claimed_build).
Proof.
  rewrite (computed None (claim D e3)) by by_eval. unfold work, claimed_build.
  destruct (from_ok None (fst (claim D e3))) eqn:E; [done|]. exfalso. revert E. by_eval.
Qed.
Definition released_build : event := Dispatched control_config work "a_r2".
Definition executed_build := execute work (en_host (snd claimed_build)).
Lemma run4 : run "/var/control" (Running control_config D (snd claimed_build) (Claimed work)) [released_build; call3; call2; call1].
Proof.
  pose proof (run_claim _ _ _ _ _ _ _ run3 claimed_ok) as H. cbn [claim_job claim_events app] in H.
  replace (granted (en_state e3) work) with "a_r2"%string in H by by_eval. exact H.
Qed.

Lemma control_valid_witness :
  en_poisoned e3 = false
  ∧ linked (en_state e3) ∧ stored (state_receipts "/var/control") (h_world (en_host e3)) (en_state e3).
Proof.
  assert (en_poisoned e3 = false) as Hp by by_eval. split; [exact Hp|].
  destruct (control_receipts_valid "/var/control" _ _ run3) as (s & L & [St E] & _).
  destruct (E Hp). split; [exact L|exact St].
Defined.
Lemma control_once_witness : NoDup (grants [released_build; call3; call2; call1]).
Proof. exact (control_approval_spent_once "/var/control" _ _ run4). Defined.

Lemma proposed_ok : handle D 1 "POST" PROPOSE propose_body e0 = (Ok (from_ok Null (fst proposed)), snd proposed).
Proof. apply computed. by_eval. Qed.
Lemma control_ack_witness :
  stored (state_receipts "/var/control") (h_world (en_host (snd proposed))) (en_state (snd proposed))
  ∧ replies (en_state (snd proposed)) (from_ok Null (fst proposed)).
Proof. exact (control_acknowledged_is_durable "/var/control" _ _ _ _ _ _ _ _ _ _ run0 proposed_ok). Defined.

(** The disk fails while the receipts are replaced: the engine closes. *)
Definition failing : host := set_world (set_faults (replicate 80 None ++ [Some 1%nat]) (h_world (en_host e0))) (en_host e0).
Definition refused_call := handle D 1 "POST" PROPOSE propose_body (set_host failing e0).
Lemma run_failing : run "/var/control" (Running control_config D (set_host failing e0) Idle) [].
Proof.
  apply (run_environment _ _ failing _ run0). apply same_fs_keeps; [apply wfb_sound; by_eval|]. apply same_fs_faults.
Qed.
Lemma computed_error {E A S} (d : E) (p : result E A * S) : is_ok (fst p) = false →
  p = (Err (match fst p with Err x => x | Ok _ => d end), snd p).
Proof. by destruct p as [[]]. Qed.
Lemma refused_call_fails : ∃ x, handle D 1 "POST" PROPOSE propose_body (set_host failing e0) = (Err x, snd refused_call).
Proof. eexists. apply (computed_error conflict refused_call). by_eval. Qed.
Lemma control_error_witness :
  en_poisoned (snd refused_call) = true
  ∧ claim D (snd refused_call) = (Err "state unavailable"%string, snd refused_call).
Proof.
  assert (en_poisoned (snd refused_call) = true) as Hp by by_eval. split; [exact Hp|].
  destruct refused_call_fails as [x Hx].
  destruct (control_error_closes "/var/control" control_config D (set_host failing e0) Idle [] 1 "POST" PROPOSE
    propose_body x (snd refused_call) run_failing Hx) as [(_ & Hn & _)|(_ & _ & _ & Hc)].
  - rewrite Hp in Hn. discriminate Hn.
  - exact Hc.
Defined.

Definition propose_fingerprint : string :=
  request_fingerprint PROPOSE (draft_value (mkDraft "r1" (revision base_value) wanted_value)).
Lemma control_replay_witness :
  handle D 1 "POST" PROPOSE propose_body e3 = (response (en_state e3) "proposal" "p_r1", e3).
Proof.
  destruct (control_replay_is_idempotent "/var/control" control_config D e3 Idle [call3; call2; call1] 1 PROPOSE propose_body
    RPropose "r1" propose_fingerprint (mkRecord propose_fingerprint "proposal" "p_r1") run3
    ltac:(by_eval) ltac:(by_eval) ltac:(by_eval) ltac:(by_eval)) as [H _].
  cbn [rr_fingerprint rr_kind rr_id] in H. rewrite String.eqb_refl in H. exact H.
Defined.

Definition iteration := worker_iteration D e3.
Lemma control_live_witness : completes (en_state e3) (en_state (snd iteration)).
Proof.
  pose proof (control_worker_progress "/var/control" control_config D e3 [call3; call2; call1] (fst iteration) (snd iteration)
    run3 ltac:(by_eval) ltac:(by_eval) (surjective_pairing iteration)) as H.
  assert (is_ok (fst iteration) = true) as Ho by by_eval. destruct (fst iteration); [exact H|discriminate Ho].
Defined.


(** ** Data *)

Lemma fingerprint_witness :
  template_files = template_files ∨ ∃ x y : bytes, x ≠ y ∧ sha2 x = sha2 y.
Proof.
  apply (template_fingerprint_unambiguous template_files template_files); [..|reflexivity];
    repeat constructor; by_eval.
Defined.
Lemma diff_witness : diff base_value wanted_value EmptyString = [] ↔ value_eqb base_value wanted_value = true.
Proof. apply diff_empty_iff_equal; by_eval. Defined.

(** ** The socket *)

Definition wire : bytes := request_bytes "POST" PROPOSE propose_body.
Definition client_conn : conn := mkConn true (Some 1) [Chunk (take 30 wire); RxAgain; Chunk (drop 30 wire)] true.
Definition received := read_message MAX_DOCUMENT true (cn_rx client_conn).
Definition message : Message := from_ok (mkMessage EmptyString []) (fst received).
Lemma received_ok : read_message MAX_DOCUMENT true (cn_rx client_conn) = (Ok message, snd received).
Proof. apply (computed (mkMessage EmptyString []) received). by_eval. Qed.
Lemma framing_witness :
  ∃ header, wire = header ++ propose_body ++ [] ∧ bytes_end_with END_OF_HEADERS header = true.
Proof.
  destruct (message_framing MAX_DOCUMENT true (cn_rx client_conn) message (snd received) received_ok) as (header & Hd & _ & He & _).
  exists header. split; [|exact He].
  replace (rx_data (snd received)) with (@nil Z) in Hd by by_eval.
  replace (ms_body message) with propose_body in Hd by by_eval.
  rewrite <-Hd. by_eval.
Defined.
Lemma roundtrip_witness :
  serve_connection D client_conn e0 =
    (r ← attempt (handle D 1 "POST" PROPOSE propose_body); lift (answer true r)) e0.
Proof.
  apply (request_roundtrip D client_conn e0 1 "POST" PROPOSE propose_body).
  - by_eval.
  - by_eval.
  - by_eval.
  - by_eval.
  - by_eval.
  - repeat constructor; by_eval.
  - by_eval.
Defined.
Definition served := serve_connection D client_conn e0.
Lemma served_pair : serve_connection D client_conn e0 = (fst served, snd served).
Proof. unfold served. apply surjective_pairing. Qed.
Lemma peers_witness :
  snd served = e0 ∨ ∃ uid method route body x, carries D client_conn uid method route body
    ∧ handle D uid method route body e0 = (x, snd served).
Proof. exact (connection_handles_known_peers D client_conn e0 (fst served) (snd served) served_pair). Defined.

(** ** The service: three peers bring a build about over its socket *)

Definition from_peer (uid : Z) (route : string) (body : bytes) : turn :=
  Accepted (Ok (mkConn true (Some uid) [Chunk (request_bytes "POST" route body)] true)).
Definition service_turns : list turn :=
  [from_peer 1 PROPOSE propose_body; WorkerTurn; from_peer 2 APPROVE approve_body; from_peer 3 BUILD build_body;
   WorkerTurn; WorkerTurn; WorkerTurn; Accepted (Err tt)].
Definition service_run := serve 18 true D service_turns (mkService (mkEngine (en_host e0) (en_state e0) false) Looking).
Lemma service_pair :
  serve 18 true D service_turns (mkService (mkEngine (en_host e0) (en_state e0) false) Looking)
  = (fst service_run, snd service_run).
Proof. unfold service_run. apply surjective_pairing. Qed.
#[local] Strategy 1000 [service_run].
Lemma service_witness :
  bu_state ∘ in_build <$> st_builds (en_state (sr_engine (snd service_run))) !! "b_r3"%string = Some "built"%string
  ∧ is_ok (fst service_run) = false
  ∧ ControlServe.served "/var/control" control_config D service_turns [] (h_world (en_host e0)) (snd service_run).
Proof.
  split; [by_eval|].
  apply (control_service_refines_run "/var/control" control_config D service_turns) with
    (umask := 18) (backlog := true) (h0 := host0) (s := en_state e0).
  - intros f h Hf. exfalso. unfold service_turns in Hf. rewrite !elem_of_cons, elem_of_nil in Hf.
    destruct Hf as [?|[?|[?|[?|[?|[?|[?|[?|[]]]]]]]]]; discriminate.
  - apply run_init; [apply wfb_sound; by_eval|by_eval].
  - reflexivity.
  - exact opened_ok.
  - intros H. revert H. by_eval.
  - exact service_pair.
Defined.
