(* ===== verification/ScenarioWorkloads.v ===== *)
(** * Scenarios: a registry with one agent *)

From Stdlib Require Import Sorted.
From S2P Require Import Prelude RustStr Json Posix Budget PrivateStore Process Workloads Observation Generations Scenarios ScenarioCodec.

Definition binding_a : Binding := mkBinding "tenant" "agent-a" "work" "rev" "docker-agent-a.service".
Definition policy_a : Policy := mkPolicy 1 "/nix/store/docker" "/nix/store/systemctl" [binding_a].
Definition container : string := bytes_str (replicate 64 97).
Definition scope : string := ("/system.slice/docker-" ++ container ++ ".scope")%string.

Definition image : list (string * inode) :=
  let dir := mk_inode Directory 493 0 [] in
  let file data := mk_inode Regular 292 0 data in
  [("/"%string, dir); ("/var"%string, dir); ("/var/lib"%string, dir); (STATE, mk_inode Directory 448 0 []);
   ("/run"%string, dir); (RUNTIME, dir);
   ("/etc/tentaflake-workloads.json"%string, mk_inode Symlink 511 0 (str_bytes "/nix/store/policy"));
   ("/nix"%string, dir); ("/nix/store"%string, dir); ("/nix/store/policy"%string, file (pack policy_a));
   ("/nix/store/docker"%string, file []); ("/nix/store/systemctl"%string, file []);
   ("/sys"%string, dir); ("/sys/fs"%string, dir); ("/sys/fs/cgroup"%string, dir);
   ("/sys/fs/cgroup/system.slice"%string, dir); (("/sys/fs/cgroup" ++ scope)%string, dir)].
Definition registry_disk : world :=
  let l := imap (λ i x, (Z.of_nat i, x)) image in
  mk_world (list_to_map ((λ '(i, (p, _)), (p, i)) <$> l)) (list_to_map ((λ '(i, (_, n)), (i, n)) <$> l))
    100 [] 3 [] [5; 6; 7] 0.

(** What the commands print and what [/proc] shows. *)
Definition LF : string := bytes_str [10].
Definition prints (s : string) : child := mkChild true true [mkRound (PData (str_bytes s)) PAgain false (Ok (Some true))] [].
Definition systemctl_output : child := prints ("Id=docker-agent-a.service" ++ LF ++ "ActiveState=active" ++ LF).
Definition docker_output : child := prints ("/agent-a " ++ container ++ " 42 true" ++ LF).
Definition one_round : list child := [systemctl_output; docker_output; docker_output; systemctl_output].
Definition proc : snapshot := mkSnapshot
  (λ p, str_bytes ∘ snd <$> find_first (λ kv, (fst kv =? p)%string)
    [("/proc/42/uid_map"%string, "0 0 4294967295"%string);
     ("/proc/42/stat"%string, "42 (agent (a)) S 1 1 1 0 -1 0 0 0 0 0 0 0 0 0 20 0 1 0 777 0"%string);
     ("/proc/42/cgroup"%string, ("0::" ++ scope ++ LF)%string);
     ("/proc/sys/kernel/random/boot_id"%string, ("01234567-0123-0123-0123-0123456789ab" ++ LF)%string)])
  (λ p, if str_in p ["/proc/42/ns/user"%string; "/proc/1/ns/user"%string] then Some (4, 4026531837) else None)
  true.
Definition observer_on (w : world) : observer := mkObserver w one_round (replicate 60 proc) [].
Definition initialized := initialize registry_disk.
(** The first process exits, and its lock with it. *)
Definition exited : world := set_locks (λ _, []) (snd initialized).
Definition started := start exited.
Definition g0 : registry := mkRegistry (observer_on (snd started)) (snd (from_ok (policy_a, Authority_empty) (fst started))) [].
Definition cycled := cycle policy_a g0.
Definition again := cycle policy_a (snd cycled).
Definition observed_ids := observe_all policy_a (rg_host g0).

(** ** The registry observes the agent, then loses sight of it *)

#[local] Strategy 1000 [initialize start cycle observe_all].

Definition loaded : Policy * Authority := from_ok (policy_a, Authority_empty) (fst started).
Lemma loaded_policy : loaded = (policy_a, rg_authority g0).
Proof. by_eval. Qed.
Lemma started_ok : start exited = (Ok (policy_a, rg_authority g0), snd started).
Proof. rewrite <-loaded_policy. apply (computed (policy_a, Authority_empty) started). by_eval. Qed.
Lemma unlock_keeps p w : wf w → keeps p w (set_locks (λ _, []) w).
Proof. by split. Qed.
Lemma run_g0 : run (Running policy_a g0).
Proof.
  apply (run_start exited [] policy_a (rg_authority g0) (snd started) one_round (replicate 60 proc) []);
    [|exact started_ok].
  apply (run_outside (snd initialized)); [|apply unlock_keeps, wfb_sound; by_eval].
  apply (run_initialize registry_disk [] (fst initialized) (snd initialized)); [|exact (surjective_pairing initialized)].
  apply run_deploy; [apply wfb_sound; by_eval|by_eval].
Qed.
Lemma computed_unit {E S} (p : result E unit * S) : is_ok (fst p) = true → p = (Ok tt, snd p).
Proof. by destruct p as [[[]|]]. Qed.
Lemma run_again : run (Running policy_a (snd again)).
Proof.
  apply (run_cycle policy_a (snd cycled)); [|apply (computed_unit again); by_eval].
  apply (run_cycle policy_a g0); [exact run_g0|apply (computed_unit cycled); by_eval].
Qed.
Lemma generations_witness :
  (mf_generation <$> rg_published (snd again)) = [2; 1] ∧ (mf_state <$> rg_published (snd again)) = ["unavailable"%string; "live"%string]
  ∧ StronglySorted supersedes (rg_published (snd again)).
Proof.
  split; [by_eval|]. split; [by_eval|]. exact (proj1 (generations_never_reused (Running policy_a (snd again)) run_again)).
Defined.

Definition identity_a : Identity :=
  mkIdentity "01234567-0123-0123-0123-0123456789ab" container 42 777 scope 16.
Definition ids : list (option Identity) := from_ok [] (fst observed_ids).
Lemma observed_ok : observe_all policy_a (rg_host g0) = (Ok ids, snd observed_ids).
Proof. apply (computed [] observed_ids). by_eval. Qed.
Lemma commands_witness :
  length (ob_commands (snd observed_ids)) = 4%nat ∧ same_fs (ob_world (rg_host g0)) (ob_world (snd observed_ids)).
Proof.
  split; [by_eval|].
  destruct (observation_is_bounded policy_a (rg_host g0) (Ok ids) (snd observed_ids) observed_ok) as (_ & _ & H). exact H.
Defined.
