(* ===== verification/ScenarioWorker.v ===== *)
(** * Scenarios: a worker from a request in the inbox to its result *)

From S2P Require Import Prelude RustStr Json Posix Budget PrivateStore Template Net Activity WorkerFs WorkerData Queue Review Capsule Worker WorkerSpec QueueSpec QueueKeys QueueSteps QueueCommands WorkerRun WorkerFacts Scenarios ScenarioCodec.

(** ** A codec *)

#[export] Instance codec_bool : Codec bool.
Proof. by refine {| enc b := Bool b; dec v := match v with Bool b => Some b | _ => None end |}. Defined.
Definition class_number (a : ActionClass) : Z :=
  match a with
  | LocalReversible => 0 | ExternalReversible => 1 | Irreversible => 2 | Financial => 3 | Production => 4
  | Communicative => 5 | Privileged => 6 | Forbidden => 7
  end.
Definition number_class (z : Z) : ActionClass :=
  match z with
  | 0 => LocalReversible | 1 => ExternalReversible | 2 => Irreversible | 3 => Financial | 4 => Production
  | 5 => Communicative | 6 => Privileged | _ => Forbidden
  end.
#[export] Instance codec_class : Codec ActionClass.
Proof. by refine (codec_via class_number number_class _); intros []. Defined.
#[export] Instance codec_decision : Codec Decision.
Proof.
  by refine (codec_via (λ d, bool_decide (d = Approve)) (λ b : bool, if b then Approve else Deny) _); intros [].
Defined.
#[export] Instance codec_job_request : Codec JobRequest.
Proof.
  by refine (codec_via (λ r, (rq_version r, rq_id r, rq_action_class r, rq_argv r, rq_timeout_seconds r))
    (λ '(v, i, a, l, t), mkRequest v i a l t) _); intros [].
Defined.
#[export] Instance codec_job_result : Codec JobResult.
Proof.
  by refine (codec_via (λ r, (rs_version r, rs_id r, rs_action_class r, rs_status r, rs_exit_code r, rs_timed_out r,
      rs_artifacts_available r, rs_log_truncated r, rs_completed_unix_seconds r, rs_message r))
    (λ '(v, i, a, s, e, t, p, l, c, m), mkResult v i a s e t p l c m) _); intros [].
Defined.
#[export] Instance codec_receipt : Codec Receipt.
Proof.
  by refine (codec_via (λ r, (rc_schema_version r, rc_agent r, rc_job_id r, rc_request_digest r, rc_decision r, rc_state r,
      rc_drain_required r)) (λ '(v, a, j, d, c, s, r), mkReceipt v a j d c s r) _); intros [].
Defined.

(** ** A host *)

Definition worker_config : Config :=
  mkWConfig "a1" None "docker" "/bin/docker" "image:1" "/work" "/var/worker" 1000 1000
    4096 16 65536 16 65536 8 1000000 1000 1000 16 4096 600 "1g" "1g" "1" 64 "64m" "64m".
#[export] Instance worker_codec : WorkerCodec := {|
  config_reader _ b := if bool_decide (b = str_bytes "worker") then Some worker_config else None;
  request_reader _ b := unpack b;
  request_to_vec r := Some (pack r);
  result_from_slice b := unpack (removelast b);
  result_to_pretty r := Some (pack r);
  receipt_from_slice := unpack;
  receipt_to_vec r := Some (pack r);
  requests_to_vec r := Some (pack (map rw_id (rqs_requests r)));
  event_to_vec e := Some (str_bytes (av_event e)) |}.
Lemma worker_receipts : ∀ rec b, receipt_to_vec rec = Some b → receipt_from_slice b = Some rec.
Proof. intros rec b [= <-]. apply unpack_pack. Qed.

Definition job1 : JobRequest := mkRequest 1 "job1" ExternalReversible ["make"%string; "--privileged"%string] 60.
Definition wdir (mode : Z) : inode := mk_inode Directory mode 0 [].
Definition wfile (b : bytes) : inode := mk_inode Regular 420 0 b.
Definition worker_image : list (string * inode) :=
  [("/"%string, wdir 493); ("/etc"%string, wdir 493); ("/etc/worker"%string, wfile (str_bytes "worker"));
   ("/var"%string, wdir 493); ("/var/worker"%string, wdir 493);
   ("/work"%string, wdir 493); ("/work/Makefile"%string, wfile (str_bytes "all:"));
   ("/work/.tentaflake-worker"%string, wdir 493); ("/work/.tentaflake-worker/inbox"%string, wdir 493);
   ("/work/.tentaflake-worker/inbox/job1.json"%string, wfile (pack job1))].
Definition numbered_worker : list (Z * (string * inode)) := imap (λ i x, (Z.of_nat i, x)) worker_image.
Definition worker_world : world :=
  mk_world (list_to_map ((λ '(i, (p, _)), (p, i)) <$> numbered_worker))
    (list_to_map ((λ '(i, (_, n)), (i, n)) <$> numbered_worker)) 100 [] 3 [] [5; 6; 7; 8; 9; 10; 11; 12] 0.
Definition says (s : string) : result io_error output := Ok (mkOutput true (str_bytes s) []).
Definition worker_host : whost :=
  mkWHost worker_world (mkEnv 0 [] [] [] [] []) [0; 1; 2; 3]
    [says ""; says ""; says ""; says "false"; says "0"; says "done"; says ""] [] [] [] [] 18 1000 true true [].

Definition drained := main ["--config"; "/etc/worker"; "drain"]%string worker_host.
Definition approved_job := main ["--config"; "/etc/worker"; "approve"; "job1"]%string (snd drained).

(** ** Its life *)

(** Nothing below the state directory. *)
Definition untouched (rt : string) (w : world) : bool :=
  forallb (λ p, negb (starts_with (rt ++ "/") p)) (fst <$> map_to_list (w_names w)).
Lemma untouched_none rt w x : untouched rt w = true → w_names w !! below rt x = None.
Proof.
  intros Hu. destruct (w_names w !! below rt x) as [i|] eqn:E; [|done]. exfalso.
  unfold untouched in Hu. rewrite forallb_forall in Hu. specialize (Hu (below rt x)).
  assert (negb (starts_with (rt ++ "/") (below rt x)) = true) as Hn.
  { apply Hu, list_elem_of_In, list_elem_of_fmap. exists (below rt x, i). split; [done|]. by apply elem_of_map_to_list. }
  apply negb_true_iff in Hn. unfold starts_with in Hn. destruct (strip_prefix _ _) eqn:Ep; [done|].
  assert (below rt x = (rt ++ "/") +:+ x)%string as Eb by (unfold below; by rewrite append_assoc).
  apply strip_prefix_Some in Eb. congruence.
Qed.
Lemma untouched_view rt w k : untouched rt w = true → kview rt w k = None.
Proof.
  intros Hu. unfold kview, lookup_inode, kpath. rewrite below_below. by rewrite untouched_none.
Qed.
Lemma untouched_sound rt w : untouched rt w = true → sound rt w.
Proof.
  intros Hu. split.
  - intros q i k Hq Hk Hi. unfold kpath. rewrite below_below. by rewrite untouched_none.
  - intros i n. unfold apath. by rewrite untouched_none.
Qed.

#[local] Strategy 1000 [main load_config drained approved_job].
Lemma worker_ours : ours "/var/worker" "a1" worker_config.
Proof.
  split; [by_eval|]. split; [done|]. split; try by_eval; vm_compute; set_solver.
Qed.
Lemma worker_life0 : lives "/var/worker" "a1" [] worker_host.
Proof.
  apply l_start; [|done|by_eval|].
  - split; [apply wfb_sound; by_eval|apply untouched_sound; by_eval].
  - intros k _. apply untouched_view. by_eval.
Qed.
Lemma loads c path h : fst (load_config path h) = Ok c → load_config path h = (Ok c, snd (load_config path h)).
Proof. destruct (load_config path h) as [r h']. simpl. by intros ->. Qed.
Lemma worker_life1 : lives "/var/worker" "a1" [(worker_config, ["drain"%string], worker_host)] (snd drained).
Proof.
  eapply l_command; [exact worker_life0|exact worker_ours| |apply surjective_pairing].
  apply loads. by_eval.
Qed.
Definition worker_past : list invocation :=
  [(worker_config, ["approve"; "job1"]%string, snd drained); (worker_config, ["drain"%string], worker_host)].
Lemma worker_life2 : lives "/var/worker" "a1" worker_past (snd approved_job).
Proof.
  apply (l_command "/var/worker" "a1" [(worker_config, ["drain"%string], worker_host)] worker_config "/etc/worker"
    "approve" ["job1"%string] (snd drained) (snd (load_config "/etc/worker" (snd drained))) (fst approved_job)).
  - exact worker_life1.
  - exact worker_ours.
  - apply loads. by_eval.
  - apply surjective_pairing.
Qed.

Definition created : list string := default [] (creates (snd approved_job) !! 0%nat).
Lemma worker_once_witness :
  creates (snd approved_job) !! 0%nat = Some created ∧ names_job "a1" "job1" created ∧ 0%nat = 0%nat.
Proof.
  split_and!; [by_eval|by_eval|].
  apply (worker_dispatches_once "/var/worker" "a1" worker_receipts worker_past (snd approved_job) "job1" 0 0 created created);
    [exact worker_life2|by_eval..].
Defined.
Lemma worker_healthy1 : healthy (root worker_config) (snd drained).
Proof. exact (li_healthy _ _ _ _ _ (lives_live _ _ worker_receipts _ _ worker_life1 worker_config)). Qed.
Lemma worker_healthy2 : healthy (root worker_config) (snd approved_job).
Proof. exact (li_healthy _ _ _ _ _ (lives_live _ _ worker_receipts _ _ worker_life2 worker_config)). Qed.
Lemma worker_held : captured worker_config (wh_world (snd drained)) (KPending "job1") job1.
Proof. exists (pack job1). split_and!; by_eval. Qed.
Lemma worker_never_lost_witness : held worker_config job1 (snd approved_job, None).
Proof.
  apply (worker_never_loses_requests worker_config "/etc/worker" "approve" ["job1"%string] (snd drained)
    (snd (load_config "/etc/worker" (snd drained))) (fst approved_job) (snd approved_job)) with (KPending "job1").
  - apply worker_ours.
  - exact worker_healthy1.
  - apply loads. by_eval.
  - apply surjective_pairing.
  - by_eval || set_solver.
  - exact worker_held.
Defined.
Definition listed := main ["--config"; "/etc/worker"; "requests"]%string (snd approved_job).
Lemma worker_final_witness :
  kview (root worker_config) (wh_world (snd listed)) (KReceipt "job1") = Some (Regular, []).
Proof.
  apply (worker_records_are_final worker_config "/etc/worker" "requests" [] (snd approved_job)
    (snd (load_config "/etc/worker" (snd approved_job))) (fst listed) (snd listed)).
  - apply worker_ours.
  - exact worker_healthy2.
  - apply loads. by_eval.
  - apply surjective_pairing.
  - by_eval.
  - exact I.
  - by_eval.
Defined.
Lemma worker_refines_witness : steps worker_config ["approve"; "job1"]%string (snd drained, None) (snd approved_job, None).
Proof.
  apply (worker_refines_queue worker_config "/etc/worker" "approve" ["job1"%string] (snd drained)
    (snd (load_config "/etc/worker" (snd drained))) (fst approved_job) (snd approved_job)).
  - apply worker_ours.
  - exact worker_healthy1.
  - apply loads. by_eval.
  - apply surjective_pairing.
Defined.

(** ** The capsule *)

Definition supervised := supervise worker_config "tfw-a1-job1" "/var/worker/jobs/job1" (Some 60) worker_host.
Lemma log_witness :
  blen (fst (bounded_combined_log [1; 2; 3] [4] 5)) ≤ 5.
Proof.
  pose proof (job_log_is_bounded [1; 2; 3] [4] 5 "x" [7] ltac:(unfold u64_max; lia) ltac:(vm_compute; discriminate)) as H.
  destruct (bounded_combined_log [1; 2; 3] [4] 5) as [l t]. destruct (append_bounded_log_section l t 5 "x" [7]). apply H.
Defined.

(** ** What recovery leaves behind *)

(** A request of a forbidden class, and another one, in the inbox. *)
Definition bad_job : JobRequest := mkRequest 1 "job0" Forbidden ["rm"%string] 60.
Definition local_job : JobRequest := mkRequest 1 "job2" LocalReversible ["make"%string] 60.
Definition inbox_file (r : JobRequest) : string * inode :=
  (("/work/.tentaflake-worker/inbox/" ++ json_name (rq_id r))%string, wfile (pack r)).
Definition host_with (faults : list (option nat)) (requests : list JobRequest) : whost :=
  let image := imap (λ i x, (Z.of_nat i, x)) (take 9 worker_image ++ (inbox_file <$> requests)) in
  set_wworld (mk_world (list_to_map ((λ '(i, (p, _)), (p, i)) <$> image))
    (list_to_map ((λ '(i, (_, n)), (i, n)) <$> image)) 100 [] 3 faults [5; 6; 7; 8; 9; 10; 11; 12] 0) worker_host.
Definition DRAIN_COMMAND : list string := ["--config"; "/etc/worker"; "drain"]%string.
(** Everything fails from the 151st system call on: the process died there. *)
Definition crashed : whost :=
  snd (main DRAIN_COMMAND (host_with (replicate 150 None ++ replicate 3000 (Some 0%nat)) [bad_job; local_job])).
Definition restarted (h : whost) := main DRAIN_COMMAND (set_wworld (set_faults [] (wh_world h)) h).

(** A crash while the rejection of a forbidden request is being published leaves
    its unpublished result; recovery removes that only for claimed jobs.  Every
    later drain fails at it, and the permitted request behind it never runs. *)
Lemma interrupted_rejection_blocks_the_queue :
  let second := restarted crashed in let third := restarted (snd second) in
  fst second = Err "create result staging: File exists (os error 17)"%string
  ∧ fst third = fst second ∧ creates (snd third) = []
  ∧ kview (root worker_config) (wh_world (snd third)) (KPending "job2") = Some (Regular, pack local_job).
Proof. split_and!; by_eval. Qed.
(** The same two requests without the crash: the second one runs. *)
Lemma rejection_without_crash :
  let first := main DRAIN_COMMAND (host_with [] [bad_job; local_job]) in
  fst first = Ok tt ∧ length (creates (snd first)) = 1%nat.
Proof. split_and!; by_eval. Qed.

(** The result of [job2] expired and the request is in the inbox again. *)
Definition ran : whost := snd (main DRAIN_COMMAND (host_with [] [local_job])).
Definition returned (blind : list bool) : whost :=
  let expire (m : gmap string Z) := filter (λ px, starts_with "/var/worker/results/job2" (fst px) = false) m in
  let w := wh_world ran in
  let w := set_names (λ m, <[fst (inbox_file local_job) := 99]> (expire m)) (set_inodes (<[99 := wfile (pack local_job)]>) w) in
  let h := set_outputs (wh_outputs worker_host) (set_wworld w ran) in
  mkWHost (wh_world h) (wh_env h) (wh_now worker_host) (wh_outputs h) (wh_markers h) (wh_archives h) (wh_commands h)
    (wh_stdout h) (wh_umask h) (wh_gid h) (wh_setegid h) (wh_openat2 h) blind.
(** [job_exists] asks [Path::exists], which says [false] when a path cannot be
    inspected: if that happens to the receipt of a job, the job runs again. *)
Lemma unreadable_receipt_is_replayed :
  creates (snd (main DRAIN_COMMAND (returned []))) = creates ran
  ∧ length (creates ran) = 1%nat
  ∧ length (creates (snd (main DRAIN_COMMAND (returned (replicate 8 true))))) = 2%nat.
Proof. split_and!; by_eval. Qed.

(** The comma that separates the fields of [--mount] is refused in the workspace,
    but the path that is mounted is below the state directory. *)
Definition comma_config : Config :=
  mkWConfig "a1" None "docker" "/bin/docker" "image:1" "/work" "/var/worker,readonly=false" 1000 1000
    4096 16 65536 16 65536 8 1000000 1000 1000 16 4096 600 "1g" "1g" "1" 64 "64m" "64m".
Lemma state_dir_may_hold_a_comma :
  validate_config comma_config = Ok tt
  ∧ create_args comma_config job1 (below (below (sub comma_config "jobs") "job1") "input")
    ≫= lookup 16%nat
    = Some "--mount=type=bind,source=/var/worker,readonly=false/jobs/job1/input,target=/input,readonly"%string.
Proof. split; by_eval. Qed.
