(* ===== verification/ScenarioFront.v ===== *)
(** * Scenarios: a connector from its configuration to a delivered read *)

From S2P Require Import Prelude RustStr Json Posix Net Activity Policy ControlData EngineSpec Advisory Proposals ProposalsRun Connector ConnectorSpec Front FrontSpec FrontFacts Scenarios ScenarioCodec.

(** ** The crates *)

Record page : Type := mkPage { pg_host : string; pg_segments : list string; pg_query : list (string * string) }.
Definition page_parse (s : string) : option page :=
  r ← strip_prefix "https://" s; h ← strip_suffix "/" r; Some (mkPage h [] []).
#[export] Instance page_urllib : UrlLib := {|
  url := page; url_parse := page_parse; url_scheme _ := "https"%string; url_username _ := EmptyString;
  url_password _ := None; url_fragment _ := None; url_query _ := None; url_host_str u := Some (pg_host u);
  url_port_or_known_default _ := Some 443; url_path u := join "/" (pg_segments u); url_cannot_be_a_base _ := false;
  url_join _ r := page_parse r; url_as_str u := pg_host u |}.
#[export] Instance page_builder : UrlBuilder := {|
  url_set_segments l u := Some (mkPage (pg_host u) l (pg_query u));
  url_append_pair k v u := mkPage (pg_host u) (pg_segments u) (pg_query u ++ [(k, v)]) |}.

#[export] Instance codec_review_decision : Codec Proposals.Decision.
Proof.
  by refine (codec_via (λ d, match d with Pending => 0 | Acknowledged => 1 | Dismissed => 2 end)
    (λ z, match z with 0 => Pending | 1 => Acknowledged | _ => Dismissed end) _); intros [].
Defined.
#[export] Instance codec_category : Codec Category.
Proof.
  by refine (codec_via (λ c, match c with Security => 0 | Optimization => 1 end)
    (λ z, match z with 0 => Security | _ => Optimization end) _); intros [].
Defined.
#[export] Instance codec_review_proposal : Codec ReviewProposal.
Proof.
  by refine (codec_via
    (λ p, let f := rp_finding p in
       (rp_system p, rp_observer p, pf_title f, pf_explanation f, pf_evidence_references f, pf_category f))
    (λ '(s, o, t, e, l, c), mkReviewProposal s o AwaitingHumanReview (mkProposalFinding t e l c)) _); intros [? ? [] []].
Defined.
#[export] Instance codec_row : Codec Row.
Proof. by refine (codec_via (λ r, (ro_id r, ro_proposal r, ro_review r)) (λ '(i, p, d), mkRow i p d) _); intros []. Defined.
#[export] Instance review_codec : ReviewCodec := {|
  snapshot_to_vec c rows := Some (pack (c, rows)); snapshot_from_slice := unpack |}.
#[export] Instance review_laws : ReviewLaws.
Proof. split. intros c rows b _ [= <-]. apply unpack_pack. Qed.

(** ** A server *)

Definition policy : Advisory.Policy := Advisory.mkPolicy "host" "observer" true ["disk"%string] 4 4096.
Definition config : Config := mkFrontConfig "/run/front.sock" 1000 1001 "agent" "tenant" "user@example.org" Drive
  ["doc"%string; "file"%string] [DriveMetadata; DriveFile] 3 9000 [V4 142 250 1 2] 65536 30
  (Some (mkAdvisoryConfig 1002 policy "/state")) (Some (mkActivityConfig "/run/activity.sock" 7 "p" "r" "w" "v")).
Definition disk : world := mk_world {["/state"%string := 1]}
  {[1 := mk_inode Directory 448 5 []]} 2 [] 1 [] [] 5.
Definition started := Server_new true (Some (replicate 16 171)) config true disk.
Definition no_server : Server * option Store :=
  (mkServer config (mkGateway (config_grant config) (mkHttps Drive []) (RuntimeCredentials_new config)
     (mkJournal None EmptyString EmptyString EmptyString)) (RuntimeCredentials_new config) None, None).
Definition server : Server := fst (from_ok no_server (fst started)).
Definition store : option Store := snd (from_ok no_server (fst started)).
Lemma server_started : Server_new true (Some (replicate 16 171)) config true disk = (Ok (server, store), snd started).
Proof.
  change (Server_new _ _ _ _ _) with started. etrans; [apply (computed no_server); by_eval|].
  unfold server, store. by rewrite <-surjective_pairing.
Qed.
#[local] Strategy 1000 [started server store].

(** A thread's view after root stored a lease; another thread holds a slot. *)
Definition document : value := json_obj [("id"%string, Str "doc"); ("name"%string, Str "plan")].
Definition view (schedule : list (list action)) : front :=
  mkFront (mkShared 3 1 1 8 (Some (mkLease "token" 1 8000)) 1 None 0) schedule
    (replicate 40 (Some 5000000)) (replicate 40 7) [Some (mkReply 200 None (Some (put document)))]
    (mkEnv 5 [] [] [] [] []) [Finished (Some "token"%string); Began].
Lemma view_fit n schedule : 0 ≤ n → scheduled schedule + n ≤ 1000 → fit n (view schedule).
Proof.
  intros Hn Hs. split; [split; [split; simpl; try lia; [by intros le [= <-]|done]|done]|done|simpl; unfold u64_max; lia|done].
Qed.
Definition request : ReadRequest := mkRead "tenant" "user@example.org" "doc" DriveMetadata 3.

Definition quiet_view : front := view [[OEnter]; []; [OLeave]].
Definition read_run := read (sv_gateway server) request quiet_view.
Lemma read_run_pair : read (sv_gateway server) request quiet_view = (fst read_run, snd read_run).
Proof. unfold read_run. apply surjective_pairing. Qed.

(** ** A revocation during delivery *)

Definition call_params : value :=
  json_obj [("name"%string, Str "connector_read");
            ("arguments"%string, json_obj [("resource"%string, Str "doc"); ("method"%string, Str "drive_metadata")])].
Definition call : Rpc := mkRpc "2.0" (Some (num 1)) "tools/call" call_params.
(** The lease is revoked just before the second write of the reply. *)
Definition thread : session :=
  mkSession (view (replicate 14 [] ++ [[OBegin None]]))
    (Net.mkConn [] [WrSome 10; WrSome 10] [] [] (replicate 40 7) (Some 1000)) None [].
Definition response_run := respond "1" server 1000 2 (num 1) call 1 thread.
Lemma response_run_pair : respond "1" server 1000 2 (num 1) call 1 thread = (fst response_run, snd response_run).
Proof. unfold response_run. apply surjective_pairing. Qed.
#[local] Strategy 1000 [response_run].
Lemma revoked_witness :
  fst response_run = Err "credential revoked or expired"%string
  ∧ count is_wrote (fr_trace (ss_front (snd response_run))) = 2
  ∧ ∃ l, fr_trace (ss_front (snd response_run)) = l ++ fr_trace (ss_front thread)
    ∧ ((∃ e, written l `prefix_of` to_vec (reply_value (num 1) (Err e)) ++ [10])
       ∨ ∃ v, written l `prefix_of` to_vec (reply_value (num 1) (Ok v)) ++ [10]
           ∧ (∀ a b, l = a ++ Began :: b → count is_wrote a ≤ 1)
           ∧ (0 < count is_wrote l → read_under_lease server (fr_trace (ss_front thread)) l)).
Proof.
  split; [by_eval|]. split; [by_eval|].
  apply (revoked_content_is_withheld "1" server 1000 2 (num 1) call 1 0 thread (fst response_run) (snd response_run)).
  - lia.
  - apply view_fit; by_eval.
  - by_eval.
  - by_eval.
  - by_eval.
  - exact response_run_pair.
Defined.

(** ** Root rotates the lease *)

Definition rotation : value :=
  json_obj [("token"%string, Str "new-token"); ("generation"%string, num 3); ("expires_unix"%string, num 6000);
            ("read_only_consent"%string, Bool true)].
Definition rotate_run := dispatch server 0 "credentials/rotate" rotation thread.
Lemma rotate_run_pair : dispatch server 0 "credentials/rotate" rotation thread = (fst rotate_run, snd rotate_run).
Proof. unfold rotate_run. apply surjective_pairing. Qed.
#[local] Strategy 1000 [rotate_run].
Lemma duties_witness :
  is_ok (fst rotate_run) = true
  ∧ le_token <$> sh_lease (fr_shared (ss_front (snd rotate_run))) = Some "new-token"%string
  ∧ NoDup [0; 1000; 1001; 1002]
  ∧ ∃ l, fr_trace (ss_front (snd rotate_run)) = l ++ fr_trace (ss_front thread) ∧ count is_sent l = 0.
Proof.
  split; [by_eval|]. split; [by_eval|].
  destruct (duties_are_separate true (Some (replicate 16 171)) config true disk server store (snd started)
    0 "credentials/rotate" rotation 0 thread (fst rotate_run) (snd rotate_run)) as (Hdup & l & Ht & _ & Hs & _).
  - exact server_started.
  - lia.
  - apply view_fit; by_eval.
  - by_eval.
  - exact rotate_run_pair.
  - split.
    + replace [0; 1000; 1001; 1002] with (0 :: fc_caller_uid config :: fc_reviewer_uid config :: observers server) by by_eval.
      exact Hdup.
    + exists l. split; [exact Ht|]. by apply Hs.
Defined.

(** ** Proposals *)

Definition evidence : list Telemetry := [mkTelemetry "disk" "e1" "90% full"; mkTelemetry "disk" "e2" "growing"].
Definition finding : Finding := mkFinding "Disk" "Nearly full" ["e1"%string] Optimization.
Definition proposed := propose policy "observer" evidence (Some finding).
Definition proposal : ReviewProposal :=
  mkReviewProposal "host" "observer" AwaitingHumanReview (mkProposalFinding "Disk" "Nearly full" ["e1"%string] Optimization).
Lemma submission_ok : propose policy "observer" evidence (Some finding) = Ok proposal.
Proof. by_eval. Qed.
Lemma evidenced_witness :
  NoDup (te_evidence_reference <$> evidence)
  ∧ pf_evidence_references (rp_finding proposal) ⊆ te_evidence_reference <$> evidence.
Proof.
  destruct (proposals_are_evidenced policy "observer" evidence (Some finding) proposal submission_ok)
    as (_ & _ & _ & H1 & H2 & _). by split.
Defined.

(** A first process answers; in the second one the directory cannot be synced
    after the rename; a third one is asked for the queue. *)
Definition context : value := json_obj [("tenant"%string, Str "tenant")].
Definition answers1 := life "/state" context [CSubmit proposal; CReview "proposal-1" Acknowledged] disk.
Definition failing (w : world) : world := set_faults (replicate 10 None ++ [Some 0%nat]) w.
Definition answers2 := life "/state" context [CSubmit proposal; CList] (failing (snd answers1)).
Definition answers3 := life "/state" context [CReview "proposal-1" Dismissed; CList] (set_faults [] (snd answers2)).
Definition log : list (value * command * value) :=
  (([] ++ acknowledged context (fst answers1)) ++ acknowledged context (fst answers2)) ++ acknowledged context (fst answers3).
Lemma set_faults_apart fs w : wf w → apart "/state" w (set_faults fs w).
Proof. by split. Qed.
#[local] Strategy 1000 [answers1 answers2 answers3].
Lemma disk_wf : wf disk.
Proof. intros p i Hp. unfold disk in Hp. simpl in Hp. apply lookup_singleton_Some in Hp as [_ <-]. done. Qed.
Lemma history_wf dir l w : history dir l w → wf w.
Proof.
  intros Hh. destruct (reviews_shelf dir l w Hh) as (o & [Hw _] & _). exact Hw.
Qed.
Lemma history_log : history "/state" log (snd answers3).
Proof.
  assert (history "/state" ([] ++ acknowledged context (fst answers1)) (snd answers1)) as H1.
  { eapply (history_life _ [] disk disk context [CSubmit proposal; CReview "proposal-1" Acknowledged]);
      [by constructor; [apply disk_wf|]|by split; [apply disk_wf|..]|by_eval|apply surjective_pairing]. }
  assert (history "/state" (([] ++ acknowledged context (fst answers1)) ++ acknowledged context (fst answers2)) (snd answers2)) as H2.
  { eapply history_life; [exact H1|apply set_faults_apart, (history_wf _ _ _ H1)|by_eval|apply surjective_pairing]. }
  eapply history_life; [exact H2|apply set_faults_apart, (history_wf _ _ _ H2)|by_eval|apply surjective_pairing].
Qed.
Lemma reviews_witness :
  length log = 3%nat
  ∧ ((log = [] ∧ lookup_inode (snd answers3) (join_path "/state" JSON) = None)
     ∨ ∃ bound rows, published "/state" (snd answers3) bound rows
      ∧ ∀ context c v, (context, c, v) ∈ log → value_eqb bound context = true ∧ honoured rows c v).
Proof. split; [by_eval|]. exact (reviews_are_durable "/state" log (snd answers3) history_log). Defined.
