(* ===== verification/ScenarioCli.v ===== *)
(** * Scenarios: the command line on a concrete host *)

From S2P Require Import Prelude RustStr Json Posix Budget PrivateStore Activity ControlData CliHost Descriptor Desired DesiredSpec DesiredRun Manifest Live CliCommands LiveFacts Onboarding OnboardingRun Doctor Cli CliRun Scenarios ScenarioCodec.

(** ** The crates: a document is the value it holds *)

Definition add_agent (d t : value) : value :=
  match as_array (index "agents" d), as_object d with
  | Some l, Some m => Object (obj_insert "agents" (Array (l ++ [t])) m)
  | _, _ => d
  end.
Fixpoint toml_of (v : value) : toml_value :=
  match v with
  | Null => TString EmptyString
  | Bool b => TBoolean b
  | Number (PosInt n) | Number (NegInt n) => TInteger n
  | Number (Float n) => TFloat n
  | Str s => TString s
  | Array l => TArray (map toml_of l)
  | Object m => TInlineTable (map (λ kv, (fst kv, toml_of (snd kv))) m)
  end.
#[export] Instance plain_toml : TomlEdit := {|
  document := value;
  document_parse := of_text;
  document_items d := match d with Object m => (λ kv, (fst kv, IValue (toml_of (snd kv)))) <$> m | _ => [] end;
  document_text := text;
  de_from_document d := Some d;
  ser_to_document v := Some v;
  push_table := add_agent;
  push_inline := add_agent |}.
#[export] Instance plain_display : Display := {| io_display _ := "refused"%string; utf8_display := "not UTF-8" |}.

(** ** A desired system with every service *)

Definition agent_named (nm adapter : string) : value :=
  json_obj [("adapter"%string, Str adapter); ("name"%string, Str nm)].
Definition peer_grant : value :=
  json_obj [("uid"%string, num 1000); ("agents"%string, Array [Str "agent-one"]);
            ("permissions"%string, Array [Str "logs"; Str "host_health"])].
Definition system : value := json_obj [
  ("schemaVersion"%string, num 1);
  ("agents"%string, Array [agent_named "one" "hermes"; agent_named "two" "zeroclaw"]);
  ("hostApi"%string, json_obj [("enable"%string, Bool true); ("allowLogs"%string, Bool true);
                               ("peers"%string, Array [peer_grant])]);
  ("research"%string, json_obj [("enable"%string, Bool true);
     ("agents"%string, json_obj [("agent-two"%string, json_obj [("uid"%string, num 1001)])])]);
  ("sandbox"%string, json_obj [("profile"%string, Str "strict")]);
  ("storage"%string, json_obj [("enable"%string, Bool true);
     ("paths"%string, Array [Str "/var/lib/tentaflake/agents/one"]);
     ("repositoryFile"%string, Str "/run/backup/repository"); ("passwordFile"%string, Str "/run/backup/password")]);
  ("workloadMapping"%string, json_obj [("enable"%string, Bool true);
     ("bindings"%string, json_obj [("agent-one"%string,
        json_obj [("tenant_id"%string, Str "t"); ("workload_id"%string, Str "w"); ("policy_revision"%string, Str "1")])])])].

(** ** Migration *)

Definition host (w : world) (outcomes : list (result string outcome)) (inspections : list inspection) : cli :=
  mkCli w (mkEnvironment None false "/etc/nixos" "/tmp" 7 None) [] [] outcomes inspections [] [] None [].
Definition legacy_disk : world :=
  mk_world {["/etc/nixos"%string := 1; "/etc/nixos/agents.json"%string := 2]}
    {[1 := mk_inode Directory 448 0 []; 2 := mk_inode Regular 384 0 (put system)]} 3 [] 1 [] [] 0.
Definition tokenize (b : bytes) : option raw := raw_of <$> get_doc b.
Definition before : cli := host legacy_disk [] [].
Definition migration := Desired.run tokenize ["migrate"; "agents.json"; "tentaflake.toml"]%string (mkMode false false) before.
Lemma migration_pair :
  Desired.run tokenize ["migrate"; "agents.json"; "tentaflake.toml"]%string (mkMode false false) before = (fst migration, snd migration).
Proof. unfold migration. apply surjective_pairing. Qed.
#[local] Strategy 1000 [migration].

(** ** A live capsule *)

Definition declared_mounts : list DeclaredMount := [mkMount "/var/lib/tentaflake/agents/one" "/state" true].
Definition declared_tmpfs : list (string * Z) := [("/run"%string, 65536); ("/tmp"%string, 65536); ("/var/tmp"%string, 65536)].
Definition declared_resources : DeclaredLiveResources := mkResources 1048576 1048576 1000000000 64 1024 64.
Definition declared_runtime : DeclaredRuntime := mkRuntime "runsc".
Definition limit (nm : string) (n : Z) : value :=
  json_obj [("Name"%string, Str nm); ("Soft"%string, num n); ("Hard"%string, num n)].
Definition mount_options : value := Str "rw,nosuid,nodev,noexec,size=64k".
Definition host_config : value := json_obj [
  ("Privileged"%string, Bool false); ("ReadonlyRootfs"%string, Bool true); ("NetworkMode"%string, Str "none");
  ("PublishAllPorts"%string, Bool false); ("PortBindings"%string, json_obj []); ("Runtime"%string, Str "runsc");
  ("SecurityOpt"%string, Array [Str "no-new-privileges"]); ("CapAdd"%string, Null); ("CapDrop"%string, Array [Str "ALL"]);
  ("Memory"%string, num 1048576); ("MemorySwap"%string, num 1048576); ("PidsLimit"%string, num 64);
  ("NanoCpus"%string, num 1000000000); ("Ulimits"%string, Array [limit "nofile" 1024; limit "nproc" 64]);
  ("Tmpfs"%string, json_obj [("/run"%string, mount_options); ("/tmp"%string, mount_options); ("/var/tmp"%string, mount_options)])].
Definition live : value := Array [json_obj [
  ("State"%string, json_obj [("Running"%string, Bool true)]);
  ("HostConfig"%string, host_config);
  ("NetworkSettings"%string, json_obj [("Networks"%string, json_obj [("none"%string, json_obj [])]); ("Ports"%string, json_obj [])]);
  ("Config"%string, json_obj [("User"%string, Str "10000:10000")]);
  ("Mounts"%string, Array [json_obj [("Type"%string, Str "bind"); ("Source"%string, Str "/var/lib/tentaflake/agents/one");
                                     ("Destination"%string, Str "/state"); ("RW"%string, Bool true)]]);
  ("AppArmorProfile"%string, Str "docker-default")]].

(** ** An import *)

Definition deployment : Config :=
  mkConfig "docker" "/etc/nixos" "host" "host" "/etc/tentaflake/agents.tsv" "strict" "/etc/tentaflake/security.tsv".
Definition fragment : value :=
  json_obj [("schemaVersion"%string, num 1); ("agents"%string, Array [agent_named "three" "hermes"])].
Definition system_file : inode := mk_inode Regular 420 0 (str_bytes (text system)).
Definition host_disk : world :=
  mk_world {["/etc/nixos"%string := 1; "/etc/nixos/tentaflake.toml"%string := 2; "/etc/nixos/new.toml"%string := 3]}
    {[1 := mk_inode Directory 448 0 []; 2 := system_file; 3 := mk_inode Regular 384 0 (str_bytes (text fragment))]}
    4 [] 1 [] [1000] 0.
(** A child that prints a value and exits. *)
Definition child_prints (b : bytes) : inspection :=
  mkInspection 0 (Ok tt) (Ok tt) [mkTurn 1 [SData b; SData []] [SData []] (Ok (Some (Some 0)))].
Definition plan_of (instances : list value) : value :=
  json_obj [("schemaVersion"%string, num 1); ("valid"%string, Bool true); ("instances"%string, Array instances);
            ("errors"%string, Array [])].
Definition operator (instances : list value) : cli := host host_disk [] [child_prints (put (plan_of instances))].
Definition import_run := onboarding_run deployment [] ["import"; "new.toml"]%string (mkMode false false) (operator []).
Lemma import_pair :
  onboarding_run deployment [] ["import"; "new.toml"]%string (mkMode false false) (operator []) = (fst import_run, snd import_run).
Proof. unfold import_run. apply surjective_pairing. Qed.
#[local] Strategy 1000 [import_run].
Lemma not_inside dir q : strip_prefix dir q = None → inside dir q = false.
Proof.
  intros Hn. unfold inside. apply orb_false_iff. split.
  - apply String.eqb_neq. intros ->. assert (strip_prefix dir dir = Some EmptyString) as E; [|congruence].
    apply strip_prefix_Some. apply str_bytes_inj. change (dir ++ EmptyString)%string with (dir +:+ EmptyString).
    by rewrite str_bytes_app, app_nil_r.
  - unfold starts_with. destruct (strip_prefix (dir ++ "/") q) as [r|] eqn:E; [|done].
    apply strip_prefix_Some in E. assert (strip_prefix dir q = Some ("/" +:+ r)) as E'; [|congruence].
    apply strip_prefix_Some. rewrite E. change ((dir +:+ "/") +:+ r = dir +:+ ("/" +:+ r)). apply append_nested.
Qed.
Lemma below_extends l : ∀ s, ∃ r, foldl below s l = s +:+ r.
Proof.
  induction l as [|x l IH]; intros s; simpl.
  - exists EmptyString. apply str_bytes_inj. by rewrite str_bytes_app, app_nil_r.
  - destruct (IH (below s x)) as (r & ->). exists (("/" +:+ x) +:+ r). unfold below.
    change (s ++ "/" ++ x)%string with (s +:+ ("/" +:+ x)). by rewrite append_nested.
Qed.
Lemma private_elsewhere c n : e_temp (c_env c) = "/tmp"%string → ∃ r, private_dir c n = "/tmp" +:+ r.
Proof.
  intros Ht. unfold private_dir. rewrite Ht. unfold resolve, path_join. set (x := (_ ++ _)%string).
  change (str_is_empty "/tmp") with false. cbv iota.
  change ("/tmp" ++ "/" ++ x)%string with ("/tmp" +:+ String "/" x). rewrite starts_with_slash by done.
  change (starts_with "/" "/tmp") with true. cbv iota. unfold components. rewrite split_char_sep, List.filter_app.
  unfold canonical. rewrite foldl_app. change (foldl below EmptyString _) with "/tmp"%string. apply below_extends.
Qed.

(** An instance of the plan that is not an object: [--hide] panics after the
    publication. *)
Definition hidden_run := onboarding_run deployment [] ["import"; "new.toml"]%string (mkMode true false) (operator [Str "x"]).
Lemma hidden_plan_panics : fst hidden_run = Err Panic.
Proof. by vm_compute. Qed.

(** ** A green report *)

Definition tabbed (fields : list string) : string := (join (String tab EmptyString) fields ++ newline)%string.
Definition json_text (v : value) : string := bytes_str (put v).
Definition resources_value : value := json_obj [
  ("memoryBytes"%string, num 1048576); ("memorySwapBytes"%string, num 1048576); ("nanoCpus"%string, num 1000000000);
  ("pidsLimit"%string, num 64); ("nofile"%string, num 1024); ("nproc"%string, num 64)].
Definition runtime_value : value :=
  json_obj [("name"%string, Str "runsc"); ("path"%string, Str "/nix/store/0-gvisor/bin/runsc")].
Definition security_text : string :=
  (tabbed ["manifest"; "2"] ++ tabbed ["host"; "strict"; "false"; "true"; "true"; "true"; "true"; "24"]
   ++ tabbed ["management"; "tailscale"; "true"; "true"; "tailnet-policy"]
   ++ tabbed (["agent"; "agent-one"; "strict"] ++ replicate 17 "true" ++ ["true"; "true"; "127.0.0.1:8080"; "false"; "-"; "net-one"]
        ++ [json_text (Array [Str "/var/lib/tentaflake/agents/one:/state"]);
            json_text (json_obj [("/run"%string, num 65536); ("/tmp"%string, num 65536); ("/var/tmp"%string, num 65536)]);
            "true"; json_text resources_value; json_text runtime_value]))%string.
Definition doctor_disk : world :=
  mk_world {["/etc/tentaflake/security.tsv"%string := 1]} {[1 := mk_inode Regular 420 0 (str_bytes security_text)]}
    2 [] 1 [] [] 0.
Definition brokered_live : value := Array [json_obj [
  ("State"%string, json_obj [("Running"%string, Bool true)]);
  ("HostConfig"%string, match host_config with Object m => Object (obj_insert "NetworkMode" (Str "net-one") m) | v => v end);
  ("NetworkSettings"%string, json_obj [("Networks"%string, json_obj [("net-one"%string, json_obj [])]); ("Ports"%string, json_obj [])]);
  ("Config"%string, json_obj [("User"%string, Str "10000:10000")]);
  ("Mounts"%string, Array [json_obj [("Type"%string, Str "bind"); ("Source"%string, Str "/var/lib/tentaflake/agents/one");
                                     ("Destination"%string, Str "/state"); ("RW"%string, Bool true)]]);
  ("AppArmorProfile"%string, Str "docker-default")]].
Definition network_value : value :=
  Array [json_obj [("Name"%string, Str "net-one"); ("Internal"%string, Bool true); ("Driver"%string, Str "bridge")]].
Definition healthy : probe :=
  mkProbe true true true (Some (str_bytes ("HTTP/1.1 200 OK" ++ crlf ++ crlf ++ quoted "{'status':'ready'}"))).
Definition watched : cli :=
  mkCli doctor_disk (mkEnvironment None false "/root" "/tmp" 7 (Some 3600)) [] []
    [Ok (mkOutcome (Some 0) (str_bytes ("Filesystem" ++ newline ++ "/dev/root 100 10 90 10% /" ++ newline)) []);
     Ok (mkOutcome (Some 0) (put (json_obj [])) [])]
    [child_prints (put brokered_live); child_prints (put network_value)] [healthy] [] None [].
Definition doctor_run := security_doctor deployment (mkMode false false) watched.
Lemma doctor_pair : security_doctor deployment (mkMode false false) watched = (Ok 0, snd doctor_run).
Proof. assert (fst doctor_run = Ok 0) as <- by (by vm_compute). unfold doctor_run. apply surjective_pairing. Qed.
#[local] Strategy 1000 [doctor_run].
